(* ===== verification/_CoqProject ===== *)
-Q . S2P
Prelude.v
Common.v
TrieEncoding.v
Trie.v
TrieSpec.v
TrieMap.v
TrieCanon.v
Rlp.v
Sha3.v
TrieHash.v
TrieMerkle.v
TrieIter.v
TrieIterSpec.v
RlpRaw.v
TrieBinding.v
TrieProof.v
TrieDb.v
TrieDbInv.v
TrieDbSpec.v
TrieDbGc.v
TrieStore.v
TrieReopen.v
TrieDbStore.v
RlpStream.v
DposContext.v
Header.v
EpochContext.v
Params.v
Transaction.v
Block.v
SecureTrie.v
State.v
StateSpec.v
StateRoot.v
Dpos.v
EvmState.v
EvmWord.v
EvmCode.v
EvmMachine.v
EvmPrecompiles.v
EvmCalls.v
EvmContext.v
EvmGas.v
EvmInstr.v
EvmInterp.v
EvmInv.v
EvmCallSpec.v
EvmGasSpec.v
EvmInstrSpec.v
EvmSpec.v
EvmTheorems.v
