(* ===== verification/Prelude.v ===== *)
(** * Verification of a delegated-proof-of-stake Ethereum node

    The program is a fork of go-ethereum in which blocks are made by elected
    validators.  Candidates register and accounts delegate their stake by
    transactions; at the start of every epoch the candidates with most stake are
    elected, shuffled, and take turns in the slots of the epoch; a block is
    confirmed once two thirds plus one of the validators have built on it.  This
    library models that part of the program, and the layers below it down to the
    permutation of the hash function and up to the virtual machine, and proves it
    correct or says where it is not.

    ** The parts and their files

    Storage.  [TrieEncoding] ([src/trie/encoding.go]) has the key encodings, [Trie]
    ([trie.go], [node.go]) the Merkle-Patricia trie with lazily loaded nodes,
    [TrieHash] ([hasher.go]) its hashing, [TrieIter] ([iterator.go]) its iterators.
    [TrieSpec], [TrieMap], [TrieCanon], [TrieMerkle], [TrieBinding] and
    [TrieIterSpec] are the theorems: the trie is a finite map
    ([TrieMap.trie_run_refines]), its root hash is determined by the bindings
    ([TrieMerkle.root_hash_content]) and determines them
    ([TrieBinding.root_hash_binding]), iteration visits the bindings with a prefix
    in order ([TrieIterSpec.iterate_entries]).  The node store is the function
    [dbnode : hash -> generation -> option node]; [db_coherent] says that what it
    returns has its cached hashes right.  [TrieProof] ([node.go], [proof.go]) decodes
    stored nodes and makes and verifies Merkle proofs.  [TrieDb] ([database.go]) is the
    database below the tries: the cache of nodes with its reference counts and flush
    list, above the disk.  [TrieDbInv] has its invariant and the operations on the
    memory, [TrieDbSpec] those that write, [TrieDbGc] the sequences of operations and
    the theorems.  [TrieStore] has what a commit asks of a node store, [TrieReopen] the
    tries over such a store, and [TrieDbStore] shows that the database is one.

    Serialisation.  [Rlp] ([src/rlp/encode.go]), [RlpRaw] ([raw.go]) and [RlpStream]
    ([decode.go]): the two-pass encoder computes the recursive definition
    ([Rlp.encode_reference]), raw splitting accepts exactly canonical encodings
    ([RlpRaw.split_exact]), the stream decoder inverts the encoder
    ([RlpStream.decode_roundtrip]) on values in canonical form.  Go's reflection is the type descriptor [rtype]
    and the value [rval].

    Hashing.  [Sha3] ([src/crypto/sha3]): the unrolled permutation and the buffered
    sponge compute the Keccak function ([Sha3.sponge_reference]).  Other files use
    it through the class [Keccak], so their theorems hold for every 32-byte hash;
    where a theorem needs that different inputs have different hashes, the inputs
    are named in a hypothesis ([no_collision]).

    Consensus data.  [Common] ([src/common/types.go]); [DposContext]
    ([src/core/types/dpos_context.go]), the five tries of the election;
    [Header], [Transaction] and [Block] ([block.go], [transaction.go],
    [transaction_signing.go], [receipt.go], [log.go], [bloom9.go],
    [derive_sha.go] of [src/core/types]); [Params] ([src/params]).

    State.  [SecureTrie] ([src/trie/secure_trie.go]) hashes the keys of a trie; [State]
    ([statedb.go], [state_object.go], [journal.go] of [src/core/state]) is the
    database of accounts above it, with its caches, journal and snapshots.
    [StateSpec] shows that it implements a map from addresses to accounts whose
    snapshots are whole copies ([StateSpec.state_refines]), [StateRoot] what is in the
    trie after a transaction ([finalise_content]) and that the root does not depend on
    the order of Go's maps ([intermediate_root_order]).

    Consensus.  [EpochContext] ([src/consensus/dpos/epoch_context.go], [tryElect] of
    [api.go]) and [Dpos] ([dpos.go], the rest of [api.go],
    [src/consensus/misc/forks.go]).  [Dpos] calls [EpochContext], which works on
    a [DposContext], which is five [Trie]s, and [State], which it credits and reads;
    headers carry the roots of the tries and are hashed and signed through [Rlp] and
    [Sha3].

    Virtual machine.  [EvmWord] ([src/common/math/big.go] and the computations of
    [src/core/vm/instructions.go]) has the arithmetic of 256-bit words, [EvmCode]
    ([opcodes.go], [analysis.go]) the opcodes and the analysis of jump destinations,
    [EvmMachine] ([memory.go], [contract.go], [common.go], [gas.go], [errors.go])
    memory, contracts and prices, [EvmPrecompiles] ([contracts.go]) the precompiled
    contracts, [EvmCalls] ([evm.go]) calls and creations, [EvmContext]
    ([src/core/evm.go]) the context of a message, [EvmGas] ([gas_table.go],
    [memory_table.go], [stack.go], [stack_table.go]) the stack and the gas functions,
    [EvmInstr] ([instructions.go]) the instructions, [EvmInterp] ([jump_table.go],
    [interpreter.go]) the jump tables of all phases and the loop.  The machine works
    on the class [EvmState.StateOps], the interface [vm.StateDB]; [statedb_laws] shows
    that [State] implements it, [spec_laws] that the specification of [StateSpec] does,
    so the machine also runs on a map of accounts.  The proofs go up the same way:
    [EvmInv] has the invariant of the world and what a piece of a run may do to it
    ([moves]), [EvmCallSpec] proves calls and creations against any interpreter that
    keeps [run_spec], [EvmGasSpec] and [EvmInstrSpec] the gas functions and the
    instructions ([gas_post], [exec_ok]), [EvmSpec] the rows of the tables ([op_ok]),
    a round and, by induction on the fuel, the loop, which closes the circle;
    [EvmTheorems] states the results over the state database.

    ** How the code is modelled

    A Go function that can fail returns [outcome E A]: a value, an error, a panic,
    or [OutOfFuel].  A method that changes its receiver is a computation in
    [SM S E A]: it returns the new receiver together with an error or a result, so
    what was changed before an error stays changed.  Machine integers are [Z] with
    the wrap-around written out ([u64], [i64]), [*big.Int] is [Z] or [option Z] when
    it may be nil, bytes are [Z] with [bytes_ok], Go maps are [gmap].  Where a
    loop ranges over a Go map, either what is iterated is sorted by a total order
    ([EpochContext.sort_unique]) or the order is an argument ([State.iteration]) and
    shown not to matter.

    Code that is not modelled is an interface with the laws that are used: [Rand]
    ([math/rand]), [Ecdsa] (the C library below [src/crypto/secp256k1]) and [Native]
    (SHA-256 and RIPEMD-160 of other packages, and the curve bn256 of
    [src/crypto/bn256], which is assembly on the usual platforms).  Their functions are
    assumed to return, with results of the right size; nothing is assumed of what they
    compute.  The limit of the Go runtime on allocations is the class [Runtime].  The
    clock, the stop channel, the key store and the outcomes of writes to the disk are
    arguments or parts of the state.

    ** What the theorems show

    - Votes: registering, delegating and withdrawing compute the obvious operations
      on finite maps ([DposContext.dpos_refines]) and keep votes and delegations
      consistent ([ballot_invariant]); removing a candidate does not.
    - Elections: the validators stored are a permutation of the candidates with most
      stake ([EpochContext.elect_top]); elections happen once per epoch
      ([try_elect_once]); removal of idle validators stops at the safe size
      ([kickout_keeps_safe]); slots go round-robin ([lookup_round_robin]).  All of
      this is about delegation tries without a prefix; on the tries the program
      opens, a mismatch of key prefixes makes every vote count zero
      ([election_ignores_votes]) and leaves votes for removed candidates behind
      ([DposContext.kickout_prefixed]).
    - Chain: which headers are accepted and that all are answered if no field that is
      read is nil ([Dpos.verify_headers_chain]), that an
      accepted seal is by the owner of the slot ([seal_verified]), that made blocks
      are accepted ([sealed_accepted]), what stands behind a confirmed block
      ([confirmed_quorum]) and when it must advance ([confirm_advances]), also when the
      write to the database fails, the effect of [Finalize] on the state, the context
      and the header ([finalize_block]), the mint counts ([mint_count_updated]) and
      the slots of the clock ([slot_deadline]).
    - Proofs: an accepted proof gives the value the trie has
      ([TrieProof.verify_proof_sound]), the proof of a trie is accepted
      ([prove_verify]).
    - Garbage collection: whatever is inserted, referenced, released, capped and
      committed, and whichever writes fail, nothing a held root leads to is lost
      ([TrieDbGc.gc_safe]), and a committed trie is on the disk ([commit_durable]), as
      long as the callers keep to their contract, no count overflows ([parents_overflow]
      is what happens then), and nothing is done after a batch of preimages failed
      ([commit_lock_leak]: the lock is left taken).
    - Persistence: a trie opened at a root of the database, changed and committed, can be
      opened at its new root with the new bindings, from the memory or from the disk, as
      long as that root is held, under the same conditions and if hashes do not collide
      ([TrieDbStore.trie_survives]).
    - Commitments: header hash, signing hashes, context root, transaction and receipt
      roots bind what they should ([header_hash_binding], [sighash_covers],
      [context_root_binding], [derive_sha_binding]), with the exceptions found: the
      block interval and the transaction type are not signed.
    - Data: transactions, receipts, validators, signatures and bloom filters survive
      their round trips ([tx_decode_roundtrip], [sign_sender], [receipt_roundtrip],
      [validators_roundtrip], [bloom_complete]); configurations are replaced only
      when they agree on the past ([Params.config_rewind]).
    - Machine: every call and creation ends with at most the gas it was given, without
      a panic ([EvmTheorems.call_ends], [create_atomic]); one that fails leaves the
      world as it was ([call_atomic]) and, but for reverts, no gas ([call_errors]);
      no value is created ([call_supply]); static calls change nothing
      ([static_call_quiet]); frames stay well formed ([round_typed]); arithmetic,
      shifts and jumps do what they should ([arithmetic_exact], [shifts_exact],
      [jump_exact]); memory costs what it should up to 2^32 words
      ([EvmMachine.memory_gas_exact]) and wraps around beyond ([memory_gas_wraps]);
      the modular power is one ([EvmPrecompiles.modexp_exact]); the hashes BLOCKHASH
      gives are those of the branch ([EvmContext.get_hash_branch]).  These theorems
      are about an amount of gas below 2^60 and at most a third of the bytes the runtime
      can allocate (with more, [modexp_panics]), inputs and codes below 2^60 bytes, and
      balances that add up to less than 2^256.

    ** Fuel

    Recursion that is not structural takes fuel, and the theorems say how much is
    enough: trie operations get [2 * len(key) + 3] steps from their wrappers, which
    is proved sufficient; iteration needs as many steps as the trie has nodes, so
    theorems say that from some amount on the result is the same
    ([exists N, forall fuel, N <= fuel -> ...]); the confirmation loop needs as many
    steps as the chain has blocks; the decoder's fuel is the input size.  The loop of
    the virtual machine, and each run below it, gets a unit less than the one above;
    more fuel than gas is enough, since every instruction that does not end the run
    costs gas and a callee gets less than the caller paid.  Releasing, committing and
    uncaching in the node database get the size of the cache, which bounds the depth
    of the references; the verification of a proof gets the length of the key.

    ** What is not modelled

    The curves of [src/crypto], the commit of the state database, the transaction pool, block import and
    reorganisation, and everything that is network, user interface or process control.
    The pools of hashers, encoders and integers, the
    cache of jump destinations, tracing and the parallel hashing of subtrees do not
    change results and are left out, as are locks but for the one of the node
    database: each operation is modelled as it runs alone.

    In several files a translation of the comments has swallowed code: the text from
    [StateTransition.to] on in [src/core/state_transition.go], and the bodies of
    functions in [state_processor.go], [block_validator.go], [blockchain.go] of
    [src/core], [src/miner/worker.go], [src/p2p/rlpx.go], [src/eth/api.go],
    [src/internal/ethapi/api.go] and [src/event/feed.go].  What stands there is not Go
    any more, and is not modelled.

    This file has what all others share: results, the state monad, integers, bytes
    and their lemmas and tactics. *)

From stdpp Require Export base tactics list gmap strings sorting.
From Stdlib Require Export ZArith Lia.

#[global] Open Scope Z_scope.

(** ** Go results

    A Go call returns a value, returns a non-nil error, panics, or (for a loop
    whose bound is not structural) runs past the fuel the model gives it. *)

Inductive outcome (E A : Type) : Type :=
  | Ok (a : A)
  | Err (e : E)
  | Panic
  | OutOfFuel.
Arguments Ok {E A} a.
Arguments Err {E A} e.
Arguments Panic {E A}.
Arguments OutOfFuel {E A}.

#[global] Instance outcome_ret E : MRet (outcome E) := fun A a => Ok a.
#[global] Instance outcome_bind E : MBind (outcome E) := fun A B f m =>
  match m with
  | Ok a => f a
  | Err e => Err e
  | Panic => Panic
  | OutOfFuel => OutOfFuel
  end.
#[global] Instance outcome_fmap E : FMap (outcome E) := fun A B f m =>
  match m with
  | Ok a => Ok (f a)
  | Err e => Err e
  | Panic => Panic
  | OutOfFuel => OutOfFuel
  end.

(** An index or map access that Go turns into a run-time panic. *)
Definition or_panic {E A} (o : option A) : outcome E A :=
  match o with Some a => Ok a | None => Panic end.

(** Relabelling the errors of one package as those of its caller. *)
Definition map_err {E F A} (f : E -> F) (m : outcome E A) : outcome F A :=
  match m with
  | Ok a => Ok a
  | Err e => Err (f e)
  | Panic => Panic
  | OutOfFuel => OutOfFuel
  end.

(** Neither a panic nor out of fuel. *)
Definition settled {E A} (m : outcome E A) : Prop := (exists a, m = Ok a) \/ (exists e, m = Err e).

Definition is_ok {E A} (m : outcome E A) : Prop := exists a, m = Ok a.

Lemma bind_ok_inv {E A B} (m : outcome E A) (f : A -> outcome E B) b :
  (m ≫= f) = Ok b -> exists a, m = Ok a /\ f a = Ok b.
Proof. destruct m; simpl; try discriminate. eauto. Qed.

Lemma or_panic_ok_inv {E A} (o : option A) a :
  @or_panic E A o = Ok a -> o = Some a.
Proof. destruct o; simpl; congruence. Qed.

Lemma settled_bind {E A B} (m : outcome E A) (f : A -> outcome E B) :
  settled m -> (forall a, m = Ok a -> settled (f a)) -> settled (m ≫= f).
Proof. intros [[a ->]|[e ->]] Hf; [by apply Hf|right; by exists e]. Qed.

(** [inv_ok]: peel every [bind] and [or_panic] of a successful run. *)
Ltac inv_ok_step :=
  match goal with
  | H : (_ ≫= _) = Ok _ |- _ =>
      let a := fresh "a" in
      let H1 := fresh H in
      apply bind_ok_inv in H as (a & H1 & H); simpl in H
  | H : or_panic _ = Ok _ |- _ => apply or_panic_ok_inv in H
  | H : Ok _ = Ok _ |- _ => injection H as H; try subst
  | H : mret _ = Ok _ |- _ => injection H as H; try subst
  | H : Err _ = Ok _ |- _ => discriminate H
  | H : Panic = Ok _ |- _ => discriminate H
  | H : OutOfFuel = Ok _ |- _ => discriminate H
  end.
Ltac inv_ok := repeat inv_ok_step.

(** ** State with errors *)

(** A Go method on a mutable receiver that returns an error: the new state of
    the receiver together with an error or a result; the receiver keeps what was
    changed before the error.  Panics and lack of fuel abort everything. *)
Definition SM (S E A : Type) : Type := S -> outcome Empty_set (S * (E + A)).

#[global] Instance SM_ret {S E} : MRet (SM S E) := fun A a s => Ok (s, inr a).
#[global] Instance SM_bind {S E} : MBind (SM S E) := fun A B f m s =>
  match m s with
  | Ok (s, inr a) => f a s
  | Ok (s, inl e) => Ok (s, inl e)
  | Err e => match e with end
  | Panic => Panic
  | OutOfFuel => OutOfFuel
  end.

Definition throw {S E A} (e : E) : SM S E A := fun s => Ok (s, inl e).
Definition panic {S E A} : SM S E A := fun _ => Panic.
Definition gets {S E A} (f : S -> A) : SM S E A := fun s => Ok (s, inr (f s)).
Definition modify {S E} (f : S -> S) : SM S E unit := fun s => Ok (f s, inr tt).

(** Look at the error of [m] and go on. *)
Definition handle {S E F A B} (m : SM S E A) (k : E + A -> SM S F B) : SM S F B := fun s =>
  match m s with
  | Ok (s, r) => k r s
  | Err e => match e with end
  | Panic => Panic
  | OutOfFuel => OutOfFuel
  end.

Definition with_err {S E F A} (f : E -> F) (m : SM S E A) : SM S F A :=
  handle m (fun r => match r with inl e => throw (f e) | inr a => mret a end).

(** A computation outside the state. *)
Definition pure {S E F A} (f : F -> E) (o : outcome F A) : SM S E A := fun s =>
  match o with
  | Ok a => Ok (s, inr a)
  | Err e => Ok (s, inl (f e))
  | Panic => Panic
  | OutOfFuel => OutOfFuel
  end.

(** The dereference of a pointer that may be nil. *)
Definition must {S E A} (o : option A) : SM S E A := match o with Some a => mret a | None => panic end.

Lemma sm_bind_ok {S E A B} (m : SM S E A) (f : A -> SM S E B) s s' a :
  m s = Ok (s', inr a) -> (m ≫= f) s = f a s'.
Proof. unfold mbind, SM_bind. by intros ->. Qed.

Lemma sm_bind_err {S E A B} (m : SM S E A) (f : A -> SM S E B) s s' e :
  m s = Ok (s', inl e) -> (m ≫= f) s = Ok (s', inl e).
Proof. unfold mbind, SM_bind. by intros ->. Qed.

Lemma sm_bind_inv {S E A B} (m : SM S E A) (f : A -> SM S E B) s s' r :
  (m ≫= f) s = Ok (s', r) ->
  (exists e, m s = Ok (s', inl e) /\ r = inl e) \/ (exists s1 a, m s = Ok (s1, inr a) /\ f a s1 = Ok (s', r)).
Proof.
  unfold mbind, SM_bind. destruct (m s) as [[s1 [e|a]]|[]| |]; [|by right; exists s1, a|discriminate..].
  intros [= <- <-]. left. by exists e.
Qed.

Lemma sm_bind_ext {S E A B} (m : SM S E A) (f g : A -> SM S E B) s :
  (forall a s', f a s' = g a s') -> (m ≫= f) s = (m ≫= g) s.
Proof. intros Hfg. unfold mbind, SM_bind. by destruct (m s) as [[s1 [e|a]]|[]| |]. Qed.

Lemma handle_run {S E F A B} (m : SM S E A) (k : E + A -> SM S F B) s s' r :
  m s = Ok (s', r) -> handle m k s = k r s'.
Proof. unfold handle. by intros ->. Qed.

(** Run on a part of the state. *)
Definition zoom {S T E A} (get : S -> T) (put : T -> S -> S) (m : SM T Empty_set A) : SM S E A := fun s =>
  match m (get s) with
  | Ok (t, inr a) => Ok (put t s, inr a)
  | Ok (_, inl e) => match e with end
  | Err e => match e with end
  | Panic => Panic
  | OutOfFuel => OutOfFuel
  end.

Lemma zoom_run {S T E A} get put (m : SM T Empty_set A) (s : S) t a :
  m (get s) = Ok (t, inr a) -> zoom (E := E) get put m s = Ok (put t s, inr a).
Proof. intros Hm. unfold zoom. by rewrite Hm. Qed.

(** *** Weakest preconditions

    [wp m Q s]: run from [s], [m] neither panics nor runs out of fuel, and [Q]
    holds of the state and the value or error it ends with. *)

Definition wp {S E A} (m : SM S E A) (Q : S -> E + A -> Prop) (s : S) : Prop :=
  match m s with Ok (s', r) => Q s' r | _ => False end.

(** Going on after a value. *)
Definition and_then {S E A B} (k : A -> S -> Prop) (Q : S -> E + B -> Prop) : S -> E + A -> Prop :=
  fun s r => match r with inl e => Q s (inl e) | inr a => k a s end.

Lemma wp_mono {S E A} (m : SM S E A) (Q Q' : S -> E + A -> Prop) s :
  wp m Q s -> (forall s' r, Q s' r -> Q' s' r) -> wp m Q' s.
Proof. unfold wp. destruct (m s) as [[s' r]| | |]; auto. Qed.

Lemma wp_bind {S E A B} (m : SM S E A) (f : A -> SM S E B) Q s :
  wp m (and_then (fun a => wp (f a) Q) Q) s -> wp (m ≫= f) Q s.
Proof. unfold wp, mbind, SM_bind, and_then. by destruct (m s) as [[s' [e|a]]| | |]. Qed.

Lemma wp_ret {S E A} (a : A) (Q : S -> E + A -> Prop) s : Q s (inr a) -> wp (mret a) Q s.
Proof. done. Qed.
Lemma wp_throw {S E A} (e : E) (Q : S -> E + A -> Prop) s : Q s (inl e) -> wp (throw e) Q s.
Proof. done. Qed.
Lemma wp_gets {S E A} (f : S -> A) (Q : S -> E + A -> Prop) s : Q s (inr (f s)) -> wp (gets f) Q s.
Proof. done. Qed.
Lemma wp_modify {S E} (f : S -> S) (Q : S -> E + unit -> Prop) s : Q (f s) (inr tt) -> wp (modify f) Q s.
Proof. done. Qed.
Lemma wp_must {S E A} (o : option A) a (Q : S -> E + A -> Prop) s : o = Some a -> Q s (inr a) -> wp (must o) Q s.
Proof. by intros ->. Qed.

Lemma wp_pure_ok {S E F A} (g : F -> E) (o : outcome F A) a (Q : S -> E + A -> Prop) s :
  o = Ok a -> Q s (inr a) -> wp (pure g o) Q s.
Proof. by intros ->. Qed.
Lemma wp_pure_err {S E F A} (g : F -> E) (o : outcome F A) e (Q : S -> E + A -> Prop) s :
  o = Err e -> Q s (inl (g e)) -> wp (pure g o) Q s.
Proof. by intros ->. Qed.

Lemma wp_handle {S E F A B} (m : SM S E A) (k : E + A -> SM S F B) Q s :
  wp m (fun s' r => wp (k r) Q s') s -> wp (handle m k) Q s.
Proof. unfold wp, handle. by destruct (m s) as [[s' r]| | |]. Qed.

Lemma wp_with_err {S E F A} (g : E -> F) (m : SM S E A) Q s :
  wp m (fun s' r => Q s' (match r with inl e => inl (g e) | inr a => inr a end)) s -> wp (with_err g m) Q s.
Proof. unfold wp, with_err, handle. by destruct (m s) as [[s' [e|a]]| | |]. Qed.

Lemma wp_zoom {S T E A} get put (m : SM T Empty_set A) (Q : S -> E + A -> Prop) s :
  wp m (fun t r => match r with inr a => Q (put t s) (inr a) | inl e => match e with end end) (get s) -> wp (zoom get put m) Q s.
Proof. unfold wp, zoom. by destruct (m (get s)) as [[t [[]|a]]|[]| |]. Qed.

Lemma wp_run {S E A} (m : SM S E A) Q s s' r : m s = Ok (s', r) -> Q s' r -> wp m Q s.
Proof. unfold wp. by intros ->. Qed.

Lemma wp_inv {S E A} (m : SM S E A) Q s : wp m Q s -> exists s' r, m s = Ok (s', r) /\ Q s' r.
Proof. unfold wp. destruct (m s) as [[s' r]| | |]; try done. eauto. Qed.

(** ** Machine integers *)

Definition wrapU (w z : Z) : Z := z mod 2 ^ w.
Definition wrapS (w z : Z) : Z := (z + 2 ^ (w - 1)) mod 2 ^ w - 2 ^ (w - 1).

Abbreviation u8 := (wrapU 8).
Abbreviation u16 := (wrapU 16).
Abbreviation u32 := (wrapU 32).
Abbreviation u64 := (wrapU 64).
Abbreviation i32 := (wrapS 32).
Abbreviation i64 := (wrapS 64).

Definition in_u64 (z : Z) : Prop := 0 <= z < 2 ^ 64.
Definition in_i64 (z : Z) : Prop := - 2 ^ 63 <= z < 2 ^ 63.

Lemma wrapU_range w z : 0 <= w -> 0 <= wrapU w z < 2 ^ w.
Proof. intros. apply Z.mod_pos_bound. lia. Qed.

Lemma wrapU_small w z : 0 <= z < 2 ^ w -> wrapU w z = z.
Proof. intros. by apply Z.mod_small. Qed.

Lemma wrapS_range w z : 0 < w -> - 2 ^ (w - 1) <= wrapS w z < 2 ^ (w - 1).
Proof.
  intros. unfold wrapS.
  pose proof (Z.mod_pos_bound (z + 2 ^ (w - 1)) (2 ^ w)).
  assert (2 ^ w = 2 * 2 ^ (w - 1)) by (rewrite <- Z.pow_succ_r by lia; f_equal; lia).
  lia.
Qed.

Lemma wrapS_small w z :
  0 < w -> - 2 ^ (w - 1) <= z < 2 ^ (w - 1) -> wrapS w z = z.
Proof.
  intros. unfold wrapS.
  assert (2 ^ w = 2 * 2 ^ (w - 1)) by (rewrite <- Z.pow_succ_r by lia; f_equal; lia).
  rewrite Z.mod_small by lia. lia.
Qed.

Lemma u64_small z : in_u64 z -> u64 z = z.
Proof. apply wrapU_small. Qed.

Lemma i64_small z : in_i64 z -> i64 z = z.
Proof. intros. apply wrapS_small; [lia|]. apply H. Qed.

(** [big.Int.Uint64], [Int64] and [BitLen]: the magnitude is truncated. *)
Definition big_Uint64 (z : Z) : Z := u64 (Z.abs z).
Definition big_Int64 (z : Z) : Z := i64 z.
Definition BitLen (z : Z) : Z := if bool_decide (z = 0) then 0 else Z.log2 (Z.abs z) + 1.

Lemma BitLen_le z n : 0 <= z < 2 ^ n -> 0 < n -> BitLen z <= n.
Proof.
  intros Hz Hn. unfold BitLen. case_bool_decide; [lia|]. rewrite Z.abs_eq by lia.
  assert (Z.log2 z < n) by (apply Z.log2_lt_pow2; lia). lia.
Qed.

Lemma BitLen_gt z n : 0 <= n -> n < BitLen z -> 2 ^ n <= Z.abs z.
Proof.
  intros Hn. unfold BitLen. case_bool_decide; [lia|]. intros Hl. apply Z.log2_le_pow2; lia.
Qed.

Lemma BitLen_bound z n : 0 <= n -> BitLen z <= n -> Z.abs z < 2 ^ n.
Proof.
  intros Hn. unfold BitLen. case_bool_decide as Hz; [subst; simpl; lia|]. intros Hl. apply Z.log2_lt_pow2; lia.
Qed.

(** A bitwise or of a shifted value with a value below the shift is a sum. *)
Lemma lor_shiftl_add a b n :
  0 <= n -> 0 <= b < 2 ^ n -> Z.lor (Z.shiftl a n) b = a * 2 ^ n + b.
Proof.
  intros Hn Hb. rewrite <- Z.add_nocarry_lor; [by rewrite Z.shiftl_mul_pow2|].
  apply Z.bits_inj'. intros i Hi. rewrite Z.land_spec, Z.bits_0, Z.shiftl_spec by done.
  destruct (decide (i < n)) as [?|?].
  - by rewrite Z.testbit_neg_r by lia.
  - replace (Z.testbit b i) with false; [by rewrite andb_false_r|].
    rewrite <- (Z.mod_small b (2 ^ n)) by done. symmetry. apply Z.mod_pow2_bits_high. lia.
Qed.

(** ** Bytes *)

Definition is_byte (b : Z) : Prop := 0 <= b < 256.
Definition bytes_ok (l : list Z) : Prop := Forall is_byte l.

#[global] Instance is_byte_dec b : Decision (is_byte b).
Proof. unfold is_byte. apply _. Defined.
#[global] Instance bytes_ok_dec l : Decision (bytes_ok l).
Proof. unfold bytes_ok. apply _. Defined.

Lemma bytes_ok_app l k : bytes_ok (l ++ k) <-> bytes_ok l /\ bytes_ok k.
Proof. apply Forall_app. Qed.

Lemma bytes_ok_take n l : bytes_ok l -> bytes_ok (take n l).
Proof. apply Forall_take. Qed.

Lemma bytes_ok_drop n l : bytes_ok l -> bytes_ok (drop n l).
Proof. apply Forall_drop. Qed.

(** Big-endian encoding of a machine word in [n] bytes
    ([binary.BigEndian.PutUint64] is [be_bytes 8]) and its inverse. *)
Fixpoint be_bytes (n : nat) (z : Z) : list Z :=
  match n with
  | O => []
  | S n => Z.land (Z.shiftr z (8 * Z.of_nat n)) 255 :: be_bytes n z
  end.

Definition be_uint (l : list Z) : Z := fold_left (fun acc b => acc * 256 + b) l 0.

Lemma length_be_bytes n z : length (be_bytes n z) = n.
Proof. induction n; simpl; congruence. Qed.

Lemma land_255 z : Z.land z 255 = z mod 256.
Proof. change 255 with (Z.ones 8). by rewrite Z.land_ones by lia. Qed.

Lemma be_bytes_ok n z : bytes_ok (be_bytes n z).
Proof.
  induction n as [|n IH]; simpl; constructor; auto.
  rewrite land_255. apply Z.mod_pos_bound. lia.
Qed.

Lemma be_fold_shift l a :
  fold_left (fun acc b => acc * 256 + b) l a = a * 256 ^ Z.of_nat (length l) + be_uint l.
Proof.
  unfold be_uint. revert a. induction l as [|b l IH]; intros a; simpl length.
  - simpl. lia.
  - cbn [fold_left]. rewrite (IH (a * 256 + b)), (IH (0 * 256 + b)).
    rewrite Nat2Z.inj_succ, Z.pow_succ_r by lia. lia.
Qed.

Lemma be_uint_cons b l : be_uint (b :: l) = b * 256 ^ Z.of_nat (length l) + be_uint l.
Proof. unfold be_uint at 1. cbn [fold_left]. rewrite be_fold_shift. lia. Qed.

Lemma be_uint_app l k :
  be_uint (l ++ k) = be_uint l * 256 ^ Z.of_nat (length k) + be_uint k.
Proof. unfold be_uint at 1. rewrite fold_left_app. apply be_fold_shift. Qed.

Lemma be_uint_range l : bytes_ok l -> 0 <= be_uint l < 256 ^ Z.of_nat (length l).
Proof.
  induction 1 as [|b l Hb Hl IH]; [cbn; lia|].
  rewrite be_uint_cons. simpl length. rewrite Nat2Z.inj_succ, Z.pow_succ_r by lia.
  unfold is_byte in Hb. nia.
Qed.

Lemma pow256_pos n : 0 < 256 ^ Z.of_nat n.
Proof. apply Z.pow_pos_nonneg; lia. Qed.

Lemma be_uint_be_bytes n z : be_uint (be_bytes n z) = z mod 256 ^ Z.of_nat n.
Proof.
  induction n as [|n IH].
  - cbn. by rewrite Z.mod_1_r.
  - cbn [be_bytes]. rewrite be_uint_cons, length_be_bytes, IH, land_255.
    rewrite Z.shiftr_div_pow2 by lia.
    replace (2 ^ (8 * Z.of_nat n)) with (256 ^ Z.of_nat n)
      by (rewrite Z.pow_mul_r by lia; reflexivity).
    rewrite Nat2Z.inj_succ, Z.pow_succ_r by lia.
    pose proof (pow256_pos n).
    rewrite (Z.mul_comm 256), Z.rem_mul_r by lia. lia.
Qed.

Lemma be_bytes_high m n b x :
  (m <= n)%nat -> be_bytes m (b * 256 ^ Z.of_nat n + x) = be_bytes m x.
Proof.
  induction m as [|m IH]; intros Hm; [done|]. cbn [be_bytes]. f_equal; [|apply IH; lia].
  rewrite !land_255, !Z.shiftr_div_pow2 by lia.
  replace (2 ^ (8 * Z.of_nat m)) with (256 ^ Z.of_nat m)
    by (rewrite Z.pow_mul_r by lia; reflexivity).
  replace (b * 256 ^ Z.of_nat n + x)
    with (x + (b * 256 ^ (Z.of_nat n - Z.of_nat m - 1) * 256) * 256 ^ Z.of_nat m).
  2:{ replace (Z.of_nat n) with (Z.of_nat m + 1 + (Z.of_nat n - Z.of_nat m - 1)) at 2 by lia.
      rewrite !Z.pow_add_r by lia. lia. }
  pose proof (pow256_pos m). rewrite Z.div_add, Z.mod_add by lia. done.
Qed.

Lemma be_bytes_be_uint n l :
  bytes_ok l -> length l = n -> be_bytes n (be_uint l) = l.
Proof.
  intros Hl. revert n. induction Hl as [|b l Hb Hl IH]; intros n <-; [done|].
  cbn [length be_bytes]. rewrite land_255, Z.shiftr_div_pow2 by lia.
  replace (2 ^ (8 * Z.of_nat (length l))) with (256 ^ Z.of_nat (length l))
    by (rewrite Z.pow_mul_r by lia; reflexivity).
  pose proof (be_uint_range l Hl) as Hr. pose proof (pow256_pos (length l)).
  rewrite be_uint_cons, Z.div_add_l, (Z.div_small (be_uint l)), Z.add_0_r by lia.
  rewrite Z.mod_small by apply Hb. f_equal.
  etransitivity; [by apply be_bytes_high | by apply IH].
Qed.

Lemma be_uint_inj l k :
  bytes_ok l -> bytes_ok k -> length l = length k -> be_uint l = be_uint k -> l = k.
Proof.
  intros Hl Hk Hlen E.
  rewrite <- (be_bytes_be_uint (length l) l), <- (be_bytes_be_uint (length l) k) by done.
  by rewrite E.
Qed.

Create HintDb godb.
#[export] Hint Resolve bytes_ok_take bytes_ok_drop : godb.

(** ** Lists *)

Lemma filter_none {A} (P : A -> Prop) `{!forall x, Decision (P x)} l :
  Forall (fun x => ~ P x) l -> filter P l = [].
Proof. induction 1 as [|x l Hx _ IH]; [done|]. by rewrite filter_cons_False. Qed.

Lemma filter_all {A} (P : A -> Prop) `{!forall x, Decision (P x)} l :
  Forall P l -> filter P l = l.
Proof. induction 1 as [|x l Hx _ IH]; [done|]. by rewrite filter_cons_True, IH. Qed.
