(* ===== verification/Common.v ===== *)
(** * Fixed-size byte arrays ([src/common/types.go])

    [common.Hash] is [\[32\]byte] and [common.Address] is [\[20\]byte]; both are
    lists of bytes here, and the fixed length is the predicate [hash_ok] or
    [address_ok]. *)

From S2P Require Import Prelude.

Definition HashLength : nat := 32.
Definition AddressLength : nat := 20.

Definition zeroes (n : nat) : list Z := replicate n 0.

(** The shared body of [Hash.SetBytes] and [Address.SetBytes] on a zeroed array:
    crop from the left, then right-align. *)
Definition setBytes (len : nat) (b : list Z) : list Z :=
  let b := if (len <? length b)%nat then drop (length b - len) b else b in
  zeroes (len - length b) ++ b.

Definition BytesToHash (b : list Z) : list Z := setBytes HashLength b.
Definition BytesToAddress (b : list Z) : list Z := setBytes AddressLength b.

(** [common.Hash{}] and [common.Address{}]. *)
Definition emptyHash : list Z := zeroes HashLength.
Definition emptyAddress : list Z := zeroes AddressLength.

Definition hash_ok (h : list Z) : Prop := length h = HashLength /\ bytes_ok h.
Definition address_ok (a : list Z) : Prop := length a = AddressLength /\ bytes_ok a.

#[global] Instance hash_ok_dec h : Decision (hash_ok h).
Proof. unfold hash_ok. apply _. Defined.
#[global] Instance address_ok_dec a : Decision (address_ok a).
Proof. unfold address_ok. apply _. Defined.

Lemma setBytes_length n b : length (setBytes n b) = n.
Proof.
  unfold setBytes, zeroes. case_match eqn:E.
  - apply Nat.ltb_lt in E. rewrite length_app, length_replicate, length_drop. lia.
  - apply Nat.ltb_ge in E. rewrite length_app, length_replicate. lia.
Qed.

Lemma setBytes_id n b : length b = n -> setBytes n b = b.
Proof.
  intros <-. unfold setBytes. rewrite Nat.ltb_irrefl, Nat.sub_diag. done.
Qed.

Lemma bytes_ok_zeroes n : bytes_ok (zeroes n).
Proof. apply Forall_replicate. unfold is_byte. lia. Qed.

Lemma setBytes_bytes_ok n b : bytes_ok b -> bytes_ok (setBytes n b).
Proof.
  intros. unfold setBytes. apply bytes_ok_app. split; [apply bytes_ok_zeroes|].
  case_match; auto with godb.
Qed.

Lemma BytesToHash_id h : hash_ok h -> BytesToHash h = h.
Proof. intros [? _]. by apply setBytes_id. Qed.

Lemma BytesToAddress_id a : address_ok a -> BytesToAddress a = a.
Proof. intros [? _]. by apply setBytes_id. Qed.

Lemma BytesToAddress_ok b : bytes_ok b -> address_ok (BytesToAddress b).
Proof. split; [apply setBytes_length | by apply setBytes_bytes_ok]. Qed.

Lemma be_uint_zeroes n b : be_uint (zeroes n ++ b) = be_uint b.
Proof.
  unfold zeroes. induction n as [|n IH]; [done|]. simpl. rewrite be_uint_cons, IH. lia.
Qed.

#[export] Hint Resolve BytesToAddress_id BytesToHash_id BytesToAddress_ok : godb.
