(* ===== verification/TrieEncoding.v ===== *)
(** * Trie key encodings ([src/trie/encoding.go])

    The three encodings of a trie key: KEYBYTES (the raw bytes), HEX (one nibble
    per element, with an optional terminator 16) and COMPACT (the hex-prefix
    encoding stored in the database).  Go slices are lists; an index or slice
    expression out of range, or an explicit [panic], is [None]. *)

From S2P Require Import Prelude.

(** The terminator element that marks the end of a full key. *)
Definition terminator : Z := 16.

(** [hasTerm]: whether a HEX key carries the terminator. *)
Definition hasTerm (s : list Z) : bool :=
  match last s with Some x => bool_decide (x = 16) | None => false end.

(** [decodeNibbles]: two nibbles per byte; an odd number of nibbles reads past
    the end of the slice. *)
Fixpoint decodeNibbles (nibbles : list Z) : option (list Z) :=
  match nibbles with
  | [] => Some []
  | hi :: lo :: rest =>
      bs ← decodeNibbles rest;
      Some (Z.lor (u8 (Z.shiftl hi 4)) lo :: bs)
  | _ :: [] => None
  end.

(** [keybytesToHex]: the nibbles of every byte, then the terminator. *)
Fixpoint keybytesToHex (str : list Z) : list Z :=
  match str with
  | [] => [terminator]
  | b :: str => b / 16 :: b mod 16 :: keybytesToHex str
  end.

(** [hexToKeybytes]: drops the terminator and packs the nibbles; an odd length
    is an explicit panic. *)
Definition hexToKeybytes (hex : list Z) : option (list Z) :=
  let hex := if hasTerm hex then take (length hex - 1) hex else hex in
  if Nat.odd (length hex) then None else decodeNibbles hex.

(** [hexToCompact]: the hex-prefix encoding.  Bit 5 of the first byte is the
    terminator flag, bit 4 the odd flag, and an odd key keeps its first nibble
    in the low half. *)
Definition hexToCompact (hex : list Z) : option (list Z) :=
  let term := if hasTerm hex then 1 else 0 in
  let hex := if hasTerm hex then take (length hex - 1) hex else hex in
  let buf0 := u8 (Z.shiftl term 5) in
  if Nat.odd (length hex) then
    match hex with
    | [] => None
    | h0 :: hex =>
        bs ← decodeNibbles hex;
        Some (Z.lor (Z.lor buf0 (Z.shiftl 1 4)) h0 :: bs)
    end
  else
    bs ← decodeNibbles hex;
    Some (buf0 :: bs).

(** [compactToHex]: inverse of [hexToCompact]; the empty slice panics when the
    two flag nibbles are chopped off. *)
Definition compactToHex (compact : list Z) : option (list Z) :=
  let base := keybytesToHex compact in
  match base with
  | [] => None
  | b0 :: _ =>
      let base := if bool_decide (b0 < 2) then take (length base - 1) base else base in
      let chop := Z.to_nat (2 - Z.land b0 1) in
      if (chop <=? length base)%nat then Some (drop chop base) else None
  end.

(** [prefixLen]: length of the longest common prefix. *)
Fixpoint prefixLen (a b : list Z) : nat :=
  match a, b with
  | x :: a, y :: b => if bool_decide (x = y) then S (prefixLen a b) else O
  | _, _ => O
  end.

(** ** Well-formed HEX keys *)

Definition is_nibble (x : Z) : Prop := 0 <= x < 16.
Definition nibbles_ok (l : list Z) : Prop := Forall is_nibble l.

(** A HEX key: nibbles, then possibly the terminator. *)
Definition hex_ok (l : list Z) : Prop :=
  nibbles_ok l \/ exists k, nibbles_ok k /\ l = k ++ [terminator].

#[global] Instance is_nibble_dec b : Decision (is_nibble b).
Proof. unfold is_nibble. apply _. Defined.
#[global] Instance nibbles_ok_dec l : Decision (nibbles_ok l).
Proof. unfold nibbles_ok. apply _. Defined.

(** ** Facts about the encodings *)

Lemma hasTerm_snoc l : hasTerm (l ++ [terminator]) = true.
Proof. unfold hasTerm. by rewrite last_snoc. Qed.

Lemma hasTerm_nibbles l : nibbles_ok l -> hasTerm l = false.
Proof.
  intros H. unfold hasTerm. destruct (last l) as [x|] eqn:E; [|done].
  apply last_Some_elem_of in E. eapply Forall_forall in H; [|exact E].
  apply bool_decide_eq_false. unfold is_nibble in H. lia.
Qed.

Lemma keybytesToHex_length k : length (keybytesToHex k) = (2 * length k + 1)%nat.
Proof. induction k; simpl; lia. Qed.

(** The nibbles of a key, without the terminator. *)
Fixpoint key_nibbles (str : list Z) : list Z :=
  match str with
  | [] => []
  | b :: str => b / 16 :: b mod 16 :: key_nibbles str
  end.

Lemma keybytesToHex_nibbles k : keybytesToHex k = key_nibbles k ++ [terminator].
Proof. induction k; simpl; congruence. Qed.

Lemma key_nibbles_ok k : bytes_ok k -> nibbles_ok (key_nibbles k).
Proof.
  induction 1 as [|b k Hb Hk IH]; simpl; [constructor|].
  unfold is_byte in Hb.
  repeat constructor; auto; try apply Z.mod_pos_bound; try lia.
  - apply Z.div_pos; lia.
  - apply Z.div_lt_upper_bound; lia.
Qed.

Lemma key_nibbles_length k : length (key_nibbles k) = (2 * length k)%nat.
Proof. induction k; simpl; lia. Qed.

Lemma key_nibbles_app a b : key_nibbles (a ++ b) = key_nibbles a ++ key_nibbles b.
Proof. induction a; simpl; congruence. Qed.

Lemma pack_nibbles hi lo :
  is_nibble hi -> is_nibble lo -> Z.lor (u8 (Z.shiftl hi 4)) lo = hi * 16 + lo.
Proof.
  unfold is_nibble. intros. rewrite wrapU_small by (rewrite Z.shiftl_mul_pow2; lia).
  apply lor_shiftl_add; lia.
Qed.

Lemma decodeNibbles_key_nibbles k : bytes_ok k -> decodeNibbles (key_nibbles k) = Some k.
Proof.
  induction 1 as [|b k Hb Hk IH]; simpl; [done|].
  pose proof (key_nibbles_ok [b] (proj2 (Forall_singleton _ _) Hb)) as Hn.
  inversion_clear Hn as [|?? H1 Hn']. inversion_clear Hn' as [|?? H2 _].
  rewrite IH. simpl. rewrite pack_nibbles by done. do 2 f_equal.
  pose proof (Z.div_mod b 16). lia.
Qed.

(** Packing an even number of nibbles always succeeds, and the nibbles can be
    read back. *)
Lemma decodeNibbles_even n l :
  nibbles_ok l -> length l = (2 * n)%nat ->
  exists bs, decodeNibbles l = Some bs /\ bytes_ok bs /\ key_nibbles bs = l.
Proof.
  revert l. induction n as [|n IH]; intros l Hl Hlen.
  - destruct l; [|simpl in Hlen; lia]. exists []. repeat constructor.
  - destruct l as [|hi [|lo l]]; simpl in Hlen; try lia.
    inversion_clear Hl as [|?? Hhi Hl']. inversion_clear Hl' as [|?? Hlo Hl].
    destruct (IH l Hl ltac:(lia)) as (bs & E & Hb & Hr).
    exists (hi * 16 + lo :: bs). simpl. rewrite E. simpl. rewrite pack_nibbles by done.
    unfold is_nibble in *. split; [done|]. split.
    + constructor; [unfold is_byte; lia|done].
    + rewrite Z.div_add_l, (Z.div_small lo), Z.add_0_r by lia.
      rewrite Z.add_comm, Z.mod_add, Z.mod_small by lia. by rewrite Hr.
Qed.

Lemma take_snoc (l : list Z) x : take (length (l ++ [x]) - 1) (l ++ [x]) = l.
Proof.
  rewrite length_app. simpl. rewrite Nat.add_sub. by rewrite take_app_length.
Qed.

Lemma hexToKeybytes_keybytesToHex k :
  bytes_ok k -> hexToKeybytes (keybytesToHex k) = Some k.
Proof.
  intros Hk. unfold hexToKeybytes. rewrite keybytesToHex_nibbles, hasTerm_snoc, take_snoc.
  rewrite key_nibbles_length, Nat.odd_mul. simpl. by apply decodeNibbles_key_nibbles.
Qed.

Lemma key_nibbles_inj a b :
  bytes_ok a -> bytes_ok b -> key_nibbles a = key_nibbles b -> a = b.
Proof.
  intros Ha Hb E. apply decodeNibbles_key_nibbles in Ha, Hb. congruence.
Qed.

Lemma keybytesToHex_inj a b :
  bytes_ok a -> bytes_ok b -> keybytesToHex a = keybytesToHex b -> a = b.
Proof.
  rewrite !keybytesToHex_nibbles. intros ?? [E _]%app_inj_tail. by apply key_nibbles_inj.
Qed.

(** ** The hex-prefix round trip *)

(** The compact form written as the sequence of its nibbles. *)
Lemma hexToCompact_spec k (t : bool) :
  nibbles_ok k ->
  let hex := if t then k ++ [terminator] else k in
  let flag := (if t then 2 else 0) + (if Nat.odd (length k) then 1 else 0) in
  exists c, hexToCompact hex = Some c /\ bytes_ok c /\
    key_nibbles c = if Nat.odd (length k) then flag :: k else flag :: 0 :: k.
Proof.
  intros Hk hex flag.
  assert (hasTerm hex = t) as Ht
    by (subst hex; destruct t; [apply hasTerm_snoc | by apply hasTerm_nibbles]).
  assert ((if hasTerm hex then take (length hex - 1) hex else hex) = k) as Hh
    by (rewrite Ht; subst hex; destruct t; [apply take_snoc|done]).
  unfold hexToCompact. rewrite Hh, Ht.
  destruct (Nat.odd (length k)) eqn:Eo.
  - destruct k as [|h0 k]; [done|]. inversion_clear Hk as [|?? Hh0 Hk'].
    apply Nat.odd_spec in Eo as [n Hn]. simpl in Hn.
    destruct (decodeNibbles_even n k Hk' ltac:(lia)) as (bs & E & Hb & Hr).
    rewrite E. unfold is_nibble in Hh0.
    assert (Z.lor (Z.lor (u8 (Z.shiftl (if t then 1 else 0) 5)) (Z.shiftl 1 4)) h0
            = flag * 16 + h0) as ->.
    { subst flag. destruct t;
        [change (Z.lor (u8 (Z.shiftl 1 5)) (Z.shiftl 1 4)) with (Z.shiftl 3 4)
        |change (Z.lor (u8 (Z.shiftl 0 5)) (Z.shiftl 1 4)) with (Z.shiftl 1 4)];
        rewrite lor_shiftl_add by lia; lia. }
    eexists. split; [done|].
    assert (0 <= flag < 4) by (subst flag; destruct t; lia). split.
    + constructor; [unfold is_byte; lia|done].
    + cbn [key_nibbles]. rewrite Z.div_add_l, (Z.div_small h0), Z.add_0_r by lia.
      rewrite (Z.add_comm _ h0), Z.mod_add, (Z.mod_small h0) by lia. by rewrite Hr.
  - assert (Nat.even (length k) = true) as Ee by (rewrite <- Nat.negb_odd; by rewrite Eo).
    apply Nat.even_spec in Ee as [n Hn].
    destruct (decodeNibbles_even n k Hk ltac:(lia)) as (bs & E & Hb & Hr).
    rewrite E. eexists. split; [done|]. subst flag. split.
    + constructor; [destruct t; by vm_compute|done].
    + cbn [key_nibbles]. rewrite Hr. by destruct t.
Qed.

Lemma compactToHex_spec c f rest :
  key_nibbles c = f :: rest -> 0 <= f < 4 ->
  (1 <= length rest)%nat ->
  compactToHex c =
    Some (drop (if Z.odd f then 0 else 1) rest ++ (if bool_decide (f < 2) then [] else [terminator])).
Proof.
  intros Hc Hf Hl. unfold compactToHex. rewrite keybytesToHex_nibbles, Hc.
  assert (Z.to_nat (2 - Z.land f 1) = if Z.odd f then 1%nat else 2%nat) as E.
  { assert (f = 0 \/ f = 1 \/ f = 2 \/ f = 3) as [->|[->|[->| ->]]] by lia; reflexivity. }
  cbn [app]. rewrite E. case_bool_decide as H2.
  - change (f :: rest ++ [terminator]) with ((f :: rest) ++ [terminator]).
    rewrite take_snoc. cbn [length]. rewrite app_nil_r.
    rewrite (proj2 (Nat.leb_le _ _)) by (destruct (Z.odd f); lia). by destruct (Z.odd f).
  - cbn [length]. rewrite length_app. simpl length.
    rewrite (proj2 (Nat.leb_le _ _)) by (destruct (Z.odd f); lia).
    destruct (Z.odd f); cbn [drop]; [done|]. destruct rest; [simpl in Hl; lia|done].
Qed.

Lemma compact_total hex :
  hex_ok hex ->
  exists c, hexToCompact hex = Some c /\ bytes_ok c /\ compactToHex c = Some hex.
Proof.
  intros H.
  assert (exists k (t : bool), nibbles_ok k /\ hex = if t then k ++ [terminator] else k)
    as (k & t & Hk & ->).
  { destruct H as [H|(k & Hk & ->)]; [by exists hex, false | by exists k, true]. }
  destruct (hexToCompact_spec k t Hk) as (c & Hc & Hb & Hn).
  exists c. split; [done|]. split; [done|].
  set (flag := (if t then 2 else 0) + (if Nat.odd (length k) then 1 else 0)) in *.
  destruct (Nat.odd (length k)) eqn:Eo.
  - assert (1 <= length k)%nat by (destruct k; [done|simpl; lia]).
    rewrite (compactToHex_spec c flag k) by (done || (subst flag; destruct t; lia)).
    subst flag. destruct t; cbn; by rewrite ?drop_0, ?app_nil_r.
  - rewrite (compactToHex_spec c flag (0 :: k)) by (done || (subst flag; destruct t; simpl; lia)).
    subst flag. destruct t; cbn; by rewrite ?drop_0, ?app_nil_r.
Qed.

(** The hex-prefix (COMPACT) encoding of trie paths is total and lossless on every
    well-formed HEX key, with or without terminator, of either parity. *)
Theorem compact_roundtrip hex :
  hex_ok hex ->
  exists c, hexToCompact hex = Some c /\ bytes_ok c /\ compactToHex c = Some hex.
Proof. exact (compact_total hex). Qed.

Lemma compact_roundtrip_witness :
  exists c, hexToCompact [1; 2; 3; 16] = Some c /\ bytes_ok c /\ compactToHex c = Some [1; 2; 3; 16].
Proof.
  apply (compact_roundtrip [1; 2; 3; 16]). right. exists [1; 2; 3].
  split; [repeat constructor; unfold is_nibble; lia | reflexivity].
Defined.

(** ** Common prefixes *)

Lemma prefixLen_le_l a b : (prefixLen a b <= length a)%nat.
Proof. revert b; induction a as [|x a IH]; intros [|y b]; simpl; try lia.
  case_bool_decide; [specialize (IH b)|]; lia. Qed.

Lemma prefixLen_le_r a b : (prefixLen a b <= length b)%nat.
Proof. revert b; induction a as [|x a IH]; intros [|y b]; simpl; try lia.
  case_bool_decide; [specialize (IH b)|]; lia. Qed.

Lemma prefixLen_take a b : take (prefixLen a b) a = take (prefixLen a b) b.
Proof. revert b; induction a as [|x a IH]; intros [|y b]; simpl; try done.
  case_bool_decide; simpl; [subst; f_equal; apply IH | done]. Qed.

(** After the common prefix the two keys differ (or one of them ends). *)
Lemma prefixLen_diff a b x y :
  a !! prefixLen a b = Some x -> b !! prefixLen a b = Some y -> x <> y.
Proof.
  revert b; induction a as [|x' a IH]; intros [|y' b]; simpl; try done.
  case_bool_decide; simpl; [apply IH|]. naive_solver.
Qed.

Lemma prefixLen_full a b : prefixLen a b = length b <-> b `prefix_of` a.
Proof.
  split.
  - intros E. exists (drop (length b) a).
    rewrite <- (take_drop (length b) a) at 1. f_equal.
    pose proof (prefixLen_take a b) as H. rewrite E in H. by rewrite H, take_ge by lia.
  - intros [k ->]. induction b; simpl; [by destruct k|].
    rewrite bool_decide_true by done. by f_equal.
Qed.
