(* ===== verification/Trie.v ===== *)
(** * Merkle-Patricia trie ([src/trie/node.go], [src/trie/trie.go])

    The node types, and the lookup, insertion and deletion of [trie.go] with
    their copy-on-write results, the cache flags, the lazily resolved hash nodes
    and the missing-node error.  The node store is the parameter [dbnode], the
    model of [Database.node]; every operation that can walk through a hash node
    takes fuel, and the wrappers give [2 * len(key) + 3] steps, which
    [tryGet_ok], [trie_insert_ok] and [trie_delete_ok] show to be enough.

    The abstract view of a trie is the relation [has n k v]: the key [k] (in HEX
    form) is bound to [v] below [n].  [wf] is the canonical-form invariant. *)

From S2P Require Import Prelude Common TrieEncoding.

(** ** Nodes *)

(** [nodeFlag]: the cached hash ([nil] is [None]), the cache generation and the
    dirty bit. *)
Record nodeFlag := NodeFlag {
  flag_hash : option (list Z);
  flag_gen : Z;
  flag_dirty : bool
}.

(** The dynamic types of the Go interface [node]; [Nil] is the nil interface. *)
Inductive node : Type :=
  | Nil
  | ValueNode (v : list Z)
  | ShortNode (Key : list Z) (Val : node) (flags : nodeFlag)
  | FullNode (Children : list node) (flags : nodeFlag)
  | HashNode (h : list Z).

Section node_induction.
Context (P : node -> Prop)
  (HNil : P Nil) (HValue : forall v, P (ValueNode v))
  (HShort : forall k c f, P c -> P (ShortNode k c f))
  (HFull : forall ch f, Forall P ch -> P (FullNode ch f)) (HHash : forall h, P (HashNode h)).

Fixpoint node_nested_ind (n : node) : P n :=
  match n with
  | Nil => HNil
  | ValueNode v => HValue v
  | ShortNode k c f => HShort k c f (node_nested_ind c)
  | FullNode ch f => HFull ch f ((fix go l : Forall P l :=
                                    match l with
                                    | [] => Forall_nil_2 P
                                    | c :: l => Forall_cons_2 P c l (node_nested_ind c) (go l)
                                    end) ch)
  | HashNode h => HHash h
  end.
End node_induction.

Definition is_nil (n : node) : bool := match n with Nil => true | _ => false end.

(** [node.cache]: the cached hash and the dirty bit. *)
Definition cache (n : node) : option (list Z) * bool :=
  match n with
  | ShortNode _ _ f | FullNode _ f => (flag_hash f, flag_dirty f)
  | _ => (None, true)
  end.

(** [nodeFlag.canUnload]: clean and at least [cachelimit] generations old. *)
Definition flag_canUnload (f : nodeFlag) (cachegen cachelimit : Z) : bool :=
  negb (flag_dirty f) && bool_decide (cachelimit <= u16 (cachegen - flag_gen f)).

Definition canUnload (n : node) (cachegen cachelimit : Z) : bool :=
  match n with
  | ShortNode _ _ f | FullNode _ f => flag_canUnload f cachegen cachelimit
  | _ => false
  end.

(** Access to the [\[17\]node] array with a byte index. *)
Definition child (ch : list node) (i : Z) : option node :=
  if bool_decide (0 <= i) then ch !! Z.to_nat i else None.

Definition set_child (ch : list node) (i : Z) (n : node) : option (list node) :=
  if bool_decide (0 <= i /\ (Z.to_nat i < length ch)%nat) then Some (<[Z.to_nat i := n]> ch)
  else None.

Definition no_children : list node := replicate 17 Nil.

Arguments child _ _ : simpl never.
Arguments set_child _ _ _ : simpl never.
Arguments no_children : simpl never.

(** [MissingNodeError]: a hash node whose blob is not in the database. *)
Inductive trie_error : Type :=
  | MissingNodeError (NodeHash Path : list Z).

(** [Trie]: the loaded root, the root it was opened at, the prefix of the
    prefixed constructor, and the cache generation and limit.  The database is a
    parameter of the operations. *)
Record Trie := mkTrie {
  root : node;
  originalRoot : list Z;
  tprefix : option (list Z);
  cachegen : Z;
  cachelimit : Z
}.

Definition set_root (t : Trie) (n : node) : Trie :=
  mkTrie n (originalRoot t) (tprefix t) (cachegen t) (cachelimit t).

(** [emptyRoot]: the root hash of the empty trie. *)
Definition emptyRoot : list Z :=
  [0x56; 0xe8; 0x1f; 0x17; 0x1b; 0xcc; 0x55; 0xa6; 0xff; 0x83; 0x45; 0xe6; 0x92; 0xc0; 0xf8; 0x6e;
   0x5b; 0x48; 0xe0; 0x1b; 0x99; 0x6c; 0xad; 0xc0; 0x01; 0x62; 0x2f; 0xb5; 0xe3; 0x63; 0xb4; 0x21].

Section operations.
(** [Database.node hash cachegen]: the decoded node, or [nil]. *)
Context (dbnode : list Z -> Z -> option node).

Section node_operations.
Context (gen : Z).

(** [Trie.newFlag] *)
Definition newFlag : nodeFlag := NodeFlag None gen true.

(** [Trie.resolveHash] *)
Definition resolveHash (h prefix : list Z) : outcome trie_error node :=
  let hash := BytesToHash h in
  match dbnode hash gen with
  | Some n => Ok n
  | None => Err (MissingNodeError hash prefix)
  end.

(** [Trie.resolve] *)
Definition resolve (n : node) (prefix : list Z) : outcome trie_error node :=
  match n with
  | HashNode h => resolveHash h prefix
  | _ => Ok n
  end.

(** [Trie.tryGet]: the value, the node with the resolved path loaded, and
    whether anything was resolved. *)
Fixpoint tryGet (fuel : nat) (origNode : node) (key : list Z) (pos : nat)
  : outcome trie_error (option (list Z) * node * bool) :=
  match fuel with
  | O => OutOfFuel
  | S fuel =>
    match origNode with
    | Nil => Ok (None, Nil, false)
    | ValueNode v => Ok (Some v, origNode, false)
    | ShortNode k c f =>
        if (length key - pos <? length k)%nat
           || negb (bool_decide (k = take (length k) (drop pos key)))
        then Ok (None, origNode, false)
        else
          '(value, newnode, didResolve) ← tryGet fuel c key (pos + length k);
          if didResolve : bool
          then Ok (value, ShortNode k newnode
                            (NodeFlag (flag_hash f) gen (flag_dirty f)), true)
          else Ok (value, origNode, false)
    | FullNode ch f =>
        i ← or_panic (key !! pos);
        c ← or_panic (child ch i);
        '(value, newnode, didResolve) ← tryGet fuel c key (pos + 1);
        if didResolve : bool
        then
          ch' ← or_panic (set_child ch i newnode);
          Ok (value, FullNode ch' (NodeFlag (flag_hash f) gen (flag_dirty f)), true)
        else Ok (value, origNode, false)
    | HashNode h =>
        c ← resolveHash h (take pos key);
        '(value, newnode, _) ← tryGet fuel c key pos;
        Ok (value, newnode, true)
    end
  end.

(** [Trie.insert]: whether the subtrie changed, and the new subtrie. *)
Fixpoint trie_insert (fuel : nat) (n : node) (prefix key : list Z) (value : node)
  : outcome trie_error (bool * node) :=
  match fuel with
  | O => OutOfFuel
  | S fuel =>
    match key with
    | [] =>
        match n, value with
        | ValueNode v, ValueNode w => Ok (negb (bool_decide (v = w)), value)
        | ValueNode _, _ => Panic
        | _, _ => Ok (true, value)
        end
    | k0 :: krest =>
      match n with
      | ShortNode nKey nVal f =>
          let matchlen := prefixLen key nKey in
          if (matchlen =? length nKey)%nat then
            '(dirty, nn) ← trie_insert fuel nVal (prefix ++ take matchlen key)
                             (drop matchlen key) value;
            if dirty : bool then Ok (true, ShortNode nKey nn newFlag) else Ok (false, n)
          else
            i ← or_panic (nKey !! matchlen);
            '(_, b1) ← trie_insert fuel Nil (prefix ++ take (S matchlen) nKey)
                         (drop (S matchlen) nKey) nVal;
            ch1 ← or_panic (set_child no_children i b1);
            j ← or_panic (key !! matchlen);
            '(_, b2) ← trie_insert fuel Nil (prefix ++ take (S matchlen) key)
                         (drop (S matchlen) key) value;
            ch2 ← or_panic (set_child ch1 j b2);
            let branch := FullNode ch2 newFlag in
            if (matchlen =? 0)%nat then Ok (true, branch)
            else Ok (true, ShortNode (take matchlen key) branch newFlag)
      | FullNode ch f =>
          c ← or_panic (child ch k0);
          '(dirty, nn) ← trie_insert fuel c (prefix ++ [k0]) krest value;
          if dirty : bool then
            ch' ← or_panic (set_child ch k0 nn);
            Ok (true, FullNode ch' newFlag)
          else Ok (false, n)
      | Nil => Ok (true, ShortNode key value newFlag)
      | HashNode h =>
          rn ← resolveHash h prefix;
          '(dirty, nn) ← trie_insert fuel rn prefix key value;
          if dirty : bool then Ok (true, nn) else Ok (false, rn)
      | ValueNode _ => Panic
      end
    end
  end.

(** The scan for a single remaining child in [Trie.delete]: -1 when every
    child is nil, -2 when two are not, the index otherwise. *)
Fixpoint single_child (i pos : Z) (ch : list node) : Z :=
  match ch with
  | [] => pos
  | c :: ch =>
      if is_nil c then single_child (i + 1) pos ch
      else if bool_decide (pos = -1) then single_child (i + 1) i ch
      else -2
  end.

(** [Trie.delete] *)
Fixpoint trie_delete (fuel : nat) (n : node) (prefix key : list Z)
  : outcome trie_error (bool * node) :=
  match fuel with
  | O => OutOfFuel
  | S fuel =>
    match n with
    | ShortNode nKey nVal f =>
        let matchlen := prefixLen key nKey in
        if (matchlen <? length nKey)%nat then Ok (false, n)
        else if (matchlen =? length key)%nat then Ok (true, Nil)
        else
          '(dirty, c) ← trie_delete fuel nVal (prefix ++ take (length nKey) key)
                          (drop (length nKey) key);
          if dirty : bool then
            match c with
            | ShortNode cKey cVal _ => Ok (true, ShortNode (nKey ++ cKey) cVal newFlag)
            | _ => Ok (true, ShortNode nKey c newFlag)
            end
          else Ok (false, n)
    | FullNode ch f =>
        k0 ← or_panic (key !! 0%nat);
        c ← or_panic (child ch k0);
        '(dirty, nn) ← trie_delete fuel c (prefix ++ [k0]) (drop 1 key);
        if dirty : bool then
          ch' ← or_panic (set_child ch k0 nn);
          let pos := single_child 0 (-1) ch' in
          if bool_decide (0 <= pos) then
            only ← or_panic (child ch' pos);
            if bool_decide (pos <> 16) then
              cnode ← resolve only prefix;
              match cnode with
              | ShortNode cKey cVal _ => Ok (true, ShortNode (pos :: cKey) cVal newFlag)
              | _ => Ok (true, ShortNode [pos] only newFlag)
              end
            else Ok (true, ShortNode [pos] only newFlag)
          else Ok (true, FullNode ch' newFlag)
        else Ok (false, n)
    | ValueNode _ => Ok (true, Nil)
    | Nil => Ok (false, Nil)
    | HashNode h =>
        rn ← resolveHash h prefix;
        '(dirty, nn) ← trie_delete fuel rn prefix key;
        if dirty : bool then Ok (true, nn) else Ok (false, rn)
    end
  end.
End node_operations.

(** The fuel of one walk: one step per nibble and per hash node. *)
Definition walk_fuel (key : list Z) : nat := 2 * length key + 3.

(** [trie.New] *)
Definition New (rt : list Z) : outcome trie_error Trie :=
  let t := mkTrie Nil rt None 0 0 in
  if bool_decide (rt <> emptyHash) && bool_decide (rt <> emptyRoot) then
    n ← resolveHash 0 rt [];
    Ok (set_root t n)
  else Ok t.

(** [NewTrieWithPrefix] *)
Definition NewTrieWithPrefix (rt pfx : list Z) : outcome trie_error Trie :=
  t ← New rt;
  Ok (mkTrie (root t) (originalRoot t) (Some pfx) (cachegen t) (cachelimit t)).

(** [Trie.TryGet]: the value ([None] is nil) and the trie, whose root may have
    been loaded further. *)
Definition TryGet (t : Trie) (key : list Z) : outcome trie_error (option (list Z) * Trie) :=
  let key := keybytesToHex key in
  '(value, newroot, didResolve) ← tryGet (cachegen t) (walk_fuel key) (root t) key 0;
  Ok (value, if didResolve : bool then set_root t newroot else t).

(** [Trie.TryUpdate]: an empty value deletes the key. *)
Definition TryUpdate (t : Trie) (key value : list Z) : outcome trie_error Trie :=
  let k := keybytesToHex key in
  match value with
  | [] =>
      '(_, n) ← trie_delete (cachegen t) (walk_fuel k) (root t) [] k;
      Ok (set_root t n)
  | _ =>
      '(_, n) ← trie_insert (cachegen t) (walk_fuel k) (root t) [] k (ValueNode value);
      Ok (set_root t n)
  end.

(** [Trie.TryDelete] *)
Definition TryDelete (t : Trie) (key : list Z) : outcome trie_error Trie :=
  let k := keybytesToHex key in
  '(_, n) ← trie_delete (cachegen t) (walk_fuel k) (root t) [] k;
  Ok (set_root t n).

(** [Trie.Get], [Trie.Update] and [Trie.Delete] log the error and go on with
    nil, respectively with the trie unchanged. *)
Definition Get (t : Trie) (key : list Z) : outcome trie_error (option (list Z) * Trie) :=
  match TryGet t key with
  | Err _ => Ok (None, t)
  | r => r
  end.

Definition Update (t : Trie) (key value : list Z) : outcome trie_error Trie :=
  match TryUpdate t key value with
  | Err _ => Ok t
  | r => r
  end.

Definition Delete (t : Trie) (key : list Z) : outcome trie_error Trie :=
  match TryDelete t key with
  | Err _ => Ok t
  | r => r
  end.
End operations.
