(* ===== verification/TrieSpec.v ===== *)
(** * Functional correctness of the trie operations

    [has], the abstract content of a trie, [wf], its canonical-form invariant,
    and the refinement of lookup, insertion and deletion to operations on that
    content, for tries that are partly loaded and partly in the database. *)

From S2P Require Import Prelude Common TrieEncoding Trie.

#[global] Instance nil_dec n : Decision (n = Nil).
Proof. destruct n; (by left) || (right; discriminate). Defined.

(** A full HEX key: nibbles and the terminator. *)
Definition hexkey (k : list Z) : Prop := exists n, nibbles_ok n /\ k = n ++ [terminator].

Section spec.
Context (dbnode : list Z -> Z -> option node) (gen : Z).

Abbreviation resolves h n := (dbnode (BytesToHash h) gen = Some n).

(** [has n k v]: below [n] the remaining HEX key [k] is bound to [v]. *)
Inductive has : node -> list Z -> list Z -> Prop :=
  | has_value v : has (ValueNode v) [] v
  | has_short k c f k' v : has c k' v -> has (ShortNode k c f) (k ++ k') v
  | has_full ch f i c k' v :
      ch !! i = Some c -> has c k' v -> has (FullNode ch f) (Z.of_nat i :: k') v
  | has_hash h n k v : resolves h n -> has n k v -> has (HashNode h) k v.

(** A node that is a branch, possibly behind one hash reference. *)
Inductive branch : node -> Prop :=
  | branch_full ch f : branch (FullNode ch f)
  | branch_hash h ch f : resolves h (FullNode ch f) -> branch (HashNode h).

Definition is_hash (n : node) : bool := match n with HashNode _ => true | _ => false end.

(** Canonical form: short nodes have non-empty keys and never sit on top of
    another short node, branches have at least two children, values are
    non-empty and sit exactly below a terminator, and every hash reference
    resolves to a loaded canonical node. *)
Inductive wf : node -> Prop :=
  | wf_leaf k v f :
      nibbles_ok k -> v <> [] -> wf (ShortNode (k ++ [terminator]) (ValueNode v) f)
  | wf_ext k c f :
      nibbles_ok k -> k <> [] -> branch c -> wf c -> wf (ShortNode k c f)
  | wf_full ch f :
      length ch = 17%nat ->
      (forall i c, (i < 16)%nat -> ch !! i = Some c -> c <> Nil -> wf c) ->
      (forall c, ch !! 16%nat = Some c -> c <> Nil -> exists v, v <> [] /\ c = ValueNode v) ->
      (exists i j a b, i <> j /\ ch !! i = Some a /\ ch !! j = Some b /\ a <> Nil /\ b <> Nil) ->
      wf (FullNode ch f)
  | wf_hash h n : resolves h n -> is_hash n = false -> wf n -> wf (HashNode h).

Definition wf_root (n : node) : Prop := n = Nil \/ wf n.

(** Same content. *)
Definition same (n m : node) : Prop := forall k v, has n k v <-> has m k v.

(** ** Inversion of [has] *)

Lemma has_nil k v : ~ has Nil k v.
Proof. inversion 1. Qed.

Lemma has_value_iff w k v : has (ValueNode w) k v <-> k = [] /\ v = w.
Proof. split; [by inversion 1 | intros [-> ->]; constructor]. Qed.

Lemma has_short_iff k c f key v :
  has (ShortNode k c f) key v <-> exists k', key = k ++ k' /\ has c k' v.
Proof. split; [inversion 1; eauto | intros (k' & -> & ?); by constructor]. Qed.

Lemma has_short_app k c f key v :
  has (ShortNode k c f) (k ++ key) v <-> has c key v.
Proof.
  rewrite has_short_iff. split; [|eauto]. by intros (k' & ->%app_inv_head & ?).
Qed.

Lemma has_leaf_iff k w f key v :
  has (ShortNode k (ValueNode w) f) key v <-> key = k /\ v = w.
Proof.
  rewrite has_short_iff. setoid_rewrite has_value_iff. split.
  - intros (k' & -> & -> & ->). by rewrite app_nil_r.
  - intros [-> ->]. exists []. by rewrite app_nil_r.
Qed.

Lemma has_full_iff ch f key v :
  has (FullNode ch f) key v <->
  exists i c k', key = Z.of_nat i :: k' /\ ch !! i = Some c /\ has c k' v.
Proof.
  split; [inversion 1; subst; eauto 10 | intros (i & c & k' & -> & ? & ?); by econstructor].
Qed.

Lemma has_hash_iff h n k v : resolves h n -> has (HashNode h) k v <-> has n k v.
Proof.
  intros Hr. split; [|by econstructor]. inversion 1; subst. congruence.
Qed.

(** Keys of a canonical node are full HEX keys. *)
Lemma hexkey_cons i k : (i < 16)%nat -> hexkey k -> hexkey (Z.of_nat i :: k).
Proof.
  intros ? (n & Hn & ->). exists (Z.of_nat i :: n). split; [|done].
  constructor; [unfold is_nibble; lia|done].
Qed.

Lemma hexkey_app p k : nibbles_ok p -> hexkey k -> hexkey (p ++ k).
Proof.
  intros ? (n & Hn & ->). exists (p ++ n). rewrite app_assoc. split; [|done].
  by apply Forall_app.
Qed.

Lemma hexkey_nonempty k : hexkey k -> k <> [].
Proof. intros (n & _ & ->). by destruct n. Qed.

Lemma hexkey_cons_inv x k :
  hexkey (x :: k) -> (x = terminator /\ k = []) \/ (is_nibble x /\ hexkey k).
Proof.
  intros ([|y n] & Hn & E); simplify_eq/=; [by left|right].
  inversion_clear Hn. split; [done|]. by exists n.
Qed.

Lemma hexkey_app_inv p k :
  nibbles_ok p -> hexkey (p ++ k) -> hexkey k.
Proof.
  induction 1 as [|x p Hx Hp IH]; [done|]. simpl. intros [[-> _]|[_ ?]]%hexkey_cons_inv; [|auto].
  unfold is_nibble, terminator in Hx. lia.
Qed.

(** The terminator occurs only at the end, so no full key extends another. *)
Lemma hexkey_prefix a b k : hexkey a -> hexkey b -> a ++ k = b -> k = [].
Proof.
  intros (n & Hn & ->) (m & Hm & ->) E. rewrite <- app_assoc in E. simpl in E.
  revert m Hm E. induction Hn as [|x n Hx Hn IH]; intros m Hm E.
  - destruct m as [|y m]; [by simplify_eq/=|]. simplify_eq/=. inversion_clear Hm.
    unfold is_nibble, terminator in *. lia.
  - destruct m as [|y m]; simplify_eq/=.
    + unfold is_nibble, terminator in Hx. lia.
    + inversion_clear Hm. eauto.
Qed.

Lemma wf_not_nil n : wf n -> n <> Nil.
Proof. by inversion 1. Qed.

Lemma wf_not_value n v : wf n -> n <> ValueNode v.
Proof. by inversion 1. Qed.

Lemma has_hexkey n k v : wf n -> has n k v -> hexkey k /\ v <> [].
Proof.
  intros Hwf. revert k v. induction Hwf as [k w f Hk Hw|k c f Hk Hne Hb Hc IH
    |ch f Hlen Hch IH H16 Htwo|h n Hr Hh Hn IH]; intros key v Hh'.
  - apply has_short_iff in Hh' as (k' & -> & [-> ->]%has_value_iff).
    rewrite app_nil_r. split; [by exists k|done].
  - apply has_short_iff in Hh' as (k' & -> & [? ?]%IH). split; [by apply hexkey_app|done].
  - apply has_full_iff in Hh' as (i & c & k' & -> & Hi & Hc).
    assert (c <> Nil) by (intros ->; by apply has_nil in Hc).
    destruct (decide (i < 16)%nat) as [Hi'|Hi'].
    + destruct (IH i c Hi' Hi ltac:(done) _ _ Hc). split; [by apply hexkey_cons|done].
    + assert (i = 16%nat) as -> by (apply lookup_lt_Some in Hi; lia).
      destruct (H16 c Hi ltac:(done)) as (w & Hw & ->).
      apply has_value_iff in Hc as [-> ->]. split; [by exists []; split; [constructor|]|done].
  - rewrite has_hash_iff in Hh' by done. eauto.
Qed.

(** A canonical node is never empty. *)
Lemma wf_inhabited n : wf n -> exists k v, has n k v.
Proof.
  induction 1 as [k w f Hk Hw|k c f Hk Hne Hb Hc (k' & v & IH)
    |ch f Hlen Hch IH H16 (i & j & a & b & Hij & Hi & Hj & Ha & Hb)|h n Hr Hh Hn (k & v & IH)].
  - exists (k ++ [terminator]), w. apply has_short_iff. exists []. rewrite app_nil_r.
    split; constructor.
  - exists (k ++ k'), v. by constructor.
  - assert (exists i c, ch !! i = Some c /\ c <> Nil /\ (i < 16)%nat) as (i' & c & Hi' & Hc & Hlt).
    { pose proof (lookup_lt_Some _ _ _ Hi). pose proof (lookup_lt_Some _ _ _ Hj).
      destruct (decide (i < 16)%nat); [by exists i, a|]. exists j, b. split_and!; try done. lia. }
    destruct (IH _ _ Hlt Hi' Hc) as (k & v & Hh). exists (Z.of_nat i' :: k), v. by econstructor.
  - exists k, v. by econstructor.
Qed.

(** ** Children arrays *)

Lemma child_nat ch i : child ch (Z.of_nat i) = ch !! i.
Proof. unfold child. rewrite bool_decide_true by lia. by rewrite Nat2Z.id. Qed.

Lemma set_child_nat ch i n :
  (i < length ch)%nat -> set_child ch (Z.of_nat i) n = Some (<[i := n]> ch).
Proof.
  intros. unfold set_child. rewrite bool_decide_true by (rewrite Nat2Z.id; lia).
  by rewrite Nat2Z.id.
Qed.

Lemma hexkey_index x k :
  hexkey (x :: k) -> exists i, x = Z.of_nat i /\ (i < 17)%nat /\
    ((i < 16)%nat /\ hexkey k \/ i = 16%nat /\ k = []).
Proof.
  intros [[-> ->]|[Hx Hk]]%hexkey_cons_inv.
  - exists 16%nat. split_and!; [done|lia|by right].
  - unfold is_nibble in Hx. exists (Z.to_nat x). split_and!; [lia|lia|left].
    split; [lia|done].
Qed.

Lemma has_full_cons ch f i c k v :
  ch !! i = Some c -> has (FullNode ch f) (Z.of_nat i :: k) v <-> has c k v.
Proof.
  intros Hi. rewrite has_full_iff. split; [|eauto 10].
  intros (j & c' & k' & E & Hj & Hh). simplify_eq. congruence.
Qed.

(** Replacing a child by one with the same content, or by any content. *)
Lemma has_full_insert ch f i m k v :
  (i < length ch)%nat ->
  has (FullNode (<[i := m]> ch) f) k v <->
  (exists k', k = Z.of_nat i :: k' /\ has m k' v) \/
  (exists j k' c, j <> i /\ k = Z.of_nat j :: k' /\ ch !! j = Some c /\ has c k' v).
Proof.
  intros Hi. rewrite has_full_iff. split.
  - intros (j & c & k' & -> & Hj & Hh). destruct (decide (j = i)) as [->|Hne].
    + rewrite list_lookup_insert_eq in Hj by done. simplify_eq. left. eauto.
    + rewrite list_lookup_insert_ne in Hj by done. right. eauto 10.
  - intros [(k' & -> & Hh)|(j & k' & c & Hne & -> & Hj & Hh)].
    + exists i, m, k'. by rewrite list_lookup_insert_eq.
    + exists j, c, k'. by rewrite list_lookup_insert_ne.
Qed.

Lemma has_flags_full ch f g k v : has (FullNode ch f) k v <-> has (FullNode ch g) k v.
Proof. by rewrite !has_full_iff. Qed.

Lemma wf_flags_full ch f g : wf (FullNode ch f) -> wf (FullNode ch g).
Proof. inversion 1; subst. by constructor. Qed.

(** What may sit in slot [i] of a branch. *)
Definition slot_ok (i : nat) (c : node) : Prop :=
  ((i < 16)%nat -> wf c) /\ (i = 16%nat -> exists v, v <> [] /\ c = ValueNode v).

Lemma slot_not_nil i c : (i < 17)%nat -> slot_ok i c -> c <> Nil.
Proof.
  intros Hi [H1 H2]. destruct (decide (i < 16)%nat) as [?|?].
  - by apply wf_not_nil, H1.
  - destruct H2 as (v & _ & ->); [lia|done].
Qed.

(** Filling a slot of a canonical branch keeps it canonical. *)
Lemma wf_full_insert ch f g i m :
  wf (FullNode ch f) -> (i < 17)%nat -> slot_ok i m -> wf (FullNode (<[i := m]> ch) g).
Proof.
  inversion 1 as [| |? ? Hlen Hch H16 (a & b & na & nb & Hab & Ha & Hb & Hna & Hnb)|]; subst.
  intros Hi Hm. pose proof (slot_not_nil _ _ Hi Hm). destruct Hm as [Hm1 Hm2]. constructor.
  - by rewrite length_insert.
  - intros j d Hj Hd Hdn. destruct (decide (i = j)) as [->|].
    + rewrite list_lookup_insert_eq in Hd by lia. simplify_eq. auto.
    + rewrite list_lookup_insert_ne in Hd by done. eauto.
  - intros d Hd Hdn. destruct (decide (i = 16)%nat) as [->|].
    + rewrite list_lookup_insert_eq in Hd by lia. simplify_eq. auto.
    + rewrite list_lookup_insert_ne in Hd by done. eauto.
  - assert (forall j n, ch !! j = Some n -> n <> Nil ->
              exists n', <[i := m]> ch !! j = Some n' /\ n' <> Nil) as Hkeep.
    { intros j n Hj Hn. destruct (decide (i = j)) as [->|].
      - exists m. rewrite list_lookup_insert_eq by lia. done.
      - exists n. by rewrite list_lookup_insert_ne. }
    destruct (Hkeep a na) as (na' & ? & ?); [done..|].
    destruct (Hkeep b nb) as (nb' & ? & ?); [done..|].
    by exists a, b, na', nb'.
Qed.

(** ** Lookup *)

Definition need (n : node) (key : list Z) : nat :=
  2 * length key + (if is_hash n then 1 else 0).

(** The result of a successful lookup: the bound value, and a node with the
    same content, still canonical and still a branch if it was one. *)
Definition get_post (n : node) (key : list Z) (r : option (list Z)) (n' : node) : Prop :=
  (forall v, r = Some v <-> has n key v) /\ same n n' /\ wf n' /\ (branch n -> branch n').

Lemma same_refl n : same n n.
Proof. done. Qed.

Lemma tryGet_value fuel v key pos :
  (0 < fuel)%nat -> tryGet dbnode gen fuel (ValueNode v) key pos = Ok (Some v, ValueNode v, false).
Proof. destruct fuel; [lia|done]. Qed.

(** The guard of the short-node case is a prefix test. *)
Lemma short_guard (k : list Z) pos (key : list Z) :
  (length key - pos <? length k)%nat || negb (bool_decide (k = take (length k) (drop pos key)))
  = negb (bool_decide (k `prefix_of` drop pos key)).
Proof.
  destruct (bool_decide_reflect (k `prefix_of` drop pos key)) as [Hp|Hp]; simpl.
  - destruct Hp as [rest E]. pose proof (length_drop key pos) as Hl.
    rewrite E in Hl. rewrite length_app in Hl.
    rewrite E, take_app_length, bool_decide_true, orb_false_r by done.
    apply Nat.ltb_ge. lia.
  - apply orb_true_iff. rewrite negb_true_iff, bool_decide_eq_false. right.
    intros E. apply Hp. rewrite E. apply prefix_take.
Qed.

Lemma drop_plus pos (key k rest : list Z) :
  drop pos key = k ++ rest -> drop (pos + length k) key = rest.
Proof. intros E. by rewrite <- drop_drop, E, drop_app_length. Qed.

Lemma drop_cons_lookup pos (key rest : list Z) x :
  drop pos key = x :: rest -> key !! pos = Some x /\ drop (pos + 1) key = rest.
Proof.
  intros E. split; [|by rewrite <- drop_drop, E].
  rewrite <- (Nat.add_0_r pos), <- lookup_drop, E. done.
Qed.

Lemma get_post_short n' k c f g rest r :
  get_post c rest r n' -> nibbles_ok k -> k <> [] -> branch c ->
  get_post (ShortNode k c f) (k ++ rest) r (ShortNode k n' g).
Proof.
  intros (Hr & Hs & Hw & Hb) Hk Hne Hbr. split_and!.
  - intros v. by rewrite has_short_app, Hr.
  - intros k' v. rewrite !has_short_iff. by setoid_rewrite (Hs _ v).
  - apply wf_ext; auto.
  - inversion 1.
Qed.

Lemma get_post_full ch f g i c rest r n' :
  wf (FullNode ch f) -> (i < 16)%nat -> ch !! i = Some c -> c <> Nil ->
  get_post c rest r n' ->
  get_post (FullNode ch f) (Z.of_nat i :: rest) r (FullNode (<[i := n']> ch) g).
Proof.
  intros Hwf Hi Hc Hcn (Hr & Hs & Hw & Hb).
  assert (i < length ch)%nat by (apply lookup_lt_Some in Hc; lia). split_and!.
  - intros v. by rewrite has_full_cons, Hr.
  - intros k v. rewrite has_full_insert by done. rewrite has_full_iff. split.
    + intros (j & c' & k' & -> & Hj & Hh). destruct (decide (j = i)) as [->|].
      * left. exists k'. rewrite <- (Hs k' v). by simplify_eq.
      * right. eauto 10.
    + intros [(k' & -> & Hh)|(j & k' & c' & _ & -> & Hj & Hh)]; [|eauto 10].
      exists i, c, k'. split_and!; [done..|]. by apply Hs.
  - eapply wf_full_insert; [done|lia|]. split; [done|lia].
  - constructor.
Qed.

Lemma get_post_self n key r :
  wf n -> (forall v, r = Some v <-> has n key v) -> get_post n key r n.
Proof. intros. split_and!; auto using same_refl. Qed.

(** Lookup below [n] succeeds on every full key and meets its contract. *)
Definition get_ok (n : node) : Prop :=
  forall key pos fuel,
    hexkey (drop pos key) -> (need n (drop pos key) < fuel)%nat ->
    exists r n' d, tryGet dbnode gen fuel n key pos = Ok (r, n', d) /\
      get_post n (drop pos key) r n' /\ (d = false -> n' = n).

(** A lookup that returns the node unchanged. *)
Lemma get_ok_self n key pos fuel r :
  tryGet dbnode gen fuel n key pos = Ok (r, n, false) ->
  wf n -> (forall v, r = Some v <-> has n (drop pos key) v) ->
  exists r n' d, tryGet dbnode gen fuel n key pos = Ok (r, n', d) /\
    get_post n (drop pos key) r n' /\ (d = false -> n' = n).
Proof. intros. eexists _, _, _. split; [done|]. split; [by apply get_post_self|done]. Qed.

Lemma tryGet_short_miss k c f key pos fuel :
  wf (ShortNode k c f) -> ~ k `prefix_of` drop pos key ->
  tryGet dbnode gen (S fuel) (ShortNode k c f) key pos = Ok (None, ShortNode k c f, false) /\
  forall v, None = Some v <-> has (ShortNode k c f) (drop pos key) v.
Proof.
  intros Hwf Hp. split.
  - cbn [tryGet]. by rewrite short_guard, bool_decide_false.
  - intros v. split; [done|]. intros (k' & E & _)%has_short_iff. destruct Hp. by exists k'.
Qed.

Lemma get_ok_leaf k w f :
  nibbles_ok k -> w <> [] -> get_ok (ShortNode (k ++ [terminator]) (ValueNode w) f).
Proof.
  intros Hk Hw key pos [|fuel] Hkey Hfuel; [lia|].
  assert (wf (ShortNode (k ++ [terminator]) (ValueNode w) f)) as Hwf by by constructor.
  destruct (decide ((k ++ [terminator]) `prefix_of` drop pos key)) as [[rest E]|Hp].
  - assert (rest = []) as -> by (eapply hexkey_prefix; [by exists k|exact Hkey|done]).
    rewrite app_nil_r in E. unfold need in Hfuel. rewrite E, length_app in Hfuel.
    simpl in Hfuel. eapply (get_ok_self _ _ _ _ (Some w)); [|done|].
    + cbn [tryGet]. rewrite short_guard, E, bool_decide_true by done. simpl.
      rewrite tryGet_value by lia. done.
    + intros v. rewrite E, has_leaf_iff. naive_solver.
  - destruct (tryGet_short_miss _ _ _ _ _ fuel Hwf Hp). by eapply get_ok_self.
Qed.

Lemma get_ok_ext k c f :
  nibbles_ok k -> k <> [] -> branch c -> wf c -> get_ok c -> get_ok (ShortNode k c f).
Proof.
  intros Hk Hne Hb Hc IH key pos [|fuel] Hkey Hfuel; [lia|].
  assert (wf (ShortNode k c f)) as Hwf by by constructor.
  destruct (decide (k `prefix_of` drop pos key)) as [[rest E]|Hp].
  - unfold need in Hfuel. rewrite E in Hkey, Hfuel. rewrite length_app in Hfuel.
    pose proof (drop_plus _ _ _ _ E) as Ed. apply hexkey_app_inv in Hkey; [|done].
    assert (0 < length k)%nat by (destruct k; simpl; [done|lia]).
    destruct (IH key (pos + length k)%nat fuel) as (r & n' & d & Er & Hp & Hd);
      rewrite ?Ed; [done|unfold need; simpl in Hfuel; destruct (is_hash c); lia|].
    rewrite Ed in *. destruct d.
    + eexists _, _, _. split.
      { cbn [tryGet]. rewrite short_guard, bool_decide_true by by exists rest. simpl.
        rewrite Er. done. }
      split; [rewrite E; by apply get_post_short|done].
    + destruct Hp as (Hv & _). eapply (get_ok_self _ _ _ _ r); [|done|].
      * cbn [tryGet]. rewrite short_guard, bool_decide_true by by exists rest. simpl.
        rewrite Er. done.
      * intros v. by rewrite E, has_short_app, Hv.
  - destruct (tryGet_short_miss _ _ _ _ _ fuel Hwf Hp). by eapply get_ok_self.
Qed.

Lemma tryGet_full_step ch f key pos fuel i c rest :
  drop pos key = Z.of_nat i :: rest -> ch !! i = Some c ->
  tryGet dbnode gen (S fuel) (FullNode ch f) key pos =
    ('(value, newnode, didResolve) ← tryGet dbnode gen fuel c key (pos + 1);
     if didResolve : bool
     then Ok (value, FullNode (<[i := newnode]> ch)
                       (NodeFlag (flag_hash f) gen (flag_dirty f)), true)
     else Ok (value, FullNode ch f, false)).
Proof.
  intros E Hc. cbn [tryGet]. destruct (drop_cons_lookup _ _ _ _ E) as [-> _]. simpl.
  rewrite child_nat, Hc. simpl. apply lookup_lt_Some in Hc.
  destruct (tryGet _ _ _ _ _ _) as [[[? ?] []]| | |]; try done. simpl.
  by rewrite set_child_nat.
Qed.

Lemma get_ok_full ch f :
  wf (FullNode ch f) ->
  (forall i c, (i < 16)%nat -> ch !! i = Some c -> c <> Nil -> get_ok c) ->
  get_ok (FullNode ch f).
Proof.
  intros Hwf IH key pos [|fuel] Hkey Hfuel; [lia|].
  inversion Hwf as [| |? ? Hlen _ H16 _|]; subst.
  destruct (drop pos key) as [|x rest] eqn:E; [by apply hexkey_nonempty in Hkey|].
  unfold need in Hfuel. simpl in Hfuel. rewrite <- E.
  apply hexkey_index in Hkey as (i & -> & Hi & Hcase).
  destruct (lookup_lt_is_Some_2 ch i ltac:(lia)) as [c Hc].
  pose proof (drop_cons_lookup _ _ _ _ E) as [_ Ed].
  destruct (decide (c = Nil)) as [->|Hcn].
  { eapply (get_ok_self _ _ _ _ None); [|done|].
    - rewrite (tryGet_full_step _ _ _ _ _ _ _ _ E Hc). destruct fuel; [lia|done].
    - intros v. rewrite E, has_full_cons by done. split; [done|by intros ?%has_nil]. }
  destruct Hcase as [[Hi16 Hrest]|[-> ->]].
  - destruct (IH i c Hi16 Hc Hcn key (pos + 1)%nat fuel) as (r & n' & d & Er & Hp & Hd);
      rewrite ?Ed; [done|unfold need; destruct (is_hash c); lia|].
    rewrite Ed in Hp. destruct d.
    + eexists _, _, _. rewrite (tryGet_full_step _ _ _ _ _ _ _ _ E Hc), Er.
      split; [done|]. split; [|done]. rewrite E. by eapply get_post_full.
    + destruct Hp as (Hv & _). eapply (get_ok_self _ _ _ _ r); [|done|].
      * by rewrite (tryGet_full_step _ _ _ _ _ _ _ _ E Hc), Er.
      * intros v. by rewrite E, has_full_cons, Hv.
  - destruct (H16 c Hc Hcn) as (w & Hw & ->). eapply (get_ok_self _ _ _ _ (Some w)); [|done|].
    + rewrite (tryGet_full_step _ _ _ _ _ _ _ _ E Hc), tryGet_value by lia. done.
    + intros v. rewrite E, has_full_cons, has_value_iff by done. naive_solver.
Qed.

Lemma get_ok_hash h n :
  resolves h n -> is_hash n = false -> get_ok n -> get_ok (HashNode h).
Proof.
  intros Hr Hh IH key pos [|fuel] Hkey Hfuel; [lia|].
  unfold need in Hfuel. simpl in Hfuel.
  destruct (IH key pos fuel) as (r & n' & d & Er & (Hv & Hs & Hw & Hbr) & Hd);
    [done|unfold need; rewrite Hh; lia|].
  eexists _, _, _. split; [cbn [tryGet]; unfold resolveHash; rewrite Hr; simpl; by rewrite Er|].
  split; [|done]. split_and!.
  - intros v. by rewrite (has_hash_iff h n), Hv.
  - intros k v. by rewrite (has_hash_iff h n).
  - done.
  - inversion 1; subst. apply Hbr. simplify_eq. constructor.
Qed.

Lemma tryGet_ok n : wf n -> get_ok n.
Proof.
  induction 1; [by apply get_ok_leaf|by apply get_ok_ext| |by eapply get_ok_hash].
  apply get_ok_full; [by constructor|]. eauto.
Qed.

(** ** Insertion *)

(** A key is bound at most once. *)
Lemma has_fun n k v w : wf n -> has n k v -> has n k w -> v = w.
Proof.
  intros Hwf. revert k v w. induction Hwf as [k u f Hk Hw|k c f Hk Hne Hb Hc IH
    |ch f Hlen Hch IH H16 Htwo|h n Hr Hh Hn IH]; intros key v w Hv Hw'.
  - apply has_leaf_iff in Hv as [_ ->], Hw' as [_ ->]. done.
  - apply has_short_iff in Hv as (k1 & -> & Hv). apply has_short_app in Hw'. eauto.
  - apply has_full_iff in Hv as (i & c & k' & -> & Hi & Hv).
    rewrite has_full_cons in Hw' by done.
    assert (c <> Nil) by (intros ->; by apply has_nil in Hv).
    destruct (decide (i < 16)%nat) as [Hi'|Hi']; [eauto|].
    assert (i = 16%nat) as -> by (apply lookup_lt_Some in Hi; lia).
    destruct (H16 c Hi ltac:(done)) as (u & _ & ->).
    apply has_value_iff in Hv as [_ ->], Hw' as [_ ->]. done.
  - rewrite (has_hash_iff h n) in Hv, Hw' by done. eauto.
Qed.

(** The content after binding [key] to [v]. *)
Definition updated (n : node) (key v : list Z) (n' : node) : Prop :=
  forall k w, has n' k w <-> (k = key /\ w = v) \/ (k <> key /\ has n k w).

Definition insert_post (n : node) (key v : list Z) (n' : node) : Prop :=
  updated n key v n' /\ wf n' /\ (branch n -> branch n').

Definition insert_ok (n : node) : Prop :=
  forall key prefix fuel v,
    hexkey key -> v <> [] -> (need n key < fuel)%nat ->
    exists d n', trie_insert dbnode gen fuel n prefix key (ValueNode v) = Ok (d, n') /\
      insert_post n key v n' /\ (d = false -> has n key v).

Lemma insert_post_self n key v : wf n -> has n key v -> insert_post n key v n.
Proof.
  intros Hwf Hh. split_and!; try done. intros k w. split.
  - intros Hk. destruct (decide (k = key)) as [->|]; [left|by right].
    split; [done|]. by eapply has_fun.
  - by intros [[-> ->]|[_ ?]].
Qed.

(** [insert] into the nil node: the value itself, or a short node on top. *)
Definition ext (r : list Z) (c : node) : node :=
  match r with [] => c | _ => ShortNode r c (newFlag gen) end.

Lemma insert_nil fuel prefix r c :
  (0 < fuel)%nat -> trie_insert dbnode gen fuel Nil prefix r c = Ok (true, ext r c).
Proof. destruct fuel; [lia|]. by destruct r. Qed.

Lemma has_ext r c k v : has (ext r c) k v <-> exists k', k = r ++ k' /\ has c k' v.
Proof. destruct r; [simpl; naive_solver|]. apply has_short_iff. Qed.

Definition pair_children (i j : nat) (b1 b2 : node) : list node :=
  <[j := b2]> (<[i := b1]> no_children).

Lemma pair_lookup i j b1 b2 l c :
  (i < 17)%nat -> (j < 17)%nat -> i <> j -> c <> Nil ->
  pair_children i j b1 b2 !! l = Some c -> (l = i /\ c = b1) \/ (l = j /\ c = b2).
Proof.
  intros Hi Hj Hij Hc. unfold pair_children. rewrite list_lookup_insert.
  case_decide as E; [destruct E as [-> ?]; intros; simplify_eq; by right|].
  rewrite list_lookup_insert. case_decide as E'; [destruct E' as [-> ?]; intros; simplify_eq; by left|].
  unfold no_children. intros [-> _]%lookup_replicate. done.
Qed.

Lemma pair_fst i j b1 b2 :
  (i < 17)%nat -> i <> j -> pair_children i j b1 b2 !! i = Some b1.
Proof.
  intros. unfold pair_children. rewrite list_lookup_insert_ne by done.
  by apply list_lookup_insert_eq.
Qed.

Lemma pair_snd i j b1 b2 : (j < 17)%nat -> pair_children i j b1 b2 !! j = Some b2.
Proof.
  intros. unfold pair_children. apply list_lookup_insert_eq. by rewrite length_insert.
Qed.

Lemma wf_pair i j b1 b2 f :
  (i < 17)%nat -> (j < 17)%nat -> i <> j -> slot_ok i b1 -> slot_ok j b2 ->
  wf (FullNode (pair_children i j b1 b2) f).
Proof.
  intros Hi Hj Hij H1 H2. constructor.
  - unfold pair_children. by rewrite !length_insert.
  - intros l c Hl Hc Hn. apply pair_lookup in Hc as [[-> ->]|[-> ->]]; try done;
      [by apply H1|by apply H2].
  - intros c Hc Hn. apply pair_lookup in Hc as [[E ->]|[E ->]]; try done;
      [by apply H1|by apply H2].
  - exists i, j, b1, b2. rewrite pair_fst, pair_snd by done.
    split_and!; try done; [by apply (slot_not_nil i)|by apply (slot_not_nil j)].
Qed.

Lemma has_pair i j b1 b2 f k v :
  (i < 17)%nat -> (j < 17)%nat -> i <> j ->
  has (FullNode (pair_children i j b1 b2) f) k v <->
  (exists k', k = Z.of_nat i :: k' /\ has b1 k' v) \/ (exists k', k = Z.of_nat j :: k' /\ has b2 k' v).
Proof.
  intros Hi Hj Hij. rewrite has_full_iff. split.
  - intros (l & c & k' & -> & Hl & Hh).
    assert (c <> Nil) by (intros ->; by apply has_nil in Hh).
    apply pair_lookup in Hl as [[-> ->]|[-> ->]]; eauto.
  - intros [(k' & -> & Hh)|(k' & -> & Hh)].
    + exists i, b1, k'. by rewrite pair_fst.
    + exists j, b2, k'. by rewrite pair_snd.
Qed.

(** Splitting a short node whose key diverges from the inserted key. *)
Lemma insert_split nKey nVal f key p i j r1 r2 prefix fuel v :
  nKey = p ++ Z.of_nat i :: r1 -> key = p ++ Z.of_nat j :: r2 ->
  (i < 17)%nat -> (j < 17)%nat -> i <> j -> (1 < fuel)%nat ->
  trie_insert dbnode gen fuel (ShortNode nKey nVal f) prefix key (ValueNode v) =
  Ok (true, ext p (FullNode (pair_children i j (ext r1 nVal) (ext r2 (ValueNode v))) (newFlag gen))).
Proof.
  intros E1 E2 Hi Hj Hij Hf. destruct fuel as [|fuel]; [lia|].
  assert (prefixLen key nKey = length p) as Hm.
  { subst. clear -Hij. induction p as [|x p IH]; simpl.
    - rewrite bool_decide_false by lia. done.
    - rewrite bool_decide_true by done. by rewrite IH. }
  assert (forall (x : Z) r, (p ++ x :: r) !! length p = Some x) as Hl
    by (intros; by rewrite list_lookup_middle).
  assert (forall (x : Z) r, drop (S (length p)) (p ++ x :: r) = r) as Hd
    by (intros; rewrite cons_middle, app_assoc, drop_app_length'; [done|rewrite length_app; simpl; lia]).
  assert (trie_insert dbnode gen (S fuel) (ShortNode nKey nVal f) prefix key (ValueNode v) =
    (if (length p =? 0)%nat
     then Ok (true, FullNode (pair_children i j (ext r1 nVal) (ext r2 (ValueNode v))) (newFlag gen))
     else Ok (true, ShortNode p (FullNode (pair_children i j (ext r1 nVal) (ext r2 (ValueNode v)))
            (newFlag gen)) (newFlag gen)))) as ->; [|by destruct p].
  cbn [trie_insert]. destruct key as [|k0 krest]; [by destruct p|].
  rewrite Hm. assert ((length p =? length nKey)%nat = false) as ->
    by (apply Nat.eqb_neq; subst nKey; rewrite length_app; simpl; lia).
  rewrite E1, Hl, Hd. cbn [or_panic mbind outcome_bind]. rewrite !insert_nil by lia.
  cbn [mbind outcome_bind].
  rewrite set_child_nat by (unfold no_children; rewrite length_replicate; lia).
  cbn [or_panic mbind outcome_bind]. rewrite E2, Hl, Hd. cbn [or_panic mbind outcome_bind].
  rewrite set_child_nat by (rewrite length_insert; unfold no_children; rewrite length_replicate; lia).
  simpl. rewrite take_app_length. done.
Qed.

Lemma insert_split_post nVal f p i j r1 r2 v :
  nibbles_ok p -> (i < 17)%nat -> (j < 17)%nat -> i <> j ->
  slot_ok i (ext r1 nVal) -> slot_ok j (ext r2 (ValueNode v)) ->
  insert_post (ShortNode (p ++ Z.of_nat i :: r1) nVal f) (p ++ Z.of_nat j :: r2) v
    (ext p (FullNode (pair_children i j (ext r1 nVal) (ext r2 (ValueNode v))) (newFlag gen))).
Proof.
  intros Hp Hi Hj Hij H1 H2. split_and!.
  - intros k w. rewrite has_ext. setoid_rewrite has_pair; [|done..].
    setoid_rewrite has_ext. rewrite has_short_iff. setoid_rewrite has_value_iff. split.
    + intros (k' & -> & [(k1 & -> & k2 & -> & Hh)|(k1 & -> & k2 & -> & -> & ->)]).
      * right. split; [intros E%app_inv_head; simplify_eq; lia|].
        exists k2. by rewrite <- app_assoc.
      * left. by rewrite app_nil_r.
    + intros [[-> ->]|[Hne (k' & -> & Hh)]]; (eexists; split; [rewrite <- ?app_assoc; done|]).
      * right. exists r2. split; [done|]. exists []. by rewrite app_nil_r.
      * left. eauto.
  - destruct p as [|x p]; [by apply wf_pair|]. apply wf_ext; [done|done|constructor|by apply wf_pair].
  - inversion 1.
Qed.

(** Two keys neither of which extends the other split at a first difference. *)
Lemma diverge (a b : list Z) :
  ~ a `prefix_of` b -> ~ b `prefix_of` a ->
  exists p x y r1 r2, a = p ++ x :: r1 /\ b = p ++ y :: r2 /\ x <> y.
Proof.
  revert b. induction a as [|x a IH]; intros b Ha Hb; [destruct Ha; apply prefix_nil|].
  destruct b as [|y b]; [destruct Hb; apply prefix_nil|].
  destruct (decide (x = y)) as [->|Hne]; [|by exists [], x, y, a, b].
  destruct (IH b) as (p & x' & y' & r1 & r2 & -> & -> & ?).
  - intros ?. by apply Ha, prefix_cons.
  - intros ?. by apply Hb, prefix_cons.
  - by exists (y :: p), x', y', r1, r2.
Qed.

Lemma hexkey_split p x r : hexkey (p ++ x :: r) -> nibbles_ok p /\ hexkey (x :: r).
Proof.
  induction p as [|y p IH]; simpl; [intros; split; [constructor|done]|].
  intros [[_ E]|[Hy Hk]]%hexkey_cons_inv; [by destruct p|].
  destruct (IH Hk). split; [by constructor|done].
Qed.

Lemma hexkey_not_prefix key k : hexkey key -> nibbles_ok k -> ~ key `prefix_of` k.
Proof.
  intros (n & Hn & ->) Hk [r ->]. apply Forall_app in Hk as [Hk _].
  apply Forall_app in Hk as [_ Hk]. inversion_clear Hk as [|?? Ht _].
  unfold is_nibble, terminator in Ht. lia.
Qed.

Lemma slot_ok_value i r v :
  hexkey (Z.of_nat i :: r) -> v <> [] -> (i < 17)%nat /\ slot_ok i (ext r (ValueNode v)).
Proof.
  intros (i' & E & Hi & Hcase)%hexkey_index Hv. simplify_eq. split; [done|].
  destruct Hcase as [[Hlt (n & Hn & ->)]|[-> ->]].
  - split; [intros _|lia]. destruct (n ++ [terminator]) eqn:E'; [by destruct n|].
    simpl. rewrite <- E'. by constructor.
  - split; [lia|]. intros _. eauto.
Qed.

Lemma slot_ok_ext i r c :
  is_nibble (Z.of_nat i) -> nibbles_ok r -> branch c -> wf c ->
  (i < 17)%nat /\ slot_ok i (ext r c).
Proof.
  intros Hi Hr Hb Hc. unfold is_nibble in Hi. split; [lia|]. split; [intros _|lia].
  destruct r; [done|]. by apply wf_ext.
Qed.

(** The nibble before a key and the terminator index as array positions. *)
Lemma hexkey_head_nat x r : hexkey (x :: r) -> exists i, x = Z.of_nat i.
Proof. intros (i & -> & _)%hexkey_index. eauto. Qed.

Lemma insert_value fuel w v prefix :
  (0 < fuel)%nat ->
  trie_insert dbnode gen fuel (ValueNode w) prefix [] (ValueNode v)
  = Ok (negb (bool_decide (w = v)), ValueNode v).
Proof. by destruct fuel; [lia|]. Qed.

(** Inserting below a short node whose key is a prefix of the inserted key. *)
Lemma insert_short_hit nKey nVal f rest prefix fuel value :
  nKey ++ rest <> [] ->
  trie_insert dbnode gen (S fuel) (ShortNode nKey nVal f) prefix (nKey ++ rest) value =
  ('(dirty, nn) ← trie_insert dbnode gen fuel nVal (prefix ++ nKey) rest value;
   if dirty : bool then Ok (true, ShortNode nKey nn (newFlag gen))
   else Ok (false, ShortNode nKey nVal f)).
Proof.
  intros Hne. cbn [trie_insert]. destruct (nKey ++ rest) eqn:E; [done|]. rewrite <- E.
  rewrite (proj2 (prefixLen_full (nKey ++ rest) nKey)) by by exists rest.
  rewrite Nat.eqb_refl, take_app_length, drop_app_length. done.
Qed.

Lemma insert_ok_leaf k w f :
  nibbles_ok k -> w <> [] -> insert_ok (ShortNode (k ++ [terminator]) (ValueNode w) f).
Proof.
  intros Hk Hw key prefix [|fuel] v Hkey Hv Hfuel; [lia|].
  unfold need in Hfuel. simpl in Hfuel. pose proof (hexkey_nonempty _ Hkey) as Hne.
  assert (1 < fuel)%nat by (destruct key; simpl in *; [done|lia]).
  assert (hexkey (k ++ [terminator])) as Hk16 by by exists k.
  destruct (decide (k ++ [terminator] = key)) as [E|Hneq].
  - rewrite <- (app_nil_r key), <- E, insert_short_hit, insert_value by (rewrite ?app_nil_r; congruence || lia).
    rewrite app_nil_r. simpl. case_bool_decide as Ew; simpl; eexists _, _; (split; [done|]).
    + subst w. split; [apply insert_post_self; [by constructor|]|]; by rewrite has_leaf_iff.
    + split; [|done]. split_and!; [|by constructor|inversion 1].
      intros k' u. rewrite !has_leaf_iff. naive_solver.
  - destruct (diverge (k ++ [terminator]) key) as (p & x & y & r1 & r2 & E1 & E2 & Hxy).
    { intros [r E]. apply Hneq. pose proof (hexkey_prefix _ _ _ Hk16 Hkey (eq_sym E)) as ->.
      by rewrite app_nil_r in E. }
    { intros [r E]. apply Hneq. pose proof (hexkey_prefix _ _ _ Hkey Hk16 (eq_sym E)) as ->.
      by rewrite app_nil_r in E. }
    rewrite E1 in Hk16. rewrite E2 in Hkey.
    apply hexkey_split in Hk16 as [Hp Hx], Hkey as [_ Hy].
    destruct (hexkey_head_nat _ _ Hx) as [i ->]. destruct (hexkey_head_nat _ _ Hy) as [j ->].
    destruct (slot_ok_value i r1 w Hx Hw) as [Hi H1]. destruct (slot_ok_value j r2 v Hy Hv) as [Hj H2].
    assert (i <> j) by congruence.
    eexists _, _. split; [by eapply insert_split; eauto; lia|]. split; [|done].
    rewrite E1, E2. by apply insert_split_post.
Qed.

Lemma insert_ok_ext k c f :
  nibbles_ok k -> k <> [] -> branch c -> wf c -> insert_ok c -> insert_ok (ShortNode k c f).
Proof.
  intros Hk Hkne Hb Hc IH key prefix [|fuel] v Hkey Hv Hfuel; [lia|].
  unfold need in Hfuel. simpl in Hfuel. pose proof (hexkey_nonempty _ Hkey) as Hne.
  destruct (decide (k `prefix_of` key)) as [[rest ->]|Hp].
  - apply hexkey_app_inv in Hkey; [|done]. rewrite length_app in Hfuel.
    assert (0 < length k)%nat by (destruct k; simpl; [done|lia]).
    destruct (IH rest (prefix ++ k) fuel v) as (d & n' & Er & (Hu & Hw & Hbr) & Hd);
      [done|done|unfold need; destruct (is_hash c); lia|].
    rewrite insert_short_hit by done. rewrite Er. simpl.
    destruct d; eexists _, _; (split; [done|]).
    + split; [|done]. split_and!; [|apply wf_ext; auto|inversion 1].
      intros k' u. rewrite !has_short_iff. setoid_rewrite (Hu _ u). split.
      * intros (k1 & -> & [[-> ->]|[? ?]]); [by left|right].
        split; [by intros ?%app_inv_head|eauto].
      * intros [[-> ->]|[? (k1 & -> & ?)]]; [eauto|]. exists k1. split; [done|].
        right. split; [congruence|done].
    + assert (has (ShortNode k c f) (k ++ rest) v) as Hh by (rewrite has_short_app; auto).
      split; [|done]. apply insert_post_self; [by apply wf_ext|done].
  - destruct (diverge k key) as (p & x & y & r1 & r2 & E1 & E2 & Hxy); [done|by apply hexkey_not_prefix|].
    assert (1 < fuel)%nat by (destruct key; simpl in *; [done|lia]).
    rewrite E2 in Hkey. apply hexkey_split in Hkey as [Hp' Hy].
    rewrite E1 in Hk. apply Forall_app in Hk as [_ Hk]. inversion_clear Hk as [|?? Hx Hr1].
    destruct (hexkey_head_nat _ _ Hy) as [j ->].
    assert (exists i, x = Z.of_nat i) as [i ->]
      by (exists (Z.to_nat x); unfold is_nibble in Hx; lia).
    destruct (slot_ok_ext i r1 c Hx Hr1 Hb Hc) as [Hi H1].
    destruct (slot_ok_value j r2 v Hy Hv) as [Hj H2].
    assert (i <> j) by congruence.
    eexists _, _. split; [by eapply insert_split; eauto; lia|]. split; [|done].
    rewrite E1, E2. by apply insert_split_post.
Qed.

Lemma updated_full ch f g i c rest v m :
  ch !! i = Some c -> updated c rest v m ->
  updated (FullNode ch f) (Z.of_nat i :: rest) v (FullNode (<[i := m]> ch) g).
Proof.
  intros Hc Hu k w. pose proof (lookup_lt_Some _ _ _ Hc) as Hi.
  rewrite has_full_insert, has_full_iff by done. setoid_rewrite (Hu _ w). split.
  - intros [(k' & -> & [[-> ->]|[Hne Hh]])|(j & k' & c' & Hji & -> & Hj & Hh)].
    + by left.
    + right. split; [congruence|eauto 10].
    + right. split; [intros E; simplify_eq|eauto 10].
  - intros [[-> ->]|(Hne & j & c' & k' & -> & Hj & Hh)]; [left; eauto|].
    destruct (decide (j = i)) as [->|]; [|right; eauto 10].
    left. exists k'. split; [done|]. right. split; [congruence|]. by simplify_eq.
Qed.

Lemma updated_nil rest v : updated Nil rest v (ext rest (ValueNode v)).
Proof.
  intros k w. rewrite has_ext. setoid_rewrite has_value_iff. split.
  - intros (k' & -> & -> & ->). left. by rewrite app_nil_r.
  - intros [[-> ->]|[_ []%has_nil]]. exists []. by rewrite app_nil_r.
Qed.

Lemma insert_full_step ch f i c rest prefix fuel value :
  ch !! i = Some c ->
  trie_insert dbnode gen (S fuel) (FullNode ch f) prefix (Z.of_nat i :: rest) value =
  ('(dirty, nn) ← trie_insert dbnode gen fuel c (prefix ++ [Z.of_nat i]) rest value;
   if dirty : bool then Ok (true, FullNode (<[i := nn]> ch) (newFlag gen))
   else Ok (false, FullNode ch f)).
Proof.
  intros Hc. cbn [trie_insert]. rewrite child_nat, Hc. simpl. apply lookup_lt_Some in Hc.
  destruct (trie_insert _ _ _ _ _ _ _) as [[[] ?]| | |]; try done. simpl.
  by rewrite set_child_nat.
Qed.

Lemma insert_ok_full ch f :
  wf (FullNode ch f) ->
  (forall i c, (i < 16)%nat -> ch !! i = Some c -> c <> Nil -> insert_ok c) ->
  insert_ok (FullNode ch f).
Proof.
  intros Hwf IH key prefix [|fuel] v Hkey Hv Hfuel; [lia|].
  inversion Hwf as [| |? ? Hlen _ H16 _|]; subst. unfold need in Hfuel. simpl in Hfuel.
  destruct key as [|x rest]; [by apply hexkey_nonempty in Hkey|].
  destruct (hexkey_head_nat _ _ Hkey) as [i ->].
  destruct (slot_ok_value i rest v Hkey Hv) as [Hi Hslot].
  apply hexkey_index in Hkey as (i' & E & _ & Hcase). simplify_eq.
  destruct (lookup_lt_is_Some_2 ch i' ltac:(lia)) as [c Hc].
  rewrite (insert_full_step _ _ _ c) by done. simpl in Hfuel.
  assert (forall m, updated c rest v m -> slot_ok i' m ->
    insert_post (FullNode ch f) (Z.of_nat i' :: rest) v (FullNode (<[i' := m]> ch) (newFlag gen)))
    as Hpost.
  { intros m Hu Hm. split_and!; [by apply updated_full with c|by eapply wf_full_insert|constructor]. }
  destruct (decide (c = Nil)) as [->|Hcn].
  { rewrite insert_nil by lia. simpl. eexists _, _. split; [done|].
    split; [|done]. apply Hpost; [apply updated_nil|done]. }
  destruct Hcase as [[Hi16 Hrest]|[-> ->]].
  - destruct (IH i' c Hi16 Hc Hcn rest (prefix ++ [Z.of_nat i']) fuel v)
      as (d & n' & Er & (Hu & Hw & _) & Hd); [done..|unfold need; destruct (is_hash c); lia|].
    rewrite Er. simpl. destruct d; eexists _, _; (split; [done|]).
    + split; [|done]. apply Hpost; [done|]. split; [done|lia].
    + split; [|intros _; rewrite has_full_cons by done; auto].
      apply insert_post_self; [done|]. rewrite has_full_cons by done. auto.
  - destruct (H16 c Hc Hcn) as (w & Hw & ->). rewrite insert_value by lia. simpl.
    case_bool_decide as Ew; simpl; eexists _, _; (split; [done|]).
    + subst w. assert (has (FullNode ch f) [Z.of_nat 16] v)
        by (rewrite has_full_cons by done; constructor).
      split; [by apply insert_post_self|done].
    + split; [|done]. apply Hpost; [|done].
      intros k' u. rewrite !has_value_iff. naive_solver.
Qed.

Lemma insert_ok_hash h n :
  resolves h n -> is_hash n = false -> wf n -> insert_ok n -> insert_ok (HashNode h).
Proof.
  intros Hr Hh Hwf IH key prefix [|fuel] v Hkey Hv Hfuel; [lia|].
  unfold need in Hfuel. simpl in Hfuel.
  destruct (IH key prefix fuel v) as (d & n' & Er & (Hu & Hw & Hbr) & Hd);
    [done..|unfold need; rewrite Hh; lia|].
  assert (forall m, insert_post n key v m -> insert_post (HashNode h) key v m) as Hpost.
  { intros m (Hu' & Hw' & Hb'). split_and!; [|done|].
    - intros k w. rewrite (has_hash_iff h n) by done. apply Hu'.
    - inversion 1; subst. simplify_eq. apply Hb'. constructor. }
  cbn [trie_insert]. destruct key as [|k0 kr] eqn:Ek; [by apply hexkey_nonempty in Hkey|].
  rewrite <- Ek in *. unfold resolveHash. rewrite Hr. simpl. rewrite Er. simpl.
  destruct d; eexists _, _; (split; [done|]).
  - split; [|done]. by apply Hpost.
  - split; [|intros _; rewrite (has_hash_iff h n) by done; auto].
    apply Hpost, insert_post_self; auto.
Qed.

Lemma trie_insert_ok n : wf n -> insert_ok n.
Proof.
  induction 1; [by apply insert_ok_leaf|by apply insert_ok_ext| |by eapply insert_ok_hash].
  apply insert_ok_full; [by constructor|]. eauto.
Qed.

(** ** Deletion *)

(** The content after unbinding [key]. *)
Definition removed (n : node) (key : list Z) (n' : node) : Prop :=
  forall k w, has n' k w <-> k <> key /\ has n k w.

(** A deletion leaves a canonical node or nil; a branch never becomes nil, and
    a changed node is never a bare hash reference. *)
Definition delete_post (n : node) (key : list Z) (d : bool) (n' : node) : Prop :=
  removed n key n' /\ wf_root n' /\ (branch n -> n' <> Nil) /\
  (d = true -> is_hash n' = false) /\ (d = false -> forall v, ~ has n key v).

Definition delete_ok (n : node) : Prop :=
  forall key prefix fuel,
    hexkey key -> (need n key < fuel)%nat ->
    exists d n', trie_delete dbnode gen fuel n prefix key = Ok (d, n') /\
      delete_post n key d n'.

Lemma delete_post_self n key :
  wf n -> (forall v, ~ has n key v) -> delete_post n key false n.
Proof.
  intros Hwf Hno. split_and!; [|by right|intros _; by apply wf_not_nil|done|done].
  intros k w. split; [|by intros [_ ?]]. intros Hh. split; [|done]. intros ->. by eapply Hno.
Qed.

(** The scan for the remaining children of a branch. *)
Lemma single_child_found o p ch :
  0 <= p -> (single_child o p ch = p /\ forall l d, ch !! l = Some d -> d = Nil) \/
  (single_child o p ch = -2 /\ exists l d, ch !! l = Some d /\ d <> Nil).
Proof.
  intros Hp. revert o. induction ch as [|c ch IH]; intros o; simpl; [left; done|].
  destruct (is_nil c) eqn:Ec.
  - assert (c = Nil) as -> by by destruct c.
    destruct (IH (o + 1)) as [[-> Hall]|[-> (l & d & ? & ?)]].
    + left. split; [done|]. intros [|l] d; simpl; [congruence|apply Hall].
    + right. split; [done|]. by exists (S l), d.
  - rewrite bool_decide_false by lia. right. split; [done|].
    exists 0%nat, c. split; [done|]. by destruct c.
Qed.

Lemma single_child_spec_from o ch :
  (single_child (Z.of_nat o) (-1) ch = -1 /\ forall l d, ch !! l = Some d -> d = Nil) \/
  (exists j c, single_child (Z.of_nat o) (-1) ch = Z.of_nat (o + j) /\ ch !! j = Some c /\ c <> Nil /\
     forall l d, ch !! l = Some d -> d <> Nil -> l = j) \/
  (single_child (Z.of_nat o) (-1) ch = -2 /\
     exists i j a b, i <> j /\ ch !! i = Some a /\ ch !! j = Some b /\ a <> Nil /\ b <> Nil).
Proof.
  revert o. induction ch as [|c ch IH]; intros o; simpl; [left; done|].
  destruct (is_nil c) eqn:Ec.
  - assert (c = Nil) as -> by by destruct c.
    replace (Z.of_nat o + 1) with (Z.of_nat (S o)) by lia.
    destruct (IH (S o)) as [[-> Hall]|[(j & c & -> & Hj & Hc & Hu)|[-> (i & j & a & b & ? & ? & ? & ? & ?)]]].
    + left. split; [done|]. intros [|l] d; simpl; [congruence|apply Hall].
    + right. left. exists (S j), c. split_and!; [f_equal; lia|done|done|].
      intros [|l] d; simpl; [congruence|]. intros ? ?. f_equal. eauto.
    + right. right. split; [done|]. exists (S i), (S j), a, b. split_and!; try done. lia.
  - assert (c <> Nil) by by destruct c.
    destruct (single_child_found (Z.of_nat o + 1) (Z.of_nat o) ch ltac:(lia))
      as [[-> Hall]|[-> (l & d & Hl & Hd)]].
    + right. left. exists 0%nat, c. split_and!; [f_equal; lia|done|done|].
      intros [|l] d; simpl; [done|]. intros Hl Hd. by apply Hall in Hl.
    + right. right. split; [done|]. by exists 0%nat, (S l), c, d.
Qed.

Lemma removed_full ch f g i c rest m :
  ch !! i = Some c -> removed c rest m ->
  removed (FullNode ch f) (Z.of_nat i :: rest) (FullNode (<[i := m]> ch) g).
Proof.
  intros Hc Hu k w. pose proof (lookup_lt_Some _ _ _ Hc) as Hi.
  rewrite has_full_insert, has_full_iff by done. setoid_rewrite (Hu _ w). split.
  - intros [(k' & -> & Hne & Hh)|(j & k' & c' & Hji & -> & Hj & Hh)].
    + split; [congruence|eauto 10].
    + split; [intros E; simplify_eq|eauto 10].
  - intros (Hne & j & c' & k' & -> & Hj & Hh).
    destruct (decide (j = i)) as [->|]; [|right; eauto 10].
    left. exists k'. split; [done|]. split; [congruence|]. by simplify_eq.
Qed.

(** A branch with a single child left has the content of that child. *)
Lemma has_single ch f j c k w :
  ch !! j = Some c -> (forall l d, ch !! l = Some d -> d <> Nil -> l = j) ->
  has (FullNode ch f) k w <-> exists k', k = Z.of_nat j :: k' /\ has c k' w.
Proof.
  intros Hj Hu. rewrite has_full_iff. split; [|naive_solver].
  intros (i & d & k' & -> & Hi & Hh). assert (d <> Nil) by (intros ->; by apply has_nil in Hh).
  pose proof (Hu _ _ Hi ltac:(done)) as ->. simplify_eq. eauto.
Qed.

(** Prepending nibbles to the key of a short node. *)
Lemma wf_short_cons p k c f g :
  nibbles_ok p -> wf (ShortNode k c f) -> wf (ShortNode (p ++ k) c g).
Proof.
  intros Hp. inversion 1; subst.
  - rewrite app_assoc. constructor; [|done]. by apply Forall_app.
  - apply wf_ext; [by apply Forall_app| |done|done]. destruct p; [done|by destruct k].
Qed.

Lemma has_short_cons p k c f g key w :
  has (ShortNode (p ++ k) c g) key w <->
  exists k', key = p ++ k' /\ has (ShortNode k c f) k' w.
Proof.
  rewrite has_short_iff. setoid_rewrite has_short_iff. split.
  - intros (k' & -> & Hh). exists (k ++ k'). rewrite app_assoc. eauto.
  - intros (k1 & -> & k2 & -> & Hh). exists k2. by rewrite app_assoc.
Qed.

(** The tail of the full-node case of [delete]: a branch left with one child is
    turned back into a short node. *)
Definition collapse (prefix : list Z) (ch : list node) : outcome trie_error (bool * node) :=
  let pos := single_child 0 (-1) ch in
  if bool_decide (0 <= pos) then
    only ← or_panic (child ch pos);
    if bool_decide (pos <> 16) then
      cnode ← resolve dbnode gen only prefix;
      match cnode with
      | ShortNode cKey cVal _ => Ok (true, ShortNode (pos :: cKey) cVal (newFlag gen))
      | _ => Ok (true, ShortNode [pos] only (newFlag gen))
      end
    else Ok (true, ShortNode [pos] only (newFlag gen))
  else Ok (true, FullNode ch (newFlag gen)).

(** Resolving a canonical node gives a loaded canonical node with the same content. *)
Lemma resolve_ok n prefix :
  wf n -> exists m, resolve dbnode gen n prefix = Ok m /\ is_hash m = false /\ wf m /\ same n m /\
    (forall ch f, m = FullNode ch f -> branch n).
Proof.
  inversion 1; subst.
  4:{ eexists. simpl. unfold resolveHash. rewrite H0. split_and!; try done.
      - intros k w. by apply has_hash_iff.
      - intros ch f ->. by econstructor. }
  all: eexists; simpl; split_and!; try done; intros; by simplify_eq; constructor.
Qed.

(** One remaining child below a nibble. *)
Lemma collapse_single j c prefix :
  (j < 16)%nat -> wf c ->
  exists n', (cnode ← resolve dbnode gen c prefix;
    match cnode with
    | ShortNode cKey cVal _ => Ok (true, ShortNode (Z.of_nat j :: cKey) cVal (newFlag gen))
    | _ => Ok (true, ShortNode [Z.of_nat j] c (newFlag gen))
    end) = Ok (true, n') /\ wf n' /\ is_hash n' = false /\
    forall k w, has n' k w <-> exists k', k = Z.of_nat j :: k' /\ has c k' w.
Proof.
  intros Hj Hc. destruct (resolve_ok c prefix Hc) as (m & -> & Hh & Hm & Hs & Hb). simpl.
  assert (nibbles_ok [Z.of_nat j]) as Hn by (apply Forall_singleton; unfold is_nibble; lia).
  destruct m as [|v|cKey cVal f|ch f|h]; try by inversion Hm.
  - eexists. split; [done|]. split; [by eapply (wf_short_cons [_])|]. split; [done|].
    intros k w. rewrite (has_short_cons [Z.of_nat j] cKey cVal f). by setoid_rewrite (Hs _ w).
  - eexists. split; [done|]. split; [apply wf_ext; eauto|]. split; [done|].
    intros k w. by rewrite has_short_iff.
Qed.

Lemma collapse_ok prefix ch :
  length ch = 17%nat ->
  (forall i c, (i < 17)%nat -> ch !! i = Some c -> c <> Nil -> slot_ok i c) ->
  (exists i c, ch !! i = Some c /\ c <> Nil) ->
  exists n', collapse prefix ch = Ok (true, n') /\ wf n' /\ is_hash n' = false /\
    same (FullNode ch (newFlag gen)) n'.
Proof.
  intros Hlen Hslot (i0 & c0 & Hi0 & Hc0). unfold collapse.
  pose proof (single_child_spec_from 0 ch) as Hsp. change (Z.of_nat 0) with 0 in Hsp.
  destruct Hsp as [[_ Hall]|[(j & c & E & Hj & Hc & Hu)|[E H2]]].
  - by apply Hall in Hi0.
  - rewrite Nat.add_0_l in E. rewrite E, bool_decide_true, child_nat, Hj by lia. simpl.
    pose proof (lookup_lt_Some _ _ _ Hj) as Hj17. rewrite Hlen in Hj17.
    destruct (Hslot j c Hj17 Hj Hc) as [Hs1 Hs2].
    case_bool_decide as Hj16.
    + destruct (collapse_single j c prefix) as (n' & -> & Hw & Hh & Hn); [lia|apply Hs1; lia|].
      exists n'. split_and!; try done. intros k w. by rewrite Hn, (has_single _ _ j c).
    + assert (j = 16%nat) as -> by lia. destruct Hs2 as (v & Hv & ->); [done|].
      eexists. split; [done|]. split; [apply (wf_leaf []); [constructor|done]|]. split; [done|].
      intros k w. by rewrite has_short_iff, (has_single _ _ 16 (ValueNode v)).
  - rewrite E. simpl. eexists. split; [done|]. split; [|split; [done|apply same_refl]].
    constructor; try done.
    + intros i c Hi Hic Hn. destruct (Hslot i c) as [Hs _]; [lia|done..|]. auto.
    + intros c Hic Hn. destruct (Hslot 16%nat c) as [_ Hs]; [lia|done..|]. auto.
Qed.

Lemma delete_ok_leaf k w f :
  nibbles_ok k -> w <> [] -> delete_ok (ShortNode (k ++ [terminator]) (ValueNode w) f).
Proof.
  intros Hk Hw key prefix [|fuel] Hkey Hfuel; [lia|].
  assert (hexkey (k ++ [terminator])) as Hk16 by by exists k.
  assert (wf (ShortNode (k ++ [terminator]) (ValueNode w) f)) as Hwf by by constructor.
  cbn [trie_delete]. destruct (Nat.ltb_spec (prefixLen key (k ++ [terminator])) (length (k ++ [terminator]))) as [Hlt|Hge].
  - eexists _, _. split; [done|]. apply delete_post_self; [done|].
    intros v [-> _]%has_leaf_iff.
    rewrite (proj2 (prefixLen_full (k ++ [terminator]) _)) in Hlt by done. lia.
  - assert (prefixLen key (k ++ [terminator]) = length (k ++ [terminator])) as E
      by (pose proof (prefixLen_le_r key (k ++ [terminator])); lia).
    pose proof E as [rest ->]%prefixLen_full.
    pose proof (hexkey_prefix _ _ _ Hk16 Hkey eq_refl) as ->. rewrite app_nil_r in *.
    rewrite E, Nat.eqb_refl. eexists _, _. split; [done|].
    split_and!; [|by left|inversion 1|done|done].
    intros k' u. rewrite has_leaf_iff. split; [by intros ?%has_nil|naive_solver].
Qed.

Lemma delete_ok_ext k c f :
  nibbles_ok k -> k <> [] -> branch c -> wf c -> delete_ok c -> delete_ok (ShortNode k c f).
Proof.
  intros Hk Hne Hb Hc IH key prefix [|fuel] Hkey Hfuel; [lia|].
  assert (wf (ShortNode k c f)) as Hwf by by constructor.
  cbn [trie_delete]. destruct (Nat.ltb_spec (prefixLen key k) (length k)) as [Hlt|Hge].
  - eexists _, _. split; [done|]. apply delete_post_self; [done|].
    intros v (k' & -> & _)%has_short_iff.
    rewrite (proj2 (prefixLen_full (k ++ k') k)) in Hlt by by exists k'. lia.
  - assert (prefixLen key k = length k) as E by (pose proof (prefixLen_le_r key k); lia).
    pose proof E as [rest ->]%prefixLen_full. apply hexkey_app_inv in Hkey; [|done].
    unfold need in Hfuel. simpl in Hfuel. rewrite length_app in Hfuel.
    pose proof (hexkey_nonempty _ Hkey) as Hrne.
    assert (0 < length k)%nat by (destruct k; simpl; [done|lia]).
    rewrite E, length_app. rewrite (proj2 (Nat.eqb_neq _ _)) by (destruct rest; simpl; [done|lia]).
    rewrite take_app_length, drop_app_length.
    destruct (IH rest (prefix ++ k) fuel) as (d & n' & -> & Hr & Hw & Hnn & Hh & Hd);
      [done|unfold need; destruct (is_hash c); lia|]. simpl.
    assert (forall m, (forall k' w, has m k' w <-> exists k1, k' = k ++ k1 /\ has n' k1 w) ->
              removed (ShortNode k c f) (k ++ rest) m) as Hrem.
    { intros m Hm k' w. rewrite Hm, has_short_iff. setoid_rewrite (Hr _ w). split.
      - intros (k1 & -> & Hk1 & ?). split; [by intros ?%app_inv_head|eauto].
      - intros (Hk1 & k1 & -> & ?). exists k1. split; [done|]. split; [congruence|done]. }
    specialize (Hnn Hb). destruct Hw as [->|Hw]; [done|].
    destruct d.
    + destruct n' as [|v|cKey cVal g|ch g|h]; try by inversion Hw.
      * eexists _, _. split; [done|]. split_and!; [|right; by eapply wf_short_cons|done|done|done].
        apply Hrem. intros k' w. apply has_short_cons.
      * eexists _, _. split; [done|]. split_and!; [|right; apply wf_ext; [done|done|constructor|done]|done|done|done].
        apply Hrem. intros k' w. apply has_short_iff.
      * by specialize (Hh eq_refl).
    + eexists _, _. split; [done|]. apply delete_post_self; [done|].
      intros v. rewrite has_short_app. by apply Hd.
Qed.

Lemma delete_full_step ch f i c rest prefix fuel :
  ch !! i = Some c ->
  trie_delete dbnode gen (S fuel) (FullNode ch f) prefix (Z.of_nat i :: rest) =
  ('(dirty, nn) ← trie_delete dbnode gen fuel c (prefix ++ [Z.of_nat i]) rest;
   if dirty : bool then collapse prefix (<[i := nn]> ch) else Ok (false, FullNode ch f)).
Proof.
  intros Hc. cbn [trie_delete lookup list_lookup or_panic mbind outcome_bind].
  rewrite child_nat, Hc. apply lookup_lt_Some in Hc. cbn [or_panic mbind outcome_bind drop].
  destruct (trie_delete _ _ _ _ _ _) as [[[] ?]| | |]; try done.
  cbn [mbind outcome_bind]. rewrite set_child_nat by done. reflexivity.
Qed.

(** A branch keeps a child when one slot is overwritten. *)
Lemma branch_keeps_child (ch : list node) (i : nat) m :
  (exists a b na nb, a <> b /\ ch !! a = Some na /\ ch !! b = Some nb /\ na <> Nil /\ nb <> Nil) ->
  exists j c, <[i := m]> ch !! j = Some c /\ c <> Nil.
Proof.
  intros (a & b & na & nb & Hab & Ha & Hb & Hna & Hnb).
  destruct (decide (i = a)) as [->|].
  - exists b, nb. by rewrite list_lookup_insert_ne.
  - exists a, na. by rewrite list_lookup_insert_ne.
Qed.

(** Overwriting slot [i] of a canonical branch and collapsing the result. *)
Lemma delete_full_post ch f i c rest prefix m :
  wf (FullNode ch f) -> ch !! i = Some c -> removed c rest m -> (m = Nil \/ slot_ok i m) ->
  exists n', collapse prefix (<[i := m]> ch) = Ok (true, n') /\
    delete_post (FullNode ch f) (Z.of_nat i :: rest) true n'.
Proof.
  inversion 1 as [| |? ? Hlen Hch H16 Htwo|]; subst. intros Hc Hr Hm.
  pose proof (lookup_lt_Some _ _ _ Hc) as Hi.
  destruct (collapse_ok prefix (<[i := m]> ch)) as (n' & -> & Hw & Hh & Hs).
  - by rewrite length_insert.
  - intros j d Hj Hd Hn. destruct (decide (i = j)) as [->|].
    + rewrite list_lookup_insert_eq in Hd by done. simplify_eq. by destruct Hm.
    + rewrite list_lookup_insert_ne in Hd by done. split; [eauto|].
      intros ->. eauto.
  - by apply branch_keeps_child.
  - eexists. split; [done|]. split_and!; [|by right|intros _; by apply wf_not_nil|done|done].
    intros k w. rewrite <- (Hs k w). by apply (removed_full ch f (newFlag gen) i c rest m Hc Hr).
Qed.

Lemma delete_ok_full ch f :
  wf (FullNode ch f) ->
  (forall i c, (i < 16)%nat -> ch !! i = Some c -> c <> Nil -> delete_ok c) ->
  delete_ok (FullNode ch f).
Proof.
  intros Hwf IH key prefix [|fuel] Hkey Hfuel; [lia|].
  inversion Hwf as [| |? ? Hlen _ H16 _|]; subst. unfold need in Hfuel. simpl in Hfuel.
  destruct key as [|x rest]; [by apply hexkey_nonempty in Hkey|].
  apply hexkey_index in Hkey as (i & -> & Hi & Hcase). simpl in Hfuel.
  destruct (lookup_lt_is_Some_2 ch i ltac:(lia)) as [c Hc].
  rewrite (delete_full_step _ _ _ c) by done.
  destruct (decide (c = Nil)) as [->|Hcn].
  { destruct fuel; [lia|]. simpl. eexists _, _. split; [done|]. apply delete_post_self; [done|].
    intros v. rewrite has_full_cons by done. apply has_nil. }
  destruct Hcase as [[Hi16 Hrest]|[-> ->]].
  - destruct (IH i c Hi16 Hc Hcn rest (prefix ++ [Z.of_nat i]) fuel)
      as (d & n' & -> & Hr & Hw & _ & _ & Hd); [done..|unfold need; destruct (is_hash c); lia|].
    simpl. destruct d.
    + destruct (delete_full_post ch f i c rest prefix n') as (m & -> & Hp); [done..| |by eauto].
      destruct Hw as [->|Hw]; [by left|right]. split; [done|lia].
    + eexists _, _. split; [done|]. apply delete_post_self; [done|].
      intros v. rewrite has_full_cons by done. by apply Hd.
  - destruct (H16 c Hc Hcn) as (w & Hw & ->). destruct fuel; [lia|]. simpl.
    destruct (delete_full_post ch f 16 (ValueNode w) [] prefix Nil) as (m & -> & Hp); eauto.
    intros k u. rewrite has_value_iff. split; [by intros ?%has_nil|naive_solver].
Qed.

Lemma delete_ok_hash h n :
  resolves h n -> is_hash n = false -> wf n -> delete_ok n -> delete_ok (HashNode h).
Proof.
  intros Hr Hh Hwf IH key prefix [|fuel] Hkey Hfuel; [lia|].
  unfold need in Hfuel. simpl in Hfuel.
  destruct (IH key prefix fuel) as (d & n' & Er & Hp); [done..|unfold need; rewrite Hh; lia|].
  assert (forall d m, delete_post n key d m -> delete_post (HashNode h) key d m) as Hpost.
  { intros d' m (Hu & Hw & Hb & Hd & Hno). split_and!; try done.
    - intros k w. rewrite (has_hash_iff h n) by done. apply Hu.
    - inversion 1; subst. simplify_eq. apply Hb. constructor.
    - intros -> v. rewrite (has_hash_iff h n) by done. auto. }
  cbn [trie_delete]. unfold resolveHash. rewrite Hr. simpl. rewrite Er. simpl.
  destruct d; eexists _, _; (split; [done|]); apply Hpost; [done|].
  apply delete_post_self; [done|]. by apply Hp.
Qed.

Lemma trie_delete_ok n : wf n -> delete_ok n.
Proof.
  induction 1; [by apply delete_ok_leaf|by apply delete_ok_ext| |by eapply delete_ok_hash].
  apply delete_ok_full; [by constructor|]. eauto.
Qed.
End spec.
