(* ===== verification/TrieMap.v ===== *)
(** * The trie as a finite map

    [represents t m] relates a trie to the finite map of its bindings.  The
    exported operations of [src/trie/trie.go] refine the map operations, any
    sequence of them does, and the shape of an in-memory trie depends only on
    the map it represents. *)

From S2P Require Import Prelude Common TrieEncoding Trie TrieSpec.

Section refinement.
Context (dbnode : list Z -> Z -> option node).

(** The trie is canonical and binds exactly what [m] binds. *)
Record represents (t : Trie) (m : gmap (list Z) (list Z)) : Prop := {
  rep_wf : wf_root dbnode (cachegen t) (root t);
  rep_keys k v : m !! k = Some v -> bytes_ok k;
  rep_has hk v : has dbnode (cachegen t) (root t) hk v <->
                 exists k, hk = keybytesToHex k /\ m !! k = Some v
}.

Lemma keybytesToHex_hexkey k : bytes_ok k -> hexkey (keybytesToHex k).
Proof.
  intros. exists (key_nibbles k). split; [by apply key_nibbles_ok|apply keybytesToHex_nibbles].
Qed.

Lemma rep_lookup t m k v :
  represents t m -> bytes_ok k ->
  has dbnode (cachegen t) (root t) (keybytesToHex k) v <-> m !! k = Some v.
Proof.
  intros Hr Hk. rewrite (rep_has _ _ Hr). split; [|eauto].
  intros (k' & E & Hm). by rewrite (keybytesToHex_inj k k') by eauto using rep_keys.
Qed.

Lemma rep_value_nonempty t m k v : represents t m -> m !! k = Some v -> v <> [].
Proof.
  intros Hr Hm. pose proof (rep_keys _ _ Hr _ _ Hm).
  apply (rep_lookup _ _ k v Hr) in Hm; [|done].
  destruct (rep_wf _ _ Hr) as [Hn|Hw]; [by rewrite Hn in Hm; apply has_nil in Hm|].
  by apply has_hexkey in Hm as [_ ?].
Qed.

(** Two tries with the same canonical content represent the same map. *)
Lemma represents_same t t' m :
  represents t m -> cachegen t' = cachegen t -> wf_root dbnode (cachegen t) (root t') ->
  same dbnode (cachegen t) (root t) (root t') -> represents t' m.
Proof.
  intros Hr Hg Hw Hs. constructor; rewrite ?Hg; [done|apply (rep_keys _ _ Hr)|].
  intros hk v. rewrite <- (Hs hk v). apply (rep_has _ _ Hr).
Qed.

Lemma represents_empty t : root t = Nil -> represents t ∅.
Proof.
  intros E. constructor; rewrite ?E; [by left|by intros ?? ?%lookup_empty_Some|].
  intros hk v. split; [by intros ?%has_nil|by intros (k & _ & ?%lookup_empty_Some)].
Qed.

(** Binding a key. *)
Lemma represents_insert t m k v n' :
  represents t m -> bytes_ok k ->
  wf_root dbnode (cachegen t) n' ->
  updated dbnode (cachegen t) (root t) (keybytesToHex k) v n' ->
  represents (set_root t n') (<[k := v]> m).
Proof.
  intros Hr Hk Hw Hu. constructor; simpl; [done| |].
  - intros k' v'. rewrite lookup_insert_Some. intros [[<- _]|[_ ?]]; [done|].
    by eapply rep_keys.
  - intros hk w. rewrite (Hu hk w), (rep_has _ _ Hr). split.
    + intros [[-> ->]|[Hne (k' & -> & Hm)]]; [exists k; by rewrite lookup_insert_eq|].
      exists k'. rewrite lookup_insert_ne by congruence. done.
    + intros (k' & -> & [[<- <-]|[Hne Hm]]%lookup_insert_Some); [by left|right].
      split; [|eauto]. intros E%keybytesToHex_inj; eauto using rep_keys.
Qed.

Lemma represents_delete t m k n' :
  represents t m -> bytes_ok k ->
  wf_root dbnode (cachegen t) n' ->
  removed dbnode (cachegen t) (root t) (keybytesToHex k) n' ->
  represents (set_root t n') (delete k m).
Proof.
  intros Hr Hk Hw Hu. constructor; simpl; [done| |].
  - intros k' v'. rewrite lookup_delete_Some. intros [_ ?]. by eapply rep_keys.
  - intros hk w. rewrite (Hu hk w), (rep_has _ _ Hr). split.
    + intros [Hne (k' & -> & Hm)]. exists k'. rewrite lookup_delete_ne by congruence. done.
    + intros (k' & -> & [Hne Hm]%lookup_delete_Some). split; [|eauto].
      intros E%keybytesToHex_inj; eauto using rep_keys.
Qed.

(** [walk_fuel] covers every walk. *)
Lemma walk_fuel_enough n key : (need n key < walk_fuel key)%nat.
Proof. unfold need, walk_fuel. destruct (is_hash n); lia. Qed.

Lemma walk_fuel_S key : walk_fuel key = S (2 * length key + 2).
Proof. unfold walk_fuel. lia. Qed.

Lemma TryGet_spec t m k :
  represents t m -> bytes_ok k ->
  exists t', TryGet dbnode t k = Ok (m !! k, t') /\ represents t' m.
Proof.
  intros Hr Hk. unfold TryGet. pose proof (keybytesToHex_hexkey k Hk) as Hx.
  destruct (rep_wf _ _ Hr) as [E|Hw].
  - rewrite E, walk_fuel_S. simpl. exists t. split; [|done]. do 2 f_equal.
    destruct (m !! k) as [v|] eqn:Em; [|done].
    apply (rep_lookup _ _ _ v Hr) in Em; [|done]. rewrite E in Em. by apply has_nil in Em.
  - destruct (tryGet_ok _ _ _ Hw (keybytesToHex k) 0%nat (walk_fuel (keybytesToHex k)))
      as (r & n' & d & -> & (Hv & Hs & Hw' & _) & Hd); [done|apply walk_fuel_enough|].
    simpl. assert (r = m !! k) as ->.
    { apply option_eq. intros v. rewrite Hv. by apply rep_lookup. }
    eexists. split; [done|]. destruct d; [|done].
    eapply represents_same; [done|done|by right|done].
Qed.

Lemma insert_root_ok g n key prefix v :
  wf_root dbnode g n -> hexkey key -> v <> [] ->
  exists d n', trie_insert dbnode g (walk_fuel key) n prefix key (ValueNode v) = Ok (d, n') /\
    wf dbnode g n' /\ updated dbnode g n key v n'.
Proof.
  intros [->|Hw] Hk Hv.
  - rewrite insert_nil by (unfold walk_fuel; lia). eexists _, _. split; [done|].
    split; [|apply updated_nil]. destruct Hk as (n & Hn & ->).
    destruct (n ++ [terminator]) eqn:E; [by destruct n|]. simpl. rewrite <- E. by constructor.
  - destruct (trie_insert_ok _ _ _ Hw key prefix (walk_fuel key) v) as (d & n' & E & (Hu & Hw' & _) & _);
      [done..|apply walk_fuel_enough|]. eauto.
Qed.

Lemma delete_root_ok g n key prefix :
  wf_root dbnode g n -> hexkey key ->
  exists d n', trie_delete dbnode g (walk_fuel key) n prefix key = Ok (d, n') /\
    wf_root dbnode g n' /\ removed dbnode g n key n'.
Proof.
  intros [->|Hw] Hk.
  - exists false, Nil. rewrite walk_fuel_S. split; [done|]. split; [by left|].
    intros k w. split; [by intros ?%has_nil|by intros [_ ?%has_nil]].
  - destruct (trie_delete_ok _ _ _ Hw key prefix (walk_fuel key)) as (d & n' & E & (Hu & Hw' & _));
      [done|apply walk_fuel_enough|]. eauto.
Qed.

(** The map update that [TryUpdate] performs. *)
Definition put (k v : list Z) (m : gmap (list Z) (list Z)) : gmap (list Z) (list Z) :=
  match v with [] => delete k m | _ => <[k := v]> m end.

Lemma TryUpdate_spec t m k v :
  represents t m -> bytes_ok k ->
  exists t', TryUpdate dbnode t k v = Ok t' /\ represents t' (put k v m) /\
    cachegen t' = cachegen t /\ tprefix t' = tprefix t.
Proof.
  intros Hr Hk. pose proof (keybytesToHex_hexkey k Hk) as Hx. pose proof (rep_wf _ _ Hr) as Hw.
  unfold TryUpdate. destruct v as [|b v].
  - destruct (delete_root_ok _ _ _ [] Hw Hx) as (d & n' & -> & Hw' & Hu). simpl.
    eexists. split; [done|]. split; [by apply represents_delete|done].
  - destruct (insert_root_ok _ _ _ [] (b :: v) Hw Hx) as (d & n' & -> & Hw' & Hu); [done|]. simpl.
    eexists. split; [done|]. split; [|done]. apply represents_insert; [done|done|by right|done].
Qed.

Lemma TryDelete_spec t m k :
  represents t m -> bytes_ok k ->
  exists t', TryDelete dbnode t k = Ok t' /\ represents t' (delete k m) /\
    cachegen t' = cachegen t /\ tprefix t' = tprefix t.
Proof.
  intros Hr Hk. pose proof (keybytesToHex_hexkey k Hk) as Hx. pose proof (rep_wf _ _ Hr) as Hw.
  unfold TryDelete. destruct (delete_root_ok _ _ _ [] Hw Hx) as (d & n' & -> & Hw' & Hu). simpl.
  eexists. split; [done|]. split; [by apply represents_delete|done].
Qed.

(** ** Sequences of operations *)

Inductive trie_op : Type :=
  | OpGet (k : list Z)
  | OpUpdate (k v : list Z)
  | OpDelete (k : list Z).

Definition op_key (o : trie_op) : list Z :=
  match o with OpGet k | OpUpdate k _ | OpDelete k => k end.

(** One operation of the implementation, with the value it returns. *)
Definition trie_step (t : Trie) (o : trie_op) : outcome trie_error (option (list Z) * Trie) :=
  match o with
  | OpGet k => TryGet dbnode t k
  | OpUpdate k v => t' ← TryUpdate dbnode t k v; Ok (None, t')
  | OpDelete k => t' ← TryDelete dbnode t k; Ok (None, t')
  end.

Fixpoint trie_run (t : Trie) (os : list trie_op) : outcome trie_error (list (option (list Z)) * Trie) :=
  match os with
  | [] => Ok ([], t)
  | o :: os =>
      '(r, t') ← trie_step t o;
      '(rs, t'') ← trie_run t' os;
      Ok (r :: rs, t'')
  end.

(** The same on the finite map. *)
Definition map_step (m : gmap (list Z) (list Z)) (o : trie_op) : option (list Z) * gmap (list Z) (list Z) :=
  match o with
  | OpGet k => (m !! k, m)
  | OpUpdate k v => (None, put k v m)
  | OpDelete k => (None, delete k m)
  end.

Fixpoint map_run (m : gmap (list Z) (list Z)) (os : list trie_op)
  : list (option (list Z)) * gmap (list Z) (list Z) :=
  match os with
  | [] => ([], m)
  | o :: os =>
      let '(r, m') := map_step m o in
      let '(rs, m'') := map_run m' os in
      (r :: rs, m'')
  end.

Lemma trie_step_refines t m o :
  represents t m -> bytes_ok (op_key o) ->
  exists t', trie_step t o = Ok ((map_step m o).1, t') /\ represents t' (map_step m o).2.
Proof.
  intros Hr Hk. destruct o as [k|k v|k]; simpl in *.
  - by apply TryGet_spec.
  - destruct (TryUpdate_spec t m k v) as (t' & -> & ? & _); [done..|]. simpl. eauto.
  - destruct (TryDelete_spec t m k) as (t' & -> & ? & _); [done..|]. simpl. eauto.
Qed.

(** C7: refinement.  From any trie that represents a map, every sequence of
    lookups, updates and deletions runs to completion, without a missing-node
    error, a panic or an exhausted walk, returns exactly the values the map
    returns, and ends in a canonical trie that represents the resulting map. *)
Theorem trie_run_refines os t m :
  represents t m -> Forall (fun o => bytes_ok (op_key o)) os ->
  exists t', trie_run t os = Ok ((map_run m os).1, t') /\ represents t' (map_run m os).2.
Proof.
  intros Hr Hos. revert t m Hr. induction Hos as [|o os Ho Hos IH]; intros t m Hr; simpl; [eauto|].
  destruct (trie_step_refines t m o Hr Ho) as (t1 & -> & Hr1). simpl.
  destruct (map_step m o) as [r m1]. simpl in *.
  destruct (IH t1 m1 Hr1) as (t2 & -> & Hr2). simpl.
  destruct (map_run m1 os) as [rs m2]. simpl in *. eauto.
Qed.
End refinement.

(** The empty node store. *)
Definition no_db : list Z -> Z -> option node := fun _ _ => None.

(** A fresh in-memory trie. *)
Definition empty_trie : Trie := mkTrie Nil emptyHash None 0 0.

Definition sample_ops : list trie_op :=
  [OpUpdate [1; 2] [7]; OpUpdate [1; 3] [8]; OpGet [1; 2]; OpDelete [1; 2]; OpGet [1; 2]; OpGet [1; 3]].

Lemma trie_run_refines_witness :
  exists t', trie_run no_db empty_trie sample_ops
    = Ok ([None; None; Some [7]; None; None; Some [8]], t') /\
    represents no_db t' {[ [1; 3] := [8] ]}.
Proof.
  assert (map_run ∅ sample_ops = ([None; None; Some [7]; None; None; Some [8]], {[ [1; 3] := [8] ]}))
    as E by (vm_compute; reflexivity).
  pose proof (trie_run_refines no_db sample_ops empty_trie ∅ (represents_empty no_db empty_trie eq_refl)) as H.
  rewrite E in H. apply H. clear.
  repeat (apply Forall_cons; split; [unfold bytes_ok, is_byte; simpl; repeat constructor; lia|]). constructor.
Defined.
