(* ===== verification/TrieCanon.v ===== *)
(** * Canonicity of the trie

    The shape of an in-memory trie is a function of its content: two canonical
    tries with the same bindings are equal up to the cache flags, so the root
    hash does not depend on the order of the operations that built it. *)

From S2P Require Import Prelude Common TrieEncoding Trie TrieSpec TrieMap.

(** A node without its cache flags. *)
Definition no_flag : nodeFlag := NodeFlag None 0 false.

Fixpoint erase (n : node) : node :=
  match n with
  | ShortNode k c _ => ShortNode k (erase c) no_flag
  | FullNode ch _ => FullNode (map erase ch) no_flag
  | n => n
  end.

Section canonicity.
(** Same bindings, each read at its own cache generation. *)
Definition equal_content (g1 g2 : Z) (n m : node) : Prop :=
  forall k v, has no_db g1 n k v <-> has no_db g2 m k v.

Lemma equal_content_sym g1 g2 n m : equal_content g1 g2 n m -> equal_content g2 g1 m n.
Proof. intros H k v. by rewrite (H k v). Qed.

(** A branch has two keys with different first nibbles. *)
Lemma full_two_heads g ch f :
  wf no_db g (FullNode ch f) ->
  exists i j k1 v1 k2 v2, i <> j /\ has no_db g (FullNode ch f) (Z.of_nat i :: k1) v1 /\
    has no_db g (FullNode ch f) (Z.of_nat j :: k2) v2.
Proof.
  inversion 1 as [| |? ? Hlen Hch H16 (i & j & a & b & Hij & Hi & Hj & Ha & Hb)|]; subst.
  assert (forall l c, ch !! l = Some c -> c <> Nil -> exists k v, has no_db g c k v) as Hinh.
  { intros l c Hl Hc. destruct (decide (l < 16)%nat) as [?|?]; [eapply wf_inhabited; eauto|].
    assert (l = 16%nat) as -> by (apply lookup_lt_Some in Hl; lia).
    destruct (H16 c Hl Hc) as (v & _ & ->). exists [], v. constructor. }
  destruct (Hinh i a Hi Ha) as (k1 & v1 & H1). destruct (Hinh j b Hj Hb) as (k2 & v2 & H2).
  exists i, j, k1, v1, k2, v2. split; [done|]. by split; econstructor.
Qed.

Lemma branch_is_full g n : branch no_db g n -> exists ch f, n = FullNode ch f.
Proof. inversion 1; [eauto|done]. Qed.

(** The keys below an extension have exactly its key as common prefix. *)
Lemma ext_common_prefix g k c f p :
  wf no_db g (ShortNode k c f) -> branch no_db g c ->
  (forall key v, has no_db g (ShortNode k c f) key v -> p `prefix_of` key) -> p `prefix_of` k.
Proof.
  intros Hwf Hb Hp. destruct (branch_is_full _ _ Hb) as (ch & f' & ->).
  assert (wf no_db g (FullNode ch f')) as Hc by by inversion Hwf.
  destruct (full_two_heads _ _ _ Hc) as (i & j & k1 & v1 & k2 & v2 & Hij & H1 & H2).
  pose proof (Hp (k ++ Z.of_nat i :: k1) v1 ltac:(by constructor)) as P1.
  pose proof (Hp (k ++ Z.of_nat j :: k2) v2 ltac:(by constructor)) as P2.
  clear -Hij P1 P2. revert p P1 P2. induction k as [|x k IH]; intros [|y p] P1 P2;
    try apply prefix_nil; simpl in *.
  - apply prefix_cons_inv_1 in P1, P2. lia.
  - pose proof (prefix_cons_inv_1 _ _ _ _ P1) as ->. apply prefix_cons.
    apply IH; by eapply prefix_cons_inv_2.
Qed.

Lemma ext_not_leaf g1 g2 k c f k' w f' :
  branch no_db g1 c -> wf no_db g1 (ShortNode k c f) ->
  ~ equal_content g1 g2 (ShortNode k c f) (ShortNode k' (ValueNode w) f').
Proof.
  intros Hb Hwf E. destruct (branch_is_full _ _ Hb) as (ch & g & ->).
  assert (wf no_db g1 (FullNode ch g)) as Hc by by inversion Hwf.
  destruct (full_two_heads _ _ _ Hc) as (i & j & k1 & v1 & k2 & v2 & Hij & H1 & H2).
  pose proof (proj1 (E (k ++ Z.of_nat i :: k1) v1) ltac:(by constructor)) as [E1 _]%has_leaf_iff.
  pose proof (proj1 (E (k ++ Z.of_nat j :: k2) v2) ltac:(by constructor)) as [E2 _]%has_leaf_iff.
  rewrite <- E2 in E1. apply app_inv_head in E1. simplify_eq.
Qed.

Lemma short_not_full g1 g2 x k c f ch f' :
  wf no_db g2 (FullNode ch f') ->
  ~ equal_content g1 g2 (ShortNode (x :: k) c f) (FullNode ch f').
Proof.
  intros Hwf E.
  destruct (full_two_heads _ _ _ Hwf) as (i & j & k1 & v1 & k2 & v2 & Hij & H1 & H2).
  apply E, has_short_iff in H1 as (? & ? & _), H2 as (? & ? & _). simplify_eq/=.
Qed.

Lemma wf_short_key g k c f : wf no_db g (ShortNode k c f) -> exists x k', k = x :: k'.
Proof. inversion 1; subst; [|destruct k; naive_solver]. destruct k0; simpl; eauto. Qed.

(** Children of two branches with the same content have the same content. *)
Lemma equal_content_child g1 g2 ch f ch' f' i c c' :
  equal_content g1 g2 (FullNode ch f) (FullNode ch' f') ->
  ch !! i = Some c -> ch' !! i = Some c' -> equal_content g1 g2 c c'.
Proof.
  intros E Hc Hc' k v. rewrite <- (has_full_cons _ _ ch f i c k v Hc).
  rewrite <- (has_full_cons _ _ ch' f' i c' k v Hc'). apply E.
Qed.

Lemma slot_empty_iff g1 g2 i c c' :
  (i < 17)%nat -> (c <> Nil -> slot_ok no_db g1 i c) -> equal_content g1 g2 c c' -> c' = Nil -> c = Nil.
Proof.
  intros Hi Hs E ->. destruct (decide (c = Nil)) as [?|Hn]; [done|].
  destruct (Hs Hn) as [H1 H2]. destruct (decide (i < 16)%nat) as [Hi'|Hi'].
  - destruct (wf_inhabited _ _ _ (H1 Hi')) as (k & v & Hh). by apply E, has_nil in Hh.
  - destruct H2 as (v & _ & ->); [lia|]. destruct (has_nil no_db g2 [] v). apply E. constructor.
Qed.

Lemma full_slots g ch f i c :
  wf no_db g (FullNode ch f) -> ch !! i = Some c -> c <> Nil -> slot_ok no_db g i c.
Proof.
  inversion 1 as [| |? ? Hlen Hch H16 _|]; subst. intros Hi Hc. split; [eauto|].
  intros ->. eauto.
Qed.

Lemma canonical_ext g1 g2 k c f k' c' f' :
  wf no_db g1 (ShortNode k c f) -> wf no_db g2 (ShortNode k' c' f') ->
  branch no_db g1 c -> branch no_db g2 c' ->
  equal_content g1 g2 (ShortNode k c f) (ShortNode k' c' f') -> k = k' /\ equal_content g1 g2 c c'.
Proof.
  intros Hw Hw' Hb Hb' E. assert (k = k') as ->.
  { apply (anti_symm prefix).
    - eapply ext_common_prefix; [exact Hw'|done|]. intros key v Hh%E.
      apply has_short_iff in Hh as (r & -> & _). by exists r.
    - eapply ext_common_prefix; [exact Hw|done|]. intros key v Hh%E.
      apply has_short_iff in Hh as (r & -> & _). by exists r. }
  split; [done|]. intros key v.
  rewrite <- (has_short_app _ _ k' c f), <- (has_short_app _ _ k' c' f'). apply E.
Qed.

Lemma canonical_slot g1 g2 i c c' :
  (i < 17)%nat -> (c <> Nil -> slot_ok no_db g1 i c) -> (c' <> Nil -> slot_ok no_db g2 i c') ->
  equal_content g1 g2 c c' ->
  ((i < 16)%nat -> c <> Nil -> forall m, wf no_db g2 m -> equal_content g1 g2 c m -> erase c = erase m) ->
  erase c = erase c'.
Proof.
  intros Hi Hs Hs' E IH. destruct (decide (c = Nil)) as [->|Hcn].
  { apply equal_content_sym in E. by rewrite (slot_empty_iff _ _ _ _ _ Hi Hs' E). }
  assert (c' <> Nil) as Hcn' by (intros ->; by apply Hcn, (slot_empty_iff _ _ _ _ _ Hi Hs E)).
  destruct (Hs Hcn) as [H1 H2], (Hs' Hcn') as [H1' H2'].
  destruct (decide (i < 16)%nat) as [Hi16|Hi16]; [eauto|].
  destruct H2 as (v & _ & ->); [lia|]. destruct H2' as (v' & _ & ->); [lia|].
  by pose proof (proj1 (E [] v) ltac:(constructor)) as [_ ->]%has_value_iff.
Qed.

Lemma canonical_unique g1 g2 n m :
  wf no_db g1 n -> wf no_db g2 m -> equal_content g1 g2 n m -> erase n = erase m.
Proof.
  intros Hn. revert m. induction Hn as [k w f Hk Hw|k c f Hk Hne Hb Hc IH
    |ch f Hlen Hch IH H16 Htwo|h n Hr Hh Hn IH]; intros m Hm E.
  - inversion Hm as [k' w' f' ? ?|k' c' f' ? ? Hb' ?|ch' f' ? ? ? ?|]; subst; [| | |done].
    + pose proof (proj1 (E (k ++ [terminator]) w) ltac:(by apply has_leaf_iff)) as [-> ->]%has_leaf_iff.
      done.
    + apply equal_content_sym in E. by apply ext_not_leaf in E.
    + destruct (k ++ [terminator]) as [|x r] eqn:Ek; [by destruct k|].
      by apply short_not_full in E.
  - inversion Hm as [k' w' f' ? ?|k' c' f' ? ? Hb' ?|ch' f' ? ? ? ?|]; subst; [| | |done].
    + apply ext_not_leaf in E; [done|done|]. by constructor.
    + destruct (canonical_ext g1 g2 k c f k' c' f') as [-> E']; try done; [by constructor|].
      simpl. f_equal. auto.
    + destruct k; [done|]. by apply short_not_full in E.
  - inversion Hm as [k' w' f' ? ?|k' c' f' ? ? Hb' ?|ch' f' Hlen' ? H16' ?|]; subst; [| | |done].
    1,2: apply equal_content_sym in E; destruct (wf_short_key _ _ _ _ Hm) as (x & r & Ex);
      rewrite Ex in E; apply short_not_full in E; [done|by constructor].
    simpl. f_equal. apply list_eq. intros i. rewrite !list_lookup_fmap.
    destruct (ch !! i) as [c|] eqn:Hi, (ch' !! i) as [c'|] eqn:Hi';
      try (apply lookup_lt_Some in Hi || apply lookup_lt_Some in Hi';
           apply lookup_ge_None in Hi || apply lookup_ge_None in Hi'; lia); [|done].
    simpl. f_equal. pose proof (equal_content_child _ _ _ _ _ _ _ _ _ E Hi Hi') as Ec.
    eapply canonical_slot with (i := i); [apply lookup_lt_Some in Hi; lia| | |done|eauto].
    + intros. apply (full_slots g1 ch f); [by constructor|done|done].
    + intros. by eapply full_slots.
  - done.
Qed.

(** Two in-memory tries of the same map have the same shape. *)
Lemma represents_unique t1 t2 m :
  represents no_db t1 m -> represents no_db t2 m -> erase (root t1) = erase (root t2).
Proof.
  intros P1 P2. assert (equal_content (cachegen t1) (cachegen t2) (root t1) (root t2)) as Heq.
  { intros k v. rewrite (rep_has _ _ _ P1), (rep_has _ _ _ P2). done. }
  destruct (rep_wf _ _ _ P1) as [N1|W1], (rep_wf _ _ _ P2) as [N2|W2].
  - by rewrite N1, N2.
  - destruct (wf_inhabited _ _ _ W2) as (k & v & Hh). apply Heq in Hh. rewrite N1 in Hh. by apply has_nil in Hh.
  - destruct (wf_inhabited _ _ _ W1) as (k & v & Hh). apply Heq in Hh. rewrite N2 in Hh. by apply has_nil in Hh.
  - by eapply canonical_unique.
Qed.
End canonicity.
