(* ===== verification/Rlp.v ===== *)
(** * RLP encoding ([src/rlp/encode.go])

    The encoder writes string data into one buffer and list headers into a
    second one, and merges them in a last pass ([toBytes]).  The reflection-based
    dispatch of [makeWriter] is a function on a type descriptor [rtype] and a
    value [rval].  [encode_item] is the recursive definition of RLP that the
    two-pass encoder is shown to compute. *)

From S2P Require Import Prelude.

Inductive rlp_error : Type :=
  | ErrNegativeBigInt
  | ErrEOF
  | ErrUnexpectedEOF
  | EOL
  | ErrExpectedString
  | ErrExpectedList
  | ErrCanonInt
  | ErrCanonSize
  | ErrElemTooLarge
  | ErrValueTooLarge
  | ErrMoreThanOneValue
  | ErrNotInList
  | ErrNotAtEOL
  | ErrUintOverflow
  | ErrInvalidBool (n : Z)
  | ErrDecode (msg : string).

#[global] Instance rlp_error_dec : EqDecision rlp_error.
Proof. solve_decision. Defined.

(** ** Sizes and headers *)

(** [intsize]: the number of bytes of [i] without leading zero bytes; the loop
    shifts by one byte until nothing is left, at most eight times on a uint64. *)
Fixpoint intsize_loop (fuel : nat) (i size : Z) : Z :=
  match fuel with
  | O => size
  | S fuel =>
      let i := Z.shiftr i 8 in
      if bool_decide (i = 0) then size else intsize_loop fuel i (size + 1)
  end.

Definition intsize (i : Z) : Z := intsize_loop 8 i 1.

(** [putint]: the bytes written for [i], big endian, as many as [i] needs. *)
Definition putint (i : Z) : list Z :=
  let byte n := u8 (Z.shiftr i n) in
  if bool_decide (i < Z.shiftl 1 8) then [byte 0]
  else if bool_decide (i < Z.shiftl 1 16) then [byte 8; byte 0]
  else if bool_decide (i < Z.shiftl 1 24) then [byte 16; byte 8; byte 0]
  else if bool_decide (i < Z.shiftl 1 32) then [byte 24; byte 16; byte 8; byte 0]
  else if bool_decide (i < Z.shiftl 1 40) then [byte 32; byte 24; byte 16; byte 8; byte 0]
  else if bool_decide (i < Z.shiftl 1 48) then
    [byte 40; byte 32; byte 24; byte 16; byte 8; byte 0]
  else if bool_decide (i < Z.shiftl 1 56) then
    [byte 48; byte 40; byte 32; byte 24; byte 16; byte 8; byte 0]
  else [byte 56; byte 48; byte 40; byte 32; byte 24; byte 16; byte 8; byte 0].

(** [headsize]: the size of a string or list header. *)
Definition headsize (size : Z) : Z :=
  if bool_decide (size < 56) then 1 else 1 + intsize size.

(** [puthead]: the header bytes. *)
Definition puthead (smalltag largetag size : Z) : list Z :=
  if bool_decide (size < 56) then [u8 (smalltag + u8 size)]
  else
    let b := putint size in
    u8 (largetag + u8 (Z.of_nat (length b))) :: b.

(** [ListSize] of [raw.go]. *)
Definition ListSize (contentSize : Z) : Z := u64 (u64 (headsize contentSize) + contentSize).

(** ** The encode buffer *)

(** [listhead]: where the header goes in the string data, and, once the list is
    closed, the size of its payload. *)
Record listhead := Listhead { lh_offset : nat; lh_size : Z }.

(** [encbuf]; the scratch array [sizebuf] is not part of the state. *)
Record encbuf := Encbuf {
  eb_str : list Z;
  eb_lheads : list listhead;
  eb_lhsize : Z
}.

(** [encbuf.reset] *)
Definition eb_reset : encbuf := Encbuf [] [] 0.

(** [encbuf.Write] *)
Definition eb_write (w : encbuf) (b : list Z) : encbuf :=
  Encbuf (eb_str w ++ b) (eb_lheads w) (eb_lhsize w).

(** [encbuf.size] *)
Definition eb_size (w : encbuf) : Z := Z.of_nat (length (eb_str w)) + eb_lhsize w.

(** [encbuf.encodeStringHeader] *)
Definition encodeStringHeader (w : encbuf) (size : Z) : encbuf :=
  if bool_decide (size < 56) then eb_write w [u8 (0x80 + u8 size)]
  else
    let b := putint size in
    eb_write w (u8 (0xB7 + u8 (Z.of_nat (length b))) :: b).

(** [encbuf.encodeString] *)
Definition encodeString (w : encbuf) (b : list Z) : encbuf :=
  match b with
  | [b0] =>
      if bool_decide (b0 <= 0x7F) then eb_write w [b0]
      else eb_write (encodeStringHeader w 1) b
  | _ => eb_write (encodeStringHeader w (Z.of_nat (length b))) b
  end.

(** [encbuf.list]: opens a list; the returned handle is the index of the new
    header, and its size field holds the header bytes written before it. *)
Definition eb_list (w : encbuf) : nat * encbuf :=
  (length (eb_lheads w),
   Encbuf (eb_str w) (eb_lheads w ++ [Listhead (length (eb_str w)) (eb_lhsize w)]) (eb_lhsize w)).

(** [encbuf.listEnd]: computes the payload size of the list and accounts for its
    header. *)
Definition eb_listEnd (w : encbuf) (lh : nat) : outcome rlp_error encbuf :=
  h ← or_panic (eb_lheads w !! lh);
  let size := eb_size w - Z.of_nat (lh_offset h) - lh_size h in
  let lhsize := if bool_decide (size < 56) then eb_lhsize w + 1
                else eb_lhsize w + (1 + intsize (u64 size)) in
  Ok (Encbuf (eb_str w) (<[lh := Listhead (lh_offset h) size]> (eb_lheads w)) lhsize).

(** [listhead.encode] *)
Definition lh_encode (h : listhead) : list Z := puthead 0xC0 0xF7 (u64 (lh_size h)).

(** The pass that puts the headers back into the string data, shared by
    [encbuf.toBytes] and [encbuf.toWriter]. *)
Fixpoint merge_heads (str : list Z) (strpos : nat) (heads : list listhead) : list Z :=
  match heads with
  | [] => drop strpos str
  | h :: heads =>
      let piece := take (lh_offset h - strpos) (drop strpos str) in
      piece ++ lh_encode h ++ merge_heads str (strpos + length piece) heads
  end.

(** [encbuf.toWriter]: the bytes handed to the writer. *)
Definition toWriter (w : encbuf) : list Z := merge_heads (eb_str w) 0 (eb_lheads w).

(** [encbuf.toBytes]: the same bytes copied into a slice of [size] bytes. *)
Definition toBytes (w : encbuf) : list Z := resize (Z.to_nat (eb_size w)) 0 (toWriter w).

(** ** Values and writers *)

(** The shapes of [reflect.Type] that [makeWriter] and [makeDecoder] tell apart. *)
Inductive rtype : Type :=
  | TRaw
  | TBigInt
  | TUint (bits : Z)
  | TBool
  | TString
  | TBytes
  | TByteArray (n : nat)
  | TSlice (t : rtype)
  | TStruct (fs : list rtype)
  | TPtr (t : rtype)
  | TNilPtr (t : rtype)  (* a pointer field with the nil tag *)
  | TInterface.

(** Values: a [*big.Int] may be nil, as may a pointer or an interface; an
    interface value carries its dynamic type. *)
Inductive rval : Type :=
  | VRaw (b : list Z)
  | VBigInt (i : option Z)
  | VUint (i : Z)
  | VBool (b : bool)
  | VBytes (b : list Z)
  | VList (l : list rval)
  | VPtr (v : rval)
  | VNil
  | VIface (t : rtype) (v : rval).

(** [big.Int.Bytes]: minimal big-endian magnitude. *)
Definition big_bytes_fuel (z : Z) : nat := Z.to_nat (Z.log2 z / 8 + 1).
Definition big_bytes (z : Z) : list Z :=
  if bool_decide (z = 0) then [] else be_bytes (big_bytes_fuel z) z.

(** [writeUint] *)
Definition writeUint (i : Z) (w : encbuf) : encbuf :=
  if bool_decide (i = 0) then eb_write w [0x80]
  else if bool_decide (i < 128) then eb_write w [u8 i]
  else
    let b := putint i in
    eb_write w (u8 (0x80 + u8 (Z.of_nat (length b))) :: b).

(** [writeBool] *)
Definition writeBool (b : bool) (w : encbuf) : encbuf :=
  eb_write w [if b then 0x01 else 0x80].

(** [writeBigInt] and [writeBigIntPtr] *)
Definition writeBigInt (i : option Z) (w : encbuf) : outcome rlp_error encbuf :=
  match i with
  | None => Ok (eb_write w [0x80])
  | Some i =>
      if bool_decide (i < 0) then Err ErrNegativeBigInt
      else if bool_decide (i = 0) then Ok (eb_write w [0x80])
      else Ok (encodeString w (big_bytes i))
  end.

(** [w.listEnd(w.list())] *)
Definition emptyList (w : encbuf) : outcome rlp_error encbuf :=
  let '(lh, w) := eb_list w in eb_listEnd w lh.

(** The [nilfunc] of [makePtrWriter] for a nil pointer to a [t]: the empty
    string, the empty list, or the zero value of [t]. *)
Fixpoint nilfunc (t : rtype) (w : encbuf) : outcome rlp_error encbuf :=
  match t with
  | TByteArray _ => Ok (eb_write w [0x80])
  | TStruct _ => emptyList w
  | TRaw => Ok w
  | TBigInt => writeBigInt None w
  | TUint _ => Ok (writeUint 0 w)
  | TBool => Ok (writeBool false w)
  | TString | TBytes => Ok (encodeString w [])
  | TSlice _ => emptyList w
  | TPtr t | TNilPtr t => nilfunc t w
  | TInterface => Ok (eb_write w [0xC0])
  end.

(** The writers selected by [makeWriter]; a value whose shape does not fit its
    type cannot occur in Go. *)
Fixpoint writer (v : rval) (t : rtype) (w : encbuf) {struct v} : outcome rlp_error encbuf :=
  match t, v with
  | TRaw, VRaw b => Ok (eb_write w b)
  | TBigInt, VBigInt i => writeBigInt i w
  | TUint _, VUint i => Ok (writeUint i w)
  | TBool, VBool b => Ok (writeBool b w)
  | TString, VBytes b => Ok (encodeString w b)
  | TBytes, VBytes b => Ok (encodeString w b)
  | TByteArray _, VBytes b => Ok (encodeString w b)
  | TSlice t, VList l =>
      let '(lh, w) := eb_list w in
      w ← (fix go l w :=
             match l with
             | [] => Ok w
             | v :: l => w ← writer v t w; go l w
             end) l w;
      eb_listEnd w lh
  | TStruct fs, VList l =>
      let '(lh, w) := eb_list w in
      w ← (fix go l fs w :=
             match l, fs with
             | v :: l, t :: fs => w ← writer v t w; go l fs w
             | [], [] => Ok w
             | _, _ => Panic
             end) l fs w;
      eb_listEnd w lh
  | TPtr t, VPtr v | TNilPtr t, VPtr v => writer v t w
  | TPtr t, VNil | TNilPtr t, VNil => nilfunc t w
  | TInterface, VNil => Ok (eb_write w [0xC0])
  | TInterface, VIface t v => writer v t w
  | _, _ => Panic
  end.

(** [EncodeToBytes] *)
Definition EncodeToBytes (t : rtype) (v : rval) : outcome rlp_error (list Z) :=
  w ← writer v t eb_reset;
  Ok (toBytes w).

(** [Encode] to a writer that is not an [encbuf]. *)
Definition Encode (t : rtype) (v : rval) : outcome rlp_error (list Z) :=
  w ← writer v t eb_reset;
  Ok (toWriter w).

(** ** Reference encoding *)

(** An RLP item: a byte string or a list of items. *)
Inductive item : Type :=
  | Str (b : list Z)
  | Lst (l : list item).

(** The header of a payload of [n] bytes. *)
Definition header (small large n : Z) : list Z :=
  if bool_decide (n < 56) then [small + n]
  else large + intsize n :: be_bytes (Z.to_nat (intsize n)) n.

Definition encode_str (b : list Z) : list Z :=
  match b with
  | [x] => if bool_decide (x < 128) then [x] else [0x81; x]
  | _ => header 0x80 0xB7 (Z.of_nat (length b)) ++ b
  end.

Fixpoint encode_item (i : item) : list Z :=
  match i with
  | Str b => encode_str b
  | Lst l =>
      let payload := concat (map encode_item l) in
      header 0xC0 0xF7 (Z.of_nat (length payload)) ++ payload
  end.

(** ** Facts about sizes and headers *)

Lemma intsize_loop_spec k fuel i size :
  (k <= fuel)%nat -> 256 ^ Z.of_nat k <= i < 256 ^ Z.of_nat (S k) ->
  intsize_loop (S fuel) i size = size + Z.of_nat k.
Proof.
  revert fuel i size. induction k as [|k IH]; intros fuel i size Hf Hi; cbn [intsize_loop].
  - rewrite bool_decide_true; [lia|]. rewrite Z.shiftr_div_pow2 by lia.
    change (256 ^ Z.of_nat 1) with 256 in Hi. apply Z.div_small. change (2 ^ 8) with 256. lia.
  - assert (256 ^ Z.of_nat k <= Z.shiftr i 8 < 256 ^ Z.of_nat (S k)) as Hs.
    { rewrite Z.shiftr_div_pow2 by lia. change (2 ^ 8) with 256.
      rewrite (Nat2Z.inj_succ (S k)), (Z.pow_succ_r 256) in Hi by lia.
      rewrite (Nat2Z.inj_succ k), Z.pow_succ_r in Hi |- * by lia.
      split; [apply Z.div_le_lower_bound; lia | apply Z.div_lt_upper_bound; lia]. }
    pose proof (pow256_pos k). rewrite bool_decide_false by lia.
    destruct fuel as [|fuel]; [lia|]. rewrite IH by (lia || done). lia.
Qed.

Lemma intsize_small i : 0 <= i < 256 -> intsize i = 1.
Proof.
  intros. unfold intsize. cbn [intsize_loop]. rewrite bool_decide_true; [done|].
  rewrite Z.shiftr_div_pow2 by lia. by apply Z.div_small.
Qed.

Lemma intsize_pow k i :
  (k <= 7)%nat -> 256 ^ Z.of_nat k <= i < 256 ^ Z.of_nat (S k) -> intsize i = 1 + Z.of_nat k.
Proof. intros. unfold intsize. by apply intsize_loop_spec. Qed.

(** The width class of a uint64. *)
Lemma u64_width i :
  0 <= i < 2 ^ 64 ->
  0 <= i < 256 \/ exists k, (1 <= k <= 7)%nat /\ 256 ^ Z.of_nat k <= i < 256 ^ Z.of_nat (S k).
Proof.
  intros Hi. destruct (decide (i < 256)) as [?|?]; [left; lia|right].
  destruct (decide (i < 256 ^ 2)); [exists 1%nat; split; [lia|]; simpl; lia|].
  destruct (decide (i < 256 ^ 3)); [exists 2%nat; split; [lia|]; simpl; lia|].
  destruct (decide (i < 256 ^ 4)); [exists 3%nat; split; [lia|]; simpl; lia|].
  destruct (decide (i < 256 ^ 5)); [exists 4%nat; split; [lia|]; simpl; lia|].
  destruct (decide (i < 256 ^ 6)); [exists 5%nat; split; [lia|]; simpl; lia|].
  destruct (decide (i < 256 ^ 7)); [exists 6%nat; split; [lia|]; simpl; lia|].
  exists 7%nat. split; [lia|]. simpl. lia.
Qed.

Lemma intsize_range i : 0 <= i < 2 ^ 64 -> 1 <= intsize i <= 8.
Proof.
  intros [?|(k & Hk & Hi)]%u64_width; [rewrite intsize_small; lia|].
  rewrite (intsize_pow k) by (lia || done). lia.
Qed.

Lemma intsize_bound i : 0 <= i < 2 ^ 64 -> i < 256 ^ intsize i.
Proof.
  intros [?|(k & Hk & Hi)]%u64_width; [rewrite intsize_small; lia|].
  rewrite (intsize_pow k) by (lia || done).
  replace (1 + Z.of_nat k) with (Z.of_nat (S k)) by lia. lia.
Qed.

Lemma u8_land z : u8 z = Z.land z 255.
Proof. rewrite land_255. reflexivity. Qed.

(** [putint] writes exactly the minimal big-endian bytes. *)
Lemma putint_spec i : 0 <= i < 2 ^ 64 -> putint i = be_bytes (Z.to_nat (intsize i)) i.
Proof.
  intros [?|(k & Hk & Hi)]%u64_width; unfold putint; rewrite !u8_land;
    rewrite !Z.shiftl_mul_pow2 by lia.
  - rewrite intsize_small, bool_decide_true by lia. done.
  - rewrite (intsize_pow k) by (lia || done).
    replace (Z.to_nat (1 + Z.of_nat k)) with (S k) by lia.
    destruct k as [|[|[|[|[|[|[|[|k]]]]]]]]; try lia.
    all: repeat first [rewrite bool_decide_false by lia | rewrite bool_decide_true by lia];
      reflexivity.
Qed.

Lemma puthead_header small large n :
  0 <= n < 2 ^ 64 -> 0 <= small <= 200 -> 0 <= large <= 247 ->
  puthead small large n = header small large n.
Proof.
  intros Hn Hs Hl. unfold puthead, header. case_bool_decide.
  - rewrite (wrapU_small 8 n), wrapU_small by lia. done.
  - pose proof (intsize_range n Hn). rewrite putint_spec by done.
    rewrite length_be_bytes, Z2Nat.id by lia.
    rewrite (wrapU_small 8 (intsize n)), wrapU_small by lia. done.
Qed.

Lemma length_header small large n :
  0 <= n < 2 ^ 64 -> Z.of_nat (length (header small large n)) = headsize n.
Proof.
  intros Hn. unfold header, headsize. case_bool_decide; [done|]. simpl.
  rewrite length_be_bytes. pose proof (intsize_range n Hn). lia.
Qed.

(** ** Big integers *)

Lemma big_bytes_fuel_spec z k :
  256 ^ Z.of_nat k <= z < 256 ^ Z.of_nat (S k) -> big_bytes_fuel z = S k.
Proof.
  intros Hz. pose proof (pow256_pos k). unfold big_bytes_fuel.
  assert (256 ^ Z.of_nat k = 2 ^ (8 * Z.of_nat k)) as E1 by (by rewrite Z.pow_mul_r by lia).
  assert (256 ^ Z.of_nat (S k) = 2 ^ (8 * Z.of_nat (S k))) as E2 by (by rewrite Z.pow_mul_r by lia).
  assert (8 * Z.of_nat k <= Z.log2 z) by (apply Z.log2_le_pow2; lia).
  assert (Z.log2 z < 8 * Z.of_nat (S k)) by (apply Z.log2_lt_pow2; lia).
  assert (Z.log2 z / 8 = Z.of_nat k) as ->; [|lia].
  symmetry. apply (Z.div_unique _ _ _ (Z.log2 z - 8 * Z.of_nat k)); lia.
Qed.

Lemma big_width z : 0 < z -> exists k, 256 ^ Z.of_nat k <= z < 256 ^ Z.of_nat (S k).
Proof.
  intros Hz. exists (Z.to_nat (Z.log2 z / 8)). pose proof (Z.log2_nonneg z).
  assert (0 <= Z.log2 z / 8) by (apply Z.div_pos; lia).
  pose proof (Z.mul_div_le (Z.log2 z) 8 ltac:(lia)).
  pose proof (Z.mul_succ_div_gt (Z.log2 z) 8 ltac:(lia)).
  pose proof (Z.log2_spec z Hz) as [Hlo Hhi].
  rewrite Nat2Z.inj_succ, Z2Nat.id by lia. change 256 with (2 ^ 8).
  rewrite <- !Z.pow_mul_r by lia. split.
  - etransitivity; [|exact Hlo]. apply Z.pow_le_mono_r; lia.
  - eapply Z.lt_le_trans; [exact Hhi|]. apply Z.pow_le_mono_r; lia.
Qed.

Lemma big_bytes_ok z : bytes_ok (big_bytes z).
Proof. unfold big_bytes. case_bool_decide; [constructor|apply be_bytes_ok]. Qed.

Lemma be_uint_big_bytes z : 0 <= z -> be_uint (big_bytes z) = z.
Proof.
  intros Hz. unfold big_bytes. case_bool_decide; [by subst|].
  destruct (big_width z ltac:(lia)) as (k & Hk).
  rewrite (big_bytes_fuel_spec z k), be_uint_be_bytes by done. apply Z.mod_small. lia.
Qed.

(** The first byte of a positive magnitude is not zero. *)
Lemma big_bytes_cons z : 0 < z -> exists b l, big_bytes z = b :: l /\ 0 < b.
Proof.
  intros Hz. destruct (big_width z Hz) as (k & Hk). pose proof (pow256_pos k).
  unfold big_bytes. rewrite bool_decide_false by lia.
  rewrite (big_bytes_fuel_spec z k) by done. cbn [be_bytes]. eexists _, _. split; [done|].
  rewrite land_255, Z.shiftr_div_pow2 by lia.
  replace (2 ^ (8 * Z.of_nat k)) with (256 ^ Z.of_nat k) by (by rewrite Z.pow_mul_r by lia).
  rewrite Nat2Z.inj_succ, Z.pow_succ_r in Hk by lia.
  rewrite Z.mod_small.
  - apply Z.div_str_pos. lia.
  - split; [apply Z.div_pos; lia|apply Z.div_lt_upper_bound; lia].
Qed.

Lemma big_bytes_u64 z : 0 < z < 2 ^ 64 -> big_bytes z = putint z.
Proof.
  intros Hz. unfold big_bytes. rewrite bool_decide_false, putint_spec by lia. f_equal.
  destruct (u64_width z ltac:(lia)) as [?|(k & Hk & Hi)].
  - rewrite intsize_small by lia. apply (big_bytes_fuel_spec z 0). simpl. lia.
  - rewrite (intsize_pow k) by (lia || done). rewrite (big_bytes_fuel_spec z k) by done. lia.
Qed.

Lemma length_encode_str_ge b : (length b <= length (encode_str b))%nat.
Proof.
  unfold encode_str. destruct b as [|x [|y b]]; [simpl; lia| |rewrite length_app; lia].
  case_bool_decide; simpl; lia.
Qed.

(** ** The two-pass encoder *)

Definition shift_head (n : nat) (h : listhead) : listhead := Listhead (n + lh_offset h) (lh_size h).

(** Header offsets are ordered and within the string data. *)
Fixpoint heads_ok (lo : nat) (hs : list listhead) (hi : nat) : Prop :=
  match hs with
  | [] => (lo <= hi)%nat
  | h :: hs => (lo <= lh_offset h)%nat /\ heads_ok (lh_offset h) hs hi
  end.

Lemma heads_ok_le lo hs hi : heads_ok lo hs hi -> (lo <= hi)%nat.
Proof. revert lo. induction hs as [|h hs IH]; intros lo; simpl; [done|]. intros [? ?%IH]. lia. Qed.

Lemma heads_ok_app lo hs1 mid hs2 hi :
  heads_ok lo hs1 mid -> heads_ok 0 hs2 hi ->
  heads_ok lo (hs1 ++ map (shift_head mid) hs2) (mid + hi).
Proof.
  revert lo. induction hs1 as [|h hs1 IH]; intros lo; simpl; [|naive_solver].
  intros Hlo H. assert (heads_ok (mid + 0) (map (shift_head mid) hs2) (mid + hi)) as H'.
  { clear -H. revert H. generalize 0%nat. induction hs2 as [|h hs IH]; intros n; simpl; [lia|].
    intros [? ?]. split; [lia|]. by apply IH. }
  destruct hs2; simpl in *; [lia|]. naive_solver lia.
Qed.

(** One step of the merge on ordered offsets. *)
Lemma merge_heads_step str sp h hs :
  (sp <= lh_offset h <= length str)%nat ->
  merge_heads str sp (h :: hs) =
  take (lh_offset h - sp) (drop sp str) ++ lh_encode h ++ merge_heads str (lh_offset h) hs.
Proof.
  intros. cbn [merge_heads]. rewrite length_take, length_drop. do 3 f_equal. lia.
Qed.

Lemma merge_heads_shift s1 s2 p hs :
  heads_ok p hs (length s2) ->
  merge_heads (s1 ++ s2) (length s1 + p) (map (shift_head (length s1)) hs) = merge_heads s2 p hs.
Proof.
  revert p. induction hs as [|h hs IH]; intros p H.
  - simpl. by rewrite drop_app_add.
  - simpl in H. destruct H as [H1 H2]. pose proof (heads_ok_le _ _ _ H2).
    cbn [map]. rewrite !merge_heads_step by (simpl; rewrite ?length_app; lia).
    cbn [shift_head lh_offset]. rewrite IH, drop_app_add by done.
    replace (length s1 + lh_offset h - (length s1 + p))%nat with (lh_offset h - p)%nat by lia.
    done.
Qed.

Lemma merge_heads_app s1 s2 sp hs1 hs2 :
  heads_ok sp hs1 (length s1) -> heads_ok 0 hs2 (length s2) ->
  merge_heads (s1 ++ s2) sp (hs1 ++ map (shift_head (length s1)) hs2) =
  merge_heads s1 sp hs1 ++ merge_heads s2 0 hs2.
Proof.
  revert sp. induction hs1 as [|h hs1 IH]; intros sp H1 H2.
  - simpl in H1. simpl (_ ++ map _ _). destruct hs2 as [|h hs2].
    + simpl. rewrite drop_app_le by done. done.
    + simpl in H2. destruct H2 as [_ H2]. pose proof (heads_ok_le _ _ _ H2).
      cbn [map]. rewrite !merge_heads_step by (simpl; rewrite ?length_app; lia).
      cbn [shift_head lh_offset]. rewrite merge_heads_shift by done.
      cbn [merge_heads]. rewrite drop_0, Nat.sub_0_r, drop_app_le by done.
      rewrite take_app_ge by (rewrite length_drop; lia). rewrite length_drop.
      replace (length s1 + lh_offset h - sp - (length s1 - sp))%nat with (lh_offset h) by lia.
      rewrite <- app_assoc. done.
  - simpl in H1. destruct H1 as [H1 H1']. pose proof (heads_ok_le _ _ _ H1').
    cbn [app]. rewrite !merge_heads_step by (rewrite ?length_app; lia).
    rewrite IH by done. rewrite <- !app_assoc. f_equal.
    rewrite drop_app_le by lia. by rewrite take_app_le by (rewrite length_drop; lia).
Qed.

(** [emits w w' out]: going from [w] to [w'] appends exactly the bytes [out] to
    the merged output, and the header sizes are accounted for. *)
Definition emits (w w' : encbuf) (out : list Z) : Prop :=
  exists s hs,
    eb_str w' = eb_str w ++ s /\
    eb_lheads w' = eb_lheads w ++ map (shift_head (length (eb_str w))) hs /\
    heads_ok 0 hs (length s) /\
    merge_heads s 0 hs = out /\
    eb_size w' = eb_size w + Z.of_nat (length out).

Lemma emits_write w b : emits w (eb_write w b) b.
Proof.
  exists b, []. simpl. rewrite app_nil_r. split_and!; try done; [lia|].
  unfold eb_size. simpl. rewrite length_app. lia.
Qed.

Lemma emits_refl w : emits w w [].
Proof.
  exists [], []. simpl. rewrite !app_nil_r. split_and!; try done; lia.
Qed.

Lemma emits_trans w1 w2 w3 o1 o2 : emits w1 w2 o1 -> emits w2 w3 o2 -> emits w1 w3 (o1 ++ o2).
Proof.
  intros (s1 & hs1 & Es1 & Eh1 & Ok1 & M1 & Z1) (s2 & hs2 & Es2 & Eh2 & Ok2 & M2 & Z2).
  exists (s1 ++ s2), (hs1 ++ map (shift_head (length s1)) hs2). split_and!.
  - by rewrite Es2, Es1, app_assoc.
  - rewrite Eh2, Eh1, Es1, map_app, map_map, app_assoc. f_equal. apply map_ext.
    intros h. unfold shift_head. simpl. f_equal. rewrite length_app. lia.
  - rewrite length_app. by apply heads_ok_app.
  - rewrite merge_heads_app by done. by rewrite M1, M2.
  - rewrite Z2, Z1, length_app. lia.
Qed.

(** A complete list: open, emit the payload, close. *)
Lemma emits_list w w' payload :
  emits (eb_list w).2 w' payload -> Z.of_nat (length payload) < 2 ^ 64 ->
  exists w'', eb_listEnd w' (eb_list w).1 = Ok w'' /\
    emits w w'' (header 0xC0 0xF7 (Z.of_nat (length payload)) ++ payload).
Proof.
  intros (s & hs & Es & Eh & Hok & M & Hz) Hlen. unfold eb_list, eb_listEnd in *. simpl in *.
  set (h0 := Listhead (length (eb_str w)) (eb_lhsize w)) in *.
  assert (eb_lheads w' !! length (eb_lheads w) = Some h0) as ->.
  { rewrite Eh, <- app_assoc. cbn [app]. by rewrite list_lookup_middle. }
  cbn [or_panic mbind outcome_bind]. eexists. split; [done|].
  assert (eb_size w' - Z.of_nat (lh_offset h0) - lh_size h0 = Z.of_nat (length payload)) as ->.
  { rewrite Hz. unfold eb_size. subst h0. simpl. lia. }
  set (n := Z.of_nat (length payload)) in *.
  exists s, (Listhead 0 n :: hs). simpl. split_and!.
  - done.
  - rewrite Eh, <- app_assoc. rewrite insert_app_r_alt by done. rewrite Nat.sub_diag. simpl.
    unfold shift_head at 2. simpl. by rewrite Nat.add_0_r.
  - lia.
  - by destruct hs.
  - unfold lh_encode. simpl. rewrite u64_small by (unfold in_u64; lia).
    rewrite puthead_header by lia. by rewrite M.
  - rewrite length_app, Nat2Z.inj_add, length_header by lia.
    revert Hz. unfold eb_size, headsize. simpl. rewrite u64_small by (unfold in_u64; lia).
    case_bool_decide; lia.
Qed.

(** ** The encoder computes the reference encoding *)

Section rval_induction.
Context (P : rval -> Prop)
  (HRaw : forall b, P (VRaw b)) (HBig : forall i, P (VBigInt i)) (HUint : forall i, P (VUint i))
  (HBool : forall b, P (VBool b)) (HBytes : forall b, P (VBytes b))
  (HList : forall l, Forall P l -> P (VList l)) (HPtr : forall v, P v -> P (VPtr v))
  (HNil : P VNil) (HIface : forall t v, P v -> P (VIface t v)).

Fixpoint rval_nested_ind (v : rval) : P v :=
  match v with
  | VRaw b => HRaw b
  | VBigInt i => HBig i
  | VUint i => HUint i
  | VBool b => HBool b
  | VBytes b => HBytes b
  | VList l => HList l ((fix go l : Forall P l :=
                           match l with
                           | [] => Forall_nil_2 P
                           | v :: l => Forall_cons_2 P v l (rval_nested_ind v) (go l)
                           end) l)
  | VPtr v => HPtr v (rval_nested_ind v)
  | VNil => HNil
  | VIface t v => HIface t v (rval_nested_ind v)
  end.
End rval_induction.

(** The item a nil pointer to a [t] is written as. *)
Fixpoint nil_item (t : rtype) : option item :=
  match t with
  | TRaw => None
  | TStruct _ | TSlice _ | TInterface => Some (Lst [])
  | TPtr t | TNilPtr t => nil_item t
  | _ => Some (Str [])
  end.

(** The item a value denotes; [None] for raw bytes, for a negative big integer
    and for a value that does not have the type. *)
Fixpoint item_of (v : rval) (t : rtype) {struct v} : option item :=
  match t, v with
  | TBigInt, VBigInt None => Some (Str [])
  | TBigInt, VBigInt (Some i) => if bool_decide (0 <= i) then Some (Str (big_bytes i)) else None
  | TUint _, VUint i => if bool_decide (0 <= i < 2 ^ 64) then Some (Str (big_bytes i)) else None
  | TBool, VBool b => Some (Str (if b then [1] else []))
  | TString, VBytes b => Some (Str b)
  | TBytes, VBytes b => Some (Str b)
  | TByteArray _, VBytes b => Some (Str b)
  | TSlice t, VList l =>
      its ← (fix go l : option (list item) :=
              match l with
              | [] => Some []
              | v :: l => i ← item_of v t; its ← go l; Some (i :: its)
              end) l;
      Some (Lst its)
  | TStruct fs, VList l =>
      its ← (fix go l fs : option (list item) :=
              match l, fs with
              | v :: l, t :: fs => i ← item_of v t; its ← go l fs; Some (i :: its)
              | [], [] => Some []
              | _, _ => None
              end) l fs;
      Some (Lst its)
  | TPtr t, VPtr v | TNilPtr t, VPtr v => item_of v t
  | TPtr t, VNil | TNilPtr t, VNil => nil_item t
  | TInterface, VNil => Some (Lst [])
  | TInterface, VIface t v => item_of v t
  | _, _ => None
  end.

Lemma encodeString_emits w b :
  Z.of_nat (length b) < 2 ^ 64 -> emits w (encodeString w b) (encode_str b).
Proof.
  intros Hb.
  assert (encodeString w b = eb_write w (encode_str b)) as ->; [|apply emits_write].
  assert (forall n, 0 <= n < 2 ^ 64 ->
    encodeStringHeader w n = eb_write w (header 0x80 0xB7 n)) as Hh.
  { intros n Hn. rewrite <- puthead_header by lia. unfold encodeStringHeader, puthead.
    by case_bool_decide. }
  assert (forall l k, eb_write (eb_write w l) k = eb_write w (l ++ k)) as Hw.
  { intros. unfold eb_write. simpl. by rewrite app_assoc. }
  unfold encodeString, encode_str. destruct b as [|x [|y b]].
  - rewrite Hh, Hw by (simpl; lia). done.
  - repeat case_bool_decide; try lia; [done|]. rewrite Hh, Hw by lia. done.
  - rewrite Hh, Hw by lia. done.
Qed.

Lemma encode_str_short b :
  b <> [] -> (length b < 56)%nat -> (forall x, b = [x] -> 128 <= x) ->
  encode_str b = 0x80 + Z.of_nat (length b) :: b.
Proof.
  intros Hne Hlen Hx. unfold encode_str, header. destruct b as [|x [|y b]]; [done| |].
  - rewrite bool_decide_false by (specialize (Hx x eq_refl); lia). done.
  - rewrite bool_decide_true by lia. done.
Qed.

Lemma putint_length i : 0 <= i < 2 ^ 64 -> (1 <= length (putint i) <= 8)%nat.
Proof. intros Hi. rewrite putint_spec, length_be_bytes by done. pose proof (intsize_range i Hi). lia. Qed.

Lemma writeUint_emits w i :
  0 <= i < 2 ^ 64 -> emits w (writeUint i w) (encode_str (big_bytes i)).
Proof.
  intros Hi. assert (writeUint i w = eb_write w (encode_str (big_bytes i))) as ->; [|apply emits_write].
  unfold writeUint. case_bool_decide; [by subst|].
  pose proof (be_uint_big_bytes i ltac:(lia)) as Hu. rewrite big_bytes_u64 in * by lia.
  pose proof (putint_length i Hi) as Hl. case_bool_decide as H128.
  - assert (putint i = [i]) as ->.
    { unfold putint. rewrite bool_decide_true by (rewrite Z.shiftl_mul_pow2; lia).
      by rewrite Z.shiftr_0_r, wrapU_small by lia. }
    simpl. by rewrite wrapU_small, bool_decide_true by lia.
  - rewrite encode_str_short.
    + rewrite (wrapU_small 8 (Z.of_nat _)), wrapU_small by lia. done.
    + destruct (putint i); simpl in *; [lia|done].
    + lia.
    + intros x Ex. rewrite Ex in Hu. cbn in Hu. lia.
Qed.

Lemma length_header_ge small large n : (1 <= length (header small large n))%nat.
Proof. unfold header. case_bool_decide; simpl; lia. Qed.

(** Emitting a sequence of values one after the other. *)
Fixpoint seq_writer (l : list (rval * rtype)) (w : encbuf) : outcome rlp_error encbuf :=
  match l with
  | [] => Ok w
  | (v, t) :: l => w ← writer v t w; seq_writer l w
  end.

Fixpoint seq_items (l : list (rval * rtype)) : option (list item) :=
  match l with
  | [] => Some []
  | (v, t) :: l => i ← item_of v t; its ← seq_items l; Some (i :: its)
  end.

Definition writes (v : rval) : Prop :=
  forall t w it, item_of v t = Some it -> Z.of_nat (length (encode_item it)) < 2 ^ 64 ->
  exists w', writer v t w = Ok w' /\ emits w w' (encode_item it).

Lemma seq_writer_emits l w its :
  Forall (fun p => writes p.1) l -> seq_items l = Some its ->
  Z.of_nat (length (concat (map encode_item its))) < 2 ^ 64 ->
  exists w', seq_writer l w = Ok w' /\ emits w w' (concat (map encode_item its)).
Proof.
  intros Hl. revert w its. induction Hl as [|[v t] l Hv Hl IH]; intros w its Hi Hlen; simpl in Hi.
  - simplify_eq. exists w. split; [done|apply emits_refl].
  - destruct (item_of v t) as [i|] eqn:Ei; [|done]. simpl in Hi.
    destruct (seq_items l) as [its'|] eqn:El; [|done]. simpl in Hi. simplify_eq.
    simpl in Hlen. rewrite length_app in Hlen.
    destruct (Hv t w i Ei ltac:(lia)) as (w1 & E1 & M1).
    destruct (IH w1 its' eq_refl ltac:(lia)) as (w2 & E2 & M2).
    simpl in E1. exists w2. simpl. rewrite E1. split; [done|]. by eapply emits_trans.
Qed.

(** A list value: header, elements, header size. *)
Lemma list_emits l w its :
  Forall (fun p => writes p.1) l -> seq_items l = Some its ->
  Z.of_nat (length (encode_item (Lst its))) < 2 ^ 64 ->
  exists w', (w' ← seq_writer l (eb_list w).2; eb_listEnd w' (eb_list w).1) = Ok w' /\
    emits w w' (encode_item (Lst its)).
Proof.
  intros Hl Hi Hlen. cbn [encode_item] in Hlen |- *. rewrite length_app in Hlen.
  destruct (seq_writer_emits l (eb_list w).2 its Hl Hi ltac:(lia)) as (w1 & E1 & M1).
  destruct (emits_list w w1 _ M1 ltac:(lia)) as (w2 & E2 & M2).
  exists w2. rewrite E1. split; [exact E2|done].
Qed.

Lemma emptyList_emits w : exists w', emptyList w = Ok w' /\ emits w w' [0xC0].
Proof. apply (list_emits [] w []); [constructor|done|simpl; lia]. Qed.

Lemma nilfunc_emits t w it :
  nil_item t = Some it -> exists w', nilfunc t w = Ok w' /\ emits w w' (encode_item it).
Proof.
  induction t; simpl; intros; simplify_eq; try done;
    solve [eauto | by apply emptyList_emits
          | eexists; (split; [reflexivity|]); apply emits_write
          | eexists; (split; [reflexivity|]); apply (encodeString_emits w []); simpl; lia].
Qed.

Lemma writer_slice l t w :
  writer (VList l) (TSlice t) w =
  (w' ← seq_writer (map (fun v => (v, t)) l) (eb_list w).2; eb_listEnd w' (eb_list w).1).
Proof.
  simpl. f_equal. generalize (Encbuf (eb_str w)
    (eb_lheads w ++ [Listhead (length (eb_str w)) (eb_lhsize w)]) (eb_lhsize w)) as w0.
  induction l as [|v l IH]; intros w0; simpl; [done|]. destruct (writer v t w0); simpl; auto.
Qed.

Lemma item_of_slice l t :
  item_of (VList l) (TSlice t) = (its ← seq_items (map (fun v => (v, t)) l); Some (Lst its)).
Proof.
  simpl. f_equal. induction l as [|v l IH]; simpl; [done|].
  destruct (item_of v t); simpl; [|done]. by rewrite IH.
Qed.

Lemma writer_struct l fs w :
  length l = length fs ->
  writer (VList l) (TStruct fs) w =
  (w' ← seq_writer (zip l fs) (eb_list w).2; eb_listEnd w' (eb_list w).1).
Proof.
  intros Hlen. simpl. f_equal. generalize (Encbuf (eb_str w)
    (eb_lheads w ++ [Listhead (length (eb_str w)) (eb_lhsize w)]) (eb_lhsize w)) as w0.
  revert fs Hlen. induction l as [|v l IH]; intros [|t fs] Hlen w0; simpl in *; try done.
  destruct (writer v t w0); simpl; auto.
Qed.

Lemma item_of_struct l fs it :
  item_of (VList l) (TStruct fs) = Some it ->
  length l = length fs /\ exists its, seq_items (zip l fs) = Some its /\ it = Lst its.
Proof.
  simpl. intros (its & H & E)%bind_Some. simplify_eq.
  assert (length l = length fs /\ seq_items (zip l fs) = Some its) as [? ?]; [|eauto].
  revert fs its H. induction l as [|v l IH]; intros [|t fs] its H; simplify_eq/=; [done|].
  destruct (item_of v t); [|done]. simpl in *.
  apply bind_Some in H as (its' & H & E). simplify_eq. destruct (IH _ _ H) as [-> ->]. done.
Qed.

Lemma writer_writes v : writes v.
Proof.
  induction v as [b|i|i|b|b|l IH|v IH| |t' v IH] using rval_nested_ind; intros t w it Hi Hlen.
  all: destruct t; simpl in Hi; try done.
  - simpl. unfold writeBigInt. destruct i as [i|]; [|simplify_eq; eauto using emits_write].
    case_bool_decide; [|done]. simplify_eq. simpl in Hlen. rewrite bool_decide_false by lia.
    case_bool_decide; [subst; eauto using emits_write|]. eexists. split; [done|].
    apply encodeString_emits. pose proof (length_encode_str_ge (big_bytes i)). lia.
  - case_bool_decide; [|done]. simplify_eq. eexists. split; [done|]. by apply writeUint_emits.
  - simplify_eq. eexists. split; [done|]. destruct b; apply emits_write.
  - simplify_eq. eexists. split; [done|]. apply encodeString_emits.
    simpl in Hlen. pose proof (length_encode_str_ge b). lia.
  - simplify_eq. eexists. split; [done|]. apply encodeString_emits.
    simpl in Hlen. pose proof (length_encode_str_ge b). lia.
  - simplify_eq. eexists. split; [done|]. apply encodeString_emits.
    simpl in Hlen. pose proof (length_encode_str_ge b). lia.
  - change (item_of (VList l) (TSlice t) = Some it) in Hi. rewrite item_of_slice in Hi.
    apply bind_Some in Hi as (its & Hi & E). simplify_eq. rewrite writer_slice.
    apply list_emits; [|done|done]. apply Forall_fmap. eapply Forall_impl; [exact IH|]. done.
  - change (item_of (VList l) (TStruct fs) = Some it) in Hi.
    apply item_of_struct in Hi as (Hl & its & Hi & ->). rewrite writer_struct by done.
    apply list_emits; [|done|done]. clear -IH. revert fs. induction IH; intros [|t fs]; simpl; auto.
  - by apply IH.
  - by apply IH.
  - by apply nilfunc_emits.
  - by apply nilfunc_emits.
  - simplify_eq. eauto using emits_write.
  - by apply IH.
Qed.

(** The encoder never fails on a value that denotes an item, whatever its size. *)
Definition writable (v : rval) : Prop :=
  forall t w it, item_of v t = Some it ->
  exists w', writer v t w = Ok w' /\ (length (eb_lheads w) <= length (eb_lheads w'))%nat.

Lemma seq_writer_ok l w its :
  Forall (fun p => writable p.1) l -> seq_items l = Some its ->
  exists w', seq_writer l w = Ok w' /\ (length (eb_lheads w) <= length (eb_lheads w'))%nat.
Proof.
  intros Hl. revert w its. induction Hl as [|[v t] l Hv Hl IH]; intros w its Hi; simpl in *.
  - eauto.
  - apply bind_Some in Hi as (i & Ei & (its' & El & _)%bind_Some).
    destruct (Hv t w i Ei) as (w1 & -> & L1). destruct (IH w1 its' El) as (w2 & E2 & L2).
    exists w2. split; [done|lia].
Qed.

Lemma list_writable l w its :
  Forall (fun p => writable p.1) l -> seq_items l = Some its ->
  exists w', (w' ← seq_writer l (eb_list w).2; eb_listEnd w' (eb_list w).1) = Ok w' /\
    (length (eb_lheads w) <= length (eb_lheads w'))%nat.
Proof.
  intros Hl Hi. destruct (seq_writer_ok l (eb_list w).2 its Hl Hi) as (w1 & -> & L1).
  simpl in *. rewrite length_app in L1. simpl in L1. unfold eb_listEnd.
  destruct (lookup_lt_is_Some_2 (eb_lheads w1) (length (eb_lheads w))) as [h ->]; [lia|].
  simpl. eexists. split; [done|]. simpl. rewrite length_insert. lia.
Qed.

Lemma nilfunc_writable t w it :
  nil_item t = Some it ->
  exists w', nilfunc t w = Ok w' /\ (length (eb_lheads w) <= length (eb_lheads w'))%nat.
Proof.
  intros Hn. revert it Hn. induction t; simpl; intros it Hn; try done;
    solve [eauto | apply (list_writable [] w []); [constructor|done]].
Qed.

Lemma encodeString_lheads w b : eb_lheads (encodeString w b) = eb_lheads w.
Proof.
  unfold encodeString, encodeStringHeader. destruct b as [|x [|y b]]; repeat case_bool_decide; done.
Qed.

Lemma writer_writable v : writable v.
Proof.
  induction v as [b|i|i|b|b|l IH|v IH| |t' v IH] using rval_nested_ind; intros t w it Hi.
  all: destruct t; simpl in Hi; try done; simpl;
    try (eexists; split; [reflexivity|by rewrite ?encodeString_lheads]).
  - unfold writeBigInt. destruct i as [i|]; [|eauto]. case_bool_decide; [|done].
    rewrite bool_decide_false by lia. case_bool_decide; eexists; (split; [done|]);
      rewrite ?encodeString_lheads; done.
  - eexists; split; [done|]. unfold writeUint. repeat case_bool_decide; done.
  - change (item_of (VList l) (TSlice t) = Some it) in Hi. rewrite item_of_slice in Hi.
    apply bind_Some in Hi as (its & Hi & E).
    change (exists w', writer (VList l) (TSlice t) w = Ok w' /\
      (length (eb_lheads w) <= length (eb_lheads w'))%nat).
    rewrite writer_slice. apply (list_writable _ _ its); [|done].
    apply Forall_fmap. eapply Forall_impl; [exact IH|]. done.
  - change (item_of (VList l) (TStruct fs) = Some it) in Hi.
    apply item_of_struct in Hi as (Hl & its & Hi & ->).
    change (exists w', writer (VList l) (TStruct fs) w = Ok w' /\
      (length (eb_lheads w) <= length (eb_lheads w'))%nat).
    rewrite writer_struct by done. apply (list_writable _ _ its); [|done].
    clear -IH. revert fs. induction IH; intros [|t fs]; simpl; auto.
  - by eapply IH.
  - by eapply IH.
  - by eapply nilfunc_writable.
  - by eapply nilfunc_writable.
  - by eapply IH.
Qed.

Lemma encode_ok v t it :
  item_of v t = Some it -> Z.of_nat (length (encode_item it)) < 2 ^ 64 ->
  EncodeToBytes t v = Ok (encode_item it) /\ Encode t v = Ok (encode_item it).
Proof.
  intros Hi Hlen. destruct (writer_writes v t eb_reset it Hi Hlen) as (w & E & s & hs & Es & Eh & Ho & M & Hz).
  unfold EncodeToBytes, Encode, toBytes, toWriter. rewrite E. simpl in *.
  assert (merge_heads (eb_str w) 0 (eb_lheads w) = encode_item it) as Hm.
  { rewrite Es, Eh, <- M. f_equal. rewrite <- (map_id hs) at 2. apply map_ext. by intros []. }
  rewrite Hm. split; [|done]. f_equal. rewrite Hz. unfold eb_size. simpl.
  rewrite Z.add_0_l, Nat2Z.id. by rewrite resize_all.
Qed.

(** The two-pass encoder (string data and list headers
    collected separately, then merged into a buffer of the precomputed size)
    computes exactly the recursive RLP encoding, for every value of every
    supported type whose encoding fits a 64-bit size. *)
Theorem encode_reference v t it :
  item_of v t = Some it -> Z.of_nat (length (encode_item it)) < 2 ^ 64 ->
  EncodeToBytes t v = Ok (encode_item it) /\ Encode t v = Ok (encode_item it).
Proof. apply encode_ok. Qed.

Lemma encode_reference_witness :
  EncodeToBytes (TSlice TBytes) (VList [VBytes [0x63; 0x61; 0x74]; VBytes [0x64; 0x6f; 0x67]])
  = Ok [0xc8; 0x83; 0x63; 0x61; 0x74; 0x83; 0x64; 0x6f; 0x67].
Proof.
  destruct (encode_reference (VList [VBytes [0x63; 0x61; 0x74]; VBytes [0x64; 0x6f; 0x67]]) (TSlice TBytes)
    (Lst [Str [0x63; 0x61; 0x74]; Str [0x64; 0x6f; 0x67]])) as [E _]; [reflexivity|vm_compute; reflexivity|].
  rewrite E. reflexivity.
Defined.
