(* ===== verification/Sha3.v ===== *)
(** * Keccak ([src/crypto/sha3])

    The unrolled, in-place permutation [keccakF1600] of [keccakf.go], the sponge
    of [sha3.go] with its buffering, and the constructors of [hashes.go].

    The permutation is proved equal to the five step mappings theta, rho, pi,
    chi and iota of FIPS 202, with the rotation offsets and the round constants
    generated by their recurrences instead of tables ([keccakF1600_reference]),
    and the buffered sponge is proved to compute the padded block-wise sponge
    function of the concatenation of everything written ([sponge_reference]). *)

From S2P Require Import Prelude Common.

(** ** The permutation *)

(** [t<<n | t>>(64-n)] on [uint64]. *)
Definition rotl (t n : Z) : Z := Z.lor (u64 (Z.shiftl t n)) (Z.shiftr t (64 - n)).

(** The round constants. *)
Definition rc : list Z := [
  0x0000000000000001; 0x0000000000008082; 0x800000000000808A; 0x8000000080008000;
  0x000000000000808B; 0x0000000080000001; 0x8000000080008081; 0x8000000000008009;
  0x000000000000008A; 0x0000000000000088; 0x0000000080008009; 0x000000008000000A;
  0x000000008000808B; 0x800000000000008B; 0x8000000000008089; 0x8000000000008003;
  0x8000000000008002; 0x8000000000000080; 0x000000000000800A; 0x800000008000000A;
  0x8000000080008081; 0x8000000000008080; 0x0000000080000001; 0x8000000080008008].

(** Round 1 of the unrolled loop body. *)
Definition round1 (rc : Z) (a : list Z) : list Z :=
  match a with
  | [a0; a1; a2; a3; a4; a5; a6; a7; a8; a9; a10; a11; a12; a13; a14; a15; a16; a17; a18; a19; a20; a21; a22; a23; a24] =>
      let bc0 := Z.lxor (Z.lxor (Z.lxor (Z.lxor a0 a5) a10) a15) a20 in
      let bc1 := Z.lxor (Z.lxor (Z.lxor (Z.lxor a1 a6) a11) a16) a21 in
      let bc2 := Z.lxor (Z.lxor (Z.lxor (Z.lxor a2 a7) a12) a17) a22 in
      let bc3 := Z.lxor (Z.lxor (Z.lxor (Z.lxor a3 a8) a13) a18) a23 in
      let bc4 := Z.lxor (Z.lxor (Z.lxor (Z.lxor a4 a9) a14) a19) a24 in
      let d0 := Z.lxor bc4 (rotl bc1 1) in
      let d1 := Z.lxor bc0 (rotl bc2 1) in
      let d2 := Z.lxor bc1 (rotl bc3 1) in
      let d3 := Z.lxor bc2 (rotl bc4 1) in
      let d4 := Z.lxor bc3 (rotl bc0 1) in
      let bc0 := Z.lxor a0 d0 in
      let t := Z.lxor a6 d1 in
      let bc1 := rotl t 44 in
      let t := Z.lxor a12 d2 in
      let bc2 := rotl t 43 in
      let t := Z.lxor a18 d3 in
      let bc3 := rotl t 21 in
      let t := Z.lxor a24 d4 in
      let bc4 := rotl t 14 in
      let a0 := Z.lxor (Z.lxor bc0 (Z.ldiff bc2 bc1)) rc in
      let a6 := Z.lxor bc1 (Z.ldiff bc3 bc2) in
      let a12 := Z.lxor bc2 (Z.ldiff bc4 bc3) in
      let a18 := Z.lxor bc3 (Z.ldiff bc0 bc4) in
      let a24 := Z.lxor bc4 (Z.ldiff bc1 bc0) in
      let t := Z.lxor a10 d0 in
      let bc2 := rotl t 3 in
      let t := Z.lxor a16 d1 in
      let bc3 := rotl t 45 in
      let t := Z.lxor a22 d2 in
      let bc4 := rotl t 61 in
      let t := Z.lxor a3 d3 in
      let bc0 := rotl t 28 in
      let t := Z.lxor a9 d4 in
      let bc1 := rotl t 20 in
      let a10 := Z.lxor bc0 (Z.ldiff bc2 bc1) in
      let a16 := Z.lxor bc1 (Z.ldiff bc3 bc2) in
      let a22 := Z.lxor bc2 (Z.ldiff bc4 bc3) in
      let a3 := Z.lxor bc3 (Z.ldiff bc0 bc4) in
      let a9 := Z.lxor bc4 (Z.ldiff bc1 bc0) in
      let t := Z.lxor a20 d0 in
      let bc4 := rotl t 18 in
      let t := Z.lxor a1 d1 in
      let bc0 := rotl t 1 in
      let t := Z.lxor a7 d2 in
      let bc1 := rotl t 6 in
      let t := Z.lxor a13 d3 in
      let bc2 := rotl t 25 in
      let t := Z.lxor a19 d4 in
      let bc3 := rotl t 8 in
      let a20 := Z.lxor bc0 (Z.ldiff bc2 bc1) in
      let a1 := Z.lxor bc1 (Z.ldiff bc3 bc2) in
      let a7 := Z.lxor bc2 (Z.ldiff bc4 bc3) in
      let a13 := Z.lxor bc3 (Z.ldiff bc0 bc4) in
      let a19 := Z.lxor bc4 (Z.ldiff bc1 bc0) in
      let t := Z.lxor a5 d0 in
      let bc1 := rotl t 36 in
      let t := Z.lxor a11 d1 in
      let bc2 := rotl t 10 in
      let t := Z.lxor a17 d2 in
      let bc3 := rotl t 15 in
      let t := Z.lxor a23 d3 in
      let bc4 := rotl t 56 in
      let t := Z.lxor a4 d4 in
      let bc0 := rotl t 27 in
      let a5 := Z.lxor bc0 (Z.ldiff bc2 bc1) in
      let a11 := Z.lxor bc1 (Z.ldiff bc3 bc2) in
      let a17 := Z.lxor bc2 (Z.ldiff bc4 bc3) in
      let a23 := Z.lxor bc3 (Z.ldiff bc0 bc4) in
      let a4 := Z.lxor bc4 (Z.ldiff bc1 bc0) in
      let t := Z.lxor a15 d0 in
      let bc3 := rotl t 41 in
      let t := Z.lxor a21 d1 in
      let bc4 := rotl t 2 in
      let t := Z.lxor a2 d2 in
      let bc0 := rotl t 62 in
      let t := Z.lxor a8 d3 in
      let bc1 := rotl t 55 in
      let t := Z.lxor a14 d4 in
      let bc2 := rotl t 39 in
      let a15 := Z.lxor bc0 (Z.ldiff bc2 bc1) in
      let a21 := Z.lxor bc1 (Z.ldiff bc3 bc2) in
      let a2 := Z.lxor bc2 (Z.ldiff bc4 bc3) in
      let a8 := Z.lxor bc3 (Z.ldiff bc0 bc4) in
      let a14 := Z.lxor bc4 (Z.ldiff bc1 bc0) in
      [a0; a1; a2; a3; a4; a5; a6; a7; a8; a9; a10; a11; a12; a13; a14; a15; a16; a17; a18; a19; a20; a21; a22; a23; a24]
  | _ => a
  end.

(** Round 2 of the unrolled loop body. *)
Definition round2 (rc : Z) (a : list Z) : list Z :=
  match a with
  | [a0; a1; a2; a3; a4; a5; a6; a7; a8; a9; a10; a11; a12; a13; a14; a15; a16; a17; a18; a19; a20; a21; a22; a23; a24] =>
      let bc0 := Z.lxor (Z.lxor (Z.lxor (Z.lxor a0 a5) a10) a15) a20 in
      let bc1 := Z.lxor (Z.lxor (Z.lxor (Z.lxor a1 a6) a11) a16) a21 in
      let bc2 := Z.lxor (Z.lxor (Z.lxor (Z.lxor a2 a7) a12) a17) a22 in
      let bc3 := Z.lxor (Z.lxor (Z.lxor (Z.lxor a3 a8) a13) a18) a23 in
      let bc4 := Z.lxor (Z.lxor (Z.lxor (Z.lxor a4 a9) a14) a19) a24 in
      let d0 := Z.lxor bc4 (rotl bc1 1) in
      let d1 := Z.lxor bc0 (rotl bc2 1) in
      let d2 := Z.lxor bc1 (rotl bc3 1) in
      let d3 := Z.lxor bc2 (rotl bc4 1) in
      let d4 := Z.lxor bc3 (rotl bc0 1) in
      let bc0 := Z.lxor a0 d0 in
      let t := Z.lxor a16 d1 in
      let bc1 := rotl t 44 in
      let t := Z.lxor a7 d2 in
      let bc2 := rotl t 43 in
      let t := Z.lxor a23 d3 in
      let bc3 := rotl t 21 in
      let t := Z.lxor a14 d4 in
      let bc4 := rotl t 14 in
      let a0 := Z.lxor (Z.lxor bc0 (Z.ldiff bc2 bc1)) rc in
      let a16 := Z.lxor bc1 (Z.ldiff bc3 bc2) in
      let a7 := Z.lxor bc2 (Z.ldiff bc4 bc3) in
      let a23 := Z.lxor bc3 (Z.ldiff bc0 bc4) in
      let a14 := Z.lxor bc4 (Z.ldiff bc1 bc0) in
      let t := Z.lxor a20 d0 in
      let bc2 := rotl t 3 in
      let t := Z.lxor a11 d1 in
      let bc3 := rotl t 45 in
      let t := Z.lxor a2 d2 in
      let bc4 := rotl t 61 in
      let t := Z.lxor a18 d3 in
      let bc0 := rotl t 28 in
      let t := Z.lxor a9 d4 in
      let bc1 := rotl t 20 in
      let a20 := Z.lxor bc0 (Z.ldiff bc2 bc1) in
      let a11 := Z.lxor bc1 (Z.ldiff bc3 bc2) in
      let a2 := Z.lxor bc2 (Z.ldiff bc4 bc3) in
      let a18 := Z.lxor bc3 (Z.ldiff bc0 bc4) in
      let a9 := Z.lxor bc4 (Z.ldiff bc1 bc0) in
      let t := Z.lxor a15 d0 in
      let bc4 := rotl t 18 in
      let t := Z.lxor a6 d1 in
      let bc0 := rotl t 1 in
      let t := Z.lxor a22 d2 in
      let bc1 := rotl t 6 in
      let t := Z.lxor a13 d3 in
      let bc2 := rotl t 25 in
      let t := Z.lxor a4 d4 in
      let bc3 := rotl t 8 in
      let a15 := Z.lxor bc0 (Z.ldiff bc2 bc1) in
      let a6 := Z.lxor bc1 (Z.ldiff bc3 bc2) in
      let a22 := Z.lxor bc2 (Z.ldiff bc4 bc3) in
      let a13 := Z.lxor bc3 (Z.ldiff bc0 bc4) in
      let a4 := Z.lxor bc4 (Z.ldiff bc1 bc0) in
      let t := Z.lxor a10 d0 in
      let bc1 := rotl t 36 in
      let t := Z.lxor a1 d1 in
      let bc2 := rotl t 10 in
      let t := Z.lxor a17 d2 in
      let bc3 := rotl t 15 in
      let t := Z.lxor a8 d3 in
      let bc4 := rotl t 56 in
      let t := Z.lxor a24 d4 in
      let bc0 := rotl t 27 in
      let a10 := Z.lxor bc0 (Z.ldiff bc2 bc1) in
      let a1 := Z.lxor bc1 (Z.ldiff bc3 bc2) in
      let a17 := Z.lxor bc2 (Z.ldiff bc4 bc3) in
      let a8 := Z.lxor bc3 (Z.ldiff bc0 bc4) in
      let a24 := Z.lxor bc4 (Z.ldiff bc1 bc0) in
      let t := Z.lxor a5 d0 in
      let bc3 := rotl t 41 in
      let t := Z.lxor a21 d1 in
      let bc4 := rotl t 2 in
      let t := Z.lxor a12 d2 in
      let bc0 := rotl t 62 in
      let t := Z.lxor a3 d3 in
      let bc1 := rotl t 55 in
      let t := Z.lxor a19 d4 in
      let bc2 := rotl t 39 in
      let a5 := Z.lxor bc0 (Z.ldiff bc2 bc1) in
      let a21 := Z.lxor bc1 (Z.ldiff bc3 bc2) in
      let a12 := Z.lxor bc2 (Z.ldiff bc4 bc3) in
      let a3 := Z.lxor bc3 (Z.ldiff bc0 bc4) in
      let a19 := Z.lxor bc4 (Z.ldiff bc1 bc0) in
      [a0; a1; a2; a3; a4; a5; a6; a7; a8; a9; a10; a11; a12; a13; a14; a15; a16; a17; a18; a19; a20; a21; a22; a23; a24]
  | _ => a
  end.

(** Round 3 of the unrolled loop body. *)
Definition round3 (rc : Z) (a : list Z) : list Z :=
  match a with
  | [a0; a1; a2; a3; a4; a5; a6; a7; a8; a9; a10; a11; a12; a13; a14; a15; a16; a17; a18; a19; a20; a21; a22; a23; a24] =>
      let bc0 := Z.lxor (Z.lxor (Z.lxor (Z.lxor a0 a5) a10) a15) a20 in
      let bc1 := Z.lxor (Z.lxor (Z.lxor (Z.lxor a1 a6) a11) a16) a21 in
      let bc2 := Z.lxor (Z.lxor (Z.lxor (Z.lxor a2 a7) a12) a17) a22 in
      let bc3 := Z.lxor (Z.lxor (Z.lxor (Z.lxor a3 a8) a13) a18) a23 in
      let bc4 := Z.lxor (Z.lxor (Z.lxor (Z.lxor a4 a9) a14) a19) a24 in
      let d0 := Z.lxor bc4 (rotl bc1 1) in
      let d1 := Z.lxor bc0 (rotl bc2 1) in
      let d2 := Z.lxor bc1 (rotl bc3 1) in
      let d3 := Z.lxor bc2 (rotl bc4 1) in
      let d4 := Z.lxor bc3 (rotl bc0 1) in
      let bc0 := Z.lxor a0 d0 in
      let t := Z.lxor a11 d1 in
      let bc1 := rotl t 44 in
      let t := Z.lxor a22 d2 in
      let bc2 := rotl t 43 in
      let t := Z.lxor a8 d3 in
      let bc3 := rotl t 21 in
      let t := Z.lxor a19 d4 in
      let bc4 := rotl t 14 in
      let a0 := Z.lxor (Z.lxor bc0 (Z.ldiff bc2 bc1)) rc in
      let a11 := Z.lxor bc1 (Z.ldiff bc3 bc2) in
      let a22 := Z.lxor bc2 (Z.ldiff bc4 bc3) in
      let a8 := Z.lxor bc3 (Z.ldiff bc0 bc4) in
      let a19 := Z.lxor bc4 (Z.ldiff bc1 bc0) in
      let t := Z.lxor a15 d0 in
      let bc2 := rotl t 3 in
      let t := Z.lxor a1 d1 in
      let bc3 := rotl t 45 in
      let t := Z.lxor a12 d2 in
      let bc4 := rotl t 61 in
      let t := Z.lxor a23 d3 in
      let bc0 := rotl t 28 in
      let t := Z.lxor a9 d4 in
      let bc1 := rotl t 20 in
      let a15 := Z.lxor bc0 (Z.ldiff bc2 bc1) in
      let a1 := Z.lxor bc1 (Z.ldiff bc3 bc2) in
      let a12 := Z.lxor bc2 (Z.ldiff bc4 bc3) in
      let a23 := Z.lxor bc3 (Z.ldiff bc0 bc4) in
      let a9 := Z.lxor bc4 (Z.ldiff bc1 bc0) in
      let t := Z.lxor a5 d0 in
      let bc4 := rotl t 18 in
      let t := Z.lxor a16 d1 in
      let bc0 := rotl t 1 in
      let t := Z.lxor a2 d2 in
      let bc1 := rotl t 6 in
      let t := Z.lxor a13 d3 in
      let bc2 := rotl t 25 in
      let t := Z.lxor a24 d4 in
      let bc3 := rotl t 8 in
      let a5 := Z.lxor bc0 (Z.ldiff bc2 bc1) in
      let a16 := Z.lxor bc1 (Z.ldiff bc3 bc2) in
      let a2 := Z.lxor bc2 (Z.ldiff bc4 bc3) in
      let a13 := Z.lxor bc3 (Z.ldiff bc0 bc4) in
      let a24 := Z.lxor bc4 (Z.ldiff bc1 bc0) in
      let t := Z.lxor a20 d0 in
      let bc1 := rotl t 36 in
      let t := Z.lxor a6 d1 in
      let bc2 := rotl t 10 in
      let t := Z.lxor a17 d2 in
      let bc3 := rotl t 15 in
      let t := Z.lxor a3 d3 in
      let bc4 := rotl t 56 in
      let t := Z.lxor a14 d4 in
      let bc0 := rotl t 27 in
      let a20 := Z.lxor bc0 (Z.ldiff bc2 bc1) in
      let a6 := Z.lxor bc1 (Z.ldiff bc3 bc2) in
      let a17 := Z.lxor bc2 (Z.ldiff bc4 bc3) in
      let a3 := Z.lxor bc3 (Z.ldiff bc0 bc4) in
      let a14 := Z.lxor bc4 (Z.ldiff bc1 bc0) in
      let t := Z.lxor a10 d0 in
      let bc3 := rotl t 41 in
      let t := Z.lxor a21 d1 in
      let bc4 := rotl t 2 in
      let t := Z.lxor a7 d2 in
      let bc0 := rotl t 62 in
      let t := Z.lxor a18 d3 in
      let bc1 := rotl t 55 in
      let t := Z.lxor a4 d4 in
      let bc2 := rotl t 39 in
      let a10 := Z.lxor bc0 (Z.ldiff bc2 bc1) in
      let a21 := Z.lxor bc1 (Z.ldiff bc3 bc2) in
      let a7 := Z.lxor bc2 (Z.ldiff bc4 bc3) in
      let a18 := Z.lxor bc3 (Z.ldiff bc0 bc4) in
      let a4 := Z.lxor bc4 (Z.ldiff bc1 bc0) in
      [a0; a1; a2; a3; a4; a5; a6; a7; a8; a9; a10; a11; a12; a13; a14; a15; a16; a17; a18; a19; a20; a21; a22; a23; a24]
  | _ => a
  end.

(** Round 4 of the unrolled loop body. *)
Definition round4 (rc : Z) (a : list Z) : list Z :=
  match a with
  | [a0; a1; a2; a3; a4; a5; a6; a7; a8; a9; a10; a11; a12; a13; a14; a15; a16; a17; a18; a19; a20; a21; a22; a23; a24] =>
      let bc0 := Z.lxor (Z.lxor (Z.lxor (Z.lxor a0 a5) a10) a15) a20 in
      let bc1 := Z.lxor (Z.lxor (Z.lxor (Z.lxor a1 a6) a11) a16) a21 in
      let bc2 := Z.lxor (Z.lxor (Z.lxor (Z.lxor a2 a7) a12) a17) a22 in
      let bc3 := Z.lxor (Z.lxor (Z.lxor (Z.lxor a3 a8) a13) a18) a23 in
      let bc4 := Z.lxor (Z.lxor (Z.lxor (Z.lxor a4 a9) a14) a19) a24 in
      let d0 := Z.lxor bc4 (rotl bc1 1) in
      let d1 := Z.lxor bc0 (rotl bc2 1) in
      let d2 := Z.lxor bc1 (rotl bc3 1) in
      let d3 := Z.lxor bc2 (rotl bc4 1) in
      let d4 := Z.lxor bc3 (rotl bc0 1) in
      let bc0 := Z.lxor a0 d0 in
      let t := Z.lxor a1 d1 in
      let bc1 := rotl t 44 in
      let t := Z.lxor a2 d2 in
      let bc2 := rotl t 43 in
      let t := Z.lxor a3 d3 in
      let bc3 := rotl t 21 in
      let t := Z.lxor a4 d4 in
      let bc4 := rotl t 14 in
      let a0 := Z.lxor (Z.lxor bc0 (Z.ldiff bc2 bc1)) rc in
      let a1 := Z.lxor bc1 (Z.ldiff bc3 bc2) in
      let a2 := Z.lxor bc2 (Z.ldiff bc4 bc3) in
      let a3 := Z.lxor bc3 (Z.ldiff bc0 bc4) in
      let a4 := Z.lxor bc4 (Z.ldiff bc1 bc0) in
      let t := Z.lxor a5 d0 in
      let bc2 := rotl t 3 in
      let t := Z.lxor a6 d1 in
      let bc3 := rotl t 45 in
      let t := Z.lxor a7 d2 in
      let bc4 := rotl t 61 in
      let t := Z.lxor a8 d3 in
      let bc0 := rotl t 28 in
      let t := Z.lxor a9 d4 in
      let bc1 := rotl t 20 in
      let a5 := Z.lxor bc0 (Z.ldiff bc2 bc1) in
      let a6 := Z.lxor bc1 (Z.ldiff bc3 bc2) in
      let a7 := Z.lxor bc2 (Z.ldiff bc4 bc3) in
      let a8 := Z.lxor bc3 (Z.ldiff bc0 bc4) in
      let a9 := Z.lxor bc4 (Z.ldiff bc1 bc0) in
      let t := Z.lxor a10 d0 in
      let bc4 := rotl t 18 in
      let t := Z.lxor a11 d1 in
      let bc0 := rotl t 1 in
      let t := Z.lxor a12 d2 in
      let bc1 := rotl t 6 in
      let t := Z.lxor a13 d3 in
      let bc2 := rotl t 25 in
      let t := Z.lxor a14 d4 in
      let bc3 := rotl t 8 in
      let a10 := Z.lxor bc0 (Z.ldiff bc2 bc1) in
      let a11 := Z.lxor bc1 (Z.ldiff bc3 bc2) in
      let a12 := Z.lxor bc2 (Z.ldiff bc4 bc3) in
      let a13 := Z.lxor bc3 (Z.ldiff bc0 bc4) in
      let a14 := Z.lxor bc4 (Z.ldiff bc1 bc0) in
      let t := Z.lxor a15 d0 in
      let bc1 := rotl t 36 in
      let t := Z.lxor a16 d1 in
      let bc2 := rotl t 10 in
      let t := Z.lxor a17 d2 in
      let bc3 := rotl t 15 in
      let t := Z.lxor a18 d3 in
      let bc4 := rotl t 56 in
      let t := Z.lxor a19 d4 in
      let bc0 := rotl t 27 in
      let a15 := Z.lxor bc0 (Z.ldiff bc2 bc1) in
      let a16 := Z.lxor bc1 (Z.ldiff bc3 bc2) in
      let a17 := Z.lxor bc2 (Z.ldiff bc4 bc3) in
      let a18 := Z.lxor bc3 (Z.ldiff bc0 bc4) in
      let a19 := Z.lxor bc4 (Z.ldiff bc1 bc0) in
      let t := Z.lxor a20 d0 in
      let bc3 := rotl t 41 in
      let t := Z.lxor a21 d1 in
      let bc4 := rotl t 2 in
      let t := Z.lxor a22 d2 in
      let bc0 := rotl t 62 in
      let t := Z.lxor a23 d3 in
      let bc1 := rotl t 55 in
      let t := Z.lxor a24 d4 in
      let bc2 := rotl t 39 in
      let a20 := Z.lxor bc0 (Z.ldiff bc2 bc1) in
      let a21 := Z.lxor bc1 (Z.ldiff bc3 bc2) in
      let a22 := Z.lxor bc2 (Z.ldiff bc4 bc3) in
      let a23 := Z.lxor bc3 (Z.ldiff bc0 bc4) in
      let a24 := Z.lxor bc4 (Z.ldiff bc1 bc0) in
      [a0; a1; a2; a3; a4; a5; a6; a7; a8; a9; a10; a11; a12; a13; a14; a15; a16; a17; a18; a19; a20; a21; a22; a23; a24]
  | _ => a
  end.
(** One iteration of the loop: four rounds. *)
Definition rounds4 (i : nat) (a : list Z) : list Z :=
  round4 (nth (i + 3) rc 0) (round3 (nth (i + 2) rc 0) (round2 (nth (i + 1) rc 0) (round1 (nth i rc 0) a))).

(** [keccakF1600] *)
Definition keccakF1600 (a : list Z) : list Z :=
  fold_left (fun a i => rounds4 i a) [0; 4; 8; 12; 16; 20]%nat a.

(** ** The step mappings of FIPS 202 *)

Definition lane (A : list Z) (x y : nat) : Z := nth (x mod 5 + 5 * (y mod 5)) A 0.

Definition grid (f : nat -> nat -> Z) : list Z :=
  flat_map (fun y => map (fun x => f x y) (seq 0 5)) (seq 0 5).

Definition theta (A : list Z) : list Z :=
  let C x := Z.lxor (Z.lxor (Z.lxor (Z.lxor (lane A x 0) (lane A x 1)) (lane A x 2)) (lane A x 3)) (lane A x 4) in
  let D x := Z.lxor (C (x + 4)%nat) (rotl (C (x + 1)%nat) 1) in
  grid (fun x y => Z.lxor (lane A x y) (D x)).

(** Rotation offsets: [(t + 1)(t + 2) / 2] along the walk
    [(x, y) -> (y, 2x + 3y)] from [(1, 0)]; the lane [(0, 0)] is not rotated. *)
Fixpoint rho_offset_walk (fuel t x y x0 y0 : nat) : Z :=
  match fuel with
  | O => 0
  | S fuel =>
      if (x =? x0)%nat && (y =? y0)%nat then Z.of_nat ((t + 1) * (t + 2) / 2) mod 64
      else rho_offset_walk fuel (t + 1) y ((2 * x + 3 * y) mod 5) x0 y0
  end.

Definition rho_offset (x y : nat) : Z := rho_offset_walk 24 0 1 0 x y.

Definition rho (A : list Z) : list Z :=
  grid (fun x y => if (x =? 0)%nat && (y =? 0)%nat then lane A x y else rotl (lane A x y) (rho_offset x y)).

Definition pi (A : list Z) : list Z := grid (fun x y => lane A (x + 3 * y) x).

Definition chi (A : list Z) : list Z :=
  grid (fun x y => Z.lxor (lane A x y) (Z.ldiff (lane A (x + 2) y) (lane A (x + 1) y))).

Definition iota (c : Z) (A : list Z) : list Z :=
  match A with a :: A => Z.lxor a c :: A | [] => [] end.

Definition keccak_round (c : Z) (A : list Z) : list Z := iota c (chi (pi (rho (theta A)))).

(** Round constants: bit [2^j - 1] of constant [ir] is bit [j + 7 ir] of the
    LFSR of [x^8 + x^6 + x^5 + x^4 + 1]. *)
Definition lfsr_step (s : Z) : Z :=
  let s := Z.shiftl s 1 in if Z.testbit s 8 then Z.lxor s 0x171 else s.

Definition rc_bit (t : nat) : bool := Z.testbit (Nat.iter t lfsr_step 1) 0.

Definition round_constant (ir : nat) : Z :=
  fold_right (fun j acc => if rc_bit (j + 7 * ir) then Z.lor (2 ^ (2 ^ Z.of_nat j - 1)) acc else acc)
    0 (seq 0 7).

(** Keccak-f[1600]: 24 rounds. *)
Definition keccak_f (A : list Z) : list Z :=
  fold_left (fun A ir => keccak_round (round_constant ir) A) (seq 0 24) A.

(** ** The unrolled permutation is Keccak-f *)

(** A left rotation moves bit [i - n] to bit [i]. *)
Lemma rotl_testbit t n i :
  0 <= t < 2 ^ 64 -> 0 < n < 64 -> 0 <= i < 64 ->
  Z.testbit (rotl t n) i = Z.testbit t ((i - n) mod 64).
Proof.
  intros Ht Hn Hi. unfold rotl, wrapU.
  rewrite Z.lor_spec, Z.mod_pow2_bits_low, Z.shiftl_spec, Z.shiftr_spec by lia.
  destruct (decide (n <= i)) as [?|?].
  - rewrite (Z.bits_above_log2 t (i + (64 - n))).
    + rewrite orb_false_r. f_equal. rewrite Z.mod_small; lia.
    + lia.
    + destruct (decide (t = 0)) as [->|]; [simpl; lia|].
      apply Z.log2_lt_pow2; [lia|]. apply (Z.lt_le_trans _ (2 ^ 64)); [lia|].
      apply Z.pow_le_mono_r; lia.
  - rewrite (Z.testbit_neg_r t (i - n)) by lia. simpl. f_equal.
    replace (i - n) with (i + (64 - n) + (-1) * 64) by lia. rewrite Z.mod_add, Z.mod_small by lia. lia.
Qed.

(** The lanes are permuted in place: after round [k], lane [i] is at position
    [layout k !! i]. *)
Definition layout1 : list nat :=
  map (fun i => ((6 * (i mod 5) + 10 * (i / 5)) mod 25)%nat) (seq 0 25).

Definition layout2 : list nat := map (fun i => nth i layout1 0%nat) layout1.
Definition layout3 : list nat := map (fun i => nth i layout1 0%nat) layout2.

Definition place (p : list nat) (A : list Z) : list Z :=
  fold_left (fun acc q => <[q.1 := q.2]> acc) (zip p A) (replicate 25 0).

Ltac lanes25 A HA :=
  destruct A as [|a0 [|a1 [|a2 [|a3 [|a4 [|a5 [|a6 [|a7 [|a8 [|a9 [|a10 [|a11 
    [|a12 [|a13 [|a14 [|a15 [|a16 [|a17 [|a18 [|a19 [|a20 [|a21 [|a22 [|a23 [|a24 [|? ?]]]]]]]]]]]]]]]]]]]]]]]]]];
  try discriminate HA; clear HA.

(** The columns of a permuted state hold the same lanes in another order. *)
Lemma xor_fold_perm l k : l ≡ₚ k -> fold_right Z.lxor 0 l = fold_right Z.lxor 0 k.
Proof.
  induction 1 as [|x l k _ IH|x y l|l k m _ IH1 _ IH2]; simpl; [done|by rewrite IH| |congruence].
  by rewrite <- !Z.lxor_assoc, (Z.lxor_comm y x).
Qed.

Lemma xor5_perm p q r s t l :
  [p; q; r; s; t] ≡ₚ l -> Z.lxor (Z.lxor (Z.lxor (Z.lxor p q) r) s) t = fold_right Z.lxor 0 l.
Proof.
  intros <-%xor_fold_perm. simpl. by rewrite Z.lxor_0_r, !Z.lxor_assoc.
Qed.

Lemma xor5_col p q r s t p' q' r' s' t' :
  [p; q; r; s; t] ≡ₚ [p'; q'; r'; s'; t'] ->
  Z.lxor (Z.lxor (Z.lxor (Z.lxor p q) r) s) t = Z.lxor (Z.lxor (Z.lxor (Z.lxor p' q') r') s') t'.
Proof. intros Hp. rewrite (xor5_perm _ _ _ _ _ _ Hp). symmetry. by apply xor5_perm. Qed.

Ltac column p q r s t p' q' r' s' t' :=
  rewrite (xor5_col p q r s t p' q' r' s' t') by solve_Permutation.

Ltac steps := cbv -[Z.lxor Z.ldiff rotl].

Lemma round1_reference c A : length A = 25%nat -> round1 c A = place layout1 (keccak_round c A).
Proof. intros HA. lanes25 A HA. steps. reflexivity. Qed.

Lemma round2_reference c A :
  length A = 25%nat -> round2 c (place layout1 A) = place layout2 (keccak_round c A).
Proof.
  intros HA. lanes25 A HA. steps.
  column a0 a15 a5 a20 a10 a0 a5 a10 a15 a20.
  column a11 a1 a16 a6 a21 a1 a6 a11 a16 a21.
  column a22 a12 a2 a17 a7 a2 a7 a12 a17 a22.
  column a8 a23 a13 a3 a18 a3 a8 a13 a18 a23.
  column a19 a9 a24 a14 a4 a4 a9 a14 a19 a24.
  reflexivity.
Qed.

Lemma round3_reference c A :
  length A = 25%nat -> round3 c (place layout2 A) = place layout3 (keccak_round c A).
Proof.
  intros HA. lanes25 A HA. steps.
  column a0 a20 a15 a10 a5 a0 a5 a10 a15 a20.
  column a16 a11 a6 a1 a21 a1 a6 a11 a16 a21.
  column a7 a2 a22 a17 a12 a2 a7 a12 a17 a22.
  column a23 a18 a13 a8 a3 a3 a8 a13 a18 a23.
  column a14 a9 a4 a24 a19 a4 a9 a14 a19 a24.
  reflexivity.
Qed.

Lemma round4_reference c A :
  length A = 25%nat -> round4 c (place layout3 A) = keccak_round c A.
Proof.
  intros HA. lanes25 A HA. steps.
  column a0 a10 a20 a5 a15 a0 a5 a10 a15 a20.
  column a6 a16 a1 a11 a21 a1 a6 a11 a16 a21.
  column a12 a22 a7 a17 a2 a2 a7 a12 a17 a22.
  column a18 a3 a13 a23 a8 a3 a8 a13 a18 a23.
  column a24 a9 a19 a4 a14 a4 a9 a14 a19 a24.
  reflexivity.
Qed.

Lemma length_grid f : length (grid f) = 25%nat.
Proof. done. Qed.

Lemma length_keccak_round c A : length (keccak_round c A) = 25%nat.
Proof. reflexivity. Qed.

Lemma rounds4_reference i A :
  length A = 25%nat ->
  rounds4 i A = keccak_round (nth (i + 3) rc 0) (keccak_round (nth (i + 2) rc 0)
                  (keccak_round (nth (i + 1) rc 0) (keccak_round (nth i rc 0) A))).
Proof.
  intros HA. unfold rounds4.
  rewrite round1_reference, round2_reference, round3_reference, round4_reference; done.
Qed.

Lemma length_rounds4 i A : length A = 25%nat -> length (rounds4 i A) = 25%nat.
Proof. intros HA. rewrite rounds4_reference by done. apply length_keccak_round. Qed.

(** The table of round constants is the LFSR sequence. *)
Lemma rc_lfsr : rc = map round_constant (seq 0 24).
Proof. vm_compute. reflexivity. Qed.

Lemma keccakF1600_spec A : length A = 25%nat -> keccakF1600 A = keccak_f A.
Proof.
  intros HA. unfold keccakF1600, keccak_f. cbn [fold_left].
  rewrite !rounds4_reference by (repeat apply length_rounds4; exact HA).
  rewrite rc_lfsr. cbn [seq map fold_left nth Nat.add]. reflexivity.
Qed.

Lemma length_keccak_f A : length (keccak_f A) = 25%nat.
Proof. reflexivity. Qed.

#[global] Opaque keccakF1600 keccak_f.

(** ** The sponge *)

Inductive spongeDirection := spongeAbsorbing | spongeSqueezing.

(** [state]; [buf] is the slice of [storage] in use.  While squeezing it is
    [storage\[rate - len(buf) : rate\]]. *)
Record state := mkState {
  st_a : list Z;
  st_buf : list Z;
  st_rate : nat;
  st_dsbyte : Z;
  st_outputLen : nat;
  st_dir : spongeDirection
}.

Definition maxRate : nat := 168.

Definition set_a (d : state) (a : list Z) : state :=
  mkState a (st_buf d) (st_rate d) (st_dsbyte d) (st_outputLen d) (st_dir d).
Definition set_buf (d : state) (b : list Z) : state :=
  mkState (st_a d) b (st_rate d) (st_dsbyte d) (st_outputLen d) (st_dir d).
Definition set_dir (d : state) (x : spongeDirection) : state :=
  mkState (st_a d) (st_buf d) (st_rate d) (st_dsbyte d) (st_outputLen d) x.

(** [binary.LittleEndian] *)
Definition le_Uint64 (b : list Z) : Z := be_uint (rev (take 8 b)).
Definition le_PutUint64 (x : Z) : list Z := rev (be_bytes 8 x).

(** [xorInGeneric] *)
Fixpoint xor_lanes (n : nat) (a buf : list Z) : list Z :=
  match n, a with
  | S n, x :: a => Z.lxor x (le_Uint64 buf) :: xor_lanes n a (drop 8 buf)
  | _, _ => a
  end.

Definition xorIn (a buf : list Z) : list Z := xor_lanes (length buf / 8) a buf.

(** [copyOutGeneric] into a buffer of [n] bytes, [n] a multiple of 8. *)
Definition copyOut (a : list Z) (n : nat) : list Z := concat (map le_PutUint64 (take (n / 8) a)).

(** [state.Reset] *)
Definition Reset (d : state) : state :=
  mkState (replicate 25 0) [] (st_rate d) (st_dsbyte d) (st_outputLen d) spongeAbsorbing.

(** [state.clone]: while squeezing, the copy's buffer starts at
    [rate - cap(buf)], and the capacity runs to the end of [storage]. *)
Definition clone (d : state) : outcome Empty_set state :=
  match st_dir d with
  | spongeAbsorbing => Ok d
  | spongeSqueezing =>
      let rate := Z.of_nat (st_rate d) in
      let cap := Z.of_nat maxRate - (rate - Z.of_nat (length (st_buf d))) in
      if bool_decide (rate - cap < 0) then Panic
      else Ok (set_buf d (drop (Z.to_nat (rate - cap)) (copyOut (st_a d) (st_rate d))))
  end.

(** [state.permute] *)
Definition permute (d : state) : state :=
  match st_dir d with
  | spongeAbsorbing => set_a (set_buf d []) (keccakF1600 (xorIn (st_a d) (st_buf d)))
  | spongeSqueezing =>
      let a := keccakF1600 (st_a d) in set_buf (set_a d a) (copyOut a (st_rate d))
  end.

(** [state.padAndPermute] *)
Definition padAndPermute (d : state) (dsbyte : Z) : state :=
  let b := st_buf d ++ [dsbyte] in
  let b := b ++ replicate (st_rate d - length b) 0 in
  let b := alter (fun x => Z.lxor x 0x80) (st_rate d - 1)%nat b in
  let d := set_dir (permute (set_buf d b)) spongeSqueezing in
  set_buf d (copyOut (st_a d) (st_rate d)).

(** The loop of [state.Write]: every iteration consumes input. *)
Fixpoint write_loop (fuel : nat) (d : state) (p : list Z) : outcome Empty_set state :=
  match p, fuel with
  | [], _ => Ok d
  | _, O => OutOfFuel
  | _, S fuel =>
      if (length (st_buf d) =? 0)%nat && (st_rate d <=? length p)%nat then
        write_loop fuel (set_a d (keccakF1600 (xorIn (st_a d) (take (st_rate d) p)))) (drop (st_rate d) p)
      else
        let todo := Nat.min (st_rate d - length (st_buf d)) (length p) in
        let d := set_buf d (st_buf d ++ take todo p) in
        let d := if (length (st_buf d) =? st_rate d)%nat then permute d else d in
        write_loop fuel d (drop todo p)
  end.

(** [state.Write] *)
Definition Write (d : state) (p : list Z) : outcome Empty_set state :=
  match st_dir d with
  | spongeAbsorbing => write_loop (length p) d p
  | spongeSqueezing => Panic
  end.

(** The loop of [state.Read] for [n] more bytes. *)
Fixpoint read_loop (fuel : nat) (d : state) (n : nat) : outcome Empty_set (list Z * state) :=
  match n, fuel with
  | O, _ => Ok ([], d)
  | _, O => OutOfFuel
  | _, S fuel =>
      let k := Nat.min n (length (st_buf d)) in
      let out := take k (st_buf d) in
      let d := set_buf d (drop k (st_buf d)) in
      let d := if (length (st_buf d) =? 0)%nat then permute d else d in
      '(rest, d) ← read_loop fuel d (n - k);
      Ok (out ++ rest, d)
  end.

(** [state.Read] of [n] bytes *)
Definition Read (d : state) (n : nat) : outcome Empty_set (list Z * state) :=
  let d := match st_dir d with spongeAbsorbing => padAndPermute d (st_dsbyte d) | _ => d end in
  read_loop n d n.

(** [state.Sum] *)
Definition Sum (d : state) (pre : list Z) : outcome Empty_set (list Z) :=
  dup ← clone d;
  '(hash, _) ← Read dup (st_outputLen dup);
  Ok (pre ++ hash).

(** The constructors of [hashes.go]. *)
Definition new_state (rate outputLen : nat) (dsbyte : Z) : state :=
  mkState (replicate 25 0) [] rate dsbyte outputLen spongeAbsorbing.

Definition NewKeccak256 : state := new_state 136 32 0x01.
Definition NewKeccak512 : state := new_state 72 64 0x01.
Definition New224 : state := new_state 144 28 0x06.
Definition New256 : state := new_state 136 32 0x06.
Definition New384 : state := new_state 104 48 0x06.
Definition New512 : state := new_state 72 64 0x06.

(** [crypto.Keccak256]: the chunks are written one after the other. *)
Fixpoint write_all (d : state) (ps : list (list Z)) : outcome Empty_set state :=
  match ps with
  | [] => Ok d
  | p :: ps => d ← Write d p; write_all d ps
  end.

Definition Keccak256 (data : list (list Z)) : outcome Empty_set (list Z) :=
  d ← write_all NewKeccak256 data;
  Sum d [].

Definition Keccak512 (data : list (list Z)) : outcome Empty_set (list Z) :=
  d ← write_all NewKeccak512 data;
  Sum d [].

(** ** The sponge function *)

(** The padding rule [10*1] after the domain separation bits. *)
Definition pad10star1 (rate : nat) (ds : Z) (len : nat) : list Z :=
  let q := (rate - len mod rate)%nat in
  if (q =? 1)%nat then [Z.lxor ds 0x80] else ds :: replicate (q - 2) 0 ++ [0x80].

(** Blocks of [rate] bytes. *)
Fixpoint blocks (fuel rate : nat) (l : list Z) : list (list Z) :=
  match fuel, l with
  | S fuel, _ :: _ => take rate l :: blocks fuel rate (drop rate l)
  | _, _ => []
  end.

Definition absorb (a : list Z) (bs : list (list Z)) : list Z :=
  fold_left (fun a b => keccak_f (xorIn a b)) bs a.

Definition sponge (rate : nat) (ds : Z) (n : nat) (msg : list Z) : list Z :=
  let padded := msg ++ pad10star1 rate ds (length msg) in
  take n (copyOut (absorb (replicate 25 0) (blocks (length padded) rate padded)) rate).

(** ** The buffered sponge computes the sponge function *)

Lemma length_xor_lanes n a buf : length (xor_lanes n a buf) = length a.
Proof. revert a buf. induction n; intros [|x a] buf; simpl; auto. Qed.

Lemma length_absorb a bs : length a = 25%nat -> length (absorb a bs) = 25%nat.
Proof.
  revert a. induction bs as [|b bs IH]; intros a Ha; [done|]. simpl. apply IH, length_keccak_f.
Qed.

Lemma absorb_snoc a bs b : absorb a (bs ++ [b]) = keccak_f (xorIn (absorb a bs) b).
Proof. unfold absorb. by rewrite fold_left_app. Qed.

Lemma length_copyOut a n : (n <= 200)%nat -> length a = 25%nat -> length (copyOut a n) = (8 * (n / 8))%nat.
Proof.
  intros Hn Ha. unfold copyOut.
  assert (forall l, length (concat (map le_PutUint64 l)) = (8 * length l)%nat) as ->.
  { induction l as [|x l IH]; [done|]. cbn [map concat length]. rewrite length_app, IH.
    unfold le_PutUint64. rewrite length_rev, length_be_bytes. lia. }
  rewrite length_take, Ha. pose proof (Nat.Div0.div_le_mono n 200 8 Hn).
  change (200 / 8)%nat with 25%nat in *. lia.
Qed.

Lemma concat_blocks_length (bs : list (list Z)) r :
  Forall (fun b => length b = r) bs -> length (concat bs) = (length bs * r)%nat.
Proof. induction 1 as [|b bs Hb _ IH]; [done|]. simpl. rewrite length_app. lia. Qed.

Lemma blocks_step fuel r l :
  (0 < length l)%nat -> blocks (S fuel) r l = take r l :: blocks fuel r (drop r l).
Proof. destruct l; simpl; [lia|done]. Qed.

Lemma blocks_app bs r l fuel :
  (0 < r)%nat -> Forall (fun b => length b = r) bs -> (length bs <= fuel)%nat ->
  blocks fuel r (concat bs ++ l) = bs ++ blocks (fuel - length bs) r l.
Proof.
  intros Hr Hbs. revert fuel. induction Hbs as [|b bs Hb _ IH]; intros fuel Hf.
  - simpl. by rewrite Nat.sub_0_r.
  - destruct fuel as [|fuel]; simpl in Hf; [lia|]. cbn [concat]. rewrite <- app_assoc.
    rewrite blocks_step, take_app_length', drop_app_length' by (rewrite ?length_app; lia).
    simpl. f_equal. apply IH. lia.
Qed.

Lemma length_pad rate ds n : (0 < rate)%nat -> length (pad10star1 rate ds n) = (rate - n mod rate)%nat.
Proof.
  intros Hr. unfold pad10star1. pose proof (Nat.mod_upper_bound n rate ltac:(lia)).
  case_match eqn:E; [apply Nat.eqb_eq in E|apply Nat.eqb_neq in E]; simpl; [lia|].
  rewrite length_app, length_replicate. simpl. lia.
Qed.

(** The padding done in the buffer. *)
Lemma pad_buffer rate ds (b : list Z) :
  (length b < rate)%nat ->
  alter (fun x => Z.lxor x 0x80) (rate - 1)%nat
    ((b ++ [ds]) ++ replicate (rate - length (b ++ [ds])) 0) = b ++ pad10star1 rate ds (length b).
Proof.
  intros Hb. unfold pad10star1. rewrite Nat.mod_small, length_app by done. simpl.
  destruct (Nat.eqb_spec (rate - length b) 1) as [E|E].
  - replace (rate - (length b + 1))%nat with 0%nat by lia. simpl. rewrite app_nil_r.
    rewrite alter_app_r_alt by lia. by replace (rate - 1 - length b)%nat with 0%nat by lia.
  - replace (rate - (length b + 1))%nat with (rate - length b - 2 + 1)%nat by lia.
    rewrite replicate_add, <- app_assoc. rewrite alter_app_r_alt by lia. f_equal. simpl.
    replace (rate - 1 - length b)%nat with (S (rate - length b - 2)) by lia. simpl. f_equal.
    match goal with |- list_alter ?f ?i ?l = _ => change (list_alter f i l) with (alter f i l) end.
    rewrite alter_app_r_alt by (rewrite length_replicate; lia).
    by rewrite length_replicate, Nat.sub_diag.
Qed.

Section sponge.
Context (rate out : nat) (ds : Z).
Context (Hrate : (0 < rate <= maxRate)%nat) (Hout : (out <= 8 * (rate / 8))%nat).

(** After absorbing [msg]: the full blocks are in the state, the rest is
    buffered. *)
Definition absorbed (d : state) (msg : list Z) : Prop :=
  exists bs, Forall (fun b => length b = rate) bs /\ (length (st_buf d) < rate)%nat /\
    msg = concat bs ++ st_buf d /\
    d = mkState (absorb (replicate 25 0) bs) (st_buf d) rate ds out spongeAbsorbing.

Lemma absorbed_block d msg b p :
  absorbed d msg -> st_buf d ++ b = p -> length p = rate ->
  absorbed (set_buf (set_a d (keccakF1600 (xorIn (st_a d) p))) []) (msg ++ b).
Proof.
  intros (bs & Hbs & Hb & -> & E) Hp Hlen. exists (bs ++ [p]). rewrite E. simpl. split_and!.
  - apply Forall_app. split; [done|]. by constructor.
  - lia.
  - rewrite concat_app, app_nil_r. simpl. rewrite app_nil_r, <- Hp, app_assoc. done.
  - unfold set_buf, set_a. simpl. rewrite absorb_snoc, keccakF1600_spec; [done|].
    unfold xorIn. rewrite length_xor_lanes. by apply length_absorb.
Qed.

Lemma absorbed_buffer d msg b :
  absorbed d msg -> (length (st_buf d ++ b) < rate)%nat -> absorbed (set_buf d (st_buf d ++ b)) (msg ++ b).
Proof.
  intros (bs & Hbs & Hb & -> & E) Hlen. exists bs. rewrite E. simpl. by rewrite app_assoc.
Qed.

Lemma write_loop_ok fuel : forall d msg p,
  absorbed d msg -> (length p <= fuel)%nat ->
  exists d', write_loop fuel d p = Ok d' /\ absorbed d' (msg ++ p).
Proof.
  induction fuel as [|fuel IH]; intros d msg p Hd Hp.
  { destruct p; [|simpl in Hp; lia]. exists d. by rewrite app_nil_r. }
  destruct p as [|x p0]; [exists d; by rewrite app_nil_r|]. set (p := x :: p0) in *.
  assert (0 < length p)%nat as Hp0 by (simpl; lia).
  assert (st_rate d = rate /\ (length (st_buf d) < rate)%nat /\ st_dir d = spongeAbsorbing) as (Hr & Hbuf & Hdir).
  { destruct Hd as (bs & _ & ? & _ & E). rewrite E. done. }
  cbn [write_loop]. subst p. cbv iota. set (p := x :: p0) in *. rewrite Hr.
  destruct ((length (st_buf d) =? 0)%nat && (rate <=? length p)%nat) eqn:Ec.
  - apply andb_true_iff in Ec as [E0%Nat.eqb_eq E1%Nat.leb_le]. apply nil_length_inv in E0.
    destruct (IH (set_a d (keccakF1600 (xorIn (st_a d) (take rate p)))) (msg ++ take rate p) (drop rate p))
      as (d' & -> & Hd').
    + replace (set_a d _) with (set_buf (set_a d (keccakF1600 (xorIn (st_a d) (take rate p)))) [])
        by (unfold set_buf, set_a; simpl; by rewrite E0).
      apply (absorbed_block _ _ (take rate p)); [done|by rewrite E0|rewrite length_take; lia].
    + rewrite length_drop. lia.
    + exists d'. by rewrite <- app_assoc, take_drop in Hd'.
  - set (todo := Nat.min (rate - length (st_buf d)) (length p)).
    assert (1 <= todo)%nat by (unfold todo; lia).
    set (d1 := set_buf d (st_buf d ++ take todo p)).
    assert (absorbed (if (length (st_buf d1) =? st_rate d1)%nat then permute d1 else d1) (msg ++ take todo p)) as Hd1.
    { subst d1. simpl. rewrite Hr. destruct (Nat.eqb_spec (length (st_buf d ++ take todo p)) rate) as [El|El].
      - unfold permute. simpl. rewrite Hdir. eapply absorbed_block; [done|done|done].
      - apply absorbed_buffer; [done|]. rewrite length_app, length_take in *. unfold todo in *. lia. }
    destruct (IH _ _ (drop todo p) Hd1) as (d' & -> & Hd'); [rewrite length_drop; lia|].
    exists d'. by rewrite <- app_assoc, take_drop in Hd'.
Qed.

Lemma write_all_ok ps : forall d msg,
  absorbed d msg -> exists d', write_all d ps = Ok d' /\ absorbed d' (msg ++ concat ps).
Proof.
  induction ps as [|p ps IH]; intros d msg Hd; [exists d; by rewrite app_nil_r|].
  destruct (write_loop_ok (length p) d msg p Hd ltac:(lia)) as (d1 & E1 & Hd1).
  destruct (IH d1 _ Hd1) as (d2 & E2 & Hd2). exists d2. simpl. unfold Write.
  assert (st_dir d = spongeAbsorbing) as -> by (destruct Hd as (bs & _ & _ & _ & ->); done).
  rewrite E1. by rewrite app_assoc.
Qed.

Lemma read_once d n :
  (n <= length (st_buf d))%nat -> exists d', read_loop n d n = Ok (take n (st_buf d), d').
Proof.
  intros Hn. destruct n as [|n]; [by exists d|]. cbn [read_loop].
  rewrite Nat.min_l by done. rewrite Nat.sub_diag. destruct n; cbn [read_loop mbind outcome_bind].
  all: rewrite app_nil_r; by eexists.
Qed.

Lemma pad_permute_ok d msg :
  absorbed d msg ->
  st_buf (padAndPermute d (st_dsbyte d)) =
  copyOut (absorb (replicate 25 0) (blocks (length (msg ++ pad10star1 rate ds (length msg))) rate
             (msg ++ pad10star1 rate ds (length msg)))) rate.
Proof.
  intros (bs & Hbs & Hb & -> & E). rewrite E. unfold padAndPermute, permute.
  cbn [set_buf set_a set_dir st_a st_buf st_rate st_dir st_dsbyte st_outputLen].
  set (buf := st_buf d) in *.
  rewrite pad_buffer by done.
  assert (pad10star1 rate ds (length (concat bs ++ buf)) = pad10star1 rate ds (length buf)) as ->.
  { unfold pad10star1. rewrite length_app, (concat_blocks_length _ rate), Nat.add_comm, Nat.Div0.mod_add by done. done. }
  pose proof (length_pad rate ds (length buf) ltac:(lia)) as Hl. rewrite Nat.mod_small in Hl by done.
  rewrite <- app_assoc. rewrite blocks_app; [|lia|done|].
  2: { rewrite length_app, (concat_blocks_length _ rate) by done.
       assert (length bs <= length bs * rate)%nat by nia. lia. }
  rewrite !length_app, (concat_blocks_length _ rate), Hl by done.
  replace (length bs * rate + (length buf + (rate - length buf)) - length bs)%nat
    with (S (length bs * rate + rate - length bs - 1)) by nia.
  rewrite blocks_step by (rewrite length_app; lia).
  rewrite take_ge, drop_ge by (rewrite length_app; lia).
  destruct (_ + _ - _ - _)%nat; cbn [blocks]; rewrite absorb_snoc, keccakF1600_spec; try done;
    unfold xorIn; rewrite length_xor_lanes; by apply length_absorb.
Qed.

Lemma new_absorbed : absorbed (new_state rate out ds) [].
Proof. exists []. simpl. split_and!; [constructor|lia|done|done]. Qed.

Lemma sponge_ok ps pre :
  (d ← write_all (new_state rate out ds) ps; Sum d pre) = Ok (pre ++ sponge rate ds out (concat ps)).
Proof.
  destruct (write_all_ok ps _ _ new_absorbed) as (d & -> & Hd). cbn [mbind outcome_bind].
  pose proof (pad_permute_ok d _ Hd) as Hp. simpl app in Hp.
  assert (st_dir d = spongeAbsorbing /\ st_outputLen d = out) as [Hdir Ho].
  { destruct Hd as (bs & _ & _ & _ & ->). done. }
  unfold Sum, clone. rewrite Hdir. cbn [mbind outcome_bind]. unfold Read. rewrite Hdir, Ho.
  destruct (read_once (padAndPermute d (st_dsbyte d)) out) as [d' ->].
  { rewrite Hp, length_copyOut; [done|unfold maxRate in *; lia|by apply length_absorb]. }
  cbn [mbind outcome_bind]. by rewrite Hp.
Qed.
End sponge.

(** ** The interface of the hash users *)

(** What the trie and the consensus code need of this package: a 32-byte
    digest. *)
Class Keccak := {
  keccak256 : list Z -> list Z;
  keccak256_ok b : length (keccak256 b) = 32%nat /\ bytes_ok (keccak256 b)
}.

(** No element of [xs] collides with an element of [ys]. *)
Definition no_collision `{Keccak} (xs ys : list (list Z)) : Prop :=
  forall x y, x ∈ xs -> y ∈ ys -> keccak256 x = keccak256 y -> x = y.

Lemma copyOut_bytes a n : bytes_ok (copyOut a n).
Proof.
  unfold copyOut. apply Forall_concat, Forall_fmap, Forall_true. intros x. simpl.
  unfold le_PutUint64. apply Forall_rev, be_bytes_ok.
Qed.

Lemma sponge_digest rate ds n msg :
  (rate <= maxRate)%nat -> (n <= 8 * (rate / 8))%nat ->
  length (sponge rate ds n msg) = n /\ bytes_ok (sponge rate ds n msg).
Proof.
  intros Hr Hn. unfold sponge. split; [|apply bytes_ok_take, copyOut_bytes].
  rewrite length_take, length_copyOut; [lia|unfold maxRate in *; lia|by apply length_absorb].
Qed.

Lemma keccak_digest b : length (sponge 136 0x01 32 b) = 32%nat /\ bytes_ok (sponge 136 0x01 32 b).
Proof. apply sponge_digest; unfold maxRate; simpl; lia. Qed.

(** The package implements the interface with the Keccak-256 sponge. *)
Definition sha3_keccak : Keccak := Build_Keccak (sponge 136 0x01 32) keccak_digest.

(** [crypto.Keccak256] computes it. *)
Lemma Keccak256_ok data : Keccak256 data = Ok (@keccak256 sha3_keccak (concat data)).
Proof. unfold Keccak256. apply (sponge_ok 136 32 0x01); unfold maxRate; simpl; lia. Qed.

(** The hash functions of [hashes.go]. *)
Definition hash_functions : list state := [NewKeccak256; NewKeccak512; New224; New256; New384; New512].

(** C26: equivalence.  For every hash function of the package, writing a message
    in any pieces and taking the sum appends exactly the FIPS 202 sponge of the
    whole message: buffering, the direct path for full blocks, in-buffer padding
    and the unrolled in-place permutation are all equivalent to padding the
    message, cutting it into blocks and applying Keccak-f[1600] after each. *)
Theorem sponge_reference d ps pre :
  d ∈ hash_functions ->
  (d' ← write_all d ps; Sum d' pre) =
  Ok (pre ++ sponge (st_rate d) (st_dsbyte d) (st_outputLen d) (concat ps)).
Proof.
  unfold hash_functions. rewrite !elem_of_cons, elem_of_nil.
  intros [->|[->|[->|[->|[->|[->|[]]]]]]]; apply sponge_ok; simpl; unfold maxRate; lia.
Qed.

(** The Keccak-256 digest of [abc], written in two pieces. *)
Lemma sponge_reference_witness :
  Keccak256 [[0x61]; [0x62; 0x63]] =
  Ok [0x4e; 0x03; 0x65; 0x7a; 0xea; 0x45; 0xa9; 0x4f; 0xc7; 0xd4; 0x7b; 0xa8; 0x26; 0xc8; 0xd6; 0x67;
      0xc0; 0xd1; 0xe6; 0xe3; 0x3a; 0x64; 0xa0; 0x36; 0xec; 0x44; 0xf5; 0x8f; 0xa1; 0x2d; 0x6c; 0x45].
Proof.
  etransitivity; [apply (sponge_reference NewKeccak256 [[0x61]; [0x62; 0x63]] [])|].
  - unfold hash_functions. set_solver.
  - vm_compute. reflexivity.
Defined.
