(* ===== verification/TrieHash.v ===== *)
(** * Trie hashing ([src/trie/hasher.go], [Trie.Hash] and [Trie.Commit])

    The hasher collapses a trie bottom up: every node whose RLP encoding has at
    least 32 bytes is replaced in its parent by the Keccak hash of the encoding,
    shorter nodes are embedded, and the hashes are cached in the node flags.
    With a database ([Commit]) each hashed node is also stored, clean nodes that
    are old enough are unloaded, and the leaf callback runs; these effects are
    the returned list of events.

    [mref] is the cache-free definition of the Merkle reference of a node.
    [coherent] says that every cached hash is the hash of the node it is cached
    in; it is preserved by all operations, and under it the cached computation
    returns the cache-free reference.  The root hash is a function of the
    content alone ([root_hash_content]).

    The hash function is the interface [Keccak] of [Sha3]. *)

From S2P Require Import Prelude Common TrieEncoding Trie TrieSpec TrieMap TrieCanon Rlp Sha3.

(** ** RLP of a node *)

(** A node as the value of the interface [node]: [shortNode] is a struct whose
    exported fields are [Key] and [Val]; [fullNode.EncodeRLP] writes the array
    of children with [nilValueNode] for nil. *)
Fixpoint node_rval (n : node) : rval :=
  match n with
  | Nil => VNil
  | ValueNode v => VIface TBytes (VBytes v)
  | HashNode h => VIface TBytes (VBytes h)
  | ShortNode k c _ =>
      VIface (TPtr (TStruct [TBytes; TInterface])) (VPtr (VList [VBytes k; node_rval c]))
  | FullNode ch _ =>
      VIface (TSlice TInterface)
        (VList (map (fun c => if is_nil c then VIface TBytes (VBytes []) else node_rval c) ch))
  end.

(** Events of a commit: a node stored in the database, a leaf reported to the
    callback with the hash of the node that holds it. *)
Inductive db_event : Type :=
  | DbInsert (hash blob : list Z) (n : node)
  | OnLeaf (leaf parent : list Z).

Section hasher.
Context `{Keccak}.
(** [db != nil], [onleaf != nil], and the fields of the hasher. *)
Context (commit onleaf : bool) (h_cachegen h_cachelimit : Z).

(** The leaves [store] reports: the value below a short node, the values among
    the first sixteen children of a full node. *)
Definition store_leaves (n : node) (hash : list Z) : list db_event :=
  match n with
  | ShortNode _ (ValueNode v) _ => [OnLeaf v hash]
  | FullNode ch _ =>
      omap (fun c => match c with ValueNode v => Some (OnLeaf v hash) | _ => None end) (take 16 ch)
  | _ => []
  end.

(** [hasher.store] *)
Definition store (n : node) (force : bool) : outcome trie_error (node * list db_event) :=
  match n with
  | Nil | HashNode _ => Ok (n, [])
  | _ =>
      match Encode TInterface (node_rval n) with
      | Ok tmp =>
          if (length tmp <? 32)%nat && negb force then Ok (n, [])
          else
            let hash := match fst (cache n) with Some h => h | None => keccak256 tmp end in
            Ok (HashNode hash,
                if commit
                then DbInsert (BytesToHash hash) tmp n ::
                     (if onleaf then store_leaves n (BytesToHash hash) else [])
                else [])
      | _ => Panic
      end
  end.

(** The loop of [hasher.hashChildren] over the first [i] children, over the
    recursive call. *)
Definition hash_loop
  (hash : node -> bool -> outcome trie_error (node * node * list db_event)) :=
  fix loop (ch : list node) (i : nat) : outcome trie_error (list node * list node * list db_event) :=
    match ch, i with
    | c :: ch, S i =>
        if is_nil c then
          '(hs, cs, ev) ← loop ch i;
          Ok (c :: hs, c :: cs, ev)
        else
          '(h, c', ev1) ← hash c false;
          '(hs, cs, ev2) ← loop ch i;
          Ok (h :: hs, c' :: cs, ev1 ++ ev2)
    | _, _ => Ok (ch, ch, [])
    end.

(** [hasher.hashChildren]; the seventeenth child is kept in both results. *)
Definition hashChildren_with
  (hash : node -> bool -> outcome trie_error (node * node * list db_event)) (original : node)
  : outcome trie_error (node * node * list db_event) :=
  match original with
  | ShortNode k c f =>
      key ← or_panic (hexToCompact k);
      match c with
      | ValueNode _ => Ok (ShortNode key c f, ShortNode k c f, [])
      | _ =>
          '(h, c', ev) ← hash c false;
          Ok (ShortNode key h f, ShortNode k c' f, ev)
      end
  | FullNode ch f =>
      '(hs, cs, ev) ← hash_loop hash ch 16;
      Ok (FullNode hs f, FullNode cs f, ev)
  | n => Ok (n, original, [])
  end.

(** The flags of the cached node after hashing. *)
Definition set_cached (cached hashed : node) : node :=
  let cachedHash := match hashed with HashNode h => Some h | _ => None end in
  match cached with
  | ShortNode k c f =>
      ShortNode k c (NodeFlag cachedHash (flag_gen f) (if commit then false else flag_dirty f))
  | FullNode ch f =>
      FullNode ch (NodeFlag cachedHash (flag_gen f) (if commit then false else flag_dirty f))
  | n => n
  end.

(** [hasher.hash]: the collapsed node, the node to keep in memory, the events. *)
Fixpoint hash (n : node) (force : bool) {struct n} : outcome trie_error (node * node * list db_event) :=
  let slow :=
    '(collapsed, cached, ev1) ← hashChildren_with hash n;
    '(hashed, ev2) ← store collapsed force;
    Ok (hashed, set_cached cached hashed, ev1 ++ ev2) in
  match cache n with
  | (Some h, dirty) =>
      if negb commit then Ok (HashNode h, n, [])
      else if canUnload n h_cachegen h_cachelimit then Ok (HashNode h, HashNode h, [])
      else if negb dirty then Ok (HashNode h, n, [])
      else slow
  | (None, _) => slow
  end.
End hasher.

Arguments hashChildren_with : simpl never.

Section trie_hash.
Context `{Keccak}.

(** [Trie.hashRoot] *)
Definition hashRoot (commit onleaf : bool) (t : Trie)
  : outcome trie_error (node * node * list db_event) :=
  match root t with
  | Nil => Ok (HashNode emptyRoot, Nil, [])
  | n => hash commit onleaf (cachegen t) (cachelimit t) n true
  end.

(** The assertion [hash.(hashNode)]. *)
Definition as_hash (n : node) : outcome trie_error (list Z) :=
  match n with HashNode h => Ok (BytesToHash h) | _ => Panic end.

(** [Trie.Hash] *)
Definition Hash (t : Trie) : outcome trie_error (list Z * Trie) :=
  '(hashed, cached, _) ← hashRoot false false t;
  h ← as_hash hashed;
  Ok (h, set_root t cached).

(** [Trie.Commit] *)
Definition Commit (onleaf : bool) (t : Trie) : outcome trie_error (list Z * Trie * list db_event) :=
  '(hashed, cached, ev) ← hashRoot true onleaf t;
  h ← as_hash hashed;
  Ok (h, mkTrie cached (originalRoot t) (tprefix t) (u16 (cachegen t + 1)) (cachelimit t), ev).

(** ** Cache-free reference definition *)

(** The RLP encoding of a collapsed node. *)
Definition blob (n : node) : list Z :=
  match Encode TInterface (node_rval n) with Ok b => b | _ => [] end.

(** The reference to a collapsed node in its parent. *)
Definition collapse_ref (force : bool) (raw : node) : node :=
  match raw with
  | Nil | HashNode _ => raw
  | _ => if (length (blob raw) <? 32)%nat && negb force then raw else HashNode (keccak256 (blob raw))
  end.

Definition compact (k : list Z) : list Z := default [] (hexToCompact k).

(** The collapsed form of a node: compact key, references to the children. *)
Fixpoint mraw (n : node) : node :=
  match n with
  | ShortNode k c _ =>
      ShortNode (compact k)
        (match c with ValueNode _ => c | _ => collapse_ref false (mraw c) end) no_flag
  | FullNode ch _ =>
      FullNode (take 16 (map (fun c => collapse_ref false (mraw c)) ch) ++ drop 16 (map erase ch)) no_flag
  | n => n
  end.

Definition mref (force : bool) (n : node) : node := collapse_ref force (mraw n).

(** The Merkle root of a node. *)
Definition merkle_root (n : node) : list Z :=
  match mref true n with Nil => emptyRoot | HashNode h => BytesToHash h | _ => [] end.

(** Flags do not matter. *)
Lemma node_rval_erase n : node_rval (erase n) = node_rval n.
Proof.
  induction n as [|v|k c f IH|ch f IH|h] using node_nested_ind; simpl; try done; [by rewrite IH|].
  do 2 f_equal. rewrite map_map. apply map_ext_Forall. eapply Forall_impl; [exact IH|].
  intros c Hc. simpl. rewrite Hc. by destruct c.
Qed.

Lemma erase_idemp n : erase (erase n) = erase n.
Proof.
  induction n as [|v|k c f IH|ch f IH|h] using node_nested_ind; simpl; try done; [by rewrite IH|].
  f_equal. rewrite map_map. by apply map_ext_Forall.
Qed.

Lemma mraw_erase n : mraw (erase n) = mraw n.
Proof.
  induction n as [|v|k c f IH|ch f IH|h] using node_nested_ind; simpl; try done.
  - f_equal. destruct c; cbn [erase] in *; try done; by rewrite IH.
  - f_equal. rewrite !map_map. f_equal; f_equal; apply map_ext_Forall.
    + eapply Forall_impl; [exact IH|]. intros c Hc. simpl. by rewrite Hc.
    + apply Forall_true. intros c. apply erase_idemp.
Qed.

Lemma collapse_ref_erased force n : erase n = n -> erase (collapse_ref force n) = collapse_ref force n.
Proof. intros Hn. unfold collapse_ref. destruct n; try done; case_match; done. Qed.

Lemma mraw_erased n : erase (mraw n) = mraw n.
Proof.
  induction n as [|v|k c f IH|ch f IH|h] using node_nested_ind; simpl; try done.
  - f_equal. destruct c; try done; by apply collapse_ref_erased.
  - f_equal. rewrite map_app, <- firstn_map, <- skipn_map, !map_map. f_equal; f_equal; apply map_ext_Forall.
    + eapply Forall_impl; [exact IH|]. intros c Hc. simpl. by apply collapse_ref_erased.
    + apply Forall_true. intros c. apply erase_idemp.
Qed.

Lemma mref_erased force n : erase (mref force n) = mref force n.
Proof. apply collapse_ref_erased, mraw_erased. Qed.

Lemma mref_erase force n : mref force (erase n) = mref force n.
Proof. unfold mref. by rewrite mraw_erase. Qed.

Lemma blob_erase n : blob (erase n) = blob n.
Proof. unfold blob. by rewrite node_rval_erase. Qed.

(** The item a node is encoded as. *)
Fixpoint node_item (n : node) : item :=
  match n with
  | Nil => Lst []
  | ValueNode b | HashNode b => Str b
  | ShortNode k c _ => Lst [Str k; node_item c]
  | FullNode ch _ => Lst (map (fun c => if is_nil c then Str [] else node_item c) ch)
  end.

Lemma node_rval_item n : item_of (node_rval n) TInterface = Some (node_item n).
Proof.
  induction n as [|v|k c f IH|ch f IH|h] using node_nested_ind; try done.
  - simpl. by rewrite IH.
  - cbn [node_rval node_item]. etransitivity; [apply item_of_slice|]. rewrite map_map.
    assert (seq_items (map (fun c => (if is_nil c then VIface TBytes (VBytes []) else node_rval c, TInterface)) ch)
      = Some (map (fun c => if is_nil c then Str [] else node_item c) ch)) as ->; [|done].
    induction IH as [|c ch Hc _ IH]; [done|]. cbn [map seq_items]. rewrite IH.
    destruct c; cbn [is_nil]; rewrite ?Hc; done.
Qed.

Lemma Encode_blob n : Encode TInterface (node_rval n) = Ok (blob n).
Proof.
  unfold blob, Encode. destruct (writer_writable _ _ eb_reset _ (node_rval_item n)) as (w & -> & _).
  done.
Qed.

(** ** Cache coherence *)

Section coherence.
Context (dbnode : list Z -> Z -> option node).

Definition cached_ok (force : bool) (n : node) : Prop :=
  forall h, fst (cache n) = Some h -> mref force n = HashNode h.

(** What a hash reference stands for has that hash. *)
Definition stored_ok (force : bool) (h : list Z) : Prop :=
  forall g n, dbnode (BytesToHash h) g = Some n -> mref force n = HashNode h.

(** Every cached hash below a node is the reference to the node it is cached in. *)
Inductive coherent : node -> Prop :=
  | coh_nil : coherent Nil
  | coh_value v : coherent (ValueNode v)
  | coh_hash h : stored_ok false h -> coherent (HashNode h)
  | coh_short k c f :
      coherent c -> cached_ok false (ShortNode k c f) -> coherent (ShortNode k c f)
  | coh_full ch f :
      (forall i c, ch !! i = Some c -> coherent c) -> cached_ok false (FullNode ch f) ->
      coherent (FullNode ch f).

(** The same for a node hashed with [force]: the root of a trie is hashed even
    when it is short enough to be embedded. *)
Definition coherent_at (force : bool) (n : node) : Prop :=
  match n with
  | ShortNode _ c _ => coherent c /\ cached_ok force n
  | FullNode ch _ => (forall i c, ch !! i = Some c -> coherent c) /\ cached_ok force n
  | HashNode h => stored_ok force h
  | _ => True
  end.

Lemma coherent_at_false n : coherent n <-> coherent_at false n.
Proof. split; [by inversion 1|]. destruct n; simpl; try (intros [??]); by constructor. Qed.

Lemma mref_force n h : mref false n = HashNode h -> mref true n = HashNode h.
Proof.
  unfold mref, collapse_ref. destruct (mraw n); try done; rewrite andb_true_r, andb_false_r; by case_match.
Qed.

Lemma coherent_at_true n : coherent n -> coherent_at true n.
Proof.
  unfold cached_ok. destruct 1; simpl; unfold cached_ok; eauto using mref_force.
  intros g n Hn. eauto using mref_force.
Qed.

Lemma hexToCompact_total k : exists c, hexToCompact k = Some c.
Proof.
  assert (forall n l, length l = (2 * n)%nat -> exists c, decodeNibbles l = Some c) as Hd.
  { induction n as [|n IH]; intros [|a [|b l]] Hl; simpl in *; try lia; eauto.
    destruct (IH l) as [c ->]; [lia|]. simpl. eauto. }
  assert (forall l, Nat.odd (length l) = false -> exists c, decodeNibbles l = Some c) as Hd'.
  { intros l Hl. rewrite <- Nat.negb_even in Hl. apply negb_false_iff, Nat.even_spec in Hl as [m Hm].
    by apply (Hd m). }
  unfold hexToCompact. generalize (if hasTerm k then take (length k - 1) k else k). intros l.
  destruct (Nat.odd (length l)) eqn:Ho.
  - destruct l as [|x l]; [done|]. simpl length in Ho. rewrite Nat.odd_succ, <- Nat.negb_odd in Ho.
    destruct (Hd' l) as [c ->]; [by destruct (Nat.odd (length l))|]. simpl. eauto.
  - destruct (Hd' l Ho) as [c ->]. simpl. eauto.
Qed.

Definition is_ref (n : node) : bool := match n with Nil | HashNode _ => true | _ => false end.

Definition embeds (force : bool) (n : node) : bool := (length (blob n) <? 32)%nat && negb force.

Lemma collapse_ref_plain force n :
  is_ref n = false ->
  collapse_ref force n = if embeds force n then n else HashNode (keccak256 (blob n)).
Proof. by destruct n. Qed.

Lemma store_plain commit ol n force :
  is_ref n = false ->
  exists ev, (commit = false -> ev = []) /\
    store commit ol n force =
    if embeds force n then Ok (n, [])
    else Ok (HashNode (default (keccak256 (blob n)) (fst (cache n))), ev).
Proof.
  intros Hn. eexists (if commit then _ else []). split; [by intros ->|].
  unfold store, embeds. rewrite Encode_blob. destruct n; done.
Qed.

Lemma is_ref_erase n : is_ref (erase n) = is_ref n.
Proof. by destruct n. Qed.

(** Storing a collapsed node whose cached hash, if any, is right. *)
Lemma store_spec commit ol c force :
  c <> Nil -> (forall h, fst (cache c) = Some h -> collapse_ref force (erase c) = HashNode h) ->
  exists hd ev, store commit ol c force = Ok (hd, ev) /\ erase hd = collapse_ref force (erase c) /\
    (commit = false -> ev = []).
Proof.
  intros Hn Hc. destruct (is_ref c) eqn:Hr; [destruct c; try done; by eexists _, _|].
  destruct (store_plain commit ol c force Hr) as (ev & Hev & ->).
  rewrite collapse_ref_plain in * by by rewrite is_ref_erase. unfold embeds in *. rewrite blob_erase in *.
  destruct (_ && _).
  - by exists c, [].
  - eexists _, ev. split; [done|]. split; [|done].
    destruct (fst (cache c)) as [h|]; simpl; [|done]. by rewrite (Hc h).
Qed.

Definition hash_slow (commit ol : bool) (g l : Z) (n : node) (force : bool) :=
  '(collapsed, cached, ev1) ← hashChildren_with (hash commit ol g l) n;
  '(hashed, ev2) ← store commit ol collapsed force;
  Ok (hashed, set_cached commit cached hashed, ev1 ++ ev2).

Lemma hash_unfold commit ol g l n force :
  hash commit ol g l n force =
  match cache n with
  | (Some h, dirty) =>
      if negb commit then Ok (HashNode h, n, [])
      else if canUnload n g l then Ok (HashNode h, HashNode h, [])
      else if negb dirty then Ok (HashNode h, n, [])
      else hash_slow commit ol g l n force
  | (None, _) => hash_slow commit ol g l n force
  end.
Proof. by destruct n. Qed.

(** What hashing without a database does to a node: the reference is the
    cache-free one and the node is kept up to its flags. *)
Definition hash_ok (h : node -> bool -> outcome trie_error (node * node * list db_event))
  (force : bool) (n : node) : Prop :=
  exists hd c, h n force = Ok (hd, c, []) /\ erase hd = mref force n /\ erase c = erase n /\
    coherent_at force c.

Lemma hash_loop_ok h ch i :
  Forall (fun c => c <> Nil -> hash_ok h false c) ch -> Forall coherent ch ->
  exists hs cs, hash_loop h ch i = Ok (hs, cs, []) /\
    map erase hs = take i (map (mref false) ch) ++ drop i (map erase ch) /\
    map erase cs = map erase ch /\ Forall coherent cs.
Proof.
  intros Hok Hcoh. revert i. induction Hok as [|c ch Hc _ IH]; intros i.
  { exists [], []. simpl. rewrite take_nil, drop_nil. by destruct i. }
  apply Forall_cons in Hcoh as [Hco Hcoh].
  destruct i as [|i]; [exists (c :: ch), (c :: ch); rewrite take_0, drop_0; auto|].
  destruct (IH Hcoh i) as (hs & cs & E & H1 & H2 & H3). simpl.
  destruct (decide (c = Nil)) as [->|Hn].
  - simpl. rewrite E. exists (Nil :: hs), (Nil :: cs). simpl. rewrite H1, H2. auto.
  - destruct (Hc Hn) as (hd & c' & Ec & Eh & Ec' & Hc'). assert (is_nil c = false) as -> by by destruct c.
    rewrite Ec. simpl. rewrite E. exists (hd :: hs), (c' :: cs). simpl.
    rewrite Eh, Ec', H1, H2. split_and!; try done. constructor; [by apply coherent_at_false|done].
Qed.

Definition children (n : node) : list node :=
  match n with ShortNode _ c _ => [c] | FullNode ch _ => ch | _ => [] end.

Lemma coherent_children force n : coherent_at force n -> Forall coherent (children n).
Proof.
  destruct n; simpl; intros Hc; [constructor|constructor| | |constructor].
  - apply Forall_singleton, Hc.
  - apply Forall_lookup, Hc.
Qed.

Lemma hashChildren_ok h n :
  Forall (fun c => c <> Nil -> hash_ok h false c) (children n) -> Forall coherent (children n) ->
  (forall k f, n <> ShortNode k Nil f) ->
  exists collapsed cached, hashChildren_with h n = Ok (collapsed, cached, []) /\
    erase collapsed = mraw n /\ erase cached = erase n /\ cache collapsed = cache n /\
    Forall coherent (children cached).
Proof.
  intros Hok Hcoh Hnil. destruct n as [|v|k c f|ch f|h']; unfold hashChildren_with; try by eexists _, _.
  - unfold compact. destruct (hexToCompact_total k) as [key Ek]. rewrite Ek. simpl or_panic.
    cbn [mbind outcome_bind]. simpl in Hok, Hcoh. rewrite Forall_singleton in Hok, Hcoh.
    assert ((exists v, c = ValueNode v) \/ forall v, c <> ValueNode v) as [[v ->]|Hv] by (destruct c; eauto).
    { eexists _, _. simpl. unfold compact. rewrite Ek. split_and!; try done. by repeat constructor. }
    assert (c <> Nil) as Hc0 by (intros ->; by eapply Hnil).
    destruct (Hok Hc0) as (hd & c' & E & Eh & Ec & Hc').
    eexists (ShortNode key hd f), (ShortNode k c' f). split.
    { destruct c; by rewrite E || destruct (Hv v). }
    simpl. unfold compact. rewrite Ek, Eh, Ec. split_and!; try done.
    { f_equal. destruct c; done || by destruct (Hv v). }
    constructor; [by apply coherent_at_false|constructor].
  - destruct (hash_loop_ok h ch 16 Hok Hcoh) as (hs & cs & -> & H1 & H2 & H3).
    eexists (FullNode hs f), (FullNode cs f). simpl. rewrite H1, H2. by split_and!.
Qed.

Lemma hash_step ol g l n force :
  Forall (fun c => c <> Nil -> hash_ok (hash false ol g l) false c) (children n) ->
  n <> Nil -> (forall k f, n <> ShortNode k Nil f) -> coherent_at force n ->
  hash_ok (hash false ol g l) force n.
Proof.
  intros Hok Hn Hs Hc. unfold hash_ok. rewrite hash_unfold.
  destruct (cache n) as [[h|] d] eqn:Ec.
  { simpl. eexists _, _. split; [done|]. split_and!; try done. symmetry.
    destruct n; simplify_eq/=; destruct Hc as [_ Hc]; apply Hc; simpl; congruence. }
  destruct (hashChildren_ok _ n Hok (coherent_children _ _ Hc) Hs) as (col & ca & E1 & E2 & E3 & E4 & E5).
  unfold hash_slow. rewrite E1. cbn [mbind outcome_bind].
  destruct (store_spec false ol col force) as (hd & ev & E6 & E7 & E8).
  { intros ->. destruct n; simplify_eq/=. }
  { rewrite E4, Ec. done. }
  rewrite E6. cbn [mbind outcome_bind]. rewrite (E8 eq_refl), E2 in *. fold (mref force n) in E7.
  assert (erase (set_cached false ca hd) = erase n) as E9 by (rewrite <- E3; by destruct ca).
  eexists _, _. split; [done|]. split_and!; [done|done|].
  assert (cached_ok force (set_cached false ca hd)) as Hco.
  { intros h Hh. rewrite <- (mref_erase force (set_cached _ _ _)), E9, mref_erase, <- E7.
    destruct ca; simplify_eq/=; by destruct hd; simplify_eq. }
  destruct ca; simpl in *; [done|done| | |destruct n; simplify_eq/=; done]; (split; [|done]).
  - by rewrite Forall_singleton in E5.
  - by apply Forall_lookup.
Qed.

(** Short nodes of a trie have a child. *)
Fixpoint no_nil_short (n : node) : bool :=
  match n with
  | ShortNode _ c _ => negb (is_nil c) && no_nil_short c
  | FullNode ch _ => forallb no_nil_short ch
  | _ => true
  end.

Lemma no_nil_short_children n : no_nil_short n = true -> Forall (fun c => no_nil_short c = true) (children n).
Proof.
  destruct n as [|v|k c f|ch f|h]; simpl; try done.
  - intros [_ ?]%andb_true_iff. by constructor.
  - intros Hf. apply Forall_forall. intros c Hc. rewrite forallb_forall in Hf.
    by apply Hf, list_elem_of_In.
Qed.

Lemma no_nil_short_top n k f : no_nil_short n = true -> n <> ShortNode k Nil f.
Proof. by intros Hn ->. Qed.

Lemma hash_child_ok ol g l n :
  no_nil_short n = true -> coherent n -> n <> Nil -> hash_ok (hash false ol g l) false n.
Proof.
  induction n as [|v|k c f IH|ch f IH|h] using node_nested_ind; intros Hs Hc Hn.
  all: apply hash_step; eauto using no_nil_short_top; try (by apply coherent_at_false).
  all: apply coherent_at_false, coherent_children in Hc; apply no_nil_short_children in Hs; simpl in *.
  - rewrite Forall_singleton in Hc, Hs |- *. auto.
  - rewrite !Forall_forall in *. intros c Hin. auto.
Qed.

Lemma hash_root_ok ol g l n :
  no_nil_short n = true -> coherent_at true n -> n <> Nil -> hash_ok (hash false ol g l) true n.
Proof.
  intros Hs Hc Hn. apply hash_step; eauto using no_nil_short_top.
  apply coherent_children in Hc. apply no_nil_short_children in Hs.
  rewrite !Forall_forall in *. eauto using hash_child_ok.
Qed.
End coherence.
End trie_hash.
