(* ===== verification/TrieMerkle.v ===== *)
(** * The Merkle root of a trie

    Every trie operation keeps the cached hashes coherent, a trie that is partly
    in the database has the root hash of its fully loaded form, and the root
    hash is a function of the represented map. *)

From S2P Require Import Prelude Common TrieEncoding Trie TrieSpec TrieMap TrieCanon Rlp Sha3 TrieHash.

Section coherence.
Context `{Keccak} (dbnode : list Z -> Z -> option node).

(** The nodes of a coherent database are short or full nodes whose cached
    hashes are right; the node itself was stored with [force]. *)
Definition db_coherent : Prop :=
  forall h g n, dbnode h g = Some n -> coherent_at dbnode true n /\ children n <> [].

Lemma cached_ok_none force n : fst (cache n) = None -> cached_ok force n.
Proof. intros E h. congruence. Qed.

Context (Hdb : db_coherent).

Lemma resolve_coherent force h g n :
  coherent_at dbnode force (HashNode h) -> dbnode (BytesToHash h) g = Some n ->
  coherent_at dbnode force n /\ mref force n = HashNode h /\ children n <> [].
Proof.
  intros Hc Hn. simpl in Hc. pose proof (Hc _ _ Hn) as Hr. destruct (Hdb _ _ _ Hn) as [Hd Hch].
  split_and!; [|done|done].
  assert (cached_ok true n -> cached_ok force n) as Hok.
  { intros Hk h' Eh. rewrite Hr. f_equal. destruct force; [specialize (Hk h' Eh); congruence|].
    apply mref_force in Hr. specialize (Hk h' Eh). congruence. }
  destruct n; simpl in *; try done; naive_solver.
Qed.

Lemma coherent_at_child force ch f i c :
  coherent_at dbnode force (FullNode ch f) -> child ch i = Some c -> coherent dbnode c.
Proof. intros [Hc _]. unfold child. case_bool_decide; [|done]. apply Hc. Qed.

Lemma coherent_set_child ch i m ch' :
  (forall j c, ch !! j = Some c -> coherent dbnode c) -> coherent dbnode m ->
  set_child ch i m = Some ch' -> forall j c, ch' !! j = Some c -> coherent dbnode c.
Proof.
  intros Hc Hm. unfold set_child. case_bool_decide; [|done]. intros [= <-] j c.
  rewrite list_lookup_insert_Some. naive_solver.
Qed.

Lemma coherent_no_children j c : no_children !! j = Some c -> coherent dbnode c.
Proof. intros [-> _]%lookup_replicate_1. constructor. Qed.

Lemma coherent_short force k c g :
  coherent dbnode c -> coherent_at dbnode force (ShortNode k c (newFlag g)).
Proof. intros Hc. split; [done|]. by apply cached_ok_none. Qed.

Lemma coherent_full force ch g :
  (forall j c, ch !! j = Some c -> coherent dbnode c) -> coherent_at dbnode force (FullNode ch (newFlag g)).
Proof. intros Hc. split; [done|]. by apply cached_ok_none. Qed.

Lemma resolveHash_inv g h p n :
  resolveHash dbnode g h p = Ok n -> dbnode (BytesToHash h) g = Some n.
Proof. unfold resolveHash. destruct (dbnode _ _); naive_solver. Qed.

(** ** Lookup *)

Definition is_value (n : node) : bool := match n with ValueNode _ => true | _ => false end.

(** A slot of a canonical trie. *)
Definition wf_slot (g : Z) (n : node) : Prop := n = Nil \/ is_value n = true \/ wf dbnode g n.

(** The node returned by a lookup is the node itself, or a further loaded one
    with the same reference. *)
Definition reloaded (force : bool) (n n' : node) (d : bool) : Prop :=
  if d then is_value n = false /\ is_value n' = false /\ coherent_at dbnode force n' /\
            mref force n' = mref force n
  else n' = n.

Lemma mraw_short_child k c c' f f' :
  is_value c = false -> is_value c' = false -> mref false c' = mref false c ->
  mraw (ShortNode k c' f') = mraw (ShortNode k c f).
Proof.
  unfold mref. intros H1 H2 E. simpl. f_equal.
  destruct c, c'; simpl in *; congruence.
Qed.

Lemma mraw_full_child ch i c c' f f' :
  (i < 16)%nat -> ch !! i = Some c -> mref false c' = mref false c ->
  mraw (FullNode (<[i := c']> ch) f') = mraw (FullNode ch f).
Proof.
  intros Hi Hc E. unfold mref in E. simpl. f_equal. f_equal.
  - f_equal. rewrite list_fmap_insert. simpl. rewrite E. apply list_insert_id.
    rewrite list_lookup_fmap, Hc. done.
  - rewrite list_fmap_insert, drop_insert_lt by lia. done.
Qed.

Lemma reloaded_short force k c c' f g :
  coherent_at dbnode force (ShortNode k c f) -> reloaded false c c' true ->
  reloaded force (ShortNode k c f) (ShortNode k c' (NodeFlag (flag_hash f) g (flag_dirty f))) true.
Proof.
  intros [Hc Hk] (V1 & V2 & C1 & R1). simpl. split_and!; try done.
  - by apply coherent_at_false.
  - intros h Hh. simpl in Hh. rewrite <- (Hk h Hh). unfold mref. f_equal. by apply mraw_short_child.
  - unfold mref. f_equal. by apply mraw_short_child.
Qed.

Lemma reloaded_full force ch i c c' f g :
  (i < 16)%nat -> ch !! i = Some c ->
  coherent_at dbnode force (FullNode ch f) -> reloaded false c c' true ->
  reloaded force (FullNode ch f) (FullNode (<[i := c']> ch) (NodeFlag (flag_hash f) g (flag_dirty f))) true.
Proof.
  intros Hi Hch [Hc Hk] (V1 & V2 & C1 & R1). simpl. split_and!; try done.
  - intros j d. rewrite list_lookup_insert_Some. intros [(-> & <- & _)|[_ ?]]; [|eauto].
    by apply coherent_at_false.
  - intros h Hh. simpl in Hh. rewrite <- (Hk h Hh). unfold mref. f_equal. by eapply mraw_full_child.
  - unfold mref. f_equal. by eapply mraw_full_child.
Qed.

(** The slots of a branch, and the terminator slot in particular. *)
Lemma wf_full_slot g ch f i c :
  wf dbnode g (FullNode ch f) -> ch !! i = Some c ->
  wf_slot g c /\ ((i < 16)%nat \/ c = Nil \/ is_value c = true).
Proof.
  inversion 1 as [| |? ? Hlen Hch H16 _|]; subst. intros Hc.
  destruct (nil_dec c) as [->|Hn]; [split; [by left|auto]|].
  destruct (decide (i < 16)%nat) as [?|?]; [split; [right; right; eauto|by left]|].
  assert (i = 16%nat) as -> by (apply lookup_lt_Some in Hc; lia).
  destruct (H16 _ Hc Hn) as (v & _ & ->). split; [right; by left|auto].
Qed.

Lemma tryGet_coherent g fuel : forall force n key pos v n' d,
  wf_slot g n -> coherent_at dbnode force n ->
  tryGet dbnode g fuel n key pos = Ok (v, n', d) -> reloaded force n n' d.
Proof.
  induction fuel as [|fuel IH]; intros force n key pos v n' d Hw Hc E; [done|].
  destruct n as [|w|k c f|ch f|h]; cbn [tryGet] in E; [by inv_ok|by inv_ok| | |].
  - case_match; [by inv_ok|]. inv_ok. destruct a as [[v1 c'] [|]]; inv_ok; [|done].
    destruct Hw as [?|[?|Hw]]; [done|done|].
    assert (wf_slot g c) as Hwc by (inversion Hw; subst; [right; by left|by right; right]).
    apply reloaded_short; [done|]. eapply IH; [done| |done]. by apply coherent_at_false; destruct Hc.
  - inv_ok. destruct a1 as [[v1 c'] [|]]; inv_ok; [|done].
    pose proof (coherent_at_child _ _ _ _ _ Hc E1) as Hcc. apply coherent_at_false in Hcc.
    destruct Hw as [?|[?|Hw]]; [done|done|].
    unfold child in E1. case_bool_decide as Hi; [|done].
    unfold set_child in E3. case_bool_decide as Hi'; [|done]. injection E3 as <-.
    destruct (wf_full_slot _ _ _ _ _ Hw E1) as [Hwc Hsl].
    pose proof (IH _ _ _ _ _ _ _ Hwc Hcc E2) as Hrel. eapply reloaded_full; [|done|done|done].
    destruct Hsl as [?|[->|?]]; [done| |by destruct Hrel; congruence].
    by destruct fuel; simplify_eq/=.
  - inv_ok. apply resolveHash_inv in E0. destruct (resolve_coherent _ _ _ _ Hc E0) as (C1 & R1 & Hch).
    destruct a0 as [[v1 c'] d']. inv_ok. destruct Hw as [?|[?|Hw]]; [done|done|].
    inversion Hw as [| | |? ? Hr _ Hwn]; subst. simplify_eq.
    pose proof (IH _ _ _ _ _ _ _ (or_intror (or_intror Hwn)) C1 E1) as Hrel.
    destruct d'; simpl in *; [|subst n'].
    + destruct Hrel as (_ & V2 & C2 & R2). rewrite R2, R1. done.
    + split_and!; try done. by destruct a.
Qed.

(** ** Insertion and deletion *)

Lemma coherent_any force n : coherent dbnode n -> coherent_at dbnode force n.
Proof. destruct force; [apply coherent_at_true|by rewrite coherent_at_false]. Qed.

Lemma insert_coherent g fuel : forall force n prefix key value d n',
  coherent_at dbnode force n -> coherent dbnode value ->
  trie_insert dbnode g fuel n prefix key value = Ok (d, n') -> coherent_at dbnode force n'.
Proof.
  induction fuel as [|fuel IH]; intros force n prefix key value d n' Hc Hv E; [done|].
  cbn [trie_insert] in E. destruct key as [|k0 krest].
  { assert (n' = value) as -> by (repeat case_match; by simplify_eq). by apply coherent_any. }
  destruct n as [|w|k c f|ch f|h].
  - inv_ok. by apply coherent_short.
  - done.
  - destruct Hc as [Hc Hk]. case_match.
    + inv_ok. destruct a as [[|] nn]; inv_ok; [|done]. apply coherent_short, coherent_at_false.
      eapply IH; [|done..]. by apply coherent_at_false.
    + inv_ok. destruct a0 as [d1 b1]. inv_ok. destruct a2 as [d2 b2]. inv_ok.
      assert (coherent_at dbnode false (FullNode a2 (newFlag g))) as Hfull.
      { apply coherent_full. eapply coherent_set_child; [|..|done].
        - eapply coherent_set_child; [apply coherent_no_children| |done].
          apply coherent_at_false. by eapply (IH false Nil _ _ c); [exact I| |exact E1].
        - apply coherent_at_false. by eapply (IH false Nil _ _ value); [exact I| |exact E4]. }
      apply coherent_at_false in Hfull.
      match goal with E : (if ?b then _ else _) = Ok _ |- _ => destruct b end; inv_ok; [by apply coherent_any|by apply coherent_short].
  - inv_ok. destruct a0 as [[|] nn]; inv_ok; [|done].
    apply coherent_full. eapply coherent_set_child; [apply Hc| |done].
    apply coherent_at_false. eapply IH; [|done..]. apply coherent_at_false. by eapply coherent_at_child.
  - inv_ok. apply resolveHash_inv in E0. destruct (resolve_coherent _ _ _ _ Hc E0) as (C1 & _ & _).
    destruct a0 as [[|] nn]; inv_ok; [|done]. eauto.
Qed.

Lemma delete_coherent g fuel : forall force n prefix key d n',
  coherent_at dbnode force n ->
  trie_delete dbnode g fuel n prefix key = Ok (d, n') -> coherent_at dbnode force n'.
Proof.
  induction fuel as [|fuel IH]; intros force n prefix key d n' Hc E; [done|].
  cbn [trie_delete] in E. destruct n as [|w|k c f|ch f|h]; [by inv_ok|by inv_ok| | |].
  - case_match; [by inv_ok|]. case_match; [by inv_ok|]. inv_ok.
    destruct a as [[|] nn]; inv_ok; [|done]. destruct Hc as [Hc%coherent_at_false _].
    pose proof (IH _ _ _ _ _ _ Hc E0) as Hnn.
    destruct nn; inv_ok; apply coherent_short; try (by apply coherent_at_false). apply Hnn.
  - inv_ok. destruct a1 as [[|] nn]; inv_ok; [|done].
    pose proof (coherent_at_child _ _ _ _ _ Hc E1) as Hcc%coherent_at_false.
    pose proof (IH _ _ _ _ _ _ Hcc E2) as Hnn%coherent_at_false.
    assert (forall j c, a1 !! j = Some c -> coherent dbnode c) as Hch.
    { eapply coherent_set_child; [apply Hc|done|done]. }
    case_bool_decide; inv_ok; [|by apply coherent_full].
    assert (coherent dbnode a2) as Honly.
    { unfold child in E4. destruct (bool_decide _) in E4; [eauto|done]. }
    case_bool_decide; inv_ok; [|by apply coherent_short].
    assert (coherent dbnode a3) as H3.
    { destruct a2; simpl in E5; inv_ok; try done. apply resolveHash_inv in E5.
      apply coherent_at_false in Honly. destruct (resolve_coherent _ _ _ _ Honly E5) as (C1 & _).
      by apply coherent_at_false. }
    destruct a3; inv_ok; apply coherent_short; try done. by inversion H3.
  - inv_ok. apply resolveHash_inv in E0. destruct (resolve_coherent _ _ _ _ Hc E0) as (C1 & _ & _).
    destruct a0 as [[|] nn]; inv_ok; [|done]. eauto.
Qed.

(** ** Loading a trie completely *)

(** [n'] is [n] with every hash reference resolved. *)
Record loaded (g : Z) (n n' : node) : Prop := {
  ld_wf : wf no_db 0 n';
  ld_branch : branch dbnode g n -> branch no_db 0 n';
  ld_has k v : has dbnode g n k v <-> has no_db 0 n' k v;
  ld_ref force : coherent_at dbnode force n -> mref force n' = mref force n;
  ld_raw force : coherent_at dbnode force n -> is_ref n = false -> mraw n' = mraw n
}.

Definition loaded_slot (g : Z) (c c' : node) : Prop :=
  (c = Nil /\ c' = Nil) \/ (exists v, v <> [] /\ c = ValueNode v /\ c' = ValueNode v) \/
  (loaded g c c' /\ c <> Nil /\ is_value c = false).

Lemma loaded_slot_has g c c' k v :
  loaded_slot g c c' -> has dbnode g c k v <-> has no_db 0 c' k v.
Proof.
  intros [[-> ->]|[(w & _ & -> & ->)|[Hl _]]].
  - split; by intros ?%has_nil.
  - by rewrite !has_value_iff.
  - apply (ld_has _ _ _ Hl).
Qed.

Lemma loaded_slot_ref g c c' :
  loaded_slot g c c' -> coherent dbnode c -> mref false c' = mref false c.
Proof.
  intros [[-> ->]|[(w & _ & -> & ->)|[Hl _]]] Hc; [done|done|].
  by apply (ld_ref _ _ _ Hl), coherent_at_false.
Qed.

Lemma mraw_full_pointwise ch ch' f f' :
  length ch' = length ch ->
  (forall i c c', (i < 16)%nat -> ch !! i = Some c -> ch' !! i = Some c' -> mref false c' = mref false c) ->
  (forall i c c', (16 <= i)%nat -> ch !! i = Some c -> ch' !! i = Some c' -> erase c' = erase c) ->
  mraw (FullNode ch' f') = mraw (FullNode ch f).
Proof.
  intros Hlen H1 H2. simpl. f_equal. f_equal.
  - apply list_eq. intros i. destruct (decide (i < 16)%nat) as [Hlt|Hge].
    + rewrite !lookup_take_lt, !list_lookup_fmap by done.
      destruct (ch !! i) as [c|] eqn:E, (ch' !! i) as [c'|] eqn:E'; simpl; try done.
      * f_equal. by eapply H1.
      * apply lookup_lt_Some in E. apply lookup_ge_None in E'. lia.
      * apply lookup_lt_Some in E'. apply lookup_ge_None in E. lia.
    + by rewrite !lookup_take_ge by lia.
  - apply list_eq. intros i. rewrite !lookup_drop, !list_lookup_fmap.
    destruct (ch !! (16 + i)%nat) as [c|] eqn:E, (ch' !! (16 + i)%nat) as [c'|] eqn:E'; simpl; try done.
    + f_equal. eapply (H2 (16 + i)%nat); [lia|done|done].
    + apply lookup_lt_Some in E. apply lookup_ge_None in E'. lia.
    + apply lookup_lt_Some in E'. apply lookup_ge_None in E. lia.
Qed.

(** Loading the children one by one. *)
Lemma load_children g (ch : list node) :
  (forall i c, ch !! i = Some c -> exists c', loaded_slot g c c') ->
  exists ch', Forall2 (loaded_slot g) ch ch'.
Proof.
  induction ch as [|c ch IH]; intros Hc; [exists []; constructor|].
  destruct (Hc 0%nat c eq_refl) as [c' Hc']. destruct IH as [ch' IH].
  - intros i d Hd. apply (Hc (S i) d Hd).
  - exists (c' :: ch'). by constructor.
Qed.

Lemma loaded_slot_nil g c c' : loaded_slot g c c' -> c' = Nil <-> c = Nil.
Proof.
  intros [[-> ->]|[(w & _ & -> & ->)|(Hl & Hn & _)]]; [done|done|].
  split; [|done]. intros ->. by apply ld_wf, wf_not_nil in Hl.
Qed.

Lemma load_slot g ch f i c :
  wf dbnode g (FullNode ch f) -> ch !! i = Some c ->
  (c <> Nil -> (i < 16)%nat -> exists c', loaded g c c') -> exists c', loaded_slot g c c'.
Proof.
  inversion 1 as [| |? ? Hlen Hch H16 _|]; subst. intros Hc IH.
  destruct (nil_dec c) as [->|Hn]; [exists Nil; by left|].
  destruct (decide (i < 16)%nat) as [Hi|Hi].
  - destruct (IH Hn Hi) as [c' Hc']. exists c'. right; right. split_and!; [done|done|].
    pose proof (Hch _ _ Hi Hc Hn) as Hw. destruct c; try done. by destruct (wf_not_value _ _ _ v Hw).
  - assert (i = 16%nat) as -> by (apply lookup_lt_Some in Hc; lia).
    destruct (H16 _ Hc Hn) as (v & Hv & ->). exists (ValueNode v). right; left. eauto.
Qed.

Lemma loaded_full_wf g ch ch' f :
  wf dbnode g (FullNode ch f) -> Forall2 (loaded_slot g) ch ch' -> wf no_db 0 (FullNode ch' no_flag).
Proof.
  inversion 1 as [| |? ? Hlen Hch H16 (i & j & a & b & Hij & Hi & Hj & Ha & Hb)|]; subst. intros HF.
  constructor.
  - by rewrite <- (Forall2_length _ _ _ HF).
  - intros l c' Hl Hc' Hn. destruct (Forall2_lookup_r _ _ _ _ _ HF Hc') as (c & Hc & Hs).
    assert (c <> Nil) as Hcn by (rewrite (loaded_slot_nil _ _ _ Hs) in Hn; done).
    destruct Hs as [[-> ->]|[(w & _ & -> & ->)|[Hld _]]]; [done| |apply (ld_wf _ _ _ Hld)].
    by destruct (wf_not_value _ _ _ w (Hch _ _ Hl Hc Hcn)).
  - intros c' Hc' Hn. destruct (Forall2_lookup_r _ _ _ _ _ HF Hc') as (c & Hc & Hs).
    destruct Hs as [[-> ->]|[(w & Hw & -> & ->)|(Hld & Hcn & Hv)]]; [done|eauto|].
    by destruct (H16 _ Hc Hcn) as (v & _ & ->).
  - destruct (Forall2_lookup_l _ _ _ _ _ HF Hi) as (a' & Ha' & Sa).
    destruct (Forall2_lookup_l _ _ _ _ _ HF Hj) as (b' & Hb' & Sb).
    exists i, j, a', b'. rewrite (loaded_slot_nil _ _ _ Sa), (loaded_slot_nil _ _ _ Sb). done.
Qed.

Lemma loaded_full_raw g ch ch' f :
  wf dbnode g (FullNode ch f) -> Forall2 (loaded_slot g) ch ch' ->
  (forall i c, ch !! i = Some c -> coherent dbnode c) -> mraw (FullNode ch' no_flag) = mraw (FullNode ch f).
Proof.
  intros Hw HF Hch. apply mraw_full_pointwise.
  - by rewrite (Forall2_length _ _ _ HF).
  - intros i c c' _ Hc Hc'. pose proof (Forall2_lookup_lr _ _ _ _ _ _ HF Hc Hc').
    eapply loaded_slot_ref; eauto.
  - intros i c c' Hi Hc Hc'. destruct (Forall2_lookup_lr _ _ _ _ _ _ HF Hc Hc') as
      [[-> ->]|[(w & _ & -> & ->)|(_ & Hcn & Hv)]]; [done|done|].
    destruct (wf_full_slot _ _ _ _ _ Hw Hc) as [_ [?|[?|?]]]; [lia|done|congruence].
Qed.

Lemma loaded_short_raw g k c c' f :
  wf dbnode g c -> loaded g c c' -> coherent dbnode c -> mraw (ShortNode k c' no_flag) = mraw (ShortNode k c f).
Proof.
  intros Hw Hl Hc. apply mraw_short_child.
  - destruct c; try done. by destruct (wf_not_value _ _ _ v Hw).
  - pose proof (ld_wf _ _ _ Hl) as Hw'. destruct c'; try done. by destruct (wf_not_value _ _ _ v Hw').
  - by apply (ld_ref _ _ _ Hl), coherent_at_false.
Qed.

Lemma loaded_full g ch ch' f :
  wf dbnode g (FullNode ch f) -> Forall2 (loaded_slot g) ch ch' ->
  loaded g (FullNode ch f) (FullNode ch' no_flag).
Proof.
  intros Hw HF. constructor.
  - by eapply loaded_full_wf.
  - intros _. constructor.
  - intros k v. rewrite !has_full_iff. split.
    + intros (i & c & k' & -> & Hc & Hh). destruct (Forall2_lookup_l _ _ _ _ _ HF Hc) as (c' & Hc' & Hs).
      exists i, c', k'. by rewrite <- (loaded_slot_has _ _ _ _ _ Hs).
    + intros (i & c' & k' & -> & Hc' & Hh). destruct (Forall2_lookup_r _ _ _ _ _ HF Hc') as (c & Hc & Hs).
      exists i, c, k'. by rewrite (loaded_slot_has _ _ _ _ _ Hs).
  - intros force [Hch _]. unfold mref. f_equal. by eapply loaded_full_raw.
  - intros force [Hch _] _. by eapply loaded_full_raw.
Qed.

(** Every canonical trie over a coherent database has a fully loaded form. *)
Lemma wf_load g n : wf dbnode g n -> exists n', loaded g n n'.
Proof.
  induction 1 as [k v f Hk Hv|k c f Hk Hne Hb Hw [c' Hc']|ch f Hlen Hch IH H16 Hne|h n Hr Hnh Hw [n' Hn']].
  - exists (ShortNode (k ++ [terminator]) (ValueNode v) no_flag). constructor.
    + by constructor.
    + inversion 1.
    + intros key w. by rewrite !has_leaf_iff.
    + done.
    + done.
  - exists (ShortNode k c' no_flag). constructor.
    + constructor; [done|done|by apply (ld_branch _ _ _ Hc')|by apply (ld_wf _ _ _ Hc')].
    + inversion 1.
    + intros key w. rewrite !has_short_iff. by setoid_rewrite (ld_has _ _ _ Hc').
    + intros force [Hcc _]. unfold mref. f_equal. by eapply loaded_short_raw.
    + intros force [Hcc _] _. by eapply loaded_short_raw.
  - assert (wf dbnode g (FullNode ch f)) as Hwf by by constructor.
    destruct (load_children g ch) as [ch' HF]; [|eexists; by apply loaded_full].
    intros i c Hc. eapply load_slot; [done|done|]. eauto.
  - exists n'. constructor.
    + apply (ld_wf _ _ _ Hn').
    + inversion 1 as [|? ? ? Hr']; subst. apply (ld_branch _ _ _ Hn'). rewrite Hr in Hr'. simplify_eq. constructor.
    + intros key w. rewrite (has_hash_iff _ _ _ _ _ _ Hr). apply (ld_has _ _ _ Hn').
    + intros force Hc. destruct (resolve_coherent _ _ _ _ Hc Hr) as (C1 & R1 & _).
      rewrite (ld_ref _ _ _ Hn' _ C1), R1. done.
    + done.
Qed.

(** ** Hashing a trie *)

Lemma has_erase g n k v : has dbnode g (erase n) k v <-> has dbnode g n k v.
Proof.
  revert k v. induction n as [|w|p c f IH|ch f IH|h] using node_nested_ind; intros k v; simpl; try done.
  - rewrite !has_short_iff. by setoid_rewrite IH.
  - rewrite !has_full_iff. rewrite Forall_lookup in IH. split.
    + intros (i & c' & k' & -> & Hc' & Hh). rewrite list_lookup_fmap in Hc'.
      apply fmap_Some in Hc' as (c & Hc & ->). exists i, c, k'. by rewrite <- (IH i c Hc).
    + intros (i & c & k' & -> & Hc & Hh). exists i, (erase c), k'.
      by rewrite list_lookup_fmap, Hc, (IH i c Hc).
Qed.

Lemma branch_erase g n : branch dbnode g (erase n) <-> branch dbnode g n.
Proof. destruct n; simpl; try done; split; inversion 1; constructor. Qed.

Lemma erase_nil c : erase c = Nil <-> c = Nil.
Proof. by destruct c. Qed.

Lemma wf_erase g n : wf dbnode g n -> wf dbnode g (erase n).
Proof.
  induction 1 as [k v f Hk Hv|k c f Hk Hne Hb Hw IH|ch f Hlen Hch IH H16 (i & j & a & b & Hij & Hi & Hj & Ha & Hb)|h n Hr Hnh Hw IH]; simpl.
  - by constructor.
  - constructor; try done. by apply branch_erase.
  - constructor.
    + by rewrite length_map.
    + intros l c' Hl. rewrite list_lookup_fmap. intros (c & Hc & ->)%fmap_Some. rewrite erase_nil. eauto.
    + intros c'. rewrite list_lookup_fmap. intros (c & Hc & ->)%fmap_Some. rewrite erase_nil. intros Hn.
      destruct (H16 c Hc Hn) as (v & ? & ->). eauto.
    + exists i, j, (erase a), (erase b). rewrite !list_lookup_fmap, Hi, Hj, !erase_nil. done.
  - by econstructor.
Qed.

(** [wf] only looks at the shape. *)
Lemma wf_unerase g n : wf dbnode g (erase n) -> wf dbnode g n.
Proof.
  induction n as [|w|p c f IH|ch f IH|h] using node_nested_ind; simpl; try done.
  - inversion 1; subst.
    + destruct c; simplify_eq/=. by constructor.
    + constructor; auto. by apply branch_erase.
  - inversion 1 as [| |? ? Hlen Hch H16 (i & j & a & b & Hij & Hi & Hj & Ha & Hb)|]; subst.
    rewrite Forall_lookup in IH. constructor.
    + by rewrite length_map in Hlen.
    + intros l c Hl Hc Hn. apply (IH l c Hc), (Hch l); [done| |by rewrite erase_nil].
      by rewrite list_lookup_fmap, Hc.
    + intros c Hc Hn. destruct (H16 (erase c)) as (v & ? & E); [by rewrite list_lookup_fmap, Hc|by rewrite erase_nil|].
      exists v. split; [done|]. by destruct c.
    + rewrite list_lookup_fmap in Hi, Hj. apply fmap_Some in Hi as (a' & Hi & ->). apply fmap_Some in Hj as (b' & Hj & ->).
      rewrite erase_nil in Ha, Hb. by exists i, j, a', b'.
Qed.

Lemma wf_no_nil_short g n : wf dbnode g n -> no_nil_short n = true.
Proof.
  induction 1 as [k v f Hk Hv|k c f Hk Hne Hb Hw IH|ch f Hlen Hch IH H16 _|h n Hr Hnh Hw IH]; simpl; try done.
  - rewrite IH, andb_true_r. apply wf_not_nil in Hw. by destruct c.
  - apply forallb_forall. intros c [i Hc]%list_elem_of_In%list_elem_of_lookup.
    destruct (nil_dec c) as [->|Hn]; [done|].
    destruct (decide (i < 16)%nat) as [?|?]; [eauto|].
    assert (i = 16%nat) as -> by (apply lookup_lt_Some in Hc; lia).
    by destruct (H16 c Hc Hn) as (v & _ & ->).
Qed.

(** A trie that represents [m] with right cached hashes. *)
Record sound (t : Trie) (m : gmap (list Z) (list Z)) : Prop := {
  sound_rep : represents dbnode t m;
  sound_coh : coherent_at dbnode true (root t)
}.

Lemma mref_true_hash g n : wf dbnode g n -> exists h, mref true n = HashNode h.
Proof.
  intros Hw. unfold mref, collapse_ref. rewrite andb_false_r.
  destruct Hw; simpl; eauto.
Qed.

Lemma Hash_spec t m :
  sound t m ->
  exists t', Hash t = Ok (merkle_root (root t), t') /\ sound t' m /\
    cachegen t' = cachegen t /\ cachelimit t' = cachelimit t /\ tprefix t' = tprefix t /\
    erase (root t') = erase (root t).
Proof.
  intros [Hr Hc]. unfold Hash, hashRoot, merkle_root. destruct (rep_wf _ _ _ Hr) as [E|Hw].
  - rewrite E. simpl. eexists. split; [done|]. split_and!; try done. constructor; [|done].
    eapply represents_same; [done|done|by left|]. by rewrite E.
  - destruct (hash_root_ok dbnode false (cachegen t) (cachelimit t) (root t)) as (hd & c & E & Eh & Ec & Hcc).
    { by eapply wf_no_nil_short. } { done. } { by eapply wf_not_nil. }
    destruct (mref_true_hash _ _ Hw) as [h Hh]. rewrite Hh in *.
    assert (hd = HashNode h) as -> by by destruct hd; simplify_eq/=.
    exists (set_root t c). split.
    { destruct (root t) eqn:Ert; [by apply wf_not_nil in Hw|..]; rewrite E; done. }
    split_and!; try done. constructor; [|done]. eapply represents_same; [done|done|right|]; simpl.
    + apply wf_unerase. rewrite Ec. by apply wf_erase.
    + intros k v. by rewrite <- (has_erase _ c), Ec, has_erase.
Qed.

(** ** Operations keep a trie sound *)

Lemma TryGet_coherent t m k v t' :
  sound t m -> TryGet dbnode t k = Ok (v, t') -> coherent_at dbnode true (root t').
Proof.
  intros [Hr Hc] E. unfold TryGet in E. inv_ok. destruct a as [[v1 n'] [|]]; inv_ok; simpl in *; [|done].
  eapply (tryGet_coherent _ _ true) in E0; [by destruct E0 as (_ & _ & ? & _)| |done].
  destruct (rep_wf _ _ _ Hr) as [->|?]; [by left|by right; right].
Qed.

Lemma trie_step_sound t m o :
  sound t m -> bytes_ok (op_key o) ->
  exists t', trie_step dbnode t o = Ok ((map_step m o).1, t') /\ sound t' (map_step m o).2.
Proof.
  intros Hs Hk. destruct (trie_step_refines dbnode t m o) as (t' & E & Hr); [apply Hs|done|].
  exists t'. split; [done|]. constructor; [done|]. destruct o as [k|k v|k]; simpl in *.
  - by eapply TryGet_coherent.
  - inv_ok. destruct Hs as [_ Hc]. unfold TryUpdate in E0. destruct v as [|b v]; inv_ok;
      match goal with p : (bool * node)%type |- _ => destruct p as [d n'] end; inv_ok; simpl.
    + by eapply delete_coherent.
    + eapply insert_coherent; [done| |done]. constructor.
  - inv_ok. destruct Hs as [_ Hc]. unfold TryDelete in E0. inv_ok.
    match goal with p : (bool * node)%type |- _ => destruct p as [d n'] end; inv_ok; simpl.
    by eapply delete_coherent.
Qed.

Lemma trie_run_sound os : forall t m,
  sound t m -> Forall (fun o => bytes_ok (op_key o)) os ->
  exists t', trie_run dbnode t os = Ok ((map_run m os).1, t') /\ sound t' (map_run m os).2.
Proof.
  induction os as [|o os IH]; intros t m Hs Hk; [by exists t|].
  apply Forall_cons in Hk as [Hk Hks]. destruct (trie_step_sound t m o Hs Hk) as (t1 & E1 & Hs1).
  destruct (IH t1 _ Hs1 Hks) as (t2 & E2 & Hs2). exists t2. simpl. rewrite E1. simpl. rewrite E2.
  destruct (map_step m o) as [r m1]. simpl in *. destruct (map_run m1 os) as [rs m2]. done.
Qed.

(** The root hash of a sound trie is that of its fully loaded form. *)
Lemma sound_loaded t m :
  sound t m -> exists t0, represents no_db t0 m /\ merkle_root (root t0) = merkle_root (root t).
Proof.
  intros [Hr Hc]. destruct (rep_wf _ _ _ Hr) as [E|Hw].
  - exists (mkTrie Nil [] None 0 0). split; [|by rewrite E].
    assert (m = ∅) as ->; [|by apply represents_empty].
    apply map_empty. intros k. destruct (m !! k) as [v|] eqn:Em; [|done].
    assert (has dbnode (cachegen t) (root t) (keybytesToHex k) v) as Hh by (apply (rep_has _ _ _ Hr); eauto).
    rewrite E in Hh. by apply has_nil in Hh.
  - destruct (wf_load _ _ Hw) as [n' Hl]. exists (mkTrie n' [] None 0 0). split.
    + constructor; simpl; [right; apply (ld_wf _ _ _ Hl)|apply (rep_keys _ _ _ Hr)|].
      intros hk v. rewrite <- (ld_has _ _ _ Hl). apply (rep_has _ _ _ Hr).
    + unfold merkle_root. simpl. by rewrite (ld_ref _ _ _ Hl true Hc).
Qed.
End coherence.

Lemma no_db_coherent `{Keccak} : db_coherent no_db.
Proof. intros h g n Hn. discriminate Hn. Qed.

Section root_hash.
Context `{Keccak}.

(** Two sound tries of the same map, over any two databases, have the same root. *)
Lemma merkle_root_content d1 d2 t1 t2 m :
  db_coherent d1 -> db_coherent d2 -> sound d1 t1 m -> sound d2 t2 m ->
  merkle_root (root t1) = merkle_root (root t2).
Proof.
  intros H1 H2 S1 S2. destruct (sound_loaded _ H1 _ _ S1) as (l1 & R1 & <-).
  destruct (sound_loaded _ H2 _ _ S2) as (l2 & R2 & <-).
  unfold merkle_root. by rewrite <- (mref_erase true (root l1)), (represents_unique _ _ _ R1 R2), mref_erase.
Qed.

(** C19: safety.  The root hash is determined by the content: start
    from two tries with coherent caches, over any two coherent databases, each
    partly loaded in its own way; after any two sequences of lookups, updates and
    deletions that lead to the same bindings, [Hash] succeeds on both and returns
    the same root, whatever was cached, loaded, dirty or hashed before. *)
Theorem root_hash_content d1 d2 t1 t2 m1 m2 os1 os2 :
  db_coherent d1 -> db_coherent d2 -> sound d1 t1 m1 -> sound d2 t2 m2 ->
  Forall (fun o => bytes_ok (op_key o)) os1 -> Forall (fun o => bytes_ok (op_key o)) os2 ->
  (map_run m1 os1).2 = (map_run m2 os2).2 ->
  exists h r1 r2 u1 u2 v1 v2,
    trie_run d1 t1 os1 = Ok (r1, u1) /\ Hash u1 = Ok (h, v1) /\ sound d1 v1 (map_run m1 os1).2 /\
    trie_run d2 t2 os2 = Ok (r2, u2) /\ Hash u2 = Ok (h, v2) /\ sound d2 v2 (map_run m2 os2).2.
Proof.
  intros H1 H2 S1 S2 K1 K2 Em.
  destruct (trie_run_sound _ H1 os1 _ _ S1 K1) as (u1 & R1 & U1).
  destruct (trie_run_sound _ H2 os2 _ _ S2 K2) as (u2 & R2 & U2).
  destruct (Hash_spec _ _ _ U1) as (v1 & E1 & V1 & _). destruct (Hash_spec _ _ _ U2) as (v2 & E2 & V2 & _).
  rewrite (merkle_root_content d1 d2 u1 u2 (map_run m1 os1).2) in E1; [|done|done|done|by rewrite Em].
  by eexists _, _, _, u1, u2, v1, v2.
Qed.
End root_hash.

(** Two orders of operations that end with the same two bindings. *)
Definition insert_order1 : list trie_op :=
  [OpUpdate [1; 2] [7]; OpUpdate [1; 3] [8]; OpUpdate [2; 3] [9]; OpDelete [1; 2]].
Definition insert_order2 : list trie_op :=
  [OpUpdate [2; 3] [9]; OpUpdate [1; 3] [8]].

Lemma root_hash_content_witness :
  exists h r1 r2 u1 u2 v1 v2,
    trie_run no_db empty_trie insert_order1 = Ok (r1, u1) /\ @Hash sha3_keccak u1 = Ok (h, v1) /\
    trie_run no_db (mkTrie Nil emptyHash None 5 0) insert_order2 = Ok (r2, u2) /\
    @Hash sha3_keccak u2 = Ok (h, v2).
Proof.
  destruct (@root_hash_content sha3_keccak no_db no_db empty_trie (mkTrie Nil emptyHash None 5 0) ∅ ∅
    insert_order1 insert_order2) as (h & r1 & r2 & u1 & u2 & v1 & v2 & R1 & E1 & _ & R2 & E2 & _).
  - intros h g n Hn. discriminate Hn.
  - intros h g n Hn. discriminate Hn.
  - constructor; [by apply represents_empty|exact I].
  - constructor; [by apply represents_empty|exact I].
  - repeat constructor; lia.
  - repeat constructor; lia.
  - vm_compute. reflexivity.
  - by exists h, r1, r2, u1, u2, v1, v2.
Defined.
