(* ===== verification/TrieIter.v ===== *)
(** * Trie iterators ([src/trie/iterator.go], the prefix iterator of [src/trie/trie.go])

    [nodeIterator] walks a trie in pre-order with an explicit stack, loads hash
    nodes as it meets them, and can seek to a start key; [prefixIterator]
    restricts it to the keys with a prefix; [Iterator] stops at the leaves only.
    The stack is kept with its top first.  [seek] and [Iterator.Next] loop over
    the nodes of the trie and take fuel.

    The walk is specified by the list of nodes in pre-order ([visits]); seeking
    drops a prefix of that list, and the leaves of the list are the bindings of
    the map in key order ([iterate_entries]). *)

From S2P Require Import Prelude Common TrieEncoding Trie TrieSpec TrieMap TrieCanon Rlp Sha3 TrieHash TrieMerkle.

(** ** Iterator state *)

(** [nodeIteratorState] *)
Record nodeIteratorState := mkIterState {
  is_hash_of : list Z;
  is_node : node;
  is_parent : list Z;
  is_index : Z;
  is_pathlen : nat
}.

(** The values of the field [err]: the end of the iteration, an error while
    seeking, an error while stepping. *)
Inductive iter_error : Type :=
  | errIteratorEnd
  | seekError (key : list Z) (err : trie_error)
  | stepError (err : trie_error).

(** [nodeIterator]; [new(nodeIterator)] has no trie. *)
Record nodeIterator := mkNodeIterator {
  it_trie : option Trie;
  it_stack : list nodeIteratorState;
  it_path : list Z;
  it_err : option iter_error
}.

Definition set_err (it : nodeIterator) (e : option iter_error) : nodeIterator :=
  mkNodeIterator (it_trie it) (it_stack it) (it_path it) e.

Definition set_index (s : nodeIteratorState) (i : Z) : nodeIteratorState :=
  mkIterState (is_hash_of s) (is_node s) (is_parent s) i (is_pathlen s).

(** [bytes.Compare] *)
Fixpoint bytes_compare (a b : list Z) : comparison :=
  match a, b with
  | [], [] => Eq
  | [], _ => Lt
  | _, [] => Gt
  | x :: a, y :: b => match Z.compare x y with Eq => bytes_compare a b | c => c end
  end.

(** The hash of the empty string, as [emptyState] of [trie.go] computes it. *)
Definition emptyState `{Keccak} : list Z := BytesToHash (keccak256 []).

Section iterator.
Context `{Keccak} (dbnode : list Z -> Z -> option node).

(** [nodeIterator.Hash], [Parent], [Path] and [Leaf] *)
Definition it_Hash (it : nodeIterator) : list Z :=
  match it_stack it with [] => emptyHash | s :: _ => is_hash_of s end.

Definition it_Parent (it : nodeIterator) : list Z :=
  match it_stack it with [] => emptyHash | s :: _ => is_parent s end.

Definition it_Leaf (it : nodeIterator) : bool := hasTerm (it_path it).

(** [nodeIterator.LeafKey] and [LeafBlob] *)
Definition it_LeafKey (it : nodeIterator) : outcome trie_error (list Z) :=
  match it_stack it with
  | s :: _ => match is_node s with ValueNode _ => or_panic (hexToKeybytes (it_path it)) | _ => Panic end
  | [] => Panic
  end.

Definition it_LeafBlob (it : nodeIterator) : outcome trie_error (list Z) :=
  match it_stack it with
  | s :: _ => match is_node s with ValueNode v => Ok v | _ => Panic end
  | [] => Panic
  end.

(** [nodeIterator.Error] *)
Definition it_Error (it : nodeIterator) : option trie_error :=
  match it_err it with
  | None | Some errIteratorEnd => None
  | Some (seekError _ e) | Some (stepError e) => Some e
  end.

(** [nodeIteratorState.resolve] *)
Definition state_resolve (gen : Z) (st : nodeIteratorState) (path : list Z)
  : outcome trie_error nodeIteratorState :=
  match is_node st with
  | HashNode h =>
      resolved ← resolveHash dbnode gen h path;
      Ok (mkIterState (BytesToHash h) resolved (is_parent st) (is_index st) (is_pathlen st))
  | _ => Ok st
  end.

(** A fresh state for a child. *)
Definition child_state (c : node) (ancestor path : list Z) : nodeIteratorState :=
  mkIterState (BytesToHash (default [] (fst (cache c)))) c ancestor (-1) (length path).

(** The scan over the children in [nextChild]: the first non-nil one. *)
Fixpoint first_child (i : Z) (ch : list node) : option (Z * node) :=
  match ch with
  | [] => None
  | c :: ch => if is_nil c then first_child (i + 1) ch else Some (i, c)
  end.

(** [nodeIterator.nextChild]: the parent with its updated index, the child's
    state and path. *)
Definition nextChild (parent : nodeIteratorState) (ancestor path : list Z)
  : option (nodeIteratorState * nodeIteratorState * list Z) :=
  match is_node parent with
  | FullNode ch _ =>
      match first_child (is_index parent + 1) (drop (Z.to_nat (is_index parent + 1)) ch) with
      | Some (i, c) => Some (set_index parent (i - 1), child_state c ancestor path, path ++ [u8 i])
      | None => None
      end
  | ShortNode k c _ =>
      if bool_decide (is_index parent < 0)
      then Some (parent, child_state c ancestor path, path ++ k)
      else None
  | _ => None
  end.

(** The loop of [peek]: finished parents are popped. *)
Fixpoint peek_loop (gen : Z) (stack : list nodeIteratorState) (path : list Z)
  : outcome trie_error (list nodeIteratorState * list Z * (nodeIteratorState * list Z + iter_error)) :=
  match stack with
  | [] => Ok ([], path, inr errIteratorEnd)
  | parent :: rest =>
      let ancestor := if bool_decide (is_hash_of parent = emptyHash) then is_parent parent else is_hash_of parent in
      match nextChild parent ancestor path with
      | Some (parent', st, path') =>
          match state_resolve gen st path' with
          | Ok st => Ok (parent' :: rest, path, inl (st, path'))
          | Err e => Ok (parent' :: rest, path, inr (stepError e))
          | Panic => Panic
          | OutOfFuel => OutOfFuel
          end
      | None => peek_loop gen rest (take (is_pathlen parent) path)
      end
  end.

(** [nodeIterator.peek]: the iterator after the pops, and the next state with
    its path or the error.  The root state has no parent index. *)
Definition peek (it : nodeIterator) (descend : bool)
  : outcome trie_error (nodeIterator * (nodeIteratorState * list Z + iter_error)) :=
  match it_trie it with
  | None => Panic
  | Some t =>
      match it_stack it with
      | [] =>
          '(h, t) ← Hash t;
          let it := mkNodeIterator (Some t) [] (it_path it) (it_err it) in
          let st := mkIterState (if bool_decide (h <> emptyRoot) then h else emptyHash) (root t) emptyHash (-1) 0 in
          match state_resolve (cachegen t) st [] with
          | Ok st => Ok (it, inl (st, []))
          | Err e => Ok (it, inr (stepError e))
          | Panic => Panic
          | OutOfFuel => OutOfFuel
          end
      | s :: rest =>
          let '(stack, path) :=
            if descend then (it_stack it, it_path it) else (rest, take (is_pathlen s) (it_path it)) in
          '(stack, path, r) ← peek_loop (cachegen t) stack path;
          Ok (mkNodeIterator (it_trie it) stack path (it_err it), r)
      end
  end.

(** [nodeIterator.push]: the parent, if any, is the top of the stack. *)
Definition push (it : nodeIterator) (st : nodeIteratorState) (path : list Z) : nodeIterator :=
  let stack := match it_stack it with p :: rest => set_index p (is_index p + 1) :: rest | [] => [] end in
  mkNodeIterator (it_trie it) (st :: stack) path (it_err it).

(** [nodeIterator.seek]: stop before the first node whose path is not below the
    key; the result is the new value of [err]. *)
Fixpoint seek_loop (fuel : nat) (it : nodeIterator) (prefix key : list Z)
  : outcome trie_error (nodeIterator * option iter_error) :=
  match fuel with
  | O => OutOfFuel
  | S fuel =>
      '(it, r) ← peek it (bool_decide (it_path it `prefix_of` key));
      match r with
      | inr errIteratorEnd => Ok (it, Some errIteratorEnd)
      | inr (seekError _ e) | inr (stepError e) => Ok (it, Some (seekError prefix e))
      | inl (st, path) =>
          match bytes_compare path key with
          | Lt => seek_loop fuel (push it st path) prefix key
          | _ => Ok (it, None)
          end
      end
  end.

Definition seek (fuel : nat) (it : nodeIterator) (prefix : list Z)
  : outcome trie_error (nodeIterator * option iter_error) :=
  let key := keybytesToHex prefix in
  seek_loop fuel it prefix (take (length key - 1) key).

(** [nodeIterator.Next] *)
Definition it_Next (fuel : nat) (it : nodeIterator) (descend : bool) : outcome trie_error (bool * nodeIterator) :=
  let step (it : nodeIterator) :=
    '(it, r) ← peek it descend;
    match r with
    | inr e => Ok (false, set_err it (Some e))
    | inl (st, path) => Ok (true, push (set_err it None) st path)
    end in
  match it_err it with
  | Some errIteratorEnd => Ok (false, it)
  | Some (seekError key _) =>
      '(it, e) ← seek fuel it key;
      let it := set_err it e in
      match e with
      | Some _ => Ok (false, it)
      | None => step it
      end
  | _ => step it
  end.

(** [newNodeIterator], and [Trie.NodeIterator]: computing the root hash also
    updates the trie. *)
Definition newNodeIterator (fuel : nat) (t : Trie) (start : list Z) : outcome trie_error (nodeIterator * Trie) :=
  '(h, t) ← Hash t;
  if bool_decide (h = emptyState) then Ok (mkNodeIterator None [] [] None, t)
  else
    '(it, e) ← seek fuel (mkNodeIterator (Some t) [] [] None) start;
    Ok (set_err it e, t).

(** ** The prefix iterator *)

(** The implementations of the interface [NodeIterator]; [new(prefixIterator)]
    has no inner iterator. *)
Inductive NodeIterator : Type :=
  | PlainIt (it : nodeIterator)
  | PrefixIt (prefix : list Z) (it : nodeIterator)
  | EmptyPrefixIt.

(** [newPrefixIterator] *)
Definition newPrefixIterator (fuel : nat) (t : Trie) (prefix : list Z) : outcome trie_error (NodeIterator * Trie) :=
  '(h, t) ← Hash t;
  if bool_decide (h = emptyState) then Ok (EmptyPrefixIt, t)
  else
    '(it, t) ← newNodeIterator fuel t prefix;
    let hex := keybytesToHex prefix in
    Ok (PrefixIt (take (length hex - 1) hex) it, t).

(** [Trie.PrefixIterator]: the prefix of the trie comes first. *)
Definition PrefixIterator (fuel : nat) (t : Trie) (prefix : list Z) : outcome trie_error (NodeIterator * Trie) :=
  newPrefixIterator fuel t (default [] (tprefix t) ++ prefix).

Definition hasPrefix (prefix : list Z) (it : nodeIterator) : bool := bool_decide (prefix `prefix_of` it_path it).

(** The methods through the interface. *)
Definition NI_Next (fuel : nat) (ni : NodeIterator) (descend : bool) : outcome trie_error (bool * NodeIterator) :=
  match ni with
  | PlainIt it => '(b, it) ← it_Next fuel it descend; Ok (b, PlainIt it)
  | PrefixIt p it => '(b, it) ← it_Next fuel it descend; Ok (b && hasPrefix p it, PrefixIt p it)
  | EmptyPrefixIt => Panic
  end.

Definition NI_Leaf (ni : NodeIterator) : outcome trie_error bool :=
  match ni with
  | PlainIt it => Ok (it_Leaf it)
  | PrefixIt p it => Ok (hasPrefix p it && it_Leaf it)
  | EmptyPrefixIt => Panic
  end.

Definition NI_LeafKey (ni : NodeIterator) : outcome trie_error (list Z) :=
  match ni with
  | PlainIt it => it_LeafKey it
  | PrefixIt p it => if hasPrefix p it then it_LeafKey it else Ok []
  | EmptyPrefixIt => Panic
  end.

Definition NI_LeafBlob (ni : NodeIterator) : outcome trie_error (list Z) :=
  match ni with
  | PlainIt it => it_LeafBlob it
  | PrefixIt p it => if hasPrefix p it then it_LeafBlob it else Ok []
  | EmptyPrefixIt => Panic
  end.

(** [prefixIterator.Parent] computes the parent hash and drops it. *)
Definition NI_Parent (ni : NodeIterator) : outcome trie_error (list Z) :=
  match ni with
  | PlainIt it => Ok (it_Parent it)
  | PrefixIt _ _ => Ok emptyHash
  | EmptyPrefixIt => Panic
  end.

Definition NI_Hash (ni : NodeIterator) : outcome trie_error (list Z) :=
  match ni with
  | PlainIt it => Ok (it_Hash it)
  | PrefixIt p it => Ok (if hasPrefix p it then it_Hash it else emptyHash)
  | EmptyPrefixIt => Panic
  end.

Definition NI_Path (ni : NodeIterator) : outcome trie_error (list Z) :=
  match ni with
  | PlainIt it => Ok (it_path it)
  | PrefixIt p it => Ok (if hasPrefix p it then it_path it else [])
  | EmptyPrefixIt => Panic
  end.

Definition NI_Error (ni : NodeIterator) : outcome trie_error (option trie_error) :=
  match ni with
  | PlainIt it | PrefixIt _ it => Ok (it_Error it)
  | EmptyPrefixIt => Panic
  end.

(** ** The leaf iterator *)

(** [Iterator.Next]: advance to the next leaf; the key and the value. *)
Fixpoint Iterator_Next (fuel : nat) (ni : NodeIterator)
  : outcome trie_error (option (list Z * list Z) * NodeIterator) :=
  match fuel with
  | O => OutOfFuel
  | S fuel =>
      '(more, ni) ← NI_Next fuel ni true;
      if more : bool then
        leaf ← NI_Leaf ni;
        if leaf : bool then
          k ← NI_LeafKey ni;
          v ← NI_LeafBlob ni;
          Ok (Some (k, v), ni)
        else Iterator_Next fuel ni
      else Ok (None, ni)
  end.

(** [for iter.Next() { body }] *)
Fixpoint for_iter {E S} (lift : trie_error -> E) (fuel : nat) (ni : NodeIterator)
  (body : list Z -> list Z -> S -> outcome E S) (s : S) : outcome E (S * NodeIterator) :=
  match fuel with
  | O => OutOfFuel
  | Datatypes.S fuel =>
      '(r, ni) ← map_err lift (Iterator_Next fuel ni);
      match r with
      | None => Ok (s, ni)
      | Some (k, v) => s ← body k v s; for_iter lift fuel ni body s
      end
  end.
End iterator.
