(* ===== verification/TrieIterSpec.v ===== *)
(** * Correctness of the trie iterators

    The nodes of a trie in pre-order ([visits]), the part of them an iterator
    has still to visit ([remain], [iter_at]), and the proof that stepping,
    seeking and prefix iteration follow that list.  [iterate_entries]: a loop
    over a prefix iterator runs its body over the bindings with that prefix, in
    key order, each once. *)

From S2P Require Import Prelude Common TrieEncoding Trie TrieSpec TrieMap TrieCanon Rlp Sha3 TrieHash TrieMerkle TrieIter.

(** ** Lexicographic order on paths *)

Definition path_lt (a b : list Z) : Prop := bytes_compare a b = Lt.

#[global] Instance path_lt_dec a b : Decision (path_lt a b).
Proof. unfold path_lt. destruct (bytes_compare a b); (by left) || (right; discriminate). Defined.

Lemma path_lt_cons x a y b : path_lt (x :: a) (y :: b) <-> x < y \/ (x = y /\ path_lt a b).
Proof.
  unfold path_lt. simpl. destruct (Z.compare_spec x y); split; intros; try lia; try done; naive_solver lia.
Qed.

Lemma path_lt_nil_l b : path_lt [] b <-> b <> [].
Proof. by destruct b. Qed.

Lemma path_lt_nil_r a : ~ path_lt a [].
Proof. by destruct a. Qed.

Lemma path_lt_app p a b : path_lt (p ++ a) (p ++ b) <-> path_lt a b.
Proof. induction p as [|x p IH]; [done|]. simpl. rewrite path_lt_cons, IH. naive_solver lia. Qed.

Lemma path_lt_trans a b c : path_lt a b -> path_lt b c -> path_lt a c.
Proof.
  revert b c. induction a as [|x a IH]; intros [|y b] [|z c]; rewrite ?path_lt_nil_l, ?path_lt_cons;
    try done; try (by intros _ ?%path_lt_nil_r); try (by intros ?%path_lt_nil_r).
  intros [?|[-> ?]] [?|[-> ?]]; eauto with lia.
Qed.

Lemma path_lt_irrefl a : ~ path_lt a a.
Proof. induction a as [|x a IH]; [by intros ?%path_lt_nil_r|]. rewrite path_lt_cons. naive_solver lia. Qed.

(** A path below a key that is not one of its prefixes: everything under it is
    below the key. *)
Lemma path_lt_subtree p key k : path_lt p key -> ~ p `prefix_of` key -> path_lt (p ++ k) key.
Proof.
  revert key. induction p as [|x p IH]; intros [|y key] Hlt Hp.
  - by apply path_lt_nil_r in Hlt.
  - destruct Hp. apply prefix_nil.
  - by apply path_lt_nil_r in Hlt.
  - simpl. rewrite path_lt_cons in *. destruct Hlt as [?|[-> Hlt]]; [by left|right]. split; [done|].
    apply IH; [done|]. intros Hp'. apply Hp. by apply prefix_cons.
Qed.

(** Paths with a prefix are not below it, and are contiguous. *)
Lemma path_prefix_not_lt p q : p `prefix_of` q -> ~ path_lt q p.
Proof.
  intros [k ->]. intros Hlt. rewrite <- (app_nil_r p) in Hlt at 2.
  apply path_lt_app in Hlt. by apply path_lt_nil_r in Hlt.
Qed.

Lemma path_prefix_between p q r : ~ path_lt q p -> path_lt q r -> p `prefix_of` r -> p `prefix_of` q.
Proof.
  revert q r. induction p as [|x p IH]; intros q r H1 H2 Hp; [apply prefix_nil|].
  destruct r as [|z r]; [by apply prefix_nil_not in Hp|].
  pose proof (prefix_cons_inv_1 _ _ _ _ Hp) as <-. apply prefix_cons_inv_2 in Hp.
  destruct q as [|y q]; [destruct H1; done|]. rewrite path_lt_cons in *.
  destruct H2 as [H2|[-> H2]]; [exfalso; apply H1; lia|]. apply prefix_cons. eapply IH; eauto.
Qed.

(** ** Pre-order *)

Section visits.
Context (dbnode : list Z -> Z -> option node) (g : Z).

(** [visits p n l]: [l] lists the nodes below (and including) the node [n] at
    path [p] in pre-order, hash references resolved. *)
Inductive visits : list Z -> node -> list (list Z * node) -> Prop :=
  | vis_value p v : visits p (ValueNode v) [(p, ValueNode v)]
  | vis_short p k c f l : k <> [] -> visits (p ++ k) c l -> visits p (ShortNode k c f) ((p, ShortNode k c f) :: l)
  | vis_full p ch f l :
      (length ch <= 17)%nat -> visits_from p 0 ch l -> visits p (FullNode ch f) ((p, FullNode ch f) :: l)
  | vis_hash p h n l :
      dbnode (BytesToHash h) g = Some n -> is_hash n = false -> visits p n l -> visits p (HashNode h) l
with visits_from : list Z -> Z -> list node -> list (list Z * node) -> Prop :=
  | visf_nil p i : visits_from p i [] []
  | visf_skip p i ch l : visits_from p (i + 1) ch l -> visits_from p i (Nil :: ch) l
  | visf_cons p i c ch l1 l2 :
      c <> Nil -> visits (p ++ [i]) c l1 -> visits_from p (i + 1) ch l2 ->
      visits_from p i (c :: ch) (l1 ++ l2).

Scheme visits_mut := Induction for visits Sort Prop
  with visits_from_mut := Induction for visits_from Sort Prop.
Combined Scheme visits_mutind from visits_mut, visits_from_mut.

Definition entries (l : list (list Z * node)) : list (list Z * list Z) :=
  omap (fun e => match e.2 with ValueNode v => Some (e.1, v) | _ => None end) l.

Lemma entries_app l1 l2 : entries (l1 ++ l2) = entries l1 ++ entries l2.
Proof. apply omap_app. Qed.

Lemma wf_visits n : wf dbnode g n -> forall p, exists l, visits p n l.
Proof.
  induction 1 as [k v f Hk Hv|k c f Hk Hne Hb Hw IH|ch f Hlen Hch IH H16 _|h n Hr Hnh Hw IH]; intros p.
  - eexists. constructor; [by destruct k|constructor].
  - destruct (IH (p ++ k)) as [l Hl]. eexists. by constructor.
  - assert (forall m i, (m + i = 17)%nat -> exists l, visits_from p (Z.of_nat i) (drop i ch) l) as Hf.
    { induction m as [|m IHm]; intros i Hi.
      - rewrite drop_ge by lia. eexists. constructor.
      - destruct (lookup_lt_is_Some_2 ch i) as [c Hc]; [lia|]. rewrite (drop_S ch c i Hc).
        destruct (IHm (S i)) as [l2 Hl2]; [lia|].
        replace (Z.of_nat (S i)) with (Z.of_nat i + 1) in Hl2 by lia.
        destruct (nil_dec c) as [->|Hn]; [eexists; by constructor|].
        destruct (decide (i < 16)%nat) as [Hlt|Hge].
        + destruct (IH i c Hlt Hc Hn (p ++ [Z.of_nat i])) as [l1 Hl1]. eexists. by constructor.
        + assert (i = 16%nat) as -> by lia. destruct (H16 c Hc Hn) as (v & _ & ->).
          eexists. econstructor; [done|constructor|done]. }
    destruct (Hf 17%nat 0%nat eq_refl) as [l Hl]. eexists. constructor; [lia|done].
  - destruct (IH p) as [l Hl]. eexists. by econstructor.
Qed.

(** The values of the pre-order list are the bindings. *)
Lemma visits_entries_mut :
  (forall p n l, visits p n l ->
     forall q v, (q, v) ∈ entries l <-> exists k, q = p ++ k /\ has dbnode g n k v) /\
  (forall p i ch l, visits_from p i ch l -> 0 <= i ->
     forall q v, (q, v) ∈ entries l <->
       exists j c k, ch !! j = Some c /\ q = p ++ (i + Z.of_nat j) :: k /\ has dbnode g c k v).
Proof.
  apply visits_mutind.
  - intros p v q w. simpl. rewrite list_elem_of_singleton. setoid_rewrite has_value_iff. split.
    + intros [= -> ->]. exists []. by rewrite app_nil_r.
    + intros (k & -> & -> & ->). by rewrite app_nil_r.
  - intros p k c f l Hne Hl IH q v. simpl. rewrite IH. setoid_rewrite has_short_iff. split.
    + intros (k' & -> & Hh). exists (k ++ k'). rewrite app_assoc. eauto.
    + intros (k1 & -> & k' & -> & Hh). exists k'. by rewrite app_assoc.
  - intros p ch f l Hlen Hl IH q v. simpl. rewrite IH by lia. setoid_rewrite has_full_iff. split.
    + intros (j & c & k & Hc & -> & Hh). exists (Z.of_nat j :: k). split; [done|]. eauto 10.
    + intros (k1 & -> & j & c & k & -> & Hc & Hh). by exists j, c, k.
  - intros p h n l Hr Hnh Hl IH q v. rewrite IH. by setoid_rewrite (has_hash_iff _ _ _ _ _ _ Hr).
  - intros p i Hi q v. split; [by intros ?%elem_of_nil|]. intros (j & c & k & Hc & _). done.
  - intros p i ch l Hl IH Hi q v. rewrite IH by lia. split.
    + intros (j & c & k & Hc & -> & Hh). exists (S j), c, k. split_and!; [done| |done].
      do 2 f_equal. lia.
    + intros ([|j] & c & k & Hc & -> & Hh); simplify_eq/=; [by apply has_nil in Hh|].
      exists j, c, k. split_and!; [done| |done]. do 2 f_equal. lia.
  - intros p i c ch l1 l2 Hn Hl1 IH1 Hl2 IH2 Hi q v. rewrite entries_app, elem_of_app, IH1, IH2 by lia. split.
    + intros [(k & -> & Hh)|(j & c' & k & Hc & -> & Hh)].
      * exists 0%nat, c, k. split_and!; [done| |done]. rewrite <- app_assoc. simpl. do 2 f_equal. lia.
      * exists (S j), c', k. split_and!; [done| |done]. do 2 f_equal. lia.
    + intros ([|j] & c' & k & Hc & -> & Hh); simplify_eq/=.
      * left. exists k. rewrite <- app_assoc. simpl. split; [|done]. do 2 f_equal. lia.
      * right. exists j, c', k. split_and!; [done| |done]. do 2 f_equal. lia.
Qed.

(** Paths extend the path of the node. *)
Lemma visits_prefix_mut :
  (forall p n l, visits p n l -> Forall (fun e => p `prefix_of` e.1) l) /\
  (forall p i ch l, visits_from p i ch l ->
     Forall (fun e => exists j k, i <= j /\ e.1 = p ++ j :: k) l).
Proof.
  apply visits_mutind.
  - intros p v. by constructor.
  - intros p k c f l _ _ IH. constructor; [done|]. eapply Forall_impl; [exact IH|].
    intros e. simpl. apply prefix_app_l.
  - intros p ch f l _ _ IH. constructor; [done|]. eapply Forall_impl; [exact IH|].
    intros e (j & k & _ & ->). simpl. by apply prefix_app_r.
  - done.
  - constructor.
  - intros p i ch l _ IH. eapply Forall_impl; [exact IH|]. intros e (j & k & ? & ->).
    exists j, k. split; [lia|done].
  - intros p i c ch l1 l2 _ _ IH1 _ IH2. apply Forall_app. split.
    + eapply Forall_impl; [exact IH1|]. intros e [k E]. exists i, k. split; [lia|].
      by rewrite E, <- app_assoc.
    + eapply Forall_impl; [exact IH2|]. intros e (j & k & ? & ->). exists j, k. split; [lia|done].
Qed.

Definition ascending (l : list (list Z * node)) : Prop := StronglySorted (fun a b => path_lt a.1 b.1) l.

Lemma ascending_app l1 l2 :
  ascending l1 -> ascending l2 -> (forall a b, a ∈ l1 -> b ∈ l2 -> path_lt a.1 b.1) -> ascending (l1 ++ l2).
Proof.
  intros H1 H2 H. induction H1 as [|a l1 H1 IH Ha]; [done|]. simpl. constructor.
  - apply IH. intros x y Hx. apply H. by right.
  - apply Forall_app. split; [done|]. apply Forall_forall. intros b Hb. apply H; [by left|done].
Qed.

(** The list is in strictly increasing path order. *)
Lemma visits_ascending_mut :
  (forall p n l, visits p n l -> ascending l) /\
  (forall p i ch l, visits_from p i ch l -> ascending l).
Proof.
  apply visits_mutind.
  - intros p v. constructor; constructor.
  - intros p k c f l Hne Hl IH. constructor; [done|].
    eapply Forall_impl; [apply (proj1 visits_prefix_mut _ _ _ Hl)|].
    intros e [k' ->]. simpl. rewrite <- app_assoc. rewrite <- (app_nil_r p) at 1.
    rewrite path_lt_app, path_lt_nil_l. by destruct k.
  - intros p ch f l _ Hl IH. constructor; [done|].
    eapply Forall_impl; [apply (proj2 visits_prefix_mut _ _ _ _ Hl)|].
    intros e (j & k' & _ & ->). simpl. rewrite <- (app_nil_r p) at 1. by rewrite path_lt_app.
  - done.
  - constructor.
  - done.
  - intros p i c ch l1 l2 _ Hl1 IH1 Hl2 IH2. apply ascending_app; [done|done|].
    intros a b Ha Hb.
    pose proof (proj1 visits_prefix_mut _ _ _ Hl1) as P1. pose proof (proj2 visits_prefix_mut _ _ _ _ Hl2) as P2.
    rewrite Forall_forall in P1, P2. destruct (P1 a Ha) as [k1 ->]. destruct (P2 b Hb) as (j & k2 & Hj & ->).
    rewrite <- app_assoc, path_lt_app. simpl. apply path_lt_cons. left. lia.
Qed.

(** The first node visited is the node itself, resolved; the others are below it. *)
Definition below (p : list Z) (n : node) (l : list (list Z * node)) : Prop :=
  match n with
  | ValueNode _ => l = []
  | ShortNode k c _ => k <> [] /\ visits (p ++ k) c l
  | FullNode ch _ => (length ch <= 17)%nat /\ visits_from p 0 ch l
  | _ => False
  end.

Lemma visits_head p n l :
  visits p n l -> exists n' l', l = (p, n') :: l' /\ below p n' l' /\
    (if is_hash n then exists h, n = HashNode h /\ dbnode (BytesToHash h) g = Some n' else n' = n).
Proof.
  destruct 1 as [p v|p k c f l Hne Hl|p ch f l Hlen Hl|p h n l Hr Hnh Hl]; [by eexists _, _..|].
  destruct Hl; try done; eexists _, _; (split; [done|]); simpl; eauto.
Qed.

(** ** What an iterator has still to visit *)

(** The nodes below the node of a stack state that come after its index. *)
Definition pending (s : nodeIteratorState) (p : list Z) (l : list (list Z * node)) : Prop :=
  match is_node s with
  | Nil | ValueNode _ => l = []
  | ShortNode k c _ => if bool_decide (is_index s < 0) then is_index s = -1 /\ k <> [] /\ visits (p ++ k) c l else l = []
  | FullNode ch _ =>
      -1 <= is_index s /\ (length ch <= 17)%nat /\
      visits_from p (is_index s + 1) (drop (Z.to_nat (is_index s + 1)) ch) l
  | HashNode _ => False
  end.

Inductive remain : list nodeIteratorState -> list Z -> list (list Z * node) -> Prop :=
  | rem_nil p : remain [] p []
  | rem_cons s st p l1 l2 :
      pending s p l1 -> remain st (take (is_pathlen s) p) l2 -> remain (s :: st) p (l1 ++ l2).

Lemma first_child_spec p i ch l :
  visits_from p i ch l ->
  match first_child i ch with
  | None => l = []
  | Some (j, c) => exists l1 l2, l = l1 ++ l2 /\ c <> Nil /\ visits (p ++ [j]) c l1 /\
      i <= j < i + Z.of_nat (length ch) /\ visits_from p (j + 1) (drop (Z.to_nat (j + 1 - i)) ch) l2 /\
      visits_from p j (drop (Z.to_nat (j - i)) ch) l
  end.
Proof.
  revert i l. induction ch as [|c ch IH]; intros i l Hl; [by inversion Hl|].
  destruct (nil_dec c) as [->|Hn].
  - inversion Hl as [|? ? ? ? Hl'|]; subst; [|done]. simpl. specialize (IH _ _ Hl').
    destruct (first_child (i + 1) ch) as [[j c]|]; [|done].
    destruct IH as (l1 & l2 & -> & Hc & Hv & Hj & Hf & Hf'). exists l1, l2. split_and!; try done; try lia.
    + replace (Z.to_nat (j + 1 - i)) with (S (Z.to_nat (j + 1 - (i + 1)))) by lia. done.
    + replace (Z.to_nat (j - i)) with (S (Z.to_nat (j - (i + 1)))) by lia. done.
  - inversion Hl as [|? ? ? ? Hl'|? ? ? ? l1 l2 _ Hv Hf]; subst; [done|].
    simpl. assert (is_nil c = false) as -> by by destruct c. exists l1, l2. split_and!; try done; try lia.
    + by replace (Z.to_nat (i + 1 - i)) with 1%nat by lia.
    + by rewrite Z.sub_diag.
Qed.

Lemma nextChild_spec s anc p l :
  pending s p l ->
  match nextChild s anc p with
  | None => l = []
  | Some (s', st, q) => exists c l1 l2, l = l1 ++ l2 /\ visits q c l1 /\ st = child_state c anc p /\
      pending s' p l /\ pending (set_index s' (is_index s' + 1)) p l2 /\
      is_pathlen s' = is_pathlen s /\ take (length p) q = p
  end.
Proof.
  unfold pending, nextChild. destruct (is_node s) as [|v|k c f|ch f|h] eqn:En; try done.
  - case_bool_decide as Hi; [|done]. intros (Hi1 & Hk & Hv). exists c, l, [].
    rewrite app_nil_r, En. split_and!; try done.
    + by rewrite bool_decide_true.
    + simpl. rewrite En. rewrite bool_decide_false; [done|lia].
    + by rewrite take_app_length.
  - intros (Hi & Hlen & Hf). apply first_child_spec in Hf as Hf'.
    destruct (first_child _ _) as [[j c]|]; [|done].
    destruct Hf' as (l1 & l2 & -> & Hc & Hv & Hj & Hf1 & Hf2). rewrite length_drop in Hj.
    rewrite drop_drop in Hf1, Hf2. exists c, l1, l2. rewrite wrapU_small by lia. simpl. rewrite En.
    split_and!; try done; try lia.
    + by replace (j - 1 + 1) with j by lia; replace (Z.to_nat j) with (Z.to_nat (is_index s + 1) + Z.to_nat (j - (is_index s + 1)))%nat by lia.
    + replace (j - 1 + 1 + 1) with (j + 1) by lia.
      by replace (Z.to_nat (j + 1)) with (Z.to_nat (is_index s + 1) + Z.to_nat (j + 1 - (is_index s + 1)))%nat by lia.
    + by rewrite take_app_length.
Qed.

Lemma below_pending p n l s :
  below p n l -> is_node s = n -> is_index s = -1 -> pending s p l.
Proof.
  unfold below, pending. intros Hb -> Hi. rewrite Hi. destruct n as [|v|k c f|ch f|h]; try done.
Qed.

(** Resolving a fresh child state. *)
Lemma state_resolve_spec q c l anc p :
  visits q c l ->
  exists st n l', state_resolve dbnode g (child_state c anc p) q = Ok st /\ l = (q, n) :: l' /\
    is_node st = n /\ pending st q l' /\ is_pathlen st = length p.
Proof.
  intros (n & l' & -> & Hb & Hn)%visits_head. unfold state_resolve, child_state. simpl.
  destruct (is_hash c) eqn:Hh.
  - destruct Hn as (h & -> & Hr). unfold resolveHash. rewrite Hr. simpl. eexists _, n, l'.
    split_and!; try done. by eapply below_pending.
  - subst n. destruct c; try done; eexists _, _, l'; (split; [done|]); split_and!; try done;
      by eapply below_pending.
Qed.

(** [peek] finds the first node still to visit, or the end. *)
Lemma peek_loop_spec stack : forall p l,
  remain stack p l ->
  match l with
  | [] => exists p', peek_loop dbnode g stack p = Ok ([], p', inr errIteratorEnd)
  | (q, n) :: l' => exists s stack' p' st,
      peek_loop dbnode g stack p = Ok (s :: stack', p', inl (st, q)) /\ is_node st = n /\
      remain (s :: stack') p' l /\ remain (st :: set_index s (is_index s + 1) :: stack') q l'
  end.
Proof.
  induction stack as [|s stack IH]; intros p l Hr.
  - inversion Hr; subst. by eexists.
  - inversion Hr as [|? ? ? l1 l2 Hp Hr']; subst. cbn [peek_loop].
    set (anc := if bool_decide _ then _ else _).
    pose proof (nextChild_spec s anc p l1 Hp) as Hn. destruct (nextChild s anc p) as [[[s' st] q]|].
    + destruct Hn as (c & la & lb & -> & Hv & -> & Hp1 & Hp2 & Hlen & Hq).
      destruct (state_resolve_spec q c la anc p Hv) as (st & n & la' & -> & -> & Hst & Hpst & Hpl).
      cbn. exists s', stack, p, st. split_and!; [done|done| |].
      * rewrite !app_comm_cons. constructor; [done|]. by rewrite Hlen.
      * rewrite <- app_assoc. constructor; [done|]. rewrite Hpl, Hq. constructor; [done|]. simpl. by rewrite Hlen.
    + subst l1. simpl. specialize (IH _ _ Hr'). done.
Qed.
End visits.

Section iteration.
Context `{Keccak} (dbnode : list Z -> Z -> option node) (g : Z).
Local Abbreviation visits := (visits dbnode g).
Local Abbreviation remain := (remain dbnode g).

(** Hashing a second time changes nothing. *)
Lemma hash_idem ol gg l n h c ev :
  hash false ol gg l n true = Ok (HashNode h, c, ev) ->
  exists ev', hash false ol gg l c true = Ok (HashNode h, c, ev').
Proof.
  intros E. pose proof E as E'. rewrite hash_unfold in E. destruct (cache n) as [[h'|] d] eqn:Ec.
  { simpl in E. simplify_eq. rewrite hash_unfold, Ec. eauto. }
  unfold hash_slow in E. inv_ok. destruct a as [[col ca] ev1]. inv_ok. destruct a as [hd ev2]. inv_ok.
  assert (ca = n \/ fst (cache (set_cached false ca (HashNode h))) = Some h) as [->|Hc].
  { destruct n as [|v|k c0 f|ch f|h0]; unfold hashChildren_with in E0; inv_ok; auto.
    - right. destruct c0; inv_ok; try done; destruct a0 as [[? ?] ?]; inv_ok; done.
    - destruct a as [[hs cs] ev']. inv_ok. by right. }
  - destruct n; cbn [set_cached] in *; eauto; rewrite hash_unfold; simpl; eauto.
  - rewrite hash_unfold. destruct (cache (set_cached _ _ _)) as [oh d']. simpl in Hc. rewrite Hc.
    simpl. eauto.
Qed.

(** What an iterator without error has still to visit. *)
Definition visits_root (n : node) (l : list (list Z * node)) : Prop :=
  (n = Nil /\ l = [([], Nil)]) \/ (n <> Nil /\ visits [] n l).

Inductive iter_at : nodeIterator -> list (list Z * node) -> Prop :=
  | at_root t h l :
      Hash t = Ok (h, t) -> cachegen t = g -> visits_root (root t) l ->
      iter_at (mkNodeIterator (Some t) [] [] None) l
  | at_stack t s stack p l :
      cachegen t = g -> remain (s :: stack) p l ->
      iter_at (mkNodeIterator (Some t) (s :: stack) p None) l.

(** [peek] and [push] *)
Lemma peek_spec it l :
  iter_at it l ->
  match l with
  | [] => exists it', peek dbnode it true = Ok (it', inr errIteratorEnd) /\ it_err it' = None
  | (q, n) :: l' => exists it' st, peek dbnode it true = Ok (it', inl (st, q)) /\ is_node st = n /\
      iter_at it' l /\ iter_at (push it' st q) l' /\ it_err it' = None
  end.
Proof.
  destruct 1 as [t h l Hh Hg Hr|t s stack p l Hg Hr].
  - unfold peek. simpl. rewrite Hh. simpl. rewrite Hg. destruct Hr as [[E ->]|[Hn Hv]].
    + rewrite E. cbn [state_resolve is_node]. eexists _, _. split; [done|]. simpl. split_and!; try done.
      * econstructor; [done|done|]. by left.
      * constructor; [done|]. apply (rem_cons _ _ _ _ _ [] []); [done|constructor].
    + destruct (visits_head _ _ _ _ _ Hv) as (n' & l' & -> & Hb & Hn').
      assert (exists st, state_resolve dbnode g
        (mkIterState (if bool_decide (h <> emptyRoot) then h else emptyHash) (root t) emptyHash (-1) 0) []
        = Ok st /\ is_node st = n' /\ pending dbnode g st [] l') as (st & -> & Hst & Hp).
      { unfold state_resolve. simpl. destruct (is_hash (root t)) eqn:Hih.
        - destruct Hn' as (h' & -> & Hr'). unfold resolveHash. rewrite Hr'. simpl. eexists.
          split_and!; [done|done|]. by eapply below_pending.
        - subst n'. destruct (root t); try done; eexists; (split; [done|]); (split; [done|]);
            by eapply below_pending. }
      eexists _, st. split; [done|]. split_and!; [done| | |done].
      * econstructor; [done|done|]. by right.
      * constructor; [done|]. rewrite <- (app_nil_r l'). constructor; [done|constructor].
  - unfold peek. cbn [it_trie it_stack it_path it_err]. rewrite Hg. pose proof (peek_loop_spec _ _ _ _ _ Hr) as Hp. destruct l as [|[q n] l'].
    + destruct Hp as (p' & ->). simpl. by eexists.
    + destruct Hp as (s' & stack' & p' & st & -> & Hst & R1 & R2). simpl.
      eexists _, st. split; [done|]. split_and!; try done; by constructor.
Qed.

(** Skipping the subtrie below the current path. *)
Lemma pending_prefix s p l : pending dbnode g s p l -> Forall (fun e => p `prefix_of` e.1) l.
Proof.
  unfold pending. destruct (is_node s) as [|v|k c f|ch f|h]; [intros ->; constructor|intros ->; constructor| | |done].
  - case_bool_decide; [|intros ->; constructor]. intros (_ & _ & Hv).
    eapply Forall_impl; [apply (proj1 (visits_prefix_mut _ _) _ _ _ Hv)|]. intros e. apply prefix_app_l.
  - intros (_ & _ & Hv). eapply Forall_impl; [apply (proj2 (visits_prefix_mut _ _) _ _ _ _ Hv)|].
    intros e (j & k & _ & ->). by apply prefix_app_r.
Qed.

(** The outcome of a [peek] that found the list [l]. *)
Definition peeked (r : outcome trie_error (nodeIterator * (nodeIteratorState * list Z + iter_error)))
  (l : list (list Z * node)) : Prop :=
  match l with
  | [] => exists it', r = Ok (it', inr errIteratorEnd) /\ it_err it' = None
  | (q, n) :: l' => exists it' st, r = Ok (it', inl (st, q)) /\ is_node st = n /\
      iter_at it' l /\ iter_at (push it' st q) l' /\ it_err it' = None
  end.

Lemma peek_loop_peeked t stack p l :
  cachegen t = g -> remain stack p l ->
  peeked
    ('(stack, path, r) ← peek_loop dbnode g stack p; Ok (mkNodeIterator (Some t) stack path None, r)) l.
Proof.
  intros Hg Hr. pose proof (peek_loop_spec _ _ _ _ _ Hr) as Hp. unfold peeked. destruct l as [|[q n] l'].
  - destruct Hp as (p' & ->). by eexists.
  - destruct Hp as (s' & stack' & p' & st & -> & Hst & R1 & R2).
    eexists _, st. split; [done|]. split_and!; try done; by constructor.
Qed.

Lemma peek_peeked it l : iter_at it l -> peeked (peek dbnode it true) l.
Proof. apply peek_spec. Qed.

(** A [peek] of [seek]: subtries below the key are skipped as a whole. *)
Lemma peek_seek it l key :
  iter_at it l -> it_path it `prefix_of` key \/ path_lt (it_path it) key ->
  exists l1 l2, l = l1 ++ l2 /\ Forall (fun e => path_lt e.1 key) l1 /\
    peeked (peek dbnode it (bool_decide (it_path it `prefix_of` key))) l2.
Proof.
  intros Hit Hp. case_bool_decide as Hpre.
  { exists [], l. split_and!; [done|constructor|by apply peek_peeked]. }
  destruct Hp as [?|Hlt]; [done|]. destruct Hit as [t h l Hh Hg Hr|t s stack p l Hg Hr].
  { destruct Hpre. apply prefix_nil. }
  inversion Hr as [|? ? ? l1 l2 Hpd Hr']; subst. exists l1, l2. split_and!; [done| |].
  - eapply Forall_impl; [by apply pending_prefix in Hpd|]. intros e [k ->]. by apply path_lt_subtree.
  - unfold peek. cbn [it_trie it_stack it_path it_err]. rewrite Hg. exact (peek_loop_peeked t _ _ _ Hg Hr').
Qed.

(** The part of the list from the key on. *)
Fixpoint drop_lt (key : list Z) (l : list (list Z * node)) : list (list Z * node) :=
  match l with
  | [] => []
  | e :: l' => if decide (path_lt e.1 key) then drop_lt key l' else l
  end.

Lemma drop_lt_app key l1 l2 :
  Forall (fun e => path_lt e.1 key) l1 -> drop_lt key (l1 ++ l2) = drop_lt key l2.
Proof. induction 1 as [|e l1 He _ IH]; [done|]. simpl. by rewrite decide_True. Qed.

Lemma seek_loop_spec fuel : forall it l pfx key,
  iter_at it l -> it_path it `prefix_of` key \/ path_lt (it_path it) key -> (length l < fuel)%nat ->
  exists it' e, seek_loop dbnode fuel it pfx key = Ok (it', e) /\ it_err it' = None /\
    match e with
    | None => iter_at it' (drop_lt key l)
    | Some x => x = errIteratorEnd /\ drop_lt key l = []
    end.
Proof.
  induction fuel as [|fuel IH]; intros it l pfx key Hit Hp Hf; [lia|]. cbn [seek_loop].
  destruct (peek_seek it l key Hit Hp) as (l1 & l2 & -> & Hl1 & Hpk). rewrite drop_lt_app by done.
  rewrite length_app in Hf. unfold peeked in Hpk. destruct l2 as [|[q n] l2].
  - destruct Hpk as (it' & -> & He). by eexists it', _.
  - destruct Hpk as (it' & st & -> & Hst & H1 & H2 & He). cbn [drop_lt fst mbind outcome_bind].
    destruct (decide (path_lt q key)) as [Hlt|Hge].
    + rewrite Hlt. apply IH; [done|by right|simpl in Hf; lia].
    + exists it', None. split; [|done]. unfold path_lt in Hge. by destruct (bytes_compare q key).
Qed.

(** ** Leaves *)

Definition leafy (e : list Z * node) : Prop := hasTerm e.1 = is_value e.2.

Lemma leafy_inner p n : nibbles_ok p -> is_value n = false -> leafy (p, n).
Proof. intros Hp Hn. unfold leafy. simpl. by rewrite Hn, hasTerm_nibbles. Qed.

Lemma leafy_value p v : leafy (p ++ [terminator], ValueNode v).
Proof. unfold leafy. simpl. by rewrite hasTerm_snoc. Qed.

Lemma visits_from_leafy p ch : forall i l,
  visits_from dbnode g p i ch l ->
  (forall j c l', ch !! j = Some c -> visits (p ++ [i + Z.of_nat j]) c l' -> Forall leafy l') ->
  Forall leafy l.
Proof.
  induction ch as [|c ch IH]; intros i l Hl Hc.
  { inversion Hl. constructor. }
  assert (forall j d l', ch !! j = Some d -> visits (p ++ [i + 1 + Z.of_nat j]) d l' -> Forall leafy l') as Hc'.
  { intros j d l' Hj. replace (i + 1 + Z.of_nat j) with (i + Z.of_nat (S j)) by lia. by apply Hc. }
  inversion Hl as [|? ? ? ? Hl'|? ? ? ? l1 l2 _ Hv Hf]; subst; [by eapply IH|].
  apply Forall_app. split; [|by eapply IH]. apply (Hc 0%nat c); [done|]. simpl. by rewrite Z.add_0_r.
Qed.

Lemma wf_leafy n : wf dbnode g n -> forall p l, nibbles_ok p -> visits p n l -> Forall leafy l.
Proof.
  induction 1 as [k v f Hk Hv|k c f Hk Hne Hb Hw IH|ch f Hlen Hch IH H16 _|h n Hr Hnh Hw IH]; intros p l Hp Hl.
  - inversion Hl as [|? ? ? ? l' _ Hl'| |]; subst. constructor; [by apply leafy_inner|].
    inversion Hl'; subst. constructor; [|constructor]. rewrite app_assoc. apply leafy_value.
  - inversion Hl as [|? ? ? ? l' _ Hl'| |]; subst. constructor; [by apply leafy_inner|].
    eapply IH; [|done]. by apply Forall_app.
  - inversion Hl as [| |? ? ? l' _ Hl'|]; subst. constructor; [by apply leafy_inner|].
    eapply visits_from_leafy; [done|]. intros j c l1 Hj Hv. simpl in Hv.
    destruct (nil_dec c) as [->|Hn]; [inversion Hv|]. destruct (decide (j < 16)%nat) as [Hlt|Hge].
    + eapply (IH j c); [done..| |done]. apply Forall_app. split; [done|]. constructor; [|constructor].
      unfold is_nibble. lia.
    + assert (j = 16%nat) as -> by (apply lookup_lt_Some in Hj; lia).
      destruct (H16 c Hj Hn) as (v & _ & ->). inversion Hv; subst. constructor; [|constructor].
      apply leafy_value.
  - inversion Hl as [| | |? ? ? ? Hr' _ Hl']; subst. rewrite Hr in Hr'. simplify_eq. eauto.
Qed.

(** ** Stepping to the leaves *)

(** The leading part of the list with the prefix. *)
Fixpoint take_pre (pfx : list Z) (l : list (list Z * node)) : list (list Z * node) :=
  match l with
  | [] => []
  | e :: l' => if bool_decide (pfx `prefix_of` e.1) then e :: take_pre pfx l' else []
  end.

(** An iterator behind the interface: a prefix iterator, or a plain one, which
    is a prefix iterator for the empty prefix. *)
Definition iface (pfx : list Z) (mk : nodeIterator -> NodeIterator) : Prop :=
  mk = PrefixIt pfx \/ (pfx = [] /\ mk = PlainIt).

(** ... whose seek may already have reached the end. *)
Definition iter_on (it : nodeIterator) (l : list (list Z * node)) : Prop :=
  iter_at it l \/ (it_err it = Some errIteratorEnd /\ l = []).

Lemma NI_Next_spec fuel pfx mk it l :
  iface pfx mk -> iter_on it l ->
  match l with
  | [] => exists it', NI_Next dbnode fuel (mk it) true = Ok (false, mk it')
  | (q, n) :: l' => exists it', NI_Next dbnode fuel (mk it) true = Ok (bool_decide (pfx `prefix_of` q), mk it') /\
      iter_at it' l' /\ it_path it' = q /\ exists s rest, it_stack it' = s :: rest /\ is_node s = n
  end.
Proof.
  intros Hmk Hit.
  assert (exists b it', it_Next dbnode fuel it true = Ok (b, it') /\
    match l with
    | [] => b = false
    | (q, n) :: l' => b = true /\ iter_at it' l' /\ it_path it' = q /\
        exists s rest, it_stack it' = s :: rest /\ is_node s = n
    end) as (b & it' & E & Hb).
  { unfold it_Next. destruct Hit as [Hit|[-> ->]]; [|by eexists _, _].
    assert (it_err it = None) as -> by by destruct Hit.
    pose proof (peek_spec it l Hit) as Hp. destruct l as [|[q n] l'].
    - destruct Hp as (it' & -> & _). by eexists _, _.
    - destruct Hp as (it' & st & -> & Hst & _ & H2 & He). cbn [mbind outcome_bind].
      replace (set_err it' None) with it' by (destruct it'; simpl in *; by subst).
      eexists _, _. split; [done|]. split_and!; try done. by eexists _, _. }
  destruct Hmk as [->|[-> ->]]; cbn [NI_Next]; rewrite E; cbn [mbind outcome_bind].
  - destruct l as [|[q n] l']; [subst b; by exists it'|]. destruct Hb as (-> & H1 & H2 & H3).
    exists it'. unfold hasPrefix. by rewrite H2.
  - destruct l as [|[q n] l']; [subst b; by exists it'|]. destruct Hb as (-> & H1 & H2 & H3).
    exists it'. by rewrite bool_decide_true by apply prefix_nil.
Qed.

Lemma NI_leaf_spec pfx mk it q n s rest :
  iface pfx mk -> it_path it = q -> pfx `prefix_of` q -> it_stack it = s :: rest -> is_node s = n ->
  NI_Leaf (mk it) = Ok (hasTerm q) /\
  forall v k, n = ValueNode v -> hexToKeybytes q = Some k ->
    NI_LeafKey (mk it) = Ok k /\ NI_LeafBlob (mk it) = Ok v.
Proof.
  intros Hmk Hq Hp Hs Hn.
  assert (it_Leaf it = hasTerm q) as Hl by (unfold it_Leaf; by rewrite Hq).
  assert (forall v k, n = ValueNode v -> hexToKeybytes q = Some k ->
    it_LeafKey it = Ok k /\ it_LeafBlob it = Ok v) as Hkv.
  { intros v k -> Hk. unfold it_LeafKey, it_LeafBlob. by rewrite Hs, Hn, Hq, Hk. }
  assert (hasPrefix pfx it = true) as Hh by (unfold hasPrefix; rewrite Hq; by apply bool_decide_true).
  destruct Hmk as [->|[-> ->]]; simpl; rewrite ?Hh, Hl; done.
Qed.

(** [Iterator.Next] moves to the next leaf with the prefix. *)
Lemma Iterator_Next_spec pfx mk fuel : forall it l,
  iface pfx mk -> iter_on it l -> Forall leafy l -> (length l < fuel)%nat ->
  match entries (take_pre pfx l) with
  | [] => exists it', Iterator_Next dbnode fuel (mk it) = Ok (None, mk it')
  | (q, v) :: es => forall k, hexToKeybytes q = Some k ->
      exists it' l', Iterator_Next dbnode fuel (mk it) = Ok (Some (k, v), mk it') /\
        iter_on it' l' /\ entries (take_pre pfx l') = es /\ Forall leafy l' /\ (length l' < length l)%nat
  end.
Proof.
  induction fuel as [|fuel IH]; intros it l Hmk Hit Hlf Hf; [lia|]. cbn [Iterator_Next].
  pose proof (NI_Next_spec fuel pfx mk it l Hmk Hit) as Hn. destruct l as [|[q n] l'].
  { simpl. destruct Hn as (it' & ->). by exists it'. }
  destruct Hn as (it' & -> & Hit' & Hpath & s & rest & Hs & Hsn). cbn [mbind outcome_bind take_pre fst].
  destruct (bool_decide_reflect (pfx `prefix_of` q)) as [Hpre|Hpre]; [|by exists it'].
  apply Forall_cons in Hlf as [Hq Hlf]. unfold leafy in Hq. simpl in Hq.
  destruct (NI_leaf_spec pfx mk it' q n s rest Hmk Hpath Hpre Hs Hsn) as [Hleaf Hkv].
  rewrite Hleaf. cbn [mbind outcome_bind]. destruct (is_value n) eqn:Hv; rewrite Hq.
  - destruct n as [|v| | |]; try done. cbn. intros k Hk. destruct (Hkv v k eq_refl Hk) as [-> ->]. cbn.
    exists it', l'. split_and!; try done; [by left|lia].
  - assert (entries ((q, n) :: take_pre pfx l') = entries (take_pre pfx l')) as -> by by destruct n.
    specialize (IH it' l' Hmk (or_introl Hit') Hlf ltac:(simpl in Hf; lia)).
    destruct (entries (take_pre pfx l')) as [|[q' v'] es]; [done|].
    intros k Hk. destruct (IH k Hk) as (it2 & l2 & E2 & H1 & H2 & H3 & H4).
    exists it2, l2. split_and!; try done. simpl. lia.
Qed.

(** A loop over an iterator folds its body over the leaves. *)
Fixpoint fold_entries {E S} (body : list Z -> list Z -> S -> outcome E S) (es : list (list Z * list Z)) (s : S)
  : outcome E S :=
  match es with
  | [] => Ok s
  | (k, v) :: es => s ← body k v s; fold_entries body es s
  end.

Lemma for_iter_spec {E S} (lift : trie_error -> E) body pfx mk (es : list (list Z * list Z)) : forall fuel it l (s : S),
  iface pfx mk -> iter_on it l -> Forall leafy l -> (length l + 1 < fuel)%nat ->
  entries (take_pre pfx l) = map (fun e => (keybytesToHex e.1, e.2)) es -> Forall (fun e => bytes_ok e.1) es ->
  exists ni', for_iter dbnode lift fuel (mk it) body s = (s' ← fold_entries body es s; Ok (s', ni')).
Proof.
  induction es as [|[k v] es IH]; intros fuel it l s Hmk Hit Hlf Hf Hes Hb.
  all: destruct fuel as [|fuel]; [lia|]; cbn [for_iter].
  all: pose proof (Iterator_Next_spec pfx mk fuel it l Hmk Hit Hlf ltac:(lia)) as Hn; rewrite Hes in Hn; simpl in Hn.
  - destruct Hn as (it' & ->). simpl. eauto.
  - apply Forall_cons in Hb as [Hk Hb]. simpl in Hk.
    destruct (Hn k) as (it' & l' & -> & Hit' & Hes' & Hlf' & Hlen); [by apply hexToKeybytes_keybytesToHex|].
    simpl. destruct (body k v s) as [s1|e| |]; simpl; eauto.
    apply (IH fuel it' l'); try done. lia.
Qed.

(** ** Seeking and prefixes on the ordered list *)

Lemma take_pre_filter pfx l :
  ascending l -> Forall (fun e => ~ path_lt e.1 pfx) l ->
  take_pre pfx l = filter (fun e => pfx `prefix_of` e.1) l.
Proof.
  intros Ha Hge. induction Ha as [|e l Ha IH He]; [done|]. apply Forall_cons in Hge as [Hge1 Hge].
  simpl. rewrite filter_cons. destruct (bool_decide_reflect (pfx `prefix_of` e.1)) as [Hp|Hp].
  - rewrite decide_True by done. f_equal. auto.
  - rewrite decide_False by done. symmetry.
    apply filter_none. eapply Forall_impl; [exact He|]. intros r Hr Hpr.
    apply Hp. exact (path_prefix_between _ _ _ Hge1 Hr Hpr).
Qed.

Lemma seek_prefix_filter pfx l :
  ascending l -> take_pre pfx (drop_lt pfx l) = filter (fun e => pfx `prefix_of` e.1) l.
Proof.
  induction 1 as [|e l Ha IH He]; [done|]. simpl. destruct (decide (path_lt e.1 pfx)) as [Hlt|Hge].
  - rewrite filter_cons_False; [done|]. intros Hp. by apply (path_prefix_not_lt _ _ Hp).
  - apply take_pre_filter; [by constructor|]. constructor; [done|].
    eapply Forall_impl; [exact He|]. intros r Hr Hlt. apply Hge. exact (path_lt_trans _ _ _ Hr Hlt).
Qed.

Lemma seek_filter key l :
  ascending l -> drop_lt key l = filter (fun e => ~ path_lt e.1 key) l.
Proof.
  induction 1 as [|e l Ha IH He]; [done|]. simpl. rewrite filter_cons.
  destruct (decide (path_lt e.1 key)) as [Hlt|Hge].
  - rewrite decide_False by naive_solver. done.
  - rewrite decide_True by done. f_equal. symmetry. apply filter_all.
    eapply Forall_impl; [exact He|]. intros r Hr Hlt. apply Hge. exact (path_lt_trans _ _ _ Hr Hlt).
Qed.

Lemma entries_filter (P : list Z -> Prop)
  {H1 : forall e : list Z * node, Decision (P e.1)} {H2 : forall e : list Z * list Z, Decision (P e.1)} l :
  entries (filter (fun e => P e.1) l) = filter (fun e => P e.1) (entries l).
Proof.
  induction l as [|[q n] l IH]; [done|]. rewrite filter_cons. simpl.
  destruct (decide (P q)) as [Hp|Hp]; destruct n; simpl; rewrite ?filter_cons, ?IH; simpl;
    rewrite ?decide_True, ?decide_False by done; done.
Qed.

(** ** Iteration over the represented map *)

(** Key order: the order of the HEX keys, in which a key comes after its
    extensions. *)
Definition key_lt (a b : list Z) : Prop := path_lt (keybytesToHex a) (keybytesToHex b).

(** [es] lists the bindings of [m] whose key satisfies [P], in key order. *)
Definition is_entries (P : list Z -> Prop) (m : gmap (list Z) (list Z)) (es : list (list Z * list Z)) : Prop :=
  StronglySorted (fun a b => key_lt a.1 b.1) es /\
  forall k v, (k, v) ∈ es <-> m !! k = Some v /\ P k.

Lemma nibbles_prefix p k :
  bytes_ok p -> bytes_ok k -> key_nibbles p `prefix_of` keybytesToHex k <-> p `prefix_of` k.
Proof.
  intros Hp Hk. rewrite keybytesToHex_nibbles. split.
  - revert k Hk. induction Hp as [|x p Hx Hp IH]; intros k Hk Hpre; [apply prefix_nil|].
    destruct Hk as [|y k Hy Hk].
    { destruct Hpre as [r E]. cbn [key_nibbles app] in E. by injection E. }
    cbn [key_nibbles app] in Hpre.
    pose proof (prefix_cons_inv_1 _ _ _ _ Hpre) as E1. apply prefix_cons_inv_2 in Hpre.
    pose proof (prefix_cons_inv_1 _ _ _ _ Hpre) as E2. apply prefix_cons_inv_2 in Hpre.
    assert (x = y) as -> by (rewrite (Z.div_mod x 16), (Z.div_mod y 16) by lia; congruence). apply prefix_cons. auto.
  - intros [r ->]. rewrite key_nibbles_app, <- app_assoc. by apply prefix_app_r.
Qed.

Lemma visits_root_ascending n l : visits_root n l -> ascending l.
Proof.
  intros [[_ ->]|[_ Hv]]; [repeat constructor|]. by apply (proj1 (visits_ascending_mut _ _) _ _ _ Hv).
Qed.

Lemma visits_root_leafy n l : wf_root dbnode g n -> visits_root n l -> Forall leafy l.
Proof.
  intros [->|Hw] [[? ->]|[Hn Hv]]; try done; [by repeat constructor|by subst; apply wf_not_nil in Hw|].
  eapply wf_leafy; [done| |done]. constructor.
Qed.

Lemma visits_root_exists n : wf_root dbnode g n -> exists l, visits_root n l.
Proof.
  intros [->|Hw]; [eexists; by left|]. destruct (wf_visits _ _ _ Hw []) as [l Hl]. exists l. right.
  split; [by eapply wf_not_nil|done].
Qed.

(** The leaves of a trie that represents [m]. *)
Lemma visits_root_entries t m l :
  represents dbnode t m -> cachegen t = g -> visits_root (root t) l ->
  forall q v, (q, v) ∈ entries l <-> exists k, q = keybytesToHex k /\ m !! k = Some v.
Proof.
  intros Hr Hg Hv q v. rewrite <- (rep_has _ _ _ Hr q v), Hg. destruct Hv as [[-> ->]|[_ Hv]].
  - simpl. split; [by intros ?%elem_of_nil|by intros ?%has_nil].
  - rewrite (proj1 (visits_entries_mut _ _) _ _ _ Hv). simpl. naive_solver.
Qed.

Lemma entries_sorted l : ascending l -> StronglySorted (fun a b => path_lt a.1 b.1) (entries l).
Proof.
  induction 1 as [|[q n] l Ha IH He]; [constructor|]. simpl. destruct n; try done. simpl. constructor; [done|].
  apply Forall_forall. intros [q' v'] Hin. rewrite Forall_forall in He.
  apply list_elem_of_omap in Hin as ([q1 n1] & Hin & E). destruct n1; simplify_eq/=. apply (He _ Hin).
Qed.

(** Decoding the keys of a list of leaves. *)
Lemma decode_entries (P : list Z -> Prop) m (hs : list (list Z * list Z)) :
  StronglySorted (fun a b => path_lt a.1 b.1) hs ->
  (forall q v, (q, v) ∈ hs <-> exists k, q = keybytesToHex k /\ m !! k = Some v /\ P k) ->
  (forall k v, m !! k = Some v -> bytes_ok k) ->
  exists es, hs = map (fun e => (keybytesToHex e.1, e.2)) es /\ Forall (fun e => bytes_ok e.1) es /\
    is_entries P m es.
Proof.
  intros Hs Hm Hb.
  set (dec e := (default [] (hexToKeybytes e.1), e.2) : list Z * list Z).
  assert (forall q v, (q, v) ∈ hs -> exists k, q = keybytesToHex k /\ dec (q, v) = (k, v) /\ bytes_ok k) as Hdec.
  { intros q v (k & -> & Hk & _)%Hm. exists k. unfold dec. simpl.
    rewrite hexToKeybytes_keybytesToHex by eauto. eauto. }
  assert (hs = map (fun e => (keybytesToHex e.1, e.2)) (map dec hs)) as E.
  { rewrite map_map. rewrite <- (map_id hs) at 1. apply map_ext_in. intros [q v] Hin%list_elem_of_In.
    destruct (Hdec _ _ Hin) as (k & -> & -> & _). done. }
  exists (map dec hs). split_and!; [done| |split].
  - apply Forall_fmap, Forall_forall. intros [q v] Hin. destruct (Hdec _ _ Hin) as (k & _ & E' & Hk).
    change (bytes_ok (dec (q, v)).1). by rewrite E'.
  - clear Hm. induction Hs as [|e hs Hs IH He]; [constructor|]. simpl. constructor.
    + apply IH; [|by simplify_eq/=]. intros q v Hin. apply Hdec. by right.
    + apply Forall_fmap, Forall_forall. intros b Hin. rewrite Forall_forall in He.
      destruct e as [q v], b as [q' v']. change (key_lt (dec (q, v)).1 (dec (q', v')).1). destruct (Hdec q v) as (k & -> & -> & _); [by left|].
      destruct (Hdec q' v') as (k' & -> & -> & _); [by right|]. by apply He in Hin.
  - intros k v. rewrite list_elem_of_fmap. split.
    + intros ([q w] & Ed & Hin). destruct (Hdec _ _ Hin) as (k' & -> & E' & Hk'). rewrite E' in Ed. simplify_eq.
      apply Hm in Hin as (k2 & E2 & Hk2 & HP). by rewrite (keybytesToHex_inj k' k2) by eauto.
    + intros [Hk HP]. assert ((keybytesToHex k, v) ∈ hs) as Hin by (apply Hm; eauto).
      exists (keybytesToHex k, v). split; [|done]. unfold dec. simpl.
      by rewrite hexToKeybytes_keybytesToHex by eauto.
Qed.

(** A loop over [ni] runs its body over [es] in order. *)
Definition loops_over (fuel : nat) (ni : NodeIterator) (es : list (list Z * list Z)) : Prop :=
  forall (E S : Type) (lift : trie_error -> E) (body : list Z -> list Z -> S -> outcome E S) (s : S),
  exists ni', for_iter dbnode lift fuel ni body s = (s' ← fold_entries body es s; Ok (s', ni')).

(** The first step of such a loop. *)
Lemma loops_over_next fuel ni es :
  loops_over (S fuel) ni es -> exists ni', Iterator_Next dbnode fuel ni = Ok (head es, ni').
Proof.
  intros Hl. destruct (Hl (option (list Z * list Z)) unit (fun _ => None) (fun k v _ => Err (Some (k, v))) tt) as (ni' & E).
  cbn [for_iter] in E. destruct (Iterator_Next dbnode fuel ni) as [[[[k v]|] ni1]|e| |];
    destruct es as [|[k' v'] es]; simpl in E; simplify_eq; eauto.
Qed.

(** No collision of the root with the hash of the empty string, on which the
    constructors of the iterators return an unusable iterator. *)
Definition clash_free (t : Trie) : Prop := merkle_root (root t) <> emptyState.

Lemma hashRoot_plain c o t :
  root t <> Nil -> hashRoot c o t = hash c o (cachegen t) (cachelimit t) (root t) true.
Proof. intros Hn. unfold hashRoot. by destruct (root t). Qed.

Lemma Hash_idem t m h t' : sound dbnode t m -> Hash t = Ok (h, t') -> Hash t' = Ok (h, t').
Proof.
  intros Hs E. destruct (Hash_spec _ _ _ Hs) as (t1 & E1 & _ & _ & _ & _ & Her).
  rewrite E in E1. simplify_eq. revert E. destruct (nil_dec (root t)) as [Er|Hn].
  { unfold Hash, hashRoot. rewrite Er. simpl. intros E. inv_ok. done. }
  unfold Hash. rewrite (hashRoot_plain _ _ t Hn). intros E.
  apply bind_ok_inv in E as ([[hd c0] ev] & E & E2). cbv beta iota in E2.
  apply bind_ok_inv in E2 as (h1 & E2 & E3). injection E3 as -> <-.
  destruct hd as [| | | |h2]; try done. destruct (hash_idem _ _ _ _ _ _ _ E) as [ev' E'].
  rewrite hashRoot_plain by (cbn [root set_root] in *; rewrite <- erase_nil, Her, erase_nil; done).
  cbn [root set_root cachegen cachelimit]. rewrite E'. cbn [mbind outcome_bind]. rewrite E2. done.
Qed.

Section over_database.
Context (Hdb : db_coherent dbnode).

(** Hashing gives a trie on which all iterators run, whatever their start. *)
Lemma newNodeIterator_spec t m :
  sound dbnode t m -> clash_free t -> cachegen t = g ->
  exists t' l, sound dbnode t' m /\ cachegen t' = g /\ tprefix t' = tprefix t /\ clash_free t' /\
    Hash t = Ok (merkle_root (root t), t') /\ Hash t' = Ok (merkle_root (root t), t') /\
    visits_root (root t') l /\
    forall u start fuel, Hash u = Ok (merkle_root (root t), t') -> (length l < fuel)%nat -> exists it,
      newNodeIterator dbnode fuel u start = Ok (it, t') /\ iter_on it (drop_lt (key_nibbles start) l).
Proof.
  intros Hs Hc Hg. destruct (Hash_spec _ _ _ Hs) as (t' & E & Hs' & Hg' & _ & Hp & Her).
  pose proof (Hash_idem _ _ _ _ Hs E) as E'.
  destruct (visits_root_exists (root t')) as [l Hl].
  { rewrite <- Hg, <- Hg'. apply (rep_wf _ _ _ (sound_rep _ _ _ Hs')). }
  exists t', l. split_and!; try done; [congruence| |].
  { unfold clash_free, merkle_root. by rewrite <- (mref_erase true), Her, mref_erase. }
  intros u start fuel Eu Hf. unfold newNodeIterator, seek. rewrite Eu. cbn [mbind outcome_bind].
  rewrite bool_decide_false by done.
  destruct (seek_loop_spec fuel (mkNodeIterator (Some t') [] [] None) l start (key_nibbles start)) as
    (it & e & Es & He & Hit).
  { econstructor; [done|congruence|done]. } { left. apply prefix_nil. } { done. }
  exists (set_err it e). rewrite keybytesToHex_nibbles, length_app. simpl length.
  rewrite Nat.add_sub, take_app_length, Es. split; [done|]. destruct e as [e|].
  - destruct Hit as [-> ->]. by right.
  - left. by replace (set_err it None) with it by (destruct it; simpl in *; by subst).
Qed.

(** Loops over [NodeIterator(start)]. *)
Lemma node_iterator_entries t m start :
  sound dbnode t m -> clash_free t -> cachegen t = g ->
  exists es t' N, is_entries (fun k => ~ path_lt (keybytesToHex k) (key_nibbles start)) m es /\
    sound dbnode t' m /\ cachegen t' = g /\ tprefix t' = tprefix t /\ clash_free t' /\
    forall fuel, (N <= fuel)%nat -> exists it,
      newNodeIterator dbnode fuel t start = Ok (it, t') /\
      forall fuel', (N <= fuel')%nat -> loops_over fuel' (PlainIt it) es.
Proof.
  intros Hs Hc Hg. destruct (newNodeIterator_spec t m Hs Hc Hg) as
    (t' & l & Hs' & Hg' & Hp & Hc' & Ht & _ & Hl & Hit0).
  pose proof (fun fuel => Hit0 t start fuel Ht) as Hit.
  pose proof (visits_root_ascending _ _ Hl) as Ha.
  assert (wf_root dbnode g (root t')) as Hw by (rewrite <- Hg'; apply Hs').
  pose proof (visits_root_leafy _ _ Hw Hl) as Hlf. rewrite (seek_filter _ _ Ha) in Hit.
  set (l1 := filter (fun e => ~ path_lt e.1 (key_nibbles start)) l) in *.
  assert (take_pre [] l1 = l1) as Htp.
  { clear. induction l1 as [|e l1 IH]; [done|]. cbn [take_pre]. rewrite bool_decide_true by apply prefix_nil. by rewrite IH. }
  assert (length l1 <= length l)%nat by apply length_filter.
  destruct (decode_entries (fun k => ~ path_lt (keybytesToHex k) (key_nibbles start)) m
    (entries l1)) as (es & Ees & Hb & Hes).
  - apply entries_sorted. subst l1. rewrite <- seek_filter by done.
    clear -Ha. induction Ha as [|e l Ha IH He]; [constructor|]. simpl. case_decide; [done|by constructor].
  - intros q v.
    assert (entries l1 = filter (fun e => ~ path_lt e.1 (key_nibbles start)) (entries l)) as ->
      by apply (entries_filter (fun p => ~ path_lt p (key_nibbles start))).
    rewrite list_elem_of_filter. simpl. rewrite (visits_root_entries t' m l (sound_rep _ _ _ Hs') Hg' Hl). naive_solver.
  - apply (rep_keys _ _ _ (sound_rep _ _ _ Hs')).
  - exists es, t', (length l + 2)%nat. split_and!; try done. intros fuel Hf.
    destruct (Hit fuel) as (it & E & Hon); [lia|]. exists it. split; [done|]. intros fuel' Hf' E0 S lift body s.
    eapply (for_iter_spec lift body [] PlainIt es fuel' it l1 s); [by right|done| |lia|by rewrite Htp|done].
    apply Forall_forall. intros e [_ Hin]%list_elem_of_filter. by eapply Forall_forall in Hlf.
Qed.

(** Loops over [PrefixIterator(pfx)]: the bindings whose key starts with the
    prefix of the trie followed by [pfx].  Making an iterator leaves a trie on
    which making further ones changes nothing. *)
Lemma prefix_iterator_uniform t m :
  sound dbnode t m -> clash_free t -> cachegen t = g ->
  exists t' N, sound dbnode t' m /\ cachegen t' = g /\ tprefix t' = tprefix t /\ clash_free t' /\
    forall u pfx, u = t \/ u = t' -> let full := default [] (tprefix t) ++ pfx in bytes_ok full ->
    exists es, is_entries (fun k => full `prefix_of` k) m es /\
      forall fuel, (N <= fuel)%nat -> exists ni,
        PrefixIterator dbnode fuel u pfx = Ok (ni, t') /\
        forall fuel', (N <= fuel')%nat -> loops_over fuel' ni es.
Proof.
  intros Hs Hc Hg.
  destruct (newNodeIterator_spec t m Hs Hc Hg) as (t0 & l & Hs' & Hg' & Hp0 & Hc0 & E0 & E0' & Hl & Hit0).
  exists t0, (length l + 2)%nat. split_and!; try done. intros u pfx Hu full Hfull.
  assert (Hash u = Ok (merkle_root (root t), t0)) as Eu by (by destruct Hu as [->| ->]).
  assert (tprefix u = tprefix t) as Epu by (by destruct Hu as [->| ->]).
  pose proof (fun fuel => Hit0 t0 full fuel E0') as Hit.
  pose proof (visits_root_ascending _ _ Hl) as Ha. set (P := key_nibbles full) in *.
  assert (wf_root dbnode g (root t0)) as Hw by (rewrite <- Hg'; apply Hs').
  pose proof (visits_root_leafy _ _ Hw Hl) as Hlf.
  assert (entries (take_pre P (drop_lt P l)) = filter (fun e => P `prefix_of` e.1) (entries l)) as Htp.
  { rewrite seek_prefix_filter by done. apply (entries_filter (fun p => P `prefix_of` p)). }
  destruct (decode_entries (fun k => full `prefix_of` k) m
    (filter (fun e => P `prefix_of` e.1) (entries l))) as (es & Ees & Hb & Hes).
  - rewrite <- (entries_filter (fun p => P `prefix_of` p)). apply entries_sorted.
    clear -Ha. induction Ha as [|e l Ha IH He]; [constructor|]. rewrite filter_cons. case_decide; [|done].
    constructor; [done|]. apply Forall_forall. intros r [_ Hr]%list_elem_of_filter. by eapply Forall_forall in He.
  - intros q v. rewrite list_elem_of_filter. simpl.
    rewrite (visits_root_entries t0 m l (sound_rep _ _ _ Hs') Hg' Hl). split.
    + intros [Hpre (k & -> & Hk)]. exists k. split_and!; try done.
      apply (nibbles_prefix full k); [done|by apply (rep_keys _ _ _ (sound_rep _ _ _ Hs') _ _ Hk)|done].
    + intros (k & -> & Hk & Hpre). split; [|eauto].
      apply (nibbles_prefix full k); [done|by apply (rep_keys _ _ _ (sound_rep _ _ _ Hs') _ _ Hk)|done].
  - apply (rep_keys _ _ _ (sound_rep _ _ _ Hs')).
  - exists es. split; [done|]. intros fuel Hf.
    destruct (Hit fuel) as (it & E & Hon); [lia|]. exists (PrefixIt P it). split.
    { unfold PrefixIterator, newPrefixIterator. rewrite Epu, Eu. cbn [mbind outcome_bind].
      rewrite bool_decide_false by done. fold full. rewrite E. cbn [mbind outcome_bind].
      rewrite keybytesToHex_nibbles, length_app. simpl length. by rewrite Nat.add_sub, take_app_length. }
    intros fuel' Hf' E2 S lift body s.
    assert (length (drop_lt P l) <= length l)%nat.
    { clear. induction l as [|e l IH]; [done|]. simpl. case_decide; simpl; lia. }
    eapply (for_iter_spec lift body P (PrefixIt P) es fuel' it (drop_lt P l) s);
      [by left|done| |lia|by rewrite Htp|done].
    rewrite seek_filter by done. apply Forall_forall. intros e [_ Hin]%list_elem_of_filter.
    by eapply Forall_forall in Hlf.
Qed.

Lemma prefix_iterator_entries t m pfx :
  let full := default [] (tprefix t) ++ pfx in
  sound dbnode t m -> clash_free t -> cachegen t = g -> bytes_ok full ->
  exists es t' N, is_entries (fun k => full `prefix_of` k) m es /\
    sound dbnode t' m /\ cachegen t' = g /\ tprefix t' = tprefix t /\ clash_free t' /\
    forall fuel, (N <= fuel)%nat -> exists ni,
      PrefixIterator dbnode fuel t pfx = Ok (ni, t') /\
      forall fuel', (N <= fuel')%nat -> loops_over fuel' ni es.
Proof.
  intros full Hs Hc Hg Hfull. destruct (prefix_iterator_uniform t m Hs Hc Hg) as (t' & N & ? & ? & ? & ? & Hit).
  destruct (Hit t pfx ltac:(by left) Hfull) as (es & Hes & Hf). exists es, t', N. split_and!; done.
Qed.
End over_database.
End iteration.

(** ** When roots do not clash *)

Lemma toWriter_nonempty w : eb_lheads w <> [] -> toWriter w <> [].
Proof.
  intros Hh. unfold toWriter. destruct (eb_lheads w) as [|h hs]; [done|]. cbn [merge_heads].
  intros [_ [E _]%app_eq_nil]%app_eq_nil. revert E. unfold lh_encode, puthead. by case_bool_decide.
Qed.

Lemma listEnd_heads w lh w' : eb_listEnd w lh = Ok w' -> eb_lheads w' <> [].
Proof.
  unfold eb_listEnd. intros E. apply bind_ok_inv in E as (h & Eh & E). injection E as <-. simpl.
  destruct (eb_lheads w) as [|h' hs]; [done|]. by destruct lh.
Qed.

(** The encoding of a node with children is a list, which has a header. *)
Lemma blob_nonempty n : match n with ShortNode _ _ _ | FullNode _ _ => blob n <> [] | _ => True end.
Proof.
  destruct n as [|v|k c f|ch f|h]; try done; pose proof (Encode_blob (ShortNode k c f)) as E ||
    pose proof (Encode_blob (FullNode ch f)) as E; unfold Encode in E; apply bind_ok_inv in E as (w & Ew & E);
    injection E as <-; apply toWriter_nonempty; cbn [node_rval writer] in Ew.
  all: destruct (eb_list eb_reset) as [lh w0]; apply bind_ok_inv in Ew as (w1 & _ & Ew); by eapply listEnd_heads.
Qed.

(** It is enough that the hash of the empty string is not the hash of anything
    else, and is not the constant root of the empty trie. *)
Lemma clash_free_keccak `{Keccak} dbnode :
  (forall b, b <> [] -> keccak256 b <> keccak256 []) -> keccak256 [] <> emptyRoot ->
  db_coherent dbnode -> forall t m, sound dbnode t m -> clash_free t.
Proof.
  intros Hk He Hdb t m Hs. destruct (sound_loaded dbnode Hdb t m Hs) as (t0 & R & Er).
  unfold clash_free, emptyState. rewrite <- Er. destruct (keccak256_ok []) as [Hl _].
  assert (BytesToHash (keccak256 []) = keccak256 []) as -> by by apply setBytes_id.
  destruct (rep_wf _ _ _ R) as [->|Hw]; [done|]. unfold merkle_root, mref.
  assert (forall b, b <> [] -> BytesToHash (keccak256 b) <> keccak256 []) as Hb.
  { intros b Hb. destruct (keccak256_ok b) as [Hlb _]. rewrite (setBytes_id 32) by done. by apply Hk. }
  destruct Hw as [| | |h n' Hn]; cbn [mraw collapse_ref]; rewrite ?andb_false_r; try done.
  all: apply Hb; match goal with |- blob ?n <> [] => exact (blob_nonempty n) end.
Qed.

(** A hash function under which no trie has the root of the empty string. *)
Definition tag_hash (b : list Z) : list Z := (if bool_decide (b = []) then 0 else 1) :: zeroes 31.

Lemma tag_hash_ok b : length (tag_hash b) = 32%nat /\ bytes_ok (tag_hash b).
Proof.
  unfold tag_hash. split; [done|]. constructor; [unfold is_byte; case_bool_decide; lia|apply bytes_ok_zeroes].
Qed.

Definition tag_keccak : Keccak := Build_Keccak tag_hash tag_hash_ok.

Lemma tag_clash_free dbnode t m : @db_coherent tag_keccak dbnode -> @sound tag_keccak dbnode t m -> @clash_free tag_keccak t.
Proof.
  intros Hdb. apply (@clash_free_keccak tag_keccak dbnode); [|done|done].
  intros b Hb. simpl. unfold tag_hash. by rewrite bool_decide_false.
Qed.

(** The bindings are listed without repetition, and the list is determined. *)
Lemma key_lt_irrefl k : ~ key_lt k k.
Proof. apply path_lt_irrefl. Qed.

Lemma key_lt_trans a b c : key_lt a b -> key_lt b c -> key_lt a c.
Proof. apply path_lt_trans. Qed.

Lemma is_entries_NoDup P m es : is_entries P m es -> NoDup es.*1.
Proof.
  intros [Hs _]. induction Hs as [|e es Hs IH He]; [constructor|]. simpl. constructor; [|done].
  intros (b & E & Hb)%list_elem_of_fmap. rewrite Forall_forall in He. apply He in Hb. rewrite E in Hb.
  by apply key_lt_irrefl in Hb.
Qed.

Lemma is_entries_unique P m es1 es2 : is_entries P m es1 -> is_entries P m es2 -> es1 = es2.
Proof.
  intros [S1 H1] [S2 H2]. assert (forall e, e ∈ es1 <-> e ∈ es2) as He by (intros [k v]; by rewrite H1, H2).
  clear H1 H2. revert es2 S2 He. induction S1 as [|a es1 S1 IH Ha]; intros es2 S2 He.
  - destruct es2 as [|b es2]; [done|]. exfalso. apply (elem_of_nil b), He. by left.
  - destruct S2 as [|b es2 S2 Hb]; [exfalso; apply (elem_of_nil a), He; by left|].
    rewrite Forall_forall in Ha, Hb.
    assert (a = b) as ->.
    { assert (a ∈ b :: es2) as [->|Ia]%elem_of_cons by (apply He; by left); [done|].
      assert (b ∈ a :: es1) as [->|Ib]%elem_of_cons by (apply He; by left); [done|].
      destruct (key_lt_irrefl a.1). eapply key_lt_trans; [apply Ha, Ib|apply Hb, Ia]. }
    f_equal. apply IH; [done|]. intros e. split; intros Hin.
    + assert (e ∈ b :: es2) as [->|?]%elem_of_cons by (apply He; by right); [|done].
      by apply Ha, key_lt_irrefl in Hin.
    + assert (e ∈ b :: es1) as [->|?]%elem_of_cons by (apply He; by right); [|done].
      by apply Hb, key_lt_irrefl in Hin.
Qed.

(** Everything a prefix iterator delivers. *)
Definition collect `{Keccak} (dbnode : list Z -> Z -> option node) (fuel : nat) (t : Trie) (pfx : list Z)
  : outcome trie_error (list (list Z * list Z) * Trie) :=
  '(ni, t') ← PrefixIterator dbnode fuel t pfx;
  '(es, _) ← for_iter dbnode id fuel ni (fun k v es => Ok (es ++ [(k, v)])) [];
  Ok (es, t').

Lemma fold_collect {E} (es acc : list (list Z * list Z)) :
  fold_entries (E := E) (fun k v es => Ok (es ++ [(k, v)])) es acc = Ok (acc ++ es).
Proof.
  revert acc. induction es as [|[k v] es IH]; intros acc; simpl; [by rewrite app_nil_r|].
  by rewrite IH, <- app_assoc.
Qed.

(** C30: functional, termination.  Prefix iteration over a trie, partly loaded or
    not, terminates and delivers exactly the bindings whose key starts with the
    prefix of the trie followed by the requested prefix, each once and in key
    order; it leaves the content and the caches of the trie sound. *)
Theorem iterate_entries `{Keccak} (dbnode : list Z -> Z -> option node) t m pfx :
  db_coherent dbnode -> sound dbnode t m -> clash_free t -> bytes_ok (default [] (tprefix t) ++ pfx) ->
  exists es t' N, is_entries (fun k => (default [] (tprefix t) ++ pfx) `prefix_of` k) m es /\ NoDup es.*1 /\
    sound dbnode t' m /\ forall fuel, (N <= fuel)%nat -> collect dbnode fuel t pfx = Ok (es, t').
Proof.
  intros Hdb Hs Hc Hb.
  destruct (prefix_iterator_entries dbnode (cachegen t) t m pfx Hs Hc eq_refl Hb)
    as (es & t' & N & Hes & Hs' & _ & _ & _ & Hit).
  exists es, t', N. split_and!; [done|by eapply is_entries_NoDup|done|]. intros fuel Hf.
  destruct (Hit fuel Hf) as (ni & E & Hl). unfold collect. rewrite E. cbn [mbind outcome_bind].
  destruct (Hl fuel Hf trie_error _ id (fun k v es => Ok (es ++ [(k, v)])) []) as (ni' & ->).
  by rewrite fold_collect.
Qed.

Definition iter_ops : list trie_op :=
  [OpUpdate [1; 2] [7]; OpUpdate [1; 3] [8]; OpUpdate [2; 3] [9]; OpUpdate [1] [5]].

Definition iter_trie : Trie :=
  match trie_run no_db empty_trie iter_ops with Ok (_, t) => t | _ => empty_trie end.

(** The keys with prefix 1 of a trie built by four updates; the key [1] comes
    after its extensions. *)
Lemma iterate_entries_witness :
  (exists t', @collect tag_keccak no_db 40 iter_trie [1] = Ok ([([1; 2], [7]); ([1; 3], [8]); ([1], [5])], t')) /\
  exists es t' N, is_entries (fun k => [1] `prefix_of` k) (map_run ∅ iter_ops).2 es /\ NoDup es.*1 /\
    @sound tag_keccak no_db t' (map_run ∅ iter_ops).2 /\
    forall fuel, (N <= fuel)%nat -> @collect tag_keccak no_db fuel iter_trie [1] = Ok (es, t').
Proof.
  split; [eexists; vm_compute; reflexivity|].
  assert (@db_coherent tag_keccak no_db) as Hdb by (intros h g n Hn; discriminate Hn).
  assert (@sound tag_keccak no_db iter_trie (map_run ∅ iter_ops).2) as Hs.
  { destruct (@trie_run_sound tag_keccak no_db Hdb iter_ops empty_trie ∅) as (t' & E & Hs).
    - constructor; [by apply represents_empty|exact I].
    - repeat constructor; lia.
    - unfold iter_trie. rewrite E. exact Hs. }
  apply (@iterate_entries tag_keccak no_db iter_trie (map_run ∅ iter_ops).2 [1] Hdb Hs (tag_clash_free _ _ _ Hdb Hs)).
  repeat constructor; lia.
Defined.
