(* ===== verification/RlpRaw.v ===== *)
(** * Splitting raw RLP ([src/rlp/raw.go])

    [readKind] and [readSize] parse one header, [Split], [SplitString] and
    [SplitList] cut off one value, [CountValues] counts the values of a payload.
    [Split] accepts exactly the canonical encodings ([split_exact]), so RLP
    encodings are uniquely decodable ([encode_item_inj]). *)

From S2P Require Import Prelude Rlp.

(** [Kind] *)
Inductive Kind := KByte | KString | KList.

#[global] Instance Kind_dec : EqDecision Kind.
Proof. solve_decision. Defined.

(** [readSize]: [slen] bytes, big endian (the cases of the switch); sizes below
    56 and leading zero bytes are rejected. *)
Definition readSize (b : list Z) (slen : Z) : outcome rlp_error Z :=
  if bool_decide (Z.of_nat (length b) < slen) then Err ErrUnexpectedEOF
  else
    let s := be_uint (take (Z.to_nat slen) b) in
    b0 ← or_panic (head b);
    if bool_decide (s < 56 \/ b0 = 0) then Err ErrCanonSize else Ok s.

(** [readKind]: the kind, the tag size and the content size. *)
Definition readKind (buf : list Z) : outcome rlp_error (Kind * Z * Z) :=
  match buf with
  | [] => Err ErrUnexpectedEOF
  | b :: tl =>
      '(k, tagsize, contentsize) ←
        (if bool_decide (b < 0x80) then Ok (KByte, 0, 1)
         else if bool_decide (b < 0xB8) then
           if bool_decide (b - 0x80 = 1) && match tl with b1 :: _ => bool_decide (b1 < 128) | [] => false end
           then Err ErrCanonSize
           else Ok (KString, 1, b - 0x80)
         else if bool_decide (b < 0xC0) then
           s ← readSize tl (b - 0xB7);
           Ok (KString, b - 0xB7 + 1, s)
         else if bool_decide (b < 0xF8) then Ok (KList, 1, b - 0xC0)
         else
           s ← readSize tl (b - 0xF7);
           Ok (KList, b - 0xF7 + 1, s));
      if bool_decide (u64 (Z.of_nat (length buf) - tagsize) < contentsize) then Err ErrValueTooLarge
      else Ok (k, tagsize, contentsize)
  end.

(** [Split], [SplitString] and [SplitList] *)
Definition Split (b : list Z) : outcome rlp_error (Kind * list Z * list Z) :=
  '(k, ts, cs) ← readKind b;
  Ok (k, take (Z.to_nat cs) (drop (Z.to_nat ts) b), drop (Z.to_nat (ts + cs)) b).

Definition SplitString (b : list Z) : outcome rlp_error (list Z * list Z) :=
  '(k, content, rest) ← Split b;
  if bool_decide (k = KList) then Err ErrExpectedString else Ok (content, rest).

Definition SplitList (b : list Z) : outcome rlp_error (list Z * list Z) :=
  '(k, content, rest) ← Split b;
  if bool_decide (k <> KList) then Err ErrExpectedList else Ok (content, rest).

(** [CountValues]: every iteration consumes at least one byte. *)
Fixpoint CountValues_loop (fuel : nat) (b : list Z) (i : Z) : outcome rlp_error Z :=
  match b, fuel with
  | [], _ => Ok i
  | _, O => OutOfFuel
  | _, S fuel =>
      '(_, tagsize, size) ← readKind b;
      CountValues_loop fuel (drop (Z.to_nat (tagsize + size)) b) (i + 1)
  end.

Definition CountValues (b : list Z) : outcome rlp_error Z := CountValues_loop (length b) b 0.

(** ** Canonical frames *)

(** The encoding of a payload of a given kind, and which payloads have it. *)
Definition frame (k : Kind) (c : list Z) : list Z :=
  match k with
  | KByte | KString => encode_str c
  | KList => header 0xC0 0xF7 (Z.of_nat (length c)) ++ c
  end.

Definition single (c : list Z) : bool := match c with [x] => bool_decide (x < 128) | _ => false end.

Definition kind_ok (k : Kind) (c : list Z) : Prop :=
  match k with KByte => single c = true | KString => single c = false | KList => True end.

Lemma encode_str_frame c : single c = false -> encode_str c = header 0x80 0xB7 (Z.of_nat (length c)) ++ c.
Proof.
  destruct c as [|x [|y c]]; simpl; try done. case_bool_decide; [done|]. by intros _.
Qed.

(** ** Long sizes *)

Lemma be_uint_head_pos b l : bytes_ok l -> 0 < b -> 256 ^ Z.of_nat (length l) <= be_uint (b :: l).
Proof.
  intros Hl Hb. rewrite be_uint_cons. pose proof (be_uint_range l Hl). pose proof (pow256_pos (length l)). nia.
Qed.

Lemma intsize_be_uint l :
  bytes_ok l -> (1 <= length l <= 8)%nat -> head l <> Some 0 -> intsize (be_uint l) = Z.of_nat (length l).
Proof.
  intros Hl Hlen Hh. destruct l as [|b l]; [simpl in Hlen; lia|]. simpl in Hlen.
  pose proof (be_uint_range _ Hl) as Hr. apply Forall_cons in Hl as [Hb Hl].
  assert (0 < b) by (unfold is_byte in Hb; simpl in Hh; assert (b <> 0) by congruence; lia).
  pose proof (be_uint_head_pos b l Hl ltac:(lia)).
  rewrite (intsize_pow (length l)); [simpl; lia|lia|]. simpl length in Hr. lia.
Qed.

Lemma be_bytes_head n : 56 <= n < 2 ^ 64 -> exists b l, be_bytes (Z.to_nat (intsize n)) n = b :: l /\ 0 < b.
Proof.
  intros Hn. rewrite <- putint_spec, <- big_bytes_u64 by lia. apply big_bytes_cons. lia.
Qed.

(** Reading back the size of a long header. *)
Lemma readSize_header n rest :
  56 <= n < 2 ^ 64 -> readSize (be_bytes (Z.to_nat (intsize n)) n ++ rest) (intsize n) = Ok n.
Proof.
  intros Hn. pose proof (intsize_range n ltac:(lia)) as Hi. unfold readSize.
  rewrite bool_decide_false by (rewrite length_app, length_be_bytes; lia).
  rewrite take_app_length' by (by rewrite length_be_bytes).
  rewrite be_uint_be_bytes, Z2Nat.id by lia.
  rewrite Z.mod_small by (split; [lia|apply intsize_bound; lia]).
  destruct (be_bytes_head n Hn) as (b & l & -> & Hb). simpl.
  rewrite bool_decide_false by lia. done.
Qed.

(** A size that was read is the canonical size of its bytes. *)
Lemma readSize_inv b slen s :
  bytes_ok b -> 1 <= slen <= 8 -> readSize b slen = Ok s ->
  56 <= s < 2 ^ 64 /\ intsize s = slen /\ slen <= Z.of_nat (length b) /\
  take (Z.to_nat slen) b = be_bytes (Z.to_nat (intsize s)) s.
Proof.
  intros Hb Hs. unfold readSize. case_bool_decide as Hlen; [done|]. intros E. inv_ok.
  case_bool_decide as Hc; [done|]. injection E as <-.
  set (l := take (Z.to_nat slen) b) in *. assert (bytes_ok l) as Hl by by apply bytes_ok_take.
  assert (length l = Z.to_nat slen) as Hll by (unfold l; rewrite length_take; lia).
  assert (head l <> Some 0) as Hh.
  { unfold l. destruct b as [|x b]; [done|]. simpl in E0. injection E0 as ->.
    destruct (Z.to_nat slen) eqn:En; [lia|]. simpl. intros [= ->]. lia. }
  pose proof (intsize_be_uint l Hl ltac:(lia) Hh) as Hi. pose proof (be_uint_range l Hl) as Hr.
  rewrite Hll in Hi, Hr.
  assert (be_uint l < 2 ^ 64).
  { eapply Z.lt_le_trans; [apply Hr|]. change (2 ^ 64) with (256 ^ 8). apply Z.pow_le_mono_r; lia. }
  split_and!; [lia|lia|lia|lia|]. rewrite Hi, Nat2Z.id. symmetry. by apply be_bytes_be_uint.
Qed.

(** ** [Split] is exact *)

Lemma u64_sub_len (n t : Z) : 0 <= t <= n -> n < 2 ^ 64 -> u64 (n - t) = n - t.
Proof. intros. apply u64_small. unfold in_u64. lia. Qed.

(** Reading the header of a payload of [n] bytes. *)
Lemma readKind_header (k : Kind) small large n (rest : list Z) :
  (k = KString /\ small = 0x80 /\ large = 0xB7) \/ (k = KList /\ small = 0xC0 /\ large = 0xF7) ->
  0 <= n <= Z.of_nat (length rest) -> Z.of_nat (length (header small large n ++ rest)) < 2 ^ 64 ->
  (k = KString -> n = 1 -> exists x, head rest = Some x /\ 128 <= x) ->
  readKind (header small large n ++ rest) = Ok (k, headsize n, n).
Proof.
  intros Hk Hn Hlen H1. rewrite length_app in Hlen.
  assert (n < 2 ^ 64) as Hn64 by lia.
  pose proof (length_header small large n ltac:(lia)) as Hh. unfold headsize in *.
  unfold readKind. unfold header in *. case_bool_decide as H56.
  - cbn [app length] in *.
    assert (bool_decide (small + n < 0x80) = false) as -> by (apply bool_decide_false; lia).
    destruct Hk as [(-> & -> & ->)|(-> & -> & ->)].
    + rewrite bool_decide_true by lia.
      assert (bool_decide (128 + n - 128 = 1) && match rest with b1 :: _ => bool_decide (b1 < 128) | [] => false end = false) as ->.
      { apply andb_false_iff. destruct (decide (n = 1)) as [->|?]; [right|left; apply bool_decide_false; lia].
        destruct (H1 eq_refl eq_refl) as (x & Hx & Hge). destruct rest; simplify_eq/=. apply bool_decide_false. lia. }
      cbn [mbind outcome_bind]. rewrite u64_sub_len by lia. rewrite bool_decide_false by lia.
      do 2 f_equal. lia.
    + do 2 rewrite bool_decide_false by lia. rewrite bool_decide_true by lia.
      cbn [mbind outcome_bind]. rewrite u64_sub_len by lia. rewrite bool_decide_false by lia.
      do 2 f_equal. lia.
  - pose proof (intsize_range n ltac:(lia)) as Hi. cbn [app length] in *.
    rewrite length_app, length_be_bytes in *.
    destruct Hk as [(-> & -> & ->)|(-> & -> & ->)].
    + do 2 rewrite bool_decide_false by lia. rewrite bool_decide_true by lia.
      replace (183 + intsize n - 183) with (intsize n) by lia. rewrite readSize_header by lia.
      cbn [mbind outcome_bind]. rewrite u64_sub_len by lia. rewrite bool_decide_false by lia.
      do 3 f_equal. lia.
    + do 4 rewrite bool_decide_false by lia.
      replace (247 + intsize n - 247) with (intsize n) by lia. rewrite readSize_header by lia.
      cbn [mbind outcome_bind]. rewrite u64_sub_len by lia. rewrite bool_decide_false by lia.
      do 3 f_equal. lia.
Qed.

Lemma length_frame_ge k c : (length c <= length (frame k c))%nat.
Proof. destruct k; simpl; [apply length_encode_str_ge..|rewrite length_app; lia]. Qed.

(** Splitting off a framed payload. *)
Lemma Split_header k small large c r :
  (k = KString /\ small = 0x80 /\ large = 0xB7) \/ (k = KList /\ small = 0xC0 /\ large = 0xF7) ->
  kind_ok k c -> let n := Z.of_nat (length c) in
  Z.of_nat (length (header small large n ++ c ++ r)) < 2 ^ 64 ->
  Split (header small large n ++ c ++ r) = Ok (k, c, r).
Proof.
  intros Hk Hc n Hlen. assert (0 <= n) as Hn0 by (unfold n; lia).
  rewrite !length_app in Hlen. assert (n < 2 ^ 64) by (unfold n; lia). unfold Split. rewrite readKind_header with (k := k).
  - cbn [mbind outcome_bind]. pose proof (length_header small large n) as Hh.
    rewrite <- Hh by lia.
    rewrite Z2Nat.inj_add, !Nat2Z.id by lia. rewrite drop_app_length.
    unfold n. rewrite Nat2Z.id, take_app_length, drop_app_add, drop_app_length. done.
  - done.
  - rewrite length_app. unfold n. lia.
  - rewrite !length_app. lia.
  - intros -> Hn. unfold n in Hn. destruct c as [|x [|y c]]; simpl in Hn; try lia. simpl in Hc |- *.
    exists x. split; [done|]. apply bool_decide_eq_false in Hc. lia.
Qed.

Lemma Split_frame k c r :
  kind_ok k c -> Z.of_nat (length (frame k c ++ r)) < 2 ^ 64 -> Split (frame k c ++ r) = Ok (k, c, r).
Proof.
  intros Hc Hlen. destruct k; cbn [frame] in *.
  - destruct c as [|x [|y c]]; try done. simpl in *. unfold Split, readKind.
    rewrite Hc in *. cbn [app length] in *. rewrite Hc. cbn [mbind outcome_bind].
    rewrite u64_sub_len by lia. by rewrite bool_decide_false by lia.
  - rewrite encode_str_frame in * by done. rewrite <- app_assoc in *. apply Split_header; [by left|done|done].
  - rewrite <- app_assoc in *. apply Split_header; [by right|done|done].
Qed.

Lemma readSize_long tl slen s :
  bytes_ok tl -> Z.of_nat (S (length tl)) < 2 ^ 64 -> 1 <= slen <= 8 -> readSize tl slen = Ok s ->
  ~ u64 (Z.of_nat (S (length tl)) - (slen + 1)) < s ->
  tl = be_bytes (Z.to_nat (intsize s)) s ++ drop (Z.to_nat slen) tl /\ intsize s = slen /\ 56 <= s /\
  slen <= Z.of_nat (length tl) /\ s <= Z.of_nat (length (drop (Z.to_nat slen) tl)).
Proof.
  intros Htl Hlen Hs Hrs Hv. destruct (readSize_inv tl slen s Htl Hs Hrs) as (Hr & Hi & Hl & Ht).
  rewrite u64_sub_len in Hv by lia. rewrite <- Ht, take_drop, length_drop. split_and!; try done; lia.
Qed.

(** What a parsed header says about the input. *)
Lemma readKind_inv b k ts cs :
  bytes_ok b -> Z.of_nat (length b) < 2 ^ 64 -> readKind b = Ok (k, ts, cs) ->
  exists h rest, b = h ++ rest /\ Z.of_nat (length h) = ts /\ 0 <= cs <= Z.of_nat (length rest) /\
    match k with
    | KByte => h = [] /\ cs = 1 /\ exists x, head rest = Some x /\ x < 128
    | KString => h = header 0x80 0xB7 cs /\ (cs = 1 -> exists x, head rest = Some x /\ 128 <= x)
    | KList => h = header 0xC0 0xF7 cs
    end.
Proof.
  intros Hb Hlen. destruct b as [|b tl]; [done|]. apply Forall_cons in Hb as [Hb Htl]. unfold is_byte in Hb.
  unfold readKind. intros E. apply bind_ok_inv in E as ([[k' ts'] cs'] & E1 & E2). cbv beta iota in E2.
  destruct (bool_decide (u64 (Z.of_nat (length (b :: tl)) - ts') < cs')) eqn:Ev; [done|].
  apply bool_decide_eq_false in Ev. injection E2 as -> -> ->. cbn [length] in *.
  destruct (bool_decide_reflect (b < 0x80)) as [H80|H80].
  { injection E1 as <- <- <-. exists [], (b :: tl). simpl. split_and!; try done; try lia. eauto. }
  destruct (bool_decide_reflect (b < 0xB8)) as [HB8|HB8].
  { destruct (bool_decide (b - 0x80 = 1) && _) eqn:Ec; [done|]. injection E1 as <- <- <-.
    rewrite u64_sub_len in Ev by lia. exists [b], tl. split_and!; try done; try lia.
    - unfold header. rewrite bool_decide_true by lia. f_equal. lia.
    - intros H1. rewrite bool_decide_true in Ec by done. destruct tl as [|y tl]; [simpl in Ev; lia|].
      exists y. split; [done|]. simpl in Ec. apply bool_decide_eq_false in Ec. lia. }
  destruct (bool_decide_reflect (b < 0xC0)) as [HC0|HC0].
  { apply bind_ok_inv in E1 as (s & Hrs & E1). injection E1 as <- <- ->.
    destruct (readSize_long tl (b - 0xB7) cs Htl Hlen ltac:(lia) Hrs Ev) as (Ht & Hi & H56 & Hl & Hd).
    exists (header 0x80 0xB7 cs), (drop (Z.to_nat (b - 0xB7)) tl). unfold header.
    rewrite bool_decide_false by lia. split_and!; try done; try lia.
    - cbn [app]. rewrite Hi at 1. rewrite <- Ht. f_equal. lia.
    - cbn [length]. rewrite length_be_bytes. lia. }
  destruct (bool_decide_reflect (b < 0xF8)) as [HF8|HF8].
  { injection E1 as <- <- <-. rewrite u64_sub_len in Ev by lia. exists [b], tl. split_and!; try done; try lia.
    unfold header. rewrite bool_decide_true by lia. f_equal. lia. }
  apply bind_ok_inv in E1 as (s & Hrs & E1). injection E1 as <- <- ->.
  destruct (readSize_long tl (b - 0xF7) cs Htl Hlen ltac:(lia) Hrs Ev) as (Ht & Hi & H56 & Hl & Hd).
  exists (header 0xC0 0xF7 cs), (drop (Z.to_nat (b - 0xF7)) tl). unfold header.
  rewrite bool_decide_false by lia. split_and!; try done; try lia.
  - cbn [app]. rewrite Hi at 1. rewrite <- Ht. f_equal. lia.
  - cbn [length]. rewrite length_be_bytes. lia.
Qed.

Lemma Split_inv b k c r :
  bytes_ok b -> Z.of_nat (length b) < 2 ^ 64 -> Split b = Ok (k, c, r) -> b = frame k c ++ r /\ kind_ok k c.
Proof.
  intros Hb Hlen E. unfold Split in E. apply bind_ok_inv in E as ([[k' ts] cs] & E & E2). cbv beta iota in E2.
  injection E2 as -> <- <-. destruct (readKind_inv b k ts cs Hb Hlen E) as (h & rest & -> & Hh & Hcs & Hk).
  assert (Z.to_nat ts = length h) as Hts by lia.
  rewrite Z2Nat.inj_add, Hts by lia. rewrite drop_app_length, drop_app_add.
  set (c := take (Z.to_nat cs) rest). assert (Z.of_nat (length c) = cs) as Hc by (unfold c; rewrite length_take; lia).
  assert (c ++ drop (Z.to_nat cs) rest = rest) as Hcr by apply take_drop.
  destruct k; cbn [frame kind_ok].
  - destruct Hk as (-> & -> & x & Hx & Hlt). destruct rest as [|y rest]; simplify_eq/=.
    split; [|by apply bool_decide_true]. rewrite bool_decide_true by done. done.
  - destruct Hk as (-> & H1). assert (single c = false) as Hs.
    { destruct c as [|y [|z c']] eqn:Ec; try done. simpl. destruct (H1 ltac:(simpl in Hc; lia)) as (x & Hx & Hge).
      rewrite <- Hcr in Hx. simplify_eq/=. apply bool_decide_false. lia. }
    split; [|done]. rewrite encode_str_frame, Hc, <- app_assoc, Hcr by done. done.
  - subst h. split; [|done]. rewrite Hc, <- app_assoc, Hcr. done.
Qed.

Lemma readSize_settled b slen : 1 <= slen -> settled (readSize b slen).
Proof.
  intros Hs. unfold readSize. case_bool_decide as Hl; [right; eauto|].
  destruct b as [|x b]; [simpl in Hl; lia|]. cbn [head or_panic mbind outcome_bind].
  case_bool_decide; [right|left]; eauto.
Qed.

Lemma readKind_settled b : settled (readKind b).
Proof.
  unfold readKind. destruct b as [|x b]; [right; eauto|]. apply settled_bind.
  - case_bool_decide; [left; eauto|]. case_bool_decide; [case_match; [right|left]; eauto|].
    case_bool_decide; [apply settled_bind; [apply readSize_settled; lia|left; eauto]|].
    case_bool_decide; [left; eauto|apply settled_bind; [apply readSize_settled; lia|left; eauto]].
  - intros [[k ts] cs] _. case_bool_decide; [right|left]; eauto.
Qed.

Lemma Split_settled b : settled (Split b).
Proof. apply settled_bind; [apply readKind_settled|]. intros [[k ts] cs] _. left. eauto. Qed.

(** On every input shorter than 2^64 bytes, [Split]
    succeeds exactly on a canonical encoding followed by any bytes, and returns
    its kind, its payload and those bytes; every other input, a non-minimal
    header or a truncated value, is an error and not a panic. *)
Theorem split_exact b k c r :
  bytes_ok b -> Z.of_nat (length b) < 2 ^ 64 ->
  (Split b = Ok (k, c, r) <-> b = frame k c ++ r /\ kind_ok k c) /\
  ((forall k c r, b = frame k c ++ r -> ~ kind_ok k c) -> exists e, Split b = Err e).
Proof.
  intros Hb Hlen. split; [split|].
  - by apply Split_inv.
  - intros [-> Hk]. by apply Split_frame.
  - intros Hno. destruct (Split_settled b) as [[[[k' c'] r'] E]|He]; [|done].
    destruct (Split_inv _ _ _ _ Hb Hlen E) as [E' Hk]. by destruct (Hno _ _ _ E').
Qed.

Lemma split_exact_witness :
  Split [0x83; 0x64; 0x6f; 0x67; 0xc0] = Ok (KString, [0x64; 0x6f; 0x67], [0xc0]) /\
  exists e, Split [0x81; 0x05] = Err e.
Proof.
  split.
  - apply (split_exact [0x83; 0x64; 0x6f; 0x67; 0xc0] KString [0x64; 0x6f; 0x67] [0xc0]);
      [repeat constructor; lia|simpl; lia|by split].
  - apply (split_exact [0x81; 0x05] KString [] []); [repeat constructor; lia|simpl; lia|].
    intros k c r E Hk. pose proof (Split_frame k c r Hk ltac:(rewrite <- E; simpl; lia)) as Hs.
    rewrite <- E in Hs. discriminate Hs.
Defined.

(** ** Unique decoding *)

(** An item fits when its encoding has fewer than 2^64 bytes. *)
Lemma encode_item_frame i :
  exists k c, encode_item i = frame k c /\ kind_ok k c /\
    match i with Str b => k <> KList /\ c = b | Lst l => k = KList /\ c = concat (map encode_item l) end.
Proof.
  destruct i as [b|l]; cbn [encode_item].
  - destruct (single b) eqn:E; [exists KByte, b|exists KString, b]; done.
  - exists KList, (concat (map encode_item l)). done.
Qed.

Section item_induction.
Context (P : item -> Prop) (HStr : forall b, P (Str b)) (HLst : forall l, Forall P l -> P (Lst l)).

Fixpoint item_nested_ind (i : item) : P i :=
  match i with
  | Str b => HStr b
  | Lst l => HLst l ((fix go l : Forall P l :=
                        match l with
                        | [] => Forall_nil_2 P
                        | i :: l => Forall_cons_2 P i l (item_nested_ind i) (go l)
                        end) l)
  end.
End item_induction.

Lemma encode_item_nonempty i : (0 < length (encode_item i))%nat.
Proof.
  destruct i as [[|x [|y b]]|l]; cbn [encode_item encode_str].
  - simpl. lia.
  - case_bool_decide; simpl; lia.
  - rewrite length_app. simpl. lia.
  - rewrite length_app. pose proof (length_header_ge 0xC0 0xF7 (Z.of_nat (length (concat (map encode_item l))))). lia.
Qed.

(** No encoding is a prefix of another one, and equal encodings are equal items. *)
Lemma encode_item_prefix i : forall j r1 r2,
  Z.of_nat (length (encode_item i ++ r1)) < 2 ^ 64 ->
  encode_item i ++ r1 = encode_item j ++ r2 -> i = j /\ r1 = r2.
Proof.
  induction i as [b|l IH] using item_nested_ind; intros j r1 r2 Hlen E.
  all: destruct (encode_item_frame j) as (k2 & c2 & E2 & Hk2 & H2).
  all: match goal with |- ?i = _ /\ _ => destruct (encode_item_frame i) as (k1 & c1 & E1 & Hk1 & H1) end.
  all: rewrite E1 in E, Hlen; rewrite E2 in E.
  all: pose proof (Split_frame k1 c1 r1 Hk1 Hlen) as S1.
  all: rewrite E in S1, Hlen; rewrite (Split_frame k2 c2 r2 Hk2 Hlen) in S1; injection S1 as -> -> ->.
  - destruct H1 as [Hk ->]. destruct j as [b'|l']; [by destruct H2 as [_ ->]|by destruct H2].
  - destruct H1 as [-> ->]. destruct j as [b'|l']; [by destruct H2|]. destruct H2 as [_ Hc].
    split; [|done]. f_equal. clear E2 Hk1 Hk2. rewrite length_app in Hlen.
    pose proof (length_frame_ge KList (concat (map encode_item l))).
    assert (Z.of_nat (length (concat (map encode_item l))) < 2 ^ 64) as Hl by lia.
    clear -IH Hc Hl. revert l' Hc Hl. induction IH as [|i l Hi _ IHl]; intros [|j l'] Hc Hl; simpl in *.
    + done.
    + pose proof (encode_item_nonempty j) as Hj. destruct (encode_item j); simpl in *; [lia|done].
    + pose proof (encode_item_nonempty i) as Hj. destruct (encode_item i); simpl in *; [lia|done].
    + rewrite length_app in Hl. destruct (Hi j (concat (map encode_item l)) (concat (map encode_item l')))
        as [-> E]; [rewrite length_app; lia|done|]. f_equal. apply IHl; [done|lia].
Qed.

Lemma encode_item_inj i j :
  Z.of_nat (length (encode_item i)) < 2 ^ 64 -> encode_item i = encode_item j -> i = j.
Proof.
  intros Hlen E. apply (encode_item_prefix i j [] []); rewrite !app_nil_r; done.
Qed.

(** [CountValues] on the payload of a list counts its elements. *)
Lemma CountValues_loop_items l : forall fuel i,
  (length l <= fuel)%nat -> Z.of_nat (length (concat (map encode_item l))) < 2 ^ 64 ->
  CountValues_loop fuel (concat (map encode_item l)) i = Ok (i + Z.of_nat (length l)).
Proof.
  induction l as [|it l IH]; intros fuel i Hf Hl.
  { simpl. destruct fuel; do 2 f_equal; lia. }
  destruct fuel as [|fuel]; simpl in Hf; [lia|]. cbn [map concat] in *.
  destruct (encode_item_frame it) as (k & c & E & Hk & _). rewrite length_app in Hl.
  pose proof (Split_frame k c (concat (map encode_item l)) Hk ltac:(rewrite length_app, <- E; lia)) as Hs.
  rewrite <- E in Hs. unfold Split in Hs. apply bind_ok_inv in Hs as ([[k' ts] cs] & Hr & Hs).
  cbv beta iota in Hs. injection Hs as -> Hc Hd.
  pose proof (encode_item_nonempty it). destruct (encode_item it ++ _) as [|x b] eqn:Eb.
  { apply app_eq_nil in Eb as [Eb _]. rewrite Eb in *. simpl in *. lia. }
  cbn [CountValues_loop]. rewrite Hr. cbn [mbind outcome_bind]. rewrite Hd, IH by lia. f_equal. simpl. lia.
Qed.

Lemma length_concat_items l : (length l <= length (concat (map encode_item l)))%nat.
Proof.
  induction l as [|i l IH]; [done|]. simpl. rewrite length_app. pose proof (encode_item_nonempty i). lia.
Qed.

Lemma CountValues_items l :
  Z.of_nat (length (concat (map encode_item l))) < 2 ^ 64 ->
  CountValues (concat (map encode_item l)) = Ok (Z.of_nat (length l)).
Proof.
  intros Hl. unfold CountValues. rewrite CountValues_loop_items; [done|apply length_concat_items|done].
Qed.
