(* ===== verification/TrieBinding.v ===== *)
(** * The root hash binds the content of a trie

    [root_hash_binding]: two tries with the same root hash hold the same bindings,
    if the hash function does not collide on the node encodings of the two tries.
    Together with [root_hash_content] the root hash is a faithful name of the
    content. *)

From S2P Require Import Prelude Common TrieEncoding Trie TrieSpec TrieMap.
From S2P Require Import TrieCanon Rlp Sha3 TrieHash TrieMerkle RlpRaw.

Section binding.
Context `{Keccak}.

(** The encodings of a node and of the nodes below it. *)
Fixpoint blobs (n : node) : list (list Z) :=
  match n with
  | ShortNode _ c _ => blob (mraw n) :: blobs c
  | FullNode ch _ => blob (mraw n) :: concat (map blobs ch)
  | _ => []
  end.

(** The encoding of a node fits the length fields of the encoder. *)
Definition fits (n : node) : Prop := Z.of_nat (length (encode_item (node_item (mraw n)))) < 2 ^ 64.

Definition plain (n : node) : bool := match n with ShortNode _ _ _ | FullNode _ _ => true | _ => false end.

Inductive small : node -> Prop :=
  | small_short k c f : fits (ShortNode k c f) -> small c -> small (ShortNode k c f)
  | small_full ch f : fits (FullNode ch f) -> (forall i c, ch !! i = Some c -> small c) -> small (FullNode ch f)
  | small_leaf n : plain n = false -> small n.

Lemma small_fits n : plain n = true -> small n -> fits n.
Proof. intros Hp Hs. destruct Hs; [done..|congruence]. Qed.

Lemma blob_item n : fits n -> blob (mraw n) = encode_item (node_item (mraw n)).
Proof.
  intros Hf. pose proof (node_rval_item (mraw n)) as Hi. unfold blob.
  by destruct (encode_ok _ _ _ Hi Hf) as [_ ->].
Qed.

Lemma plain_mraw n : plain (mraw n) = plain n.
Proof. by destruct n. Qed.

Lemma plain_wf g n : wf no_db g n -> plain n = true.
Proof. by destruct 1. Qed.

Lemma plain_item n : plain n = true -> exists l, node_item n = Lst l.
Proof. destruct n; simpl; try done; eauto. Qed.

Lemma mref_plain f n :
  plain n = true ->
  mref f n = if embeds f (mraw n) then mraw n else HashNode (keccak256 (blob (mraw n))).
Proof. intros Hp. unfold mref. apply collapse_ref_plain. rewrite <- plain_mraw in Hp. by destruct (mraw n). Qed.

(** Equal references are references to equal encodings. *)
Lemma ref_item_eq f n1 n2 :
  plain n1 = true -> plain n2 = true -> fits n1 -> fits n2 ->
  no_collision [blob (mraw n1)] [blob (mraw n2)] ->
  node_item (mref f n1) = node_item (mref f n2) -> node_item (mraw n1) = node_item (mraw n2).
Proof.
  intros P1 P2 F1 F2 Hnc. rewrite !mref_plain by done.
  destruct (plain_item (mraw n1)) as [l1 E1]; [by rewrite plain_mraw|].
  destruct (plain_item (mraw n2)) as [l2 E2]; [by rewrite plain_mraw|].
  destruct (embeds f (mraw n1)), (embeds f (mraw n2)); simpl; rewrite ?E1, ?E2; try done.
  intros [= Hk]. apply Hnc in Hk; [|by left..]. rewrite !blob_item in Hk by done.
  rewrite <- E1, <- E2. by apply encode_item_inj.
Qed.

(** A reference to a node is not the empty string. *)
Lemma ref_item_nonempty f n : plain n = true -> node_item (mref f n) <> Str [] /\ mref f n <> Nil.
Proof.
  intros Hp. rewrite mref_plain by done. rewrite <- plain_mraw in Hp. destruct (embeds f (mraw n)).
  - by destruct (mraw n).
  - split; [|done]. simpl. intros [= E]. destruct (keccak256_ok (blob (mraw n))) as [Hl _]. by rewrite E in Hl.
Qed.

Lemma compact_inj k1 k2 : hex_ok k1 -> hex_ok k2 -> compact k1 = compact k2 -> k1 = k2.
Proof.
  intros H1 H2 E. destruct (compact_total k1 H1) as (c1 & E1 & _ & D1). destruct (compact_total k2 H2) as (c2 & E2 & _ & D2).
  unfold compact in E. rewrite E1, E2 in E. simpl in E. congruence.
Qed.

Lemma wf_short_hex g k c f : wf no_db g (ShortNode k c f) -> hex_ok k.
Proof. inversion 1; subst; [right; eauto|by left]. Qed.

Lemma no_collision_mono xs ys xs' ys' : no_collision xs ys -> xs' ⊆ xs -> ys' ⊆ ys -> no_collision xs' ys'.
Proof. intros Hn Hx Hy x y Hx' Hy'. apply Hn; auto. Qed.

Lemma blobs_plain n : plain n = true -> exists l, blobs n = blob (mraw n) :: l.
Proof. destruct n; simpl; try done; eauto. Qed.

Lemma blobs_child i (ch : list node) c : ch !! i = Some c -> blobs c ⊆ concat (map blobs ch).
Proof.
  intros Hc b Hb. apply list_elem_of_In, in_concat. exists (blobs c). split; [|by apply list_elem_of_In].
  apply in_map. by eapply list_elem_of_In, list_elem_of_lookup_2.
Qed.

Lemma mraw_full_lookup ch i c :
  length ch = 17%nat -> ch !! i = Some c ->
  (take 16 (map (mref false) ch) ++ drop 16 (map erase ch)) !! i = Some (if (i <? 16)%nat then mref false c else erase c).
Proof.
  intros Hlen Hc. pose proof (lookup_lt_Some _ _ _ Hc) as Hi. destruct (Nat.ltb_spec i 16).
  - rewrite lookup_app_l, lookup_take_lt, list_lookup_fmap, Hc by (rewrite ?length_take, ?length_map; lia). done.
  - rewrite lookup_app_r by (rewrite length_take, length_map; lia).
    rewrite length_take, length_map, Nat.min_l, lookup_drop, list_lookup_fmap by lia.
    replace (16 + (i - 16))%nat with i by lia. by rewrite Hc.
Qed.

Lemma mraw_full_item ch f i c :
  length ch = 17%nat -> ch !! i = Some c ->
  exists l, node_item (mraw (FullNode ch f)) = Lst l /\
    l !! i = Some (if (i <? 16)%nat then (if is_nil (mref false c) then Str [] else node_item (mref false c))
                   else (if is_nil (erase c) then Str [] else node_item (erase c))).
Proof.
  intros Hlen Hc. eexists. split; [reflexivity|]. rewrite list_lookup_fmap.
  etrans; [exact (f_equal (fmap _) (mraw_full_lookup ch i c Hlen Hc))|]. by destruct (i <? 16)%nat.
Qed.

(** The items of two canonical nodes determine them, one reference at a time. *)
Lemma short_item_eq g1 g2 k1 c1 f1 k2 c2 f2 :
  wf no_db g1 (ShortNode k1 c1 f1) -> wf no_db g2 (ShortNode k2 c2 f2) ->
  node_item (mraw (ShortNode k1 c1 f1)) = node_item (mraw (ShortNode k2 c2 f2)) ->
  k1 = k2 /\ ((exists v, c1 = ValueNode v /\ c2 = ValueNode v) \/
             (wf no_db g1 c1 /\ wf no_db g2 c2 /\ node_item (mref false c1) = node_item (mref false c2))).
Proof.
  intros W1 W2 E. pose proof (wf_short_hex _ _ _ _ W1) as X1. pose proof (wf_short_hex _ _ _ _ W2) as X2.
  cbn [mraw node_item] in E. injection E as Ek Ec. apply compact_inj in Ek; [|done..]. split; [done|].
  inversion W1 as [k v f Hk Hv|k c f Hk Hne Hb Hw| |]; subst;
    inversion W2 as [k' v' f' Hk' Hv' E'|k' c' f' Hk' Hne' Hb' Hw'| |]; subst.
  - injection Ec as ->. left. eauto.
  - apply Forall_app in Hk' as [_ Hk']. rewrite Forall_singleton in Hk'. unfold is_nibble, terminator in Hk'. lia.
  - apply Forall_app in Hk as [_ Hk]. rewrite Forall_singleton in Hk. unfold is_nibble, terminator in Hk. lia.
  - right. split_and!; [done..|]. destruct Hb; [|done]. by destruct Hb'.
Qed.

Lemma full_item_eq g1 g2 ch1 f1 ch2 f2 i c1 c2 :
  wf no_db g1 (FullNode ch1 f1) -> wf no_db g2 (FullNode ch2 f2) ->
  node_item (mraw (FullNode ch1 f1)) = node_item (mraw (FullNode ch2 f2)) ->
  ch1 !! i = Some c1 -> ch2 !! i = Some c2 ->
  erase c1 = erase c2 \/ (wf no_db g1 c1 /\ wf no_db g2 c2 /\ node_item (mref false c1) = node_item (mref false c2)).
Proof.
  intros W1 W2 E H1 H2. inversion W1 as [| |? ? L1 C1 V1 _|]; subst. inversion W2 as [| |? ? L2 C2 V2 _|]; subst.
  destruct (mraw_full_item ch1 f1 i c1 L1 H1) as (l1 & E1 & I1).
  destruct (mraw_full_item ch2 f2 i c2 L2 H2) as (l2 & E2 & I2).
  rewrite E1, E2 in E. injection E as <-. rewrite I1 in I2. injection I2 as I2.
  destruct (Nat.ltb_spec i 16) as [Hi|Hi].
  - destruct (decide (c1 = Nil)) as [->|N1], (decide (c2 = Nil)) as [->|N2]; [by left|..].
    + destruct (ref_item_nonempty false c2) as [X Y]; [by eapply plain_wf, C2|]. destruct (mref false c2); try done; by destruct X.
    + destruct (ref_item_nonempty false c1) as [X Y]; [by eapply plain_wf, C1|]. destruct (mref false c1); try done; by destruct X.
    + right. split_and!; [by eapply C1|by eapply C2|].
      destruct (ref_item_nonempty false c1) as [_ Y1]; [by eapply plain_wf, C1|].
      destruct (ref_item_nonempty false c2) as [_ Y2]; [by eapply plain_wf, C2|].
      destruct (mref false c1), (mref false c2); done.
  - left. pose proof (lookup_lt_Some _ _ _ H1). assert (i = 16%nat) as -> by lia.
    destruct (decide (c1 = Nil)) as [->|N1], (decide (c2 = Nil)) as [->|N2]; [done|..].
    + destruct (V2 _ H2 N2) as (v & Hv & ->). by injection I2 as <-.
    + destruct (V1 _ H1 N1) as (v & Hv & ->). by injection I2 as ->.
    + destruct (V1 _ H1 N1) as (v & Hv & ->), (V2 _ H2 N2) as (v' & Hv' & ->). by injection I2 as ->.
Qed.

(** Equal references to canonical nodes are references to the same node. *)
Lemma ref_binding n1 n2 f g1 g2 :
  wf no_db g1 n1 -> wf no_db g2 n2 -> small n1 -> small n2 -> no_collision (blobs n1) (blobs n2) ->
  node_item (mref f n1) = node_item (mref f n2) -> erase n1 = erase n2.
Proof.
  revert n2 f g1 g2. induction n1 as [|v|k c fl IH|ch fl IH|h] using node_nested_ind; intros n2 f g1 g2 W1 W2 S1 S2 Hnc E.
  1,2,5: by apply plain_wf in W1.
  all: pose proof (plain_wf _ _ W2) as P2; apply ref_item_eq in E; [|done|done|by apply small_fits..|
    destruct (blobs_plain n2 P2) as [l El]; eapply no_collision_mono; [exact Hnc|rewrite ?El; simpl; set_solver..]].
  - destruct n2 as [| |k2 c2 f2|ch2 f2|]; try done; [|inversion W2; subst; by destruct ch2 as [|? [|? [|? ?]]]].
    destruct (short_item_eq _ _ _ _ _ _ _ _ W1 W2 E) as (-> & [(v & -> & ->)|(V1 & V2 & Er)]); [done|].
    inversion S1; subst; [|done]. inversion S2; subst; [|done].
    simpl. f_equal. eapply (IH c2); [done..| |done]. eapply no_collision_mono; [exact Hnc|simpl; set_solver..].
  - destruct n2 as [| |k2 c2 f2|ch2 f2|]; try done; [inversion W1; subst; by destruct ch as [|? [|? [|? ?]]]|].
    simpl. f_equal. inversion W1 as [| |? ? L1|]; subst. inversion W2 as [| |? ? L2|]; subst.
    inversion S1; subst; [|done]. inversion S2; subst; [|done].
    apply list_eq_same_length with (n := 17%nat); rewrite ?length_map; [done..|].
    intros i x y _. rewrite !list_lookup_fmap, !fmap_Some. intros (c1 & Hc1 & ->) (c2 & Hc2 & ->).
    destruct (full_item_eq _ _ _ _ _ _ _ _ _ W1 W2 E Hc1 Hc2) as [?|(V1 & V2 & Er)]; [done|].
    rewrite Forall_lookup in IH. eapply (IH i c1 Hc1 c2); [done|done|eauto|eauto| |done].
    eapply no_collision_mono; [exact Hnc|..]; simpl; intros b Hb; right; by eapply blobs_child.
Qed.

(** ** Sizes *)

Lemma header_length s l n : 0 <= n < 2 ^ 64 -> Z.of_nat (length (header s l n)) <= 9.
Proof.
  intros Hn. rewrite length_header by done. unfold headsize. pose proof (intsize_range n Hn). case_bool_decide; lia.
Qed.

Lemma encode_str_length b : Z.of_nat (length b) < 2 ^ 64 -> Z.of_nat (length (encode_str b)) <= Z.of_nat (length b) + 9.
Proof.
  intros Hb. destruct (single b) eqn:Es.
  - destruct b as [|x [|y b]]; try done. simpl in *. case_bool_decide; simpl; lia.
  - rewrite encode_str_frame, length_app by done. pose proof (header_length 0x80 0xB7 (Z.of_nat (length b)) ltac:(lia)). lia.
Qed.

Lemma encode_lst_length l n :
  Z.of_nat (length (concat (map encode_item l))) <= n -> n < 2 ^ 64 -> Z.of_nat (length (encode_item (Lst l))) <= n + 9.
Proof.
  intros Hl Hn. cbn [encode_item]. rewrite length_app.
  pose proof (header_length 0xC0 0xF7 (Z.of_nat (length (concat (map encode_item l)))) ltac:(lia)). lia.
Qed.

Lemma compact_length k : hex_ok k -> (length (compact k) <= length k + 2)%nat.
Proof.
  intros Hk. assert (exists n (t : bool), nibbles_ok n /\ k = if t then n ++ [terminator] else n) as (n & t & Hn & ->).
  { destruct Hk as [Hk|(n & Hn & ->)]; [by exists k, false | by exists n, true]. }
  unfold compact. destruct (hexToCompact_spec n t Hn) as (c & -> & _ & Hc). simpl.
  apply (f_equal length) in Hc. rewrite key_nibbles_length in Hc.
  destruct (Nat.odd (length n)), t; simpl in Hc; rewrite ?length_app; simpl; lia.
Qed.

Lemma ref_length n :
  plain n = true -> fits n -> Z.of_nat (length (encode_item (node_item (mref false n)))) <= 33.
Proof.
  intros Hp Hf. rewrite mref_plain by done. unfold embeds. rewrite andb_true_r.
  destruct (Nat.ltb_spec (length (blob (mraw n))) 32) as [Hl|Hl].
  - rewrite blob_item in Hl by done. lia.
  - cbn [node_item encode_item]. destruct (keccak256_ok (blob (mraw n))) as [Hk _].
    rewrite encode_str_frame, length_app, Hk by (by destruct (keccak256 _) as [|? [|]]). done.
Qed.

Lemma concat_length_le {A} (l : list (list A)) (b : Z) :
  Forall (fun x => Z.of_nat (length x) <= b) l -> Z.of_nat (length (concat l)) <= Z.of_nat (length l) * b.
Proof. induction 1 as [|x l Hx Hl IH]; [simpl; lia|]. simpl. rewrite length_app. lia. Qed.

Definition short_bindings (g : Z) (n : node) : Prop :=
  forall k v, has no_db g n k v -> Z.of_nat (length k) < 2 ^ 40 /\ Z.of_nat (length v) < 2 ^ 40.

Lemma fits_full g ch f :
  wf no_db g (FullNode ch f) -> short_bindings g (FullNode ch f) ->
  (forall i c, ch !! i = Some c -> plain c = true -> fits c) -> fits (FullNode ch f).
Proof.
  intros W Hs Hf. inversion W as [| |? ? Hlen Hch H16 _|]; subst. unfold fits. cbn [mraw node_item].
  set (refs := take 16 _ ++ drop 16 _).
  assert (length refs = 17%nat) as Hl.
  { unfold refs. rewrite length_app, length_take, length_drop, !length_map, Hlen. done. }
  eapply Z.le_lt_trans; [apply (encode_lst_length _ (17 * (2 ^ 40 + 9)))|]; [|lia..].
  etrans; [apply (concat_length_le _ (2 ^ 40 + 9))|rewrite !length_map, Hl; lia].
  rewrite Forall_lookup. intros i x. rewrite !list_lookup_fmap. destruct (ch !! i) as [c|] eqn:Hc.
  2:{ apply lookup_ge_None_1 in Hc. rewrite lookup_ge_None_2 by lia. done. }
  destruct (mraw_full_item ch f i c Hlen Hc) as (l & El & Il). injection El as <-. rewrite list_lookup_fmap in Il.
  fold refs in Il. rewrite <- list_lookup_fmap, list_lookup_fmap, Il. intros [= <-].
  destruct (Nat.ltb_spec i 16) as [Hi|Hi].
  - destruct (is_nil (mref false c)) eqn:En; [simpl; lia|]. destruct (decide (c = Nil)) as [->|Hn]; [done|].
    pose proof (plain_wf _ _ (Hch i c Hi Hc Hn)) as Hp. pose proof (ref_length c Hp (Hf _ _ Hc Hp)). lia.
  - destruct (decide (c = Nil)) as [->|Hn]; [simpl; lia|]. pose proof (lookup_lt_Some _ _ _ Hc).
    assert (i = 16%nat) as -> by lia. destruct (H16 c Hc Hn) as (v & _ & ->). simpl.
    destruct (Hs (Z.of_nat 16 :: []) v) as [_ Hv]; [by econstructor; [|constructor]|].
    pose proof (encode_str_length v ltac:(lia)). lia.
Qed.

Lemma wf_small g n : wf no_db g n -> short_bindings g n -> small n.
Proof.
  induction 1 as [k v f Hk Hv|k c f Hk Hne Hb Hw IH|ch f Hlen Hch IH H16 Htwo|h n Hr]; intros Hs; [..|done].
  - constructor; [|by constructor]. destruct (Hs (k ++ [terminator]) v) as [Lk Lv]; [by apply has_leaf_iff|].
    unfold fits. cbn [mraw node_item].
    pose proof (compact_length (k ++ [terminator]) ltac:(right; eauto)) as Hc.
    eapply Z.le_lt_trans; [apply (encode_lst_length _ (2 ^ 42))|]; [|lia..]. cbn [map concat encode_item].
    rewrite app_nil_r, length_app.
    pose proof (encode_str_length (compact (k ++ [terminator])) ltac:(lia)).
    pose proof (encode_str_length v ltac:(lia)). lia.
  - assert (short_bindings g c) as Hs'.
    { intros k' v Hh. destruct (Hs (k ++ k') v) as [Lk Lv]; [by apply has_short_app|]. rewrite length_app in Lk. lia. }
    specialize (IH Hs'). constructor; [|done].
    destruct (wf_inhabited _ _ _ Hw) as (k' & v & Hh). destruct (Hs (k ++ k') v) as [Lk _]; [by apply has_short_app|].
    rewrite length_app in Lk. pose proof (plain_wf _ _ Hw) as Hp. pose proof (ref_length c Hp (small_fits _ Hp IH)) as Hl.
    unfold fits. cbn [mraw node_item]. eapply Z.le_lt_trans; [apply (encode_lst_length _ (2 ^ 42))|]; [|lia..].
    cbn [map concat encode_item]. rewrite app_nil_r, length_app.
    pose proof (compact_length k ltac:(by left)). pose proof (encode_str_length (compact k) ltac:(lia)).
    assert (node_item (match c with ValueNode _ => c | _ => collapse_ref false (mraw c) end) = node_item (mref false c)) as ->
      by (by destruct c). lia.
  - assert (forall i c, ch !! i = Some c -> small c) as Hsm.
    { intros i c Hc. destruct (decide (c = Nil)) as [->|Hn]; [by apply small_leaf|].
      pose proof (lookup_lt_Some _ _ _ Hc). destruct (decide (i < 16)%nat) as [Hi|Hi].
      - apply (IH i); [done..|]. intros k v Hh. destruct (Hs (Z.of_nat i :: k) v) as [Lk Lv]; [by apply (has_full_cons _ _ _ _ _ c)|].
        simpl in Lk. lia.
      - assert (i = 16%nat) as -> by lia. destruct (H16 c Hc Hn) as (v & _ & ->). by apply small_leaf. }
    constructor; [|done]. eapply fits_full; [by constructor|done|]. intros i c Hc Hp. eauto using small_fits.
Qed.

(** ** Binding *)

Definition root_blobs (n : node) : list (list Z) := match n with Nil => [[128]] | _ => blobs n end.

(** The encoding of a node of the trie with the bindings [m], or of the empty
    trie. *)
Definition node_blob (m : gmap (list Z) (list Z)) (b : list Z) : Prop :=
  exists t, represents no_db t m /\ b ∈ root_blobs (root t).

(** Lengths for which the encoder does not wrap around. *)
Definition short_map (m : gmap (list Z) (list Z)) : Prop :=
  forall k v, m !! k = Some v -> Z.of_nat (length k) < 2 ^ 32 /\ Z.of_nat (length v) < 2 ^ 32.

Lemma short_map_bindings t m : represents no_db t m -> short_map m -> short_bindings (cachegen t) (root t).
Proof.
  intros R Hm hk v Hh. apply (rep_has _ _ _ R) in Hh as (k & -> & Hk). destruct (Hm k v Hk) as [Lk Lv].
  rewrite keybytesToHex_length. lia.
Qed.

Lemma merkle_root_wf g n : wf no_db g n -> merkle_root n = keccak256 (blob (mraw n)).
Proof.
  intros W. pose proof (plain_wf _ _ W) as P. unfold merkle_root. rewrite mref_plain by done. unfold embeds. rewrite andb_false_r.
  destruct (keccak256_ok (blob (mraw n))) as [Hl Hb]. by apply BytesToHash_id.
Qed.

Lemma wf_blob_neq_empty g n : wf no_db g n -> small n -> blob (mraw n) <> [128].
Proof.
  intros W S. pose proof (plain_wf _ _ W) as P. rewrite blob_item by by apply small_fits.
  destruct (plain_item (mraw n)) as [l ->]; [by rewrite plain_mraw|].
  pose proof (encode_item_inj (Str []) (Lst l)) as Hi. simpl in Hi. intros E. by discriminate (Hi ltac:(lia) (eq_sym E)).
Qed.

(** The empty trie hashes to the hash of the empty string's encoding. *)
Context (empty_root : keccak256 [128] = emptyRoot).

Lemma merkle_root_inj t1 t2 m1 m2 :
  represents no_db t1 m1 -> represents no_db t2 m2 -> short_map m1 -> short_map m2 ->
  no_collision (root_blobs (root t1)) (root_blobs (root t2)) ->
  merkle_root (root t1) = merkle_root (root t2) -> erase (root t1) = erase (root t2).
Proof.
  intros R1 R2 M1 M2 Hnc E. pose proof (short_map_bindings _ _ R1 M1) as B1. pose proof (short_map_bindings _ _ R2 M2) as B2.
  destruct (rep_wf _ _ _ R1) as [E1|W1], (rep_wf _ _ _ R2) as [E2|W2].
  - congruence.
  - pose proof (wf_small _ _ W2 B2) as S2. pose proof (plain_wf _ _ W2) as P2. destruct (blobs_plain _ P2) as [l El].
    rewrite E1, (merkle_root_wf _ _ W2) in E. change (merkle_root Nil) with emptyRoot in E. rewrite <- empty_root in E.
    apply Hnc in E; [|rewrite E1; left|]; [by destruct (wf_blob_neq_empty _ _ W2 S2)|].
    destruct (root t2); try done; simpl; left.
  - pose proof (wf_small _ _ W1 B1) as S1. pose proof (plain_wf _ _ W1) as P1. destruct (blobs_plain _ P1) as [l El].
    rewrite E2, (merkle_root_wf _ _ W1) in E. change (merkle_root Nil) with emptyRoot in E. rewrite <- empty_root in E.
    apply Hnc in E; [|destruct (root t1); try done; simpl; left|rewrite E2; left].
    by destruct (wf_blob_neq_empty _ _ W1 S1).
  - pose proof (wf_small _ _ W1 B1) as S1. pose proof (wf_small _ _ W2 B2) as S2.
    pose proof (plain_wf _ _ W1) as P1. pose proof (plain_wf _ _ W2) as P2.
    rewrite (merkle_root_wf _ _ W1), (merkle_root_wf _ _ W2) in E.
    apply (ref_binding _ _ true _ _ W1 W2 S1 S2).
    + by destruct (root t1), (root t2).
    + rewrite !mref_plain by done. unfold embeds. rewrite !andb_false_r. simpl. by rewrite E.
Qed.
End binding.

(** An in-memory trie does not depend on the cache generation. *)
Lemma has_no_db g g' n k v : has no_db g n k v -> has no_db g' n k v.
Proof. induction 1; by econstructor. Qed.

Lemma erase_content t1 t2 m1 m2 :
  represents no_db t1 m1 -> represents no_db t2 m2 -> erase (root t1) = erase (root t2) -> m1 = m2.
Proof.
  intros R1 R2 E. assert (forall k v, bytes_ok k -> m1 !! k = Some v <-> m2 !! k = Some v) as Hl.
  { intros k v Hk. rewrite <- (rep_lookup _ _ _ k v R1 Hk), <- (rep_lookup _ _ _ k v R2 Hk).
    rewrite <- has_erase, <- (has_erase no_db (cachegen t2)), E. split; apply has_no_db. }
  apply map_eq. intros k. destruct (m1 !! k) as [v|] eqn:E1.
  - symmetry. by apply Hl; [eapply (rep_keys _ _ _ R1)|].
  - destruct (m2 !! k) as [v|] eqn:E2; [|done]. apply Hl in E2; [congruence|]. by eapply (rep_keys _ _ _ R2).
Qed.

Lemma sound_binding `{Keccak} d1 d2 t1 t2 m1 m2 :
  keccak256 [128] = emptyRoot -> db_coherent d1 -> db_coherent d2 -> sound d1 t1 m1 -> sound d2 t2 m2 ->
  short_map m1 -> short_map m2 ->
  (forall x y, node_blob m1 x -> node_blob m2 y -> keccak256 x = keccak256 y -> x = y) ->
  merkle_root (root t1) = merkle_root (root t2) -> m1 = m2.
Proof.
  intros He D1 D2 S1 S2 M1 M2 Hnc E.
  destruct (sound_loaded d1 D1 t1 m1 S1) as (l1 & R1 & E1). destruct (sound_loaded d2 D2 t2 m2 S2) as (l2 & R2 & E2).
  apply (erase_content l1 l2); [done..|]. apply (merkle_root_inj He l1 l2 m1 m2); try done; [|congruence].
  intros x y Hx Hy. apply Hnc; [by exists l1|by exists l2].
Qed.

(** C17: safety.  The root hash binds the content: take two tries over any two
    coherent databases, however they were built and whatever is loaded or cached,
    whose keys and values are shorter than 2^32 bytes.  If [Hash] returns the same
    root for both, and the hash function does not map an encoded node of one trie
    and a different encoded node of the other to the same value, then both tries
    hold the same bindings. *)
Theorem root_hash_binding `{Keccak} d1 d2 t1 t2 m1 m2 h u1 u2 :
  keccak256 [128] = emptyRoot -> db_coherent d1 -> db_coherent d2 -> sound d1 t1 m1 -> sound d2 t2 m2 ->
  short_map m1 -> short_map m2 ->
  (forall x y, node_blob m1 x -> node_blob m2 y -> keccak256 x = keccak256 y -> x = y) ->
  Hash t1 = Ok (h, u1) -> Hash t2 = Ok (h, u2) -> m1 = m2.
Proof.
  intros He D1 D2 S1 S2 M1 M2 Hnc H1 H2. destruct (Hash_spec _ _ _ S1) as (v1 & H1' & _).
  destruct (Hash_spec _ _ _ S2) as (v2 & H2' & _). apply (sound_binding d1 d2 t1 t2); try done. congruence.
Qed.

Lemma sha3_empty_root : @keccak256 sha3_keccak [128] = emptyRoot.
Proof. vm_compute. reflexivity. Qed.

Lemma blobs_erase `{Keccak} n : blobs (erase n) = blobs n.
Proof.
  induction n as [|v|k c f IH|ch f IH|h] using node_nested_ind; try done.
  - cbn [erase blobs]. rewrite IH. f_equal. change (ShortNode k (erase c) no_flag) with (erase (ShortNode k c f)).
    by rewrite mraw_erase.
  - cbn [erase blobs]. rewrite map_map. f_equal.
    + change (FullNode (map erase ch) no_flag) with (erase (FullNode ch f)). by rewrite mraw_erase.
    + f_equal. by apply map_ext_Forall.
Qed.

(** The encoded nodes are determined by the bindings. *)
Lemma node_blob_of `{Keccak} t m b : represents no_db t m -> node_blob m b -> b ∈ root_blobs (root t).
Proof.
  intros R (t' & R' & Hb). pose proof (represents_unique _ _ _ R' R) as E.
  destruct (root t') eqn:E', (root t); try done; cbn [root_blobs] in *; by rewrite <- blobs_erase, <- E, blobs_erase.
Qed.

Definition leaf_ops1 : list trie_op := [OpUpdate [1] [2]].
Definition leaf_ops2 : list trie_op := [OpUpdate [3] [4]; OpUpdate [1] [2]; OpDelete [3]].

(** A trie with one binding, built in two ways. *)
Lemma root_hash_binding_witness :
  exists h t1 t2 u1 u2,
    trie_run no_db empty_trie leaf_ops1 = Ok ((map_run ∅ leaf_ops1).1, t1) /\
    trie_run no_db empty_trie leaf_ops2 = Ok ((map_run ∅ leaf_ops2).1, t2) /\
    @Hash sha3_keccak t1 = Ok (h, u1) /\ @Hash sha3_keccak t2 = Ok (h, u2) /\
    (map_run ∅ leaf_ops1).2 = (map_run ∅ leaf_ops2).2.
Proof.
  assert (@db_coherent sha3_keccak no_db) as Hdb by (intros h g n Hn; discriminate Hn).
  assert (@sound sha3_keccak no_db empty_trie ∅) as S0 by (constructor; [by apply represents_empty|exact I]).
  destruct (@trie_run_sound sha3_keccak no_db Hdb leaf_ops1 _ _ S0) as (t1 & E1 & S1); [repeat constructor; lia|].
  destruct (@trie_run_sound sha3_keccak no_db Hdb leaf_ops2 _ _ S0) as (t2 & E2 & S2); [repeat constructor; lia|].
  assert ((map_run ∅ leaf_ops1).2 = {[ [1] := [2] ]}) as M1 by (vm_compute; reflexivity).
  assert ((map_run ∅ leaf_ops2).2 = {[ [1] := [2] ]}) as M2 by (vm_compute; reflexivity).
  destruct (Hash_spec _ _ _ S1) as (u1 & H1 & _), (Hash_spec _ _ _ S2) as (u2 & H2 & _).
  rewrite <- (merkle_root_content no_db no_db t1 t2 {[ [1] := [2] ]} Hdb Hdb) in H2 by congruence.
  exists (@merkle_root sha3_keccak (root t1)), t1, t2, u1, u2.
  split; [exact E1|]. split; [exact E2|]. split; [exact H1|]. split; [exact H2|].
  assert (exists b, @root_blobs sha3_keccak (root t1) = [b]) as [b Eb].
  { vm_compute in E1. injection E1 as <-. by eexists. }
  assert (short_map {[ [1] := [2] ]}) as Hm by (intros k v; rewrite lookup_singleton_Some; intros [<- <-]; simpl; lia).
  rewrite M1, M2 in *.
  apply (@root_hash_binding sha3_keccak no_db no_db t1 t2 _ _ _ _ _ sha3_empty_root Hdb Hdb S1 S2 Hm Hm
    (fun x y Hx Hy _ => ltac:(apply (node_blob_of _ _ _ (sound_rep _ _ _ S1)) in Hx, Hy;
       rewrite Eb, list_elem_of_singleton in Hx, Hy; congruence)) H1 H2).
Defined.
