(* ===== verification/TrieProof.v ===== *)
(** * Stored nodes and Merkle proofs ([src/trie/node.go], [src/trie/proof.go])

    The decoder of the node encoding, with its errors and the panic of a short
    node without a key, and the proofs built from it: [Prove] collects the encoded
    nodes on the path of a key, [VerifyProof] walks them from a root hash.

    [decode_raw] inverts the encoder on every collapsed canonical node.
    [verify_proof_sound] shows that, against the root of a trie, [VerifyProof]
    never accepts anything but the binding of the trie, whatever the proof
    database holds; [prove_verify] that it accepts what [Prove] collects. *)

From S2P Require Import Prelude Common TrieEncoding Trie TrieSpec TrieMap.
From S2P Require Import TrieCanon Rlp Sha3 TrieHash TrieMerkle RlpRaw TrieBinding.

(** ** Decoding a node *)

(** The errors of the decoder: the cause, and the path [wrapError] collects. *)
Inductive node_fault : Type :=
  | NodeUnexpectedEOF
  | NodeDecode (e : rlp_error)
  | NodeElements (c : Z)
  | NodeRlp (e : rlp_error)
  | NodeValue (e : rlp_error)
  | NodeOversized (size : Z)
  | NodeStringSize (size : Z).

Inductive node_step : Type := StepShort | StepFull | StepVal | StepChild (i : nat).

Inductive node_error : Type :=
  | PlainError (what : node_fault)
  | decodeError (what : node_fault) (stack : list node_step).

Definition wrapError (err : node_error) (ctx : node_step) : node_error :=
  match err with
  | decodeError w s => decodeError w (s ++ [ctx])
  | PlainError w => decodeError w [ctx]
  end.

Definition wrapped {A} (ctx : node_step) (m : outcome node_error A) : outcome node_error A :=
  map_err (fun e => wrapError e ctx) m.

Section decode.
(** [decodeNode] of an embedded node, and the generation of the decoded nodes. *)
Context (cachegen : Z) (decode : option (list Z) -> list Z -> outcome node_error node).

Definition decodeRef (buf : list Z) : outcome node_error (node * list Z) :=
  '(kind, val, rest) ← map_err (fun e => PlainError (NodeRlp e)) (Split buf);
  match kind with
  | KList =>
      let size := Z.of_nat (length buf) - Z.of_nat (length rest) in
      if bool_decide (32 < size) then Err (PlainError (NodeOversized size))
      else n ← decode None buf; Ok (n, rest)
  | KString =>
      if bool_decide (length val = 0%nat) then Ok (Nil, rest)
      else if bool_decide (length val = 32%nat) then Ok (HashNode val, rest)
      else Err (PlainError (NodeStringSize (Z.of_nat (length val))))
  | KByte => Err (PlainError (NodeStringSize (Z.of_nat (length val))))
  end.

Definition decodeShort (hash : option (list Z)) (elems : list Z) : outcome node_error node :=
  '(kbuf, rest) ← map_err (fun e => PlainError (NodeRlp e)) (SplitString elems);
  let flag := NodeFlag hash cachegen false in
  key ← or_panic (compactToHex kbuf);
  if hasTerm key then
    '(val, _) ← map_err (fun e => PlainError (NodeValue e)) (SplitString rest);
    Ok (ShortNode key (ValueNode val) flag)
  else
    '(r, _) ← wrapped StepVal (decodeRef rest);
    Ok (ShortNode key r flag).

(** The loop of [decodeFull]: the children from the [i]-th of sixteen on, and
    what follows them. *)
Fixpoint decodeFull_loop (todo i : nat) (elems : list Z) : outcome node_error (list node * list Z) :=
  match todo with
  | O => Ok ([], elems)
  | S todo =>
      '(cld, rest) ← wrapped (StepChild i) (decodeRef elems);
      '(ch, rest) ← decodeFull_loop todo (S i) rest;
      Ok (cld :: ch, rest)
  end.

Definition decodeFull (hash : option (list Z)) (elems : list Z) : outcome node_error node :=
  '(ch, elems) ← decodeFull_loop 16 0 elems;
  '(val, _) ← map_err (fun e => PlainError (NodeRlp e)) (SplitString elems);
  let v := if bool_decide (0 < length val)%nat then ValueNode val else Nil in
  Ok (FullNode (ch ++ [v]) (NodeFlag hash cachegen false)).
End decode.

(** [decodeNode]; an error of [CountValues] is dropped with the count at zero. *)
Fixpoint decodeNode_loop (fuel : nat) (cachegen : Z) (hash : option (list Z)) (buf : list Z)
  : outcome node_error node :=
  match fuel with
  | O => OutOfFuel
  | S fuel =>
      if bool_decide (length buf = 0%nat) then Err (PlainError NodeUnexpectedEOF)
      else
        '(elems, _) ← map_err (fun e => PlainError (NodeDecode e)) (SplitList buf);
        let c := match CountValues elems with Ok c => c | _ => 0 end in
        if bool_decide (c = 2) then
          wrapped StepShort (decodeShort cachegen (decodeNode_loop fuel cachegen) hash elems)
        else if bool_decide (c = 17) then
          wrapped StepFull (decodeFull cachegen (decodeNode_loop fuel cachegen) hash elems)
        else Err (PlainError (NodeElements c))
  end.

(** An embedded node is shorter than the node that embeds it; only the buffer
    that follows an embedded node is not cut off, so that the fuel is the depth. *)
Definition decodeNode (hash : option (list Z)) (buf : list Z) (cachegen : Z) : outcome node_error node :=
  decodeNode_loop (S (length buf)) cachegen hash buf.

Definition mustDecodeNode (hash : option (list Z)) (buf : list Z) (cachegen : Z) : outcome node_error node :=
  match decodeNode hash buf cachegen with Err _ => Panic | m => m end.

(** ** Proofs *)

(** The loop of [get]: the rest of the key and the node where the walk leaves the
    decoded node. *)
Fixpoint get (tn : node) (key : list Z) {struct tn} : outcome node_error (option (list Z) * node) :=
  match tn with
  | ShortNode k c _ =>
      if (length key <? length k)%nat || negb (bool_decide (k = take (length k) key)) then Ok (None, Nil)
      else get c (drop (length k) key)
  | FullNode ch _ =>
      match key with
      | [] => Panic
      | k0 :: key =>
          if bool_decide (k0 < 0) then Panic
          else
            (fix pick (l : list node) (i : nat) : outcome node_error (option (list Z) * node) :=
               match l, i with
               | [], _ => Panic
               | c :: _, O => get c key
               | _ :: l, S i => pick l i
               end) ch (Z.to_nat k0)
      end
  | HashNode _ | Nil => Ok (Some key, tn)
  | ValueNode _ => Ok (None, tn)
  end.

Inductive proof_error : Type :=
  | ProofMissing (i : Z) (hash : list Z)
  | ProofBad (i : Z) (e : node_error).

(** The loop of [VerifyProof]: the value ([nil] is [None]) and the number of
    proof nodes. *)
Fixpoint VerifyProof_loop (fuel : nat) (proofDb : list Z -> option (list Z)) (i : Z) (wantHash key : list Z)
  : outcome proof_error (option (list Z) * Z) :=
  match fuel with
  | O => OutOfFuel
  | S fuel =>
      match proofDb wantHash with
      | None => Err (ProofMissing i wantHash)
      | Some buf =>
          n ← map_err (ProofBad i) (decodeNode (Some wantHash) buf 0);
          '(keyrest, cld) ← map_err (ProofBad i) (get n key);
          match cld with
          | Nil => Ok (None, i)
          | HashNode h =>
              VerifyProof_loop fuel proofDb (i + 1) (take 32 h ++ drop (length h) wantHash) (default [] keyrest)
          | ValueNode v => Ok (Some v, i + 1)
          | _ => VerifyProof_loop fuel proofDb (i + 1) wantHash key
          end
      end
  end.

(** Every proof node of a canonical trie consumes a part of the key, so a round
    per symbol of the key is enough. *)
Definition VerifyProof (rootHash key : list Z) (proofDb : list Z -> option (list Z))
  : outcome proof_error (option (list Z) * Z) :=
  let key := keybytesToHex key in
  VerifyProof_loop (S (length key)) proofDb 0 rootHash key.

Section prove.
Context `{Keccak} (dbnode : list Z -> Z -> option node).

(** The first loop of [Prove]: the nodes on the path of the key. *)
Fixpoint prove_nodes (fuel : nat) (gen : Z) (tn : node) (key : list Z) : outcome trie_error (list node) :=
  match fuel with
  | O => OutOfFuel
  | S fuel =>
      match key, tn with
      | [], _ | _, Nil => Ok []
      | _, ShortNode k c _ =>
          if (length key <? length k)%nat || negb (bool_decide (k = take (length k) key)) then Ok [tn]
          else ns ← prove_nodes fuel gen c (drop (length k) key); Ok (tn :: ns)
      | k0 :: key', FullNode ch _ =>
          c ← or_panic (child ch k0);
          ns ← prove_nodes fuel gen c key';
          Ok (tn :: ns)
      | _, HashNode h => c ← resolveHash dbnode gen h []; prove_nodes fuel gen c key
      | _, ValueNode _ => Panic
      end
  end.

(** The body of the second loop: the encoding of a node that is stored on its
    own, and of the first node in any case, is put under its hash. *)
Definition prove_put (first : bool) (n : node) (fromLevel : Z) (proofDb : gmap (list Z) (list Z))
  : outcome trie_error (Z * gmap (list Z) (list Z)) :=
  n ← match hashChildren_with (hash false false 0 0) n with
      | Ok (collapsed, _, _) => Ok collapsed
      | Err _ => Ok n
      | Panic => Panic
      | OutOfFuel => OutOfFuel
      end;
  '(hn, _) ← store false false n false;
  let ref := match hn with HashNode h => Some h | _ => None end in
  if bool_decide (is_Some ref) || first then
    if bool_decide (0 < fromLevel) then Ok (fromLevel - 1, proofDb)
    else
      match Encode TInterface (node_rval n) with
      | Panic => Panic
      | OutOfFuel => OutOfFuel
      | m =>
          let enc := match m with Ok enc => enc | _ => [] end in
          Ok (fromLevel, <[default (keccak256 enc) ref := enc]> proofDb)
      end
  else Ok (fromLevel, proofDb).

Fixpoint prove_loop (first : bool) (nodes : list node) (fromLevel : Z) (proofDb : gmap (list Z) (list Z))
  : outcome trie_error (gmap (list Z) (list Z)) :=
  match nodes with
  | [] => Ok proofDb
  | n :: nodes =>
      '(fromLevel, proofDb) ← prove_put first n fromLevel proofDb;
      prove_loop false nodes fromLevel proofDb
  end.

(** [Trie.Prove] *)
Definition Prove (t : Trie) (key : list Z) (fromLevel : Z) (proofDb : gmap (list Z) (list Z))
  : outcome trie_error (gmap (list Z) (list Z)) :=
  let key := keybytesToHex key in
  nodes ← prove_nodes (2 * length key + 3) (cachegen t) (root t) key;
  prove_loop true nodes fromLevel proofDb.
End prove.

(** ** Decoding inverts encoding *)

(** The item of a child; a nil child is the empty string. *)
Definition slot_item (c : node) : item := if is_nil c then Str [] else node_item c.

(** The shape of a collapsed node: compact keys, short embedded nodes, references
    by hash, a non-empty value in the last slot. *)
Inductive raw_ok : node -> Prop :=
  | raw_leaf k hk v f :
      compactToHex k = Some hk -> hasTerm hk = true -> raw_ok (ShortNode k (ValueNode v) f)
  | raw_ext k hk c f :
      compactToHex k = Some hk -> hasTerm hk = false -> raw_slot c -> c <> Nil -> raw_ok (ShortNode k c f)
  | raw_full ch v f :
      length ch = 16%nat -> (forall i c, ch !! i = Some c -> raw_slot c) ->
      (v = Nil \/ exists b, b <> [] /\ v = ValueNode b) -> raw_ok (FullNode (ch ++ [v]) f)
with raw_slot : node -> Prop :=
  | slot_nil : raw_slot Nil
  | slot_hash h : length h = 32%nat -> raw_slot (HashNode h)
  | slot_embedded n :
      raw_ok n -> (length (encode_item (node_item n)) <= 32)%nat -> raw_slot n.

(** The node a collapsed node is decoded to. *)
Fixpoint expand (hash : option (list Z)) (gen : Z) (n : node) : node :=
  match n with
  | ShortNode k c _ => ShortNode (default [] (compactToHex k)) (expand None gen c) (NodeFlag hash gen false)
  | FullNode ch _ => FullNode (map (expand None gen) ch) (NodeFlag hash gen false)
  | n => n
  end.

Lemma Split_item i r :
  Z.of_nat (length (encode_item i ++ r)) < 2 ^ 64 ->
  exists k c, Split (encode_item i ++ r) = Ok (k, c, r) /\ kind_ok k c /\
    match i with Str b => k <> KList /\ c = b | Lst l => k = KList /\ c = concat (map encode_item l) end.
Proof.
  intros Hl. destruct (encode_item_frame i) as (k & c & E & Hk & Hc). rewrite E in *. exists k, c.
  split_and!; [by apply Split_frame|done|done].
Qed.

Lemma SplitString_item b r :
  Z.of_nat (length (encode_item (Str b) ++ r)) < 2 ^ 64 -> SplitString (encode_item (Str b) ++ r) = Ok (b, r).
Proof.
  intros Hl. destruct (Split_item (Str b) r Hl) as (k & c & E & _ & Hk & ->). unfold SplitString. rewrite E. simpl.
  by rewrite bool_decide_false.
Qed.

Lemma SplitList_item l r :
  Z.of_nat (length (encode_item (Lst l) ++ r)) < 2 ^ 64 ->
  SplitList (encode_item (Lst l) ++ r) = Ok (concat (map encode_item l), r).
Proof.
  intros Hl. destruct (Split_item (Lst l) r Hl) as (k & c & E & _ & -> & ->). unfold SplitList. by rewrite E.
Qed.

Lemma plain_raw n : raw_ok n -> plain n = true.
Proof. by destruct 1. Qed.

Section decode_spec.
Context (gen : Z) (dec : option (list Z) -> list Z -> outcome node_error node).

(** [dec] decodes a node in front of anything. *)
Definition decodes (n : node) : Prop :=
  forall h r, Z.of_nat (length (encode_item (node_item n) ++ r)) < 2 ^ 64 ->
    dec h (encode_item (node_item n) ++ r) = Ok (expand h gen n).

Lemma decodeRef_slot c r :
  raw_slot c -> (raw_ok c -> decodes c) -> Z.of_nat (length (encode_item (slot_item c) ++ r)) < 2 ^ 64 ->
  decodeRef dec (encode_item (slot_item c) ++ r) = Ok (expand None gen c, r).
Proof.
  intros Hs Hd Hl. destruct (Split_item _ _ Hl) as (k & b & E & Hk & Hb). unfold decodeRef. rewrite E. simpl.
  destruct Hs as [|h Hh|n Hn Hlen].
  - destruct Hb as [Hb ->]. by destruct k.
  - destruct Hb as [Hb ->]. destruct k; [by destruct h as [|? [|]]| |done].
    rewrite bool_decide_false, bool_decide_true by lia. done.
  - pose proof (plain_raw _ Hn) as Hp. assert (slot_item n = node_item n) as Hi by by destruct n. rewrite Hi in *.
    destruct (plain_item n Hp) as [l El]. rewrite El in Hb. destruct Hb as [-> ->].
    rewrite bool_decide_false by (rewrite length_app; lia). by rewrite (Hd Hn).
Qed.

Lemma decodeFull_loop_slots (ch : list node) : forall i r,
  (forall j c, ch !! j = Some c -> raw_slot c /\ (raw_ok c -> decodes c)) ->
  Z.of_nat (length (concat (map encode_item (map slot_item ch)) ++ r)) < 2 ^ 64 ->
  decodeFull_loop dec (length ch) i (concat (map encode_item (map slot_item ch)) ++ r)
  = Ok (map (expand None gen) ch, r).
Proof.
  induction ch as [|c ch IH]; intros i r Hc Hl; [done|]. cbn [map concat length decodeFull_loop] in *.
  rewrite <- app_assoc in *. destruct (Hc 0%nat c eq_refl) as [Hs Hd]. unfold wrapped.
  rewrite decodeRef_slot by done. cbn [map_err mbind outcome_bind]. rewrite IH; [done|by intros j; apply (Hc (S j))|].
  rewrite length_app in Hl. lia.
Qed.
End decode_spec.

Lemma encode_lst_payload l r :
  Z.of_nat (length (encode_item (Lst l) ++ r)) < 2 ^ 64 -> Z.of_nat (length (concat (map encode_item l))) < 2 ^ 64.
Proof. cbn [encode_item]. rewrite !length_app. lia. Qed.

Lemma expand_short fuel gen k hk c f hash r :
  compactToHex k = Some hk -> (hasTerm hk = true -> exists v, c = ValueNode v) ->
  (hasTerm hk = false -> raw_slot c /\ c <> Nil) ->
  (raw_ok c -> decodes gen (decodeNode_loop fuel gen) c) ->
  Z.of_nat (length (encode_item (node_item (ShortNode k c f)) ++ r)) < 2 ^ 64 ->
  decodeNode_loop (S fuel) gen hash (encode_item (node_item (ShortNode k c f)) ++ r)
  = Ok (expand hash gen (ShortNode k c f)).
Proof.
  intros Hk Ht Hs Hd Hl. cbn [node_item] in *. cbn [decodeNode_loop].
  rewrite bool_decide_false by (rewrite length_app; pose proof (encode_item_nonempty (Lst [Str k; node_item c])); lia).
  rewrite SplitList_item by done. cbn [map_err mbind outcome_bind].
  assert (Z.of_nat (length (concat (map encode_item [Str k; node_item c]))) < 2 ^ 64) as Hl'.
  { by eapply encode_lst_payload. }
  rewrite CountValues_items by done. rewrite bool_decide_true by done. unfold wrapped, decodeShort.
  cbn [map concat] in *. rewrite SplitString_item by done. cbn [map_err mbind outcome_bind]. rewrite Hk.
  cbn [or_panic mbind outcome_bind expand default]. rewrite Hk. rewrite length_app in Hl'. destruct (hasTerm hk).
  - destruct Ht as [v ->]; [done|]. cbn [node_item] in *. rewrite SplitString_item by lia. done.
  - destruct Hs as [Hs Hn]; [done|]. assert (node_item c = slot_item c) as Hi by by destruct c. rewrite Hi in *.
    unfold wrapped. rewrite (decodeRef_slot gen) by (done || lia). done.
Qed.

Lemma expand_full fuel gen ch v f hash r :
  length ch = 16%nat -> (forall i c, ch !! i = Some c -> raw_slot c) ->
  (v = Nil \/ exists b, b <> [] /\ v = ValueNode b) ->
  (forall i c, ch !! i = Some c -> raw_ok c -> decodes gen (decodeNode_loop fuel gen) c) ->
  Z.of_nat (length (encode_item (node_item (FullNode (ch ++ [v]) f)) ++ r)) < 2 ^ 64 ->
  decodeNode_loop (S fuel) gen hash (encode_item (node_item (FullNode (ch ++ [v]) f)) ++ r)
  = Ok (expand hash gen (FullNode (ch ++ [v]) f)).
Proof.
  intros Hlen Hs Hv Hd Hl. cbn [node_item] in *. change (map (fun c => if is_nil c then Str [] else node_item c)) with (map slot_item) in *.
  cbn [decodeNode_loop].
  rewrite bool_decide_false by (rewrite length_app; pose proof (encode_item_nonempty (Lst (map slot_item (ch ++ [v])))); lia).
  rewrite SplitList_item by done. cbn [map_err mbind outcome_bind].
  assert (Z.of_nat (length (concat (map encode_item (map slot_item (ch ++ [v]))))) < 2 ^ 64) as Hl'.
  { by eapply encode_lst_payload. }
  rewrite CountValues_items by done. rewrite length_map, length_app, Hlen. rewrite bool_decide_false, bool_decide_true by done.
  rewrite !map_app, concat_app in *. unfold wrapped, decodeFull. rewrite <- Hlen at 1.
  rewrite (decodeFull_loop_slots gen) by eauto. cbn [mbind outcome_bind map concat].
  rewrite length_app in Hl'. cbn [map concat expand] in *. rewrite map_app. destruct Hv as [->|(b & Hb & ->)].
  - change (slot_item Nil) with (Str []). rewrite SplitString_item by (simpl; lia). done.
  - change (slot_item (ValueNode b)) with (Str b) in *. rewrite SplitString_item by lia. cbn [map_err mbind outcome_bind].
    rewrite bool_decide_true by (destruct b; simpl; [done|lia]). done.
Qed.

Lemma encode_child_shorter l i j :
  l !! j = Some i -> (length (encode_item i) < length (encode_item (Lst l)))%nat.
Proof.
  intros Hi. cbn [encode_item]. rewrite length_app.
  assert (length (encode_item i) <= length (concat (map encode_item l)))%nat.
  { apply list_elem_of_split_length in Hi as (l1 & l2 & -> & _). rewrite map_app, concat_app. cbn [map concat].
    rewrite !length_app. lia. }
  pose proof (length_header_ge 0xC0 0xF7 (Z.of_nat (length (concat (map encode_item l))))). lia.
Qed.

Lemma decode_raw_loop n : forall fuel gen,
  raw_ok n -> (length (encode_item (node_item n)) < fuel)%nat -> decodes gen (decodeNode_loop fuel gen) n.
Proof.
  induction n as [|v|k c f IH|ch f IH|h] using node_nested_ind; intros fuel gen Hn Hf hash r Hl; try by inversion Hn.
  - destruct fuel as [|fuel]; [lia|]. cbn [node_item] in Hf.
    pose proof (encode_child_shorter [Str k; node_item c] (node_item c) 1 eq_refl).
    inversion Hn as [? hk v ? Hk Ht|? hk ? ? Hk Ht Hs Hc|]; subst.
    + apply (expand_short _ _ _ hk); [done|eauto|congruence|by inversion 1|done].
    + apply (expand_short _ _ _ hk); [done|congruence|done| |done]. intros Hc'. apply IH; [done|lia].
  - destruct fuel as [|fuel]; [lia|]. inversion Hn as [| |ch' v ? Hlen Hs Hv]; subst. apply Forall_app in IH as [IH _].
    rewrite Forall_lookup in IH. apply expand_full; try done. intros i c Hc Hc'. apply (IH i c Hc); [done|].
    cbn [node_item] in Hf. pose proof (encode_child_shorter (map slot_item (ch' ++ [v])) (slot_item c) i) as Hlt.
    rewrite list_lookup_fmap, (lookup_app_l_Some _ _ _ _ Hc) in Hlt. specialize (Hlt eq_refl).
    assert (slot_item c = node_item c) as Hi by by destruct Hc'. rewrite Hi in Hlt. unfold slot_item in Hlt. lia.
Qed.

(** The encoding of a collapsed node is decoded to the node with its keys in HEX
    form. *)
Lemma decode_raw n hash gen :
  raw_ok n -> Z.of_nat (length (encode_item (node_item n))) < 2 ^ 64 ->
  decodeNode hash (encode_item (node_item n)) gen = Ok (expand hash gen n).
Proof.
  intros Hn Hl. pose proof (decode_raw_loop n (S (length (encode_item (node_item n)))) gen Hn ltac:(lia) hash []) as E.
  rewrite app_nil_r in E. by apply E.
Qed.

(** ** The collapsed nodes of a trie *)

Section trie_nodes.
Context `{Keccak} (dbnode : list Z -> Z -> option node) (Hdb : db_coherent dbnode) (g : Z).

(** A canonical node with right caches whose keys and values are not too long for
    the encoder. *)
Record encodable (force : bool) (n : node) : Prop := {
  en_wf : wf dbnode g n;
  en_coherent : coherent_at dbnode force n;
  en_short k v : has dbnode g n k v -> Z.of_nat (length k) < 2 ^ 40 /\ Z.of_nat (length v) < 2 ^ 40
}.

Lemma encodable_fits force n : encodable force n -> plain n = true -> fits n.
Proof.
  intros [W C S] P. destruct (wf_load dbnode Hdb g n W) as [n' L].
  assert (mraw n' = mraw n) as E by (apply (ld_raw _ _ _ _ L force C); by destruct n).
  unfold fits. rewrite <- E. change (fits n'). apply small_fits; [by rewrite <- plain_mraw, E, plain_mraw|].
  apply (wf_small 0 n'); [by apply (ld_wf _ _ _ _ L)|]. intros k v Hh. apply S. by apply (ld_has _ _ _ _ L).
Qed.

Lemma encodable_short force k c f :
  encodable force (ShortNode k c f) -> (exists v, c = ValueNode v /\ hexkey k) \/ (encodable false c /\ nibbles_ok k /\ k <> []).
Proof.
  intros [W C S]. inversion W as [k' v ? Hk Hv|? ? ? Hk Hne Hb Hc| |]; subst.
  - left. exists v. split; [done|]. by exists k'.
  - right. split; [|done]. constructor; [done|apply coherent_at_false, C|]. intros k' v Hh.
    destruct (S (k ++ k') v) as [Lk Lv]; [by apply has_short_app|]. rewrite length_app in Lk. lia.
Qed.

Lemma encodable_full force ch f i c :
  encodable force (FullNode ch f) -> ch !! i = Some c ->
  ((i < 16)%nat /\ (c = Nil \/ encodable false c)) \/
  (i = 16%nat /\ (c = Nil \/ exists v, v <> [] /\ c = ValueNode v)).
Proof.
  intros [W [C _] S] Hc. inversion W as [| |? ? Hlen Hch H16 _|]; subst.
  pose proof (lookup_lt_Some _ _ _ Hc). destruct (decide (i < 16)%nat) as [Hi|Hi].
  - left. split; [done|]. destruct (nil_dec c) as [->|Hn]; [by left|right].
    constructor; [eauto|eapply coherent_at_false, C; eauto|]. intros k v Hh.
    destruct (S (Z.of_nat i :: k) v) as [Lk Lv]; [by apply (has_full_cons _ _ _ _ _ c)|]. simpl in Lk. lia.
  - right. assert (i = 16%nat) as -> by lia. split; [done|]. destruct (nil_dec c) as [->|Hn]; [by left|right; eauto].
Qed.

(** A node referred to by hash: itself, or what its hash resolves to. *)
Lemma encodable_resolve c :
  encodable false c -> exists n, (c = n \/ exists h, c = HashNode h /\ dbnode (BytesToHash h) g = Some n) /\
    plain n = true /\ encodable false n /\ mref false n = mref false c /\
    (forall k v, has dbnode g c k v <-> has dbnode g n k v).
Proof.
  intros [W C S]. inversion W as [| | |h n Hr Hh Hn]; subst; [eexists; split; [by left|by split_and!]..|].
  destruct (resolve_coherent dbnode Hdb false h g n C Hr) as (Cn & Rn & _). exists n.
  assert (forall k v, has dbnode g (HashNode h) k v <-> has dbnode g n k v) as Hs by (intros; by apply has_hash_iff).
  split_and!; [by eauto|by destruct Hn| |done|done]. constructor; [done|done|]. intros k v. rewrite <- Hs. apply S.
Qed.

Lemma encodable_ref_length c h : encodable false c -> mref false c = HashNode h -> length h = 32%nat.
Proof.
  intros E Hh. destruct (encodable_resolve c E) as (n & _ & P & _ & R & _). rewrite <- R, mref_plain in Hh by done.
  destruct (embeds _ _); [|injection Hh as <-; apply keccak256_ok]. destruct n; done.
Qed.

Lemma encodable_slot c : encodable false c -> (plain c = true -> raw_ok (mraw c)) -> raw_slot (mref false c).
Proof.
  intros E Hr. destruct (plain c) eqn:P.
  - rewrite mref_plain by done. unfold embeds. rewrite andb_true_r. destruct (Nat.ltb_spec (length (blob (mraw c))) 32).
    + apply slot_embedded; [by apply Hr|]. rewrite <- blob_item by by eapply encodable_fits. lia.
    + apply slot_hash, keccak256_ok.
  - destruct E as [W C S] eqn:Ee. destruct W; try done. apply slot_hash. by eapply encodable_ref_length.
Qed.

Lemma encodable_short_ref force c :
  encodable force c -> match c with ValueNode _ => c | _ => collapse_ref false (mraw c) end = mref false c.
Proof. intros [W _ _]. by destruct W. Qed.

Lemma mref_not_nil force c : encodable force c -> mref false c <> Nil.
Proof.
  intros [W _ _]. destruct W; simpl; try done; unfold mref, collapse_ref; simpl; by destruct (_ && _).
Qed.
End trie_nodes.

Lemma compact_hex k : hex_ok k -> compactToHex (compact k) = Some k.
Proof. intros Hk. destruct (compact_total k Hk) as (c & E & _ & D). unfold compact. by rewrite E. Qed.

Lemma drop_last {A} (l : list A) n : length l = S n -> exists x, l !! n = Some x /\ drop n l = [x].
Proof.
  intros Hl. destruct (lookup_lt_is_Some_2 l n ltac:(lia)) as [x Hx]. exists x. split; [done|].
  rewrite (drop_S _ _ _ Hx), drop_ge by lia. done.
Qed.

Section trie_decode.
Context `{Keccak} (dbnode : list Z -> Z -> option node) (Hdb : db_coherent dbnode) (g : Z).

Lemma mraw_raw n : forall force, encodable dbnode g force n -> plain n = true -> raw_ok (mraw n).
Proof.
  induction n as [|v|k c f IH|ch f IH|h] using node_nested_ind; intros force E P; try done.
  - destruct (encodable_short _ _ _ _ _ _ E) as [(v & -> & nk & Hnk & ->)|(Ec & Hk & Hne)]; cbn [mraw].
    + eapply raw_leaf; [apply compact_hex; right; by exists nk|apply hasTerm_snoc].
    + assert (mref false c <> Nil) as Hn by by eapply mref_not_nil.
      pose proof (encodable_slot dbnode Hdb g c Ec (IH false Ec)) as Hs.
      rewrite (encodable_short_ref _ _ _ _ Ec).
      eapply raw_ext; [apply compact_hex; by left|by apply hasTerm_nibbles|done..].
  - assert (length ch = 17%nat) as Hlen by (destruct E as [W _ _]; by inversion W).
    destruct (drop_last ch 16 Hlen) as (v & Hv & _). cbn [mraw].
    destruct (drop_last (map erase ch) 16) as (v' & Hv' & ->); [by rewrite length_map|].
    rewrite list_lookup_fmap, Hv in Hv'. injection Hv' as <-. apply raw_full.
    + rewrite length_take, length_map. lia.
    + intros i c [Hc Hi]%lookup_take_Some. rewrite list_lookup_fmap in Hc.
      apply fmap_Some in Hc as (c' & Hc' & ->). rewrite Forall_lookup in IH.
      destruct (encodable_full _ _ _ _ _ _ _ E Hc') as [[_ [->|Ec]]|[-> _]]; [constructor| |lia].
      apply (encodable_slot dbnode Hdb g c' Ec). by apply (IH i c' Hc' false).
    + destruct (encodable_full _ _ _ _ _ _ _ E Hv) as [[Hi _]|[_ [->|(b & Hb & ->)]]]; [lia|by left|right; by exists b].
Qed.

(** Every node of a trie is read back from its encoding. *)
Lemma decode_node force n hash gen :
  encodable dbnode g force n -> plain n = true ->
  decodeNode hash (blob (mraw n)) gen = Ok (expand hash gen (mraw n)).
Proof.
  intros E P. pose proof (encodable_fits dbnode Hdb g _ _ E P) as F. rewrite blob_item by done.
  apply decode_raw; [by eapply mraw_raw|done].
Qed.
End trie_decode.

(** ** One proof node *)

Lemma get_full ch f i c key : ch !! i = Some c -> get (FullNode ch f) (Z.of_nat i :: key) = get c key.
Proof.
  intros Hc. cbn [get]. rewrite bool_decide_false by lia. rewrite Nat2Z.id. clear f.
  revert i Hc. induction ch as [|d ch IH]; intros [|i] Hc; simplify_eq/=; eauto.
Qed.

Lemma get_short k c f key : get (ShortNode k c f) (k ++ key) = get c key.
Proof.
  cbn [get]. rewrite length_app, take_app_length, drop_app_length, bool_decide_true by done.
  rewrite (proj2 (Nat.ltb_ge _ _)) by lia. done.
Qed.

Lemma short_check (k key : list Z) :
  (length key <? length k)%nat || negb (bool_decide (k = take (length k) key)) = false <->
  exists rest, key = k ++ rest.
Proof.
  rewrite orb_false_iff, negb_false_iff, bool_decide_eq_true, Nat.ltb_ge. split.
  - intros [_ E]. exists (drop (length k) key). rewrite E at 1. by rewrite take_drop.
  - intros [rest ->]. rewrite length_app, take_app_length. split; [lia|done].
Qed.

Section proof_step.
Context `{Keccak} (dbnode : list Z -> Z -> option node) (Hdb : db_coherent dbnode) (g : Z).

(** The nodes [Prove] collects for a key below a node. *)
Definition on_path (n : node) (key : list Z) (l : list node) : Prop :=
  exists fuel, prove_nodes dbnode fuel g n key = Ok l.

Lemma on_path_short k c f rest l :
  k <> [] -> on_path (ShortNode k c f) (k ++ rest) l -> exists l', l = ShortNode k c f :: l' /\ on_path c rest l'.
Proof.
  intros Hk [[|fuel] E]; [done|]. cbn [prove_nodes] in E. rewrite (proj2 (short_check k (k ++ rest))) in E by eauto.
  destruct (k ++ rest) eqn:Ek; [by destruct k|]. rewrite <- Ek, drop_app_length in E. inv_ok. by eexists _; split; [|eexists].
Qed.

Lemma on_path_full ch f i c rest l :
  ch !! i = Some c -> on_path (FullNode ch f) (Z.of_nat i :: rest) l ->
  exists l', l = FullNode ch f :: l' /\ on_path c rest l'.
Proof.
  intros Hc [[|fuel] E]; [done|]. cbn [prove_nodes] in E. rewrite child_nat, Hc in E. simpl in E. inv_ok.
  by eexists _; split; [|eexists].
Qed.

Lemma on_path_resolve c n key l :
  (c = n \/ exists h, c = HashNode h /\ dbnode (BytesToHash h) g = Some n) -> key <> [] ->
  on_path c key l -> on_path n key l.
Proof.
  intros [->|(h & -> & Hr)] Hk; [done|]. intros [[|fuel] E]; [done|]. destruct key as [|x key]; [done|].
  cbn [prove_nodes] in E. unfold resolveHash in E. rewrite Hr in E. by exists fuel.
Qed.

Lemma on_path_head n key l : plain n = true -> key <> [] -> on_path n key l -> exists l', l = n :: l'.
Proof.
  intros P Hk [[|fuel] E]; [done|]. destruct key as [|x key]; [done|]. destruct n; try done; cbn [prove_nodes] in E.
  - destruct (_ || _); inv_ok; eauto.
  - inv_ok. eauto.
Qed.

(** Where [get] leaves a decoded node [d] that stands for the node [n] of the
    trie: at a missing key, at the value, or at the hash of a node further on the
    path with a shorter rest of the key. *)
Definition walks (d n : node) (key : list Z) (l : list node) (bound : nat) : Prop :=
  (exists r, get d key = Ok (r, Nil) /\ forall v, ~ has dbnode g n key v) \/
  (exists v, get d key = Ok (None, ValueNode v) /\ has dbnode g n key v) \/
  (exists h c rest l1 l2, get d key = Ok (Some rest, HashNode h) /\ encodable dbnode g false c /\
     mref false c = HashNode h /\ (forall v, has dbnode g n key v <-> has dbnode g c rest v) /\
     (length rest < bound)%nat /\ hexkey rest /\ l = l1 ++ l2 /\ on_path c rest l2).

Lemma walks_mono d n key l b b' : (b <= b')%nat -> walks d n key l b -> walks d n key l b'.
Proof.
  intros Hb [?|[?|(h & c & rest & l1 & l2 & ? & ? & ? & ? & ? & ?)]]; [by left|by right; left|].
  right; right. exists h, c, rest, l1, l2. split_and!; try done; [lia|naive_solver..].
Qed.

(** Going one level down. *)
Lemma walks_down d n key l b d' n' key' x :
  get d' key' = get d key -> (forall v, has dbnode g n' key' v <-> has dbnode g n key v) ->
  walks d n key l b -> walks d' n' key' (x :: l) b.
Proof.
  intros Eg Eh. unfold walks. rewrite Eg. setoid_rewrite Eh.
  intros [?|[?|(h & c & rest & l1 & l2 & ? & ? & ? & ? & ? & ? & -> & ?)]]; [by left|by right; left|].
  right; right. by exists h, c, rest, (x :: l1), l2.
Qed.

Lemma walks_slot c key l gen :
  encodable dbnode g false c -> hexkey key -> on_path c key l ->
  (plain c = true -> walks (expand None gen (mraw c)) c key l (length key)) ->
  walks (expand None gen (mref false c)) c key l (S (length key)).
Proof.
  intros E Hk Hp Hw. destruct (mref false c) as [| | | |h] eqn:Er.
  5:{ right; right. exists h, c, key, [], l. split_and!; try done. lia. }
  all: assert (plain c = true) as P by (destruct E as [W _ _]; by destruct W);
    rewrite <- Er, mref_plain in *; [|done..]; destruct (embeds _ _) eqn:Ee; [|done]; eapply walks_mono; [|by apply Hw]; lia.
Qed.

Lemma walks_short k c f key l force hash gen :
  (forall key l, encodable dbnode g false c -> plain c = true -> hexkey key -> on_path c key l ->
     walks (expand None gen (mraw c)) c key l (length key)) ->
  encodable dbnode g force (ShortNode k c f) -> hexkey key -> on_path (ShortNode k c f) key l ->
  walks (expand hash gen (mraw (ShortNode k c f))) (ShortNode k c f) key l (length key).
Proof.
  intros IH E Hk Hp. cbn [mraw expand].
  assert (hex_ok k /\ k <> []) as [Hh Hne].
  { destruct (encodable_short _ _ _ _ _ _ E) as [(v & -> & nk & Hn & Ek)|(_ & Hn & Hne)]; [|split; [by left|done]].
    rewrite Ek. split; [right; eauto|by destruct nk]. }
  rewrite compact_hex by done. cbn [from_option id].
  destruct ((length key <? length k)%nat || negb (bool_decide (k = take (length k) key))) eqn:Ec.
  { left. exists None. cbn [get]. rewrite Ec. split; [done|]. intros v (k' & -> & _)%has_short_iff.
    by rewrite (proj2 (short_check k (k ++ k'))) in Ec by eauto. }
  apply short_check in Ec as [rest ->]. apply on_path_short in Hp as (l' & -> & Hp); [|done].
  eapply (walks_down _ c rest); [apply get_short|by intros; apply has_short_app|].
  destruct (encodable_short _ _ _ _ _ _ E) as [(v & -> & Hx)|(Ec & Hn & _)].
  - assert (rest = []) as -> by (by apply (hexkey_prefix k (k ++ rest))). right; left. exists v. split; [done|constructor].
  - apply hexkey_app_inv in Hk; [|done]. rewrite (encodable_short_ref _ _ _ _ Ec). eapply walks_mono; [|apply walks_slot; eauto].
    rewrite length_app. destruct k; [done|]. simpl. lia.
Qed.

Lemma walks_full ch f key l force hash gen :
  (forall i c key l, ch !! i = Some c -> encodable dbnode g false c -> plain c = true -> hexkey key -> on_path c key l ->
     walks (expand None gen (mraw c)) c key l (length key)) ->
  encodable dbnode g force (FullNode ch f) -> hexkey key -> on_path (FullNode ch f) key l ->
  walks (expand hash gen (mraw (FullNode ch f))) (FullNode ch f) key l (length key).
Proof.
  intros IH E Hk Hp. assert (length ch = 17%nat) as Hlen by (destruct E as [W _ _]; by inversion W).
  destruct key as [|x rest]; [by apply hexkey_nonempty in Hk|].
  assert (exists i, x = Z.of_nat i /\ (i < 17)%nat /\ (i = 16%nat -> rest = []) /\ (i <> 16%nat -> hexkey rest)) as (i & -> & Hi & H16 & Hr).
  { destruct (hexkey_cons_inv _ _ Hk) as [[-> ->]|[Hx Hr]]; [by exists 16%nat; split_and!; try (done || lia)|].
    exists (Z.to_nat x). unfold is_nibble in Hx. split_and!; try (done || lia). }
  destruct (lookup_lt_is_Some_2 ch i ltac:(lia)) as [c Hc].
  apply (on_path_full _ _ _ c) in Hp as (l' & -> & Hp); [|done]. cbn [mraw expand].
  pose proof (mraw_full_lookup ch i c Hlen Hc) as Hd.
  eapply (walks_down _ c rest);
    [apply get_full; rewrite list_lookup_fmap; exact (f_equal (fmap _) Hd)|by intros; apply has_full_cons|].
  destruct (encodable_full _ _ _ _ _ _ _ E Hc) as [[Hi' Hs]|[-> Hs]].
  - rewrite (proj2 (Nat.ltb_lt _ _) Hi'). destruct Hs as [->|Ec].
    + left. eexists. split; [done|]. by intros v ?%has_nil.
    + apply walks_slot; [done|apply Hr; lia|done|]. intros P. apply (IH i c); try done. apply Hr. lia.
  - rewrite H16 by done. destruct Hs as [->|(v & _ & ->)].
    + left. eexists. split; [done|]. by intros v ?%has_nil.
    + right; left. exists v. split; [done|constructor].
Qed.

Lemma walks_node n : forall force hash gen key l,
  encodable dbnode g force n -> plain n = true -> hexkey key -> on_path n key l ->
  walks (expand hash gen (mraw n)) n key l (length key).
Proof.
  induction n as [|v|k c f IH|ch f IH|h] using node_nested_ind; intros force hash gen key l E P Hk Hp; try done.
  - eapply walks_short; eauto.
  - rewrite Forall_lookup in IH. eapply walks_full; eauto.
Qed.
End proof_step.

(** ** Verification *)

Section verification.
Context `{Keccak} (dbnode : list Z -> Z -> option node) (Hdb : db_coherent dbnode) (g : Z).

(** The hash a node is stored under. *)
Definition node_hash (n : node) : list Z := keccak256 (blob (mraw n)).

Lemma node_hash_length n : length (node_hash n) = 32%nat.
Proof. apply keccak256_ok. Qed.

(** A node that is not embedded in its parent. *)
Definition stored (n : node) : Prop := mref false n = HashNode (node_hash n).

Lemma ref_stored n h : plain n = true -> mref false n = HashNode h -> h = node_hash n /\ stored n.
Proof.
  intros P E. unfold stored. rewrite E. rewrite mref_plain in E by done. destruct (embeds _ _).
  - destruct n; done.
  - injection E as <-. done.
Qed.

Section honest.
Context (proofDb : list Z -> option (list Z)).

(** What the proof database holds under the hash of a node is the node. *)
Definition honest (l : list node) : Prop :=
  forall c b, c ∈ l -> proofDb (node_hash c) = Some b -> b = blob (mraw c).

(** Verification from a node of the trie ends with the binding of the key, or at
    a node of the path that the proof database does not hold. *)
Lemma verify_loop_ok fuel : forall force n key l i,
  encodable dbnode g force n -> plain n = true -> hexkey key -> on_path dbnode g n key l ->
  (length key < fuel)%nat -> honest l ->
  (exists v j, VerifyProof_loop fuel proofDb i (node_hash n) key = Ok (v, j) /\
     forall w, has dbnode g n key w <-> v = Some w) \/
  (exists j c, VerifyProof_loop fuel proofDb i (node_hash n) key = Err (ProofMissing j (node_hash c)) /\
     c ∈ l /\ (c = n \/ stored c) /\ proofDb (node_hash c) = None).
Proof.
  induction fuel as [|fuel IH]; intros force n key l i E P Hk Hp Hf Hh; [lia|]. cbn [VerifyProof_loop].
  destruct (on_path_head dbnode g n key l P (hexkey_nonempty _ Hk) Hp) as [l' El].
  destruct (proofDb (node_hash n)) as [b|] eqn:Eb.
  2:{ right. exists i, n. split_and!; try done; [rewrite El; left|by left]. }
  rewrite (Hh n b) by (done || (rewrite El; left)). rewrite (decode_node dbnode Hdb g force) by done.
  cbn [map_err mbind outcome_bind].
  destruct (walks_node dbnode g n force (Some (node_hash n)) 0 key l E P Hk Hp)
    as [(r & -> & Hn)|[(v & -> & Hv)|(h & c & rest & l1 & l2 & -> & Ec & Er & Hs & Hl & Hx & -> & Hp2)]].
  - left. exists None, i. split; [done|]. intros w. split; [by intros ?%Hn|done].
  - left. exists (Some v), (i + 1). split; [done|]. intros w. split; [|by intros [= <-]].
    intros Hw. f_equal. by eapply (has_fun _ _ n); [apply E|..].
  - cbn [map_err mbind outcome_bind from_option id].
    destruct (encodable_resolve dbnode Hdb g c Ec) as (d & Hcd & Pd & Ed & Rd & Sd).
    rewrite <- Rd in Er. destruct (ref_stored d h Pd Er) as [-> Hst].
    rewrite take_ge, drop_ge, app_nil_r by (rewrite !node_hash_length; lia).
    apply (on_path_resolve _ _ c d) in Hp2; [|done|by apply hexkey_nonempty].
    setoid_rewrite Hs. setoid_rewrite Sd.
    destruct (IH false d rest l2 (i + 1) Ed Pd Hx Hp2) as [?|(j & x & -> & Hin & Hx' & Hnone)]; [lia| |by left|right].
    + intros x b' Hin. apply Hh. set_solver.
    + exists j, x. split_and!; [done|set_solver| |done]. destruct Hx' as [->|?]; by right.
Qed.
End honest.

Lemma prove_nodes_total fuel : forall force n key,
  encodable dbnode g force n -> hexkey key -> (2 * length key + (if plain n then 0 else 1) < fuel)%nat ->
  exists l, prove_nodes dbnode fuel g n key = Ok l /\
    Forall (fun c => plain c = true /\ exists f, encodable dbnode g f c) l.
Proof.
  induction fuel as [|fuel IH]; intros force n key E Hk Hf; [lia|]. pose proof (hexkey_nonempty _ Hk) as Hne.
  assert (forall l, plain n = true -> Forall (fun c => plain c = true /\ exists f, encodable dbnode g f c) l ->
    Forall (fun c => plain c = true /\ exists f, encodable dbnode g f c) (n :: l)) as Hcons by (constructor; eauto).
  destruct n as [|v|k c f|ch f|h]; try by destruct E as [W _ _]; inversion W.
  - cbn [prove_nodes plain] in *. destruct (_ || _) eqn:Ec; [destruct key; [done|]; eauto|].
    apply short_check in Ec as [rest ->]. rewrite drop_app_length. destruct (k ++ rest) as [|x key] eqn:Ek; [done|].
    rewrite <- Ek in *. destruct (encodable_short _ _ _ _ _ _ E) as [(v & -> & Hx)|(Ec & Hn & Hke)].
    + assert (rest = []) as -> by (by apply (hexkey_prefix k (k ++ rest))). destruct fuel; [apply hexkey_nonempty in Hx; destruct k; simpl in Hf; [done|lia]|].
      simpl. eauto.
    + apply hexkey_app_inv in Hk; [|done]. destruct (IH false c rest Ec Hk) as (l & -> & Hl).
      { rewrite length_app in Hf. destruct k; [done|]. simpl in Hf. destruct (plain c); lia. }
      simpl. eauto.
  - destruct key as [|x key]; [done|]. cbn [prove_nodes plain length] in *.
    assert (length ch = 17%nat) as Hlen by (destruct E as [W _ _]; by inversion W).
    destruct (hexkey_cons_inv _ _ Hk) as [[-> ->]|[Hx Hr]].
    + change terminator with (Z.of_nat 16). rewrite child_nat. destruct (lookup_lt_is_Some_2 ch 16 ltac:(lia)) as [c ->].
      destruct fuel; [lia|]. simpl. eauto.
    + unfold is_nibble in Hx. rewrite <- (Z2Nat.id x), child_nat by lia.
      destruct (lookup_lt_is_Some_2 ch (Z.to_nat x) ltac:(lia)) as [c Hc]. rewrite Hc. cbn [or_panic mbind outcome_bind].
      destruct (encodable_full _ _ _ _ _ _ _ E Hc) as [[_ [->|Ec]]|[? _]]; [| |lia].
      * destruct fuel; [lia|]. destruct key; simpl; eauto.
      * destruct (IH false c key Ec Hr) as (l & -> & Hl); [destruct (plain c); lia|]. simpl. eauto.
  - destruct E as [W C S]. inversion W as [| | |? n Hr Hh Hn]; subst. destruct key as [|x key]; [done|].
    cbn [prove_nodes plain length] in *. unfold resolveHash. rewrite Hr. cbn [mbind outcome_bind].
    destruct (resolve_coherent dbnode Hdb force h g n C Hr) as (Cn & _ & _). apply (IH force n); [|done|].
    + constructor; [done|done|]. intros k v Hv. apply S. by apply (has_hash_iff _ _ _ n).
    + assert (plain n = true) as -> by by destruct Hn. simpl. lia.
Qed.

(** [Prove] puts a stored node, and the first node, under its hash. *)
Lemma prove_put_ok force first n db :
  encodable dbnode g force n -> plain n = true ->
  exists db', prove_put first n 0 db = Ok (0, db') /\
    (db' = db \/ db' = <[node_hash n := blob (mraw n)]> db) /\
    (first = true \/ stored n -> db' !! node_hash n = Some (blob (mraw n))).
Proof.
  intros [W C S] P. pose proof (wf_no_nil_short _ _ _ W) as Hns. pose proof (coherent_children _ _ _ C) as Hcc.
  assert (Forall (fun c => c <> Nil -> hash_ok dbnode (hash false false 0 0) false c) (children n)) as Hok.
  { apply no_nil_short_children in Hns. rewrite !Forall_forall in *. eauto using hash_child_ok. }
  destruct (hashChildren_ok dbnode _ n Hok Hcc) as (col & ca & E1 & E2 & _ & E4 & _); [by intros; apply no_nil_short_top|].
  unfold prove_put. rewrite E1. cbn [mbind outcome_bind].
  assert (blob col = blob (mraw n)) as Eb by by rewrite <- E2, blob_erase.
  assert (is_ref col = false) as Er by (rewrite <- is_ref_erase, E2; by destruct n).
  destruct (store_plain false false col false Er) as (ev & Hev & ->). rewrite Encode_blob.
  unfold stored, node_hash. rewrite mref_plain by done. unfold embeds. rewrite Eb, andb_true_r.
  destruct (Nat.ltb_spec (length (blob (mraw n))) 32) as [Hl|Hl]; cbn [mbind outcome_bind].
  - destruct col; try done; cbn [orb is_Some]; destruct first; simpl; eexists; (split; [done|]);
      (split; [by auto|]); rewrite ?lookup_insert_eq; try done; intros [?|Hs]; try done; by destruct n.
  - assert (default (keccak256 (blob (mraw n))) (cache col).1 = keccak256 (blob (mraw n))) as ->.
    { rewrite E4. destruct (cache n).1 as [h|] eqn:Ec; [|done]. simpl.
      assert (mref force n = HashNode h) as Hm by (destruct n; try done; by apply C).
      rewrite mref_plain in Hm by done. unfold embeds in Hm. rewrite (proj2 (Nat.ltb_ge _ _) Hl) in Hm. by injection Hm. }
    simpl. eexists. split; [done|]. split; [by right|]. by rewrite lookup_insert_eq.
Qed.

(** The database of a proof holds nodes of the path under their hashes, and all
    of those that are stored. *)
Lemma prove_loop_ok nodes : forall first db (l : list node),
  Forall (fun c => plain c = true /\ exists f, encodable dbnode g f c) nodes -> nodes ⊆ l ->
  (forall h b, db !! h = Some b -> exists c, c ∈ l /\ h = node_hash c /\ b = blob (mraw c)) ->
  exists db', prove_loop first nodes 0 db = Ok db' /\
    (forall h b, db' !! h = Some b -> exists c, c ∈ l /\ h = node_hash c /\ b = blob (mraw c)) /\
    (forall h, is_Some (db !! h) -> is_Some (db' !! h)) /\
    (forall c, c ∈ nodes -> (first = true /\ head nodes = Some c) \/ stored c -> is_Some (db' !! node_hash c)).
Proof.
  induction nodes as [|n nodes IH]; intros first db l Hn Hsub Hdb0.
  { exists db. split_and!; try done. intros c Hc. by apply not_elem_of_nil in Hc. }
  apply Forall_cons in Hn as [[P [force E]] Hn]. cbn [prove_loop].
  destruct (prove_put_ok force first n db E P) as (db1 & -> & Hor & Hin). cbn [mbind outcome_bind].
  destruct (IH false db1 l Hn) as (db' & -> & H1 & H2 & H3); [set_solver| |].
  { intros h b Hb. destruct Hor as [->| ->]; [by apply Hdb0|]. apply lookup_insert_Some in Hb as [[<- <-]|[_ Hb]]; [|by apply Hdb0].
    exists n. split; [|done]. apply Hsub. left. }
  exists db'. split_and!; try done.
  - intros h Hh. apply H2. destruct Hor as [->| ->]; [done|]. apply lookup_insert_is_Some'. by right.
  - intros c Hc Hs. apply elem_of_cons in Hc as [->|Hc].
    + apply H2. rewrite Hin; [done|]. naive_solver.
    + destruct Hs as [[-> [= ->]]|Hs]; [|by apply H3; auto]. apply H2. rewrite Hin; [done|by left].
Qed.
End verification.

(** ** Proofs against the root of a trie *)

Section root_proofs.
Context `{Keccak} (dbnode : list Z -> Z -> option node).

(** The encoded nodes on the path of a key; the empty trie has one of its own. *)
Definition path_blob (t : Trie) (key b : list Z) : Prop :=
  (root t = Nil /\ b = [128]) \/
  exists l c, on_path dbnode (cachegen t) (root t) (keybytesToHex key) l /\ c ∈ l /\ b = blob (mraw c).

Context (Hdb : db_coherent dbnode) (t : Trie) (m : gmap (list Z) (list Z)).
Context (Hs : sound dbnode t m) (Hm : short_map m).

Lemma sound_encodable : root t <> Nil -> encodable dbnode (cachegen t) true (root t).
Proof.
  intros Hn. destruct Hs as [R C]. destruct (rep_wf _ _ _ R) as [?|W]; [done|]. constructor; [done|done|].
  intros hk v Hh. apply (rep_has _ _ _ R) in Hh as (k & -> & Hk). destruct (Hm k v Hk) as [Lk Lv].
  rewrite keybytesToHex_length. lia.
Qed.

(** The root as a loaded node. *)
Lemma root_loaded :
  root t <> Nil -> exists n, (root t = n \/ exists h, root t = HashNode h /\ dbnode (BytesToHash h) (cachegen t) = Some n) /\
    plain n = true /\ encodable dbnode (cachegen t) true n /\ merkle_root (root t) = node_hash n /\
    (forall k v, has dbnode (cachegen t) (root t) k v <-> has dbnode (cachegen t) n k v).
Proof.
  intros Hn. destruct (sound_encodable Hn) as [W C S].
  assert (forall n, plain n = true -> mref true n = HashNode (node_hash n)) as Href.
  { intros n P. rewrite mref_plain by done. unfold embeds. by rewrite andb_false_r. }
  assert (forall n, BytesToHash (node_hash n) = node_hash n) as Hid.
  { intros n. destruct (keccak256_ok (blob (mraw n))) as [Hl Hb]. by apply BytesToHash_id. }
  destruct (plain (root t)) eqn:P.
  - exists (root t). split_and!; [by left|done|done| |done]. unfold merkle_root. by rewrite Href, Hid.
  - inversion W as [? ? ? ? ? E|? ? ? ? ? ? ? E|? ? ? ? ? ? E|h n Hr Hh Wn E]; try by rewrite <- E in P.
    rewrite <- E in *. destruct (resolve_coherent dbnode Hdb true h _ n C Hr) as (Cn & Rn & _).
    assert (plain n = true) as Pn by by destruct Wn.
    assert (forall k v, has dbnode (cachegen t) (HashNode h) k v <-> has dbnode (cachegen t) n k v) as Hh' by (intros; by apply has_hash_iff).
    exists n. split_and!; [by eauto|done| | |done].
    + constructor; [done|done|]. intros k v Hk. apply S. by apply Hh'.
    + rewrite Href in Rn by done. injection Rn as <-. apply Hid.
Qed.

(** The path of a key from the root: the nodes [Prove] collects, starting at a
    loaded node with the root hash and the bindings of the trie. *)
Lemma root_path key :
  root t <> Nil -> bytes_ok key ->
  exists n l, plain n = true /\ encodable dbnode (cachegen t) true n /\ merkle_root (root t) = node_hash n /\
    hexkey (keybytesToHex key) /\
    prove_nodes dbnode (2 * length (keybytesToHex key) + 3) (cachegen t) (root t) (keybytesToHex key) = Ok l /\
    Forall (fun c => plain c = true /\ exists f, encodable dbnode (cachegen t) f c) l /\
    on_path dbnode (cachegen t) (root t) (keybytesToHex key) l /\
    on_path dbnode (cachegen t) n (keybytesToHex key) l /\
    (forall v, (forall w, has dbnode (cachegen t) n (keybytesToHex key) w <-> v = Some w) -> v = m !! key).
Proof.
  intros Hn Hk. destruct (root_loaded Hn) as (n & Hr & P & E & Eh & Hh). pose proof (keybytesToHex_hexkey _ Hk) as Hx.
  destruct (prove_nodes_total dbnode Hdb (cachegen t) (2 * length (keybytesToHex key) + 3) true (root t) _
              (sound_encodable Hn) Hx) as (l & El & Hl); [destruct (plain (root t)); lia|].
  exists n, l. assert (on_path dbnode (cachegen t) (root t) (keybytesToHex key) l) as Hp by by eexists.
  split_and!; try done.
  - eapply on_path_resolve; [exact Hr|by apply hexkey_nonempty|done].
  - intros v Hv. assert (forall w, v = Some w <-> m !! key = Some w) as Ev.
    { intros w. rewrite <- Hv, <- Hh. by apply (rep_lookup dbnode t m key w (sound_rep _ _ _ Hs)). }
    destruct v as [w|]; [symmetry; by apply Ev|]. destruct (m !! key) as [w|] eqn:Em; [|done]. by apply Ev.
Qed.

Lemma nonempty_root : m <> ∅ -> root t <> Nil.
Proof.
  intros Hne En. apply Hne, map_empty. intros k. destruct (m !! k) as [v|] eqn:Ek; [|done].
  assert (has dbnode (cachegen t) (root t) (keybytesToHex k) v) as Hb by (apply (rep_has _ _ _ (sound_rep _ _ _ Hs)); eauto).
  rewrite En in Hb. by apply has_nil in Hb.
Qed.
End root_proofs.

(** C10: safety.  A proof cannot lie.  Let [h] be the root hash of a trie over any
    coherent database, and let the proof database be anything that stores byte
    strings under their hashes.  If the hash function does not collide between an
    encoded node on the path of the key and what the database holds, then
    [VerifyProof] returns within its fuel and without panicking, and unless it
    returns an error it returns what the trie binds the key to, or nil for a key
    that is not bound. *)
Theorem verify_proof_sound `{Keccak} dbnode t m h t' key proofDb :
  keccak256 [128] = emptyRoot -> db_coherent dbnode -> sound dbnode t m -> short_map m -> bytes_ok key ->
  Hash t = Ok (h, t') ->
  (forall k b, proofDb k = Some b -> keccak256 b = k) ->
  (forall k b b', path_blob dbnode t key b -> proofDb k = Some b' -> keccak256 b' = keccak256 b -> b' = b) ->
  (exists i, VerifyProof h key proofDb = Ok (m !! key, i)) \/ (exists e, VerifyProof h key proofDb = Err e).
Proof.
  intros He Hdb Hs Hm Hk Hh Hc Hnc. destruct (Hash_spec _ _ _ Hs) as (u & Hh' & _).
  rewrite Hh' in Hh. injection Hh as <- _. clear u Hh'. unfold VerifyProof.
  destruct (nil_dec (root t)) as [En|Hn].
  - right. rewrite En. change (merkle_root Nil) with emptyRoot. cbn [VerifyProof_loop].
    destruct (proofDb emptyRoot) as [b|] eqn:Eb; [|eauto].
    rewrite (Hnc emptyRoot [128] b) by (by left || (rewrite (Hc _ _ Eb), He; done) || done).
    eexists. vm_compute. reflexivity.
  - destruct (root_path dbnode Hdb t m Hs Hm key Hn Hk) as (n & l & P & E & -> & Hx & _ & _ & Hp & Hp' & Hv).
    destruct (verify_loop_ok dbnode Hdb (cachegen t) proofDb (S (length (keybytesToHex key))) true n _ l 0 E P Hx Hp')
      as [(v & j & -> & Hw)|(j & c & -> & _)]; [lia| | |by eauto].
    + intros c b Hin Hb. apply (Hnc (node_hash c)); [right; eauto|done|]. by apply Hc.
    + left. exists j. by rewrite (Hv v).
Qed.

(** C29: roundtrip.  The proof [Prove] collects for a key of a non-empty trie, from
    level 0 into an empty database, verifies against the root hash of the trie:
    [VerifyProof] returns the binding of the key, or nil for a key that is not
    bound, if the encoded nodes on the path have different hashes. *)
Theorem prove_verify `{Keccak} dbnode t m h t' key :
  db_coherent dbnode -> sound dbnode t m -> short_map m -> m <> ∅ -> bytes_ok key -> Hash t = Ok (h, t') ->
  (forall b b', path_blob dbnode t key b -> path_blob dbnode t key b' -> keccak256 b = keccak256 b' -> b = b') ->
  exists proofDb i, Prove dbnode t key 0 ∅ = Ok proofDb /\
    VerifyProof h key (fun k => proofDb !! k) = Ok (m !! key, i).
Proof.
  intros Hdb Hs Hm Hne Hk Hh Hnc. destruct (Hash_spec _ _ _ Hs) as (u & Hh' & _).
  rewrite Hh' in Hh. injection Hh as <- _. clear u Hh'.
  destruct (root_path dbnode Hdb t m Hs Hm key (nonempty_root dbnode t m Hs Hne) Hk)
    as (n & l & P & E & -> & Hx & El & Hl & Hp & Hp' & Hv).
  unfold Prove, VerifyProof. rewrite El. cbn [mbind outcome_bind].
  destruct (prove_loop_ok dbnode Hdb (cachegen t) l true ∅ l Hl) as (db & -> & H1 & _ & H3); [done| |].
  { intros ? ? Hb. by rewrite lookup_empty in Hb. }
  destruct (on_path_head _ _ n _ l P (hexkey_nonempty _ Hx) Hp') as [l' El'].
  destruct (verify_loop_ok dbnode Hdb (cachegen t) (fun k => db !! k) (S (length (keybytesToHex key))) true n _ l 0 E P Hx Hp')
    as [(v & j & Ew & Hw)|(j & c & _ & Hc & Hst & Hnone)]; [lia| | |].
  - intros c b Hc (c' & Hc' & Eh & ->)%H1. symmetry. apply Hnc; [right; eauto..|done].
  - exists db, j. split; [done|]. by rewrite Ew, (Hv v).
  - exfalso. destruct (H3 c Hc) as [b Hb]; [|congruence]. destruct Hst as [->|?]; [left; by rewrite El'|by right].
Qed.

(** ** An example *)

Lemma prove_nodes_mono dbnode fuel fuel' : forall gen n key l,
  (fuel <= fuel')%nat -> prove_nodes dbnode fuel gen n key = Ok l -> prove_nodes dbnode fuel' gen n key = Ok l.
Proof.
  revert fuel'. induction fuel as [|fuel IH]; intros [|fuel'] gen n key l Hf E; try (done || lia).
  assert (fuel <= fuel')%nat as Hf' by lia. cbn [prove_nodes] in *.
  destruct key as [|x key]; [done|]. destruct n; try done.
  - destruct (_ || _); [done|]. inv_ok. by rewrite (IH fuel' _ _ _ _ Hf' E0).
  - inv_ok. rewrite E0. simpl. by rewrite (IH fuel' _ _ _ _ Hf' E1).
  - inv_ok. rewrite E0. simpl. by apply (IH fuel').
Qed.

Lemma on_path_fun dbnode gen n key l l' : on_path dbnode gen n key l -> on_path dbnode gen n key l' -> l = l'.
Proof.
  intros [f1 E1] [f2 E2]. apply (prove_nodes_mono _ _ (f1 + f2)) in E1; [|lia].
  apply (prove_nodes_mono _ _ (f1 + f2)) in E2; [|lia]. congruence.
Qed.

Definition proof_ops : list trie_op := [OpUpdate [1; 2] (replicate 32 7); OpUpdate [1; 3] [8]].

Definition proof_trie : Trie :=
  match trie_run no_db empty_trie proof_ops with Ok (_, t) => t | _ => empty_trie end.

Definition proof_nodes (key : list Z) : list node :=
  match prove_nodes no_db 20 0 (root proof_trie) (keybytesToHex key) with Ok l => l | _ => [] end.

Definition proof_map : gmap (list Z) (list Z) := {[ [1; 2] := replicate 32 7; [1; 3] := [8] ]}.

(** A hash function that tells the sample nodes apart and has the root of the
    empty trie. *)
Definition sum_hash (b : list Z) : list Z :=
  if bool_decide (b = [128]) then emptyRoot
  else be_bytes 32 (fold_left (fun acc x => (acc * 257 + x + 1) mod 65521) b 0).

Lemma sum_hash_ok b : length (sum_hash b) = 32%nat /\ bytes_ok (sum_hash b).
Proof.
  unfold sum_hash. case_bool_decide; [|split; [apply length_be_bytes|apply be_bytes_ok]].
  split; [done|]. by apply (bool_decide_unpack _).
Qed.

Section example.
#[local] Instance sum_keccak : Keccak := Build_Keccak sum_hash sum_hash_ok.

Lemma sum_empty_root : keccak256 [128] = emptyRoot.
Proof. reflexivity. Qed.

Definition proof_blobs (key : list Z) : list (list Z) := map (fun c => blob (mraw c)) (proof_nodes key).

Definition proof_db (key : list Z) : gmap (list Z) (list Z) :=
  match Prove no_db proof_trie key 0 ∅ with Ok db => db | _ => ∅ end.

Definition proof_root : list Z := match Hash proof_trie with Ok (h, _) => h | _ => [] end.

Lemma proof_trie_sound : sound no_db proof_trie proof_map.
Proof.
  assert (sound no_db empty_trie ∅) as S0 by (constructor; [by apply represents_empty|exact I]).
  destruct (trie_run_sound no_db no_db_coherent proof_ops _ _ S0) as (t & E & S); [repeat constructor; lia|].
  assert ((map_run ∅ proof_ops).2 = proof_map) as Em by (vm_compute; reflexivity). rewrite Em in S.
  unfold proof_trie. by rewrite E.
Qed.

Lemma proof_map_short : short_map proof_map.
Proof.
  intros k v Hk. unfold proof_map in Hk. apply lookup_insert_Some in Hk as [[<- <-]|[_ Hk]]; [simpl; lia|].
  apply lookup_singleton_Some in Hk as [<- <-]. simpl. lia.
Qed.

Lemma proof_path_blob key b :
  is_ok (prove_nodes no_db 20 0 (root proof_trie) (keybytesToHex key)) ->
  path_blob no_db proof_trie key b -> b ∈ proof_blobs key.
Proof.
  intros [l El] [[Hn _]|(l' & c & Hp & Hc & ->)]; [by vm_compute in Hn|]. unfold proof_blobs, proof_nodes. rewrite El.
  rewrite (on_path_fun no_db (cachegen proof_trie) (root proof_trie) (keybytesToHex key) l l'); [|by exists 20%nat|done].
  apply list_elem_of_fmap. by exists c.
Qed.

(** No two different encoded nodes on the path collide. *)
Definition proof_injective (key : list Z) : bool :=
  forallb (fun b => forallb (fun b' => negb (bool_decide (keccak256 b = keccak256 b')) || bool_decide (b = b'))
    (proof_blobs key)) (proof_blobs key).

Lemma proof_injective_ok key b b' :
  proof_injective key = true -> b ∈ proof_blobs key -> b' ∈ proof_blobs key -> keccak256 b = keccak256 b' -> b = b'.
Proof.
  unfold proof_injective. rewrite forallb_forall. intros Hf Hb Hb' E. specialize (Hf b (proj1 (list_elem_of_In _ _) Hb)).
  rewrite forallb_forall in Hf. specialize (Hf b' (proj1 (list_elem_of_In _ _) Hb')).
  rewrite bool_decide_true in Hf by done. by apply bool_decide_eq_true in Hf.
Qed.

Lemma proof_root_ok : exists u, Hash proof_trie = Ok (proof_root, u).
Proof. destruct (Hash_spec _ _ _ proof_trie_sound) as (u & Hu & _). unfold proof_root. rewrite Hu. eauto. Qed.

Lemma proof_injective_12 : proof_injective [1; 2] = true.
Proof. vm_compute. reflexivity. Qed.

Lemma proof_db_12 : map_Forall (fun k b => keccak256 b = k /\ b ∈ proof_blobs [1; 2]) (proof_db [1; 2]).
Proof. apply (bool_decide_unpack _). vm_compute. exact I. Qed.

Lemma proof_blobs_14 : proof_blobs [1; 4] ⊆ proof_blobs [1; 2].
Proof. apply (bool_decide_unpack _). vm_compute. exact I. Qed.

Lemma proof_ran_12 : is_ok (prove_nodes no_db 20 0 (root proof_trie) (keybytesToHex [1; 2])).
Proof. eexists. vm_compute. reflexivity. Qed.

Lemma proof_ran_14 : is_ok (prove_nodes no_db 20 0 (root proof_trie) (keybytesToHex [1; 4])).
Proof. eexists. vm_compute. reflexivity. Qed.

Lemma proof_no_error e : VerifyProof proof_root [1; 4] (fun k => proof_db [1; 2] !! k) <> Err e.
Proof.
  assert (VerifyProof proof_root [1; 4] (fun k => proof_db [1; 2] !! k) = Ok (None, 1)) as -> by (vm_compute; reflexivity).
  done.
Qed.

(** A key with a stored leaf: three proof nodes. *)
Lemma prove_verify_witness :
  exists proofDb i, Prove no_db proof_trie [1; 2] 0 ∅ = Ok proofDb /\
    VerifyProof proof_root [1; 2] (fun k => proofDb !! k) = Ok (Some (replicate 32 7), i).
Proof.
  destruct proof_root_ok as [u Hu]. change (Some (replicate 32 7)) with (proof_map !! [1; 2]).
  apply (prove_verify no_db proof_trie proof_map proof_root u [1; 2] no_db_coherent proof_trie_sound proof_map_short
    ltac:(done) ltac:(repeat constructor; lia) Hu).
  intros b b' Hb%(proof_path_blob _ _ proof_ran_12) Hb'%(proof_path_blob _ _ proof_ran_12).
  by apply (proof_injective_ok [1; 2]); [apply proof_injective_12|..].
Defined.

(** The same proof database shows that another key is not bound. *)
Lemma verify_proof_sound_witness :
  exists i, VerifyProof proof_root [1; 4] (fun k => proof_db [1; 2] !! k) = Ok (None, i).
Proof.
  destruct proof_root_ok as [u Hu].
  destruct (verify_proof_sound no_db proof_trie proof_map proof_root u [1; 4] (fun k => proof_db [1; 2] !! k)
    sum_empty_root no_db_coherent proof_trie_sound proof_map_short ltac:(repeat constructor; lia) Hu
    (fun k b Hb => proj1 (proof_db_12 k b Hb))) as [Hi|[e He]].
  - intros k b b' Hb%(proof_path_blob _ _ proof_ran_14) Hb' E.
    apply (proof_injective_ok [1; 2]); [apply proof_injective_12|by apply (proof_db_12 k)|by apply proof_blobs_14|done].
  - exact Hi.
  - destruct (proof_no_error e He).
Defined.
End example.

(** A short node without a key: the decoder slices below the start of the key. *)
Lemma decode_empty_key : decodeNode None [0xC2; 0x80; 0x80] 0 = Panic.
Proof. vm_compute. reflexivity. Qed.
