(* ===== verification/TrieDb.v ===== *)
(** * The trie node database ([src/trie/database.go])

    [Database] caches the nodes of committed tries in memory, counts the references
    between them, keeps them on a doubly linked list in the order of insertion, and
    moves them to the disk: [Dereference] releases what no live root needs, [Cap]
    writes the oldest nodes out, [Commit] a whole trie.  The maps of Go are [gmap],
    the order in which a loop ranges over one is the class [MapOrder]; a nil
    dereference is a panic.  The disk is the map of what batches have written; which
    writes fail is part of the state ([d_writes]).  The read lock is counted, and
    [lock_write] under a read lock does not return.

    [StorageSize] is a float in the code; the sums here are exact below 2^53.  The
    metrics, the log and the clock are left out. *)

From S2P Require Import Prelude Common TrieEncoding Trie TrieSpec TrieMap.
From S2P Require Import TrieCanon Rlp Sha3 TrieHash TrieMerkle RlpRaw TrieBinding TrieProof.

(** ** Cached nodes *)

(** The collapsed nodes of the cache: [rawShortNode], [rawFullNode], [valueNode],
    [hashNode], nil, and the blob of [rawNode]. *)
Inductive rnode : Type :=
  | RawNil
  | RawValue (v : list Z)
  | RawHash (h : list Z)
  | RawShort (Key : list Z) (Val : rnode)
  | RawFull (Children : list rnode)
  | RawNode (blob : list Z).

Definition rnode_is_nil (n : rnode) : bool := match n with RawNil => true | _ => false end.

(** [simplifyNode]; [None] is the panic on nil. *)
Fixpoint simplifyNode (n : node) : option rnode :=
  match n with
  | ShortNode k c _ => r ← simplifyNode c; Some (RawShort k r)
  | FullNode ch _ =>
      rs ← (fix go (l : list node) : option (list rnode) :=
              match l with
              | [] => Some []
              | c :: l =>
                  r ← (if is_nil c then Some RawNil else simplifyNode c);
                  rs ← go l;
                  Some (r :: rs)
              end) ch;
      Some (RawFull rs)
  | ValueNode v => Some (RawValue v)
  | HashNode h => Some (RawHash h)
  | Nil => None
  end.

(** [expandNode]; [None] is a panic. *)
Fixpoint expandNode (hash : option (list Z)) (cachegen : Z) (n : rnode) : option node :=
  match n with
  | RawShort k c =>
      key ← compactToHex k;
      v ← expandNode None cachegen c;
      Some (ShortNode key v (NodeFlag hash cachegen false))
  | RawFull ch =>
      ns ← (fix go (l : list rnode) : option (list node) :=
              match l with
              | [] => Some []
              | c :: l =>
                  n ← (if rnode_is_nil c then Some Nil else expandNode None cachegen c);
                  ns ← go l;
                  Some (n :: ns)
              end) ch;
      Some (FullNode ns (NodeFlag hash cachegen false))
  | RawValue v => Some (ValueNode v)
  | RawHash h => Some (HashNode h)
  | RawNil | RawNode _ => None
  end.

(** [gatherChildren]: the hashes a collapsed node refers to. *)
Fixpoint gatherChildren (n : rnode) : option (list (list Z)) :=
  match n with
  | RawShort _ c => gatherChildren c
  | RawFull ch =>
      (fix go (l : list rnode) (i : nat) : option (list (list Z)) :=
         match l, i with
         | c :: l, S i => cs ← gatherChildren c; rest ← go l i; Some (cs ++ rest)
         | _, _ => Some []
         end) ch 16%nat
  | RawHash h => Some [BytesToHash h]
  | RawValue _ | RawNil => Some []
  | RawNode _ => None
  end.

(** A collapsed node as the value of an interface; [rawFullNode.EncodeRLP] writes
    [nilValueNode] for nil. *)
Fixpoint rnode_rval (n : rnode) : rval :=
  match n with
  | RawNil => VNil
  | RawValue v | RawHash v | RawNode v => VIface TBytes (VBytes v)
  | RawShort k c => VIface (TPtr (TStruct [TBytes; TInterface])) (VPtr (VList [VBytes k; rnode_rval c]))
  | RawFull ch =>
      VIface (TSlice TInterface)
        (VList (map (fun c => if rnode_is_nil c then VIface TBytes (VBytes []) else rnode_rval c) ch))
  end.

(** [cachedNode]; a nil map of children reads like an empty one. *)
Record cachedNode := mkCached {
  c_node : rnode;
  c_size : Z;
  c_parents : Z;
  c_children : gmap (list Z) Z;
  c_flushPrev : list Z;
  c_flushNext : list Z
}.

Definition set_parents (p : Z) (n : cachedNode) : cachedNode :=
  mkCached (c_node n) (c_size n) p (c_children n) (c_flushPrev n) (c_flushNext n).
Definition set_children (ch : gmap (list Z) Z) (n : cachedNode) : cachedNode :=
  mkCached (c_node n) (c_size n) (c_parents n) ch (c_flushPrev n) (c_flushNext n).
Definition set_flushPrev (h : list Z) (n : cachedNode) : cachedNode :=
  mkCached (c_node n) (c_size n) (c_parents n) (c_children n) h (c_flushNext n).
Definition set_flushNext (h : list Z) (n : cachedNode) : cachedNode :=
  mkCached (c_node n) (c_size n) (c_parents n) (c_children n) (c_flushPrev n) h.

(** [cachedNode.rlp] *)
Definition cached_rlp (n : cachedNode) : option (list Z) :=
  match c_node n with
  | RawNode b => Some b
  | r => match Encode TInterface (rnode_rval r) with Ok b => Some b | _ => None end
  end.

(** [cachedNode.obj] *)
Definition cached_obj (n : cachedNode) (hash : list Z) (cachegen : Z) : option node :=
  match c_node n with
  | RawNode b => match mustDecodeNode (Some hash) b cachegen with Ok n => Some n | _ => None end
  | r => expandNode (Some hash) cachegen r
  end.

(** The order in which a loop ranges over a map. *)
Class MapOrder := {
  map_order {A} : gmap (list Z) A -> list (list Z * A);
  map_order_perm {A} (m : gmap (list Z) A) : map_order m ≡ₚ map_to_list m
}.

(** [cachedNode.childs] *)
Definition childs `{MapOrder} (n : cachedNode) : option (list (list Z)) :=
  let children := (map_order (c_children n)).*1 in
  match c_node n with
  | RawNode _ => Some children
  | r => gathered ← gatherChildren r; Some (children ++ gathered)
  end.

(** ** The database *)

Record Database := mkDatabase {
  d_nodes : gmap (list Z) cachedNode;
  d_oldest : list Z;
  d_newest : list Z;
  d_preimages : gmap (list Z) (list Z);
  d_nodesSize : Z;
  d_preimagesSize : Z;
  (** The disk, the results of the coming batch writes (then they succeed), and
      the number of read locks held. *)
  d_disk : gmap (list Z) (list Z);
  d_writes : list bool;
  d_readers : Z
}.

Definition with_nodes (f : gmap (list Z) cachedNode -> gmap (list Z) cachedNode) (db : Database) : Database :=
  mkDatabase (f (d_nodes db)) (d_oldest db) (d_newest db) (d_preimages db) (d_nodesSize db)
    (d_preimagesSize db) (d_disk db) (d_writes db) (d_readers db).
Definition with_oldest (h : list Z) (db : Database) : Database :=
  mkDatabase (d_nodes db) h (d_newest db) (d_preimages db) (d_nodesSize db)
    (d_preimagesSize db) (d_disk db) (d_writes db) (d_readers db).
Definition with_newest (h : list Z) (db : Database) : Database :=
  mkDatabase (d_nodes db) (d_oldest db) h (d_preimages db) (d_nodesSize db)
    (d_preimagesSize db) (d_disk db) (d_writes db) (d_readers db).
Definition add_size (n : Z) (db : Database) : Database :=
  mkDatabase (d_nodes db) (d_oldest db) (d_newest db) (d_preimages db) (d_nodesSize db + n)
    (d_preimagesSize db) (d_disk db) (d_writes db) (d_readers db).
Definition with_preimages (m : gmap (list Z) (list Z)) (size : Z) (db : Database) : Database :=
  mkDatabase (d_nodes db) (d_oldest db) (d_newest db) m (d_nodesSize db)
    size (d_disk db) (d_writes db) (d_readers db).
Definition with_disk (m : gmap (list Z) (list Z)) (w : list bool) (db : Database) : Database :=
  mkDatabase (d_nodes db) (d_oldest db) (d_newest db) (d_preimages db) (d_nodesSize db)
    (d_preimagesSize db) m w (d_readers db).
Definition add_readers (n : Z) (db : Database) : Database :=
  mkDatabase (d_nodes db) (d_oldest db) (d_newest db) (d_preimages db) (d_nodesSize db)
    (d_preimagesSize db) (d_disk db) (d_writes db) (d_readers db + n).

Inductive db_error : Type := ErrWrite | ErrNotFound.

Abbreviation DB := (SM Database db_error).

(** [NewDatabase]: the cache has the metaroot under the zero hash.  [writes] is how
    the batch writes to the disk will come out. *)
Definition metaroot : cachedNode := mkCached RawNil 0 0 ∅ emptyHash emptyHash.

Definition NewDatabase (disk : gmap (list Z) (list Z)) (writes : list bool) : Database :=
  mkDatabase {[ emptyHash := metaroot ]} emptyHash emptyHash ∅ 0 0 disk writes 0.

(** The assignment to a field of [db.nodes\[h\]]; a missing node is a nil pointer. *)
Definition update_node (h : list Z) (f : cachedNode -> cachedNode) : DB unit :=
  nodes ← gets d_nodes;
  n ← must (nodes !! h);
  modify (with_nodes (insert h (f n))).

Definition rlock : DB unit := modify (add_readers 1).
Definition runlock : DB unit := modify (add_readers (-1)).

(** Taking the write lock waits for the readers, forever if none will leave. *)
Definition lock_write : DB unit := fun db => if bool_decide (d_readers db = 0) then Ok (db, inr tt) else OutOfFuel.

(** A loop over a list that threads a value. *)
Definition for_each {B} (f : list Z -> B -> DB B) : list (list Z) -> B -> DB B :=
  fix loop cs b :=
    match cs with
    | [] => mret b
    | c :: cs => b ← f c b; loop cs b
    end.

(** *** Batches *)

(** [ethdb.Batch]: the puts, newest first, and the size of the values. *)
Record batch := mkBatch { b_puts : list (list Z * list Z); b_size : Z }.

Definition NewBatch : batch := mkBatch [] 0.

Definition batch_Put (k v : list Z) (b : batch) : batch :=
  mkBatch ((k, v) :: b_puts b) (b_size b + Z.of_nat (length v)).

Definition IdealBatchSize : Z := 100 * 1024.

(** The disk after the puts of a batch. *)
Definition put_all (puts : list (list Z * list Z)) (disk : gmap (list Z) (list Z)) : gmap (list Z) (list Z) :=
  foldr (fun kv m => <[kv.1 := kv.2]> m) disk puts.

(** [Batch.Write]: all of the batch or nothing. *)
Definition batch_Write (b : batch) : DB unit := fun db =>
  match d_writes db with
  | false :: w => Ok (with_disk (d_disk db) w db, inl ErrWrite)
  | _ :: w => Ok (with_disk (put_all (b_puts b) (d_disk db)) w db, inr tt)
  | [] => Ok (with_disk (put_all (b_puts b) (d_disk db)) [] db, inr tt)
  end.

(** *** Reading and inserting *)

Definition secureKeyPrefix : list Z := [115; 101; 99; 117; 114; 101; 45; 107; 101; 121; 45].
Definition secureKey (key : list Z) : list Z := secureKeyPrefix ++ key.

(** [Database.node], the node store of [Trie]: [nil] is [None], a panic aborts. *)
Definition db_node (hash : list Z) (cachegen : Z) : DB (option node) :=
  rlock;; nodes ← gets d_nodes; runlock;;
  match nodes !! hash with
  | Some n => n ← must (cached_obj n hash cachegen); mret (Some n)
  | None =>
      disk ← gets d_disk;
      match disk !! hash with
      | None => mret None
      | Some enc =>
          match mustDecodeNode (Some hash) enc cachegen with Ok n => mret (Some n) | _ => panic end
      end
  end.

(** [Database.Node] *)
Definition db_Node (hash : list Z) : DB (list Z) :=
  rlock;; nodes ← gets d_nodes; runlock;;
  match nodes !! hash with
  | Some n => must (cached_rlp n)
  | None => disk ← gets d_disk; match disk !! hash with Some b => mret b | None => throw ErrNotFound end
  end.

(** [Database.insertPreimage], [Database.preimage] *)
Definition insertPreimage (hash preimage : list Z) : DB unit :=
  ps ← gets d_preimages; size ← gets d_preimagesSize;
  match ps !! hash with
  | Some _ => mret tt
  | None => modify (with_preimages (<[hash := preimage]> ps) (size + (32 + Z.of_nat (length preimage))))
  end.

Definition db_preimage (hash : list Z) : DB (list Z) :=
  rlock;; ps ← gets d_preimages; runlock;;
  match ps !! hash with
  | Some p => mret p
  | None => disk ← gets d_disk; match disk !! secureKey hash with Some b => mret b | None => throw ErrNotFound end
  end.

Section operations.
Context `{MapOrder}.

(** The loop of [insert] that counts the references of the new node. *)
Fixpoint count_parents (cs : list (list Z)) : DB unit :=
  match cs with
  | [] => mret tt
  | c :: cs =>
      nodes ← gets d_nodes;
      match nodes !! c with
      | Some n => modify (with_nodes (insert c (set_parents (u16 (c_parents n + 1)) n)))
      | None => mret tt
      end;;
      count_parents cs
  end.

(** [Database.insert]; a blob is inserted as a [rawNode].  The size that is added
    is computed in 16 bits. *)
Definition db_insert (hash blob : list Z) (n : node + list Z) : DB unit :=
  nodes ← gets d_nodes;
  match nodes !! hash with
  | Some _ => mret tt
  | None =>
      newest ← gets d_newest;
      r ← must (match n with inl n => simplifyNode n | inr b => Some (RawNode b) end);
      let entry := mkCached r (u16 (Z.of_nat (length blob))) 0 ∅ newest emptyHash in
      cs ← must (childs entry);
      count_parents cs;;
      modify (with_nodes (insert hash entry));;
      oldest ← gets d_oldest;
      (if bool_decide (oldest = emptyHash) then modify (with_oldest hash)
       else update_node newest (set_flushNext hash));;
      modify (with_newest hash);;
      modify (add_size (u16 (32 + c_size entry)))
  end.

(** [Database.InsertBlob] *)
Definition InsertBlob (hash blob : list Z) : DB unit := lock_write;; db_insert hash blob (inr blob).

(** *** References *)

(** [Database.reference] *)
Definition db_reference (child parent : list Z) : DB unit :=
  nodes ← gets d_nodes;
  match nodes !! child with
  | None => mret tt
  | Some node =>
      p ← must (nodes !! parent);
      if bool_decide (is_Some (c_children p !! child) /\ parent <> emptyHash) then mret tt
      else
        modify (with_nodes (insert child (set_parents (u16 (c_parents node + 1)) node)));;
        update_node parent (fun p =>
          set_children (<[child := u16 (default 0 (c_children p !! child) + 1)]> (c_children p)) p)
  end.

(** [Database.Reference] *)
Definition Reference (child parent : list Z) : DB unit :=
  rlock;; db_reference child parent;; runlock.

(** Taking a node off the flush list, in [dereference] and in [uncache]. *)
Definition unlink (hash : list Z) (node : cachedNode) : DB unit :=
  oldest ← gets d_oldest;
  newest ← gets d_newest;
  if bool_decide (hash = oldest) then
    modify (with_oldest (c_flushNext node));;
    update_node (c_flushNext node) (set_flushPrev emptyHash)
  else if bool_decide (hash = newest) then
    modify (with_newest (c_flushPrev node));;
    update_node (c_flushPrev node) (set_flushNext emptyHash)
  else
    update_node (c_flushPrev node) (set_flushNext (c_flushNext node));;
    update_node (c_flushNext node) (set_flushPrev (c_flushPrev node)).

(** The first part of [dereference]: the count of the parent. *)
Definition release_count (child : list Z) (p : cachedNode) : cachedNode :=
  let count := default 0 (c_children p !! child) in
  if bool_decide (0 < count) then
    set_children (if bool_decide (count - 1 = 0) then delete child (c_children p)
                  else <[child := count - 1]> (c_children p)) p
  else p.

Definition release_child (child parent : list Z) : DB unit := update_node parent (release_count child).

Definition drop_node (hash : list Z) (node : cachedNode) : DB unit :=
  modify (with_nodes (delete hash));;
  modify (add_size (- (32 + c_size node))).

(** [Database.dereference]; the fuel bounds the depth of the references. *)
Fixpoint db_dereference (fuel : nat) (child parent : list Z) : DB unit :=
  match fuel with
  | O => fun _ => OutOfFuel
  | S fuel =>
      release_child child parent;;
      nodes ← gets d_nodes;
      match nodes !! child with
      | None => mret tt
      | Some node =>
          let node := if bool_decide (0 < c_parents node) then set_parents (c_parents node - 1) node else node in
          modify (with_nodes (insert child node));;
          if bool_decide (c_parents node = 0) then
            unlink child node;;
            cs ← must (childs node);
            for_each (fun c _ => db_dereference fuel c child) cs tt;;
            drop_node child node
          else mret tt
      end
  end.

(** [Database.Dereference] *)
Definition Dereference (root : list Z) : DB unit :=
  if bool_decide (root = emptyHash) then mret tt
  else
    lock_write;;
    nodes ← gets d_nodes;
    db_dereference (S (size nodes)) root emptyHash.

(** *** Writing to the disk *)

(** The loop over the preimages in [Cap] and [Commit]; [unlocks] tells whether the
    read lock is released on an error. *)
Fixpoint put_preimages (unlocks : bool) (ps : list (list Z * list Z)) (b : batch) : DB batch :=
  match ps with
  | [] => mret b
  | (hash, preimage) :: ps =>
      let b := batch_Put (secureKey hash) preimage b in
      if bool_decide (IdealBatchSize < b_size b) then
        handle (batch_Write b) (fun r =>
          match r with
          | inl e => (if unlocks then runlock else mret tt);; throw e
          | inr _ => put_preimages unlocks ps NewBatch
          end)
      else put_preimages unlocks ps b
  end.

(** A failed write in [Cap] or [Commit] releases the read lock. *)
Definition write_or_unlock (b : batch) : DB unit :=
  handle (batch_Write b) (fun r => match r with inl e => runlock;; throw e | inr _ => mret tt end).

(** The first loop of [Cap]: writes from the oldest node on, until enough is
    written; the node that will be the oldest. *)
Fixpoint cap_write (fuel : nat) (limit size : Z) (oldest : list Z) (b : batch) : DB (list Z * batch) :=
  match fuel with
  | O => fun _ => OutOfFuel
  | S fuel =>
      if bool_decide (limit < size /\ oldest <> emptyHash) then
        nodes ← gets d_nodes;
        node ← must (nodes !! oldest);
        blob ← must (cached_rlp node);
        let b := batch_Put oldest blob b in
        b ← (if bool_decide (IdealBatchSize <= b_size b) then write_or_unlock b;; mret NewBatch else mret b);
        cap_write fuel limit (size - (3 * 32 + c_size node)) (c_flushNext node) b
      else mret (oldest, b)
  end.

(** The second loop of [Cap]: drops what was written. *)
Fixpoint cap_drop (fuel : nat) (oldest : list Z) : DB unit :=
  match fuel with
  | O => fun _ => OutOfFuel
  | S fuel =>
      first ← gets d_oldest;
      if bool_decide (first <> oldest) then
        nodes ← gets d_nodes;
        node ← must (nodes !! first);
        modify (with_nodes (delete first));;
        modify (with_oldest (c_flushNext node));;
        modify (add_size (- (32 + c_size node)));;
        cap_drop fuel oldest
      else mret tt
  end.

(** [Database.Cap] *)
Definition Cap (limit : Z) : DB unit :=
  rlock;;
  nodes ← gets d_nodes;
  storage ← gets d_nodesSize;
  let sz := storage + (Z.of_nat (size nodes) - 1) * 2 * 32 in
  psize ← gets d_preimagesSize;
  ps ← gets d_preimages;
  let flushPreimages := bool_decide (4 * 1024 * 1024 < psize) in
  b ← (if flushPreimages then put_preimages true (map_order ps) NewBatch else mret NewBatch);
  oldest ← gets d_oldest;
  '(oldest, b) ← cap_write (S (size nodes)) limit sz oldest b;
  write_or_unlock b;;
  runlock;;
  lock_write;;
  (if flushPreimages then modify (with_preimages ∅ 0) else mret tt);;
  cap_drop (S (size nodes)) oldest;;
  first ← gets d_oldest;
  if bool_decide (first <> emptyHash) then update_node first (set_flushPrev emptyHash) else mret tt.

(** [Database.commit] *)
Fixpoint db_commit (fuel : nat) (hash : list Z) (b : batch) : DB batch :=
  match fuel with
  | O => fun _ => OutOfFuel
  | S fuel =>
      nodes ← gets d_nodes;
      match nodes !! hash with
      | None => mret b
      | Some node =>
          cs ← must (childs node);
          b ← for_each (db_commit fuel) cs b;
          blob ← must (cached_rlp node);
          let b := batch_Put hash blob b in
          if bool_decide (IdealBatchSize <= b_size b) then batch_Write b;; mret NewBatch else mret b
      end
  end.

(** [Database.uncache] *)
Fixpoint uncache (fuel : nat) (hash : list Z) : DB unit :=
  match fuel with
  | O => fun _ => OutOfFuel
  | S fuel =>
      nodes ← gets d_nodes;
      match nodes !! hash with
      | None => mret tt
      | Some node =>
          unlink hash node;;
          cs ← must (childs node);
          for_each (fun c _ => uncache fuel c) cs tt;;
          drop_node hash node
      end
  end.

(** [Database.Commit]: an error of the loop over the preimages leaves the read
    lock held. *)
Definition db_Commit (root : list Z) : DB unit :=
  rlock;;
  ps ← gets d_preimages;
  b ← put_preimages false (map_order ps) NewBatch;
  nodes ← gets d_nodes;
  b ← handle (db_commit (S (size nodes)) root b)
        (fun r => match r with inl e => runlock;; throw e | inr b => mret b end);
  write_or_unlock b;;
  runlock;;
  lock_write;;
  modify (with_preimages ∅ 0);;
  uncache (S (size nodes)) root.

(** [Database.Size] *)
Definition db_Size : DB (Z * Z) :=
  rlock;;
  nodes ← gets d_nodes; storage ← gets d_nodesSize; psize ← gets d_preimagesSize;
  runlock;;
  mret (storage + (Z.of_nat (size nodes) - 1) * 2 * 32, psize).
End operations.
