(* ===== verification/TrieDbInv.v ===== *)
(** * The invariant of the trie node database

    [TrieDb.Database]: the flush list is a doubly linked list of the cached nodes in
    which every node comes after the nodes it refers to ([flush_ok], [inv_order]), the
    counts of references cover what live nodes and roots refer to ([inv_claims]), the
    disk is closed under references ([inv_closed]) and the size is the sum over the
    nodes ([inv_size]).  The operations on the memory keep it: [insert_ok],
    [reference_ok], [Dereference_ok]. *)

From S2P Require Import Prelude Common TrieEncoding Trie TrieSpec TrieMap.
From S2P Require Import TrieCanon Rlp Sha3 TrieHash TrieMerkle RlpRaw TrieBinding TrieProof TrieDb.

(** Membership in lists that are written out. *)
Ltac in_list :=
  rewrite ?elem_of_app, ?elem_of_cons, ?elem_of_nil in *; intuition (subst; try done; eauto).

(** ** Linked lists *)

Section linked.
Context {A : Type}.
Implicit Types (f g : A -> option A) (l : list A) (q : option A).

(** [f] leads from every element to the next one, and from the last one to [q]
    if that is given. *)
Fixpoint linked f l q : Prop :=
  match l with
  | [] => True
  | a :: l =>
      match l with
      | [] => match q with Some q => f a = Some q | None => True end
      | b :: _ => f a = Some b
      end /\ linked f l q
  end.

Lemma linked_cons f a l q :
  linked f (a :: l) q <-> (match (match l with [] => q | b :: _ => Some b end) with Some b => f a = Some b | None => True end) /\ linked f l q.
Proof. by destruct l. Qed.

Lemma linked_app f l1 a l2 q : linked f (l1 ++ a :: l2) q <-> linked f l1 (Some a) /\ linked f (a :: l2) q.
Proof.
  induction l1 as [|b l1 IH]; [simpl; tauto|]. rewrite <- app_comm_cons, !(linked_cons _ b), IH.
  destruct l1; simpl; tauto.
Qed.

Lemma linked_ext f g l q : (forall a, a ∈ l -> f a = g a) -> linked f l q -> linked g l q.
Proof.
  induction l as [|a l IH]; intros E; [done|]. rewrite !linked_cons, <- (E a) by left. intros [H1 H2].
  split; [done|]. apply IH; [|done]. intros b Hb. apply E. by right.
Qed.

Lemma linked_weaken f l q : linked f l q -> linked f l None.
Proof.
  induction l as [|a l IH]; [done|]. rewrite !linked_cons. intros [H1 H2]. split; [|by apply IH]. by destruct l.
Qed.

(** Taking out an element after redirecting its predecessor. *)
Lemma linked_remove f g l1 p h l2 q :
  NoDup (l1 ++ p :: h :: l2) -> linked f (l1 ++ p :: h :: l2) q ->
  (forall a, a ∈ l1 ++ l2 -> g a = f a) -> (forall b, match l2 with [] => q | b :: _ => Some b end = Some b -> g p = Some b) ->
  linked g (l1 ++ p :: l2) q.
Proof.
  intros Hn Hl Hg Hp. apply linked_app in Hl as [Hl1 Hl2]. apply linked_app. split.
  - eapply linked_ext; [|exact Hl1]. intros a Ha. rewrite Hg; set_solver.
  - rewrite !linked_cons in Hl2. destruct Hl2 as (_ & _ & Hl2). rewrite linked_cons. split.
    + destruct (match l2 with [] => q | b :: _ => Some b end) eqn:E; [by apply Hp|done].
    + eapply linked_ext; [|exact Hl2]. intros a Ha. rewrite Hg; set_solver.
Qed.

Lemma linked_tail f a l q : linked f (a :: l) q -> linked f l q.
Proof. rewrite linked_cons. tauto. Qed.

Lemma linked_snoc f g l a q :
  linked f l None -> a ∉ l -> (forall b, b ∈ l -> last l <> Some b -> g b = f b) ->
  (forall b, last l = Some b -> g b = Some a) -> (forall x, q = Some x -> g a = Some x) -> NoDup l ->
  linked g (l ++ [a]) q.
Proof.
  intros Hl Ha Hg Hlast Hq Hn. destruct l as [|b l _] using rev_ind.
  - simpl. split; [|done]. destruct q; auto.
  - rewrite last_snoc in *. apply NoDup_app in Hn as (_ & Hd & _).
    rewrite <- app_assoc. simpl. apply linked_app. apply linked_app in Hl as [Hl _]. split.
    + eapply linked_ext; [|exact Hl]. intros c Hc. rewrite Hg; [done|set_solver|]. intros [= ->]. by apply (Hd c); set_solver.
    + simpl. split_and!; auto. destruct q; auto.
Qed.
End linked.

Arguments linked {A} f l q : simpl never.

(** ** Counting *)

(** How often [c] occurs in [l]. *)
Definition occ (c : list Z) (l : list (list Z)) : Z := Z.of_nat (length (filter (fun x => x = c) l)).

Lemma occ_nil c : occ c [] = 0.
Proof. done. Qed.
Lemma occ_cons c x l : occ c (x :: l) = (if bool_decide (x = c) then 1 else 0) + occ c l.
Proof. unfold occ. rewrite filter_cons. case_decide; [rewrite bool_decide_true by done|rewrite bool_decide_false by done]; simpl; lia. Qed.
Lemma occ_app c l1 l2 : occ c (l1 ++ l2) = occ c l1 + occ c l2.
Proof. unfold occ. rewrite filter_app, length_app. lia. Qed.
Lemma occ_nonneg c l : 0 <= occ c l.
Proof. unfold occ. lia. Qed.
Lemma occ_pos c l : 0 < occ c l <-> c ∈ l.
Proof.
  induction l as [|x l IH]; [rewrite occ_nil; split; [lia|by intros ?%not_elem_of_nil]|].
  rewrite occ_cons, elem_of_cons. pose proof (occ_nonneg c l). case_bool_decide; naive_solver lia.
Qed.
Lemma occ_perm c l1 l2 : l1 ≡ₚ l2 -> occ c l1 = occ c l2.
Proof. intros E. unfold occ. by rewrite E. Qed.

(** Sums over a list. *)
Definition sum_over {A} (f : A -> Z) (l : list A) : Z := foldr (fun x s => f x + s) 0 l.

Lemma sum_over_app {A} (f : A -> Z) l1 l2 : sum_over f (l1 ++ l2) = sum_over f l1 + sum_over f l2.
Proof. induction l1 as [|x l1 IH]; simpl; [done|]. rewrite IH. lia. Qed.
Lemma sum_over_ext {A} (f g : A -> Z) l : (forall x, x ∈ l -> f x = g x) -> sum_over f l = sum_over g l.
Proof. induction l as [|x l IH]; intros E; [done|]. simpl. rewrite (E x), IH by set_solver. done. Qed.
Lemma sum_over_nonneg {A} (f : A -> Z) l : (forall x, 0 <= f x) -> 0 <= sum_over f l.
Proof. intros Hf. induction l as [|x l IH]; simpl; [lia|]. specialize (Hf x). lia. Qed.
Lemma sum_over_ge {A} (f : A -> Z) l x : (forall x, 0 <= f x) -> x ∈ l -> f x <= sum_over f l.
Proof.
  intros Hf Hx. induction l as [|y l IH]; [by apply not_elem_of_nil in Hx|]. simpl. pose proof (sum_over_nonneg f l Hf). pose proof (Hf y).
  apply elem_of_cons in Hx as [->|Hx]; [lia|]. specialize (IH Hx). lia.
Qed.
Lemma sum_over_perm {A} (f : A -> Z) l1 l2 : l1 ≡ₚ l2 -> sum_over f l1 = sum_over f l2.
Proof. induction 1; simpl; lia. Qed.

(** ** The flush list *)

Definition fnext (db : Database) (h : list Z) : option (list Z) := c_flushNext <$> d_nodes db !! h.
Definition fprev (db : Database) (h : list Z) : option (list Z) := c_flushPrev <$> d_nodes db !! h.

(** [l] is the flush list, oldest first; the first node's [flushPrev] and, on an
    empty list, [newest] are whatever they were. *)
Record flush_ok (db : Database) (l : list (list Z)) : Prop := {
  fl_nodup : NoDup l;
  fl_zero : emptyHash ∉ l;
  fl_oldest : d_oldest db = hd emptyHash l;
  fl_newest h : last l = Some h -> d_newest db = h;
  fl_next : linked (fnext db) l (Some emptyHash);
  fl_prev : linked (fprev db) (reverse l) None
}.

(** What the flush list does not touch. *)
Definition core (n : cachedNode) : rnode * Z * Z * gmap (list Z) Z := (c_node n, c_size n, c_parents n, c_children n).

Definition core_of (db : Database) (h : list Z) : option (rnode * Z * Z * gmap (list Z) Z) := core <$> d_nodes db !! h.

(** The same but for the nodes and the ends of the list. *)
Record same_rest (db db' : Database) : Prop := {
  sr_preimages : d_preimages db' = d_preimages db;
  sr_nodesSize : d_nodesSize db' = d_nodesSize db;
  sr_preimagesSize : d_preimagesSize db' = d_preimagesSize db;
  sr_disk : d_disk db' = d_disk db;
  sr_writes : d_writes db' = d_writes db;
  sr_readers : d_readers db' = d_readers db
}.

#[global] Instance same_rest_refl : Reflexive same_rest.
Proof. by intros db. Qed.
#[global] Instance same_rest_trans : Transitive same_rest.
Proof. intros a b c [] []. constructor; congruence. Qed.

Lemma update_node_run h f db n :
  d_nodes db !! h = Some n -> update_node h f db = Ok (with_nodes (insert h (f n)) db, inr tt).
Proof. intros Hn. unfold update_node, gets, must, modify, mbind, SM_bind. by rewrite Hn. Qed.

Lemma core_of_insert db h f n x :
  d_nodes db !! h = Some n -> core (f n) = core n -> core_of (with_nodes (insert h (f n)) db) x = core_of db x.
Proof.
  intros Hn Hc. unfold core_of. simpl. destruct (decide (h = x)) as [->|Hx].
  - rewrite lookup_insert_eq, Hn. simpl. by rewrite Hc.
  - by rewrite lookup_insert_ne.
Qed.

Lemma fnext_insert db h n x :
  fnext (with_nodes (insert h n) db) x = if bool_decide (h = x) then Some (c_flushNext n) else fnext db x.
Proof. unfold fnext. simpl. case_bool_decide as E; [subst; by rewrite lookup_insert_eq|by rewrite lookup_insert_ne]. Qed.

Lemma fprev_insert db h n x :
  fprev (with_nodes (insert h n) db) x = if bool_decide (h = x) then Some (c_flushPrev n) else fprev db x.
Proof. unfold fprev. simpl. case_bool_decide as E; [subst; by rewrite lookup_insert_eq|by rewrite lookup_insert_ne]. Qed.

Lemma fnext_some db h x : fnext db h = Some x -> exists n, d_nodes db !! h = Some n /\ c_flushNext n = x.
Proof. unfold fnext. rewrite fmap_Some. naive_solver. Qed.

Lemma linked_present f (l : list (list Z)) q h : linked f l (Some q) -> h ∈ l -> is_Some (f h).
Proof.
  induction l as [|a l IH]; [by intros _ ?%not_elem_of_nil|]. rewrite linked_cons. intros [H1 H2] [->|Hh]%elem_of_cons; [|auto].
  destruct l; eauto.
Qed.

Lemma flush_present db l h : flush_ok db l -> h ∈ l -> exists n, d_nodes db !! h = Some n.
Proof.
  intros F Hh. destruct (linked_present _ _ _ _ (fl_next _ _ F) Hh) as [x Hx]. apply fnext_some in Hx as (n & ? & _). eauto.
Qed.

(** The middle of the list. *)
Lemma flush_split db l1 h l2 n :
  flush_ok db (l1 ++ h :: l2) -> d_nodes db !! h = Some n ->
  c_flushNext n = hd emptyHash l2 /\ (forall p, last l1 = Some p -> c_flushPrev n = p) /\ h ∉ l1 ++ l2 /\ NoDup (l1 ++ l2).
Proof.
  intros F Hn. pose proof (fl_nodup _ _ F) as Hnd. assert (h ∉ l1 ++ l2 /\ NoDup (l1 ++ l2)) as [Hh Hnd'].
  { rewrite <- Permutation_middle, NoDup_cons in Hnd. done. }
  split_and!; try done.
  - pose proof (fl_next _ _ F) as HN. apply linked_app in HN as [_ HN]. rewrite linked_cons in HN. destruct HN as [HN _].
    unfold fnext in HN. rewrite Hn in HN. simpl in HN. by destruct l2; simplify_eq/=.
  - intros p Hp. pose proof (fl_prev _ _ F) as HP. apply last_Some in Hp as [l1' ->].
    rewrite reverse_app, reverse_cons, reverse_snoc, <- !app_assoc in HP. simpl in HP.
    apply linked_app in HP as [_ HP]. rewrite linked_cons in HP. destruct HP as [HP _]. unfold fprev in HP. rewrite Hn in HP. by simplify_eq/=.
Qed.

Lemma linked_last_free {A} (f g : A -> option A) l x :
  linked f (l ++ [x]) None -> (forall a, a ∈ l -> g a = f a) -> linked g (l ++ [x]) None.
Proof.
  intros Hl Hg. apply linked_app in Hl as [Hl _]. apply linked_app. split; [|done].
  eapply linked_ext; [|exact Hl]. intros a Ha. by rewrite Hg.
Qed.

(** Taking the oldest node off. *)
Lemma unlink_oldest db h l n :
  flush_ok db (h :: l) -> d_nodes db !! h = Some n -> is_Some (d_nodes db !! emptyHash) ->
  exists db', unlink h n db = Ok (db', inr tt) /\ flush_ok db' l /\ (forall x, core_of db' x = core_of db x) /\ same_rest db db'.
Proof.
  intros F Hn Hz. destruct (flush_split db [] h l n F Hn) as (En & _ & Hh & Hnd). simpl in Hh, Hnd.
  pose proof (fl_oldest _ _ F) as Ho. simpl in Ho.
  assert (exists m, d_nodes db !! c_flushNext n = Some m) as [m Hm].
  { rewrite En. destruct l as [|b l]; [exact Hz|]. apply (flush_present db (h :: b :: l)); [done|set_solver]. }
  eexists. split.
  { unfold unlink, gets, mbind, SM_bind. rewrite Ho. rewrite bool_decide_true by done. unfold modify.
    apply (update_node_run _ _ (with_oldest (c_flushNext n) db)). exact Hm. }
  split_and!; [|intros x; by rewrite core_of_insert|done]. constructor.
  - done.
  - pose proof (fl_zero _ _ F). set_solver.
  - exact En.
  - intros x Hx. apply (fl_newest _ _ F). by destruct l.
  - pose proof (fl_next _ _ F) as HN. apply linked_tail in HN. eapply linked_ext; [|exact HN]. intros a _. rewrite fnext_insert.
    case_bool_decide as E; [|done]. subst a. unfold fnext. simpl. by rewrite Hm.
  - pose proof (fl_prev _ _ F) as HP. rewrite reverse_cons in HP. apply linked_app in HP as [HP _]. apply linked_weaken in HP.
    destruct l as [|b l]; [done|]. rewrite reverse_cons in *. eapply linked_last_free; [exact HP|]. intros a Ha. rewrite fprev_insert.
    rewrite En. simpl. rewrite bool_decide_false; [done|]. intros <-. rewrite elem_of_reverse in Ha. apply NoDup_cons in Hnd as [Hb _]. done.
Qed.

Lemma flush_ends db l1 h l2 :
  flush_ok db (l1 ++ h :: l2) -> (l1 <> [] -> h <> d_oldest db) /\ (l2 <> [] -> h <> d_newest db).
Proof.
  intros F. pose proof (fl_nodup _ _ F) as Hnd. rewrite <- Permutation_middle, NoDup_cons in Hnd. destruct Hnd as [Hh _]. split.
  - intros H1 ->. destruct l1 as [|a l1]; [done|]. rewrite (fl_oldest _ _ F) in Hh. simpl in Hh. set_solver.
  - intros H2 ->. destruct l2 as [|b l2 _] using rev_ind; [done|].
    rewrite (fl_newest _ _ F b) in Hh; [set_solver|]. by rewrite app_comm_cons, app_assoc, last_snoc.
Qed.

(** Taking the newest node off. *)
Lemma unlink_newest db l p h n :
  flush_ok db (l ++ [p; h]) -> d_nodes db !! h = Some n ->
  exists db', unlink h n db = Ok (db', inr tt) /\ flush_ok db' (l ++ [p]) /\ (forall x, core_of db' x = core_of db x) /\ same_rest db db'.
Proof.
  intros F Hn. pose proof F as F'. change [p; h] with ([p] ++ [h]) in F'. rewrite app_assoc in F'.
  destruct (flush_split db (l ++ [p]) h [] n F' Hn) as (_ & Ep & Hh & Hnd). rewrite app_nil_r in Hh, Hnd.
  specialize (Ep p (last_snoc _ _)). destruct (flush_ends db (l ++ [p]) h [] F') as [Ho _]. specialize (Ho ltac:(by destruct l)).
  destruct (flush_present db _ p F ltac:(set_solver)) as [np Hnp]. pose proof (fl_zero _ _ F) as Hz.
  assert (p ∉ l) as Hp by (apply NoDup_app in Hnd as (_ & Hd & _); intros Hp; apply (Hd p); set_solver).
  assert (h = d_newest db) as Hnew by (symmetry; apply (fl_newest _ _ F'); by rewrite last_snoc).
  eexists. split.
  { unfold unlink, gets, mbind, SM_bind. rewrite bool_decide_false by done. rewrite (bool_decide_true (h = d_newest db)) by done.
    unfold modify. apply (update_node_run _ _ (with_newest (c_flushPrev n) db)). rewrite Ep. exact Hnp. }
  rewrite Ep in *. split_and!; [|intros x; by apply (core_of_insert (with_newest p db) p (set_flushNext emptyHash))|done]. constructor.
  - done.
  - set_solver.
  - simpl. rewrite (fl_oldest _ _ F). by destruct l.
  - intros x. rewrite last_snoc. by intros [= <-].
  - eapply (linked_remove (fnext db) _ l p h []); [apply F|apply F| |].
    + intros a Ha. rewrite fnext_insert, bool_decide_false; [done|]. intros <-. set_solver.
    + intros b [= <-]. by rewrite fnext_insert, bool_decide_true.
  - pose proof (fl_prev _ _ F) as HP. rewrite reverse_app in *. simpl in *. apply linked_tail in HP.
    eapply linked_ext; [|exact HP]. intros a _. rewrite fprev_insert.
    case_bool_decide as E; [|done]. subst a. unfold fprev. simpl. by rewrite Hnp.
Qed.

(** Taking a node in the middle off. *)
Lemma unlink_middle db l1 p h b l2 n :
  flush_ok db (l1 ++ p :: h :: b :: l2) -> d_nodes db !! h = Some n ->
  exists db', unlink h n db = Ok (db', inr tt) /\ flush_ok db' (l1 ++ p :: b :: l2) /\ (forall x, core_of db' x = core_of db x) /\ same_rest db db'.
Proof.
  intros F Hn. assert (l1 ++ p :: h :: b :: l2 = (l1 ++ [p]) ++ h :: b :: l2) as El by by rewrite <- app_assoc.
  pose proof F as F'. rewrite El in F'. destruct (flush_split db (l1 ++ [p]) h (b :: l2) n F' Hn) as (En & Ep & Hh & Hnd).
  specialize (Ep p (last_snoc _ _)). destruct (flush_ends db (l1 ++ [p]) h (b :: l2) F') as [Ho Hw].
  specialize (Ho ltac:(by destruct l1)). specialize (Hw ltac:(done)). rewrite <- app_assoc in Hnd. simpl in Hnd, En.
  destruct (flush_present db _ p F ltac:(set_solver)) as [np Hnp], (flush_present db _ b F ltac:(set_solver)) as [nb Hnb].
  pose proof (fl_zero _ _ F) as Hz. assert (p ∉ l1 ++ b :: l2) as Hp by (rewrite <- Permutation_middle, NoDup_cons in Hnd; tauto).
  assert (p <> b) as Hpb by set_solver.
  eexists. split.
  { unfold unlink, gets, mbind at 1, SM_bind at 1, mbind at 1, SM_bind at 1. rewrite bool_decide_false by done.
    rewrite (bool_decide_false (h = d_newest db)) by done. rewrite Ep, En.
    erewrite sm_bind_ok by (apply update_node_run, Hnp). apply update_node_run. simpl. rewrite lookup_insert_ne by done. exact Hnb. }
  split_and!; [|intros x; rewrite (core_of_insert (with_nodes _ db)); [by rewrite core_of_insert|simpl; by rewrite lookup_insert_ne|done]|done].
  constructor.
  - done.
  - set_solver.
  - simpl. rewrite (fl_oldest _ _ F). by destruct l1.
  - intros x Hx. apply (fl_newest _ _ F). rewrite !last_app_cons in *. done.
  - eapply (linked_remove (fnext db) _ l1 p h (b :: l2)); [apply F|apply F| |].
    + intros a Ha. rewrite !fnext_insert. rewrite (bool_decide_false (p = a)) by (intros <-; set_solver).
      case_bool_decide as E; [|done]. subst a. unfold fnext. by rewrite Hnb.
    + intros x [= <-]. rewrite !fnext_insert. by rewrite (bool_decide_false (b = p)), bool_decide_true.
  - assert (forall x y, reverse (x ++ p :: h :: b :: y) = reverse y ++ b :: h :: p :: reverse x) as Er
      by (intros; by rewrite reverse_app, !reverse_cons, <- !app_assoc).
    pose proof (fl_prev _ _ F) as HP. rewrite Er in HP. rewrite reverse_app, !reverse_cons, <- !app_assoc. simpl.
    eapply (linked_remove (fprev db) _ (reverse l2) b h (p :: reverse l1)); [|exact HP| |].
    + rewrite <- Er, reverse_Permutation. apply F.
    + intros a Ha. rewrite !fprev_insert. assert (b <> a) by (intros ->; clear -Ha Hnd Hpb; rewrite NoDup_app, NoDup_cons, NoDup_cons in Hnd; set_solver).
      rewrite (bool_decide_false (b = a)) by done. case_bool_decide as E; [|done]. subst a. unfold fprev. by rewrite Hnp.
    + intros x [= <-]. rewrite !fprev_insert. by rewrite bool_decide_true.
Qed.

Lemma unlink_ok db l1 h l2 n :
  flush_ok db (l1 ++ h :: l2) -> d_nodes db !! h = Some n -> is_Some (d_nodes db !! emptyHash) ->
  exists db', unlink h n db = Ok (db', inr tt) /\ flush_ok db' (l1 ++ l2) /\ (forall x, core_of db' x = core_of db x) /\ same_rest db db'.
Proof.
  intros F Hn Hz. destruct l1 as [|p l1 _] using rev_ind; [by apply unlink_oldest|].
  rewrite <- !app_assoc in *. destruct l2 as [|b l2]; [by apply unlink_newest|by apply unlink_middle].
Qed.

(** ** The invariant *)

Section invariant.
(** What is stored under a hash, and a measure that references decrease: a node
    holds the hashes of the nodes it refers to. *)
Context `{MapOrder} {content : list Z -> list Z} {rank : list Z -> nat}.

Definition out (db : Database) (h : list Z) : list (list Z) := default [] (d_nodes db !! h ≫= childs).
Definition parents_of (db : Database) (h : list Z) : Z := default 0 (c_parents <$> d_nodes db !! h).
Definition size_of (db : Database) (h : list Z) : Z := default 0 (c_size <$> d_nodes db !! h).

(** How often a hash is referenced as a root. *)
Definition root_count (db : Database) (c : list Z) : Z := default 0 (d_nodes db !! emptyHash ≫= fun n => c_children n !! c).

Definition on_disk (db : Database) (h : list Z) : Prop := is_Some (d_disk db !! h).

(** The references to [c] from roots, from the nodes of [l], and in [owed]. *)
Definition claims (db : Database) (l owed : list (list Z)) (c : list Z) : Z :=
  root_count db c + sum_over (fun h => occ c (out db h)) l + occ c owed.

Record node_ok (h : list Z) (n : cachedNode) : Prop := {
  nd_length : length h = HashLength;
  nd_rlp : cached_rlp n = Some (content h);
  nd_obj gen x : decodeNode (Some h) (content h) gen = Ok x -> cached_obj n h gen = Some x;
  nd_childs : exists cs, childs n = Some cs /\ emptyHash ∉ cs /\ forall c, c ∈ cs -> (rank c < rank h)%nat;
  nd_parents : 0 <= c_parents n < 65536
}.

(** [l] is the flush list, [p] the nodes that are being released, [owed] the
    references that are still to be released.  [L] has the references of every node
    there is or was. *)
Record Inv (db : Database) (L : list Z -> list (list Z)) (l p owed : list (list Z)) : Prop := {
  inv_flush : flush_ok db l;
  inv_nodup : NoDup (l ++ p);
  inv_zero : emptyHash ∉ p;
  inv_dom h : is_Some (d_nodes db !! h) <-> h = emptyHash \/ h ∈ l ++ p;
  inv_node h n : h ∈ l -> d_nodes db !! h = Some n -> node_ok h n;
  inv_roots n c k : d_nodes db !! emptyHash = Some n -> c_children n !! c = Some k -> 0 < k < 65536;
  inv_claims c : 0 < claims db l owed c -> on_disk db c \/ (c ∈ l /\ claims db l owed c <= parents_of db c);
  inv_order l1 h l2 c : l = l1 ++ h :: l2 -> c ∈ out db h -> c ∈ l1 \/ on_disk db c;
  inv_content h b : d_disk db !! h = Some b -> length h = HashLength -> b = content h;
  inv_closed h c : on_disk db h -> length h = HashLength -> c ∈ L h -> on_disk db c;
  inv_links h c : h ∈ l -> c ∈ L h -> c ∈ out db h \/ on_disk db c;
  inv_length h c : c ∈ L h -> length c = HashLength;
  inv_size : d_nodesSize db = sum_over (fun h => 32 + size_of db h) (l ++ p);
  inv_preimages h : is_Some (d_preimages db !! h) -> length h = HashLength
}.

Lemma core_out db db' h : core_of db' h = core_of db h -> out db' h = out db h.
Proof.
  unfold core_of, out. destruct (d_nodes db !! h) as [n|], (d_nodes db' !! h) as [n'|]; try done. simpl.
  intros [= E1 _ _ E2]. unfold childs. by rewrite E1, E2.
Qed.
Lemma core_parents db db' h : core_of db' h = core_of db h -> parents_of db' h = parents_of db h.
Proof. unfold core_of, parents_of. destruct (d_nodes db !! h), (d_nodes db' !! h); try done. by intros [= _ _ E _]. Qed.
Lemma core_size db db' h : core_of db' h = core_of db h -> size_of db' h = size_of db h.
Proof. unfold core_of, size_of. destruct (d_nodes db !! h), (d_nodes db' !! h); try done. by intros [= _ E _ _]. Qed.
Lemma core_root_count db db' c : core_of db' emptyHash = core_of db emptyHash -> root_count db' c = root_count db c.
Proof.
  unfold core_of, root_count. destruct (d_nodes db !! emptyHash), (d_nodes db' !! emptyHash); try done.
  intros [= _ _ _ E]. simpl. by rewrite E.
Qed.
Lemma core_some db db' h : core_of db' h = core_of db h -> is_Some (d_nodes db' !! h) <-> is_Some (d_nodes db !! h).
Proof.
  unfold core_of. destruct (d_nodes db !! h), (d_nodes db' !! h); simpl; try done; intros _; split; by intros [].
Qed.

Lemma core_lookup db db' h m n :
  core_of db' h = core_of db h -> d_nodes db !! h = Some m -> d_nodes db' !! h = Some n -> core n = core m.
Proof. unfold core_of. intros E Em En. rewrite En, Em in E. simpl in E. congruence. Qed.

Lemma node_ok_core h n n' : core n' = core n -> node_ok h n -> node_ok h n'.
Proof.
  intros [= E1 _ E2 E3] [Hl Hr Ho Hc Hp]. constructor; [done| | | |by rewrite E2].
  - unfold cached_rlp in *. by rewrite E1.
  - unfold cached_obj in *. by rewrite E1.
  - unfold childs in *. by rewrite E1, E3.
Qed.

Lemma claims_core db db' l owed c :
  (forall x, x = emptyHash \/ x ∈ l -> core_of db' x = core_of db x) -> claims db' l owed c = claims db l owed c.
Proof.
  intros E. unfold claims. rewrite (core_root_count db db') by auto. f_equal. f_equal. apply sum_over_ext.
  intros x Hx. by rewrite (core_out db db') by auto.
Qed.

Lemma root_count_nonneg db L l p owed c : Inv db L l p owed -> 0 <= root_count db c.
Proof.
  intros I. unfold root_count. destruct (d_nodes db !! emptyHash) as [n|] eqn:En; simpl; [|done].
  destruct (c_children n !! c) as [k|] eqn:Ek; simpl; [|done]. pose proof (inv_roots _ _ _ _ _ I _ _ _ En Ek). lia.
Qed.

Lemma claims_parts db L l p owed c :
  Inv db L l p owed ->
  0 <= root_count db c /\ 0 <= sum_over (fun h => occ c (out db h)) l /\ 0 <= occ c owed.
Proof.
  intros I. split_and!; [by eapply root_count_nonneg|apply sum_over_nonneg; intros; apply occ_nonneg|apply occ_nonneg].
Qed.

(** A live node's references are claims. *)
Lemma out_claims db L l p owed h c : Inv db L l p owed -> h ∈ l -> c ∈ out db h -> 0 < claims db l owed c.
Proof.
  intros I Hh Hc. destruct (claims_parts _ _ _ _ _ c I) as (H1 & _ & H3). unfold claims.
  pose proof (sum_over_ge (fun h => occ c (out db h)) l h ltac:(intros; apply occ_nonneg) Hh) as Hs. simpl in Hs.
  apply occ_pos in Hc. lia.
Qed.

(** *** Releasing a node *)

Lemma on_disk_rest db db' h : same_rest db db' -> on_disk db' h <-> on_disk db h.
Proof. intros R. unfold on_disk. by rewrite (sr_disk _ _ R). Qed.

(** A node without claims, or on the disk, leaves the flush list; its references
    are owed. *)
Lemma Inv_retire db db' L l1 h l2 p owed :
  Inv db L (l1 ++ h :: l2) p owed -> (0 < claims db (l1 ++ h :: l2) owed h -> on_disk db h) ->
  flush_ok db' (l1 ++ l2) -> (forall x, core_of db' x = core_of db x) -> same_rest db db' ->
  Inv db' L (l1 ++ l2) (h :: p) (out db h ++ owed).
Proof.
  intros I Hh F Hc R. assert (forall x, on_disk db' x <-> on_disk db x) as Hd by (intros; by apply on_disk_rest).
  assert ((l1 ++ h :: l2) ++ p ≡ₚ (l1 ++ l2) ++ h :: p) as Ep by (by rewrite <- Permutation_middle, <- app_comm_cons, Permutation_middle).
  assert (forall c, claims db' (l1 ++ l2) (out db h ++ owed) c = claims db (l1 ++ h :: l2) owed c) as Ecl.
  { intros c. rewrite (claims_core db db') by auto. unfold claims. rewrite occ_app, !sum_over_app. simpl. lia. }
  constructor; rewrite ?(sr_disk _ _ R), ?(sr_preimages _ _ R), ?(sr_nodesSize _ _ R); try by apply I.
  - done.
  - rewrite <- Ep. apply I.
  - pose proof (fl_zero _ _ (inv_flush _ _ _ _ _ I)). pose proof (inv_zero _ _ _ _ _ I). set_solver.
  - intros x. rewrite (core_some db db'), (inv_dom _ _ _ _ _ I), Ep by done. done.
  - intros x n Hx En. destruct (flush_present db _ x (inv_flush _ _ _ _ _ I) ltac:(set_solver)) as [m Em].
    eapply node_ok_core; [|by eapply (inv_node _ _ _ _ _ I x m); [set_solver|]].
    by apply (core_lookup db db' x).
  - intros n c k En. destruct (proj1 (core_some db db' _ (Hc emptyHash))) as [m Em]; [by eexists|].
    pose proof (core_lookup db db' _ m n (Hc _) Em En) as [= _ _ _ ->]. by apply (inv_roots _ _ _ _ _ I).
  - intros c. rewrite Ecl, Hd, (core_parents db db') by done. intros Hpos.
    destruct (inv_claims _ _ _ _ _ I c Hpos) as [?|[Hin Hle]]; [by left|]. destruct (decide (c = h)) as [->|Hne]; [by left; auto|].
    right. split; [set_solver|done].
  - intros a x b c E. rewrite (core_out db db'), Hd by done. intros Hx.
    assert (exists a' b', l1 ++ h :: l2 = a' ++ x :: b' /\ (forall y, y ∈ a' -> y = h \/ y ∈ a)) as (a' & b' & E' & Ha).
    { apply app_eq_inv in E as [(k & -> & E)|(k & -> & E)].
      - destruct k as [|y k]; simplify_eq/=.
        + exists (a ++ [h]), b. rewrite app_nil_r, <- app_assoc. split; [done|set_solver].
        + exists a, (k ++ h :: l2). rewrite <- app_assoc. split; [done|set_solver].
      - exists (l1 ++ h :: k), b. rewrite E, <- app_assoc. split; [done|set_solver]. }
    destruct (inv_order _ _ _ _ _ I a' x b' c E' Hx) as [Hin|?]; [|by right]. destruct (Ha c Hin) as [->|?]; [|by left].
    right. apply Hh. eapply out_claims; [exact I| |exact Hx]. rewrite E'. set_solver.
  - intros x c. rewrite (Hd x), (Hd c). apply I.
  - intros x c Hx. rewrite (core_out db db'), Hd by done. apply (inv_links _ _ _ _ _ I). set_solver.
  - rewrite (inv_size _ _ _ _ _ I). rewrite (sum_over_perm _ _ _ Ep). apply sum_over_ext. intros x _. by rewrite (core_size db db').
Qed.

(** A change that keeps the flush list, the references and the disk. *)
Lemma Inv_frame db db' L l p p' owed owed' :
  Inv db L l p owed ->
  d_oldest db' = d_oldest db -> d_newest db' = d_newest db -> d_disk db' = d_disk db -> d_preimages db' = d_preimages db ->
  (forall x, x ∈ l -> fnext db' x = fnext db x /\ fprev db' x = fprev db x /\ out db' x = out db x) ->
  (forall x n, x ∈ l -> d_nodes db' !! x = Some n -> node_ok x n) ->
  NoDup (l ++ p') -> emptyHash ∉ p' -> (forall h, is_Some (d_nodes db' !! h) <-> h = emptyHash \/ h ∈ l ++ p') ->
  (forall n c k, d_nodes db' !! emptyHash = Some n -> c_children n !! c = Some k -> 0 < k < 65536) ->
  (forall c, 0 < claims db' l owed' c -> on_disk db c \/ (c ∈ l /\ claims db' l owed' c <= parents_of db' c)) ->
  d_nodesSize db' = sum_over (fun h => 32 + size_of db' h) (l ++ p') ->
  Inv db' L l p' owed'.
Proof.
  intros I Ho Hw Hd Hpre Hx Hok Hnd Hz Hdom Hroots Hcl Hsz.
  assert (forall x, on_disk db' x <-> on_disk db x) as Hd' by (intros x; unfold on_disk; by rewrite Hd).
  constructor; rewrite ?Hd, ?Hpre; try done; try by apply I.
  - destruct (inv_flush _ _ _ _ _ I) as [F1 F2 F3 F4 F5 F6]. constructor; rewrite ?Ho, ?Hw; try done.
    + eapply linked_ext; [|exact F5]. intros a Ha. by destruct (Hx a Ha) as (-> & _).
    + eapply linked_ext; [|exact F6]. intros a Ha. rewrite elem_of_reverse in Ha. by destruct (Hx a Ha) as (_ & -> & _).
  - intros c. rewrite Hd'. apply Hcl.
  - intros l1 h l2 c E Hc. rewrite Hd'. destruct (Hx h) as (_ & _ & Eo); [rewrite E; set_solver|]. rewrite Eo in Hc.
    by eapply (inv_order _ _ _ _ _ I).
  - intros h c. rewrite (Hd' h), (Hd' c). apply I.
  - intros h c Hh. rewrite Hd'. destruct (Hx h Hh) as (_ & _ & ->). by apply (inv_links _ _ _ _ _ I).
Qed.

Lemma claims_frame db db' l owed c :
  (forall x, x ∈ l -> out db' x = out db x) -> root_count db' c = root_count db c -> claims db' l owed c = claims db l owed c.
Proof. intros Ho Hr. unfold claims. rewrite Hr. f_equal. f_equal. apply sum_over_ext. intros x Hx. by rewrite Ho. Qed.

(** Only the node [h] differs. *)
Definition only (h : list Z) (db db' : Database) : Prop := forall x, x <> h -> d_nodes db' !! x = d_nodes db !! x.

Lemma only_out h db db' x : only h db db' -> x <> h ->
  out db' x = out db x /\ fnext db' x = fnext db x /\ fprev db' x = fprev db x /\ parents_of db' x = parents_of db x /\ size_of db' x = size_of db x.
Proof. intros O Hx. unfold out, fnext, fprev, parents_of, size_of. by rewrite (O x Hx). Qed.

Lemma only_root h db db' c : only h db db' -> h <> emptyHash -> root_count db' c = root_count db c.
Proof. intros O Hh. unfold root_count. by rewrite O. Qed.

Lemma only_insert h n db : only h db (with_nodes (insert h n) db).
Proof. intros x Hx. simpl. by rewrite lookup_insert_ne. Qed.

Lemma only_delete h db : only h db (with_nodes (delete h) db).
Proof. intros x Hx. simpl. by rewrite lookup_delete_ne. Qed.

(** A released node is dropped. *)
Lemma Inv_drop db L l h p owed n :
  Inv db L l (h :: p) owed -> size_of db h = c_size n ->
  Inv (add_size (- (32 + c_size n)) (with_nodes (delete h) db)) L l p owed.
Proof.
  intros I Es. pose proof (inv_nodup _ _ _ _ _ I) as Hnd. pose proof (inv_zero _ _ _ _ _ I) as Hz.
  rewrite <- Permutation_middle, NoDup_cons in Hnd. destruct Hnd as [Hh Hnd]. set (db' := with_nodes (delete h) db).
  pose proof (only_delete h db) as O. fold db' in O.
  assert (forall x, x ∈ l -> x <> h) as Hne by set_solver. assert (h <> emptyHash) as Hh0 by set_solver.
  eapply Inv_frame; try exact I; try done.
  - intros x Hx. destruct (only_out h db db' x O (Hne x Hx)) as (? & ? & ? & _). done.
  - intros x m Hx. change (d_nodes db' !! x = Some m -> node_ok x m). rewrite (O x (Hne x Hx)). by apply (inv_node _ _ _ _ _ I).
  - set_solver.
  - intros x. change (is_Some (d_nodes db' !! x) <-> x = emptyHash \/ x ∈ l ++ p). destruct (decide (x = h)) as [->|Hx].
    + unfold db'. simpl. rewrite lookup_delete_eq. split; [by intros []|set_solver].
    + rewrite (O x Hx), (inv_dom _ _ _ _ _ I). set_solver.
  - intros m c k. change (d_nodes db' !! emptyHash = Some m -> c_children m !! c = Some k -> 0 < k < 65536).
    rewrite (O emptyHash) by done. apply (inv_roots _ _ _ _ _ I).
  - intros c. change (0 < claims db' l owed c -> on_disk db c \/ (c ∈ l /\ claims db' l owed c <= parents_of db' c)).
    rewrite (claims_frame db db') by (by eapply only_root || (intros x Hx; by apply (only_out h db db' x O (Hne x Hx)))).
    intros Hc. destruct (inv_claims _ _ _ _ _ I c Hc) as [?|[Hin ?]]; [by left|right].
    destruct (only_out h db db' c O (Hne c Hin)) as (_ & _ & _ & -> & _). done.
  - change (d_nodesSize db + - (32 + c_size n) = sum_over (fun h => 32 + size_of db' h) (l ++ p)).
    rewrite (inv_size _ _ _ _ _ I), (sum_over_perm _ _ _ (Permutation_sym (Permutation_middle l p h))). simpl. rewrite Es.
    rewrite (sum_over_ext (fun h => 32 + size_of db' h) (fun h => 32 + size_of db h)); [lia|]. intros x Hx.
    destruct (only_out h db db' x O) as (_ & _ & _ & _ & ->); [|done]. intros ->. done.
Qed.

(** The count of a live node changes with what is owed to it. *)
Lemma Inv_parents db L l p owed owed' c n k :
  Inv db L l p owed -> c ∈ l -> d_nodes db !! c = Some n -> 0 <= k < 65536 ->
  (forall x, x <> c -> occ x owed' = occ x owed) ->
  (0 < claims db l owed' c -> on_disk db c \/ claims db l owed' c <= k) ->
  Inv (with_nodes (insert c (set_parents k n)) db) L l p owed'.
Proof.
  intros I Hc Hn Hk Hocc Hcl. set (db' := with_nodes _ db). pose proof (only_insert c (set_parents k n) db) as O. fold db' in O.
  assert (c <> emptyHash) as Hc0 by (pose proof (fl_zero _ _ (inv_flush _ _ _ _ _ I)); set_solver).
  assert (d_nodes db' !! c = Some (set_parents k n)) as Hn' by (unfold db'; simpl; by rewrite lookup_insert_eq).
  assert (out db' c = out db c /\ fnext db' c = fnext db c /\ fprev db' c = fprev db c /\ size_of db' c = size_of db c) as (E1 & E2 & E3 & E4).
  { unfold out, fnext, fprev, size_of. rewrite Hn', Hn. done. }
  assert (forall x, out db' x = out db x /\ fnext db' x = fnext db x /\ fprev db' x = fprev db x /\ size_of db' x = size_of db x) as E.
  { intros x. destruct (decide (x = c)) as [->|Hx]; [done|]. destruct (only_out c db db' x O Hx) as (? & ? & ? & _ & ?). done. }
  assert (forall x, claims db' l owed' x = claims db l owed' x) as Ecl.
  { intros x. apply claims_frame; [intros; by apply E|by eapply only_root]. }
  eapply Inv_frame; try exact I; try done; try by apply I.
  - intros x _. destruct (E x) as (-> & -> & -> & _). done.
  - intros x m Hx Hm. destruct (decide (x = c)) as [->|Hne].
    + rewrite Hn' in Hm. injection Hm as <-. destruct (inv_node _ _ _ _ _ I c n Hc Hn) as [N1 N2 N3 N4 N5]. by constructor.
    + rewrite (O x Hne) in Hm. by apply (inv_node _ _ _ _ _ I).
  - intros x. destruct (decide (x = c)) as [->|Hne].
    + rewrite Hn'. split; [intros _; right; set_solver|by eauto].
    + rewrite (O x Hne). apply I.
  - intros m x y. rewrite (O emptyHash) by done. apply (inv_roots _ _ _ _ _ I).
  - intros x. rewrite Ecl. intros Hpos. destruct (decide (x = c)) as [->|Hne].
    + destruct (Hcl Hpos) as [?|?]; [by left|right]. split; [done|]. unfold parents_of. rewrite Hn'. done.
    + destruct (only_out c db db' x O Hne) as (_ & _ & _ & -> & _).
      assert (claims db l owed' x = claims db l owed x) as Ex by (unfold claims; rewrite Hocc; done). rewrite Ex in *.
      by apply (inv_claims _ _ _ _ _ I).
  - rewrite <- (sum_over_ext (fun h => 32 + size_of db h)); [apply (inv_size _ _ _ _ _ I)|]. intros x _. by destruct (E x) as (_ & _ & _ & ->).
Qed.

(** One owed reference is paid. *)
Lemma Inv_pay db L l p owed c n :
  Inv db L l p (c :: owed) -> c ∈ l -> d_nodes db !! c = Some n ->
  Inv (with_nodes (insert c (if bool_decide (0 < c_parents n) then set_parents (c_parents n - 1) n else n)) db) L l p owed.
Proof.
  intros I Hc Hn. destruct (inv_node _ _ _ _ _ I c n Hc Hn) as [_ _ _ _ Hp].
  assert (claims db l (c :: owed) c = claims db l owed c + 1) as Ecl by (unfold claims; rewrite occ_cons, bool_decide_true by done; lia).
  destruct (claims_parts _ _ _ _ _ c I) as (H1 & H2 & _). pose proof (occ_nonneg c owed).
  assert (0 < claims db l (c :: owed) c) as Hpos by (rewrite Ecl; unfold claims; lia).
  assert (parents_of db c = c_parents n) as Ep by (unfold parents_of; by rewrite Hn).
  assert (forall x, x <> c -> occ x owed = occ x (c :: owed)) as Hocc by (intros x Hx; rewrite occ_cons, bool_decide_false by done; lia).
  pose proof (inv_claims _ _ _ _ _ I c Hpos) as Hcl. rewrite Ep, Ecl in Hcl. case_bool_decide as Hgt.
  - apply (Inv_parents db L l p (c :: owed)); [done..|lia|done|]. intros _. destruct Hcl as [?|[_ ?]]; [by left|right; lia].
  - assert (n = set_parents 0 n) as En by (unfold set_parents; destruct n; simpl in *; f_equal; lia). rewrite En.
    apply (Inv_parents db L l p (c :: owed)); [done..|lia|done|]. intros _. destruct Hcl as [?|[_ ?]]; [by left|lia].
Qed.

(** A node that is being released changes its references. *)
Lemma Inv_pending db L l p owed h n ch :
  Inv db L l p owed -> h ∈ p -> d_nodes db !! h = Some n ->
  Inv (with_nodes (insert h (set_children ch n)) db) L l p owed.
Proof.
  intros I Hh Hn. set (db' := with_nodes _ db). pose proof (only_insert h (set_children ch n) db) as O. fold db' in O.
  pose proof (inv_zero _ _ _ _ _ I) as Hz. assert (h <> emptyHash) as Hh0 by set_solver.
  assert (forall x, x ∈ l -> x <> h) as Hne.
  { intros x Hx ->. pose proof (inv_nodup _ _ _ _ _ I) as Hnd. apply NoDup_app in Hnd as (_ & Hd & _). by apply (Hd h). }
  assert (d_nodes db' !! h = Some (set_children ch n)) as Hn' by (unfold db'; simpl; by rewrite lookup_insert_eq).
  eapply Inv_frame; try exact I; try done; try by apply I.
  - intros x Hx. destruct (only_out h db db' x O (Hne x Hx)) as (? & ? & ? & _). done.
  - intros x m Hx. rewrite (O x (Hne x Hx)). by apply (inv_node _ _ _ _ _ I).
  - intros x. destruct (decide (x = h)) as [->|Hx]; [rewrite Hn'; split; [intros _; right; set_solver|by eauto]|].
    rewrite (O x Hx). apply I.
  - intros m x y. rewrite (O emptyHash) by done. apply (inv_roots _ _ _ _ _ I).
  - intros c. rewrite (claims_frame db db') by (by eapply only_root || (intros x Hx; by apply (only_out h db db' x O (Hne x Hx)))).
    intros Hc. destruct (inv_claims _ _ _ _ _ I c Hc) as [?|[Hin ?]]; [by left|right].
    destruct (only_out h db db' c O (Hne c Hin)) as (_ & _ & _ & -> & _). done.
  - rewrite <- (sum_over_ext (fun h => 32 + size_of db h)); [apply (inv_size _ _ _ _ _ I)|]. intros x _.
    destruct (decide (x = h)) as [->|Hx]; [unfold size_of; by rewrite Hn', Hn|]. by destruct (only_out h db db' x O Hx) as (_ & _ & _ & _ & ->).
Qed.

(** Less is owed. *)
Lemma Inv_owed db L l p owed owed' :
  Inv db L l p owed -> (forall c, occ c owed' <= occ c owed) -> Inv db L l p owed'.
Proof.
  intros I Ho. constructor; try by apply I. intros c Hc.
  assert (claims db l owed' c <= claims db l owed c) as Hle by (unfold claims; specialize (Ho c); lia).
  destruct (inv_claims _ _ _ _ _ I c) as [?|[? ?]]; [lia|by left|right; split; [done|lia]].
Qed.

(** *** Dereferencing *)

(** What releasing nodes keeps. *)
Record kept (p : list (list Z)) (db db' : Database) : Prop := {
  kp_disk : d_disk db' = d_disk db;
  kp_writes : d_writes db' = d_writes db;
  kp_readers : d_readers db' = d_readers db;
  kp_preimages : d_preimages db' = d_preimages db;
  kp_preimagesSize : d_preimagesSize db' = d_preimagesSize db;
  kp_roots c : root_count db' c = root_count db c;
  kp_size x : x ∈ p -> size_of db' x = size_of db x
}.

Lemma kept_refl p db : kept p db db.
Proof. by constructor. Qed.

Lemma kept_trans p a b c : kept p a b -> kept p b c -> kept p a c.
Proof.
  intros K1 K2. constructor; try (etrans; [apply K2|apply K1]); done.
Qed.

Lemma kept_mono p p' db db' : kept p db db' -> p' ⊆ p -> kept p' db db'.
Proof. intros [] Hp. constructor; auto. Qed.

(** The number of live nodes up to a rank bounds the depth of the recursion. *)
Definition depth (r : nat) (l : list (list Z)) : nat := length (filter (fun x => (rank x <= r)%nat) l).

Lemma depth_mono r r' l l' : sublist l' l -> (r <= r')%nat -> (depth r l' <= depth r' l)%nat.
Proof.
  intros Hs Hr. unfold depth. induction Hs as [|x l' l Hs IH|x l' l Hs IH]; [done|..]; rewrite ?filter_cons;
    repeat case_decide; simpl; lia.
Qed.

Lemma depth_remove r h l1 l2 : (rank h <= r)%nat -> depth r (l1 ++ h :: l2) = S (depth r (l1 ++ l2)).
Proof. intros Hr. unfold depth. rewrite !filter_app, filter_cons_True, !length_app by done. simpl. lia. Qed.

Lemma depth_child c h l1 l2 : (rank c < rank h)%nat -> (depth (rank c) (l1 ++ h :: l2) < depth (rank h) (l1 ++ h :: l2))%nat.
Proof.
  intros Hr. rewrite (depth_remove (rank h) h) by done. pose proof (depth_mono (rank c) (rank h) (l1 ++ l2) (l1 ++ l2) ltac:(done) ltac:(lia)).
  unfold depth in *. rewrite filter_app, filter_cons_False, <- filter_app by lia. lia.
Qed.

Definition released (fuel : nat) : Prop := forall child parent db L l p owed,
  Inv db L l p (child :: owed) -> parent ∈ p -> child <> emptyHash -> (forall x, x ∈ p -> (rank child < rank x)%nat) ->
  (depth (rank child) l < fuel)%nat ->
  exists db' l', db_dereference fuel child parent db = Ok (db', inr tt) /\ Inv db' L l' p owed /\ sublist l' l /\ kept p db db'.

Lemma release_all fuel h p cs : released fuel -> forall db L l owed,
  Inv db L l (h :: p) (cs ++ owed) -> emptyHash ∉ cs -> (forall c, c ∈ cs -> (rank c < rank h)%nat) ->
  (forall x, x ∈ p -> (rank h < rank x)%nat) -> (depth (rank h) l < fuel)%nat ->
  exists db' l', for_each (fun c _ => db_dereference fuel c h) cs tt db = Ok (db', inr tt) /\
    Inv db' L l' (h :: p) owed /\ sublist l' l /\ kept (h :: p) db db'.
Proof.
  intros IH. induction cs as [|c cs IHc]; intros db L l owed I Hz Hc Hp Hf.
  { exists db, l. split_and!; [done|done|done|apply kept_refl]. }
  destruct (IH c h db L l (h :: p) (cs ++ owed)) as (db1 & l1 & E1 & I1 & S1 & K1).
  - exact I.
  - left.
  - set_solver.
  - intros x [->|Hx]%elem_of_cons; [apply Hc; left|]. specialize (Hp x Hx). specialize (Hc c ltac:(left)). lia.
  - specialize (Hc c ltac:(left)). pose proof (depth_mono (rank c) (rank h) l l ltac:(done) ltac:(lia)). lia.
  - destruct (IHc db1 L l1 owed I1) as (db2 & l2 & E2 & I2 & S2 & K2); [set_solver..| |].
    { pose proof (depth_mono (rank h) (rank h) l l1 S1 ltac:(lia)). lia. }
    exists db2, l2. cbn [for_each]. rewrite (sm_bind_ok _ _ _ _ _ E1). split_and!; [done|done|by etrans|by eapply kept_trans].
Qed.

Lemma same_kept p db db' :
  (forall x, core_of db' x = core_of db x) -> same_rest db db' -> kept p db db'.
Proof.
  intros Hc []. constructor; try done; intros; [by apply core_root_count|by apply core_size].
Qed.

Lemma kept_insert p db h n n' :
  d_nodes db !! h = Some n -> h <> emptyHash -> c_size n' = c_size n -> kept p db (with_nodes (insert h n') db).
Proof.
  intros Hn Hh Hs. pose proof (only_insert h n' db) as O. constructor; try done.
  - intros c. by eapply only_root.
  - intros x _. destruct (decide (x = h)) as [->|Hx]; [|by apply (only_out h db _ x O Hx)].
    unfold size_of. simpl. by rewrite lookup_insert_eq, Hn.
Qed.

Lemma kept_drop p db h k : h ∉ p -> h <> emptyHash -> kept p db (add_size k (with_nodes (delete h) db)).
Proof.
  intros Hp Hh. pose proof (only_delete h db) as O. constructor; try done.
  - intros c. by apply (only_root h db (with_nodes (delete h) db)).
  - intros x Hx. apply (only_out h db (with_nodes (delete h) db) x O). by intros ->.
Qed.

(** The node of a paid reference, when no other is left. *)
Lemma deref_release fuel child db L l p owed n :
  released fuel -> Inv db L l p owed -> child ∈ l -> d_nodes db !! child = Some n -> c_parents n = 0 ->
  (forall x, x ∈ p -> (rank child < rank x)%nat) -> (depth (rank child) l < S fuel)%nat ->
  exists db' l',
    (unlink child n;; cs ← must (childs n); for_each (fun c _ => db_dereference fuel c child) cs tt;; drop_node child n) db
    = Ok (db', inr tt) /\ Inv db' L l' p owed /\ sublist l' l /\ kept p db db'.
Proof.
  intros IH I Hc Hn Hp Hrank Hf. apply list_elem_of_split in Hc as (l1 & l2 & ->).
  assert (child ∈ l1 ++ child :: l2) as Hc by set_solver.
  destruct (inv_node _ _ _ _ _ I child n Hc Hn) as [_ _ _ (cs & Ecs & Hz & Hr) _].
  destruct (unlink_ok db l1 child l2 n (inv_flush _ _ _ _ _ I) Hn) as (db1 & E1 & F1 & C1 & R1); [apply I; by left|].
  rewrite (sm_bind_ok _ _ _ _ _ E1). rewrite Ecs.
  assert (Inv db1 L (l1 ++ l2) (child :: p) (cs ++ owed)) as I1.
  { assert (out db child = cs) as <- by (unfold out; rewrite Hn; simpl; by rewrite Ecs).
    apply (Inv_retire db); try done. intros Hpos. destruct (inv_claims _ _ _ _ _ I child Hpos) as [?|[_ Hle]]; [done|].
    unfold parents_of in Hle. rewrite Hn in Hle. simpl in Hle. lia. }
  rewrite depth_remove in Hf by done. destruct (release_all fuel child p cs IH db1 L (l1 ++ l2) owed I1 Hz Hr Hrank) as (db2 & l3 & E2 & I2 & S2 & K2); [lia|].
  unfold must. unfold mret, SM_ret, mbind at 1, SM_bind at 1. rewrite (sm_bind_ok _ _ _ _ _ E2).
  exists (add_size (- (32 + c_size n)) (with_nodes (delete child) db2)), l3.
  assert (child ∉ p /\ child <> emptyHash) as [Hcp Hc0].
  { split; [intros Hx; specialize (Hrank _ Hx); lia|]. pose proof (fl_zero _ _ (inv_flush _ _ _ _ _ I)). set_solver. }
  split_and!; [done| | |].
  - apply Inv_drop; [done|]. rewrite (kp_size _ _ _ K2) by left. rewrite (core_size db db1) by done. unfold size_of. by rewrite Hn.
  - etrans; [done|]. apply sublist_app; [done|]. by constructor.
  - eapply kept_trans; [by apply same_kept|]. eapply kept_trans; [eapply kept_mono; [done|set_solver]|]. by apply kept_drop.
Qed.

(** [dereference] after the count of the parent. *)
Lemma deref_body fuel child parent db db1 L l p owed :
  released fuel -> release_child child parent db = Ok (db1, inr tt) -> Inv db1 L l p (child :: owed) -> child <> emptyHash ->
  (forall x, x ∈ p -> (rank child < rank x)%nat) -> (depth (rank child) l < S fuel)%nat ->
  exists db' l', db_dereference (S fuel) child parent db = Ok (db', inr tt) /\ Inv db' L l' p owed /\ sublist l' l /\ kept p db1 db'.
Proof.
  intros IH Er I Hz Hrank Hf. cbn [db_dereference]. rewrite (sm_bind_ok _ _ _ _ _ Er). unfold gets, mbind at 1, SM_bind at 1.
  destruct (d_nodes db1 !! child) as [n|] eqn:Hn.
  2:{ exists db1, l. split_and!; [done| |done|apply kept_refl]. eapply Inv_owed; [done|]. intros c. rewrite occ_cons. case_bool_decide; lia. }
  assert (child ∈ l) as Hc.
  { destruct (proj1 (inv_dom _ _ _ _ _ I child)) as [?|Hin]; [by eexists|done|]. apply elem_of_app in Hin as [?|Hp]; [done|].
    specialize (Hrank _ Hp). lia. }
  set (n' := if bool_decide (0 < c_parents n) then set_parents (c_parents n - 1) n else n).
  pose proof (Inv_pay db1 L l p owed child n I Hc Hn) as I1. fold n' in I1. set (db2 := with_nodes (insert child n') db1) in *.
  assert (kept p db1 db2) as K1 by (eapply kept_insert; [exact Hn|done|unfold n'; by case_bool_decide]).
  rewrite (sm_bind_ok _ _ _ db2 tt) by done. destruct (bool_decide_reflect (c_parents n' = 0)) as [Hp|Hp].
  - destruct (deref_release fuel child db2 L l p owed n' IH I1 Hc) as (db' & l' & -> & I' & S' & K');
      [unfold db2; simpl; by rewrite lookup_insert_eq|done..|]. exists db', l'. split_and!; [done|done|done|by eapply kept_trans].
  - by exists db2, l.
Qed.

Lemma deref_ok fuel : released fuel.
Proof.
  induction fuel as [|fuel IH]; intros child parent db L l p owed I Hp Hz Hrank Hf; [lia|].
  destruct (proj2 (inv_dom _ _ _ _ _ I parent)) as [n Hn]; [right; set_solver|].
  set (db1 := with_nodes (insert parent (release_count child n)) db).
  assert (release_child child parent db = Ok (db1, inr tt)) as Er by by apply (update_node_run parent (release_count child)).
  assert (parent <> emptyHash) as Hp0 by (pose proof (inv_zero _ _ _ _ _ I); set_solver).
  assert (exists ch, release_count child n = set_children ch n) as [ch Ech].
  { unfold release_count. cbv zeta. case_bool_decide; [eauto|]. exists (c_children n). by destruct n. }
  assert (Inv db1 L l p (child :: owed) /\ kept p db db1) as [I1 K1].
  { unfold db1. rewrite Ech. split; [by apply Inv_pending|by eapply kept_insert]. }
  destruct (deref_body fuel child parent db db1 L l p owed IH Er I1 Hz Hrank Hf) as (db' & l' & E & I' & S' & K').
  exists db', l'. split_and!; [done|done|done|by eapply kept_trans].
Qed.

(** The metaroot changes its counts. *)
Lemma Inv_meta db L l p owed owed' n ch :
  Inv db L l p owed -> d_nodes db !! emptyHash = Some n -> (forall c k, ch !! c = Some k -> 0 < k < 65536) ->
  (forall c, let k := default 0 (ch !! c) + sum_over (fun h => occ c (out db h)) l + occ c owed' in
     0 < k -> on_disk db c \/ (c ∈ l /\ k <= parents_of db c)) ->
  let db' := with_nodes (insert emptyHash (set_children ch n)) db in
  Inv db' L l p owed' /\ (forall c, root_count db' c = default 0 (ch !! c)).
Proof.
  intros I Hn Hch Hcl db'. pose proof (only_insert emptyHash (set_children ch n) db) as O. fold db' in O.
  assert (d_nodes db' !! emptyHash = Some (set_children ch n)) as Hn' by (unfold db'; simpl; by rewrite lookup_insert_eq).
  assert (forall c, root_count db' c = default 0 (ch !! c)) as Hr by (intros c; unfold root_count; by rewrite Hn').
  split; [|done]. pose proof (fl_zero _ _ (inv_flush _ _ _ _ _ I)) as Hz. pose proof (inv_zero _ _ _ _ _ I) as Hzp.
  assert (forall x, x ∈ l ++ p -> x <> emptyHash) as Hne by set_solver.
  eapply Inv_frame; try exact I; try done; try by apply I.
  - intros x Hx. destruct (only_out emptyHash db db' x O) as (? & ? & ? & _); [set_solver|done].
  - intros x m Hx. rewrite (O x) by set_solver. by apply (inv_node _ _ _ _ _ I).
  - intros x. destruct (decide (x = emptyHash)) as [->|Hx]; [rewrite Hn'; split; [by left|by eauto]|]. rewrite (O x Hx). apply I.
  - intros m c k. rewrite Hn'. intros [= <-]. apply Hch.
  - intros c. assert (claims db' l owed' c = default 0 (ch !! c) + sum_over (fun h => occ c (out db h)) l + occ c owed') as ->.
    { unfold claims. rewrite Hr. f_equal. f_equal. apply sum_over_ext. intros x Hx.
      destruct (only_out emptyHash db db' x O) as (-> & _); [set_solver|done]. }
    intros Hpos. destruct (Hcl c Hpos) as [?|[Hin ?]]; [by left|right].
    destruct (only_out emptyHash db db' c O) as (_ & _ & _ & -> & _); [set_solver|done].
  - rewrite <- (sum_over_ext (fun h => 32 + size_of db h)); [apply (inv_size _ _ _ _ _ I)|]. intros x Hx.
    by destruct (only_out emptyHash db db' x O (Hne x Hx)) as (_ & _ & _ & _ & ->).
Qed.

Lemma release_count_spec root n :
  (forall c k, c_children n !! c = Some k -> 0 < k < 65536) ->
  exists ch, release_count root n = set_children ch n /\ (forall c k, ch !! c = Some k -> 0 < k < 65536) /\
    (forall c, let k := default 0 (c_children n !! c) in default 0 (ch !! c) = if bool_decide (c = root) then Z.max 0 (k - 1) else k).
Proof.
  intros Hr. unfold release_count. cbv zeta. case_bool_decide as Hpos.
  - destruct (c_children n !! root) as [v|] eqn:Ev; simpl in Hpos; [|lia]. pose proof (Hr root v Ev). simpl. eexists. split; [done|]. split.
    + intros c w. case_bool_decide; rewrite ?lookup_delete_Some, ?lookup_insert_Some; [naive_solver|].
      intros [[<- <-]|[_ Hw]]; [lia|by eapply Hr].
    + intros c. case_bool_decide as E1; case_bool_decide as E2; subst; rewrite ?Ev; simpl.
      * rewrite lookup_delete_eq. simpl. lia.
      * by rewrite lookup_delete_ne.
      * rewrite lookup_insert_eq. simpl. lia.
      * by rewrite lookup_insert_ne.
  - exists (c_children n). split; [by destruct n|]. split; [done|]. intros c. case_bool_decide; [subst|done].
    destruct (c_children n !! root) as [v|] eqn:Ev; simpl in *; [pose proof (Hr _ _ Ev)|]; lia.
Qed.

(** The metaroot releases a root. *)
Lemma release_root db L l root n :
  Inv db L l [] [] -> d_nodes db !! emptyHash = Some n ->
  let db' := with_nodes (insert emptyHash (release_count root n)) db in
  Inv db' L l [] [] /\ (0 < root_count db root \/ on_disk db root -> Inv db' L l [] [root]) /\
  (forall c, root_count db' c = if bool_decide (c = root) then Z.max 0 (root_count db root - 1) else root_count db c).
Proof.
  intros I Hn db'. assert (forall c, root_count db c = default 0 (c_children n !! c)) as Erc by (intros; unfold root_count; by rewrite Hn).
  destruct (release_count_spec root n) as (ch & Ech & Hv & Hd); [intros c k; by apply (inv_roots _ _ _ _ _ I)|].
  assert (forall c, default 0 (ch !! c) = if bool_decide (c = root) then Z.max 0 (root_count db c - 1) else root_count db c) as Hd'
    by (intros c; by rewrite Hd, Erc). clear Hd. rename Hd' into Hd. unfold db'. rewrite Ech. clear db'.
  assert (forall owed', (forall c, occ c owed' <= if bool_decide (c = root) then 1 else 0) ->
    (0 < occ root owed' -> 0 < root_count db root \/ on_disk db root) ->
    let db' := with_nodes (insert emptyHash (set_children ch n)) db in Inv db' L l [] owed' /\ (forall c, root_count db' c = default 0 (ch !! c))) as HI.
  { intros owed' Ho Hroot. apply (Inv_meta db L l [] []); [done..|]. intros c x Hpos. specialize (Ho c). unfold x in *. rewrite Hd in *.
    assert (claims db l [] c = root_count db c + sum_over (fun h => occ c (out db h)) l) as Ecl by (unfold claims; rewrite occ_nil; lia).
    destruct (claims_parts _ _ _ _ _ c I) as (H1 & H2 & _). pose proof (occ_nonneg c owed').
    revert Ho Hpos. destruct (bool_decide_reflect (c = root)) as [->|E]; intros Ho Hpos; cbv iota in Ho, Hpos |- *.
    - destruct (decide (0 < root_count db root)) as [Hr|Hr].
      + destruct (inv_claims _ _ _ _ _ I root) as [?|[? ?]]; [lia|by left|right; split; [done|lia]].
      + destruct (decide (0 < occ root owed')) as [Hp|Hp]; [destruct (Hroot Hp); [lia|by left]|].
        destruct (inv_claims _ _ _ _ _ I root) as [?|[? ?]]; [lia|by left|right; split; [done|lia]].
    - destruct (inv_claims _ _ _ _ _ I c) as [?|[? ?]]; [lia|by left|right; split; [done|lia]]. }
  destruct (HI []) as [I1 R1]; [intros c; rewrite occ_nil; case_bool_decide; lia|by rewrite occ_nil|].
  split_and!; [done| |intros c; rewrite R1, Hd; case_bool_decide; by subst].
  intros Hr. apply (HI [root]); [|done]. intros c. rewrite occ_cons, occ_nil. repeat case_bool_decide; naive_solver lia.
Qed.

(** A stable state: nothing is pending and no lock is held. *)
Definition stable (db : Database) (L : list Z -> list (list Z)) (l : list (list Z)) : Prop := Inv db L l [] [] /\ d_readers db = 0.

Lemma stable_size db L l : stable db L l -> size (d_nodes db) = S (length l).
Proof.
  intros [I _]. assert (dom (d_nodes db) = list_to_set (C := gset (list Z)) (emptyHash :: l)) as E.
  { apply set_eq. intros x. rewrite elem_of_dom, (inv_dom _ _ _ _ _ I), app_nil_r, elem_of_list_to_set, elem_of_cons. done. }
  rewrite <- (size_dom (D := gset (list Z))), E, size_list_to_set; [done|].
  apply NoDup_cons. split; [apply (fl_zero _ _ (inv_flush _ _ _ _ _ I))|apply (fl_nodup _ _ (inv_flush _ _ _ _ _ I))].
Qed.

(** [Dereference] of a referenced root. *)
Lemma Dereference_ok db L l root :
  stable db L l -> root <> emptyHash -> 0 < root_count db root \/ on_disk db root \/ d_nodes db !! root = None ->
  exists db' l', Dereference root db = Ok (db', inr tt) /\ stable db' L l' /\ sublist l' l /\ d_disk db' = d_disk db /\
    (forall c, root_count db' c = if bool_decide (c = root) then Z.max 0 (root_count db root - 1) else root_count db c).
Proof.
  intros S Hz Hroot. pose proof (stable_size _ _ _ S) as Hs. destruct S as [I Hr]. unfold Dereference. rewrite bool_decide_false by done.
  rewrite (sm_bind_ok _ _ _ db tt) by (unfold lock_write; by rewrite bool_decide_true). unfold gets, mbind, SM_bind. rewrite Hs.
  destruct (proj2 (inv_dom _ _ _ _ _ I emptyHash)) as [n Hn]; [by left|].
  destruct (release_root db L l root n I Hn) as (I1 & I2 & R1). set (db1 := with_nodes _ db) in *.
  assert (release_child root emptyHash db = Ok (db1, inr tt)) as Er by by apply (update_node_run emptyHash (release_count root)).
  destruct (d_nodes db !! root) as [m|] eqn:Hm.
  - destruct (deref_body (S (length l)) root emptyHash db db1 L l [] [] (deref_ok _) Er) as (db' & l' & E & I' & S' & K').
    + apply I2. naive_solver.
    + done.
    + intros x ?%not_elem_of_nil. done.
    + unfold depth. pose proof (length_filter (fun x => (rank x <= rank root)%nat) l). lia.
    + exists db', l'. split_and!; [done| |done|by rewrite (kp_disk _ _ _ K')|intros c; by rewrite (kp_roots _ _ _ K')].
      split; [done|]. by rewrite (kp_readers _ _ _ K').
  - exists db1, l. split_and!; [|by split|done|done|done]. cbn [db_dereference]. rewrite (sm_bind_ok _ _ _ _ _ Er).
    unfold gets, mbind, SM_bind. unfold db1. simpl. by rewrite lookup_insert_ne, Hm.
Qed.

(** *** Inserting *)

Lemma Inv_claim_disk db L l p owed c : Inv db L l p owed -> on_disk db c -> Inv db L l p (c :: owed).
Proof.
  intros I Hd. constructor; try by apply I. intros x Hx. destruct (decide (x = c)) as [->|Hne]; [by left|].
  assert (claims db l (c :: owed) x = claims db l owed x) as E by (unfold claims; rewrite occ_cons, bool_decide_false by done; lia).
  rewrite E in *. by apply I.
Qed.

(** A reference to a live node is counted. *)
Lemma Inv_claim db L l p owed c n :
  Inv db L l p owed -> c ∈ l -> d_nodes db !! c = Some n -> c_parents n + 1 < 65536 ->
  Inv (with_nodes (insert c (set_parents (u16 (c_parents n + 1)) n)) db) L l p (c :: owed).
Proof.
  intros I Hc Hn Hb. destruct (inv_node _ _ _ _ _ I c n Hc Hn) as [_ _ _ _ Hp].
  assert (u16 (c_parents n + 1) = c_parents n + 1) as -> by (apply wrapU_small; lia).
  apply (Inv_parents db L l p owed); [done..|lia| |].
  - intros x Hx. rewrite occ_cons, bool_decide_false by done. lia.
  - assert (claims db l (c :: owed) c = claims db l owed c + 1) as -> by (unfold claims; rewrite occ_cons, bool_decide_true by done; lia).
    intros Hpos. destruct (decide (0 < claims db l owed c)) as [Hcl|?]; [|right; lia].
    destruct (inv_claims _ _ _ _ _ I c Hcl) as [?|[_ Hle]]; [by left|right]. unfold parents_of in Hle. rewrite Hn in Hle. simpl in Hle. lia.
Qed.

(** What counting references keeps. *)
Record counted (cs : list (list Z)) (db db' : Database) : Prop := {
  ct_kept : kept [] db db';
  ct_parents x : parents_of db' x <= parents_of db x + occ x cs;
  ct_oldest : d_oldest db' = d_oldest db;
  ct_newest : d_newest db' = d_newest db;
  ct_size : d_nodesSize db' = d_nodesSize db
}.

Lemma count_parents_ok cs : forall db L l owed,
  Inv db L l [] owed -> (forall c, c ∈ cs -> c <> emptyHash /\ (c ∈ l \/ on_disk db c)) ->
  (forall c, c ∈ l -> parents_of db c + occ c cs < 65536) ->
  exists db', count_parents cs db = Ok (db', inr tt) /\ Inv db' L l [] (cs ++ owed) /\ counted cs db db'.
Proof.
  induction cs as [|c cs IH]; intros db L l owed I Hc Hb.
  { exists db. split_and!; [done|done|]. constructor; [apply kept_refl|intros x; rewrite occ_nil; lia|done..]. }
  cbn [count_parents]. unfold gets, mbind at 1, SM_bind at 1. destruct (Hc c) as [Hc0 Hcl]; [left|].
  assert (forall db' L l, Inv db' L l [] (cs ++ c :: owed) -> Inv db' L l [] ((c :: cs) ++ owed)) as Hperm.
  { intros. eapply Inv_owed; [done|]. intros x. rewrite <- app_comm_cons, (occ_perm x (cs ++ c :: owed) (c :: cs ++ owed)); [done|].
    by rewrite Permutation_middle. }
  destruct (d_nodes db !! c) as [n|] eqn:Hn.
  - assert (c ∈ l) as Hin.
    { destruct (proj1 (inv_dom _ _ _ _ _ I c)) as [?|Hx]; [by eexists|done|]. by rewrite app_nil_r in Hx. }
    assert (parents_of db c = c_parents n) as Ep by (unfold parents_of; by rewrite Hn).
    pose proof (Hb c Hin) as Hbc. rewrite occ_cons, bool_decide_true, Ep in Hbc by done. pose proof (occ_nonneg c cs).
    pose proof (Inv_claim db L l [] owed c n I Hin Hn ltac:(lia)) as I1. set (db1 := with_nodes _ db) in *.
    rewrite (sm_bind_ok _ _ _ db1 tt) by done.
    assert (forall x, parents_of db1 x = parents_of db x + (if bool_decide (c = x) then 1 else 0)) as Ep1.
    { intros x. destruct (decide (c = x)) as [<-|Hne].
      - rewrite bool_decide_true, Ep by done. unfold parents_of, db1. simpl. rewrite lookup_insert_eq. simpl.
        destruct (inv_node _ _ _ _ _ I c n Hin Hn) as [_ _ _ _ Hp]. apply wrapU_small. lia.
      - rewrite bool_decide_false by done. destruct (only_out c db db1 x (only_insert _ _ _)) as (_ & _ & _ & -> & _); [done|lia]. }
    destruct (IH db1 L l (c :: owed) I1) as (db' & -> & I' & K').
    + intros x Hx. destruct (Hc x); [by right|]. done.
    + intros x Hx. pose proof (Hb x Hx) as Hbx. rewrite occ_cons in Hbx. rewrite Ep1. lia.
    + exists db'. split_and!; [done|by apply Hperm|]. destruct K' as [K' Kp ? ? ?]. constructor; try done.
      * eapply kept_trans; [|done]. by eapply kept_insert.
      * intros x. specialize (Kp x). rewrite Ep1 in Kp. rewrite occ_cons. lia.
  - destruct Hcl as [Hl|Hd]; [destruct (proj2 (inv_dom _ _ _ _ _ I c)); [right; set_solver|congruence]|].
    rewrite (sm_bind_ok _ _ _ db tt) by done.
    destruct (IH db L l (c :: owed)) as (db' & -> & I' & K'); [by apply Inv_claim_disk|set_solver| |].
    + intros x Hx. pose proof (Hb x Hx) as Hbx. rewrite occ_cons in Hbx. case_bool_decide; lia.
    + exists db'. split_and!; [done|by apply Hperm|]. destruct K'. constructor; try done. intros x. rewrite occ_cons.
      pose proof (ct_parents0 x). case_bool_decide; lia.
Qed.

(** The references of nodes after an insertion: a node that is already on the
    disk keeps those it has there. *)
Definition link_new (db : Database) (L : list Z -> list (list Z)) (h : list Z) (cs : list (list Z)) (x : list Z) : list (list Z) :=
  if bool_decide (x = h) then cs ++ (if bool_decide (on_disk db h) then L h else []) else L x.

(** [db'] is [db] with the new node [n] at the end of the flush list. *)
Record appended (db db' : Database) (l : list (list Z)) (h : list Z) (n : cachedNode) : Prop := {
  ap_node : d_nodes db' !! h = Some n;
  ap_core x : x <> h -> core_of db' x = core_of db x;
  ap_prev x : x <> h -> fprev db' x = fprev db x;
  ap_next x : x <> h -> fnext db' x = if bool_decide (last l = Some x) then Some h else fnext db x;
  ap_oldest : d_oldest db' = hd h l;
  ap_newest : d_newest db' = h;
  ap_size : d_nodesSize db' = d_nodesSize db + (32 + c_size n);
  ap_disk : d_disk db' = d_disk db;
  ap_preimages : d_preimages db' = d_preimages db;
  ap_readers : d_readers db' = d_readers db
}.

Lemma append_run db l h n :
  flush_ok db l -> d_nodes db !! h = None -> 0 <= c_size n < 65504 ->
  exists db', (modify (with_nodes (insert h n));;
     oldest ← gets d_oldest;
     (if bool_decide (oldest = emptyHash) then modify (with_oldest h) else update_node (d_newest db) (set_flushNext h));;
     modify (with_newest h);; modify (add_size (u16 (32 + c_size n)))) db = Ok (db', inr tt : db_error + unit) /\ appended db db' l h n.
Proof.
  intros F Hn Hs. rewrite (sm_bind_ok _ _ _ (with_nodes (insert h n) db) tt) by done. unfold gets, mbind at 1, SM_bind at 1.
  assert (u16 (32 + c_size n) = 32 + c_size n) as -> by (apply wrapU_small; lia). simpl d_oldest. rewrite (fl_oldest _ _ F).
  pose proof (fl_zero _ _ F) as Hz. destruct l as [|a l].
  - simpl hd. rewrite bool_decide_true by done. eexists. split; [reflexivity|].
    constructor; try done; simpl; unfold core_of, fprev, fnext; simpl; intros; rewrite ?lookup_insert_eq; try done;
      try by rewrite lookup_insert_ne.
  - simpl hd. rewrite bool_decide_false by (intros ->; set_solver).
    destruct (last_is_Some (a :: l)) as [_ Hlast]. destruct (Hlast ltac:(done)) as [w Hw]. rewrite (fl_newest _ _ F w Hw).
    destruct (flush_present db (a :: l) w F) as [m Hm]; [by apply last_Some_elem_of|].
    assert (w <> h) as Hwh by congruence.
    erewrite sm_bind_ok by (apply update_node_run; simpl; rewrite lookup_insert_ne by done; exact Hm).
    eexists. split; [reflexivity|]. constructor; try done; simpl.
    + by rewrite lookup_insert_ne, lookup_insert_eq.
    + intros x Hx. etrans; [apply (core_of_insert (with_nodes (insert h n) db) w (set_flushNext h) m); [simpl; by rewrite lookup_insert_ne|done]|].
      unfold core_of. simpl. by rewrite lookup_insert_ne.
    + intros x Hx. unfold fprev. simpl. destruct (decide (w = x)) as [<-|Hne]; [rewrite lookup_insert_eq, Hm; done|].
      by rewrite !lookup_insert_ne.
    + intros x Hx. unfold fnext. simpl. rewrite Hw. case_bool_decide as E; [injection E as ->; by rewrite lookup_insert_eq|].
      rewrite !lookup_insert_ne by congruence. done.
    + apply (fl_oldest _ _ F).
Qed.

Lemma appended_flush db db' l h n :
  flush_ok db l -> appended db db' l h n -> h ∉ l -> h <> emptyHash -> c_flushNext n = emptyHash -> c_flushPrev n = d_newest db ->
  flush_ok db' (l ++ [h]).
Proof.
  intros F A Hh Hz Hnx Hpv. pose proof (fl_nodup _ _ F) as Hnd.
  constructor.
  - apply NoDup_app. split_and!; [done|set_solver|apply NoDup_singleton].
  - pose proof (fl_zero _ _ F). set_solver.
  - rewrite (ap_oldest _ _ _ _ _ A). by destruct l.
  - intros x. rewrite last_snoc. intros [= <-]. apply A.
  - apply (linked_snoc (fnext db)).
    + eapply linked_weaken, F.
    + done.
    + intros b Hb Hl. rewrite (ap_next _ _ _ _ _ A) by set_solver. by rewrite bool_decide_false.
    + intros b Hb. rewrite (ap_next _ _ _ _ _ A); [by rewrite bool_decide_true|]. intros ->. apply last_Some_elem_of in Hb. done.
    + intros x [= <-]. unfold fnext. rewrite (ap_node _ _ _ _ _ A). simpl. by rewrite Hnx.
    + done.
  - rewrite reverse_snoc, linked_cons. split.
    + destruct (reverse l) as [|b r] eqn:Er; [done|]. unfold fprev. rewrite (ap_node _ _ _ _ _ A). simpl. rewrite Hpv. f_equal.
      apply (fl_newest _ _ F). by rewrite <- head_reverse, Er.
    + eapply linked_ext; [|apply (fl_prev _ _ F)]. intros a Ha. rewrite elem_of_reverse in Ha. rewrite (ap_prev _ _ _ _ _ A); [done|set_solver].
Qed.

Lemma appended_inv db db' L l h n cs :
  Inv db L l [] cs -> appended db db' l h n -> d_nodes db !! h = None -> h <> emptyHash -> node_ok h n -> childs n = Some cs ->
  c_flushNext n = emptyHash -> c_flushPrev n = d_newest db ->
  (forall c, c ∈ cs -> (c ∈ l \/ on_disk db c) /\ length c = HashLength /\ (on_disk db h -> on_disk db c)) ->
  Inv db' (link_new db L h cs) (l ++ [h]) [] [].
Proof.
  intros I A Hn Hz Hok Hcs Hnx Hpv Hc.
  assert (h ∉ l) as Hh by (intros Hh; destruct (proj2 (inv_dom _ _ _ _ _ I h)); [right; in_list|congruence]).
  assert (forall x, x ∈ l -> x <> h) as Hne by (by intros x Hx ->).
  assert (forall x, on_disk db' x <-> on_disk db x) as Hd by (intros x; unfold on_disk; by rewrite (ap_disk _ _ _ _ _ A)).
  assert (out db' h = cs) as Eo by (unfold out; rewrite (ap_node _ _ _ _ _ A); simpl; by rewrite Hcs).
  assert (forall x, x <> h -> out db' x = out db x) as Eox by (intros x Hx; by apply core_out, A).
  assert (forall c, claims db' (l ++ [h]) [] c = claims db l cs c) as Ecl.
  { intros c. unfold claims. rewrite occ_nil, sum_over_app. simpl. rewrite Eo.
    rewrite (core_root_count db db') by (apply A; done). rewrite (sum_over_ext _ (fun h => occ c (out db h)) l); [lia|].
    intros x Hx. by rewrite Eox by auto. }
  assert (h ∉ cs) as Hhcs.
  { destruct (nd_childs _ _ Hok) as (cs' & E & _ & Hr). rewrite Hcs in E. injection E as <-. intros Hin. specialize (Hr h Hin). lia. }
  constructor; rewrite ?app_nil_r, ?(ap_disk _ _ _ _ _ A), ?(ap_preimages _ _ _ _ _ A); try by apply I.
  - eapply appended_flush; try done. apply I.
  - apply NoDup_app. split_and!; [apply (fl_nodup _ _ (inv_flush _ _ _ _ _ I))|intros x Hx; by rewrite list_elem_of_singleton; intros ->|apply NoDup_singleton].
  - intros x. destruct (decide (x = h)) as [->|Hx]; [rewrite (ap_node _ _ _ _ _ A); split; [intros _; right; in_list|by eauto]|].
    rewrite (core_some db db') by by apply A. rewrite (inv_dom _ _ _ _ _ I), app_nil_r. in_list.
  - intros x m Hx Hm. destruct (decide (x = h)) as [->|Hxh]; [rewrite (ap_node _ _ _ _ _ A) in Hm; by injection Hm as <-|].
    assert (x ∈ l) as Hxl by in_list. destruct (flush_present db l x (inv_flush _ _ _ _ _ I) Hxl) as [m' Hm'].
    eapply node_ok_core; [|by eapply (inv_node _ _ _ _ _ I x m')]. eapply (core_lookup db db' x); [by apply A|done|done].
  - intros m c k Hm. destruct (proj1 (core_some db db' emptyHash (ap_core _ _ _ _ _ A _ ltac:(done)))) as [m' Hm']; [by eexists|].
    pose proof (core_lookup db db' _ m' m (ap_core _ _ _ _ _ A _ ltac:(done)) Hm' Hm) as [= _ _ _ ->]. by apply (inv_roots _ _ _ _ _ I).
  - intros c. rewrite Ecl, Hd. intros Hpos. destruct (inv_claims _ _ _ _ _ I c Hpos) as [?|[Hin ?]]; [by left|right].
    split; [in_list|]. by rewrite (core_parents db db') by (apply A; auto).
  - intros l1 x l2 c E Hx. rewrite Hd. destruct l2 as [|y l2 _] using rev_ind.
    + apply app_inj_tail in E as [<- <-]. rewrite Eo in Hx. naive_solver.
    + rewrite app_comm_cons, app_assoc in E. apply app_inj_tail in E as [E _]. rewrite Eox in Hx by (apply Hne; rewrite E; in_list).
      by eapply (inv_order _ _ _ _ _ I).
  - intros x c. rewrite (Hd x), (Hd c). unfold link_new. intros Hx Hl. case_bool_decide as E; [subst x|by eapply (inv_closed _ _ _ _ _ I)].
    rewrite bool_decide_true by done. intros [?|Hin]%elem_of_app; [naive_solver|]. by eapply (inv_closed _ _ _ _ _ I).
  - intros x c Hx. rewrite Hd. unfold link_new. case_bool_decide as E; [subst x|].
    + intros [?|Hin]%elem_of_app; [left; by rewrite Eo|right]. case_bool_decide as Hdh; [|by apply not_elem_of_nil in Hin].
      eapply (inv_closed _ _ _ _ _ I); [exact Hdh|apply Hok|done].
    + rewrite Eox by done. apply (inv_links _ _ _ _ _ I). in_list.
  - intros x c. unfold link_new. case_bool_decide; [|apply (inv_length _ _ _ _ _ I)]. intros [?|Hin]%elem_of_app; [naive_solver|].
    case_bool_decide; [by eapply (inv_length _ _ _ _ _ I)|by apply not_elem_of_nil in Hin].
  - rewrite (ap_size _ _ _ _ _ A), (inv_size _ _ _ _ _ I), app_nil_r, sum_over_app. simpl.
    assert (size_of db' h = c_size n) as -> by (unfold size_of; by rewrite (ap_node _ _ _ _ _ A)).
    rewrite (sum_over_ext (fun h => 32 + size_of db' h) (fun h => 32 + size_of db h) l); [lia|]. intros x Hx.
    by rewrite (core_size db db') by (apply A; auto).
Qed.

Lemma Inv_links_ext db L L' l p owed : (forall x, L x = L' x) -> Inv db L l p owed -> Inv db L' l p owed.
Proof. intros E I. constructor; try (by apply I); intros h c; rewrite <- E; apply I. Qed.

(** An insertion that the code makes: the node and the nodes it refers to are
    known, and counting does not overflow. *)
Record insertable (db : Database) (h blob : list Z) (n : node + list Z) (cs : list (list Z)) : Prop := {
  is_length : length h = HashLength;
  is_nonzero : h <> emptyHash;
  is_blob : Z.of_nat (length blob) < 65504;
  is_node : exists r, match n with inl n => simplifyNode n | inr b => Some (RawNode b) end = Some r /\
    forall size prev next, let entry := mkCached r size 0 ∅ prev next in cached_rlp entry = Some (content h) /\ childs entry = Some cs /\
      forall gen x, decodeNode (Some h) (content h) gen = Ok x -> cached_obj entry h gen = Some x;
  is_childs c : c ∈ cs -> c <> emptyHash /\ length c = HashLength /\ (rank c < rank h)%nat /\
    (is_Some (d_nodes db !! c) \/ on_disk db c) /\ (on_disk db h -> on_disk db c);
  is_counts c : is_Some (d_nodes db !! c) -> parents_of db c + occ c cs < 65536
}.

Lemma insert_ok db L l h blob n cs :
  stable db L l -> (d_nodes db !! h = None -> insertable db h blob n cs) ->
  exists db' L' l', db_insert h blob n db = Ok (db', inr tt) /\ stable db' L' l' /\ d_disk db' = d_disk db /\
    (forall c, root_count db' c = root_count db c) /\
    L' = (if bool_decide (d_nodes db !! h = None) then link_new db L h cs else L) /\
    l' = (if bool_decide (d_nodes db !! h = None) then l ++ [h] else l) /\
    (forall c, parents_of db' c <= parents_of db c + occ c cs).
Proof.
  intros [I Hr] Hi. unfold db_insert. rewrite (sm_bind_ok _ _ _ db (d_nodes db)) by done. destruct (d_nodes db !! h) as [m|] eqn:Hn.
  { exists db, L, l. rewrite !bool_decide_false by done. split_and!; try done. intros c. pose proof (occ_nonneg c cs). lia. }
  destruct (Hi eq_refl) as [Hlen Hz Hb (r & Er & Hent) Hcs Hct]. rewrite (sm_bind_ok _ _ _ db (d_newest db)) by done.
  rewrite (sm_bind_ok _ _ _ db r) by (by rewrite Er). cbv zeta.
  set (entry := mkCached r (u16 (Z.of_nat (length blob))) 0 ∅ (d_newest db) emptyHash). destruct (Hent (c_size entry) (d_newest db) emptyHash) as (Hrlp & Hch & Hobj).
  change (mkCached r (c_size entry) 0 ∅ (d_newest db) emptyHash) with entry in *.
  rewrite (sm_bind_ok _ _ _ db cs) by (by rewrite Hch).
  assert (forall c, is_Some (d_nodes db !! c) -> c <> emptyHash -> c ∈ l) as Hin.
  { intros c Hc Hc0. apply (inv_dom _ _ _ _ _ I) in Hc as [?|Hc]; [done|]. by rewrite app_nil_r in Hc. }
  destruct (count_parents_ok cs db L l [] I) as (db1 & E1 & I1 & [K1 Kp1 Ho1 Hw1 Hs1]).
  { intros c Hc. destruct (Hcs c Hc) as (? & _ & _ & [?|?] & _); auto. }
  { intros c Hc. apply Hct. apply (inv_dom _ _ _ _ _ I). right. in_list. }
  rewrite app_nil_r in I1. rewrite (sm_bind_ok _ _ _ _ _ E1).
  assert (forall x, on_disk db1 x <-> on_disk db x) as Hd by (intros x; unfold on_disk; by rewrite (kp_disk _ _ _ K1)).
  assert (d_nodes db1 !! h = None) as Hn1.
  { destruct (d_nodes db1 !! h) as [m|] eqn:E; [|done]. destruct (proj1 (inv_dom _ _ _ _ _ I1 h)) as [?|Hx]; [by eexists|done|].
    rewrite app_nil_r in Hx. destruct (flush_present db l h (inv_flush _ _ _ _ _ I) Hx); congruence. }
  assert (0 <= c_size entry < 65504) as Hsz by (unfold entry; simpl; rewrite wrapU_small by lia; lia).
  destruct (append_run db1 l h entry (inv_flush _ _ _ _ _ I1) Hn1 Hsz) as (db' & E2 & A). rewrite Hw1 in E2. rewrite E2.
  exists db', (link_new db L h cs), (l ++ [h]). rewrite !bool_decide_true by done. split_and!; [done| | | |done|done|].
  - split; [|by rewrite (ap_readers _ _ _ _ _ A), (kp_readers _ _ _ K1)].
    assert (forall x, link_new db1 L h cs x = link_new db L h cs x) as El.
    { intros x. unfold link_new. case_bool_decide; [|done]. f_equal. by rewrite (bool_decide_ext _ _ (Hd h)). }
    eapply Inv_links_ext; [exact El|]. eapply (appended_inv db1 db' L l h entry cs); try done.
    + constructor; [done|done|done| |simpl; lia]. exists cs. split_and!; [done|intros Hx; by destruct (Hcs _ Hx)|]. intros c Hc. by apply Hcs.
    + intros c Hc. destruct (Hcs c Hc) as (Hc0 & ? & _ & Hor & ?). rewrite !Hd. split_and!; [|done|done].
      destruct Hor as [?|?]; [left; by apply Hin|by right].
  - by rewrite (ap_disk _ _ _ _ _ A), (kp_disk _ _ _ K1).
  - intros c. rewrite (core_root_count db1 db') by (apply A; done). apply K1.
  - intros c. destruct (decide (c = h)) as [->|Hne]; [|by rewrite (core_parents db1 db') by by apply A].
    unfold parents_of. rewrite (ap_node _ _ _ _ _ A), Hn. simpl. pose proof (occ_nonneg h cs). lia.
Qed.

(** *** Referencing *)

Lemma app_inj_nodup {A} (a b : list A) x c d : a ++ x :: b = c ++ x :: d -> NoDup (a ++ x :: b) -> a = c /\ b = d.
Proof.
  revert c. induction a as [|y a IH]; intros [|z c] E Hn; simpl in E, Hn; simplify_eq.
  - done.
  - apply NoDup_cons in Hn as [Hn _]. set_solver.
  - apply NoDup_cons in Hn as [Hn _]. set_solver.
  - apply NoDup_cons in Hn as [_ Hn]. by destruct (IH c ltac:(done) Hn) as [-> ->].
Qed.

Lemma childs_reference p child v cs :
  childs p = Some cs -> c_children p !! child = None ->
  exists cs', childs (set_children (<[child := v]> (c_children p)) p) = Some cs' /\ cs' ≡ₚ child :: cs.
Proof.
  intros Hcs Hn. unfold childs in *. cbn [set_children c_children c_node].
  assert ((map_order (<[child := v]> (c_children p))).*1 ≡ₚ child :: (map_order (c_children p)).*1) as Ep.
  { rewrite !map_order_perm, map_to_list_insert by done. done. }
  destruct (c_node p); try (destruct (gatherChildren _) as [gs|]; [|discriminate Hcs]); cbn [mbind option_bind] in *; injection Hcs as <-;
    eexists; (split; [reflexivity|]); by rewrite Ep.
Qed.

(** The references after [Reference]. *)
Definition link_ref (L : list Z -> list (list Z)) (child parent x : list Z) : list (list Z) :=
  if bool_decide (x = parent) then child :: L x else L x.

(** A live parent refers to an owed child. *)
Lemma Inv_refer db L l child parent p :
  Inv db L l [] [child] -> parent ∈ l -> d_nodes db !! parent = Some p -> c_children p !! child = None ->
  child <> emptyHash -> length child = HashLength -> (rank child < rank parent)%nat ->
  (on_disk db parent -> on_disk db child) ->
  (forall l1 l2, l = l1 ++ parent :: l2 -> child ∈ l1 \/ on_disk db child) ->
  Inv (with_nodes (insert parent (set_children (<[child := 1]> (c_children p)) p)) db) (link_ref L child parent) l [] [].
Proof.
  intros I Hp Hn Hch Hc0 Hlen Hrk Hcd Hord. set (p' := set_children _ p). set (db' := with_nodes _ db).
  pose proof (only_insert parent p' db) as O. fold db' in O.
  assert (parent <> emptyHash) as Hp0 by (intros ->; by apply (fl_zero _ _ (inv_flush _ _ _ _ _ I))).
  assert (d_nodes db' !! parent = Some p') as Hn' by (unfold db'; simpl; by rewrite lookup_insert_eq).
  destruct (inv_node _ _ _ _ _ I parent p Hp Hn) as [N1 N2 N3 (cs & Hcs & Hz & Hr) N4].
  destruct (childs_reference p child 1 cs Hcs Hch) as (cs' & Hcs' & Ep). fold p' in Hcs'.
  assert (out db parent = cs /\ out db' parent = cs') as [Eo Eo'] by (unfold out; rewrite Hn, Hn'; simpl; by rewrite Hcs, Hcs').
  assert (forall x, x <> parent -> out db' x = out db x) as Eox by (intros x Hx; by apply (only_out parent db db' x O Hx)).
  assert (forall c, claims db' l [] c = claims db l [child] c) as Ecl.
  { intros c. unfold claims. rewrite (only_root parent db db') by done. apply list_elem_of_split in Hp as (l1 & l2 & El).
    pose proof (fl_nodup _ _ (inv_flush _ _ _ _ _ I)) as Hnd. rewrite El in Hnd |- *. rewrite <- Permutation_middle, NoDup_cons in Hnd. destruct Hnd as [Hnp _].
    rewrite !(sum_over_perm _ _ _ (Permutation_sym (Permutation_middle l1 l2 parent))). simpl. rewrite Eo, Eo', (occ_perm c _ _ Ep), !occ_cons.
    rewrite (sum_over_ext _ (fun h => occ c (out db h)) (l1 ++ l2)); [rewrite occ_nil; lia|]. intros x Hx. rewrite Eox; [done|]. by intros ->. }
  constructor; try by apply I.
  - destruct (inv_flush _ _ _ _ _ I) as [F1 F2 F3 F4 F5 F6].
    assert (forall x, fnext db' x = fnext db x /\ fprev db' x = fprev db x) as Ef.
    { intros x. destruct (decide (x = parent)) as [->|Hx]; [unfold fnext, fprev; by rewrite Hn, Hn'|]. by destruct (only_out parent db db' x O Hx) as (_ & ? & ? & _). }
    constructor; try done; (eapply linked_ext; [|done]); intros a _; by destruct (Ef a).
  - intros x. destruct (decide (x = parent)) as [->|Hx]; [rewrite Hn'; split; [intros _; right; in_list|by eauto]|]. rewrite (O x Hx). apply I.
  - intros x m Hx Hm. destruct (decide (x = parent)) as [->|Hxp]; [|rewrite (O x Hxp) in Hm; by apply (inv_node _ _ _ _ _ I)].
    rewrite Hn' in Hm. injection Hm as <-. constructor; [done|done|done| |done]. exists cs'. split; [done|]. setoid_rewrite Ep.
    split; [rewrite not_elem_of_cons; auto|]. intros c [->|Hc]%elem_of_cons; auto.
  - intros m c k. rewrite (O emptyHash) by done. apply (inv_roots _ _ _ _ _ I).
  - intros c. rewrite Ecl. intros Hpos. destruct (inv_claims _ _ _ _ _ I c Hpos) as [?|[? ?]]; [by left|right]. split; [done|].
    destruct (decide (c = parent)) as [->|Hx]; [|by destruct (only_out parent db db' c O Hx) as (_ & _ & _ & -> & _)].
    unfold parents_of in *. rewrite Hn'. by rewrite Hn in *.
  - intros l1 x l2 c El Hx. destruct (decide (x = parent)) as [->|Hxp]; [|rewrite Eox in Hx by done; by eapply (inv_order _ _ _ _ _ I)].
    rewrite Eo', Ep in Hx. apply elem_of_cons in Hx as [->|Hx]; [by apply (Hord l1 l2)|]. eapply (inv_order _ _ _ _ _ I); [done|by rewrite Eo].
  - intros x c Hx Hl. unfold link_ref. case_bool_decide as E; [subst x|by apply I]. intros [->|Hc]%elem_of_cons; [by apply Hcd|]. by eapply (inv_closed _ _ _ _ _ I).
  - intros x c Hx. unfold link_ref. case_bool_decide as E; [subst x|rewrite Eox by done; by apply I].
    intros [->|Hc]%elem_of_cons; rewrite Eo', Ep; [left; left|]. destruct (inv_links _ _ _ _ _ I parent c Hx Hc) as [Hc'|?]; [|by right].
    left. right. by rewrite <- Eo.
  - intros x c. unfold link_ref. case_bool_decide; [|apply I]. intros [->|Hc]%elem_of_cons; [done|]. by eapply (inv_length _ _ _ _ _ I).
  - rewrite <- (sum_over_ext (fun h => 32 + size_of db h)); [apply (inv_size _ _ _ _ _ I)|]. intros x _.
    destruct (decide (x = parent)) as [->|Hx]; [unfold size_of; by rewrite Hn, Hn'|]. by destruct (only_out parent db db' x O Hx) as (_ & _ & _ & _ & ->).
Qed.

Lemma linked_unique (f : list Z -> option (list Z)) l : forall l',
  linked f l (Some emptyHash) -> linked f l' (Some emptyHash) -> emptyHash ∉ l -> emptyHash ∉ l' ->
  hd emptyHash l = hd emptyHash l' -> l = l'.
Proof.
  induction l as [|a l IH]; intros [|b l'] H1 H2 Z1 Z2 E; simpl in E; subst.
  - done.
  - set_solver.
  - set_solver.
  - rewrite linked_cons in H1, H2. destruct H1 as [N1 H1], H2 as [N2 H2]. f_equal. apply IH; try done; [set_solver..|].
    destruct l, l'; simpl in *; congruence.
Qed.

Lemma flush_unique db l l' : flush_ok db l -> flush_ok db l' -> l = l'.
Proof.
  intros [_ Z1 O1 _ N1 _] [_ Z2 O2 _ N2 _]. eapply linked_unique; eauto. congruence.
Qed.

(** [a] was inserted before [b]. *)
Definition older (db : Database) (a b : list Z) : Prop := exists l1 l2 l3, flush_ok db (l1 ++ a :: l2 ++ b :: l3).

(** A reference that the code makes: to a root, or from a node to an older one. *)
Record referable (db : Database) (child parent : list Z) : Prop := {
  rf_nonzero : child <> emptyHash;
  rf_parent : is_Some (d_nodes db !! parent);
  rf_count : parents_of db child + 1 < 65536;
  rf_root : parent = emptyHash -> root_count db child + 1 < 65536;
  rf_order : parent <> emptyHash ->
    length child = HashLength /\ (rank child < rank parent)%nat /\ (older db child parent \/ on_disk db child) /\
    (on_disk db parent -> on_disk db child)
}.

Lemma reference_root db L l child n :
  Inv db L l [] [child] -> d_nodes db !! emptyHash = Some n -> root_count db child + 1 < 65536 ->
  let db' := with_nodes (insert emptyHash (set_children (<[child := u16 (default 0 (c_children n !! child) + 1)]> (c_children n)) n)) db in
  Inv db' L l [] [] /\ forall c, root_count db' c = root_count db c + (if bool_decide (c = child) then 1 else 0).
Proof.
  intros I Hn Hb. assert (forall c, root_count db c = default 0 (c_children n !! c)) as Erc by (intros; unfold root_count; by rewrite Hn).
  pose proof (root_count_nonneg _ _ _ _ _ child I) as H0. rewrite <- Erc.
  assert (u16 (root_count db child + 1) = root_count db child + 1) as -> by (apply wrapU_small; lia).
  set (ch := <[child := root_count db child + 1]> (c_children n)).
  assert (forall c, default 0 (ch !! c) = root_count db c + (if bool_decide (c = child) then 1 else 0)) as Ed.
  { intros c. unfold ch. case_bool_decide as E; [subst; by rewrite lookup_insert_eq|]. rewrite lookup_insert_ne, Erc by done. lia. }
  destruct (Inv_meta db L l [] [child] [] n ch I Hn) as [I' R']; [| |by split; [|intros c; rewrite R', Ed]].
  - intros c k. unfold ch. rewrite lookup_insert_Some. intros [[<- <-]|[_ Hk]]; [lia|by apply (inv_roots _ _ _ _ _ I n c k)].
  - intros c k Hk. unfold k in *. rewrite Ed in *. assert (claims db l [child] c = root_count db c + (if bool_decide (c = child) then 1 else 0)
      + sum_over (fun h => occ c (out db h)) l + occ c []) as Ecl.
    { unfold claims. rewrite occ_cons, occ_nil. repeat case_bool_decide; subst; try done; lia. }
    rewrite <- Ecl in *. by apply (inv_claims _ _ _ _ _ I).
Qed.

(** A node that is referenced again: only the references that are known change. *)
Lemma reference_again db L l child parent p k :
  Inv db L l [] [] -> parent ∈ l -> d_nodes db !! parent = Some p -> c_children p !! child = Some k ->
  length child = HashLength -> (on_disk db parent -> on_disk db child) -> Inv db (link_ref L child parent) l [] [].
Proof.
  intros I Hpl Hp Ek Hlen Hcd. destruct (inv_node _ _ _ _ _ I parent p Hpl Hp) as [_ _ _ (cs & Hcs & _) _].
  assert (child ∈ out db parent) as Hco.
  { unfold out. rewrite Hp. simpl. rewrite Hcs. cbn [from_option id]. unfold childs in Hcs.
    assert (child ∈ (map_order (c_children p)).*1) as Hk.
    { rewrite map_order_perm. apply list_elem_of_fmap. exists (child, k). split; [done|]. by apply elem_of_map_to_list. }
    destruct (c_node p); try (destruct (gatherChildren _); [|discriminate Hcs]); cbn [mbind option_bind] in Hcs; injection Hcs as <-;
      rewrite ?elem_of_app; tauto. }
  constructor; try by apply I.
  - intros x c Hx Hl. unfold link_ref. case_bool_decide as E; [subst x|by apply I]. intros [->|Hx']%elem_of_cons; [auto|by eapply (inv_closed _ _ _ _ _ I)].
  - intros x c Hx. unfold link_ref. case_bool_decide as E; [subst x|by apply I]. intros [->|Hx']%elem_of_cons; [by left|by apply I].
  - intros x c. unfold link_ref. case_bool_decide; [|apply I]. intros [->|Hx']%elem_of_cons; [done|by eapply (inv_length _ _ _ _ _ I)].
Qed.

Lemma older_order db L l child parent l1 l2 :
  Inv db L l [] [] -> older db child parent -> l = l1 ++ parent :: l2 -> child ∈ l1.
Proof.
  intros I (a & b & c & F) El. rewrite (flush_unique db _ _ (inv_flush _ _ _ _ _ I) F) in El. pose proof (fl_nodup _ _ F) as Hnd.
  rewrite app_comm_cons, app_assoc in El, Hnd. apply app_inj_nodup in El as [<- _]; [in_list|done].
Qed.

(** What a reference does: the references of the root and those that are known. *)
Definition refers (db : Database) (L : list Z -> list (list Z)) (l : list (list Z)) (child parent : list Z) (db' : Database) : Prop :=
  exists L', Inv db' L' l [] [] /\ d_readers db' = d_readers db /\ d_disk db' = d_disk db /\
    (forall c, root_count db' c = root_count db c +
       (if bool_decide (c = child /\ parent = emptyHash /\ is_Some (d_nodes db !! child)) then 1 else 0)) /\
    L' = (if bool_decide (is_Some (d_nodes db !! child) /\ parent <> emptyHash) then link_ref L child parent else L).

Lemma refers_node db L l child parent db' :
  is_Some (d_nodes db !! child) -> parent <> emptyHash -> Inv db' (link_ref L child parent) l [] [] -> d_readers db' = d_readers db -> d_disk db' = d_disk db ->
  (forall c, root_count db' c = root_count db c) -> refers db L l child parent db'.
Proof.
  intros Hc Hp I Hr D R. exists (link_ref L child parent). rewrite bool_decide_true by done. split_and!; try done.
  intros c. rewrite R, bool_decide_false by naive_solver. lia.
Qed.

Lemma reference_ok db L l child parent :
  Inv db L l [] [] -> (is_Some (d_nodes db !! child) -> referable db child parent) ->
  exists db', db_reference child parent db = Ok (db', inr tt) /\ refers db L l child parent db'.
Proof.
  intros I Hf. unfold db_reference. rewrite (sm_bind_ok _ _ _ db (d_nodes db)) by done.
  destruct (d_nodes db !! child) as [n|] eqn:Hn.
  2:{ exists db. split; [done|]. exists L. rewrite Hn, bool_decide_false by (intros [[] _]; done). split_and!; try done.
      intros c. rewrite bool_decide_false; [lia|]. intros (_ & _ & []); done. }
  destruct (Hf ltac:(eauto)) as [Hz [p Hp] Hct Hroot Hord]. rewrite (sm_bind_ok _ _ _ db p) by (by rewrite Hp).
  assert (forall x, is_Some (d_nodes db !! x) -> x <> emptyHash -> x ∈ l) as Hin.
  { intros x Hx Hx0. apply (inv_dom _ _ _ _ _ I) in Hx as [?|Hx]; [done|]. by rewrite app_nil_r in Hx. }
  assert (child ∈ l) as Hc by (apply Hin; [by eexists|done]).
  assert (parents_of db child = c_parents n) as Ep by (unfold parents_of; by rewrite Hn). rewrite Ep in Hct.
  pose proof (Inv_claim db L l [] [] child n I Hc Hn Hct) as I1. set (db1 := with_nodes _ db) in *.
  assert (forall c, root_count db1 c = root_count db c) as R1 by (intros; apply (only_root child); [apply only_insert|done]).
  destruct (decide (parent = emptyHash)) as [->|Hp0].
  - rewrite bool_decide_false by naive_solver. rewrite (sm_bind_ok _ _ _ db1 tt) by done.
    assert (d_nodes db1 !! emptyHash = Some p) as Hp1 by (unfold db1; simpl; by rewrite lookup_insert_ne).
    rewrite (update_node_run _ _ _ _ Hp1). destruct (reference_root db1 L l child p I1 Hp1) as [I2 R2]; [rewrite R1; auto|].
    eexists. split; [reflexivity|]. exists L. split_and!; [done|done|done| |by rewrite bool_decide_false by naive_solver].
    intros c. rewrite R2, R1, Hn. f_equal. case_bool_decide as E1; case_bool_decide as E2; naive_solver.
  - destruct (Hord Hp0) as (Hlen & Hrk & Hold & Hcd). assert (parent ∈ l) as Hpl by (apply Hin; [by eexists|done]).
    assert (child <> parent) as Hne by (intros ->; lia). destruct (c_children p !! child) as [k|] eqn:Ek.
    + rewrite bool_decide_true by eauto. exists db. split; [done|]. apply refers_node; try done. by eapply reference_again.
    + rewrite bool_decide_false by (intros [[] _]; done). rewrite (sm_bind_ok _ _ _ db1 tt) by done.
      assert (d_nodes db1 !! parent = Some p) as Hp1 by (unfold db1; simpl; by rewrite lookup_insert_ne).
      rewrite (update_node_run _ _ _ _ Hp1). rewrite Ek. change (u16 (default 0 None + 1)) with 1.
      eexists. split; [reflexivity|]. apply refers_node; try done; [|intros c; rewrite <- R1; apply (only_root parent); [apply only_insert|done]].
      apply Inv_refer; try done. intros l1 l2 El. destruct Hold as [Ho|?]; [left; by eapply older_order|by right].
Qed.
End invariant.
