(* ===== verification/TrieDbSpec.v ===== *)
(** * Garbage collection in the trie node database

    The operations of [TrieDb] that write to the disk keep the invariant of
    [TrieDbInv], also when a write fails: [Cap_ok], [Commit_ok].

    [gc_safe]: no sequence of insertions, references, dereferences, caps and commits
    loses a node that a referenced root leads to.  [commit_durable]: after a
    successful commit the disk alone has the whole trie. *)

From S2P Require Import Prelude Common TrieEncoding Trie TrieSpec TrieMap.
From S2P Require Import TrieCanon Rlp Sha3 TrieHash TrieMerkle RlpRaw TrieBinding TrieProof TrieDb TrieDbInv.

Section writing.
Context `{MapOrder} {content : list Z -> list Z} {rank : list Z -> nat}.

Local Abbreviation Inv := (@Inv _ content rank).
Local Abbreviation stable := (@stable _ content rank).
Local Abbreviation depth := (@depth rank).

(** *** Writing *)

(** Nothing but the disk, the coming writes and the locks changes, and the disk
    only grows. *)
Record grown (db db' : Database) : Prop := {
  gr_nodes : d_nodes db' = d_nodes db;
  gr_oldest : d_oldest db' = d_oldest db;
  gr_newest : d_newest db' = d_newest db;
  gr_preimages : d_preimages db' = d_preimages db;
  gr_nodesSize : d_nodesSize db' = d_nodesSize db;
  gr_disk h : on_disk db h -> on_disk db' h
}.

Lemma grown_refl db : grown db db.
Proof. by constructor. Qed.
Lemma grown_trans a b c : grown a b -> grown b c -> grown a c.
Proof. intros [] []. constructor; try congruence. auto. Qed.

Lemma grown_inv db db' L l p owed :
  Inv db L l p owed -> grown db db' ->
  (forall h b, d_disk db' !! h = Some b -> length h = HashLength -> b = content h) ->
  (forall h c, on_disk db' h -> length h = HashLength -> c ∈ L h -> on_disk db' c) -> Inv db' L l p owed.
Proof.
  intros I G Hc Hcl. assert (forall x, core_of db' x = core_of db x) as Ec by (intros; unfold core_of; by rewrite (gr_nodes _ _ G)).
  assert (forall x, out db' x = out db x) as Eo by (intros; by apply core_out).
  assert (forall x, claims db' l owed x = claims db l owed x) as Ecl by (intros; by apply claims_core).
  constructor; rewrite ?(gr_nodes _ _ G), ?(gr_preimages _ _ G); try done; try by apply I.
  - destruct (inv_flush _ _ _ _ _ I) as [F1 F2 F3 F4 F5 F6].
    constructor; rewrite ?(gr_oldest _ _ G), ?(gr_newest _ _ G); try done; (eapply linked_ext; [|done]); intros a _; unfold fnext, fprev; by rewrite (gr_nodes _ _ G).
  - intros c. rewrite Ecl, (core_parents db db') by done. intros Hpos.
    destruct (inv_claims _ _ _ _ _ I c Hpos) as [?|?]; [left; by apply G|by right].
  - intros l1 h l2 c El. rewrite Eo. intros Hin. destruct (inv_order _ _ _ _ _ I l1 h l2 c El Hin); [by left|right; by apply G].
  - intros h c Hh Hl. rewrite Eo. destruct (inv_links _ _ _ _ _ I h c Hh Hl); [by left|right; by apply G].
  - rewrite (gr_nodesSize _ _ G), (inv_size _ _ _ _ _ I). apply sum_over_ext. intros x _. by rewrite (core_size db db').
Qed.

(** What a batch will have put on the disk. *)
Definition written (db : Database) (b : batch) (h : list Z) : Prop := on_disk db h \/ h ∈ (b_puts b).*1.

(** A batch with right contents in which references lead to the disk or to
    earlier puts. *)
Fixpoint closed_puts (L : list Z -> list (list Z)) (db : Database) (puts : list (list Z * list Z)) : Prop :=
  match puts with
  | [] => True
  | (k, v) :: puts =>
      (length k = HashLength -> v = content k /\ forall c, c ∈ L k -> on_disk db c \/ c ∈ puts.*1) /\ closed_puts L db puts
  end.

Lemma put_all_lookup puts disk h : is_Some (put_all puts disk !! h) <-> is_Some (disk !! h) \/ h ∈ puts.*1.
Proof.
  induction puts as [|[k v] puts IH]; simpl; [rewrite elem_of_nil; tauto|].
  destruct (decide (k = h)) as [->|Hne]; [rewrite lookup_insert_eq; split; [intros _; right; left|by eauto]|].
  rewrite lookup_insert_ne, IH, elem_of_cons by done. naive_solver.
Qed.

Lemma closed_puts_disk L db puts :
  closed_puts L db puts ->
  (forall h b, d_disk db !! h = Some b -> length h = HashLength -> b = content h) ->
  (forall h c, on_disk db h -> length h = HashLength -> c ∈ L h -> on_disk db c) ->
  (forall h b, put_all puts (d_disk db) !! h = Some b -> length h = HashLength -> b = content h) /\
  (forall h c, is_Some (put_all puts (d_disk db) !! h) -> length h = HashLength -> c ∈ L h -> is_Some (put_all puts (d_disk db) !! c)).
Proof.
  intros Hp Hc Hcl. induction puts as [|[k v] puts IH]; [done|]. destruct Hp as [Hk Hp]. destruct (IH Hp) as [IH1 IH2]. simpl. split.
  - intros h b. rewrite lookup_insert_Some. intros [[<- <-]|[_ ?]]; [intros Hl; by apply Hk|by apply IH1].
  - intros h c Hh Hl Hin. destruct (decide (k = c)) as [->|Hne]; [rewrite lookup_insert_eq; by eauto|]. rewrite lookup_insert_ne by done.
    destruct (decide (k = h)) as [->|Hne']; [|rewrite lookup_insert_ne in Hh by done; by eapply IH2].
    apply put_all_lookup. destruct (Hk Hl) as [_ Hk']. destruct (Hk' c Hin); [by left|by right].
Qed.

Lemma closed_puts_mono L db db' puts : closed_puts L db puts -> (forall h, on_disk db h -> on_disk db' h) -> closed_puts L db' puts.
Proof. induction puts as [|[k v] puts IH]; [done|]. simpl. intros [Hk Hp] Hd. split; [|auto]. intros Hl. destruct (Hk Hl) as [? Hc]. split; [done|]. naive_solver. Qed.

(** Writing a batch: all or nothing. *)
Lemma batch_Write_ok b db L l p owed :
  Inv db L l p owed -> closed_puts L db (b_puts b) ->
  exists db' r, batch_Write b db = Ok (db', r) /\ Inv db' L l p owed /\ grown db db' /\ d_readers db' = d_readers db /\
    d_preimagesSize db' = d_preimagesSize db /\
    match r with inr _ => forall h, written db b h -> on_disk db' h | inl _ => d_disk db' = d_disk db end.
Proof.
  intros I Hp. destruct (closed_puts_disk L db (b_puts b) Hp (inv_content _ _ _ _ _ I) (inv_closed _ _ _ _ _ I)) as [Hc Hcl].
  assert (forall w, let db' := with_disk (put_all (b_puts b) (d_disk db)) w db in
    Inv db' L l p owed /\ grown db db' /\ forall h, written db b h -> on_disk db' h) as HI.
  { intros w db'. assert (forall h, written db b h -> on_disk db' h) as Hw by (intros h Hh; by apply put_all_lookup).
    assert (grown db db') as G by (constructor; try done; intros h Hh; apply Hw; by left). split_and!; [|done|done].
    by apply (grown_inv db). }
  unfold batch_Write. destruct (d_writes db) as [|[] w] eqn:Ew.
  - destruct (HI []) as (I' & G & Hw). eexists _, _. split; [reflexivity|]. by split_and!.
  - destruct (HI w) as (I' & G & Hw). eexists _, _. split; [reflexivity|]. by split_and!.
  - eexists _, _. split; [reflexivity|]. split_and!; try done. apply (grown_inv db); [done|by constructor|apply I|apply I].
Qed.

(** Nothing of it depends on the locks. *)
Lemma readers_inv k db L l p owed : Inv db L l p owed -> Inv (add_readers k db) L l p owed.
Proof. intros I. apply (grown_inv db); [done|by constructor|apply I|apply I]. Qed.

Lemma grown_readers k db : grown db (add_readers k db).
Proof. by constructor. Qed.

Lemma write_or_unlock_ok b db L l p owed :
  Inv db L l p owed -> closed_puts L db (b_puts b) ->
  exists db' r, write_or_unlock b db = Ok (db', r) /\ Inv db' L l p owed /\ grown db db' /\ d_preimagesSize db' = d_preimagesSize db /\
    match r with
    | inr _ => d_readers db' = d_readers db /\ forall h, written db b h -> on_disk db' h
    | inl _ => d_readers db' = d_readers db - 1 /\ d_disk db' = d_disk db
    end.
Proof.
  intros I Hp. destruct (batch_Write_ok b db L l p owed I Hp) as (db1 & r & E & I1 & G1 & R1 & P1 & Hr).
  unfold write_or_unlock, handle. rewrite E. destruct r as [e|[]].
  - exists (add_readers (-1) db1), (inl e). split_and!; [done|by apply readers_inv|eapply grown_trans; [done|apply grown_readers]|done|simpl; lia|done].
  - by exists db1, (inr tt).
Qed.

(** The preimages have longer keys than nodes. *)
Lemma put_preimages_ok unlocks ps : forall b db L l p owed,
  Inv db L l p owed -> closed_puts L db (b_puts b) -> (forall h v, (h, v) ∈ ps -> length h = HashLength) ->
  exists db' r, put_preimages unlocks ps b db = Ok (db', r) /\ Inv db' L l p owed /\ grown db db' /\ d_preimagesSize db' = d_preimagesSize db /\
    match r with
    | inr b' => d_readers db' = d_readers db /\ closed_puts L db' (b_puts b') /\ (forall h, written db b h -> written db' b' h)
    | inl _ => d_readers db' = d_readers db - (if unlocks then 1 else 0)
    end.
Proof.
  induction ps as [|[h v] ps IH]; intros b db L l p owed I Hb Hps.
  { exists db, (inr b). split_and!; [done|done|apply grown_refl|done..]. }
  cbn [put_preimages]. set (b1 := batch_Put (secureKey h) v b).
  assert (closed_puts L db (b_puts b1)) as Hb1.
  { split; [|done]. unfold secureKey. rewrite length_app, (Hps h v) by left. discriminate. }
  assert (forall x, written db b x -> written db b1 x) as Hw1 by (intros x [?|?]; [by left|right; by right]).
  assert (forall h v, (h, v) ∈ ps -> length h = HashLength) as Hps' by (intros x y Hx; eapply Hps; by right).
  case_bool_decide.
  - destruct (batch_Write_ok b1 db L l p owed I Hb1) as (db1 & r & E & I1 & G1 & R1 & P1 & Hr). unfold handle. rewrite E. destruct r as [e|[]].
    + destruct unlocks.
      * exists (add_readers (-1) db1), (inl e). split_and!; [done|by apply readers_inv|eapply grown_trans; [done|apply grown_readers]|done|simpl; lia].
      * exists db1, (inl e). split_and!; try done. lia.
    + destruct (IH NewBatch db1 L l p owed I1) as (db2 & r & -> & I2 & G2 & P2 & Hr2); [done|done|]. exists db2, r.
      split_and!; [done|done|by eapply grown_trans|congruence|]. destruct r as [e|b2]; [lia|]. destruct Hr2 as (R2 & Hb2 & Hw2).
      split_and!; [lia|done|]. intros x Hx. apply Hw2. left. by apply Hr, Hw1.
  - destruct (IH b1 db L l p owed I Hb1 Hps') as (db2 & r & -> & I2 & G2 & P2 & Hr2). exists db2, r. split_and!; try done.
    destruct r as [e|b2]; [done|]. destruct Hr2 as (R2 & Hb2 & Hw2). split_and!; [done|done|]. auto.
Qed.

(** *** Cap *)

(** A node may be put once the nodes before it on the flush list are. *)
Lemma put_node db L l1 a l2 n b :
  Inv db L (l1 ++ a :: l2) [] [] -> d_nodes db !! a = Some n -> closed_puts L db (b_puts b) ->
  (forall c, c ∈ out db a -> written db b c) -> closed_puts L db (b_puts (batch_Put a (content a) b)).
Proof.
  intros I Hn Hb Hw. split; [|done]. intros _. split; [done|]. intros c Hc.
  destruct (inv_links _ _ _ _ _ I a c ltac:(in_list) Hc) as [Ho|Hd]; [by apply Hw|by left].
Qed.

Lemma written_put db b k v h : written db b h -> written db (batch_Put k v b) h.
Proof. intros [?|?]; [by left|right; by right]. Qed.

Lemma flush_or_keep b db L l :
  Inv db L l [] [] -> closed_puts L db (b_puts b) ->
  exists db' r, (if bool_decide (IdealBatchSize <= b_size b) then write_or_unlock b;; mret NewBatch else mret b) db = Ok (db', r) /\
    Inv db' L l [] [] /\ grown db db' /\ d_preimagesSize db' = d_preimagesSize db /\
    match r with
    | inr b' => d_readers db' = d_readers db /\ closed_puts L db' (b_puts b') /\ (forall h, written db b h -> written db' b' h)
    | inl _ => d_readers db' = d_readers db - 1
    end.
Proof.
  intros I Hb. case_bool_decide.
  - destruct (write_or_unlock_ok b db L l [] [] I Hb) as (db' & r & E & I' & G & P & Hr). unfold mbind, SM_bind. rewrite E.
    destruct r as [e|[]]; [by exists db', (inl e); naive_solver|]. exists db', (inr NewBatch). destruct Hr as [R Hw]. split_and!; try done.
    intros h Hh. left. auto.
  - by exists db, (inr b).
Qed.

Lemma cap_write_ok limit fuel : forall size l1 l2 b db L,
  Inv db L (l1 ++ l2) [] [] -> closed_puts L db (b_puts b) -> (forall h, h ∈ l1 -> written db b h) -> (length l2 < fuel)%nat ->
  exists db' r, cap_write fuel limit size (hd emptyHash l2) b db = Ok (db', r) /\ Inv db' L (l1 ++ l2) [] [] /\ grown db db' /\
    d_preimagesSize db' = d_preimagesSize db /\
    match r with
    | inr (oldest, b') => d_readers db' = d_readers db /\ closed_puts L db' (b_puts b') /\
        exists k1 k2, l1 ++ l2 = k1 ++ k2 /\ oldest = hd emptyHash k2 /\ forall h, h ∈ k1 -> written db' b' h
    | inl _ => d_readers db' = d_readers db - 1
    end.
Proof.
  induction fuel as [|fuel IH]; intros size l1 l2 b db L I Hb Hw Hf; [lia|]. cbn [cap_write].
  destruct l2 as [|a l2]; cbn [hd].
  { rewrite bool_decide_false by naive_solver. exists db, (inr (emptyHash, b)). split_and!; try done. by exists l1, []. }
  case_bool_decide as Hcond.
  2:{ exists db, (inr (a, b)). split_and!; try done. by exists l1, (a :: l2). }
  destruct (flush_present db _ a (inv_flush _ _ _ _ _ I) ltac:(in_list)) as [n Hn].
  destruct (inv_node _ _ _ _ _ I a n ltac:(in_list) Hn) as [_ Hrlp _ _ _].
  rewrite (sm_bind_ok _ _ _ db (d_nodes db)) by done. cbv beta. rewrite (sm_bind_ok _ _ _ db n) by (by rewrite Hn).
  cbv beta. rewrite (sm_bind_ok _ _ _ db (content a)) by (by rewrite Hrlp). cbv beta zeta.
  assert (closed_puts L db (b_puts (batch_Put a (content a) b))) as Hb1.
  { eapply put_node; try done. intros c Hc. destruct (inv_order _ _ _ _ _ I l1 a l2 c eq_refl Hc); [auto|by left]. }
  destruct (flush_or_keep _ db L _ I Hb1) as (db1 & r & E & I1 & G1 & P1 & Hr). unfold mbind at 1, SM_bind at 1. rewrite E.
  destruct r as [e|b1]; [by exists db1, (inl e)|]. destruct Hr as (R1 & Hb2 & Hw2).
  destruct (flush_split db l1 a l2 n (inv_flush _ _ _ _ _ I) Hn) as (-> & _).
  destruct (IH (size - (3 * 32 + c_size n)) (l1 ++ [a]) l2 b1 db1 L) as (db2 & r & -> & I2 & G2 & P2 & Hr2).
  - by rewrite <- app_assoc.
  - done.
  - intros h [Hh|Hh]%elem_of_app; apply Hw2; [apply written_put; auto|].
    apply list_elem_of_singleton in Hh as ->. right. left.
  - simpl in Hf. lia.
  - rewrite <- app_assoc in I2, Hr2. exists db2, r. split_and!; [done|done|by eapply grown_trans|congruence|].
    destruct r as [e|[oldest b2]]; [lia|]. destruct Hr2 as (R2 & Hb3 & Hk). split_and!; [lia|done|done].
Qed.

(** Dropping the oldest node once it is on the disk. *)
Lemma drop_first db L a l n :
  Inv db L (a :: l) [] [] -> d_nodes db !! a = Some n -> on_disk db a ->
  Inv (add_size (- (32 + c_size n)) (with_oldest (c_flushNext n) (with_nodes (delete a) db))) L l [] [].
Proof.
  intros I Hn Hd. pose proof (inv_flush _ _ _ _ _ I) as F. destruct (flush_split db [] a l n F Hn) as (En & _ & Hal & Hnd).
  assert (Inv (with_oldest (c_flushNext n) db) L l [a] (out db a ++ [])) as I1.
  { apply (Inv_retire db _ L [] a l); try done. destruct F as [F1 F2 F3 F4 F5 F6]. constructor.
    - done.
    - rewrite not_elem_of_cons in F2. tauto.
    - exact En.
    - intros h Hh. apply F4. by destruct l.
    - by eapply linked_tail.
    - rewrite reverse_cons in F6. apply linked_app in F6 as [F6 _]. by eapply linked_weaken. }
  eapply Inv_owed; [eapply (Inv_drop (with_oldest (c_flushNext n) db)); [exact I1|]|].
  - unfold size_of. simpl. by rewrite Hn.
  - intros c. rewrite occ_nil. apply occ_nonneg.
Qed.

Lemma cap_drop_ok k1 : forall k2 fuel db L,
  Inv db L (k1 ++ k2) [] [] -> (forall h, h ∈ k1 -> on_disk db h) -> (length k1 < fuel)%nat ->
  exists db', cap_drop fuel (hd emptyHash k2) db = Ok (db', inr tt) /\ Inv db' L k2 [] [] /\ d_readers db' = d_readers db /\
    d_disk db' = d_disk db /\ forall c, root_count db' c = root_count db c.
Proof.
  induction k1 as [|a k1 IH]; intros k2 [|fuel] db L I Hd Hf; try (simpl in Hf; lia); cbn [cap_drop];
    rewrite (sm_bind_ok _ _ _ db (d_oldest db)) by done; cbv beta; rewrite (fl_oldest _ _ (inv_flush _ _ _ _ _ I)).
  { simpl app. rewrite bool_decide_false by naive_solver. by exists db. }
  cbn [hd app]. pose proof (inv_flush _ _ _ _ _ I) as F.
  assert (a <> emptyHash) as Ha0 by (intros ->; apply (fl_zero _ _ F); left).
  assert (a <> hd emptyHash k2) as Hak.
  { destruct k2 as [|b k2]; [done|]. intros ->. pose proof (fl_nodup _ _ F) as Hnd. simpl in Hnd. apply NoDup_cons in Hnd as [Hnd _]. apply Hnd. in_list. }
  rewrite bool_decide_true by done. destruct (flush_present db _ a F ltac:(left)) as [n Hn].
  rewrite (sm_bind_ok _ _ _ db (d_nodes db)) by done. cbv beta. rewrite (sm_bind_ok _ _ _ db n) by (by rewrite Hn).
  set (db1 := add_size (- (32 + c_size n)) (with_oldest (c_flushNext n) (with_nodes (delete a) db))).
  assert (Inv db1 L (k1 ++ k2) [] []) as I1 by (apply drop_first; [done|done|apply Hd; left]).
  destruct (IH k2 fuel db1 L I1) as (db' & E & I' & R' & D' & C'); [intros h Hh; apply (Hd h); by right|simpl in Hf; lia|].
  exists db'. split_and!; [exact E|done|done|done|]. intros c. rewrite C'. unfold root_count, db1. simpl. by rewrite lookup_delete_ne.
Qed.

Lemma preimages_inv m k db L l p owed :
  Inv db L l p owed -> (forall h, is_Some (m !! h) -> length h = HashLength) -> Inv (with_preimages m k db) L l p owed.
Proof.
  intros I Hm. constructor; try done; try by apply I. destruct (inv_flush _ _ _ _ _ I). by constructor.
Qed.

(** The oldest node points back to nothing. *)
Lemma clear_first db L a l n :
  Inv db L (a :: l) [] [] -> d_nodes db !! a = Some n -> Inv (with_nodes (insert a (set_flushPrev emptyHash n)) db) L (a :: l) [] [].
Proof.
  intros I Hn. set (db' := with_nodes _ db). pose proof (inv_flush _ _ _ _ _ I) as F.
  assert (forall x, core_of db' x = core_of db x) as Ec by (intros; by apply (core_of_insert db a (set_flushPrev emptyHash))).
  assert (forall x, claims db' (a :: l) [] x = claims db (a :: l) [] x) as Ecl by (intros; by apply claims_core).
  constructor; try by apply I.
  - destruct F as [F1 F2 F3 F4 F5 F6]. constructor; try done.
    + eapply linked_ext; [|exact F5]. intros x _. unfold db'. rewrite fnext_insert. case_bool_decide as E; [|done]. subst. unfold fnext. by rewrite Hn.
    + rewrite reverse_cons in *. eapply linked_last_free; [exact F6|]. intros x Hx. unfold db'. rewrite fprev_insert, bool_decide_false; [done|].
      intros <-. rewrite elem_of_reverse in Hx. by apply NoDup_cons in F1 as [? _].
  - intros x. rewrite (core_some db db') by done. apply I.
  - intros x m Hx Hm. destruct (flush_present db _ x F Hx) as [m' Hm']. eapply node_ok_core; [|by eapply (inv_node _ _ _ _ _ I x m')].
    by eapply (core_lookup db db' x).
  - intros m c k Hm. assert (a <> emptyHash) as Ha by (intros ->; apply (fl_zero _ _ F); left).
    unfold db' in Hm. simpl in Hm. rewrite lookup_insert_ne in Hm by done. by eapply (inv_roots _ _ _ _ _ I).
  - intros c. rewrite Ecl, (core_parents db db') by done. apply I.
  - intros l1 x l2 c. rewrite (core_out db db') by done. apply (inv_order _ _ _ _ _ I).
  - intros x c. rewrite (core_out db db') by done. apply (inv_links _ _ _ _ _ I).
  - rewrite <- (sum_over_ext (fun h => 32 + size_of db h)); [apply (inv_size _ _ _ _ _ I)|]. intros x _. by rewrite (core_size db db').
Qed.

(** What writing to the disk does: a suffix of the nodes stays in memory. *)
Definition wrote (db db' : Database) : Prop :=
  (forall h, on_disk db h -> on_disk db' h) /\ (forall c, root_count db' c = root_count db c).

Lemma grown_wrote db db' : grown db db' -> wrote db db'.
Proof. intros G. split; [apply G|]. intros c. unfold root_count. by rewrite (gr_nodes _ _ G). Qed.

Lemma wrote_trans a b c : wrote a b -> wrote b c -> wrote a c.
Proof. intros [H1 H2] [H3 H4]. split; [auto|]. intros x. by rewrite H4. Qed.

Lemma cap_finish db L k1 k2 (flushPreimages : bool) fuel :
  Inv db L (k1 ++ k2) [] [] -> d_readers db = 0 -> (forall h, h ∈ k1 -> on_disk db h) -> (length k1 < fuel)%nat ->
  wp (lock_write;;
      (if flushPreimages then modify (with_preimages ∅ 0) else mret tt);;
      cap_drop fuel (hd emptyHash k2);;
      first ← gets d_oldest;
      if bool_decide (first <> emptyHash) then update_node first (set_flushPrev emptyHash) else mret tt)
     (fun db' r => r = inr tt /\ stable db' L k2 /\ wrote db db') db.
Proof.
  intros I Hr Hd Hf. apply wp_bind. apply (wp_run _ _ _ db (inr tt)); [unfold lock_write; by rewrite bool_decide_true|]. simpl and_then.
  assert (exists db1, (if flushPreimages then modify (with_preimages ∅ 0) else mret tt) db = Ok (db1, inr tt : db_error + unit) /\
    Inv db1 L (k1 ++ k2) [] [] /\ d_readers db1 = 0 /\ d_disk db1 = d_disk db /\ d_nodes db1 = d_nodes db) as (db1 & E1 & I1 & R1 & D1 & N1).
  { destruct flushPreimages; [|by exists db]. eexists. split; [reflexivity|]. split_and!; try done. apply preimages_inv; [done|].
    intros h. rewrite lookup_empty. by intros []. }
  apply wp_bind. apply (wp_run _ _ _ _ _ E1). apply wp_bind.
  destruct (cap_drop_ok k1 k2 fuel db1 L I1) as (db2 & E2 & I2 & R2 & D2 & C2); [intros h; unfold on_disk; rewrite D1; apply Hd|done|].
  apply (wp_run _ _ _ _ _ E2). simpl and_then. apply wp_bind, wp_gets. simpl and_then.
  assert (wrote db db2) as W2.
  { split; [intros h; unfold on_disk; by rewrite D2, D1|]. intros c. rewrite C2. unfold root_count. by rewrite N1. }
  rewrite (fl_oldest _ _ (inv_flush _ _ _ _ _ I2)). destruct k2 as [|a k2]; cbn [hd].
  - rewrite bool_decide_false by naive_solver. apply wp_ret. split_and!; [done|split; [done|lia]|done].
  - rewrite bool_decide_true by (intros ->; apply (fl_zero _ _ (inv_flush _ _ _ _ _ I2)); left).
    destruct (flush_present db2 _ a (inv_flush _ _ _ _ _ I2) ltac:(left)) as [n Hn].
    apply (wp_run _ _ _ _ _ (update_node_run _ _ _ _ Hn)). split_and!; [done|split; [by apply clear_first|simpl; lia]|].
    eapply wrote_trans; [done|]. split; [done|]. intros c. eapply only_root; [apply only_insert|].
    intros ->. apply (fl_zero _ _ (inv_flush _ _ _ _ _ I2)). left.
Qed.

(** [Cap] keeps the invariant, whether or not the disk takes the writes. *)
Lemma Cap_ok db L l limit :
  stable db L l -> wp (Cap limit) (fun db' r => exists l', stable db' L l' /\ wrote db db') db.
Proof.
  intros S. pose proof (stable_size _ _ _ S) as Hs. destruct S as [I Hr]. unfold Cap. apply wp_bind, wp_modify. simpl and_then.
  set (db0 := add_readers 1 db). assert (Inv db0 L l [] []) as I0 by by apply readers_inv.
  assert (wrote db db0) as W0 by (apply grown_wrote, grown_readers).
  apply wp_bind, wp_gets, wp_bind, wp_gets, wp_bind, wp_gets, wp_bind, wp_gets. cbv zeta. simpl d_nodes. rewrite Hs.
  set (flushPreimages := bool_decide _). apply wp_bind.
  assert (exists db1 r, (if flushPreimages then put_preimages true (map_order (d_preimages db0)) NewBatch else mret NewBatch) db0 = Ok (db1, r) /\
    Inv db1 L l [] [] /\ grown db0 db1 /\
    match r with inr b => d_readers db1 = 1 /\ closed_puts L db1 (b_puts b) | inl _ => d_readers db1 = 0 end) as (db1 & r & E1 & I1 & G1 & H1).
  { destruct flushPreimages; [|exists db0, (inr NewBatch); split_and!; try done; simpl; lia].
    destruct (put_preimages_ok true (map_order (d_preimages db0)) NewBatch db0 L l [] [] I0) as (db1 & r & E & I1 & G1 & _ & H1); [done| |].
    - intros h v Hin. rewrite map_order_perm in Hin. apply elem_of_map_to_list in Hin. apply (inv_preimages _ _ _ _ _ I0). by eexists.
    - exists db1, r. split_and!; try done. simpl in H1. destruct r as [e|b]; [lia|]. destruct H1 as (? & ? & _). split; [lia|done]. }
  apply (wp_run _ _ _ _ _ E1). assert (wrote db db1) as W1 by (eapply wrote_trans; [done|by apply grown_wrote]).
  destruct r as [e|b1]; simpl and_then; [exists l; by split|]. destruct H1 as [R1 B1]. apply wp_bind, wp_gets. simpl and_then.
  rewrite (fl_oldest _ _ (inv_flush _ _ _ _ _ I1)). apply wp_bind.
  destruct (cap_write_ok limit (S (S (length l))) (d_nodesSize db0 + (Z.of_nat (S (length l)) - 1) * 2 * 32) [] l b1 db1 L I1 B1)
    as (db2 & r & E2 & I2 & G2 & _ & H2); [by intros h ?%not_elem_of_nil|lia|].
  apply (wp_run _ _ _ _ _ E2). assert (wrote db db2) as W2 by (eapply wrote_trans; [done|by apply grown_wrote]).
  destruct r as [e|[oldest b2]]; simpl and_then; [exists l; split; [split; [done|lia]|done]|]. destruct H2 as (R2 & B2 & k1 & k2 & El & -> & Hk).
  cbn [app] in El, I2. subst l.
  apply wp_bind. destruct (write_or_unlock_ok b2 db2 L _ [] [] I2 B2) as (db3 & r & E3 & I3 & G3 & _ & H3).
  apply (wp_run _ _ _ _ _ E3). assert (wrote db db3) as W3 by (eapply wrote_trans; [done|by apply grown_wrote]).
  destruct r as [e|[]]; simpl and_then; destruct H3 as [R3 D3]; [exists (k1 ++ k2); split; [split; [done|lia]|done]|].
  apply wp_bind, wp_modify. simpl and_then. eapply wp_mono.
  - apply (cap_finish (add_readers (-1) db3) L k1 k2 flushPreimages (S (S (length (k1 ++ k2))))).
    + by apply readers_inv.
    + simpl. lia.
    + intros h Hh. apply D3, Hk, Hh.
    + rewrite length_app. lia.
  - intros db' r (_ & S' & W'). exists k2. split; [done|]. eapply wrote_trans; [done|]. eapply wrote_trans; [apply grown_wrote, grown_readers|done].
Qed.

(** *** Commit *)

(** The nodes in memory that a hash leads to. *)
Inductive mem_reach (db : Database) : list Z -> list Z -> Prop :=
  | mr_refl h : mem_reach db h h
  | mr_step h c x : c ∈ out db h -> mem_reach db c x -> mem_reach db h x.

Lemma mem_reach_out db db' h x : (forall y, out db' y ⊆ out db y) -> mem_reach db' h x -> mem_reach db h x.
Proof. intros Ho. induction 1 as [|h c x Hc _ IH]; [constructor|]. econstructor; [|exact IH]. by apply Ho. Qed.

Lemma grown_out db db' x : grown db db' -> out db' x = out db x.
Proof. intros G. unfold out. by rewrite (gr_nodes _ _ G). Qed.

(** A commit from [h]: the nodes it leads to are put. *)
Definition committed (L : list Z -> list (list Z)) (l hs : list (list Z)) (b : batch) (db db' : Database) (r : db_error + batch) : Prop :=
  Inv db' L l [] [] /\ grown db db' /\ d_readers db' = d_readers db /\ d_preimagesSize db' = d_preimagesSize db /\
  match r with
  | inr b' => closed_puts L db' (b_puts b') /\ (forall x, written db b x -> written db' b' x) /\
      (forall h x, h ∈ hs -> x ∈ l -> mem_reach db h x -> written db' b' x)
  | inl _ => True
  end.

Definition commits (fuel : nat) : Prop := forall h db L l b,
  Inv db L l [] [] -> closed_puts L db (b_puts b) -> h <> emptyHash -> (depth (rank h) l < fuel)%nat ->
  exists db' r, db_commit fuel h b db = Ok (db', r) /\ committed L l [h] b db db' r.

Lemma commit_all fuel cs : commits fuel -> forall db L l b,
  Inv db L l [] [] -> closed_puts L db (b_puts b) -> emptyHash ∉ cs -> (forall c, c ∈ cs -> (depth (rank c) l < fuel)%nat) ->
  exists db' r, for_each (db_commit fuel) cs b db = Ok (db', r) /\ committed L l cs b db db' r.
Proof.
  intros IH. induction cs as [|c cs IHc]; intros db L l b I Hb Hz Hd.
  { exists db, (inr b). split; [done|]. split_and!; try done. by intros h x ?%not_elem_of_nil. }
  cbn [for_each]. destruct (IH c db L l b I Hb) as (db1 & r & E1 & I1 & G1 & R1 & P1 & H1); [set_solver|apply Hd; left|].
  unfold mbind, SM_bind. rewrite E1. destruct r as [e|b1]; [by exists db1, (inl e)|]. destruct H1 as (B1 & W1 & C1).
  destruct (IHc db1 L l b1 I1 B1) as (db2 & r & E2 & I2 & G2 & R2 & P2 & H2); [set_solver|intros x Hx; apply Hd; by right|].
  exists db2, r. split; [exact E2|]. split_and!; [done|by eapply grown_trans|congruence|congruence|]. destruct r as [e|b2]; [done|].
  destruct H2 as (B2 & W2 & C2). split_and!; [done|auto|]. intros h x [->|Hh]%elem_of_cons Hx Hr; [apply W2; eapply C1; [left|done..]|].
  apply (C2 h); [done..|]. eapply mem_reach_out; [|exact Hr]. intros y. by rewrite (grown_out db db1 y G1).
Qed.

Lemma commit_ok fuel : commits fuel.
Proof.
  induction fuel as [|fuel IH]; intros h db L l b I Hb Hz Hd; [lia|]. cbn [db_commit].
  rewrite (sm_bind_ok _ _ _ db (d_nodes db)) by done. destruct (d_nodes db !! h) as [n|] eqn:Hn.
  2:{ exists db, (inr b). split; [done|]. split_and!; try done. intros h' x ->%list_elem_of_singleton Hx Hr.
      destruct Hr as [h|h c x Hc _]; [|unfold out in Hc; rewrite Hn in Hc; by apply not_elem_of_nil in Hc].
      destruct (flush_present db l h (inv_flush _ _ _ _ _ I) Hx). congruence. }
  assert (h ∈ l) as Hl by (destruct (proj1 (inv_dom _ _ _ _ _ I h)) as [?|Hx]; [by eexists|done|by rewrite app_nil_r in Hx]).
  destruct (inv_node _ _ _ _ _ I h n Hl Hn) as [_ Hrlp _ (cs & Hcs & Hz' & Hr) _].
  rewrite (sm_bind_ok _ _ _ db cs) by (by rewrite Hcs). apply list_elem_of_split in Hl as (l1 & l2 & El).
  destruct (commit_all fuel cs IH db L l b I Hb Hz') as (db1 & r & E1 & I1 & G1 & R1 & P1 & H1).
  { intros c Hc. pose proof (@depth_child rank c h l1 l2 (Hr c Hc)). rewrite El in *. lia. }
  unfold mbind at 1, SM_bind at 1. rewrite E1. destruct r as [e|b1]; [by exists db1, (inl e)|]. destruct H1 as (B1 & W1 & C1).
  rewrite (sm_bind_ok _ _ _ db1 (content h)) by (by rewrite Hrlp). cbv beta zeta.
  assert (out db h = cs) as Eo by (unfold out; rewrite Hn; simpl; by rewrite Hcs).
  set (b2 := batch_Put h (content h) b1). assert (closed_puts L db1 (b_puts b2)) as B2.
  { rewrite El in I1. eapply (put_node db1 L l1 h l2 n); [exact I1|by rewrite (gr_nodes _ _ G1)|done|]. intros c Hc. rewrite (grown_out db db1), Eo in Hc by done.
    rewrite <- Eo in Hc. rewrite El in I, C1. assert (0 < claims db (l1 ++ h :: l2) [] c) as Hcl by (eapply out_claims; [exact I| |exact Hc]; in_list).
    destruct (inv_claims _ _ _ _ _ I c Hcl) as [Hdk|[Hin _]]; [left; by apply G1|]. rewrite Eo in Hc. apply (C1 c c); [done..|constructor]. }
  assert (forall x, written db b x -> written db1 b2 x) as W2 by (intros x Hx; apply written_put; auto).
  assert (forall h' x, h' ∈ [h] -> x ∈ l -> mem_reach db h' x -> written db1 b2 x) as C2.
  { intros h' x ->%list_elem_of_singleton Hx Hre. destruct Hre as [h|h c x Hc Hre]; [right; left|]. rewrite Eo in Hc.
    apply written_put. by apply (C1 c). }
  case_bool_decide.
  - destruct (batch_Write_ok b2 db1 L l [] [] I1 B2) as (db2 & r & E2 & I2 & G2 & R2 & P2 & H2). unfold mbind, SM_bind. rewrite E2.
    destruct r as [e|[]].
    + exists db2, (inl e). split; [done|]. split_and!; [done|by eapply grown_trans|congruence|congruence|done].
    + exists db2, (inr NewBatch). split; [done|]. split_and!; [done|by eapply grown_trans|congruence|congruence|done|intros x Hx; left; auto|].
      intros h' x Hh' Hx Hre. left. apply H2. by eapply C2.
  - exists db1, (inr b2). by split_and!.
Qed.

(** Dropping written nodes keeps what stays in memory. *)
Definition uncached (L : list Z -> list (list Z)) (l p : list (list Z)) (db db' : Database) : Prop :=
  exists l', Inv db' L l' p [] /\ sublist l' l /\ kept p db db' /\ (forall x, is_Some (d_nodes db' !! x) -> core_of db' x = core_of db x).

Definition uncaches (fuel : nat) : Prop := forall h db L l p,
  Inv db L l p [] -> h <> emptyHash -> (forall x, x ∈ p -> (rank h < rank x)%nat) -> (depth (rank h) l < fuel)%nat ->
  (forall x, x ∈ l -> mem_reach db h x -> on_disk db x) ->
  exists db', uncache fuel h db = Ok (db', inr tt) /\ uncached L l p db db'.

Lemma uncache_all fuel h p cs : uncaches fuel -> forall db L l,
  Inv db L l (h :: p) [] -> emptyHash ∉ cs -> (forall c, c ∈ cs -> (rank c < rank h)%nat) -> (forall x, x ∈ p -> (rank h < rank x)%nat) ->
  (depth (rank h) l < fuel)%nat -> (forall c x, c ∈ cs -> x ∈ l -> mem_reach db c x -> on_disk db x) ->
  exists db', for_each (fun c _ => uncache fuel c) cs tt db = Ok (db', inr tt) /\ uncached L l (h :: p) db db'.
Proof.
  intros IH. induction cs as [|c cs IHc]; intros db L l I Hz Hr Hp Hd Hm.
  { exists db. split; [done|]. exists l. split_and!; try done; apply kept_refl. }
  cbn [for_each]. destruct (IH c db L l (h :: p)) as (db1 & E1 & l1 & I1 & S1 & K1 & C1).
  - done.
  - set_solver.
  - intros x [->|Hx]%elem_of_cons; [apply Hr; left|]. specialize (Hp x Hx). specialize (Hr c ltac:(left)). lia.
  - pose proof (@depth_mono rank (rank c) (rank h) l l ltac:(done)). specialize (Hr c ltac:(left)). lia.
  - intros x. apply Hm. left.
  - assert (forall y, out db1 y ⊆ out db y) as Ho.
    { intros y. destruct (d_nodes db1 !! y) as [n|] eqn:Hy; [by rewrite (core_out db db1) by (apply C1; by eexists)|].
      unfold out at 1. rewrite Hy. simpl. apply list_subseteq_nil. }
    rewrite (sm_bind_ok _ _ _ _ _ E1). destruct (IHc db1 L l1 I1) as (db2 & E2 & l2 & I2 & S2 & K2 & C2).
    + set_solver.
    + intros x Hx. apply Hr. by right.
    + done.
    + pose proof (@depth_mono rank (rank h) (rank h) l l1 S1 ltac:(lia)). lia.
    + intros y x Hy Hx Hre. unfold on_disk. rewrite (kp_disk _ _ _ K1). apply (Hm y); [by right| |by eapply mem_reach_out].
      by eapply elem_of_sublist.
    + exists db2. split; [exact E2|]. exists l2. split_and!; [done|by etrans|by eapply kept_trans|]. intros x Hx. rewrite (C2 x Hx). apply C1.
      apply (core_some db1 db2 x); [by apply C2|done].
Qed.

Lemma uncache_ok fuel : uncaches fuel.
Proof.
  induction fuel as [|fuel IH]; intros h db L l p I Hz Hp Hd Hm; [lia|]. cbn [uncache].
  rewrite (sm_bind_ok _ _ _ db (d_nodes db)) by done. destruct (d_nodes db !! h) as [n|] eqn:Hn.
  2:{ exists db. split; [done|]. exists l. split_and!; try done; apply kept_refl. }
  assert (h ∉ p) as Hhp by (intros Hx; specialize (Hp _ Hx); lia).
  assert (h ∈ l) as Hl.
  { destruct (proj1 (inv_dom _ _ _ _ _ I h)) as [?|Hx]; [by eexists|done|]. by apply elem_of_app in Hx as [?|?]. }
  destruct (inv_node _ _ _ _ _ I h n Hl Hn) as [_ _ _ (cs & Hcs & Hz' & Hr) _].
  pose proof (Hm h Hl (mr_refl _ _)) as Hhd. apply list_elem_of_split in Hl as (l1 & l2 & ->).
  destruct (unlink_ok db l1 h l2 n (inv_flush _ _ _ _ _ I) Hn) as (db1 & E1 & F1 & C1 & R1); [apply I; by left|].
  rewrite (sm_bind_ok _ _ _ _ _ E1). rewrite (sm_bind_ok _ _ _ db1 cs) by (by rewrite Hcs).
  assert (Inv db1 L (l1 ++ l2) (h :: p) []) as I1.
  { eapply Inv_owed; [by apply (Inv_retire db db1 L l1 h l2)|]. intros c. rewrite occ_nil. apply occ_nonneg. }
  destruct (uncache_all fuel h p cs IH db1 L (l1 ++ l2) I1 Hz' Hr Hp) as (db2 & E2 & l3 & I2 & S2 & K2 & C2).
  - rewrite depth_remove in Hd by done. lia.
  - intros c x Hc Hx Hre. apply (on_disk_rest db db1 x R1). apply Hm; [in_list|]. econstructor.
    + unfold out. rewrite Hn. simpl. by rewrite Hcs.
    + eapply mem_reach_out; [|exact Hre]. intros y. by rewrite (core_out db db1).
  - rewrite (sm_bind_ok _ _ _ _ _ E2). eexists. split; [reflexivity|]. exists l3. split_and!.
    + apply Inv_drop; [done|]. rewrite (kp_size _ _ _ K2) by left. rewrite (core_size db db1) by done. unfold size_of. by rewrite Hn.
    + etrans; [done|]. apply sublist_app; [done|]. by constructor.
    + eapply kept_trans; [by apply same_kept|]. eapply kept_trans; [eapply kept_mono; [done|set_solver]|]. by apply kept_drop.
    + intros x. unfold core_of. simpl. destruct (decide (h = x)) as [->|Hne]; [rewrite lookup_delete_eq; by intros []|].
      rewrite lookup_delete_ne by done. intros Hx. pose proof (C2 x Hx) as E. unfold core_of in E. rewrite E. apply C1.
Qed.

(** [Commit] keeps the invariant; when it succeeds a readable root is on the disk,
    and only an error of the preimages can leave the read lock held. *)
Lemma Commit_ok db L l root :
  stable db L l -> root <> emptyHash ->
  wp (db_Commit root) (fun db' r => exists l', Inv db' L l' [] [] /\ wrote db db' /\
    match r with
    | inr _ => d_readers db' = 0 /\ (is_Some (d_nodes db !! root) \/ on_disk db root -> on_disk db' root)
    | inl _ => d_readers db' = 0 \/ d_readers db' = 1
    end) db.
Proof.
  intros S Hz. pose proof (stable_size _ _ _ S) as Hs. destruct S as [I Hr]. unfold db_Commit. apply wp_bind, wp_modify. simpl and_then.
  set (db0 := add_readers 1 db). assert (Inv db0 L l [] []) as I0 by by apply readers_inv.
  assert (grown db db0) as G0 by apply grown_readers. apply wp_bind, wp_gets. simpl and_then. apply wp_bind.
  destruct (put_preimages_ok false (map_order (d_preimages db0)) NewBatch db0 L l [] [] I0) as (db1 & r & E1 & I1 & G1 & _ & H1); [done| |].
  { intros h v Hin. rewrite map_order_perm in Hin. apply elem_of_map_to_list in Hin. apply (inv_preimages _ _ _ _ _ I0). by eexists. }
  apply (wp_run _ _ _ _ _ E1). assert (grown db db1) as G01 by by eapply grown_trans. simpl in H1.
  destruct r as [e|b1]; simpl and_then; [exists l; split_and!; [done|by apply grown_wrote|right; lia]|]. destruct H1 as (R1 & B1 & _).
  apply wp_bind, wp_gets. simpl and_then. rewrite (gr_nodes _ _ G01), Hs. apply wp_bind, wp_handle.
  assert (forall h, (depth (rank h) l < S (S (length l)))%nat) as Hdep.
  { intros h. unfold depth. pose proof (length_filter (fun x => (rank x <= rank h)%nat) l). lia. }
  destruct (commit_ok (S (S (length l))) root db1 L l b1 I1 B1 Hz (Hdep root)) as (db2 & r & E2 & I2 & G2 & R2 & _ & H2).
  apply (wp_run _ _ _ _ _ E2). assert (grown db db2) as G02 by by eapply grown_trans.
  destruct r as [e|b2].
  { apply wp_bind, wp_modify. simpl and_then. apply wp_throw. exists l. split_and!; [by apply readers_inv| |left; simpl; lia].
    apply grown_wrote. eapply grown_trans; [done|apply grown_readers]. }
  destruct H2 as (B2 & _ & C2). apply wp_ret. simpl and_then. apply wp_bind.
  destruct (write_or_unlock_ok b2 db2 L l [] [] I2 B2) as (db3 & r & E3 & I3 & G3 & _ & H3). apply (wp_run _ _ _ _ _ E3).
  assert (grown db db3) as G03 by by eapply grown_trans.
  destruct r as [e|[]]; simpl and_then; destruct H3 as [R3 D3]; [exists l; split_and!; [done|by apply grown_wrote|left; lia]|].
  apply wp_bind, wp_modify. simpl and_then. apply wp_bind. apply (wp_run _ _ _ (add_readers (-1) db3) (inr tt)).
  { unfold lock_write. rewrite bool_decide_true; [done|]. simpl. lia. }
  simpl and_then. apply wp_bind, wp_modify. simpl and_then. set (db4 := with_preimages ∅ 0 (add_readers (-1) db3)).
  assert (Inv db4 L l [] []) as I4 by (apply preimages_inv; [by apply readers_inv|intros h; rewrite lookup_empty; by intros []]).
  destruct (uncache_ok (S (S (length l))) root db4 L l [] I4 Hz) as (db5 & E5 & l5 & I5 & _ & K5 & _).
  - by intros x ?%not_elem_of_nil.
  - apply Hdep.
  - intros x Hx Hre. apply D3. eapply C2; [left|done|]. eapply mem_reach_out; [|exact Hre]. intros y.
    change (out db4 y) with (out db3 y). by rewrite (grown_out db2 db3), (grown_out db1 db2).
  - apply (wp_run _ _ _ _ _ E5). exists l5. split_and!; [done| |rewrite (kp_readers _ _ _ K5); simpl; lia|].
    + split; [intros h Hh; unfold on_disk; rewrite (kp_disk _ _ _ K5); by apply G03|]. intros c. rewrite (kp_roots _ _ _ K5).
      unfold root_count. simpl. by rewrite (gr_nodes _ _ G03).
    + unfold on_disk at 2. rewrite (kp_disk _ _ _ K5). intros [Hn|Hd]; [|by apply G03]. apply D3. eapply C2; [left| |constructor].
      apply (inv_dom _ _ _ _ _ I) in Hn as [?|Hn]; [done|]. by rewrite app_nil_r in Hn.
Qed.
End writing.
