(* ===== verification/TrieDbGc.v ===== *)
(** * Garbage collection in the trie node database

    Sequences of operations on [TrieDb.Database], as the trie, the state and the
    chain make them, with what they mean beside them: the references there are
    between nodes and the roots that are held.

    [gc_safe]: no sequence of insertions, references, dereferences, caps and commits
    that keeps to the contract of the callers loses a node that a held root leads to,
    whichever writes fail.
    [commit_durable]: a commit that succeeds leaves the whole trie on the disk, and it
    succeeds if the disk takes the writes.  [parents_overflow], [commit_lock_leak] and
    [size_drift] are what the 16-bit counts and an error path do. *)

From S2P Require Import Prelude Common TrieEncoding Trie TrieSpec TrieMap.
From S2P Require Import TrieCanon Rlp Sha3 TrieHash TrieMerkle RlpRaw TrieBinding TrieProof TrieDb TrieDbInv TrieDbSpec.

(** ** Operations *)

(** [OpInsert] is the insertion of [hasher.store] and [InsertBlob], [OpPreimage] the
    one of [SecureTrie.Commit]. *)
Inductive db_op : Type :=
  | OpInsert (hash blob : list Z) (n : node + list Z)
  | OpPreimage (hash preimage : list Z)
  | OpReference (child parent : list Z)
  | OpDereference (root : list Z)
  | OpCap (limit : Z)
  | OpCommit (root : list Z).

(** What the operations mean: the references of a node, and how often a root is held. *)
Record ghost := mkGhost { g_links : list Z -> list (list Z); g_held : list Z -> Z }.

(** The hashes in a node that is inserted. *)
Definition node_refs (n : node + list Z) : list (list Z) :=
  match n with inl n => default [] (simplifyNode n ≫= gatherChildren) | inr _ => [] end.

Definition ghost_after (op : db_op) (db : Database) (g : ghost) : ghost :=
  match op with
  | OpInsert h _ n =>
      if bool_decide (d_nodes db !! h = None) then mkGhost (link_new db (g_links g) h (node_refs n)) (g_held g) else g
  | OpReference c p =>
      if bool_decide (p = emptyHash) then mkGhost (g_links g) (fun x => g_held g x + (if bool_decide (x = c) then 1 else 0))
      else if bool_decide (is_Some (d_nodes db !! c)) then mkGhost (link_ref (g_links g) c p) (g_held g) else g
  | OpDereference r => mkGhost (g_links g) (fun x => if bool_decide (x = r) then Z.max 0 (g_held g r - 1) else g_held g x)
  | OpPreimage _ _ | OpCap _ | OpCommit _ => g
  end.

(** The hashes that a hash leads to. *)
Inductive leads (L : list Z -> list (list Z)) : list Z -> list Z -> Prop :=
  | leads_refl h : leads L h h
  | leads_step h c x : c ∈ L h -> leads L c x -> leads L h x.

Section machine.
Context `{MapOrder} (content : list Z -> list Z) (rank : list Z -> nat).

Definition run_op (op : db_op) : DB unit :=
  match op with
  | OpInsert h blob n => lock_write;; db_insert h blob n
  | OpPreimage h p => lock_write;; insertPreimage h p
  | OpReference c p => Reference c p
  | OpDereference r => Dereference r
  | OpCap limit => Cap limit
  | OpCommit r => db_Commit r
  end.

(** A node that can be read. *)
Definition known (db : Database) (h : list Z) : Prop := is_Some (d_nodes db !! h) \/ on_disk db h.

(** What the callers keep to: a node is inserted after the nodes it refers to, under
    the hash of its content; what is referenced can be read, what is released is held;
    no count overflows; and no lock is held. *)
Definition legal (op : db_op) (db : Database) (g : ghost) : Prop :=
  d_readers db = 0 /\
  match op with
  | OpInsert h blob n => d_nodes db !! h = None -> @insertable _ content rank db h blob n (node_refs n)
  | OpPreimage h _ => length h = HashLength
  | OpReference c p => (is_Some (d_nodes db !! c) -> @referable rank db c p) /\ (p = emptyHash -> known db c)
  | OpDereference r => r <> emptyHash /\ (0 < g_held g r \/ on_disk db r \/ d_nodes db !! r = None)
  | OpCap _ => True
  | OpCommit r => r <> emptyHash
  end.

Fixpoint db_run (ops : list db_op) (db : Database) (g : ghost) : outcome Empty_set (Database * ghost) :=
  match ops with
  | [] => Ok (db, g)
  | op :: ops => '(db', _) ← run_op op db; db_run ops db' (ghost_after op db g)
  end.

Fixpoint legal_run (ops : list db_op) (db : Database) (g : ghost) : Prop :=
  match ops with
  | [] => True
  | op :: ops =>
      legal op db g /\ forall db' r, run_op op db = Ok (db', r) -> legal_run ops db' (ghost_after op db g)
  end.

(** A disk that has what the hashes on it lead to. *)
Record disk_ok (disk : gmap (list Z) (list Z)) (L : list Z -> list (list Z)) : Prop := {
  dk_content h b : disk !! h = Some b -> length h = HashLength -> b = content h;
  dk_closed h c : is_Some (disk !! h) -> length h = HashLength -> c ∈ L h -> is_Some (disk !! c);
  dk_length h c : c ∈ L h -> length c = HashLength
}.

Definition no_roots (L : list Z -> list (list Z)) : ghost := mkGhost L (fun _ => 0).

(** ** Every operation keeps the invariant *)

Local Abbreviation Inv := (@Inv _ content rank).

Record tracked (db : Database) (g : ghost) (l : list (list Z)) : Prop := {
  tk_inv : Inv db (g_links g) l [] [];
  tk_nonneg c : 0 <= g_held g c;
  tk_held c : g_held g c <= root_count db c \/ on_disk db c
}.

Lemma new_tracked disk ws L : disk_ok disk L -> tracked (NewDatabase disk ws) (no_roots L) [].
Proof.
  intros [Dc Dl Dn]. assert (forall c, root_count (NewDatabase disk ws) c = 0) as Hr.
  { intros c. unfold root_count. cbn [NewDatabase d_nodes]. rewrite lookup_singleton_eq. cbn [mbind option_bind c_children metaroot].
    by rewrite lookup_empty. }
  split; [|simpl; lia|intros c; left; rewrite Hr; simpl; lia]. constructor.
  - constructor; [constructor|apply not_elem_of_nil|done|done|done|done].
  - constructor.
  - apply not_elem_of_nil.
  - intros h. cbn [NewDatabase d_nodes app]. rewrite lookup_singleton, elem_of_nil. case_decide; split; naive_solver.
  - by intros h n ?%not_elem_of_nil.
  - intros n c k. cbn [NewDatabase d_nodes]. rewrite lookup_singleton_eq. intros [= <-]. simpl. by rewrite lookup_empty.
  - intros c. unfold claims. rewrite Hr, occ_nil. simpl. lia.
  - by intros [|??].
  - done.
  - done.
  - by intros h c ?%not_elem_of_nil.
  - done.
  - done.
  - intros h. cbn [NewDatabase d_preimages]. rewrite lookup_empty. by intros [].
Qed.

(** The counts of held roots after an operation that adds [k c] to the root counts. *)
Lemma tracked_after db db' g g' l l' :
  tracked db g l -> Inv db' (g_links g') l' [] [] -> (forall h, on_disk db h -> on_disk db' h) ->
  (forall c, 0 <= g_held g' c) ->
  (forall c, g_held g c <= root_count db c -> ~ on_disk db' c -> g_held g' c <= root_count db' c) -> tracked db' g' l'.
Proof.
  intros [_ _ Hh] I Hd Hn Hc. split; [done|done|]. intros c. destruct (decide (on_disk db' c)) as [?|Hnd]; [by right|left].
  destruct (Hh c) as [?|?]; [by apply Hc|]. by destruct Hnd; apply Hd.
Qed.

Lemma tracked_same db db' g l l' :
  tracked db g l -> Inv db' (g_links g) l' [] [] -> wrote db db' -> tracked db' g l'.
Proof.
  intros T I [Hd Hr]. eapply tracked_after; [exact T|done|done|apply T|]. intros c Hc _. by rewrite Hr.
Qed.

Lemma referable_readers db c p k : @referable rank db c p -> @referable rank (add_readers k db) c p.
Proof.
  intros [Hz Hp Hc Hr Ho]. constructor; try done. intros Hp0. destruct (Ho Hp0) as (? & ? & Hold & ?). split_and!; try done.
  destruct Hold as [(a & b & d & [])|?]; [left; exists a, b, d; by constructor|by right].
Qed.

Lemma lock_write_ok db : d_readers db = 0 -> lock_write db = Ok (db, inr tt).
Proof. intros Hr. unfold lock_write. by rewrite bool_decide_true. Qed.

Definition keeps (op : db_op) : Prop := forall db g l,
  tracked db g l -> legal op db g -> wp (run_op op) (fun db' _ => exists l', tracked db' (ghost_after op db g) l') db.

(** An insertion appends the node to the flush list, if it is new. *)
Lemma insert_tracked h blob n db g l :
  tracked db g l -> legal (OpInsert h blob n) db g ->
  exists db', run_op (OpInsert h blob n) db = Ok (db', inr tt) /\ d_disk db' = d_disk db /\ d_readers db' = 0 /\
    (forall c, parents_of db' c <= parents_of db c + occ c (node_refs n)) /\
    tracked db' (ghost_after (OpInsert h blob n) db g) (if bool_decide (d_nodes db !! h = None) then l ++ [h] else l).
Proof.
  intros T [Hr Hi]. pose proof (tk_inv _ _ _ T) as I.
  destruct (insert_ok db (g_links g) l h blob n (node_refs n) (conj I Hr) Hi) as (db' & L' & l' & E & [I' Hr'] & Hd & Hc & -> & -> & Hp).
  exists db'. split_and!; [|done|done|done|].
  { cbn [run_op]. by rewrite (sm_bind_ok _ _ _ _ _ (lock_write_ok db Hr)). }
  assert (forall x, on_disk db x -> on_disk db' x) as Hdisk by (intros x; unfold on_disk; by rewrite Hd).
  simpl ghost_after. case_bool_decide; eapply tracked_after; try exact T; try done; try apply T; intros c ? _; by rewrite Hc.
Qed.

Lemma insert_keeps h blob n : keeps (OpInsert h blob n).
Proof.
  intros db g l T Hl. destruct (insert_tracked h blob n db g l T Hl) as (db' & E & _ & _ & _ & T'). apply (wp_run _ _ _ _ _ E). by eexists.
Qed.

Lemma preimage_keeps h p : keeps (OpPreimage h p).
Proof.
  intros db g l T [Hr Hl]. simpl run_op. apply wp_bind, (wp_run _ _ _ _ _ (lock_write_ok db Hr)). simpl and_then.
  apply wp_bind, wp_gets, wp_bind, wp_gets. destruct (d_preimages db !! h) as [q|] eqn:E; [apply wp_ret; by exists l|].
  apply wp_modify. exists l. eapply tracked_same; [exact T| |by split]. apply preimages_inv; [apply T|].
  intros x [y Hy]. apply lookup_insert_Some in Hy as [[<- _]|[_ Hy]]; [done|]. eapply (inv_preimages _ _ _ _ _ (tk_inv _ _ _ T)). by eexists.
Qed.

Lemma reference_keeps c p : keeps (OpReference c p).
Proof.
  intros db g l T (Hr & Hf & Hk). pose proof (tk_inv _ _ _ T) as I. simpl run_op. apply wp_bind, wp_modify. simpl and_then.
  destruct (@reference_ok _ content rank (add_readers 1 db) (g_links g) l c p) as (db' & E & L' & I' & _ & Hd & Hc & EL).
  { by apply readers_inv. }
  { intros Hx. apply referable_readers. by apply Hf. }
  apply wp_bind, (wp_run _ _ _ _ _ E). simpl and_then. apply wp_modify. exists l. apply (readers_inv (-1)) in I'. subst L'.
  change (d_nodes (add_readers 1 db)) with (d_nodes db) in *. change (d_disk (add_readers 1 db)) with (d_disk db) in *.
  eapply (tracked_after db _ g); [exact T| |intros x; unfold on_disk; simpl; by rewrite Hd| |].
  - simpl ghost_after. destruct (decide (p = emptyHash)) as [->|Hp].
    + rewrite bool_decide_true by done. rewrite bool_decide_false in I' by naive_solver. done.
    + rewrite (bool_decide_false (p = emptyHash)) by done. case_bool_decide; case_bool_decide; naive_solver.
  - intros x. simpl ghost_after. pose proof (tk_nonneg _ _ _ T x). repeat case_bool_decide; simpl; repeat case_bool_decide; try done; lia.
  - intros x Hx Hnd. change (root_count (add_readers (-1) db') x) with (root_count db' x). rewrite Hc.
    change (root_count (add_readers 1 db) x) with (root_count db x). simpl ghost_after.
    destruct (decide (p = emptyHash)) as [->|Hp]; [rewrite bool_decide_true by done|rewrite (bool_decide_false (p = emptyHash)) by done].
    + simpl. destruct (decide (x = c)) as [->|Hne].
      * rewrite (bool_decide_true (c = c)) by done. rewrite bool_decide_true; [lia|]. split_and!; try done.
        destruct (Hk eq_refl) as [?|Hx']; [done|]. destruct Hnd. unfold on_disk. simpl. by rewrite Hd.
      * rewrite !bool_decide_false by naive_solver. lia.
    + rewrite (bool_decide_false (_ /\ _)) by naive_solver. repeat case_bool_decide; simpl; lia.
Qed.

Lemma dereference_keeps r : keeps (OpDereference r).
Proof.
  intros db g l T (Hr & Hz & Hk). pose proof (tk_inv _ _ _ T) as I.
  destruct (Dereference_ok db (g_links g) l r (conj I Hr) Hz) as (db' & l' & E & [I' _] & _ & Hd & Hc).
  { destruct Hk as [Hk|?]; [|by right]. destruct (tk_held _ _ _ T r) as [?|?]; [left; lia|right; by left]. }
  simpl run_op. apply (wp_run _ _ _ _ _ E). exists l'. pose proof (tk_nonneg _ _ _ T).
  eapply tracked_after; [exact T|done|intros x; unfold on_disk; by rewrite Hd| |].
  - intros x. simpl. case_bool_decide; [lia|done].
  - intros x Hx _. rewrite Hc. simpl. case_bool_decide; subst; lia.
Qed.

Lemma write_keeps op : (exists limit, op = OpCap limit) \/ (exists r, op = OpCommit r) -> keeps op.
Proof.
  intros Hop db g l T [Hr Hl]. pose proof (tk_inv _ _ _ T) as I. destruct Hop as [[limit ->]|[r ->]]; simpl run_op.
  - eapply wp_mono; [by apply (@Cap_ok _ content rank db (g_links g) l)|]. intros db' ? (l' & [I' _] & W). exists l'. by eapply tracked_same.
  - eapply wp_mono; [by apply (@Commit_ok _ content rank db (g_links g) l)|]. intros db' ? (l' & I' & W & _). exists l'. by eapply tracked_same.
Qed.

Lemma op_keeps op : keeps op.
Proof.
  destruct op; eauto using insert_keeps, preimage_keeps, reference_keeps, dereference_keeps, write_keeps.
Qed.

Lemma run_keeps ops : forall db g l, tracked db g l -> legal_run ops db g ->
  exists db' g' l', db_run ops db g = Ok (db', g') /\ tracked db' g' l'.
Proof.
  induction ops as [|op ops IH]; intros db g l T Hl; [by exists db, g, l|]. destruct Hl as [Hl Hn].
  pose proof (op_keeps op db g l T Hl) as Hw. unfold wp in Hw. cbn [db_run].
  destruct (run_op op db) as [[db1 r]| | |] eqn:E; try done. destruct Hw as [l1 T1]. destruct (IH _ _ _ T1 (Hn _ _ eq_refl)) as (db' & g' & l' & E' & T').
  exists db', g', l'. split; [|done]. simpl. exact E'.
Qed.

(** ** What can be read *)

Lemma leads_known db L l h x :
  Inv db L l [] [] -> leads L h x -> length h = HashLength -> h ∈ l \/ on_disk db h -> length x = HashLength /\ (x ∈ l \/ on_disk db x).
Proof.
  intros I Hx. induction Hx as [h|h c x Hc Hx IH]; intros Hl Hh; [done|]. apply IH; [by eapply inv_length|].
  destruct Hh as [Hh|Hh]; [|right; by eapply (inv_closed _ _ _ _ _ I)]. destruct (inv_links _ _ _ _ _ I h c Hh Hc) as [Ho|?]; [|by right].
  destruct (inv_claims _ _ _ _ _ I c) as [?|[? _]]; [by eapply out_claims|by right|by left].
Qed.

Lemma read_unlocked db : add_readers (-1) (add_readers 1 db) = db.
Proof. destruct db. unfold add_readers. simpl. f_equal. lia. Qed.

Lemma db_Node_run db x :
  db_Node x db = match d_nodes db !! x with
                 | Some n => match cached_rlp n with Some b => Ok (db, inr b) | None => Panic end
                 | None => match d_disk db !! x with Some b => Ok (db, inr b) | None => Ok (db, inl ErrNotFound) end
                 end.
Proof.
  unfold db_Node. rewrite (sm_bind_ok _ _ _ (add_readers 1 db) tt) by done. rewrite (sm_bind_ok _ _ _ _ (d_nodes db)) by done.
  rewrite (sm_bind_ok _ _ _ db tt) by (unfold runlock, modify; by rewrite read_unlocked).
  destruct (d_nodes db !! x) as [n|]; [by destruct (cached_rlp n)|]. unfold gets, mbind, SM_bind. by destruct (d_disk db !! x).
Qed.

Lemma known_read db L l x :
  Inv db L l [] [] -> length x = HashLength -> x <> emptyHash -> x ∈ l \/ on_disk db x -> db_Node x db = Ok (db, inr (content x)).
Proof.
  intros I Hl Hz Hx. rewrite db_Node_run. destruct (d_nodes db !! x) as [n|] eqn:En.
  - destruct (proj1 (inv_dom _ _ _ _ _ I x)) as [?|Hin]; [by eexists|done|]. rewrite app_nil_r in Hin.
    by rewrite (nd_rlp _ _ (inv_node _ _ _ _ _ I x n Hin En)).
  - destruct Hx as [Hx|[b Hb]]; [destruct (flush_present db l x (inv_flush _ _ _ _ _ I) Hx); congruence|].
    by rewrite Hb, (inv_content _ _ _ _ _ I x b).
Qed.

Lemma tracked_root db g l root : tracked db g l -> 0 < g_held g root -> root ∈ l \/ on_disk db root.
Proof.
  intros T Hr. destruct (tk_held _ _ _ T root) as [Hc|?]; [|by right].
  destruct (inv_claims _ _ _ _ _ (tk_inv _ _ _ T) root) as [?|[? _]]; [|by right|by left].
  pose proof (claims_parts _ _ _ _ _ root (tk_inv _ _ _ T)). unfold claims. lia.
Qed.
End machine.

(** ** A disk that takes the writes *)

(** Without a failing write the operation returns no error. *)
Definition calm {A} (m : DB A) : Prop := forall db, false ∉ d_writes db ->
  match m db with Ok (db', r) => false ∉ d_writes db' /\ exists a, r = inr a | _ => True end.

Lemma calm_ret {A} (a : A) : calm (mret a).
Proof. intros db Hw. split; [done|by exists a]. Qed.
Lemma calm_gets {A} (f : Database -> A) : calm (gets f).
Proof. intros db Hw. split; [done|by eexists]. Qed.
Lemma calm_modify f : (forall db, d_writes (f db) = d_writes db) -> calm (modify f).
Proof. intros Hf db Hw. split; [by rewrite Hf|by exists tt]. Qed.
Lemma calm_must {A} (o : option A) : calm (must o).
Proof. destruct o; [apply calm_ret|done]. Qed.
Lemma calm_fuel {A} : calm (A := A) (fun _ => OutOfFuel).
Proof. done. Qed.
Lemma calm_bind {A B} (m : DB A) (f : A -> DB B) : calm m -> (forall a, calm (f a)) -> calm (m ≫= f).
Proof.
  intros Hm Hf db Hw. specialize (Hm db Hw). unfold mbind, SM_bind. destruct (m db) as [[db1 r]| | |]; try done.
  destruct Hm as [Hw1 [a ->]]. by apply Hf.
Qed.
Lemma calm_handle {A B} (m : DB A) (k : db_error + A -> DB B) : calm m -> (forall a, calm (k (inr a))) -> calm (handle m k).
Proof.
  intros Hm Hk db Hw. specialize (Hm db Hw). unfold handle. destruct (m db) as [[db1 r]| | |]; try done.
  destruct Hm as [Hw1 [a ->]]. by apply Hk.
Qed.
Lemma calm_write b : calm (batch_Write b).
Proof.
  intros db Hw. unfold batch_Write. destruct (d_writes db) as [|[] w]; [split; [done|by exists tt]| |by destruct Hw; left].
  apply not_elem_of_cons in Hw as [_ Hw]. split; [done|by exists tt].
Qed.
Lemma calm_lock : calm lock_write.
Proof. intros db Hw. unfold lock_write. case_bool_decide; [|done]. split; [done|by exists tt]. Qed.

Create HintDb calm discriminated.

Ltac calm_step :=
  first
    [ solve [auto 2 with calm] | apply calm_ret | apply calm_gets | apply calm_must | apply calm_write | apply calm_lock | apply calm_fuel
    | apply calm_modify; done
    | apply calm_bind; [|intros] | apply calm_handle; [|intros]
    | match goal with |- calm (if ?b then _ else _) => destruct b end
    | match goal with |- calm (match ?o with Some _ => _ | None => _ end) => destruct o end ].
Ltac calm := repeat calm_step.

Section calm_operations.
Context `{MapOrder}.

Lemma calm_for_each {B} (f : list Z -> B -> DB B) cs : (forall c b, calm (f c b)) -> forall b, calm (for_each f cs b).
Proof. intros Hf. induction cs as [|c cs IH]; intros b; cbn [for_each]; calm; auto. Qed.
#[local] Hint Resolve calm_for_each : calm.

Lemma calm_update h f : calm (update_node h f).
Proof. unfold update_node. calm. Qed.
#[local] Hint Resolve calm_update : calm.

Lemma calm_unlink h n : calm (unlink h n).
Proof. unfold unlink. calm. Qed.
#[local] Hint Resolve calm_unlink : calm.

Lemma calm_preimages unlocks ps : forall b, calm (put_preimages unlocks ps b).
Proof. induction ps as [|[h v] ps IH]; intros b; cbn [put_preimages]; calm; auto. Qed.
#[local] Hint Resolve calm_preimages : calm.

Lemma calm_commit fuel : forall h b, calm (db_commit fuel h b).
Proof. induction fuel as [|fuel IH]; intros h b; cbn [db_commit]; calm. Qed.
#[local] Hint Resolve calm_commit : calm.

Lemma calm_uncache fuel : forall h, calm (uncache fuel h).
Proof. induction fuel as [|fuel IH]; intros h; cbn [uncache]; unfold drop_node; calm. Qed.
#[local] Hint Resolve calm_uncache : calm.

Lemma calm_Commit root : calm (db_Commit root).
Proof.
  unfold db_Commit, rlock, runlock, write_or_unlock. calm.
Qed.
End calm_operations.

(** ** The 16-bit counts and the error path *)

Section limits.
Context `{MapOrder}.

Lemma map_order_empty {A} : map_order (A := A) ∅ = [].
Proof. apply Permutation_nil_r. by rewrite map_order_perm, map_to_list_empty. Qed.

Lemma map_order_singleton {A} h (a : A) : map_order {[h := a]} = [(h, a)].
Proof. apply Permutation_singleton_r. by rewrite map_order_perm, map_to_list_singleton. Qed.

Context (ws : list bool).

(** The blob [blob] in the cache with [j] references from the metaroot. *)
Definition blob_node (blob : list Z) (parents : Z) : cachedNode :=
  mkCached (RawNode blob) (u16 (Z.of_nat (length blob))) parents ∅ emptyHash emptyHash.

Definition blob_db (h blob : list Z) (parents : Z) (children : gmap (list Z) Z) : Database :=
  mkDatabase (<[h := blob_node blob parents]> {[emptyHash := set_children children metaroot]}) h h ∅
    (u16 (32 + u16 (Z.of_nat (length blob)))) 0 ∅ ws 0.

Context (h blob : list Z) (Hz : h <> emptyHash).

Lemma blob_insert_run : run_op (OpInsert h blob (inr blob)) (NewDatabase ∅ ws) = Ok (blob_db h blob 0 ∅, inr tt).
Proof.
  cbn [run_op]. rewrite (sm_bind_ok _ _ _ (NewDatabase ∅ ws) tt) by done. unfold db_insert.
  rewrite (sm_bind_ok _ _ _ (NewDatabase ∅ ws) (d_nodes (NewDatabase ∅ ws))) by done. cbn [NewDatabase d_nodes].
  rewrite lookup_singleton_ne by done. rewrite (sm_bind_ok _ _ _ (NewDatabase ∅ ws) emptyHash) by done.
  rewrite (sm_bind_ok _ _ _ (NewDatabase ∅ ws) (RawNode blob)) by done. cbv zeta.
  rewrite (sm_bind_ok _ _ _ (NewDatabase ∅ ws) []) by (unfold childs; cbn [c_node c_children]; by rewrite map_order_empty).
  done.
Qed.

Lemma blob_reference_run parents children :
  run_op (OpReference h emptyHash) (blob_db h blob parents children) =
    Ok (blob_db h blob (u16 (parents + 1)) (<[h := u16 (default 0 (children !! h) + 1)]> children), inr tt).
Proof.
  cbn [run_op]. unfold Reference. set (db := blob_db h blob parents children).
  rewrite (sm_bind_ok _ _ _ (add_readers 1 db) tt) by done. set (c1 := <[h := u16 (default 0 (children !! h) + 1)]> children).
  rewrite (sm_bind_ok _ _ _ (add_readers 1 (blob_db h blob (u16 (parents + 1)) c1)) tt); [done|].
  unfold db_reference. rewrite (sm_bind_ok _ _ _ (add_readers 1 db) (d_nodes db)) by done.
  assert (d_nodes db !! h = Some (blob_node blob parents)) as -> by (simpl; by rewrite lookup_insert_eq).
  set (m := set_children children metaroot). assert (d_nodes db !! emptyHash = Some m) as Hm.
  { simpl. by rewrite lookup_insert_ne, lookup_singleton_eq by done. }
  rewrite (sm_bind_ok _ _ _ (add_readers 1 db) m) by (by rewrite Hm). rewrite bool_decide_false by naive_solver.
  set (db1 := with_nodes (insert h (blob_node blob (u16 (parents + 1)))) (add_readers 1 db)).
  rewrite (sm_bind_ok _ _ _ db1 tt) by done. rewrite (update_node_run emptyHash _ db1 m) by (simpl; by rewrite lookup_insert_ne).
  unfold db1, db, blob_db, with_nodes, add_readers. cbn [d_nodes d_oldest d_newest d_preimages d_nodesSize d_preimagesSize d_disk d_writes d_readers].
  rewrite insert_insert_eq, insert_insert_ne, insert_singleton_eq by done. done.
Qed.

(** Releasing the blob when its count is 0 or 1 drops it. *)
Lemma blob_dereference_run parents children :
  parents = 0 \/ parents = 1 ->
  exists ch, run_op (OpDereference h) (blob_db h blob parents children) =
    Ok (mkDatabase {[emptyHash := set_children ch metaroot]} emptyHash h ∅
          (u16 (32 + u16 (Z.of_nat (length blob))) - (32 + u16 (Z.of_nat (length blob)))) 0 ∅ ws 0, inr tt).
Proof.
  intros Hp. cbn [run_op]. unfold Dereference. rewrite bool_decide_false by done. set (db := blob_db h blob parents children).
  rewrite (sm_bind_ok _ _ _ db tt) by done. rewrite (sm_bind_ok _ _ _ db (d_nodes db)) by done. generalize (size (d_nodes db)). intros fuel.
  cbn [db_dereference]. set (m := release_count h (set_children children metaroot)).
  assert (exists ch, m = set_children ch metaroot) as [ch Em].
  { unfold m, release_count. case_bool_decide; [|by eexists]. by eexists. }
  exists ch. rewrite (sm_bind_ok _ _ _ (with_nodes (insert emptyHash m) db) tt).
  2:{ unfold release_child. apply (update_node_run emptyHash (release_count h)). simpl. by rewrite lookup_insert_ne, lookup_singleton_eq by done. }
  rewrite Em. replace (with_nodes (insert emptyHash (set_children ch metaroot)) db) with (blob_db h blob parents ch).
  2:{ unfold db, blob_db, with_nodes. simpl. f_equal. by rewrite insert_insert_ne, insert_singleton_eq by done. }
  clear db m Em. set (db := blob_db h blob parents ch). rewrite (sm_bind_ok _ _ _ db (d_nodes db)) by done.
  assert (d_nodes db !! h = Some (blob_node blob parents)) as -> by (simpl; by rewrite lookup_insert_eq). cbv zeta.
  replace (if bool_decide (0 < c_parents (blob_node blob parents)) then _ else _) with (blob_node blob 0) by (by destruct Hp as [-> | ->]).
  set (db1 := blob_db h blob 0 ch). rewrite (sm_bind_ok _ _ _ db1 tt).
  2:{ unfold modify, db, db1, blob_db, with_nodes. simpl. by rewrite insert_insert_eq. }
  rewrite bool_decide_true by done. assert (d_nodes db1 !! emptyHash = Some (set_children ch metaroot)) as Hm.
  { simpl. by rewrite lookup_insert_ne, lookup_singleton_eq by done. }
  rewrite (sm_bind_ok _ _ _ (with_oldest emptyHash db1) tt).
  2:{ unfold unlink. rewrite (sm_bind_ok _ _ _ db1 h) by done. rewrite (sm_bind_ok _ _ _ db1 h) by done. rewrite bool_decide_true by done.
      rewrite (sm_bind_ok _ _ _ (with_oldest emptyHash db1) tt) by done. cbn [c_flushNext blob_node]. rewrite (update_node_run emptyHash _ (with_oldest emptyHash db1) _ Hm).
      unfold with_nodes. simpl. do 3 f_equal. by rewrite insert_insert_ne, insert_singleton_eq by done. }
  rewrite (sm_bind_ok _ _ _ (with_oldest emptyHash db1) []) by (unfold childs; cbn [c_node c_children blob_node]; by rewrite map_order_empty).
  rewrite (sm_bind_ok _ _ _ (with_oldest emptyHash db1) tt) by done. unfold drop_node.
  rewrite (sm_bind_ok _ _ _ (with_nodes (delete h) (with_oldest emptyHash db1)) tt) by done.
  unfold modify, add_size, with_nodes. simpl. do 4 f_equal. rewrite delete_insert_eq, delete_id; [done|]. by rewrite lookup_singleton_ne.
Qed.

Lemma blob_references_run k rest : forall j children g, exists children' g',
  db_run (replicate k (OpReference h emptyHash) ++ rest) (blob_db h blob (u16 j) children) g =
    db_run rest (blob_db h blob (u16 (j + Z.of_nat k)) children') g' /\ g_held g' h = g_held g h + Z.of_nat k.
Proof.
  induction k as [|k IH]; intros j children g.
  { exists children, g. rewrite !Z.add_0_r. done. }
  cbn [replicate app db_run]. rewrite blob_reference_run. cbn [mbind outcome_bind].
  assert (u16 (u16 j + 1) = u16 (j + 1)) as -> by apply Zplus_mod_idemp_l.
  destruct (IH (j + 1) (<[h := u16 (default 0 (children !! h) + 1)]> children) (ghost_after (OpReference h emptyHash) (blob_db h blob (u16 j) children) g))
    as (ch & g' & E & Eh). exists ch, g'. rewrite E, Eh. cbn [ghost_after].
  rewrite (bool_decide_true (emptyHash = emptyHash)) by done. cbn [g_held]. rewrite bool_decide_true by done. split; [do 3 f_equal|]; lia.
Qed.
End limits.
(** ** The theorems *)

(** C9: safety.  From any disk that is closed under references, every sequence of
    insertions, references, dereferences, caps, commits and preimages runs without a panic
    or a hang, whichever of the batch writes fail, and afterwards everything that a held
    root leads to can be read with its content.  The sequence keeps to the contract
    [legal_run]: a node is inserted after the nodes it refers to and under the hash of its
    content, what is referenced can be read, what is released is held, the 16-bit counts
    and sizes do not overflow, and no operation is made once a failed commit has left the
    read lock taken. *)
Theorem gc_safe `{MapOrder} content rank disk ws L ops :
  disk_ok content disk L -> legal_run content rank ops (NewDatabase disk ws) (no_roots L) ->
  exists db g, db_run ops (NewDatabase disk ws) (no_roots L) = Ok (db, g) /\
    forall root x, 0 < g_held g root -> length root = HashLength -> leads (g_links g) root x -> x <> emptyHash ->
      db_Node x db = Ok (db, inr (content x)).
Proof.
  intros Hd Hl. destruct (run_keeps content rank ops _ _ _ (new_tracked content rank disk ws L Hd) Hl) as (db & g & l & E & T).
  exists db, g. split; [done|]. intros root x Hh Hlen Hx Hz.
  destruct (leads_known content rank _ _ _ _ _ (tk_inv _ _ _ _ _ T) Hx Hlen (tracked_root _ _ _ _ _ _ T Hh)).
  by eapply known_read; [apply T|..].
Qed.

(** C16: liveness.  After any such sequence, whichever of its writes failed, if no lock
    is left, [Commit] of a root that is held returns.  It succeeds if none of the writes
    still to come fails; and when it succeeds, a database opened on the disk alone reads
    everything the root leads to. *)
Theorem commit_durable `{MapOrder} content rank disk ws L ops db g root :
  disk_ok content disk L -> legal_run content rank ops (NewDatabase disk ws) (no_roots L) ->
  db_run ops (NewDatabase disk ws) (no_roots L) = Ok (db, g) -> d_readers db = 0 -> root <> emptyHash ->
  0 < g_held g root -> length root = HashLength ->
  exists db' r, db_Commit root db = Ok (db', r) /\ (false ∉ d_writes db -> r = inr tt) /\
    (r = inr tt -> forall ws' x, leads (g_links g) root x -> x <> emptyHash ->
       let db'' := NewDatabase (d_disk db') ws' in db_Node x db'' = Ok (db'', inr (content x))).
Proof.
  intros Hd Hl Hrun Hr Hz Hh Hlen. destruct (run_keeps content rank ops _ _ _ (new_tracked content rank disk ws L Hd) Hl) as (db1 & g1 & l & E & T).
  rewrite Hrun in E. injection E as <- <-. pose proof (tk_inv _ _ _ _ _ T) as I.
  pose proof (@Commit_ok _ content rank db _ l root (conj I Hr) Hz) as Hc. pose proof (calm_Commit root db) as Hcalm.
  unfold wp in Hc. destruct (db_Commit root db) as [[db' r]| | |]; try done. destruct Hc as (l' & I' & _ & Hres).
  exists db', r. split_and!; [done|by intros Hw; destruct (Hcalm Hw) as [_ [[] ->]]|]. intros -> ws' x Hx Hxz. destruct Hres as [_ Hroot].
  assert (on_disk db' root) as Hdr.
  { apply Hroot. destruct (tracked_root _ _ _ _ _ _ T Hh) as [Hin|?]; [left|by right]. apply (inv_dom _ _ _ _ _ I). right. by rewrite app_nil_r. }
  assert (length x = HashLength /\ on_disk db' x) as [Hxl [b Hb]].
  { clear - I' Hx Hlen Hdr. induction Hx as [h|h c x Hc Hx IH]; [done|]. apply IH; [by eapply inv_length|by eapply (inv_closed _ _ _ _ _ I')]. }
  cbv zeta. rewrite db_Node_run. simpl. rewrite lookup_singleton_ne by done. by rewrite Hb, (inv_content _ _ _ _ _ I' x b).
Qed.

Lemma overflow_run `{MapOrder} ws h blob k :
  h <> emptyHash -> Z.of_nat k = 65536 ->
  exists db g, db_run (OpInsert h blob (inr blob) :: replicate k (OpReference h emptyHash) ++ [OpDereference h])
      (NewDatabase ∅ ws) (no_roots (fun _ => [])) = Ok (db, g) /\
    g_held g h = 65535 /\ db_Node h db = Ok (db, inl ErrNotFound).
Proof.
  intros Hz Hk. cbn [db_run]. rewrite blob_insert_run by done. cbn [mbind outcome_bind].
  set (g0 := ghost_after _ _ _). assert (g_held g0 h = 0) as Hg0 by (unfold g0; simpl; by case_bool_decide).
  destruct (blob_references_run ws h blob Hz k [OpDereference h] 0 ∅ g0) as (ch & g & E & Hg).
  change (u16 0) with 0 in E. rewrite E. rewrite Hk in *. change (u16 (0 + 65536)) with 0. cbn [db_run].
  destruct (blob_dereference_run ws h blob Hz 0 ch) as [ch' ->]; [by left|]. cbn [mbind outcome_bind]. eexists _, _. split; [reflexivity|].
  split; [simpl; rewrite bool_decide_true by done; lia|]. rewrite db_Node_run. cbn [d_nodes]. by rewrite lookup_singleton_ne.
Qed.

(** C40: bounds.  [parents] and the counts of the metaroot have 16 bits: after 65536
    references to a blob, releasing one of them drops the blob, with 65535 still held. *)
Theorem parents_overflow `{MapOrder} ws h blob :
  h <> emptyHash ->
  exists db g, db_run (OpInsert h blob (inr blob) :: replicate (Z.to_nat 65536) (OpReference h emptyHash) ++ [OpDereference h])
      (NewDatabase ∅ ws) (no_roots (fun _ => [])) = Ok (db, g) /\
    g_held g h = 65535 /\ db_Node h db = Ok (db, inl ErrNotFound).
Proof. intros Hz. apply overflow_run; [done|]. rewrite Z2Nat.id; lia. Qed.

(** [insert] adds the size in 16 bits and the removal subtracts it in full: a blob of
    65504 to 65535 bytes leaves the size of the empty cache 65536 too small. *)
Lemma size_drift `{MapOrder} ws h blob :
  h <> emptyHash -> 65504 <= Z.of_nat (length blob) < 65536 ->
  exists db g, db_run [OpInsert h blob (inr blob); OpReference h emptyHash; OpDereference h] (NewDatabase ∅ ws) (no_roots (fun _ => [])) = Ok (db, g) /\
    dom (d_nodes db) = {[emptyHash]} /\ d_nodesSize db = -65536.
Proof.
  intros Hz Hb. cbn [db_run]. rewrite blob_insert_run by done. cbn [mbind outcome_bind]. rewrite blob_reference_run by done. cbn [mbind outcome_bind].
  change (u16 (0 + 1)) with 1. destruct (blob_dereference_run ws h blob Hz 1 (<[h := u16 (default 0 ((∅ : gmap (list Z) Z) !! h) + 1)]> ∅)) as [ch ->]; [by right|].
  cbn [mbind outcome_bind]. eexists _, _. split; [reflexivity|]. cbn [d_nodes d_nodesSize]. split; [by rewrite dom_singleton_L|].
  rewrite (wrapU_small 16 (Z.of_nat _)) by lia. unfold wrapU. change (2 ^ 16) with 65536.
  rewrite <- (Z_mod_plus_full _ (-1)), Z.mod_small; lia.
Qed.

(** When the write of a batch of preimages fails, [Commit] returns the
    error with the read lock held, and every later insertion waits for ever. *)
Theorem commit_lock_leak `{MapOrder} h p root :
  IdealBatchSize < Z.of_nat (length p) ->
  exists db db', run_op (OpPreimage h p) (NewDatabase ∅ [false]) = Ok (db, inr tt) /\
    run_op (OpCommit root) db = Ok (db', inl ErrWrite) /\ forall hash blob n, run_op (OpInsert hash blob n) db' = OutOfFuel.
Proof.
  intros Hp. set (db0 := NewDatabase ∅ [false]). eexists _, _. split_and!.
  - cbn [run_op]. rewrite (sm_bind_ok _ _ _ db0 tt) by done. unfold insertPreimage. rewrite (sm_bind_ok _ _ _ db0 ∅) by done. rewrite (sm_bind_ok _ _ _ db0 0) by done. rewrite lookup_empty. reflexivity.
  - cbn [run_op]. unfold db_Commit. rewrite (sm_bind_ok _ _ _ _ tt eq_refl). rewrite (sm_bind_ok _ _ _ _ _ eq_refl). cbn [with_preimages d_preimages add_readers].
    rewrite insert_empty, map_order_singleton. cbn [put_preimages]. unfold mbind at 1, SM_bind at 1. rewrite bool_decide_true; [reflexivity|].
    simpl. lia.
  - intros hash blob n. done.
Qed.

(** ** Witnesses *)

Definition list_order : MapOrder := {| map_order A m := map_to_list m; map_order_perm A m := reflexivity (map_to_list m) |}.

Definition example_hash : list Z := replicate 32 1.
Definition example_blob : list Z := [7].
Definition example_content : list Z -> list Z := fun _ => example_blob.
Definition example_rank : list Z -> nat := fun _ => 0%nat.
Definition example_ops : list db_op := [OpInsert example_hash example_blob (inr example_blob); OpReference example_hash emptyHash].

Lemma example_nonzero : example_hash <> emptyHash.
Proof. done. Qed.

Lemma example_disk : disk_ok example_content ∅ (fun _ => []).
Proof.
  constructor; [intros h b; by rewrite lookup_empty|intros h c; rewrite lookup_empty; by intros []|by intros h c ?%not_elem_of_nil].
Qed.

Lemma example_insertable `{MapOrder} ws :
  @insertable _ example_content example_rank (NewDatabase ∅ ws) example_hash example_blob (inr example_blob) [].
Proof.
  constructor; [done|done|done| |by intros c ?%not_elem_of_nil|].
  - exists (RawNode example_blob). split; [done|]. intros size prev next. split; [done|]. unfold childs. cbn [c_node c_children].
    rewrite map_order_empty. split; [done|]. intros gen x Hx. unfold cached_obj, mustDecodeNode. cbn [c_node].
    change (decodeNode (Some example_hash) example_blob gen = Ok x) in Hx. by rewrite Hx.
  - intros c. unfold parents_of. cbn [NewDatabase d_nodes]. rewrite lookup_singleton, occ_nil. by case_decide.
Qed.

Lemma example_run `{MapOrder} ws : exists g,
  db_run example_ops (NewDatabase ∅ ws) (no_roots (fun _ => [])) = Ok (blob_db ws example_hash example_blob 1 {[example_hash := 1]}, g) /\
  g_held g example_hash = 1.
Proof.
  unfold example_ops. cbn [db_run]. rewrite blob_insert_run by done. cbn [mbind outcome_bind]. rewrite blob_reference_run by done.
  cbn [mbind outcome_bind]. rewrite insert_empty. eexists. split; [reflexivity|]. cbn [ghost_after].
  rewrite (bool_decide_true (emptyHash = emptyHash)) by done. cbn [g_held]. rewrite bool_decide_true by done.
  case_bool_decide; done.
Qed.

Lemma example_referable ws : @referable example_rank (blob_db ws example_hash example_blob 0 ∅) example_hash emptyHash.
Proof.
  constructor; [done| | |intros _|done].
  - unfold blob_db. cbn [d_nodes]. rewrite lookup_insert_ne, lookup_singleton_eq by done. by eexists.
  - unfold parents_of, blob_db. cbn [d_nodes]. by rewrite lookup_insert_eq.
  - unfold root_count, blob_db. cbn [d_nodes]. rewrite lookup_insert_ne, lookup_singleton_eq by done. cbn [mbind option_bind c_children set_children].
    by rewrite lookup_empty.
Qed.

Lemma example_legal `{MapOrder} ws rest g' :
  (forall g, legal_run example_content example_rank rest (blob_db ws example_hash example_blob 1 {[example_hash := 1]}) g) ->
  legal_run example_content example_rank (example_ops ++ rest) (NewDatabase ∅ ws) g'.
Proof.
  intros Hrest. cbn [example_ops app legal_run]. split; [split; [done|]; intros _; apply example_insertable|]. intros db1 r1.
  rewrite blob_insert_run by done. intros [= <- <-]. split; [split; [done|split]|].
  - intros _. apply example_referable.
  - intros _. left. unfold blob_db. cbn [d_nodes]. rewrite lookup_insert_eq. by eexists.
  - intros db2 r2. rewrite blob_reference_run by done. intros [= <- <-]. rewrite insert_empty. apply Hrest.
Qed.

Lemma gc_safe_witness :
  exists db g, @db_run list_order (example_ops ++ [OpCap 0]) (NewDatabase ∅ [false]) (no_roots (fun _ => [])) = Ok (db, g) /\
    forall root x, 0 < g_held g root -> length root = HashLength -> leads (g_links g) root x -> x <> emptyHash ->
      db_Node x db = Ok (db, inr (example_content x)).
Proof.
  apply (@gc_safe list_order example_content example_rank ∅ [false] (fun _ => []) (example_ops ++ [OpCap 0]) example_disk).
  apply example_legal. intros g. split; [done|]. done.
Defined.

Lemma commit_durable_witness :
  exists db' r, @db_Commit list_order example_hash (blob_db [false] example_hash example_blob 1 {[example_hash := 1]}) = Ok (db', r) /\
    (r = inr tt -> let db'' := NewDatabase (d_disk db') [] in db_Node example_hash db'' = Ok (db'', inr example_blob)).
Proof.
  destruct (@example_run list_order [false]) as (g & E & Hg).
  destruct (@commit_durable list_order example_content example_rank ∅ [false] (fun _ => []) example_ops
    (blob_db [false] example_hash example_blob 1 {[example_hash := 1]}) g example_hash example_disk) as (db' & r & Ec & Hw & Hr).
  - rewrite <- (app_nil_r example_ops). by apply example_legal.
  - exact E.
  - reflexivity.
  - exact example_nonzero.
  - rewrite Hg. lia.
  - reflexivity.
  - exists db', r. split; [exact Ec|]. intros Er. apply (Hr Er []); [apply leads_refl|exact example_nonzero].
Defined.

Lemma parents_overflow_witness : exists db g,
  @db_run list_order (OpInsert example_hash example_blob (inr example_blob) :: replicate (Z.to_nat 65536) (OpReference example_hash emptyHash) ++ [OpDereference example_hash])
      (NewDatabase ∅ [false]) (no_roots (fun _ => [])) = Ok (db, g) /\
    g_held g example_hash = 65535 /\ db_Node example_hash db = Ok (db, inl ErrNotFound).
Proof. exact (@parents_overflow list_order [false] example_hash example_blob example_nonzero). Defined.

Lemma commit_lock_leak_witness : exists db db',
  @run_op list_order (OpPreimage example_hash (replicate (Z.to_nat 102401) 0)) (NewDatabase ∅ [false]) = Ok (db, inr tt) /\
    @run_op list_order (OpCommit example_hash) db = Ok (db', inl ErrWrite) /\ forall hash blob n, @run_op list_order (OpInsert hash blob n) db' = OutOfFuel.
Proof.
  apply (@commit_lock_leak list_order example_hash (replicate (Z.to_nat 102401) 0) example_hash).
  rewrite length_replicate, Z2Nat.id; [reflexivity|lia].
Defined.
