(* ===== verification/TrieStore.v ===== *)
(** * Committing a trie to a node store

    [Trie.Commit] collapses a trie into a root hash and a list of nodes to be stored.
    This file shows what a store must do with them: in every store that keeps what it
    has and adds the nodes, the collapsed root stands for the trie, and so does the
    trie that stays in memory, with its clean nodes unloaded ([hash_commit]).  The
    nodes come in an order in which every node is preceded by the nodes it refers to
    ([ordered]). *)

From S2P Require Import Prelude Common TrieEncoding Trie TrieSpec TrieMap.
From S2P Require Import TrieCanon Rlp Sha3 TrieHash TrieMerkle RlpRaw TrieBinding TrieProof.

Abbreviation node_store := (list Z -> Z -> option node).

(** ** Larger stores *)

Definition extends (d d' : node_store) : Prop := forall h g n, d h g = Some n -> d' h g = Some n.

(** What is stored does not depend on the generation but for the flags. *)
Definition uniform (d : node_store) : Prop :=
  forall h g n g', d h g = Some n -> exists n', d h g' = Some n' /\ erase n' = erase n.

Section extension.
Context (d d' : node_store) (Hext : extends d d') (g : Z).

Lemma has_extends n k v : has d g n k v -> has d' g n k v.
Proof. induction 1; eauto using has. Qed.

Lemma branch_extends n : branch d g n -> branch d' g n.
Proof. destruct 1; eauto using branch. Qed.

Lemma wf_extends n : wf d g n -> wf d' g n.
Proof.
  induction 1 as [k v f Hk Hv|k c f Hk Hne Hb Hw IH|ch f Hl Hc IH H16 H2|h n Hr Hh Hw IH].
  - by apply wf_leaf.
  - apply wf_ext; auto using branch_extends.
  - by apply wf_full.
  - by eapply wf_hash; [apply Hext| |].
Qed.

Lemma has_extended n k v : wf_slot d g n -> has d' g n k v -> has d g n k v.
Proof.
  intros Hw Hh. induction Hh as [v|k c f k' v Hh IH|ch f i c k' v Hi Hh IH|h n k v Hr Hh IH].
  - constructor.
  - constructor. apply IH. destruct Hw as [?|[?|Hw]]; try done. inversion Hw; subst; [by right; left|by right; right].
  - econstructor; [done|]. apply IH. destruct Hw as [?|[?|Hw]]; try done. by eapply wf_full_slot.
  - destruct Hw as [?|[?|Hw]]; try done. inversion Hw as [| | |? n' Hr' Hn Hw']; subst. pose proof (Hext _ _ _ Hr') as E.
    rewrite Hr in E. injection E as ->. eapply has_hash; [done|]. apply IH. by right; right.
Qed.

Lemma has_extends_iff n k v : wf_slot d g n -> has d' g n k v <-> has d g n k v.
Proof. intros Hw. split; [by apply has_extended|apply has_extends]. Qed.
End extension.

(** ** Other generations *)

Section generations.
Context (d : node_store) (Hu : uniform d).

Lemma has_gen g g' n k v : has d g n k v -> has d g' n k v.
Proof.
  induction 1 as [v|k c f k' v Hh IH|ch f i c k' v Hi Hh IH|h n k v Hr Hh IH]; eauto using has.
  destruct (Hu _ _ _ g' Hr) as (n' & Hr' & E). apply (has_hash d g' h n'); [done|]. by rewrite <- has_erase, E, has_erase.
Qed.

Lemma branch_gen g g' n : branch d g n -> branch d g' n.
Proof.
  destruct 1 as [ch f|h ch f Hr]; [constructor|]. destruct (Hu _ _ _ g' Hr) as (n' & Hr' & E). destruct n'; try discriminate E.
  by econstructor.
Qed.

Lemma wf_gen g g' n : wf d g n -> wf d g' n.
Proof.
  induction 1 as [k v f Hk Hv|k c f Hk Hne Hb Hw IH|ch f Hl Hc IH H16 H2|h n Hr Hh Hw IH].
  - by apply wf_leaf.
  - apply wf_ext; eauto using branch_gen.
  - by apply wf_full.
  - destruct (Hu _ _ _ g' Hr) as (n' & Hr' & E). apply (wf_hash d g' h n'); [done| |].
    + destruct n; try done; destruct n'; done.
    + apply wf_unerase. rewrite E. by apply wf_erase.
Qed.

Lemma represents_gen t t' m : root t = root t' -> represents d t m -> represents d t' m.
Proof.
  intros E [W K Hh]. constructor; [|done|].
  - rewrite <- E. destruct W as [?|W]; [by left|right]. by eapply wf_gen.
  - intros hk v. rewrite <- E, <- Hh. split; apply has_gen.
Qed.
End generations.

(** ** Collapsed nodes *)

Lemma erase_expand hash gen n : erase (expand hash gen n) = erase (expand None 0 n).
Proof.
  revert hash gen. induction n as [|v|k c f IH|ch f IH|h] using node_nested_ind; intros hash gen; try done; simpl.
  - by rewrite IH.
  - f_equal. rewrite !map_map. apply map_ext_in. intros c Hc. rewrite Forall_forall in IH. apply IH. by apply list_elem_of_In.
Qed.

(** The hashes a node refers to. *)
Fixpoint hash_refs (n : node) : list (list Z) :=
  match n with
  | ShortNode _ c _ => hash_refs c
  | FullNode ch _ => concat (take 16 (map hash_refs ch))
  | HashNode h => [BytesToHash h]
  | Nil | ValueNode _ => []
  end.

Lemma hash_refs_erase n : hash_refs (erase n) = hash_refs n.
Proof.
  induction n as [|v|k c f IH|ch f IH|h] using node_nested_ind; try done; simpl.
  do 2 f_equal. rewrite map_map. apply map_ext_in. intros c Hc. rewrite Forall_forall in IH. apply IH. by apply list_elem_of_In.
Qed.

Lemma hash_refs_expand hash gen n : hash_refs (expand hash gen n) = hash_refs n.
Proof.
  revert hash. induction n as [|v|k c f IH|ch f IH|h] using node_nested_ind; intros hash; try done; simpl; [done|].
  do 2 f_equal. rewrite map_map. apply map_ext_in. intros c Hc. rewrite Forall_forall in IH. apply IH. by apply list_elem_of_In.
Qed.

Lemma hash_refs_full ch f x :
  x ∈ hash_refs (FullNode ch f) <-> exists i c, (i < 16)%nat /\ ch !! i = Some c /\ x ∈ hash_refs c.
Proof.
  simpl. rewrite list_elem_of_In, in_concat. split.
  - intros (l & Hl & Hx). apply list_elem_of_In, list_elem_of_lookup in Hl as [i [Hi Hlt]%lookup_take_Some].
    rewrite list_lookup_fmap in Hi. apply fmap_Some in Hi as (c & Hc & ->). exists i, c. by rewrite list_elem_of_In.
  - intros (i & c & Hi & Hc & Hx). exists (hash_refs c). rewrite <- list_elem_of_In. split; [|by apply list_elem_of_In].
    apply list_elem_of_lookup. exists i. rewrite lookup_take_lt, list_lookup_fmap, Hc by done. done.
Qed.

Section collapsed.
Context `{Keccak}.

(** A collapsed node that is restored from its expansion. *)
Record collapsed (r : node) : Prop := {
  cl_raw : raw_ok r;
  cl_mraw : mraw (expand None 0 r) = r
}.

Lemma collapsed_mraw hash gen r : collapsed r -> mraw (expand hash gen r) = r.
Proof. intros [_ E]. by rewrite <- mraw_erase, erase_expand, mraw_erase. Qed.

(** A reference that is restored. *)
Definition restored (r : node) : Prop := is_value (expand None 0 r) = false /\ mref false (expand None 0 r) = r.

Context (d : node_store) (Hdb : db_coherent d) (g : Z).

Lemma ref_restored c : encodable d g false c -> (plain c = true -> mraw (expand None 0 (mraw c)) = mraw c) -> restored (mref false c).
Proof.
  intros E Hc. destruct (plain c) eqn:P.
  - rewrite mref_plain by done. destruct (embeds false (mraw c)) eqn:Em; [|done]. split.
    + by destruct c.
    + unfold mref. rewrite Hc by done. fold (mref false c). rewrite mref_plain by done. by rewrite Em.
  - destruct E as [W _ _]. by destruct W.
Qed.

Lemma mraw_restored n : forall force, encodable d g force n -> plain n = true -> mraw (expand None 0 (mraw n)) = mraw n.
Proof.
  induction n as [|v|k c f IH|ch f IH|h] using node_nested_ind; intros force E P; try done.
  - destruct (encodable_short _ _ _ _ _ _ E) as [(v & -> & nk & Hnk & ->)|(Ec & Hk & Hne)]; cbn [mraw expand].
    + rewrite compact_hex by (right; by exists nk). done.
    + rewrite (encodable_short_ref _ _ _ _ Ec). rewrite compact_hex by by left. cbn [default from_option id].
      destruct (ref_restored c Ec (IH false Ec)) as [Hv Hr]. unfold mref in Hr at 1. f_equal.
      destruct (expand None 0 (mref false c)); done.
  - assert (length ch = 17%nat) as Hlen by (destruct E as [W _ _]; by inversion W).
    assert (forall i c', map (expand None 0) (take 16 (map (mref false) ch) ++ drop 16 (map erase ch)) !! i = Some c' ->
      exists c, ch !! i = Some c /\ c' = expand None 0 (if (i <? 16)%nat then mref false c else erase c)) as Hlk.
    { intros i c' Hc'. rewrite list_lookup_fmap in Hc'. apply fmap_Some in Hc' as (r & Hr & ->). pose proof (lookup_lt_Some _ _ _ Hr) as Hi.
      rewrite length_app, length_take, length_drop, !length_map in Hi. destruct (lookup_lt_is_Some_2 ch i ltac:(lia)) as [c Hc].
      rewrite (mraw_full_lookup ch i c Hlen Hc) in Hr. injection Hr as <-. by exists c. }
    apply (mraw_full_pointwise ch).
    + rewrite length_map, length_app, length_take, length_drop, !length_map. lia.
    + intros i c c' Hi Hc Hc'. destruct (Hlk i c' Hc') as (c0 & Hc0 & ->). rewrite Hc in Hc0. injection Hc0 as <-.
      rewrite (proj2 (Nat.ltb_lt i 16)) by done. destruct (encodable_full _ _ _ _ _ _ _ E Hc) as [[_ [->|Ec]]|[-> _]]; [done| |lia].
      rewrite Forall_lookup in IH. by apply (ref_restored c Ec (IH i c Hc false Ec)).
    + intros i c c' Hi Hc Hc'. destruct (Hlk i c' Hc') as (c0 & Hc0 & ->). rewrite Hc in Hc0. injection Hc0 as <-.
      rewrite (proj2 (Nat.ltb_ge i 16)) by done. destruct (encodable_full _ _ _ _ _ _ _ E Hc) as [[? _]|[_ [->|(v & _ & ->)]]]; [lia|done|done].
Qed.

Lemma mraw_collapsed force n : encodable d g force n -> plain n = true -> collapsed (mraw n).
Proof. intros E P. split; [by eapply mraw_raw|by eapply mraw_restored]. Qed.
End collapsed.

(** ** Nodes of two stores with the same bindings *)

Section copies.
Context (g : Z).

(** [n1] over [d1] is canonical and has the bindings of [n2] over [d2]. *)
Record copies (d1 d2 : node_store) (n1 n2 : node) : Prop := {
  cp_wf : wf d1 g n1;
  cp_has k v : has d1 g n1 k v <-> has d2 g n2 k v;
  cp_branch : branch d1 g n1 <-> branch d2 g n2
}.

Lemma copies_refl d n : wf d g n -> copies d d n n.
Proof. by constructor. Qed.

Lemma copies_trans d1 d2 d3 n1 n2 n3 : copies d1 d2 n1 n2 -> copies d2 d3 n2 n3 -> copies d1 d3 n1 n3.
Proof.
  intros [W1 H1 B1] [_ H2 B2]. constructor; [done|intros; by rewrite H1|by rewrite B1].
Qed.

Lemma copies_sym d1 d2 n1 n2 : copies d1 d2 n1 n2 -> wf d2 g n2 -> copies d2 d1 n2 n1.
Proof. intros [_ H B] W. by constructor. Qed.

Lemma branch_extended d d' n : extends d d' -> wf d g n -> branch d' g n -> branch d g n.
Proof.
  intros Hx Hw Hb. destruct Hb as [ch f|h ch f Hr]; [constructor|]. inversion Hw as [| | |? n' Hr' _ _]; subst.
  pose proof (Hx _ _ _ Hr') as E. rewrite Hr in E. injection E as <-. by econstructor.
Qed.

Lemma copies_extends d d' n : extends d d' -> wf d g n -> copies d' d n n.
Proof.
  intros Hx Hw. constructor; [by eapply wf_extends|intros; apply has_extends_iff; [done|by right; right]|].
  split; [by apply branch_extended|by apply branch_extends].
Qed.

Lemma copies_erase d1 d2 n1 n1' n2 : erase n1' = erase n1 -> copies d1 d2 n1 n2 -> copies d1 d2 n1' n2.
Proof.
  intros E [W H B]. constructor.
  - apply wf_unerase. rewrite E. by apply wf_erase.
  - intros k v. by rewrite <- (has_erase d1 g n1'), E, has_erase.
  - by rewrite <- (branch_erase d1 g n1'), E, branch_erase.
Qed.

Lemma copies_hash d1 d2 h n1 n2 :
  d1 (BytesToHash h) g = Some n1 -> copies d1 d2 n1 n2 -> is_hash n1 = false -> copies d1 d2 (HashNode h) n2.
Proof.
  intros Hr [W H B] Hn. constructor; [by eapply wf_hash|intros; by rewrite (has_hash_iff d1 g h n1)|]. rewrite <- B. split.
  - inversion 1 as [|? ch f Hr']; subst. rewrite Hr in Hr'. injection Hr' as ->. constructor.
  - intros Hb. destruct Hb; [by econstructor|done].
Qed.

Context (d1 d2 : node_store).

Lemma copies_leaf k v f1 f2 : wf d2 g (ShortNode k (ValueNode v) f2) -> copies d1 d2 (ShortNode k (ValueNode v) f1) (ShortNode k (ValueNode v) f2).
Proof.
  intros W. constructor.
  - inversion W as [? ? ? Hk Hv|? ? ? ? ? _ W'| |]; subst; [by apply wf_leaf|by destruct (wf_not_value _ _ _ v W')].
  - intros key w. rewrite !has_short_iff. by setoid_rewrite has_value_iff.
  - split; by inversion 1.
Qed.

Lemma copies_short k c1 c2 f1 f2 :
  wf d2 g (ShortNode k c2 f2) -> is_value c2 = false -> copies d1 d2 c1 c2 -> copies d1 d2 (ShortNode k c1 f1) (ShortNode k c2 f2).
Proof.
  intros W Hv [W1 H B]. constructor.
  - inversion W; subst; [done|]. apply wf_ext; try done. by apply B.
  - intros key w. rewrite !has_short_iff. by setoid_rewrite H.
  - split; by inversion 1.
Qed.

Definition slot_copies (c1 c2 : node) : Prop :=
  (c1 = Nil /\ c2 = Nil) \/ (exists v, v <> [] /\ c1 = ValueNode v /\ c2 = ValueNode v) \/ (copies d1 d2 c1 c2 /\ wf d2 g c2).

Lemma slot_copies_nil c1 c2 : slot_copies c1 c2 -> c1 = Nil <-> c2 = Nil.
Proof.
  intros [[-> ->]|[(v & _ & -> & ->)|[[W _ _] W2]]]; [done..|]. split; intros ->; [by apply wf_not_nil in W|by apply wf_not_nil in W2].
Qed.

Lemma slot_copies_has c1 c2 k v : slot_copies c1 c2 -> has d1 g c1 k v <-> has d2 g c2 k v.
Proof.
  intros [[-> ->]|[(w & _ & -> & ->)|[[_ H _] _]]]; [split; by intros ?%has_nil|by rewrite !has_value_iff|done].
Qed.

Lemma copies_full ch1 ch2 f1 f2 :
  wf d2 g (FullNode ch2 f2) -> Forall2 slot_copies ch1 ch2 -> copies d1 d2 (FullNode ch1 f1) (FullNode ch2 f2).
Proof.
  intros W HF. constructor.
  - inversion W as [| |? ? Hlen Hch H16 (i & j & a & b & Hij & Hi & Hj & Ha & Hb)|]; subst. constructor.
    + by rewrite (Forall2_length _ _ _ HF).
    + intros l c1 Hl Hc1 Hn. destruct (Forall2_lookup_l _ _ _ _ _ HF Hc1) as (c2 & Hc2 & Hs).
      assert (c2 <> Nil) as Hn2 by by rewrite <- (slot_copies_nil _ _ Hs). destruct Hs as [[-> ->]|[(w & _ & -> & ->)|[[W1 _ _] _]]]; [done| |done].
      by destruct (wf_not_value _ _ _ w (Hch _ _ Hl Hc2 Hn2)).
    + intros c1 Hc1 Hn. destruct (Forall2_lookup_l _ _ _ _ _ HF Hc1) as (c2 & Hc2 & Hs).
      assert (c2 <> Nil) as Hn2 by by rewrite <- (slot_copies_nil _ _ Hs).
      destruct Hs as [[-> ->]|[(w & Hw & -> & ->)|[_ W2]]]; [done|by exists w|]. destruct (H16 c2 Hc2 Hn2) as (v & _ & ->). by destruct (wf_not_value _ _ _ v W2).
    + destruct (Forall2_lookup_r _ _ _ _ _ HF Hi) as (a' & Ha' & Sa). destruct (Forall2_lookup_r _ _ _ _ _ HF Hj) as (b' & Hb' & Sb).
      exists i, j, a', b'. by rewrite (slot_copies_nil _ _ Sa), (slot_copies_nil _ _ Sb).
  - intros k v. rewrite !has_full_iff. split.
    + intros (i & c & k' & -> & Hc & Hh). destruct (Forall2_lookup_l _ _ _ _ _ HF Hc) as (c2 & Hc2 & Hs).
      exists i, c2, k'. by rewrite <- (slot_copies_has _ _ _ _ Hs).
    + intros (i & c & k' & -> & Hc & Hh). destruct (Forall2_lookup_r _ _ _ _ _ HF Hc) as (c1 & Hc1 & Hs).
      exists i, c1, k'. by rewrite (slot_copies_has _ _ _ _ Hs).
  - split; constructor.
Qed.
End copies.

(** ** Clean nodes are stored *)

Section saved.
Context `{Keccak} (g : Z).

(** What is stored under [h] has the hash [h] and stands for [n]. *)
Definition kept_at (d : node_store) (force : bool) (h : list Z) (n : node) : Prop :=
  stored_ok d force h /\ copies g d d (HashNode h) n.

(** A clean node with a cached hash is stored under that hash. *)
Definition clean_ok (d : node_store) (force : bool) (n : node) : Prop :=
  forall h, cache n = (Some h, false) -> kept_at d force h n.

Inductive saved (d : node_store) : node -> Prop :=
  | sv_nil : saved d Nil
  | sv_value v : saved d (ValueNode v)
  | sv_hash h : saved d (HashNode h)
  | sv_short k c f : saved d c -> clean_ok d false (ShortNode k c f) -> saved d (ShortNode k c f)
  | sv_full ch f : (forall i c, ch !! i = Some c -> saved d c) -> clean_ok d false (FullNode ch f) -> saved d (FullNode ch f).

Definition saved_at (d : node_store) (force : bool) (n : node) : Prop :=
  match n with
  | ShortNode _ c _ => saved d c /\ clean_ok d force n
  | FullNode ch _ => (forall i c, ch !! i = Some c -> saved d c) /\ clean_ok d force n
  | _ => True
  end.

Lemma saved_at_false d n : saved d n <-> saved_at d false n.
Proof. split; [by inversion 1|]. destruct n; simpl; try (intros [??]); by constructor. Qed.

Context (d d' : node_store) (Hext : extends d d') (Hu : uniform d').

Lemma stored_extends force h n0 : stored_ok d force h -> d (BytesToHash h) g = Some n0 -> stored_ok d' force h.
Proof.
  intros Hs Hr g' n Hn. destruct (Hu _ _ _ g Hn) as (n1 & Hn1 & E). pose proof (Hext _ _ _ Hr) as Hr'. rewrite Hn1 in Hr'. injection Hr' as ->.
  rewrite <- mref_erase, <- E, mref_erase. by apply (Hs g).
Qed.

Lemma wf_hash_resolves h : wf d g (HashNode h) -> exists n, d (BytesToHash h) g = Some n /\ is_hash n = false /\ wf d g n.
Proof. inversion 1; subst. eauto. Qed.

Lemma kept_extends force h n : wf d g n -> kept_at d force h n -> kept_at d' force h n.
Proof.
  intros Hw [Hs Hc]. destruct (wf_hash_resolves h (cp_wf _ _ _ _ _ Hc)) as (n0 & Hr & _). split; [by eapply stored_extends|].
  eapply copies_trans; [apply copies_extends; [done|apply Hc]|]. eapply copies_trans; [exact Hc|].
  apply copies_sym; [by apply copies_extends|done].
Qed.

Lemma wf_short_slot k c f : wf d g (ShortNode k c f) -> wf_slot d g c.
Proof. inversion 1; subst; [by right; left|by right; right]. Qed.

Lemma coherent_extends n : wf_slot d g n -> coherent d n -> coherent d' n.
Proof.
  induction n as [|v|k c f IH|ch f IH|h] using node_nested_ind; intros Hw Hc; try constructor; inversion Hc; subst; try done.
  - apply IH; [|done]. destruct Hw as [?|[?|Hw]]; try done. by eapply wf_short_slot.
  - intros i c Hi. rewrite Forall_lookup in IH. apply (IH i c Hi); [|by eauto]. destruct Hw as [?|[?|Hw]]; try done. by eapply wf_full_slot.
  - destruct Hw as [?|[?|Hw]]; try done. destruct (wf_hash_resolves h Hw) as (n0 & Hr & _). by eapply stored_extends.
Qed.

Lemma coherent_at_extends force n : wf d g n -> coherent_at d force n -> coherent_at d' force n.
Proof.
  intros Hw Hc. destruct n as [|v|k c f|ch f|h]; simpl in *; try done.
  - destruct Hc as [Hc ?]. split; [|done]. eapply coherent_extends; [|done]. by eapply wf_short_slot.
  - destruct Hc as [Hc ?]. split; [|done]. intros i c Hi. eapply coherent_extends; [|by eauto]. by eapply wf_full_slot.
  - destruct (wf_hash_resolves h Hw) as (n0 & Hr & _). by eapply stored_extends.
Qed.

Lemma saved_extends n : wf_slot d g n -> saved d n -> saved d' n.
Proof.
  induction n as [|v|k c f IH|ch f IH|h] using node_nested_ind; intros Hw Hc; try constructor; inversion Hc; subst; try done;
    destruct Hw as [?|[?|Hw]]; try done.
  - apply IH; [|done]. by eapply wf_short_slot.
  - intros h Hh. apply kept_extends; auto.
  - intros i c Hi. rewrite Forall_lookup in IH. apply (IH i c Hi); [|by eauto]. by eapply wf_full_slot.
  - intros h Hh. apply kept_extends; auto.
Qed.

Lemma saved_at_extends force n : wf d g n -> saved_at d force n -> saved_at d' force n.
Proof.
  intros Hw Hc. destruct n as [|v|k c f|ch f|h]; simpl in *; try done; destruct Hc as [Hc Hcl]; (split; [|intros h Hh; apply kept_extends; auto]).
  - eapply saved_extends; [|done]. by eapply wf_short_slot.
  - intros i c Hi. eapply saved_extends; [|by eauto]. by eapply wf_full_slot.
Qed.
End saved.

(** ** Commit *)

Section commit.
Context `{Keccak} (ol : bool) (g l : Z) (d d' : node_store).
Context (Hdb : db_coherent d) (Hext : extends d d') (Hu : uniform d').

(** The nodes of the events are in the store. *)
Definition ev_holds (ev : list db_event) : Prop :=
  forall h b c, DbInsert h b c ∈ ev -> forall gen, d' h gen = Some (expand (Some h) gen (erase c)).

(** A node that can be referred to: in the old store, or in an event. *)
Definition in_store (y : list Z) : Prop := exists n, d y g = Some n /\ mref false n = HashNode y.
Definition in_events (ev : list db_event) (y : list Z) : Prop := exists b c, DbInsert y b c ∈ ev /\ (32 <= length b)%nat.

Definition event_ok (h b : list Z) (c : node) : Prop :=
  exists force x, encodable d g force x /\ plain x = true /\ erase c = mraw x /\ b = blob (mraw x) /\ h = node_hash x.

(** Every node comes after the nodes it refers to. *)
Fixpoint ordered (ev0 ev : list db_event) : Prop :=
  match ev with
  | [] => True
  | e :: ev =>
      match e with
      | DbInsert h b c => event_ok h b c /\ forall y, y ∈ hash_refs (erase c) -> in_store y \/ in_events ev0 y
      | OnLeaf _ _ => True
      end /\ ordered (ev0 ++ [e]) ev
  end.

Lemma in_events_sub ev ev' y : ev ⊆ ev' -> in_events ev y -> in_events ev' y.
Proof. intros Hs (b & c & Hin & Hb). exists b, c. auto. Qed.

Lemma ordered_sub ev0 ev0' ev : ev0 ⊆ ev0' -> ordered ev0 ev -> ordered ev0' ev.
Proof.
  revert ev0 ev0'. induction ev as [|e ev IH]; intros ev0 ev0' Hs Ho; [done|]. destruct Ho as [He Ho]. split.
  - destruct e; [|done]. destruct He as [? Hy]. split; [done|]. intros y Hin. destruct (Hy y Hin); [by left|right; by eapply in_events_sub].
  - eapply IH; [|exact Ho]. by apply list_subseteq_app_iff_l; split; [apply list_subseteq_app_l|apply list_subseteq_app_r].
Qed.

Lemma ordered_app ev0 ev1 ev2 : ordered ev0 (ev1 ++ ev2) <-> ordered ev0 ev1 /\ ordered (ev0 ++ ev1) ev2.
Proof.
  revert ev0. induction ev1 as [|e ev1 IH]; intros ev0; simpl; [rewrite app_nil_r; tauto|]. rewrite IH, <- app_assoc. simpl. tauto.
Qed.

Lemma ordered_leaves ev0 n h : ordered ev0 (store_leaves n h).
Proof.
  assert (forall ev, Forall (fun e => match e with OnLeaf _ _ => True | _ => False end) ev -> forall ev0, ordered ev0 ev) as Hl.
  { induction 1 as [|e ev He _ IH]; intros ev1; [done|]. split; [by destruct e|apply IH]. }
  apply Hl. destruct n as [|v|k c f|ch f|?]; simpl; try constructor; [destruct c; try constructor; done|].
  apply Forall_forall. intros e He. apply list_elem_of_omap in He as (c & _ & Hc). by destruct c; simplify_eq.
Qed.

Lemma leaf_not_insert n h x b c : DbInsert x b c ∈ store_leaves n h -> False.
Proof.
  destruct n as [|v|k c' f|ch f|?]; simpl; try by intros ?%not_elem_of_nil.
  - destruct c'; try by intros ?%not_elem_of_nil. intros Hin%list_elem_of_singleton. done.
  - intros (c' & _ & Hc)%list_elem_of_omap. by destruct c'; simplify_eq.
Qed.

(** What hashing makes of a node: a reference that stands for it, and the node that
    stays in memory. *)
Definition stands (force : bool) (r n : node) : Prop :=
  (forall h, r = HashNode h -> stored_ok d' force h) /\ copies g d' d (expand None 0 r) n.

Definition remains (force : bool) (ca n : node) : Prop :=
  coherent_at d' force ca /\ saved_at g d' force ca /\ copies g d' d ca n.

Record hashed (force : bool) (n hd ca : node) (ev : list db_event) : Prop := {
  hs_ref : erase hd = mref force n;
  hs_ca : mref force ca = mref force n;
  hs_value : is_value ca = false;
  hs_ordered ev0 : ordered ev0 ev;
  hs_refs y : force = false -> y ∈ hash_refs (mref false n) -> in_store y \/ in_events ev y;
  hs_post : ev_holds ev -> stands force (mref force n) n /\ remains force ca n
}.

Lemma hash_ref_id h n0 : plain n0 = true -> forall force, mref force n0 = HashNode h -> BytesToHash h = h /\ h = node_hash n0.
Proof.
  intros P force E. rewrite mref_plain in E by done. destruct (embeds _ _); [by destruct n0|]. injection E as <-.
  split; [|done]. destruct (keccak256_ok (blob (mraw n0))). by apply BytesToHash_id.
Qed.

Lemma resolved_plain h : wf d g (HashNode h) -> exists n0, d (BytesToHash h) g = Some n0 /\ plain n0 = true.
Proof. intros Hw. destruct (wf_hash_resolves g d h Hw) as (n0 & Hr & Hh & Hn). exists n0. split; [done|]. by destruct Hn. Qed.

(** A reference by hash that stays one. *)
Lemma hash_hashed force n h ca :
  wf d g n -> mref force n = HashNode h -> kept_at g d force h n -> saved_at g d force n -> coherent_at d force n -> ca = n \/ ca = HashNode h ->
  hashed force n (HashNode h) ca [].
Proof.
  intros Hw Hm Hk Hs Hc Hca. destruct Hk as [Hst Hcp]. destruct (resolved_plain h (cp_wf _ _ _ _ _ Hcp)) as (n0 & Hr & P).
  pose proof (Hst _ _ Hr) as Hn0. destruct (hash_ref_id h n0 P force Hn0) as [Hid _]. constructor; [done| | |done| |].
  - destruct Hca as [-> | ->]; [done|by rewrite Hm].
  - destruct Hca as [-> | ->]; [by destruct Hw|done].
  - intros y -> Hy. rewrite Hm in Hy. apply list_elem_of_singleton in Hy as ->. left. exists n0. by rewrite Hid in *.
  - intros _. assert (stored_ok d' force h) as Hst' by by eapply stored_extends.
    assert (copies g d' d (HashNode h) n) as Hcp' by (eapply copies_trans; [apply copies_extends; [done|apply Hcp]|done]).
    rewrite Hm. split; [split; [by intros ? [= <-]|done]|]. destruct Hca as [-> | ->]; [|by split_and!].
    split_and!; [by eapply coherent_at_extends|by eapply saved_at_extends|by apply copies_extends].
Qed.

(** What hashing the children makes of a node: the collapsed node and the node with
    its new children. *)
Record children_hashed (n c0 ca : node) (ev : list db_event) : Prop := {
  ch_erase : erase c0 = mraw n;
  ch_cache : cache c0 = cache n;
  ch_plain : plain ca = true;
  ch_mraw : mraw ca = mraw n;
  ch_ordered ev0 : ordered ev0 ev;
  ch_refs y : y ∈ hash_refs (mraw n) -> in_store y \/ in_events ev y;
  ch_post : ev_holds ev ->
    copies g d' d (expand None 0 (mraw n)) n /\ copies g d' d ca n /\ Forall (coherent d') (children ca) /\ Forall (saved g d') (children ca)
}.

Lemma ev_holds_app ev1 ev2 : ev_holds (ev1 ++ ev2) -> ev_holds ev1 /\ ev_holds ev2.
Proof. intros He. split; intros h b c Hin; apply (He h b c); rewrite elem_of_app; auto. Qed.

(** A stored node is found again under its hash. *)
Lemma stored_found force n :
  encodable d g force n -> plain n = true -> mref force n = HashNode (node_hash n) ->
  (forall gen, d' (node_hash n) gen = Some (expand (Some (node_hash n)) gen (mraw n))) -> stored_ok d' force (node_hash n).
Proof.
  intros E P Hm Hd gen n' Hn. destruct (hash_ref_id (node_hash n) n P force Hm) as [Hid _]. rewrite Hid, Hd in Hn. injection Hn as <-.
  unfold mref. rewrite (collapsed_mraw _ _ (mraw n)) by by eapply mraw_collapsed. exact Hm.
Qed.

Lemma set_cached_erase ca hd : erase (set_cached true ca hd) = erase ca.
Proof. by destruct ca. Qed.

Lemma set_cached_cache ca hd : plain ca = true -> cache (set_cached true ca hd) = (match hd with HashNode h => Some h | _ => None end, false).
Proof. by destruct ca. Qed.

Lemma keeps_cached force ca hd n :
  wf d g n -> plain ca = true -> mraw ca = mraw n -> Forall (coherent d') (children ca) -> Forall (saved g d') (children ca) ->
  copies g d' d ca n -> (forall h, hd = HashNode h -> mref force n = HashNode h /\ stored_ok d' force h /\ copies g d' d (HashNode h) n) ->
  remains force (set_cached true ca hd) n.
Proof.
  intros Hw P Em Hc Hs Hcp Hh. assert (copies g d' d (set_cached true ca hd) n) as Hcp' by (eapply copies_erase; [apply set_cached_erase|done]).
  assert (forall h b, cache (set_cached true ca hd) = (Some h, b) -> hd = HashNode h) as Hca.
  { intros h b. rewrite set_cached_cache by done. by destruct hd; intros [= ->]. }
  assert (cached_ok force (set_cached true ca hd)) as Hco.
  { intros h Eh. destruct (cache _) as [o b] eqn:Ec. simpl in Eh. subst o. destruct (Hh h (Hca h b eq_refl)) as [<- _].
    rewrite <- mref_erase, set_cached_erase, mref_erase. unfold mref. by rewrite Em. }
  assert (clean_ok g d' force (set_cached true ca hd)) as Hcl.
  { intros h Eh. destruct (Hh h (Hca h false Eh)) as (_ & Hst & Hcph). split; [done|]. eapply copies_trans; [done|by apply copies_sym]. }
  split_and!; [| |done]; destruct ca; try done; simpl in *; rewrite ?Forall_singleton, ?Forall_lookup in *; split; done.
Qed.

Lemma store_hashed force n c0 ca ev1 :
  encodable d g force n -> plain n = true -> children_hashed n c0 ca ev1 ->
  exists hd ev2, store true ol c0 force = Ok (hd, ev2) /\ hashed force n hd (set_cached true ca hd) (ev1 ++ ev2).
Proof.
  intros E P [Ce Cc Cp Cm Co Cr Cpost]. pose proof (en_wf _ _ _ _ E) as Hw. pose proof (en_coherent _ _ _ _ E) as Hc.
  assert (plain c0 = true) as P0 by (rewrite <- plain_mraw, <- Ce in P; by destruct c0).
  assert (blob c0 = blob (mraw n)) as Eb by by rewrite <- Ce, blob_erase.
  pose proof (mref_plain force n P) as Hm. destruct (embeds force (mraw n)) eqn:Em.
  - exists c0, []. split.
    { unfold store. rewrite Encode_blob, Eb. unfold embeds in Em. rewrite Em. by destruct c0. }
    rewrite app_nil_r. constructor; [by rewrite Hm| |by destruct ca|done| |].
    + rewrite <- mref_erase, set_cached_erase, mref_erase. unfold mref. by rewrite Cm.
    + intros y -> Hy. rewrite Hm in Hy. by apply Cr.
    + intros He. destruct (Cpost He) as (Hcp & Hca & Hcoh & Hsv). rewrite Hm. split.
      * split; [|done]. intros h Eh. rewrite <- plain_mraw, Eh in P. done.
      * apply keeps_cached; try done. by intros h ->.
  - change (keccak256 (blob (mraw n))) with (node_hash n) in Hm. destruct (hash_ref_id (node_hash n) n P force Hm) as [Hid _].
    assert (default (node_hash n) (fst (cache c0)) = node_hash n) as Eh.
    { rewrite Cc. destruct (fst (cache n)) as [h|] eqn:Eh; [|done]. assert (cached_ok force n) as Hok by (destruct n; try done; apply Hc).
      specialize (Hok h Eh). rewrite Hm in Hok. injection Hok as <-. done. }
    exists (HashNode (node_hash n)), (DbInsert (node_hash n) (blob (mraw n)) c0 :: (if ol then store_leaves c0 (node_hash n) else [])). split.
    { unfold store. rewrite Encode_blob, Eb. unfold embeds in Em. rewrite Em. rewrite <- Hid at 2 3. rewrite <- Eh at 1 2 3. by destruct c0. }
    constructor; [by rewrite Hm| |by destruct ca| | |].
    + rewrite <- mref_erase, set_cached_erase, mref_erase. unfold mref. by rewrite Cm.
    + intros ev0. rewrite ordered_app. split; [done|]. split; [split|].
      * by exists force, n.
      * intros y Hy. rewrite Ce in Hy. destruct (Cr y Hy); [by left|right]. eapply in_events_sub; [|done]. set_solver.
      * destruct ol; [apply ordered_leaves|done].
    + intros y -> Hy. rewrite Hm in Hy. apply list_elem_of_singleton in Hy as ->. right. exists (blob (mraw n)), c0. rewrite Hid.
      split; [rewrite elem_of_app, elem_of_cons; auto|]. unfold embeds in Em. rewrite andb_true_r in Em. by apply Nat.ltb_ge in Em.
    + intros [He1 He2]%ev_holds_app. destruct (Cpost He1) as (Hcp & Hca & Hcoh & Hsv).
      assert (forall gen, d' (node_hash n) gen = Some (expand (Some (node_hash n)) gen (mraw n))) as Hd.
      { intros gen. rewrite <- Ce. by apply (He2 _ (blob (mraw n)) c0); left. }
      assert (stored_ok d' force (node_hash n)) as Hst by by apply (stored_found force).
      assert (copies g d' d (HashNode (node_hash n)) n) as Hcph.
      { eapply copies_hash; [by rewrite Hid|eapply copies_erase; [apply erase_expand|done]|]. rewrite <- plain_mraw in P. by destruct (mraw n). }
      rewrite Hm. split; [split; [by intros ? [= <-]|done]|]. apply keeps_cached; try done. by intros ? [= <-].
Qed.

(** *** The children *)

Definition hashes (f : node -> bool -> outcome trie_error (node * node * list db_event)) (force : bool) (n : node) : Prop :=
  exists hd ca ev, f n force = Ok (hd, ca, ev) /\ hashed force n hd ca ev.

(** The child at a place after the loop. *)
Definition slot_hashed (i j : nat) (c c' : node) (ev : list db_event) : Prop :=
  if bool_decide ((j < i)%nat /\ c <> Nil) then
    mref false c' = mref false c /\ (ev_holds ev -> stands false (mref false c) c /\ remains false c' c)
  else c' = c.

Lemma slot_hashed_app i j c c' ev1 ev2 ev : ev1 ⊆ ev -> ev2 = ev -> slot_hashed i j c c' ev1 -> slot_hashed i j c c' ev2.
Proof.
  intros Hs -> Hh. unfold slot_hashed in *. case_bool_decide; [|done]. destruct Hh as [? Hh]. split; [done|]. intros He. apply Hh.
  intros h b x Hin. by apply (He h b x), Hs.
Qed.

Lemma slot_hashed_S i j c c' ev : slot_hashed i j c c' ev -> slot_hashed (S i) (S j) c c' ev.
Proof.
  unfold slot_hashed. rewrite (bool_decide_ext ((S j < S i)%nat /\ c <> Nil) ((j < i)%nat /\ c <> Nil)); [done|].
  split; (intros [? ?]; split; [lia|done]).
Qed.

Lemma hash_loop_hashed f ch : forall i,
  (forall j c, (j < i)%nat -> ch !! j = Some c -> c <> Nil -> hashes f false c) ->
  exists hs cs ev, hash_loop f ch i = Ok (hs, cs, ev) /\
    map erase hs = take i (map (mref false) ch) ++ drop i (map erase ch) /\ length cs = length ch /\ (forall ev0, ordered ev0 ev) /\
    (forall j c y, (j < i)%nat -> ch !! j = Some c -> y ∈ hash_refs (mref false c) -> in_store y \/ in_events ev y) /\
    (forall j c c', ch !! j = Some c -> cs !! j = Some c' -> slot_hashed i j c c' ev).
Proof.
  induction ch as [|c ch IH]; intros i Hf.
  { exists [], [], []. destruct i; simpl; split_and!; done. }
  destruct i as [|i].
  { exists (c :: ch), (c :: ch), []. rewrite take_0, drop_0. split_and!; try done; [lia|]. intros j a b Ha Hb. rewrite Ha in Hb. injection Hb as ->.
    unfold slot_hashed. by rewrite bool_decide_false by lia. }
  destruct (IH i) as (hs & cs & ev & E & H1 & H2 & H3 & H4 & H5).
  { intros j a Hj Ha. apply (Hf (S j)); [lia|done]. }
  simpl. destruct (decide (c = Nil)) as [->|Hn].
  - simpl. rewrite E. exists (Nil :: hs), (Nil :: cs), ev. simpl. rewrite H1, H2. split_and!; try done.
    + intros [|j] a y Hj Ha Hy; [injection Ha as <-; by apply not_elem_of_nil in Hy|]. apply (H4 j a); [lia|done|done].
    + intros [|j] a b Ha Hb; [by injection Ha as <-; injection Hb as <-|]. by apply slot_hashed_S, H5.
  - destruct (Hf 0%nat c ltac:(lia) eq_refl Hn) as (hd & c' & ev1 & E1 & [Hr Hca _ Ho Hrf Hp]).
    assert (is_nil c = false) as -> by by destruct c. rewrite E1. simpl. rewrite E. exists (hd :: hs), (c' :: cs), (ev1 ++ ev). simpl. rewrite Hr, H1, H2.
    split_and!; try done.
    + intros ev0. by rewrite ordered_app.
    + intros [|j] a y Hj Ha Hy; [injection Ha as <-; destruct (Hrf y eq_refl Hy) as [?|?]|destruct (H4 j a y ltac:(lia) Ha Hy) as [?|?]];
        try (by left); right; (eapply in_events_sub; [|done]); intros e He; apply elem_of_app; auto.
    + intros [|j] a b Ha Hb.
      * injection Ha as <-. injection Hb as <-. unfold slot_hashed. rewrite bool_decide_true by (split; [lia|done]). split; [done|].
        intros [He _]%ev_holds_app. auto.
      * assert (slot_hashed (S i) (S j) a b ev) as Hs by by apply slot_hashed_S, H5.
        eapply slot_hashed_app; [|reflexivity|exact Hs]. intros e He. apply elem_of_app. by right.
Qed.

Lemma plain_ref c force : encodable d g force c -> is_value c = false /\ c <> Nil.
Proof. intros [W _ _]. by destruct W. Qed.

Lemma short_children f force k c fl :
  encodable d g force (ShortNode k c fl) -> (encodable d g false c -> hashes f false c) ->
  exists c0 ca ev, hashChildren_with f (ShortNode k c fl) = Ok (c0, ca, ev) /\ children_hashed (ShortNode k c fl) c0 ca ev.
Proof.
  intros E Hf. pose proof (en_wf _ _ _ _ E) as W. unfold hashChildren_with. destruct (hexToCompact_total k) as [key Ek].
  assert (compact k = key) as Eck by (unfold compact; by rewrite Ek). rewrite Ek. simpl or_panic. cbn [mbind outcome_bind].
  destruct (encodable_short _ _ _ _ _ _ E) as [(v & -> & nk & Hnk & ->)|(Ec & Hk & Hne)].
  - eexists _, _, []. split; [done|]. assert (compactToHex key = Some (nk ++ [terminator])) as Ech.
    { rewrite <- Eck. apply compact_hex. right. by exists nk. }
    constructor; try done; [simpl; by rewrite Eck|by intros y ?%not_elem_of_nil|]. intros _. cbn [mraw expand]. rewrite Eck, Ech.
    split_and!; [by apply copies_leaf|by apply copies_leaf| |]; repeat constructor.
  - destruct (Hf Ec) as (hd & c' & ev & Eh & [Hr Hca Hv' Ho Hrf Hp]). destruct (plain_ref c false Ec) as [Hv Hn].
    assert (mraw (ShortNode k c fl) = ShortNode key (mref false c) no_flag) as Em by (simpl; by rewrite Eck, (encodable_short_ref _ _ _ _ Ec)).
    exists (ShortNode key hd fl), (ShortNode k c' fl), ev. split; [destruct c; try done; by rewrite Eh|].
    constructor; try done.
    + rewrite Em. simpl. by rewrite Hr.
    + apply mraw_short_child; [by destruct c'|by destruct c|done].
    + intros y. rewrite Em. by apply Hrf.
    + intros He. destruct (Hp He) as [[Hst Hcp] (Hco & Hsv & Hcp')]. rewrite Em. cbn [expand]. rewrite <- Eck, compact_hex by by left.
      split_and!; [by apply copies_short|by apply copies_short| |]; simpl; rewrite Forall_singleton; [by apply coherent_at_false|by apply saved_at_false].
Qed.

(** The children of a full node after the loop, collapsed and kept. *)
Lemma full_slots_stand force ch fl cs ev :
  encodable d g force (FullNode ch fl) -> ev_holds ev -> length cs = length ch ->
  (forall j c c', ch !! j = Some c -> cs !! j = Some c' -> slot_hashed 16 j c c' ev) ->
  forall j c c', ch !! j = Some c -> cs !! j = Some c' ->
    slot_copies g d' d (expand None 0 (if (j <? 16)%nat then mref false c else erase c)) c /\ slot_copies g d' d c' c /\ coherent d' c' /\ saved g d' c'.
Proof.
  intros E He Hlen Hs j c c' Hc Hc'. specialize (Hs j c c' Hc Hc'). unfold slot_hashed in Hs.
  destruct (encodable_full _ _ _ _ _ _ _ E Hc) as [[Hj Hcase]|[-> Hcase]].
  - rewrite (proj2 (Nat.ltb_lt j 16)) by done. destruct Hcase as [->|Ec].
    { rewrite bool_decide_false in Hs by naive_solver. subst c'. split_and!; [by left|by left|constructor|constructor]. }
    destruct (plain_ref c false Ec) as [_ Hn]. rewrite bool_decide_true in Hs by done. destruct Hs as [_ Hs].
    destruct (Hs He) as [[_ Hcp] (Hco & Hsv & Hcp')]. pose proof (en_wf _ _ _ _ Ec).
    split_and!; [by right; right|by right; right|by apply coherent_at_false|by apply saved_at_false].
  - rewrite bool_decide_false in Hs by lia. subst c'. simpl. destruct Hcase as [->|(v & Hv & ->)]; (split_and!; [| |constructor..]); (by left) || (right; left; by exists v).
Qed.

Lemma full_children f force ch fl :
  encodable d g force (FullNode ch fl) -> (forall j c, ch !! j = Some c -> encodable d g false c -> hashes f false c) ->
  exists c0 ca ev, hashChildren_with f (FullNode ch fl) = Ok (c0, ca, ev) /\ children_hashed (FullNode ch fl) c0 ca ev.
Proof.
  intros E Hf. pose proof (en_wf _ _ _ _ E) as W. assert (length ch = 17%nat) as Hlen by by inversion W.
  destruct (hash_loop_hashed f ch 16) as (hs & cs & ev & El & H1 & H2 & H3 & H4 & H5).
  { intros j c Hj Hc Hn. apply (Hf j c Hc). by destruct (encodable_full _ _ _ _ _ _ _ E Hc) as [[_ [?|?]]|[-> _]]; [..|lia]. }
  exists (FullNode hs fl), (FullNode cs fl), ev. split; [unfold hashChildren_with; by rewrite El|].
  assert (forall j c', cs !! j = Some c' -> exists c, ch !! j = Some c) as Hback.
  { intros j c' Hc'. apply lookup_lt_is_Some_2. apply lookup_lt_Some in Hc'. lia. }
  constructor; try done.
  - simpl. by rewrite H1.
  - apply mraw_full_pointwise; [done| |].
    + intros j c c' Hj Hc Hc'. specialize (H5 j c c' Hc Hc'). unfold slot_hashed in H5. case_bool_decide; [by destruct H5|by subst].
    + intros j c c' Hj Hc Hc'. specialize (H5 j c c' Hc Hc'). unfold slot_hashed in H5. rewrite bool_decide_false in H5 by lia. by subst.
  - intros y Hy. apply hash_refs_full in Hy as (j & r & Hj & Hr & Hy). pose proof (lookup_lt_Some _ _ _ Hr) as Hl.
    destruct (lookup_lt_is_Some_2 ch j ltac:(lia)) as [c Hc].
    pose proof (mraw_full_lookup ch j c Hlen Hc) as Hr'. rewrite (proj2 (Nat.ltb_lt j 16)) in Hr' by done.
    assert (r = mref false c) as -> by (apply (inj Some); etrans; [symmetry; exact Hr|exact Hr']). by apply (H4 j c).
  - intros He. pose proof (full_slots_stand force ch fl cs ev E He H2 H5) as Hsl. split_and!.
    + apply copies_full; [done|]. apply Forall2_same_length_lookup. split.
      * rewrite length_map, length_app, length_take, length_drop, !length_map. lia.
      * intros j r c Hr Hc. rewrite list_lookup_fmap in Hr. pose proof (mraw_full_lookup ch j c Hlen Hc) as Hr'.
        assert (r = expand None 0 (if (j <? 16)%nat then mref false c else erase c)) as ->.
        { apply (inj Some). etrans; [symmetry; exact Hr|]. exact (f_equal (fmap (expand None 0)) Hr'). }
        destruct (lookup_lt_is_Some_2 cs j) as [c' Hc']; [apply lookup_lt_Some in Hc; lia|]. by apply (Hsl j c c').
    + apply copies_full; [done|]. apply Forall2_same_length_lookup. split; [done|]. intros j c' c Hc' Hc. by apply (Hsl j c c').
    + apply Forall_lookup. intros j c' Hc'. destruct (Hback j c' Hc') as [c Hc]. by apply (Hsl j c c').
    + apply Forall_lookup. intros j c' Hc'. destruct (Hback j c' Hc') as [c Hc]. by apply (Hsl j c c').
Qed.

Lemma saved_children force n : saved_at g d force n -> Forall (saved g d) (children n).
Proof. destruct n; simpl; intros Hs; [constructor|constructor| | |constructor]; [apply Forall_singleton, Hs|apply Forall_lookup, Hs]. Qed.

(** Hashing with a database, of a node whose children are hashed right. *)
Lemma hash_step_commit force n :
  encodable d g force n -> saved_at g d force n -> (forall c, c ∈ children n -> encodable d g false c -> hashes (hash true ol g l) false c) ->
  hashes (hash true ol g l) force n.
Proof.
  intros E Hs Hch. unfold hashes. rewrite hash_unfold. pose proof (en_wf _ _ _ _ E) as W. pose proof (en_coherent _ _ _ _ E) as Hc.
  assert (forall h, cache n = (Some h, false) -> forall ca, ca = n \/ ca = HashNode h -> hashed force n (HashNode h) ca []) as Hclean.
  { intros h Eh ca Hca. destruct n; try done; destruct Hc as [? Hco]; destruct Hs as [? Hcl];
      (apply hash_hashed; [done|apply Hco; by rewrite Eh|by apply Hcl|done|done|done]). }
  assert (plain n = true -> exists hd ca ev, hash_slow true ol g l n force = Ok (hd, ca, ev) /\ hashed force n hd ca ev) as Hslow.
  { intros P. assert (exists c0 ca ev, hashChildren_with (hash true ol g l) n = Ok (c0, ca, ev) /\ children_hashed n c0 ca ev) as (c0 & ca & ev & Ec & HC).
    { destruct n as [|v|k c f|ch f|h]; try done; [eapply short_children|eapply full_children]; try done.
      - intros Ec. apply Hch; [left|done].
      - intros j c Hj Ec. apply Hch; [|done]. simpl. by eapply list_elem_of_lookup_2. }
    destruct (store_hashed force n c0 ca ev E P HC) as (hd & ev2 & Es & Hh). unfold hash_slow. rewrite Ec. simpl. rewrite Es. simpl. eauto. }
  destruct (plain n) eqn:P.
  - destruct (cache n) as [[h|] dirty] eqn:Eca; [|by apply Hslow]. simpl negb. cbn match.
    destruct (canUnload n g l) eqn:Eu.
    + assert (dirty = false) as ->.
      { destruct n; try done; simpl in *; unfold flag_canUnload in Eu; injection Eca as _ Ed; rewrite Ed in Eu; by destruct dirty. }
      eexists _, _, []. split; [done|]. by apply Hclean; [|right].
    + destruct dirty; [by apply Hslow|]. eexists _, _, []. split; [done|]. by apply Hclean; [|left].
  - destruct n as [| | | |h]; try done; try by inversion W. unfold hash_slow. simpl. eexists _, _, _. split; [done|].
    apply hash_hashed; try done; try (by left).
Qed.

Lemma hash_commit n : forall force, encodable d g force n -> saved_at g d force n -> hashes (hash true ol g l) force n.
Proof.
  induction n as [|v|k c f IH|ch f IH|h] using node_nested_ind; intros force E Hs; apply hash_step_commit; try done;
    apply saved_children in Hs; rewrite Forall_forall in Hs; intros c' Hin Ec; simpl in *.
  - by apply not_elem_of_nil in Hin.
  - by apply not_elem_of_nil in Hin.
  - apply list_elem_of_singleton in Hin as ->. apply IH; [done|]. apply saved_at_false, Hs. left.
  - rewrite Forall_forall in IH. apply IH; [done|done|]. by apply saved_at_false, Hs.
  - by apply not_elem_of_nil in Hin.
Qed.
End commit.
