(* ===== verification/TrieReopen.v ===== *)
(** * Tries over a content-addressed store

    Above a store that returns expanded collapsed nodes ([decoded]), the operations of
    a trie keep its clean nodes stored ([trie_run_durable]), [Commit] emits nodes after
    which the trie can be opened at its new root ([Commit_stores]), and [New] opens a
    root that is stored ([New_opens]). *)

From S2P Require Import Prelude Common TrieEncoding Trie TrieSpec TrieMap.
From S2P Require Import TrieCanon Rlp Sha3 TrieHash TrieMerkle RlpRaw TrieBinding TrieProof TrieStore.

(** What the store returns is an expanded node with its own hash. *)
Definition decoded (d : node_store) : Prop :=
  forall h g n, d h g = Some n -> exists r, n = expand (Some h) g r /\ plain r = true.

Section saved_operations.
Context `{Keccak} (d : node_store) (Hdb : db_coherent d) (Hdec : decoded d) (g : Z).

Local Abbreviation saved := (saved g d).
Local Abbreviation saved_at := (saved_at g d).
Local Abbreviation clean_ok := (clean_ok g d).

Lemma clean_new force n : cache n = (None, true) -> clean_ok force n.
Proof. intros E h Eh. congruence. Qed.

Lemma saved_expand n gen : saved (expand None gen n).
Proof.
  induction n as [|v|k c f IH|ch f IH|h] using node_nested_ind; simpl; constructor; try done.
  intros i c. rewrite list_lookup_fmap. intros (c' & Hc & ->)%fmap_Some. rewrite Forall_lookup in IH. by apply (IH i).
Qed.

(** The children of a loaded node are embedded or references. *)
Lemma resolved_children h gen n : d h gen = Some n -> forall i c, children n !! i = Some c -> saved c.
Proof.
  intros Hr i c Hc. destruct (Hdec _ _ _ Hr) as (r & -> & P). destruct r as [|v|k c' f|ch f|?]; try done; simpl in Hc.
  - apply list_lookup_singleton_Some in Hc as [_ <-]. apply saved_expand.
  - rewrite list_lookup_fmap in Hc. apply fmap_Some in Hc as (c' & _ & ->). apply saved_expand.
Qed.

Lemma saved_at_children force n : (forall i c, children n !! i = Some c -> saved c) -> clean_ok force n -> saved_at force n.
Proof. intros Hc Hcl. destruct n; simpl; try done; split; try done. by apply (Hc 0%nat). Qed.

(** A node that is loaded is saved. *)
Lemma resolved_saved force h n :
  wf d g (HashNode h) -> coherent_at d force (HashNode h) -> d (BytesToHash h) g = Some n -> saved_at force n /\ copies g d d n (HashNode h).
Proof.
  intros Hw Hs Hr. destruct (wf_hash_resolves g d h Hw) as (n0 & Hr0 & Hh & Hn). rewrite Hr in Hr0. injection Hr0 as <-.
  assert (plain n = true) as P by by destruct Hn. pose proof (Hs _ _ Hr) as Hm. destruct (hash_ref_id h n P force Hm) as [Hid _].
  assert (copies g d d (HashNode h) n) as Hcp by (eapply copies_hash; [done|by apply copies_refl|done]).
  split; [|by apply copies_sym]. apply saved_at_children; [by eapply resolved_children|]. intros h' Eh. rewrite Hid in Hr.
  destruct (Hdec _ _ _ Hr) as (r & -> & _). assert (h' = h) as -> by (destruct r; by injection Eh). by split.
Qed.

(** ** Lookup *)

Definition loaded_more (force : bool) (n n' : node) (dd : bool) : Prop :=
  if dd then is_value n = false /\ saved_at force n' /\ copies g d d n' n else n' = n.

Lemma clean_copies force n n' :
  wf d g n -> cache n' = cache n -> clean_ok force n -> copies g d d n' n -> clean_ok force n'.
Proof.
  intros Hw Ec Hcl Hcp h Eh. rewrite Ec in Eh. destruct (Hcl h Eh) as [Hs Hk]. split; [done|].
  eapply copies_trans; [done|by apply copies_sym].
Qed.

Lemma more_short force k c c' f gen :
  wf d g (ShortNode k c f) -> saved_at force (ShortNode k c f) -> loaded_more false c c' true ->
  loaded_more force (ShortNode k c f) (ShortNode k c' (NodeFlag (flag_hash f) gen (flag_dirty f))) true.
Proof.
  intros Hw [Hc Hcl] (V & Hs & Hcp). assert (copies g d d (ShortNode k c' (NodeFlag (flag_hash f) gen (flag_dirty f))) (ShortNode k c f)) as Hcp'.
  { by apply copies_short. }
  split_and!; [done| |done]. split; [by apply saved_at_false|]. by eapply clean_copies.
Qed.

Lemma more_full force ch i c c' f gen :
  wf d g (FullNode ch f) -> saved_at force (FullNode ch f) -> ch !! i = Some c -> wf d g c -> loaded_more false c c' true ->
  loaded_more force (FullNode ch f) (FullNode (<[i := c']> ch) (NodeFlag (flag_hash f) gen (flag_dirty f))) true.
Proof.
  intros Hw [Hc Hcl] Hi Hwc (V & Hs & Hcp).
  assert (copies g d d (FullNode (<[i := c']> ch) (NodeFlag (flag_hash f) gen (flag_dirty f))) (FullNode ch f)) as Hcp'.
  { apply copies_full; [done|]. apply Forall2_same_length_lookup. rewrite length_insert. split; [done|]. intros j a b Ha Hb.
    apply list_lookup_insert_Some in Ha as [(-> & <- & _)|[_ Ha]]; [rewrite Hi in Hb; injection Hb as <-; by right; right|].
    rewrite Ha in Hb. injection Hb as <-. destruct (wf_full_slot _ _ _ _ _ _ Hw Ha) as [Hsl Hj].
    destruct (nil_dec a) as [->|Hn]; [by left|]. destruct Hsl as [?|[Hv|Hwa]]; [done| |right; right; split; [by apply copies_refl|done]].
    destruct a as [|v| | |]; try done. right. left. exists v. split; [|done]. inversion Hw as [| |? ? Hlen Hch H16 _|]; subst.
    destruct (decide (j < 16)%nat) as [Hlt|Hge]; [by destruct (wf_not_value _ _ _ v (Hch j _ Hlt Ha Hn))|].
    assert (j = 16%nat) as -> by (apply lookup_lt_Some in Ha; lia). destruct (H16 _ Ha Hn) as (w & Hw' & [= ->]). done. }
  split_and!; [done| |done]. split; [|by apply (clean_copies force (FullNode ch f))]. intros j a. rewrite list_lookup_insert_Some.
  intros [(-> & <- & _)|[_ ?]]; [by apply saved_at_false|by eapply Hc].
Qed.

Lemma tryGet_saved fuel : forall force n key pos v n' dd,
  wf_slot d g n -> coherent_at d force n -> saved_at force n ->
  tryGet d g fuel n key pos = Ok (v, n', dd) -> loaded_more force n n' dd.
Proof.
  induction fuel as [|fuel IH]; intros force n key pos v n' dd Hw Hc Hs E; [done|].
  destruct n as [|w|k c f|ch f|h]; cbn [tryGet] in E; [by inv_ok|by inv_ok| | |]; destruct Hw as [?|[?|Hw]]; try done.
  - case_match; [by inv_ok|]. inv_ok. destruct a as [[v1 c'] [|]]; inv_ok; [|done].
    apply more_short; [done|done|]. eapply IH; [by eapply wf_short_slot| | |done].
    + by apply coherent_at_false; destruct Hc.
    + by apply saved_at_false; destruct Hs.
  - inv_ok. destruct a1 as [[v1 c'] [|]]; inv_ok; [|done]. pose proof (coherent_at_child _ _ _ _ _ _ Hc E1) as Hcc. apply coherent_at_false in Hcc.
    unfold child in E1. case_bool_decide as Hi; [|done]. unfold set_child in E3. case_bool_decide as Hi'; [|done]. injection E3 as <-.
    destruct (wf_full_slot _ _ _ _ _ _ Hw E1) as [Hwc _].
    assert (loaded_more false a0 c' true) as Hl.
    { eapply IH; [done|done| |exact E2]. apply saved_at_false. destruct Hs as [Hs _]. by eapply Hs. }
    apply (more_full force ch (Z.to_nat a) a0); try done. destruct Hwc as [->|[Hv|?]]; [|by destruct Hl; congruence|done].
    by destruct fuel; simplify_eq/=.
  - inv_ok. apply resolveHash_inv in E0. destruct a0 as [[v1 c'] d']. inv_ok.
    destruct (resolved_saved force h a Hw Hc E0) as [Hsa Hcp]. destruct (resolve_coherent d Hdb _ _ _ _ Hc E0) as (C1 & _ & _).
    pose proof (IH _ _ _ _ _ _ _ (or_intror (or_intror (cp_wf _ _ _ _ _ Hcp))) C1 Hsa E1) as Hl.
    destruct d'; [|simpl in Hl; by subst n']. destruct Hl as (_ & Hs' & Hcp'). split_and!; [done|done|by eapply copies_trans].
Qed.

(** ** Insertion and deletion *)

Lemma saved_short force k c : saved c -> saved_at force (ShortNode k c (newFlag g)).
Proof. intros Hc. split; [done|]. by apply clean_new. Qed.

Lemma saved_full force ch : (forall j c, ch !! j = Some c -> saved c) -> saved_at force (FullNode ch (newFlag g)).
Proof. intros Hc. split; [done|]. by apply clean_new. Qed.

Lemma saved_set_child ch i m ch' :
  (forall j c, ch !! j = Some c -> saved c) -> saved m -> set_child ch i m = Some ch' -> forall j c, ch' !! j = Some c -> saved c.
Proof.
  intros Hc Hm. unfold set_child. case_bool_decide; [|done]. intros [= <-] j c. rewrite list_lookup_insert_Some. naive_solver.
Qed.

Lemma saved_child force ch f i c : saved_at force (FullNode ch f) -> child ch i = Some c -> saved c.
Proof. intros [Hc _]. unfold child. case_bool_decide; [|done]. apply Hc. Qed.

Lemma wf_slot_child force ch f i c : wf d g (FullNode ch f) -> coherent_at d force (FullNode ch f) -> child ch i = Some c -> wf_slot d g c /\ coherent_at d false c.
Proof.
  intros Hw Hc Hi. split; [|apply coherent_at_false; by eapply coherent_at_child]. unfold child in Hi. case_bool_decide; [|done].
  by eapply wf_full_slot.
Qed.

Lemma saved_any force n : saved n -> saved_at force n.
Proof.
  rewrite saved_at_false. destruct force; [|done].
  assert (clean_ok false n -> clean_ok true n) as Hcl.
  { intros Hcl h Eh. destruct (Hcl h Eh) as [Hs Hk]. split; [|done]. intros gen m Hm. by apply mref_force, (Hs gen). }
  destruct n; simpl; try done; intros [? ?]; auto.
Qed.

Lemma insert_saved fuel : forall force n prefix key value dd n',
  wf_slot d g n -> coherent_at d force n -> saved_at force n -> saved value ->
  trie_insert d g fuel n prefix key value = Ok (dd, n') -> saved_at force n'.
Proof.
  induction fuel as [|fuel IH]; intros force n prefix key value dd n' Hw Hc Hs Hv E; [done|].
  cbn [trie_insert] in E. destruct key as [|k0 krest].
  { assert (n' = value) as -> by (repeat case_match; by simplify_eq). by apply saved_any. }
  destruct n as [|w|k c f|ch f|h]; [by inv_ok; apply saved_short|done| | |]; destruct Hw as [?|[?|Hw]]; try done.
  - case_match.
    + inv_ok. destruct a as [[|] nn]; inv_ok; [|done]. apply saved_short, saved_at_false. destruct Hs as [Hs _], Hc as [Hc _].
      eapply IH; [by eapply wf_short_slot|by apply coherent_at_false|by apply saved_at_false|exact Hv|done].
    + inv_ok. destruct a0 as [d1 b1]. inv_ok. destruct a2 as [d2 b2]. inv_ok. destruct Hs as [Hs _].
      assert (saved_at false (FullNode a2 (newFlag g))) as Hfull.
      { apply saved_full. eapply saved_set_child; [|..|done].
        - eapply saved_set_child; [intros ? ? [-> _]%lookup_replicate_1; constructor| |done].
          apply saved_at_false. eapply (IH false Nil _ _ c); [by left|exact I|exact I|exact Hs|exact E1].
        - apply saved_at_false. eapply (IH false Nil _ _ value); [by left|exact I|exact I|exact Hv|exact E4]. }
      apply saved_at_false in Hfull.
      match goal with E : (if ?b then _ else _) = Ok _ |- _ => destruct b end; inv_ok; [by apply saved_any|by apply saved_short].
  - inv_ok. destruct a0 as [[|] nn]; inv_ok; [|done]. destruct (wf_slot_child _ _ _ _ _ Hw Hc E0) as [Hwc Hcc].
    pose proof (saved_child _ _ _ _ _ Hs E0) as Hsc. apply saved_full. eapply saved_set_child; [apply Hs| |done].
    apply saved_at_false. eapply IH; [done|done|by apply saved_at_false|exact Hv|done].
  - inv_ok. apply resolveHash_inv in E0. destruct (resolved_saved force h a Hw Hc E0) as [Hsa Hcp].
    destruct (resolve_coherent d Hdb _ _ _ _ Hc E0) as (C1 & _ & _). destruct a0 as [[|] nn]; inv_ok; [|done].
    eapply IH; [|done..]. right. right. apply Hcp.
Qed.

Lemma resolve_saved n p n' : saved n -> resolve d g n p = Ok n' -> forall i c, children n' !! i = Some c -> saved c.
Proof.
  intros Hs E. destruct n; simpl in E; inv_ok; try (by intros i c ?); [| |apply resolveHash_inv in E; by eapply resolved_children]; inversion Hs; subst.
  - intros i x. by intros [_ <-]%list_lookup_singleton_Some.
  - done.
Qed.

Lemma delete_saved fuel : forall force n prefix key dd n',
  wf_slot d g n -> coherent_at d force n -> saved_at force n ->
  trie_delete d g fuel n prefix key = Ok (dd, n') -> saved_at force n'.
Proof.
  induction fuel as [|fuel IH]; intros force n prefix key dd n' Hw Hc Hs E; [done|].
  cbn [trie_delete] in E. destruct n as [|w|k c f|ch f|h]; [by inv_ok|by inv_ok| | |]; destruct Hw as [?|[?|Hw]]; try done.
  - case_match; [by inv_ok|]. case_match; [by inv_ok|]. inv_ok.
    destruct a as [[|] nn]; inv_ok; [|done]. destruct Hc as [Hc%coherent_at_false _], Hs as [Hs%saved_at_false _].
    pose proof (IH _ _ _ _ _ _ (wf_short_slot _ _ _ _ _ Hw) Hc Hs E0) as Hnn.
    destruct nn; inv_ok; apply saved_short; try (by apply saved_at_false). apply Hnn.
  - inv_ok. destruct a1 as [[|] nn]; inv_ok; [|done]. destruct (wf_slot_child _ _ _ _ _ Hw Hc E1) as [Hwc Hcc].
    pose proof (saved_child _ _ _ _ _ Hs E1) as Hsc%saved_at_false. pose proof (IH _ _ _ _ _ _ Hwc Hcc Hsc E2) as Hnn%saved_at_false.
    assert (forall j c, a1 !! j = Some c -> saved c) as Hch by (eapply saved_set_child; [apply Hs|done|done]).
    case_bool_decide; inv_ok; [|by apply saved_full].
    assert (saved a2) as Honly by (unfold child in E4; destruct (bool_decide _) in E4; [eauto|done]).
    case_bool_decide; inv_ok; [|by apply saved_short]. pose proof (resolve_saved _ _ _ Honly E5) as Hch3.
    destruct a3; inv_ok; apply saved_short; try done. by apply (Hch3 0%nat).
  - inv_ok. apply resolveHash_inv in E0. destruct (resolved_saved force h a Hw Hc E0) as [Hsa Hcp].
    destruct (resolve_coherent d Hdb _ _ _ _ Hc E0) as (C1 & _ & _). destruct a0 as [[|] nn]; inv_ok; [|done].
    eapply IH; [|done..]. right. right. apply Hcp.
Qed.
End saved_operations.

(** ** Operations over a larger store *)

Section larger.
Context (d d' : node_store) (Hx : extends d d') (g : Z).

Lemma resolveHash_extends h p n : resolveHash d g h p = Ok n -> resolveHash d' g h p = Ok n.
Proof. intros E%resolveHash_inv. unfold resolveHash. by rewrite (Hx _ _ _ E). Qed.

Lemma resolve_extends n p n' : resolve d g n p = Ok n' -> resolve d' g n p = Ok n'.
Proof. destruct n; try done. apply resolveHash_extends. Qed.

Lemma bind_extends {E A B} (m m' : outcome E A) (k k' : A -> outcome E B) b :
  (forall a, m = Ok a -> m' = Ok a) -> (forall a, k a = Ok b -> k' a = Ok b) -> m ≫= k = Ok b -> m' ≫= k' = Ok b.
Proof. intros Hm Hk. destruct m as [a| | |]; try done. rewrite (Hm a) by done. apply Hk. Qed.

Ltac larger :=
  repeat first
    [ done
    | apply bind_extends; [eauto using resolveHash_extends, resolve_extends|]
    | match goal with
      | |- (match ?x with _ => _ end) = _ -> _ => destruct x
      | |- forall _ : _ * _, _ => intros [? ?]
      | |- forall _, _ = _ -> _ => intros ?
      end ].

Lemma tryGet_extends fuel : forall n key pos r, tryGet d g fuel n key pos = Ok r -> tryGet d' g fuel n key pos = Ok r.
Proof. induction fuel as [|fuel IH]; intros n key pos r; [done|]. cbn [tryGet]. destruct n; larger. Qed.

Lemma insert_extends fuel : forall n prefix key value r, trie_insert d g fuel n prefix key value = Ok r -> trie_insert d' g fuel n prefix key value = Ok r.
Proof. induction fuel as [|fuel IH]; intros n prefix key value r; [done|]. cbn [trie_insert]. destruct key; [done|]. destruct n; larger. Qed.

Lemma delete_extends fuel : forall n prefix key r, trie_delete d g fuel n prefix key = Ok r -> trie_delete d' g fuel n prefix key = Ok r.
Proof. induction fuel as [|fuel IH]; intros n prefix key r; [done|]. cbn [trie_delete]. destruct n; larger. Qed.
End larger.

Lemma trie_step_extends d d' t o r : extends d d' -> trie_step d t o = Ok r -> trie_step d' t o = Ok r.
Proof.
  intros Hx. destruct o as [k|k v|k]; simpl.
  - unfold TryGet. apply bind_extends; [|done]. intros a. by apply tryGet_extends.
  - apply bind_extends; [|done]. intros t'. unfold TryUpdate. destruct v; (apply bind_extends; [|done]); intros a; [by apply delete_extends|by apply insert_extends].
  - apply bind_extends; [|done]. intros t'. unfold TryDelete. apply bind_extends; [|done]. intros a. by apply delete_extends.
Qed.

Lemma trie_run_extends d d' os : forall t r, extends d d' -> trie_run d t os = Ok r -> trie_run d' t os = Ok r.
Proof.
  induction os as [|o os IH]; intros t r Hx; [done|]. simpl. apply bind_extends; [intros a; by apply trie_step_extends|].
  intros [v t']. apply bind_extends; [intros a; by apply IH|done].
Qed.

Lemma New_extends d d' h t : extends d d' -> New d h = Ok t -> New d' h = Ok t.
Proof. intros Hx. unfold New. destruct (_ && _); [|done]. apply bind_extends; [|done]. intros n. by apply resolveHash_extends. Qed.

(** ** Tries *)

Section durable.
Context `{Keccak}.

(** A trie with right hashes whose clean nodes are stored. *)
Record durable (d : node_store) (t : Trie) (m : gmap (list Z) (list Z)) : Prop := {
  du_sound : sound d t m;
  du_saved : saved_at (cachegen t) d true (root t)
}.

(** What is asked of a store. *)
Record store_ok (d : node_store) : Prop := {
  so_coherent : db_coherent d;
  so_decoded : decoded d;
  so_uniform : uniform d
}.

Lemma root_slot d t m : sound d t m -> wf_slot d (cachegen t) (root t).
Proof. intros [R _]. destruct (rep_wf _ _ _ R) as [?|?]; [by left|by right; right]. Qed.

Lemma trie_step_durable d t m o :
  store_ok d -> durable d t m -> bytes_ok (op_key o) ->
  exists t', trie_step d t o = Ok ((map_step m o).1, t') /\ durable d t' (map_step m o).2.
Proof.
  intros [Sc Sd Su] [Hs Hv] Hk. destruct (trie_step_sound d Sc t m o Hs Hk) as (t' & E & Hs'). exists t'. split; [done|]. constructor; [done|].
  pose proof (root_slot _ _ _ Hs) as Hw. pose proof (sound_coh _ _ _ Hs) as Hc. destruct o as [k|k v|k]; simpl in *.
  - unfold TryGet in E. inv_ok. destruct a as [[v1 n'] [|]]; inv_ok; [|done]. eapply tryGet_saved in E0; try done. by destruct E0 as (_ & ? & _).
  - inv_ok. unfold TryUpdate in E0. destruct v as [|b v]; inv_ok;
      match goal with p : (bool * node)%type |- _ => destruct p as [? n'] end; inv_ok; simpl.
    + by eapply delete_saved.
    + eapply insert_saved; try done. constructor.
  - inv_ok. unfold TryDelete in E0. inv_ok. match goal with p : (bool * node)%type |- _ => destruct p as [? n'] end; inv_ok; simpl.
    by eapply delete_saved.
Qed.

Lemma trie_run_durable d os : forall t m,
  store_ok d -> durable d t m -> Forall (fun o => bytes_ok (op_key o)) os ->
  exists t', trie_run d t os = Ok ((map_run m os).1, t') /\ durable d t' (map_run m os).2.
Proof.
  induction os as [|o os IH]; intros t m So Hd Hk; [by exists t|]. apply Forall_cons in Hk as [Hk Hks].
  destruct (trie_step_durable d t m o So Hd Hk) as (t1 & E1 & Hd1). destruct (IH t1 _ So Hd1 Hks) as (t2 & E2 & Hd2).
  exists t2. simpl. rewrite E1. simpl. rewrite E2. destruct (map_step m o) as [r m1]. simpl in *. by destruct (map_run m1 os).
Qed.

(** *** Opening *)

Lemma copies_gen d1 d2 g g' n1 n2 : uniform d1 -> uniform d2 -> copies g d1 d2 n1 n2 -> copies g' d1 d2 n1 n2.
Proof.
  intros U1 U2 [W Hh B]. constructor; [by eapply wf_gen| |].
  - intros k v. split; intros Hx; (eapply has_gen; [done|]); apply Hh; by eapply has_gen.
  - split; intros Hx; (eapply branch_gen; [done|]); apply B; by eapply branch_gen.
Qed.

Lemma saved_gen d g g' n : uniform d -> saved g d n -> saved g' d n.
Proof.
  intros U. assert (forall n, clean_ok g d false n -> clean_ok g' d false n) as Hcl.
  { intros n' Hcl h Eh. destruct (Hcl h Eh) as [? ?]. split; [done|]. by eapply copies_gen. }
  induction n as [|v|k c f IH|ch f IH|h] using node_nested_ind; intros Hs; inversion Hs; subst; constructor; auto.
  intros i c Hi. rewrite Forall_lookup in IH. eauto.
Qed.

Lemma saved_at_gen d g g' force n : uniform d -> saved_at g d force n -> saved_at g' d force n.
Proof.
  intros U. assert (clean_ok g d force n -> clean_ok g' d force n) as Hcl.
  { intros Hcl h Eh. destruct (Hcl h Eh) as [? ?]. split; [done|]. by eapply copies_gen. }
  destruct n; simpl; try done; intros [Hs ?]; split; auto; [by eapply saved_gen|intros i c Hi; eapply saved_gen; eauto].
Qed.

(** The hash of a root that is stored: the node, with the bindings of [m]. *)
Record rooted (d : node_store) (h : list Z) (m : gmap (list Z) (list Z)) : Prop := {
  rt_id : BytesToHash h = h;
  rt_stored : stored_ok d true h;
  rt_rep g : represents d (mkTrie (HashNode h) [] None g 0) m;
  rt_wf g : wf d g (HashNode h)
}.

(** [New] opens a stored root. *)
Lemma New_opens d h m :
  store_ok d -> rooted d h m -> h <> emptyHash -> h <> emptyRoot -> exists t, New d h = Ok t /\ durable d t m.
Proof.
  intros [Sc Sd Su] [Hid Hst Hrep Hwf] Hz He. destruct (wf_hash_resolves 0 d h (Hwf 0)) as (n & Hr & Hh & Hn).
  unfold New. rewrite !bool_decide_true by done. unfold resolveHash. rewrite Hr. simpl. eexists. split; [done|].
  destruct (resolved_saved d Sd 0 true h n (Hwf 0) Hst Hr) as [Hsv Hcp]. constructor; [|done]. constructor.
  - constructor; simpl.
    + by right.
    + apply (rep_keys _ _ _ (Hrep 0)).
    + intros hk v. rewrite (cp_has _ _ _ _ _ Hcp). apply (rep_has _ _ _ (Hrep 0)).
  - simpl. by apply (Sc _ _ _ Hr).
Qed.

(** *** Commit *)

Lemma extends_refl d : extends d d.
Proof. by intros h g n. Qed.

(** Hashing the root with a database: the same computation for every later store. *)
Lemma hash_root_commit ol l d g n :
  store_ok d -> encodable d g true n -> saved_at g d true n ->
  exists hd ca ev, hash true ol g l n true = Ok (hd, ca, ev) /\ erase hd = mref true n /\ (forall ev0, ordered g d ev0 ev) /\
    forall d', extends d d' -> uniform d' -> ev_holds d' ev -> stands g d d' true (mref true n) n /\ remains g d d' true ca n.
Proof.
  intros [Sc Sd Su] E Hs. destruct (hash_commit ol g l d d Sc (extends_refl d) Su n true E Hs) as (hd & ca & ev & Eh & [Hr _ _ Ho _ _]).
  exists hd, ca, ev. split_and!; [done|done|done|]. intros d' Hx Hu He.
  destruct (hash_commit ol g l d d' Sc Hx Hu n true E Hs) as (hd' & ca' & ev' & Eh' & [_ _ _ _ _ Hp]).
  rewrite Eh in Eh'. injection Eh' as <- <- <-. auto.
Qed.

Lemma represents_copies d d' g t t' m n n' :
  uniform d' -> represents d t m -> root t = n -> cachegen t = g -> root t' = n' -> copies g d' d n' n -> represents d' t' m.
Proof.
  intros U R <- <- <- [W Hh _]. constructor.
  - right. by eapply wf_gen.
  - apply (rep_keys _ _ _ R).
  - intros hk v. rewrite <- (rep_has _ _ _ R), <- Hh. split; by apply has_gen.
Qed.

(** [Commit] of a trie that is not empty. *)
Lemma Commit_stores ol d t m :
  store_ok d -> durable d t m -> short_map m -> root t <> Nil ->
  exists h t' ev, Commit ol t = Ok (h, t', ev) /\ h = merkle_root (root t) /\ (forall ev0, ordered (cachegen t) d ev0 ev) /\
    forall d', store_ok d' -> extends d d' -> ev_holds d' ev -> rooted d' h m /\ durable d' t' m.
Proof.
  intros So [Hs Hv] Hm Hn. pose proof (sound_encodable d t m Hs Hm Hn) as E.
  destruct (hash_root_commit ol (cachelimit t) d (cachegen t) (root t) So E Hv) as (hd & ca & ev & Eh & Hr & Ho & Hp).
  destruct (mref_true_hash d _ _ (en_wf _ _ _ _ E)) as [h Hmr].
  assert (hd = HashNode h) as -> by (rewrite Hmr in Hr; destruct hd; simplify_eq/=; done).
  exists (BytesToHash h), (mkTrie ca (originalRoot t) (tprefix t) (u16 (cachegen t + 1)) (cachelimit t)), ev. split_and!.
  - unfold Commit, hashRoot. destruct (root t); [done|..]; rewrite Eh; done.
  - unfold merkle_root. by rewrite Hmr.
  - done.
  - intros d' So' Hx He. destruct (Hp d' Hx (so_uniform _ So') He) as [[Hst Hcp] (Hco & Hsv & Hcp')]. rewrite Hmr in *. specialize (Hst h eq_refl).
    pose proof (sound_rep _ _ _ Hs) as R. assert (BytesToHash h = h) as Eid.
    { destruct (wf_hash_resolves _ _ _ (cp_wf _ _ _ _ _ Hcp)) as (n1 & Hr1 & Hh1 & Hn1). assert (plain n1 = true) as P1 by by destruct Hn1.
      exact (proj1 (hash_ref_id h n1 P1 true (Hst _ _ Hr1))). }
    rewrite Eid. split.
    + constructor; [done|done| |].
      * intros g. by eapply (represents_copies d d' (cachegen t) t _ m); [apply So'|..].
      * intros g. eapply wf_gen; [apply So'|apply Hcp].
    + constructor; [constructor|].
      * by eapply (represents_copies d d' (cachegen t) t _ m); [apply So'|..].
      * done.
      * simpl. by eapply saved_at_gen; [apply So'|].
Qed.

Lemma Commit_empty ol t : root t = Nil ->
  Commit ol t = Ok (emptyRoot, mkTrie Nil (originalRoot t) (tprefix t) (u16 (cachegen t + 1)) (cachelimit t), []).
Proof. intros E. unfold Commit, hashRoot. by rewrite E. Qed.

Lemma New_empty d : exists t, New d emptyRoot = Ok t /\ durable d t ∅.
Proof.
  unfold New. rewrite (bool_decide_false (emptyRoot <> emptyRoot)) by naive_solver. rewrite andb_false_r. eexists. split; [done|].
  constructor; [|done]. constructor; [|done]. by apply represents_empty.
Qed.
End durable.
