(* ===== verification/TrieDbStore.v ===== *)
(** * Tries in the trie node database

    [TrieDb.Database] as the node store of a trie ([dbnode_of]): what is inserted by
    [Trie.Commit] is read back as the decoded node, from the memory or from the disk.
    [commit_inserts]: after [Commit] the database opens the new root with the bindings
    of the trie.  [rooted_held]: a root that is held keeps its bindings whatever is
    inserted, released, capped and committed meanwhile.  [trie_survives] joins the two
    with the operations of the trie. *)

From S2P Require Import Prelude Common TrieEncoding Trie TrieSpec TrieMap.
From S2P Require Import TrieCanon Rlp Sha3 TrieHash TrieMerkle RlpRaw TrieBinding TrieProof TrieDb TrieDbInv TrieDbSpec TrieDbGc TrieStore TrieReopen.

(** ** Collapsed nodes in the cache *)

(** A slot of a collapsed node and its simplified form. *)
Record simplified (c : node) (s : rnode) : Prop := {
  sm_run : (if is_nil c then Some RawNil else simplifyNode c) = Some s;
  sm_gather : gatherChildren s = Some (hash_refs c);
  sm_expand hash gen : is_nil c = false -> expandNode hash gen s = Some (expand hash gen c);
  sm_nil : rnode_is_nil s = is_nil c;
  sm_rval : is_nil c = false -> rnode_rval s = node_rval c;
  sm_blob b : s <> RawNode b
}.

Lemma simplified_nil : simplified Nil RawNil.
Proof. by constructor. Qed.
Lemma simplified_value v : simplified (ValueNode v) (RawValue v).
Proof. by constructor. Qed.
Lemma simplified_hash h : simplified (HashNode h) (RawHash h).
Proof. by constructor. Qed.

Lemma simplified_short k hk c f s :
  compactToHex k = Some hk -> c <> Nil -> simplified c s -> simplified (ShortNode k c f) (RawShort k s).
Proof.
  intros Hk Hn [R G E N V B]. assert (is_nil c = false) as Ec by by destruct c. rewrite Ec in *. constructor; try done.
  - simpl. by rewrite R.
  - intros hash gen _. simpl. rewrite Hk. simpl. by rewrite E.
  - intros _. simpl. by rewrite V.
Qed.

Lemma simplified_full ch f ss : Forall2 simplified ch ss -> simplified (FullNode ch f) (RawFull ss).
Proof.
  intros HF. constructor; try done.
  - simpl. set (go := fix go (l : list node) : option (list rnode) := _). assert (go ch = Some ss) as ->; [|done].
    induction HF as [|c s ch ss Hc _ IH]; [done|]. simpl. by rewrite (sm_run _ _ Hc), IH.
  - simpl. generalize 16%nat. induction HF as [|c s ch ss Hc _ IH]; intros i; [by destruct i|]. destruct i as [|i]; [done|].
    simpl. rewrite (sm_gather _ _ Hc). simpl. by rewrite (IH i).
  - intros hash gen _. simpl. set (go := fix go (l : list rnode) : option (list node) := _).
    assert (go ss = Some (map (expand None gen) ch)) as ->; [|done]. induction HF as [|c s ch ss Hc _ IH]; [done|]. simpl. rewrite (sm_nil _ _ Hc).
    destruct (is_nil c) eqn:Ec; [destruct c; try done; simpl; by rewrite IH|]. rewrite (sm_expand _ _ Hc) by done. simpl. by rewrite IH.
  - intros _. simpl. do 2 f_equal. induction HF as [|c s ch ss Hc _ IH]; [done|]. simpl. rewrite IH, (sm_nil _ _ Hc).
    destruct (is_nil c) eqn:Ec; [done|]. by rewrite (sm_rval _ _ Hc).
Qed.

Lemma Forall_choose {A B} (R : A -> B -> Prop) l : Forall (fun a => exists b, R a b) l -> exists k, Forall2 R l k.
Proof. induction 1 as [|a l [b Hb] _ [k Hk]]; [by exists []|]. exists (b :: k). by constructor. Qed.

Lemma raw_simplified n : raw_ok n -> exists s, simplified n s.
Proof.
  induction n as [|v|k c f IH|ch f IH|h] using node_nested_ind; intros Hn; inversion Hn as [|? ? ? ? Hk _ Hs Hne|ch' w ? Hl Hc Hv]; subst.
  - eexists. eapply simplified_short; [done|done|apply simplified_value].
  - assert (exists s, simplified c s) as [s Hs']; [|eexists; by eapply simplified_short].
    destruct Hs as [|h Hh|c Hc _]; [eexists; apply simplified_nil|eexists; apply simplified_hash|by apply IH].
  - destruct (Forall_choose simplified (ch' ++ [w])) as [ss Hss]; [|eexists; by apply simplified_full].
    apply Forall_app in IH as [IH _]. apply Forall_app. split.
    + apply Forall_lookup. intros i c Hi. rewrite Forall_lookup in IH.
      destruct (Hc i c Hi) as [|h Hh|x Hx _]; [eexists; apply simplified_nil|eexists; apply simplified_hash|by eapply IH].
    + apply Forall_singleton. destruct Hv as [->|(b & _ & ->)]; eexists; [apply simplified_nil|apply simplified_value].
Qed.

Lemma simplify_erase n : simplifyNode (erase n) = simplifyNode n.
Proof.
  induction n as [|v|k c f IH|ch f IH|h] using node_nested_ind; try done; simpl; [by rewrite IH|]. f_equal.
  induction IH as [|c ch Hc _ IH]; [done|]. simpl. rewrite Hc, IH. by destruct c.
Qed.

(** ** The nodes of tries *)

(** The node under a hash, from the memory or from the disk. *)
Definition dbnode_of (db : Database) : node_store :=
  fun h gen => match db_node h gen db with Ok (_, inr (Some n)) => Some n | _ => None end.

Section trie_nodes.
Context `{Keccak} `{MapOrder} (content : list Z -> list Z) (rank : list Z -> nat).

Local Abbreviation Inv := (@Inv _ content rank).

(** [r] is a collapsed trie node with the hash [h]; what it refers to by hash is too
    long to be embedded. *)
Record trie_node (h : list Z) (r : node) : Prop := {
  tn_collapsed : collapsed r;
  tn_size : Z.of_nat (length (encode_item (node_item r))) < 2 ^ 64;
  tn_content : content h = blob r;
  tn_hash : keccak256 (blob r) = h;
  tn_nonzero : h <> emptyHash;
  tn_refs y : y ∈ hash_refs r -> (32 <= length (content y))%nat /\ (rank y < rank h)%nat
}.

Lemma trie_node_blob h r : trie_node h r -> blob r = encode_item (node_item r).
Proof.
  intros [[Hr Em] Hs _ _ _ _]. rewrite <- Em at 1 2. apply blob_item. unfold fits. by rewrite Em.
Qed.

Lemma trie_node_decode h r hash gen : trie_node h r -> decodeNode hash (content h) gen = Ok (expand hash gen r).
Proof.
  intros Hn. rewrite (tn_content _ _ Hn), (trie_node_blob h r Hn). apply decode_raw; [apply Hn|apply Hn].
Qed.

Lemma trie_node_unique h r r' : trie_node h r -> trie_node h r' -> r = r'.
Proof.
  intros Hn Hn'. pose proof (trie_node_decode h r None 0 Hn) as E. rewrite (trie_node_decode h r' None 0 Hn') in E. injection E as E.
  rewrite <- (collapsed_mraw None 0 r) by apply Hn. by rewrite <- (collapsed_mraw None 0 r') by apply Hn'; rewrite E.
Qed.

(** *** Reading *)

Lemma db_node_run db x gen :
  db_node x gen db = match d_nodes db !! x with
                     | Some n => match cached_obj n x gen with Some o => Ok (db, inr (Some o)) | None => Panic end
                     | None =>
                         match d_disk db !! x with
                         | Some b => match mustDecodeNode (Some x) b gen with Ok n => Ok (db, inr (Some n)) | _ => Panic end
                         | None => Ok (db, inr None)
                         end
                     end.
Proof.
  unfold db_node. rewrite (sm_bind_ok _ _ _ (add_readers 1 db) tt) by done. rewrite (sm_bind_ok _ _ _ _ (d_nodes db)) by done.
  rewrite (sm_bind_ok _ _ _ db tt) by (unfold runlock, modify; by rewrite read_unlocked).
  destruct (d_nodes db !! x) as [n|]; [by destruct (cached_obj n x gen)|]. rewrite (sm_bind_ok _ _ _ db (d_disk db)) by done.
  destruct (d_disk db !! x) as [b|]; [|done]. by destruct (mustDecodeNode _ _ _).
Qed.

Lemma dbnode_unknown db h gen : ~ known db h -> dbnode_of db h gen = None.
Proof.
  intros Hk. unfold dbnode_of, known, on_disk in *. rewrite db_node_run. destruct (d_nodes db !! h); [destruct Hk; left; by eexists|].
  destruct (d_disk db !! h); [destruct Hk; right; by eexists|done].
Qed.

Lemma trie_node_length h r : trie_node h r -> length h = HashLength.
Proof. intros Hn. rewrite <- (tn_hash _ _ Hn). apply keccak256_ok. Qed.

Lemma dbnode_known db L l h r gen :
  Inv db L l [] [] -> trie_node h r -> known db h -> dbnode_of db h gen = Some (expand (Some h) gen r).
Proof.
  intros I Hn Hk. unfold dbnode_of. rewrite db_node_run. pose proof (trie_node_decode h r (Some h) gen Hn) as Hdec.
  destruct (d_nodes db !! h) as [n|] eqn:En.
  - destruct (proj1 (inv_dom _ _ _ _ _ I h)) as [Hz|Hin]; [by eexists|by destruct (tn_nonzero _ _ Hn)|]. rewrite app_nil_r in Hin.
    by rewrite (nd_obj _ _ (inv_node _ _ _ _ _ I h n Hin En) gen _ Hdec).
  - destruct Hk as [[? Hk]|[b Hb]]; [congruence|]. rewrite Hb. rewrite (inv_content _ _ _ _ _ I h b Hb (trie_node_length h r Hn)).
    unfold mustDecodeNode. by rewrite Hdec.
Qed.

(** *** The store of the trie nodes *)

(** The database restricted to the hashes of trie nodes: other blobs are not read as
    nodes. *)
Definition view (db : Database) (S : gset (list Z)) : node_store :=
  fun h gen => if bool_decide (h ∈ S) then dbnode_of db h gen else None.

Definition all_nodes (S : gset (list Z)) : Prop := forall h, h ∈ S -> exists r, trie_node h r.

Lemma view_extends db S : extends (view db S) (dbnode_of db).
Proof. intros h gen n. unfold view. by case_bool_decide. Qed.

Section view.
Context (db : Database) (L : list Z -> list (list Z)) (l : list (list Z)) (S : gset (list Z)).
Context (I : Inv db L l [] []) (HS : all_nodes S).

Lemma known_dec h : known db h \/ ~ known db h.
Proof.
  unfold known, on_disk. destruct (d_nodes db !! h); [left; left; by eexists|]. destruct (d_disk db !! h); [left; right; by eexists|].
  right. intros [[]|[]]; done.
Qed.

Lemma view_some h gen n : view db S h gen = Some n -> exists r, trie_node h r /\ n = expand (Some h) gen r /\ h ∈ S /\ known db h.
Proof.
  unfold view. case_bool_decide as Hh; [|done]. intros Hn. destruct (HS h Hh) as [r Hr].
  destruct (known_dec h) as [Hk|Hk]; [|by rewrite dbnode_unknown in Hn]. exists r. split_and!; try done.
  rewrite (dbnode_known db L l h r gen I Hr Hk) in Hn. by injection Hn.
Qed.

Lemma view_node h r gen : h ∈ S -> trie_node h r -> known db h -> view db S h gen = Some (expand (Some h) gen r).
Proof. intros Hh Hr Hk. unfold view. rewrite bool_decide_true by done. by apply (dbnode_known db L l). Qed.

Lemma BytesToHash_32 h : length h = 32%nat -> BytesToHash h = h.
Proof. intros Hl. unfold BytesToHash. by apply setBytes_id. Qed.

(** What a long node is referred to as. *)
Lemma ref_long y r gen : trie_node y r -> (32 <= length (content y))%nat -> mref false (expand (Some y) gen r) = HashNode y.
Proof.
  intros Hr Hl. unfold mref. rewrite collapsed_mraw by apply Hr. rewrite collapse_ref_plain.
  - unfold embeds. rewrite <- (tn_content _ _ Hr), (proj2 (Nat.ltb_ge _ _)) by done. by rewrite (tn_content _ _ Hr), (tn_hash _ _ Hr).
  - destruct (tn_collapsed _ _ Hr) as [Hk _]. by destruct Hk.
Qed.

Lemma view_stored x : length x = 32%nat -> (32 <= length (content x))%nat -> stored_ok (view db S) false x.
Proof.
  intros Hx Hl gen n. rewrite BytesToHash_32 by done. intros (r & Hr & -> & _)%view_some. by apply ref_long.
Qed.

(** The children of a collapsed node: slots, or a value. *)
Lemma raw_child n i c : raw_ok n -> children n !! i = Some c -> (raw_slot c \/ is_value c = true) /\ (hash_refs c ⊆ hash_refs n \/ hash_refs c = []).
Proof.
  destruct 1 as [k hk v f _ _|k hk c' f _ _ Hs _|ch v f Hl Hc Hv]; simpl.
  - intros [_ <-]%list_lookup_singleton_Some. split; [by right|by right].
  - intros [_ <-]%list_lookup_singleton_Some. split; [by left|by left].
  - intros Hi. destruct (decide (i < 16)%nat) as [Hlt|Hge].
    + split; [left; apply (Hc i); by rewrite lookup_app_l in Hi by lia|left]. intros y Hy. apply (hash_refs_full (ch ++ [v]) f). eauto.
    + rewrite lookup_app_r in Hi by lia. apply list_lookup_singleton_Some in Hi as [_ <-].
      destruct Hv as [->|(b & _ & ->)]; split; try (by right); left; constructor.
Qed.

Lemma cached_ok_embedded force n gen : cached_ok force (expand None gen n).
Proof. intros h. by destruct n. Qed.

Lemma view_slot c gen : raw_slot c \/ is_value c = true -> (forall y, y ∈ hash_refs c -> (32 <= length (content y))%nat) -> coherent (view db S) (expand None gen c).
Proof.
  assert (forall n i c, raw_ok n -> children n !! i = Some c -> (forall y, y ∈ hash_refs n -> (32 <= length (content y))%nat) ->
    forall y, y ∈ hash_refs c -> (32 <= length (content y))%nat) as Hsub.
  { intros n i c' Hn Hi Hy y Hc. destruct (raw_child n i c' Hn Hi) as [_ [Hs|Hs]]; [auto|rewrite Hs in Hc; by apply not_elem_of_nil in Hc]. }
  induction c as [|v|k c f IH|ch f IH|h] using node_nested_ind; intros Hc Hy; simpl.
  - constructor.
  - constructor.
  - assert (raw_ok (ShortNode k c f)) as Hn by (destruct Hc as [Hc|]; [by inversion Hc|done]). destruct (raw_child _ 0 c Hn eq_refl) as [Hs _]. constructor; [|apply (cached_ok_embedded false (ShortNode k c f))].
    apply IH; [done|]. by apply (Hsub _ 0%nat c Hn).
  - assert (raw_ok (FullNode ch f)) as Hn by (destruct Hc as [Hc|]; [by inversion Hc|done]). constructor; [|apply (cached_ok_embedded false (FullNode ch f))].
    intros i c. rewrite list_lookup_fmap. intros (c' & Hi & ->)%fmap_Some. rewrite Forall_lookup in IH. destruct (raw_child _ i c' Hn Hi) as [Hs _].
    apply (IH i c' Hi Hs). by apply (Hsub _ i c' Hn).
  - constructor. destruct Hc as [Hc|]; [|done]. inversion Hc as [|? Hl|? Hx]; subst; [|by inversion Hx]. apply view_stored; [done|].
    rewrite <- (BytesToHash_32 h) by done. apply Hy. left.
Qed.

Lemma view_coherent : db_coherent (view db S).
Proof.
  intros h gen n (r & Hr & -> & _)%view_some. destruct (tn_collapsed _ _ Hr) as [Hraw Hm].
  assert (children (expand (Some h) gen r) = map (expand None gen) (children r)) as Ech by by destruct r.
  assert (children r <> []) as Hne by (destruct Hraw; try done; by destruct ch).
  split; [|rewrite Ech; by destruct (children r)].
  assert (forall i c, children (expand (Some h) gen r) !! i = Some c -> coherent (view db S) c) as Hch.
  { intros i c. rewrite Ech, list_lookup_fmap. intros (c' & Hi & ->)%fmap_Some. destruct (raw_child r i c' Hraw Hi) as [Hs Hsub].
    apply view_slot; [done|]. intros y Hy. destruct Hsub as [Hsub|Hsub]; [by apply (tn_refs _ _ Hr), Hsub|rewrite Hsub in Hy; by apply not_elem_of_nil in Hy]. }
  assert (cached_ok true (expand (Some h) gen r)) as Hco.
  { intros h' Eh. unfold mref. rewrite collapsed_mraw by apply Hr. assert (h' = h) as -> by (destruct Hraw; by injection Eh).
    rewrite collapse_ref_plain by by destruct Hraw. unfold embeds. rewrite andb_false_r. by rewrite (tn_hash _ _ Hr). }
  destruct r; try done; split; try done. by apply (Hch 0%nat).
Qed.

Lemma view_ok : store_ok (view db S).
Proof.
  constructor; [apply view_coherent| |].
  - intros h gen n (r & Hr & -> & _)%view_some. exists r. split; [done|]. apply plain_raw, Hr.
  - intros h gen n gen' (r & Hr & -> & Hh & Hk)%view_some. exists (expand (Some h) gen' r). split; [by apply view_node|].
    by rewrite erase_expand, (erase_expand (Some h) gen).
Qed.
End view.

(** ** Inserting the nodes of a commit *)

(** The insertions of [hasher.store]; without a callback the leaves are not reported. *)
Definition event_op (e : db_event) : option db_op :=
  match e with DbInsert h b c => Some (OpInsert h b (inl c)) | OnLeaf _ _ => None end.

Definition event_ops (ev : list db_event) : list db_op := omap event_op ev.

Definition event_hashes (ev : list db_event) : gset (list Z) :=
  list_to_set (omap (fun e => match e with DbInsert h _ _ => Some h | OnLeaf _ _ => None end) ev).

(** The references of the trie nodes are known to the garbage collector. *)
Definition linked_nodes (S : gset (list Z)) (g : ghost) : Prop :=
  forall h r y, h ∈ S -> trie_node h r -> y ∈ hash_refs r -> y ∈ g_links g h.

(** What is asked of a commit: the hashes do not collide, refer to each other without
    a cycle, are not zero, and are not in use for something else; no node is too long. *)
Definition acceptable (db : Database) (S : gset (list Z)) (ev : list db_event) : Prop :=
  forall h b c, DbInsert h b c ∈ ev ->
    content h = b /\ h <> emptyHash /\ Z.of_nat (length b) < 65504 /\
    (forall y, y ∈ hash_refs (erase c) -> (rank y < rank h)%nat) /\ (known db h -> h ∈ S).

(** The references that are counted. *)
Definition event_refs (ev : list db_event) : list (list Z) :=
  concat (map (fun e => match e with DbInsert _ _ c => hash_refs (erase c) | OnLeaf _ _ => [] end) ev).

Lemma event_refs_app ev1 ev2 : event_refs (ev1 ++ ev2) = event_refs ev1 ++ event_refs ev2.
Proof. unfold event_refs. by rewrite map_app, concat_app. Qed.

Lemma node_refs_simplified c s : simplified (erase c) s -> is_nil c = false -> node_refs (inl c) = hash_refs (erase c) /\ simplifyNode c = Some s.
Proof.
  intros Hs Hn. assert (is_nil (erase c) = false) as Hn' by by destruct c. pose proof (sm_run _ _ Hs) as Hr. rewrite Hn', simplify_erase in Hr.
  split; [|done]. simpl. rewrite Hr. simpl. by rewrite (sm_gather _ _ Hs).
Qed.

(** The entry of a collapsed node in the cache. *)
Lemma trie_node_entry h c :
  trie_node h (erase c) -> exists r, simplifyNode c = Some r /\
    forall size prev next, let entry := mkCached r size 0 ∅ prev next in
      cached_rlp entry = Some (content h) /\ childs entry = Some (node_refs (inl c)) /\
      forall gen x, decodeNode (Some h) (content h) gen = Ok x -> cached_obj entry h gen = Some x.
Proof.
  intros Hn. destruct (tn_collapsed _ _ Hn) as [Hraw _]. destruct (raw_simplified _ Hraw) as [s Hs].
  assert (is_nil c = false) as Hnil by (destruct c; try done; by inversion Hraw).
  assert (is_nil (erase c) = false) as Hnil' by by destruct c.
  destruct (node_refs_simplified c s Hs Hnil) as [Er Es]. exists s. split; [done|]. intros size prev next. cbv zeta.
  pose proof (sm_blob _ _ Hs) as Hb. split_and!.
  - rewrite (tn_content _ _ Hn). unfold cached_rlp. cbn [c_node]. pose proof (sm_rval _ _ Hs Hnil') as Hv. pose proof (Encode_blob (erase c)) as He.
    rewrite <- Hv in He. destruct s; try (by rewrite He). by destruct (Hb blob).
  - unfold childs. cbn [c_children c_node]. rewrite map_order_empty, Er. pose proof (sm_gather _ _ Hs) as Hg. destruct s; try (by rewrite Hg). by destruct (Hb blob).
  - intros gen x. rewrite (trie_node_decode h _ (Some h) gen Hn). intros [= <-]. unfold cached_obj. cbn [c_node].
    pose proof (sm_expand _ _ Hs (Some h) gen Hnil') as He. by destruct s.
Qed.

Section insert_events.
Context (db0 : Database) (S0 : gset (list Z)) (L0 : list Z -> list (list Z)) (l0 : list (list Z)) (gen : Z).
Context (I0 : Inv db0 L0 l0 [] []) (HS0 : all_nodes S0).

(** The database after the events [ev0]. *)
Record inserted (ev0 : list db_event) (db : Database) (g : ghost) (l : list (list Z)) (S : gset (list Z)) : Prop := {
  in_tracked : tracked content rank db g l;
  in_readers : d_readers db = 0;
  in_nodes : all_nodes S;
  in_linked : linked_nodes S g;
  in_sub : S0 ⊆ S;
  in_keeps h : known db0 h -> known db h;
  in_new h : known db h -> known db0 h \/ h ∈ S;
  in_ev0 h b c : DbInsert h b c ∈ ev0 -> h ∈ S /\ known db h /\ content h = b /\ trie_node h (erase c);
  in_counts x : parents_of db x <= parents_of db0 x + occ x (event_refs ev0)
}.

(** What an event refers to is long, known, and a trie node. *)
Lemma event_ref ev0 db g l S y :
  inserted ev0 db g l S -> in_store gen (view db0 S0) y \/ in_events ev0 y -> (32 <= length (content y))%nat /\ y ∈ S /\ known db y.
Proof.
  intros Hi [(n & Hn & Hm)|(b & c & Hin & Hb)].
  - destruct (view_some db0 L0 l0 S0 I0 HS0 y gen n Hn) as (r & Hr & -> & Hy & Hk). split_and!; [|by apply (in_sub _ _ _ _ _ Hi)|by apply (in_keeps _ _ _ _ _ Hi)].
    destruct (Nat.le_gt_cases 32 (length (content y))) as [?|Hlt]; [done|]. unfold mref in Hm. rewrite collapsed_mraw in Hm by apply Hr.
    destruct (tn_collapsed _ _ Hr) as [Hraw _]. rewrite collapse_ref_plain in Hm by by destruct Hraw. unfold embeds in Hm.
    rewrite <- (tn_content _ _ Hr), (proj2 (Nat.ltb_lt _ _)) in Hm by done. simpl in Hm. subst r. by inversion Hraw.
  - destruct (in_ev0 _ _ _ _ _ Hi y b c Hin) as (Hy & Hk & -> & _). done.
Qed.

Lemma event_node ev0 db g l S h b c :
  inserted ev0 db g l S -> event_ok gen (view db0 S0) h b c -> content h = b -> h <> emptyHash ->
  (forall y, y ∈ hash_refs (erase c) -> in_store gen (view db0 S0) y \/ in_events ev0 y) ->
  (forall y, y ∈ hash_refs (erase c) -> (rank y < rank h)%nat) -> trie_node h (erase c).
Proof.
  intros Hi (force & x & E & P & Ec & -> & ->) Hc Hz Hrefs Hrank. rewrite Ec in *. pose proof (view_coherent db0 L0 l0 S0 I0 HS0) as Hdb.
  constructor; try done.
  - by eapply mraw_collapsed.
  - by eapply (encodable_fits _ Hdb).
  - intros y Hy. split; [|auto]. by apply (event_ref ev0 db g l S y Hi), Hrefs.
Qed.

Lemma BytesToHash_length h : length (BytesToHash h) = HashLength.
Proof. apply setBytes_length. Qed.

Lemma hash_refs_length n y : y ∈ hash_refs n -> length y = HashLength.
Proof.
  induction n as [|v|k c f IH|ch f IH|h] using node_nested_ind; simpl; try (by intros ?%not_elem_of_nil); [done| |].
  - intros Hy. apply (hash_refs_full ch f) in Hy as (i & c & _ & Hc & Hy). rewrite Forall_lookup in IH. by apply (IH i c).
  - intros ->%list_elem_of_singleton. apply BytesToHash_length.
Qed.

Lemma refs_of_node h c : trie_node h (erase c) -> node_refs (inl c) = hash_refs (erase c).
Proof.
  intros Hn. destruct (tn_collapsed _ _ Hn) as [Hraw _]. destruct (raw_simplified _ Hraw) as [s Hs].
  apply (node_refs_simplified c s Hs). destruct c; try done; by inversion Hraw.
Qed.

Lemma event_legal ev0 db g l S h b c :
  inserted ev0 db g l S -> trie_node h (erase c) -> content h = b -> Z.of_nat (length b) < 65504 -> (known db h -> h ∈ S) ->
  (forall y, y ∈ hash_refs (erase c) -> in_store gen (view db0 S0) y \/ in_events ev0 y) ->
  (forall x, is_Some (d_nodes db !! x) -> parents_of db x + occ x (node_refs (inl c)) < 65536) ->
  legal content rank (OpInsert h b (inl c)) db g.
Proof.
  intros Hi Hn Hc Hlen Hk Hrefs Hcnt. split; [apply Hi|]. intros _. pose proof (tk_inv _ _ _ _ _ (in_tracked _ _ _ _ _ Hi)) as I.
  pose proof (refs_of_node h c Hn) as Er. constructor; [by eapply trie_node_length|apply Hn|done|by apply trie_node_entry| |done]. intros y Hy. rewrite Er in Hy.
  destruct (event_ref ev0 db g l S y Hi (Hrefs y Hy)) as (_ & HyS & Hky). destruct (in_nodes _ _ _ _ _ Hi y HyS) as [ry Hry].
  split_and!; [apply Hry|by eapply hash_refs_length|by apply (tn_refs _ _ Hn)|done|].
  intros Hd. apply (inv_closed _ _ _ _ _ I h); [done|by eapply trie_node_length|]. eapply (in_linked _ _ _ _ _ Hi); [|done|done]. apply Hk. by right.
Qed.

Lemma tracked_known db g l x : tracked content rank db g l -> known db x <-> x = emptyHash \/ x ∈ l \/ on_disk db x.
Proof. intros T. unfold known. rewrite (inv_dom _ _ _ _ _ (tk_inv _ _ _ _ _ T)), app_nil_r. tauto. Qed.

(** An insertion makes its hash known and nothing else. *)
Lemma insert_known db db' g g' l h x :
  tracked content rank db g l -> tracked content rank db' g' (if bool_decide (d_nodes db !! h = None) then l ++ [h] else l) ->
  d_disk db' = d_disk db -> known db' x <-> known db x \/ x = h.
Proof.
  intros T T' Hd. rewrite (tracked_known _ _ _ _ T), (tracked_known _ _ _ _ T').
  assert (on_disk db' x <-> on_disk db x) as -> by (unfold on_disk; by rewrite Hd).
  case_bool_decide as En; [rewrite elem_of_app, elem_of_cons, elem_of_nil; tauto|]. split; [tauto|]. intros [?| ->]; [done|].
  rewrite <- (tracked_known _ _ _ _ T). left. destruct (d_nodes db !! h); [by eexists|done].
Qed.

Lemma linked_insert db S g h b c :
  linked_nodes S g -> trie_node h (erase c) -> (known db h -> h ∈ S) ->
  linked_nodes ({[h]} ∪ S) (ghost_after (OpInsert h b (inl c)) db g).
Proof.
  intros HL Hn Hk x r y Hx Hr Hy. cbn [ghost_after]. case_bool_decide as En.
  - cbn [g_links]. unfold link_new. case_bool_decide as Ex; [subst x|apply (HL x r y); [set_solver|done|done]].
    rewrite elem_of_app. left. rewrite (refs_of_node h c Hn). by rewrite <- (trie_node_unique h _ _ Hr Hn).
  - apply (HL x r y); [|done|done]. apply elem_of_union in Hx as [Hx%elem_of_singleton|Hx]; [subst x|done]. apply Hk. left.
    destruct (d_nodes db !! h); [by eexists|done].
Qed.

(** One event. *)
Lemma event_inserted ev0 db g l S h b c :
  inserted ev0 db g l S -> trie_node h (erase c) -> content h = b -> (known db h -> h ∈ S) -> legal content rank (OpInsert h b (inl c)) db g ->
  exists db' l', run_op (OpInsert h b (inl c)) db = Ok (db', inr tt) /\ d_disk db' = d_disk db /\
    inserted (ev0 ++ [DbInsert h b c]) db' (ghost_after (OpInsert h b (inl c)) db g) l' ({[h]} ∪ S).
Proof.
  intros Hi Hn Hc Hk Hl. destruct (insert_tracked content rank h b (inl c) db g l (in_tracked _ _ _ _ _ Hi) Hl) as (db' & E & Hd & Hr & Hp & T).
  eexists db', _. split_and!; [done|done|].
  assert (forall x, known db' x <-> known db x \/ x = h) as Hkn by (intros x; eapply insert_known; [apply Hi|exact T|done]).
  constructor; [exact T|done| | | | | | |].
  - intros x [Hx%elem_of_singleton|Hx]%elem_of_union; [subst x; by exists (erase c)|by apply (in_nodes _ _ _ _ _ Hi)].
  - by apply linked_insert; [apply Hi| |].
  - pose proof (in_sub _ _ _ _ _ Hi). set_solver.
  - intros x Hx. apply Hkn. left. by apply (in_keeps _ _ _ _ _ Hi).
  - intros x [Hx| ->]%Hkn; [|right; set_solver]. destruct (in_new _ _ _ _ _ Hi x Hx); [by left|right; set_solver].
  - intros x b' c' [Hx|Hx]%elem_of_app.
    + destruct (in_ev0 _ _ _ _ _ Hi x b' c' Hx) as (? & ? & ? & ?). split_and!; [set_solver|apply Hkn; by left|done|done].
    + apply list_elem_of_singleton in Hx as [= -> -> ->]. split_and!; [set_solver|apply Hkn; by right|done|done].
  - intros x. rewrite event_refs_app, occ_app. specialize (Hp x). rewrite (refs_of_node h c Hn) in Hp. pose proof (in_counts _ _ _ _ _ Hi x).
    unfold event_refs at 2. cbn [map concat]. rewrite app_nil_r. lia.
Qed.

(** All events. *)
Lemma events_inserted ev : forall ev0 db g l S,
  inserted ev0 db g l S -> ordered gen (view db0 S0) ev0 ev -> acceptable db0 S0 ev ->
  (forall x, parents_of db0 x + occ x (event_refs (ev0 ++ ev)) < 65536) ->
  exists db' g' l', db_run (event_ops ev) db g = Ok (db', g') /\ inserted (ev0 ++ ev) db' g' l' (event_hashes ev ∪ S).
Proof.
  induction ev as [|e ev IH]; intros ev0 db g l S Hi Ho Ha Hf.
  { exists db, g, l. split; [done|]. rewrite app_nil_r. unfold event_hashes. simpl. by rewrite (left_id_L ∅ (∪)). }
  destruct Ho as [He Ho]. assert (acceptable db0 S0 ev) as Ha' by (intros h b c Hin; apply Ha; by right).
  destruct e as [h b c|leaf parent].
  - destruct He as [Hev Hrefs]. destruct (Ha h b c ltac:(left)) as (Hc & Hz & Hlen & Hrank & Hkn).
    pose proof (event_node _ _ _ _ _ _ _ _ Hi Hev Hc Hz Hrefs Hrank) as Hn.
    assert (known db h -> h ∈ S) as Hk by (intros Hk; destruct (in_new _ _ _ _ _ Hi h Hk); [by apply (in_sub _ _ _ _ _ Hi), Hkn|done]).
    assert (forall x, is_Some (d_nodes db !! x) -> parents_of db x + occ x (node_refs (inl c)) < 65536) as Hcnt.
    { intros x _. rewrite (refs_of_node h c Hn). pose proof (in_counts _ _ _ _ _ Hi x). specialize (Hf x). rewrite event_refs_app, occ_app in Hf.
      unfold event_refs at 2 in Hf. cbn [map concat] in Hf. rewrite occ_app in Hf. fold (event_refs ev) in Hf. pose proof (occ_nonneg x (event_refs ev)). lia. }
    pose proof (event_legal _ _ _ _ _ _ _ _ Hi Hn Hc Hlen Hk Hrefs Hcnt) as Hl.
    destruct (event_inserted _ _ _ _ _ _ _ _ Hi Hn Hc Hk Hl) as (db1 & l1 & E1 & _ & Hi1).
    destruct (IH _ _ _ _ _ Hi1 Ho Ha') as (db' & g' & l' & E' & Hi'); [by rewrite <- app_assoc|]. exists db', g', l'. split.
    + cbn [event_ops omap list_omap event_op db_run]. rewrite E1. exact E'.
    + rewrite <- app_assoc in Hi'. replace (event_hashes (DbInsert h b c :: ev) ∪ S) with (event_hashes ev ∪ ({[h]} ∪ S)); [done|].
      unfold event_hashes. simpl. set_solver.
  - assert (inserted (ev0 ++ [OnLeaf leaf parent]) db g l S) as Hi1.
    { destruct Hi. constructor; try done; [|intros x; rewrite event_refs_app, occ_app; unfold event_refs at 2; simpl; rewrite occ_nil, Z.add_0_r; auto].
      intros h b c [Hx|Hx]%elem_of_app; [eauto|]. by apply list_elem_of_singleton in Hx. }
    destruct (IH _ _ _ _ _ Hi1 Ho Ha') as (db' & g' & l' & E' & Hi'); [by rewrite <- app_assoc|]. exists db', g', l'. split; [exact E'|]. by rewrite <- app_assoc in Hi'.
Qed.
End insert_events.

(** ** Commit and reopen *)

(** A database with the trie nodes [S]. *)
Record archive (db : Database) (g : ghost) (l : list (list Z)) (S : gset (list Z)) : Prop := {
  ar_tracked : tracked content rank db g l;
  ar_nodes : all_nodes S;
  ar_linked : linked_nodes S g
}.

Lemma archive_view db g l S : archive db g l S -> store_ok (view db S).
Proof. intros [T N _]. by eapply view_ok; [apply T|]. Qed.

Lemma view_stored_true db g l S x : archive db g l S -> BytesToHash x = x -> stored_ok (view db S) true x.
Proof.
  intros [T N _] Hx gen n. rewrite Hx. intros (r & Hr & -> & _)%(view_some db _ l S (tk_inv _ _ _ _ _ T) N). unfold mref.
  rewrite collapsed_mraw by apply Hr. destruct (tn_collapsed _ _ Hr) as [Hraw _]. rewrite collapse_ref_plain by by destruct Hraw.
  unfold embeds. by rewrite andb_false_r, (tn_hash _ _ Hr).
Qed.

(** Inserting the nodes of a commit. *)
Lemma commit_inserts db g l S t m h t' ev :
  archive db g l S -> d_readers db = 0 -> durable (view db S) t m -> short_map m -> Commit false t = Ok (h, t', ev) ->
  acceptable db S ev -> (forall x, parents_of db x + occ x (event_refs ev) < 65536) ->
  exists db' g' l', let S' := event_hashes ev ∪ S in
    db_run (event_ops ev) db g = Ok (db', g') /\ archive db' g' l' S' /\ d_readers db' = 0 /\ extends (view db S) (view db' S') /\
    (root t <> Nil -> rooted (view db' S') h m) /\ durable (view db' S') t' m.
Proof.
  intros A Hr Hd Hm Ec Ha Hf. pose proof (archive_view _ _ _ _ A) as So. destruct A as [T N K]. pose proof (tk_inv _ _ _ _ _ T) as I.
  destruct (nil_dec (root t)) as [En|Hn].
  { rewrite Commit_empty in Ec by done. injection Ec as <- <- <-. exists db, g, l. unfold event_hashes. cbn [omap list_omap list_to_set]. rewrite (left_id_L ∅ (∪)).
    split_and!; try done; [apply extends_refl|]. destruct Hd as [[R _] _]. constructor; [|done]. constructor; [|done].
    eapply represents_gen; [apply So| |exact R]. done. }
  destruct (Commit_stores false (view db S) t m So Hd Hm Hn) as (h' & t'' & ev' & Ec' & _ & Ho & Hpost). rewrite Ec in Ec'. injection Ec' as <- <- <-.
  destruct (events_inserted db S (g_links g) l (cachegen t) I N ev [] db g l S) as (db' & g' & l' & E & Hi); [|done|done|done|].
  { constructor; try done; [by left|by intros ? ? ? ?%not_elem_of_nil|]. intros x. unfold event_refs. simpl. rewrite occ_nil. lia. }
  cbn [app] in Hi. destruct Hi as [T' Hr' N' K' Hsub Hkp _ Hev _].
  assert (archive db' g' l' (event_hashes ev ∪ S)) as A' by done.
  assert (extends (view db S) (view db' (event_hashes ev ∪ S))) as Hx.
  { intros x gen n (r & Hrr & -> & Hx & Hk)%(view_some db _ l S I N). eapply view_node; [apply T'|by apply Hsub|done|by apply Hkp]. }
  assert (ev_holds (view db' (event_hashes ev ∪ S)) ev) as He.
  { intros x b c Hin gen. destruct (Hev x b c Hin) as (HxS & Hk & _ & Hnode). by eapply view_node; [apply T'|..]. }
  destruct (Hpost _ (archive_view _ _ _ _ A') Hx He) as [Hroot Hdur]. exists db', g', l'. by split_and!.
Qed.

(** ** A held root stays *)

Lemma leads_snoc L h x y : leads L h x -> y ∈ L x -> leads L h y.
Proof. induction 1 as [h|h c x Hc _ IH]; intros Hy; econstructor; eauto using leads. Qed.

(** A part of a store in which a node is canonical. *)
Lemma wf_restrict d d0 gen (R : list Z -> Prop) n :
  (forall x n, R x -> d x gen = Some n -> d0 x gen = Some n /\ forall y, y ∈ hash_refs n -> R y) ->
  wf d gen n -> (forall y, y ∈ hash_refs n -> R y) -> wf d0 gen n.
Proof.
  intros HR. induction 1 as [k v f Hk Hv|k c f Hk Hne Hb Hw IH|ch f Hl Hc IH H16 H2|h n Hr Hh Hw IH]; intros Hy.
  - by apply wf_leaf.
  - apply wf_ext; auto. destruct Hb as [|h ch f' Hr]; [constructor|]. econstructor. apply HR; [|done]. apply Hy. left.
  - apply wf_full; try done. intros i c Hi Hic Hn. apply (IH i c Hi Hic Hn). intros y Hyc. apply Hy, hash_refs_full. eauto.
  - destruct (HR (BytesToHash h) n) as [Hr' Hy']; [apply Hy; left|done|]. eapply wf_hash; [done|done|]. by apply IH.
Qed.

Definition common (d d' : node_store) : node_store :=
  fun x gen => match d x gen, d' x gen with Some n, Some _ => Some n | _, _ => None end.

(** The bindings of a root are the same in every later database in which it is held. *)
Lemma rooted_held db g l db' g' l' S h m :
  archive db g l S -> archive db' g' l' S -> rooted (view db S) h m -> 0 < g_held g' h -> rooted (view db' S) h m.
Proof.
  intros A A' [Hid Hst Hrep Hwf] Hh. pose proof (archive_view _ _ _ _ A) as So. pose proof (archive_view _ _ _ _ A') as So'.
  destruct A as [T N K] eqn:EA. destruct A' as [T' N' K'] eqn:EA'. pose proof (tk_inv _ _ _ _ _ T) as I. pose proof (tk_inv _ _ _ _ _ T') as I'.
  assert (length h = HashLength) as Hlen by (rewrite <- Hid; apply BytesToHash_length).
  set (d0 := common (view db S) (view db' S)).
  assert (extends d0 (view db S)) as X0 by (intros x gen n; unfold d0, common; destruct (view db S x gen), (view db' S x gen); by intros [= <-]).
  assert (extends d0 (view db' S)) as X1.
  { intros x gen n. unfold d0, common. destruct (view db S x gen) as [n1|] eqn:E1; [|done]. destruct (view db' S x gen) as [n2|] eqn:E2; [|done].
    intros [= <-]. destruct (view_some db _ l S I N x gen n1 E1) as (r1 & R1 & -> & _). destruct (view_some db' _ l' S I' N' x gen n2 E2) as (r2 & R2 & -> & _).
    by rewrite (trie_node_unique x r1 r2). }
  assert (forall gen, copies gen (view db' S) (view db S) (HashNode h) (HashNode h)) as Hcp.
  { intros gen. assert (wf d0 gen (HashNode h)) as W0.
    { apply (wf_restrict (view db S) d0 gen (leads (g_links g') h)); [|done|].
      - intros x n Hx Hn. destruct (view_some db _ l S I N x gen n Hn) as (r & Hr & -> & HxS & _). split.
        + unfold d0, common. rewrite Hn. destruct (leads_known content rank _ _ _ _ _ I' Hx Hlen (tracked_root _ _ _ _ _ _ T' Hh)) as [_ Hk].
          rewrite (view_node db' _ l' S I' x r gen HxS Hr); [done|]. apply (tracked_known db' g' l' x T'). tauto.
        + intros y Hy. rewrite hash_refs_expand in Hy. eapply leads_snoc; [exact Hx|]. by apply (K' x r y).
      - intros y ->%list_elem_of_singleton. rewrite Hid. constructor. }
    eapply copies_trans; [by apply copies_extends|]. by apply copies_sym; [apply copies_extends|]. }
  constructor; [done|by eapply view_stored_true| |].
  - intros gen. by eapply (represents_copies (view db S) (view db' S) gen (mkTrie (HashNode h) [] None gen 0)); [apply So'|..].
  - intros gen. apply Hcp.
Qed.

(** ** Later operations *)

(** A trie node is inserted with its references. *)
Definition respects (S : gset (list Z)) (op : db_op) : Prop :=
  match op with OpInsert h _ n => h ∈ S -> forall r, trie_node h r -> hash_refs r ⊆ node_refs n | _ => True end.

Lemma respects_linked S op db g : linked_nodes S g -> respects S op -> linked_nodes S (ghost_after op db g).
Proof.
  intros HL Hr h r y Hh Hn Hy. specialize (HL h r y Hh Hn Hy). destruct op as [x b n| |c p| | |]; simpl; try done.
  - case_bool_decide; [|done]. simpl. unfold link_new. case_bool_decide as Ex; [subst x|done]. apply elem_of_app. left. by apply (Hr Hh r).
  - case_bool_decide; [done|]. case_bool_decide; [|done]. simpl. unfold link_ref. case_bool_decide; [by right|done].
Qed.

Lemma archive_run ops : forall db g l S,
  archive db g l S -> legal_run content rank ops db g -> Forall (respects S) ops ->
  exists db' g' l', db_run ops db g = Ok (db', g') /\ archive db' g' l' S.
Proof.
  induction ops as [|op ops IH]; intros db g l S A Hl Hr; [by exists db, g, l|]. destruct Hl as [Hl Hn]. apply Forall_cons in Hr as [Hr Hrs].
  pose proof (op_keeps content rank op db g l (ar_tracked _ _ _ _ A) Hl) as Hw. unfold wp in Hw. cbn [db_run].
  destruct (run_op op db) as [[db1 r]| | |] eqn:E; try done. destruct Hw as [l1 T1].
  assert (archive db1 (ghost_after op db g) l1 S) as A1 by (constructor; [done|apply A|apply respects_linked; [apply A|done]]).
  destruct (IH _ _ _ _ A1 (Hn _ _ eq_refl) Hrs) as (db' & g' & l' & E' & A'). exists db', g', l'. split; [exact E'|done].
Qed.

(** The database opens [h] with the bindings [m]. *)
Definition opens (db : Database) (S : gset (list Z)) (h : list Z) (m : gmap (list Z) (list Z)) : Prop :=
  exists t, New (dbnode_of db) h = Ok t /\ represents (dbnode_of db) t m /\ New (view db S) h = Ok t /\ durable (view db S) t m.

Lemma view_opens db S h m t : New (view db S) h = Ok t -> durable (view db S) t m -> opens db S h m.
Proof.
  intros E D. exists t. split_and!; [by eapply New_extends; [apply view_extends|]| |done|done]. destruct D as [[R _] _]. constructor.
  - destruct (rep_wf _ _ _ R) as [?|W]; [by left|right]. eapply wf_extends; [apply view_extends|done].
  - apply (rep_keys _ _ _ R).
  - intros hk v. rewrite <- (rep_has _ _ _ R). apply has_extends_iff; [apply view_extends|].
    destruct (rep_wf _ _ _ R) as [?|?]; [by left|by right; right].
Qed.

Lemma rooted_opens db g l S h m :
  archive db g l S -> rooted (view db S) h m -> h <> emptyHash -> h <> emptyRoot -> opens db S h m.
Proof.
  intros A R Hz He. destruct (New_opens _ h m (archive_view _ _ _ _ A) R Hz He) as (t & E & D). by eapply view_opens.
Qed.

Lemma empty_opens db S : opens db S emptyRoot ∅.
Proof. destruct (New_empty (view db S)) as (t & E & D). by eapply view_opens. Qed.
End trie_nodes.

(** C8: refinement.  Take a database that keeps the invariants of the counts, with no
    lock held, and open a trie at a root it knows.  Any operations on the trie return what
    they return on the finite map, if the values that are left are short enough to be
    encoded, and [Commit] of the trie succeeds.  The insertions it makes run, and
    the database then opens the new root with the new map, if the nodes are [acceptable]:
    their hashes do not collide with those of other contents, are not zero and refer to
    each other without a cycle, their encodings have less than 65504 bytes, the counts of
    references stay below 65536, and the new root is not that of the empty trie unless the
    map is empty.  From there on, run any insertions, references, releases, caps,
    commits and preimages, whichever writes fail, that keep to the contract of the callers
    ([legal_run]: no count overflows, nothing is released that is not held, no operation
    is made while a failed commit has left the read lock taken) and insert trie nodes with
    their references: if the root is held at the end, the database opens it with the
    same map. *)
Theorem trie_survives `{Keccak} `{MapOrder} content rank db g l S root m os :
  archive content rank db g l S -> d_readers db = 0 -> opens db S root m ->
  Forall (fun o => bytes_ok (op_key o)) os -> short_map (map_run m os).2 ->
  exists t0 t h t' ev,
    New (dbnode_of db) root = Ok t0 /\ trie_run (dbnode_of db) t0 os = Ok ((map_run m os).1, t) /\ Commit false t = Ok (h, t', ev) /\
    (acceptable content rank db S ev -> (forall x, parents_of db x + occ x (event_refs ev) < 65536) ->
     h <> emptyHash -> (h = emptyRoot -> (map_run m os).2 = ∅) ->
     exists db1 g1 l1, let S' := event_hashes ev ∪ S in
       db_run (event_ops ev) db g = Ok (db1, g1) /\ archive content rank db1 g1 l1 S' /\ d_readers db1 = 0 /\ opens db1 S' h (map_run m os).2 /\
       forall ops, legal_run content rank ops db1 g1 -> Forall (respects content rank S') ops ->
         exists db2 g2 l2, db_run ops db1 g1 = Ok (db2, g2) /\ archive content rank db2 g2 l2 S' /\
           (0 < g_held g2 h -> opens db2 S' h (map_run m os).2)).
Proof.
  intros A Hr (t0 & E0 & _ & E0' & D0) Hos Hm. pose proof (archive_view _ _ _ _ _ _ A) as So.
  destruct (trie_run_durable (view db S) os t0 m So D0 Hos) as (t & Et & Dt).
  assert (exists h t' ev, Commit false t = Ok (h, t', ev) /\ (Trie.root t = Nil -> h = emptyRoot)) as (h & t' & ev & Ec & Hnil).
  { destruct (nil_dec (Trie.root t)) as [En|Hn]; [eexists _, _, _; split; [by apply Commit_empty|done]|].
    destruct (Commit_stores false (view db S) t _ So Dt Hm Hn) as (h & t' & ev & Ec & _). by exists h, t', ev. }
  exists t0, t, h, t', ev. split_and!; [done|eapply trie_run_extends; [apply view_extends|done]|done|]. intros Ha Hf Hz He.
  destruct (commit_inserts content rank db g l S t _ h t' ev A Hr Dt Hm Ec Ha Hf) as (db1 & g1 & l1 & Er & A1 & Hr1 & _ & Hroot & _).
  assert (h = emptyRoot \/ rooted (view db1 (event_hashes ev ∪ S)) h (map_run m os).2 /\ h <> emptyRoot) as Hcase.
  { destruct (decide (h = emptyRoot)) as [?|Hne]; [by left|right]. split; [apply Hroot; auto|done]. }
  exists db1, g1, l1. cbv zeta. split_and!; [done|done|done| |].
  - destruct Hcase as [->|[R Hne]]; [rewrite He by done; apply empty_opens|by eapply rooted_opens].
  - intros ops Hl Hrs. destruct (archive_run content rank ops db1 g1 l1 _ A1 Hl Hrs) as (db2 & g2 & l2 & E2 & A2). exists db2, g2, l2. split_and!; [done|done|].
    intros Hh. destruct Hcase as [->|[R Hne]]; [rewrite He by done; apply empty_opens|]. eapply rooted_opens; [done| |done|done].
    exact (rooted_held _ _ _ _ _ _ _ _ _ _ _ A1 A2 R Hh).
Qed.

(** ** Witness *)

Lemma occ_length x l : occ x l <= Z.of_nat (length l).
Proof. unfold occ. pose proof (length_filter (fun y => y = x) l). lia. Qed.

Section example.
#[local] Existing Instance sum_keccak.
#[local] Existing Instance list_order.

(** The sample trie, in a new database on an empty disk. *)
Definition stored_trie : Trie :=
  match New (dbnode_of (NewDatabase ∅ [])) emptyRoot with
  | Ok t0 => match trie_run (dbnode_of (NewDatabase ∅ [])) t0 proof_ops with Ok (_, t) => t | _ => empty_trie end
  | _ => empty_trie
  end.

Definition stored_commit : list Z * list db_event :=
  match Commit false stored_trie with Ok (h, _, ev) => (h, ev) | _ => ([], []) end.

Definition stored_content (h : list Z) : list Z :=
  default [] (head (omap (fun e => match e with DbInsert x b _ => if bool_decide (x = h) then Some b else None | OnLeaf _ _ => None end) stored_commit.2)).

Definition stored_rank (h : list Z) : nat :=
  default 0%nat (fst <$> list_find (fun x => x = h) (omap (fun e => match e with DbInsert x _ _ => Some x | OnLeaf _ _ => None end) stored_commit.2)).

(** What is asked of one node. *)
Definition stored_check (e : db_event) : bool :=
  match e with
  | DbInsert h b c =>
      bool_decide (stored_content h = b) && bool_decide (h <> emptyHash) && (Z.of_nat (length b) <? 65504) &&
      forallb (fun y => stored_rank y <? stored_rank h)%nat (hash_refs (erase c))
  | OnLeaf _ _ => true
  end.

Lemma stored_checked :
  forallb stored_check stored_commit.2 && (length (event_refs stored_commit.2) <=? 2)%nat &&
  bool_decide (stored_commit.1 <> emptyHash) && bool_decide (stored_commit.1 <> emptyRoot) = true.
Proof. vm_compute. reflexivity. Qed.

Lemma stored_map : (map_run ∅ proof_ops).2 = proof_map.
Proof. vm_compute. reflexivity. Qed.

Lemma stored_commit_run t0 rs t h t' ev :
  New (dbnode_of (NewDatabase ∅ [])) emptyRoot = Ok t0 -> trie_run (dbnode_of (NewDatabase ∅ [])) t0 proof_ops = Ok (rs, t) ->
  Commit false t = Ok (h, t', ev) -> stored_commit = (h, ev).
Proof. intros E0 Et Ec. unfold stored_commit, stored_trie. rewrite E0, Et, Ec. reflexivity. Qed.

#[local] Opaque stored_commit.

Lemma stored_acceptable : acceptable stored_content stored_rank (NewDatabase ∅ []) ∅ stored_commit.2.
Proof.
  pose proof stored_checked as [[[Hf _]%andb_prop _]%andb_prop _]%andb_prop. rewrite forallb_forall in Hf.
  intros h b c Hin%list_elem_of_In. specialize (Hf _ Hin). unfold stored_check in Hf. apply andb_prop in Hf as [[[Hc Hz]%andb_prop Hl]%andb_prop Hr].
  apply bool_decide_eq_true in Hc, Hz. rewrite forallb_forall in Hr. split_and!; [done|done|lia| |].
  - intros y Hy%list_elem_of_In. by apply Nat.ltb_lt, Hr.
  - intros [Hk|Hk]; revert Hk; [|unfold on_disk]; cbn [NewDatabase d_nodes d_disk]; rewrite ?lookup_empty; [|by intros []].
    rewrite lookup_singleton_ne by done. by intros [].
Qed.

Lemma stored_archive : archive stored_content stored_rank (NewDatabase ∅ []) (no_roots (fun _ => [])) [] ∅.
Proof.
  constructor; [|intros h []%not_elem_of_empty|intros h r y []%not_elem_of_empty]. apply new_tracked.
  constructor; [intros h b; by rewrite lookup_empty|intros h c; rewrite lookup_empty; by intros []|by intros h c ?%not_elem_of_nil].
Qed.

Lemma stored_fits x : parents_of (NewDatabase ∅ []) x + occ x (event_refs stored_commit.2) < 65536.
Proof.
  pose proof stored_checked as [[[_ Hl]%andb_prop _]%andb_prop _]%andb_prop. apply Nat.leb_le in Hl.
  pose proof (occ_length x (event_refs stored_commit.2)). assert (parents_of (NewDatabase ∅ []) x = 0); [|lia].
  unfold parents_of. cbn [NewDatabase d_nodes]. rewrite lookup_singleton. by case_decide.
Qed.

Lemma trie_survives_witness : exists db1 g1 l1 S1,
  db_run (event_ops stored_commit.2) (NewDatabase ∅ []) (no_roots (fun _ => [])) = Ok (db1, g1) /\
  archive stored_content stored_rank db1 g1 l1 S1 /\ opens db1 S1 stored_commit.1 proof_map.
Proof.
  destruct (trie_survives stored_content stored_rank (NewDatabase ∅ []) (no_roots (fun _ => [])) [] ∅ emptyRoot ∅ proof_ops stored_archive eq_refl
    (empty_opens _ _)) as (t0 & t & h & t' & ev & E0 & Et & Ec & Hc).
  - repeat constructor; lia.
  - rewrite stored_map. apply proof_map_short.
  - pose proof (stored_commit_run _ _ _ _ _ _ E0 Et Ec) as Es.
    pose proof stored_acceptable as Ha. pose proof stored_fits as Hf. pose proof stored_checked as [[_ Hz]%andb_prop He]%andb_prop.
    rewrite Es in Ha, Hf, Hz, He. rewrite Es. apply bool_decide_eq_true in Hz, He. cbn [fst snd] in *.
    destruct (Hc Ha Hf Hz (fun E => match He E with end)) as (db1 & g1 & l1 & Er & A1 & _ & Ho & _).
    rewrite stored_map in Ho. eauto 10.
Defined.
End example.
