(* ===== verification/RlpStream.v ===== *)
(** * Decoding RLP ([src/rlp/decode.go])

    The pull parser [Stream] with its list stack, input limit, cached header and
    sticky header error, the typed decoders that [makeDecoder] selects, and
    [DecodeBytes].  Every method is a computation in the state-and-error monad
    [SM Stream rlp_error].  A decoder fills a fresh zero value.  The loop over
    the elements of a list and the nesting of [decodeInterface] take fuel.

    [decode_roundtrip]: decoding the encoding of a value in canonical form gives the
    value back.
    [byte_array_diverges]: the one shape of type for which decoding can loop
    forever. *)

From S2P Require Import Prelude Rlp RlpRaw.

(** ** The stream *)

(** [Stream] reading from a byte slice; [s_kind = None] is the kind -1 that asks
    for a new header; the innermost list is the head of the stack. *)
Record Stream := mkStream {
  s_r : list Z;
  s_remaining : Z;
  s_limited : bool;
  s_kind : option Kind;
  s_size : Z;
  s_byteval : Z;
  s_kinderr : option rlp_error;
  s_stack : list (Z * Z)
}.

Definition set_kind (k : option Kind) (s : Stream) : Stream :=
  mkStream (s_r s) (s_remaining s) (s_limited s) k (s_size s) (s_byteval s) (s_kinderr s) (s_stack s).
Definition set_size (n : Z) (s : Stream) : Stream :=
  mkStream (s_r s) (s_remaining s) (s_limited s) (s_kind s) n (s_byteval s) (s_kinderr s) (s_stack s).
Definition set_byteval (b : Z) (s : Stream) : Stream :=
  mkStream (s_r s) (s_remaining s) (s_limited s) (s_kind s) (s_size s) b (s_kinderr s) (s_stack s).
Definition set_kinderr (e : option rlp_error) (s : Stream) : Stream :=
  mkStream (s_r s) (s_remaining s) (s_limited s) (s_kind s) (s_size s) (s_byteval s) e (s_stack s).
Definition set_stack (st : list (Z * Z)) (s : Stream) : Stream :=
  mkStream (s_r s) (s_remaining s) (s_limited s) (s_kind s) (s_size s) (s_byteval s) (s_kinderr s) st.
Definition set_remaining (n : Z) (s : Stream) : Stream :=
  mkStream (s_r s) n (s_limited s) (s_kind s) (s_size s) (s_byteval s) (s_kinderr s) (s_stack s).
Definition set_r (r : list Z) (s : Stream) : Stream :=
  mkStream r (s_remaining s) (s_limited s) (s_kind s) (s_size s) (s_byteval s) (s_kinderr s) (s_stack s).

(** [NewStream] on a byte slice; without an explicit limit the limit is the
    length of the slice. *)
Definition NewStream (b : list Z) (inputLimit : Z) : Stream :=
  mkStream b (if bool_decide (0 < inputLimit) then inputLimit else Z.of_nat (length b)) true None 0 0 None [].

Abbreviation SD := (SM Stream rlp_error).

(** [Stream.willRead] *)
Definition willRead (n : Z) : SD unit :=
  modify (set_kind None) ;;
  stack ← gets s_stack;
  match stack with
  | (pos, size) :: rest =>
      if bool_decide (u64 (size - pos) < n) then throw ErrElemTooLarge
      else modify (set_stack ((u64 (pos + n), size) :: rest))
  | [] => mret tt
  end ;;
  limited ← gets s_limited;
  remaining ← gets s_remaining;
  if limited : bool then
    if bool_decide (remaining < n) then throw ErrValueTooLarge
    else modify (set_remaining (remaining - n))
  else mret tt.

(** [Stream.readByte] *)
Definition readByte : SD Z :=
  willRead 1 ;;
  r ← gets s_r;
  match r with
  | [] => throw ErrUnexpectedEOF
  | b :: r => modify (set_r r) ;; mret b
  end.

(** [Stream.readFull] of [n] bytes *)
Definition readFull (n : Z) : SD (list Z) :=
  willRead n ;;
  r ← gets s_r;
  modify (set_r (drop (Z.to_nat n) r)) ;;
  if bool_decide (Z.of_nat (length r) < n) then throw ErrUnexpectedEOF
  else mret (take (Z.to_nat n) r).

(** [Stream.readUint] *)
Definition readUint (size : Z) : SD Z :=
  if bool_decide (size = 0) then modify (set_kind None) ;; mret 0
  else if bool_decide (size = 1) then readByte
  else
    b ← readFull size;
    match b with
    | 0 :: _ => throw ErrCanonSize
    | _ => mret (be_uint b)
    end.

(** A long header: the size, and an error for sizes below 56. *)
Definition readLong (k : Kind) (n : Z) : SM Stream Empty_set (Kind * Z * option rlp_error) :=
  handle (readUint n) (fun r =>
    match r with
    | inl e => mret (k, 0, Some e)
    | inr size => mret (k, size, if bool_decide (size < 56) then Some ErrCanonSize else None)
    end).

(** [Stream.readKind]: kind, size and error together; a read error has kind 0,
    which is [Byte]. *)
Definition readKind : SM Stream Empty_set (Kind * Z * option rlp_error) :=
  handle readByte (fun r =>
    match r with
    | inl e =>
        stack ← gets s_stack;
        mret (KByte, 0,
          Some (match stack, e with
                | [], ErrUnexpectedEOF | [], ErrValueTooLarge => ErrEOF
                | _, _ => e
                end))
    | inr b =>
        modify (set_byteval 0) ;;
        if bool_decide (b < 0x80) then modify (set_byteval b) ;; mret (KByte, 0, None)
        else if bool_decide (b < 0xB8) then mret (KString, b - 0x80, None)
        else if bool_decide (b < 0xC0) then readLong KString (b - 0xB7)
        else if bool_decide (b < 0xF8) then mret (KList, b - 0xC0, None)
        else readLong KList (b - 0xF7)
    end).

(** [Stream.Kind] *)
Definition Kind_ : SD (Kind * Z) :=
  tos ← gets (fun s => head (s_stack s));
  kind ← gets s_kind;
  match kind with
  | Some _ => mret tt
  | None =>
      modify (set_kinderr None) ;;
      if match tos with Some (pos, size) => bool_decide (pos = size) | None => false end then throw EOL
      else
        '(k, size, err) ← with_err (fun e : Empty_set => match e with end) readKind;
        modify (fun s => set_kinderr err (set_size size (set_kind (Some k) s))) ;;
        match err with
        | Some _ => mret tt
        | None =>
            tos ← gets (fun s => head (s_stack s));
            limited ← gets s_limited;
            remaining ← gets s_remaining;
            match tos with
            | None =>
                if limited && bool_decide (remaining < size) then modify (set_kinderr (Some ErrValueTooLarge))
                else mret tt
            | Some (pos, lsize) =>
                if bool_decide (u64 (lsize - pos) < size) then modify (set_kinderr (Some ErrElemTooLarge))
                else mret tt
            end
        end
  end ;;
  kind ← gets s_kind;
  size ← gets s_size;
  err ← gets s_kinderr;
  match err, kind with
  | Some e, _ => throw e
  | None, Some k => mret (k, size)
  | None, None => panic
  end.

(** ** Reading values *)

Definition rearm : SD unit := modify (set_kind None).

(** [Stream.Bytes] *)
Definition Bytes : SD (list Z) :=
  '(kind, size) ← Kind_;
  match kind with
  | KByte => rearm ;; b ← gets s_byteval; mret [b]
  | KString =>
      b ← readFull size;
      if bool_decide (size = 1) && match b with x :: _ => bool_decide (x < 128) | [] => false end
      then throw ErrCanonSize
      else mret b
  | KList => throw ErrExpectedString
  end.

(** [Stream.Raw]: the header was consumed and is written again. *)
Definition Raw : SD (list Z) :=
  '(kind, size) ← Kind_;
  match kind with
  | KByte => rearm ;; b ← gets s_byteval; mret [b]
  | _ =>
      b ← readFull size;
      mret (puthead (if bool_decide (kind = KString) then 0x80 else 0xC0)
                    (if bool_decide (kind = KString) then 0xB7 else 0xF7) size ++ b)
  end.

(** [Stream.uint]; a single zero byte is an error that leaves the header
    cached. *)
Definition uint (maxbits : Z) : SD Z :=
  '(kind, size) ← Kind_;
  match kind with
  | KByte =>
      b ← gets s_byteval;
      if bool_decide (b = 0) then throw ErrCanonInt else rearm ;; mret b
  | KString =>
      if bool_decide (maxbits / 8 < size) then throw ErrUintOverflow
      else
        handle (readUint (u8 size)) (fun r =>
          match r with
          | inl e => throw (if bool_decide (e = ErrCanonSize) then ErrCanonInt else e)
          | inr v => if bool_decide (0 < size /\ v < 128) then throw ErrCanonSize else mret v
          end)
  | KList => throw ErrExpectedString
  end.

(** [Stream.Bool] *)
Definition Bool : SD bool :=
  num ← uint 8;
  if bool_decide (num = 0) then mret false
  else if bool_decide (num = 1) then mret true
  else throw (ErrInvalidBool num).

(** [Stream.List] *)
Definition List : SD Z :=
  '(kind, size) ← Kind_;
  if bool_decide (kind <> KList) then throw ErrExpectedList
  else
    stack ← gets s_stack;
    modify (fun s => set_size 0 (set_kind None (set_stack ((0, size) :: stack) s))) ;;
    mret size.

(** [Stream.ListEnd] *)
Definition ListEnd : SD unit :=
  stack ← gets s_stack;
  match stack with
  | [] => throw ErrNotInList
  | (pos, size) :: rest =>
      if bool_decide (pos <> size) then throw ErrNotAtEOL
      else
        let rest := match rest with (p, sz) :: rest => (u64 (p + size), sz) :: rest | [] => [] end in
        modify (fun s => set_size 0 (set_kind None (set_stack rest s)))
  end.

(** ** Typed decoders *)

(** [wrapStreamError]; the context that [addErrorContext] adds to the message is
    not modelled. *)
Definition wrapStreamError (e : rlp_error) : rlp_error :=
  match e with
  | ErrCanonInt => ErrDecode "non-canonical integer (leading zero bytes)"
  | ErrCanonSize => ErrDecode "non-canonical size information"
  | ErrExpectedList => ErrDecode "expected input list"
  | ErrExpectedString => ErrDecode "expected input string or byte"
  | ErrUintOverflow => ErrDecode "input string too long"
  | ErrNotAtEOL => ErrDecode "input list has too many elements"
  | e => e
  end.

Definition wrapped {A} (m : SD A) : SD A := with_err wrapStreamError m.

(** [decodeBigInt] *)
Definition decodeBigInt : SD rval :=
  b ← wrapped Bytes;
  match b with
  | 0 :: _ => throw (wrapStreamError ErrCanonInt)
  | _ => mret (VBigInt (Some (be_uint b)))
  end.

(** [decodeByteArray]; the error of [s.Uint()] in the [Byte] case is dropped. *)
Definition decodeByteArray (vlen : nat) : SD rval :=
  '(kind, size) ← Kind_;
  match kind with
  | KByte =>
      if (vlen =? 0)%nat then throw (ErrDecode "input string too long")
      else if (1 <? vlen)%nat then throw (ErrDecode "input string too short")
      else
        handle (uint 64) (fun r =>
          mret (VBytes [match r with inr bv => u8 bv | inl _ => 0 end]))
  | KString =>
      if bool_decide (Z.of_nat vlen < size) then throw (ErrDecode "input string too long")
      else if bool_decide (size < Z.of_nat vlen) then throw (ErrDecode "input string too short")
      else
        slice ← readFull (Z.of_nat vlen);
        if bool_decide (size = 1) && match slice with x :: _ => bool_decide (x < 128) | [] => false end
        then throw (wrapStreamError ErrCanonSize)
        else mret (VBytes slice)
  | KList => throw (wrapStreamError ErrExpectedString)
  end.

(** [decodeSliceElems]: elements up to the end of the list. *)
Fixpoint decodeSliceElems (fuel : nat) (elemdec : SD rval) : SD (list rval) :=
  match fuel with
  | O => fun _ => OutOfFuel
  | S fuel =>
      handle elemdec (fun r =>
        match r with
        | inl EOL => mret []
        | inl e => throw e
        | inr v => l ← decodeSliceElems fuel elemdec; mret (v :: l)
        end)
  end.

(** [decodeListSlice] *)
Definition decodeListSlice (fuel : nat) (elemdec : SD rval) : SD (list rval) :=
  size ← wrapped List;
  if bool_decide (size = 0) then ListEnd ;; mret []
  else l ← decodeSliceElems fuel elemdec; ListEnd ;; mret l.

(** The loop over the fields in [makeStructDecoder]. *)
Fixpoint decodeFields (decs : list (SD rval)) : SD (list rval) :=
  match decs with
  | [] => mret []
  | dec :: decs =>
      handle dec (fun r =>
        match r with
        | inl EOL => throw (ErrDecode "too few elements")
        | inl e => throw e
        | inr v => l ← decodeFields decs; mret (v :: l)
        end)
  end.

(** The decoder of a type ([makeDecoder] and the functions it returns). *)
Fixpoint decode (fuel : nat) (t : rtype) : SD rval :=
  match fuel with
  | O => fun _ => OutOfFuel
  | S fuel =>
      match t with
      | TRaw => b ← Raw; mret (VRaw b)
      | TBigInt => decodeBigInt
      | TUint bits => n ← wrapped (uint bits); mret (VUint n)
      | TBool => b ← wrapped Bool; mret (VBool b)
      | TString | TBytes => b ← wrapped Bytes; mret (VBytes b)
      | TByteArray n => decodeByteArray n
      | TSlice t => l ← decodeListSlice fuel (decode fuel t); mret (VList l)
      | TStruct fs =>
          wrapped List ;;
          l ← decodeFields (map (decode fuel) fs);
          wrapped ListEnd ;;
          mret (VList l)
      | TPtr t => v ← decode fuel t; mret (VPtr v)
      | TNilPtr t =>
          handle Kind_ (fun r =>
            match r with
            | inl e => rearm ;; throw e
            | inr (kind, size) =>
                if bool_decide (size = 0 /\ kind <> KByte) then rearm ;; mret VNil
                else v ← decode fuel t; mret (VPtr v)
            end)
      | TInterface =>
          '(kind, _) ← Kind_;
          if bool_decide (kind = KList) then
            l ← decodeListSlice fuel (decode fuel TInterface);
            mret (VIface (TSlice TInterface) (VList l))
          else
            b ← Bytes;
            mret (VIface TBytes (VBytes b))
      end
  end.

(** The nesting of pointers in a type; every other level of nesting consumes the
    header of a list. *)
Fixpoint rdepth (t : rtype) : nat :=
  match t with
  | TPtr t | TNilPtr t => S (rdepth t)
  | TSlice t => rdepth t
  | TStruct fs => fold_right (fun t n => Nat.max (rdepth t) n) 1%nat fs
  | _ => 1
  end.

(** [DecodeBytes]: one value and nothing after it. *)
Definition DecodeBytes_fuel (fuel : nat) (b : list Z) (t : rtype) : outcome rlp_error rval :=
  match decode fuel t (NewStream b (Z.of_nat (length b))) with
  | Ok (s, inr v) => if bool_decide (s_r s <> []) then Err ErrMoreThanOneValue else Ok v
  | Ok (_, inl e) => Err e
  | Err e => match e with end
  | Panic => Panic
  | OutOfFuel => OutOfFuel
  end.

Definition DecodeBytes (b : list Z) (t : rtype) : outcome rlp_error rval :=
  DecodeBytes_fuel (length b + rdepth t + 2) b t.

(** ** Stepping over one value *)

(** Advancing the innermost list, and the room it has left. *)
Definition adv (n : Z) (st : list (Z * Z)) : list (Z * Z) :=
  match st with (p, sz) :: st => (p + n, sz) :: st | [] => [] end.

Definition room (n : Z) (st : list (Z * Z)) : Prop :=
  match st with (p, sz) :: _ => 0 <= p /\ p + n <= sz < 2 ^ 64 | [] => True end.

Lemma adv_adv n m st : adv n (adv m st) = adv (m + n) st.
Proof. destruct st as [|[p sz] st]; [done|]. simpl. do 2 f_equal. lia. Qed.

Lemma room_le n m st : room n st -> 0 <= m <= n -> room m st.
Proof. destruct st as [|[p sz] st]; simpl; [done|lia]. Qed.

Lemma room_adv n m st : room (n + m) st -> 0 <= n -> 0 <= m -> room m (adv n st).
Proof. destruct st as [|[p sz] st]; simpl; [done|lia]. Qed.

Ltac run :=
  cbv [mbind mret SM_bind SM_ret gets modify throw panic handle with_err
       set_kind set_size set_byteval set_kinderr set_stack set_remaining set_r
       s_r s_remaining s_limited s_kind s_size s_byteval s_kinderr s_stack head].

Lemma willRead_ok n r rem k sz bv ke st :
  0 <= n <= rem -> room n st ->
  willRead n (mkStream r rem true k sz bv ke st) =
  Ok (mkStream r (rem - n) true None sz bv ke (adv n st), inr tt).
Proof.
  intros Hn Hr. unfold willRead. run. destruct st as [|[p lsz] st]; run.
  - rewrite bool_decide_false by lia. done.
  - simpl in Hr. rewrite (u64_small (lsz - p)), (u64_small (p + n)) by (unfold in_u64; lia).
    rewrite bool_decide_false by lia. run. rewrite bool_decide_false by lia. done.
Qed.

Lemma readByte_ok b r rem k sz bv ke st :
  1 <= rem -> room 1 st ->
  readByte (mkStream (b :: r) rem true k sz bv ke st) =
  Ok (mkStream r (rem - 1) true None sz bv ke (adv 1 st), inr b).
Proof. intros. unfold readByte. run. rewrite willRead_ok by (lia || done). done. Qed.

Lemma readFull_ok b r rem k sz bv ke st :
  let n := Z.of_nat (length b) in
  n <= rem -> room n st ->
  readFull n (mkStream (b ++ r) rem true k sz bv ke st) =
  Ok (mkStream r (rem - n) true None sz bv ke (adv n st), inr b).
Proof.
  intros n Hn Hr. unfold readFull. run. rewrite willRead_ok by (unfold n in *; lia || done).
  run. unfold n. rewrite Nat2Z.id, drop_app_length, take_app_length.
  rewrite bool_decide_false by (rewrite length_app; lia). done.
Qed.

(** The length of a header was read. *)
Lemma readUint_ok n r rem k sz bv ke st :
  56 <= n < 2 ^ 64 -> intsize n <= rem -> room (intsize n) st ->
  readUint (intsize n) (mkStream (be_bytes (Z.to_nat (intsize n)) n ++ r) rem true k sz bv ke st) =
  Ok (mkStream r (rem - intsize n) true None sz bv ke (adv (intsize n) st), inr n).
Proof.
  intros Hn Hrem Hr. pose proof (intsize_range n ltac:(lia)) as Hi.
  pose proof (intsize_bound n ltac:(lia)) as Hb.
  assert (be_uint (be_bytes (Z.to_nat (intsize n)) n) = n) as Hu.
  { rewrite be_uint_be_bytes, Z2Nat.id by lia. apply Z.mod_small. lia. }
  unfold readUint. rewrite bool_decide_false by lia. case_bool_decide as H1.
  - rewrite H1 in Hu, Hrem, Hr |- *. change (Z.to_nat 1) with 1%nat in Hu |- *.
    pose proof (length_be_bytes 1 n). destruct (be_bytes 1 n) as [|b [|]]; try done.
    assert (b = n) as -> by (rewrite be_uint_cons in Hu; unfold be_uint in Hu; simpl in Hu; lia). cbn [app]. by rewrite readByte_ok by (lia || done).
  - run. pose proof (readFull_ok (be_bytes (Z.to_nat (intsize n)) n) r rem k sz bv ke st) as Hf.
    rewrite length_be_bytes, Z2Nat.id in Hf by lia. cbv zeta in Hf. rewrite Hf by done.
    destruct (be_bytes_head n Hn) as (b & l & E & Hpos). rewrite E in Hu |- *. rewrite Hu.
    destruct b; [lia|done|lia].
Qed.

(** ** Headers *)

(** The payload still to read, the bytes of the header, and the cached byte. *)
Definition payload (k : Kind) (c : list Z) : list Z := match k with KByte => [] | _ => c end.
Definition plen (k : Kind) (c : list Z) : Z := Z.of_nat (length (payload k c)).
Definition flen (k : Kind) (c : list Z) : Z := Z.of_nat (length (frame k c)).
Definition hlen (k : Kind) (c : list Z) : Z := flen k c - plen k c.
Definition cached_byte (k : Kind) (c : list Z) : Z := match k, c with KByte, x :: _ => x | _, _ => 0 end.

(** The stream after its header was read. *)
Definition peeked (k : Kind) (c rest : list Z) (rem : Z) (st : list (Z * Z)) : Stream :=
  mkStream (payload k c ++ rest) (rem - hlen k c) true (Some k) (plen k c) (cached_byte k c) None
    (adv (hlen k c) st).

Lemma peeked_Kind k c rest rem st :
  Kind_ (peeked k c rest rem st) = Ok (peeked k c rest rem st, inr (k, plen k c)).
Proof. done. Qed.

Lemma hlen_long k c :
  k <> KByte -> kind_ok k c -> Z.of_nat (length c) < 2 ^ 64 -> hlen k c = headsize (Z.of_nat (length c)) /\ plen k c = Z.of_nat (length c).
Proof.
  intros Hk Hc Hl. unfold hlen, flen, plen. destruct k; [done| |]; cbn [frame payload].
  - rewrite encode_str_frame, length_app by done.
    pose proof (length_header 0x80 0xB7 (Z.of_nat (length c)) ltac:(lia)). lia.
  - rewrite length_app. pose proof (length_header 0xC0 0xF7 (Z.of_nat (length c)) ltac:(lia)). lia.
Qed.

Lemma flen_pos k c : 1 <= flen k c /\ 0 <= plen k c <= flen k c.
Proof.
  unfold flen, plen. pose proof (length_frame_ge k c). split.
  - destruct k; cbn [frame]; [| |rewrite length_app; pose proof (length_header_ge 0xC0 0xF7 (Z.of_nat (length c))); lia];
      (destruct (single c) eqn:E;
       [destruct c as [|x [|]]; try done; simpl in *; rewrite E; simpl; lia
       |rewrite encode_str_frame, length_app by done;
        pose proof (length_header_ge 0x80 0xB7 (Z.of_nat (length c))); lia]).
  - destruct k; simpl in *; lia.
Qed.

(** Reading a header of a payload of [n] bytes. *)
Lemma readKind_header_ok k small large n r rem kd sz bv ke st :
  (k = KString /\ small = 0x80 /\ large = 0xB7) \/ (k = KList /\ small = 0xC0 /\ large = 0xF7) ->
  0 <= n < 2 ^ 64 -> headsize n <= rem -> room (headsize n) st ->
  readKind (mkStream (header small large n ++ r) rem true kd sz bv ke st) =
  Ok (mkStream r (rem - headsize n) true None sz 0 ke (adv (headsize n) st), inr (k, n, None)).
Proof.
  intros Hk Hn Hrem Hr. unfold readKind. run. unfold header, headsize in *. case_bool_decide as H56.
  - cbn [app]. rewrite readByte_ok by (lia || done). run.
    rewrite (bool_decide_false (_ < 0x80)) by lia. destruct Hk as [(-> & -> & ->)|(-> & -> & ->)].
    + rewrite bool_decide_true by lia. do 5 f_equal. lia.
    + do 2 rewrite bool_decide_false by lia. rewrite bool_decide_true by lia. do 5 f_equal. lia.
  - pose proof (intsize_range n ltac:(lia)) as Hi. cbn [app].
    rewrite readByte_ok by (lia || (eapply room_le; [done|lia])). run.
    rewrite (bool_decide_false (_ < 0x80)) by lia.
    assert (room (intsize n) (adv 1 st)) as Hr' by (apply room_adv; [done|lia..]).
    destruct Hk as [(-> & -> & ->)|(-> & -> & ->)].
    + rewrite bool_decide_false by lia. rewrite bool_decide_true by lia.
      replace (183 + intsize n - 183) with (intsize n) by lia. unfold readLong. run.
      rewrite readUint_ok by (lia || done). rewrite bool_decide_false by lia. rewrite adv_adv. do 3 f_equal. lia.
    + do 3 rewrite bool_decide_false by lia.
      replace (247 + intsize n - 247) with (intsize n) by lia. unfold readLong. run.
      rewrite readUint_ok by (lia || done). rewrite bool_decide_false by lia. rewrite adv_adv. do 3 f_equal. lia.
Qed.

Lemma readKind_ok k c rest rem kd sz bv ke st :
  kind_ok k c -> flen k c <= rem -> flen k c < 2 ^ 64 -> room (flen k c) st ->
  readKind (mkStream (frame k c ++ rest) rem true kd sz bv ke st) =
  Ok (mkStream (payload k c ++ rest) (rem - hlen k c) true None sz (cached_byte k c) ke (adv (hlen k c) st),
      inr (k, plen k c, None)).
Proof.
  intros Hc Hrem H64 Hr. pose proof (flen_pos k c) as Hf.
  destruct (decide (k = KByte)) as [->|Hk].
  - destruct c as [|x [|]]; try done. unfold hlen, flen, plen in *. simpl in Hc. cbn [frame encode_str] in *.
    rewrite Hc in *. cbn [app length payload cached_byte] in *. unfold readKind. run.
    rewrite readByte_ok by (simpl in *; lia || done). run. rewrite Hc. done.
  - pose proof (length_frame_ge k c) as Hg.
    destruct (hlen_long k c Hk Hc) as [Hh Hp]; [unfold flen in *; lia|]. rewrite Hp in Hf.
    assert (hlen k c = flen k c - Z.of_nat (length c)) as Hfl by (unfold hlen; lia).
    assert (room (headsize (Z.of_nat (length c))) st) as Hr' by (eapply room_le; [done|lia]).
    rewrite Hp, Hh.
    destruct k; [done| |]; cbn [frame payload cached_byte].
    + rewrite encode_str_frame, <- app_assoc by done. apply readKind_header_ok; [by left|lia|lia|done].
    + rewrite <- app_assoc. apply readKind_header_ok; [by right|lia|lia|done].
Qed.

(** A stream in front of a framed value. *)
Definition ready (k : Kind) (c rest : list Z) (rem : Z) (st : list (Z * Z)) (s : Stream) : Prop :=
  Kind_ s = Ok (peeked k c rest rem st, inr (k, plen k c)).

Lemma fresh_ready k c rest rem sz bv ke st :
  kind_ok k c -> flen k c <= rem -> flen k c < 2 ^ 64 -> room (flen k c) st ->
  ready k c rest rem st (mkStream (frame k c ++ rest) rem true None sz bv ke st).
Proof.
  intros Hc Hrem H64 Hr. pose proof (flen_pos k c) as Hf. unfold ready, Kind_.
  destruct st as [|[p z] st]; run.
  - rewrite readKind_ok by done. run. cbn [adv]. rewrite bool_decide_false by (unfold hlen; lia). done.
  - pose proof Hr as Hr'. simpl in Hr'. rewrite bool_decide_false by lia.
    rewrite readKind_ok by done. run. cbn [adv]. rewrite u64_small by (unfold in_u64, hlen; lia).
    rewrite bool_decide_false by (unfold hlen; lia). done.
Qed.

(** ** Consuming one value *)

Record fits (k : Kind) (c : list Z) (rem : Z) (st : list (Z * Z)) : Prop := {
  fits_kind : kind_ok k c;
  fits_rem : flen k c <= rem;
  fits_64 : flen k c < 2 ^ 64;
  fits_room : room (flen k c) st
}.

(** The stream after a value. *)
Definition after (r : list Z) (rem : Z) (st : list (Z * Z)) (s : Stream) : Prop :=
  exists sz bv ke, s = mkStream r rem true None sz bv ke st.

(** A decoder that consumes the framed value in front of it and returns [v]. *)
Definition consumes {A} (k : Kind) (c : list Z) (m : SD A) (v : A) : Prop :=
  forall rest rem st s, fits k c rem st -> ready k c rest rem st s ->
  exists s', m s = Ok (s', inr v) /\ after rest (rem - flen k c) (adv (flen k c) st) s'.

Lemma peeked_readFull k c rest rem st :
  k <> KByte -> fits k c rem st ->
  exists s', readFull (plen k c) (peeked k c rest rem st) = Ok (s', inr c) /\
    after rest (rem - flen k c) (adv (flen k c) st) s'.
Proof.
  intros Hk [Hc Hrem H64 Hr]. pose proof (flen_pos k c) as Hf.
  assert (payload k c = c) as Hp by (by destruct k).
  assert (plen k c = Z.of_nat (length c)) as Hpl by (unfold plen; by rewrite Hp).
  unfold peeked. rewrite Hp, Hpl. rewrite readFull_ok.
  - rewrite adv_adv. unfold hlen. rewrite Hpl. eexists. split; [done|]. unfold after.
    do 3 eexists. f_equal; [lia|f_equal; lia].
  - unfold hlen. lia.
  - apply room_adv; unfold hlen; [|lia..]. eapply room_le; [done|lia].
Qed.

Lemma peeked_byte c rest rem st :
  fits KByte c rem st ->
  exists x, c = [x] /\ x < 128 /\
  after rest (rem - flen KByte c) (adv (flen KByte c) st) (set_kind None (peeked KByte c rest rem st)) /\
  s_byteval (peeked KByte c rest rem st) = x.
Proof.
  intros [Hc Hrem H64 Hr]. destruct c as [|x [|]]; try done. exists x. simpl in Hc.
  split; [done|]. split; [by apply bool_decide_eq_true in Hc|]. split; [|done].
  assert (flen KByte [x] = 1 /\ hlen KByte [x] = 1) as [Hfl Hh].
  { unfold hlen, flen, plen. simpl. by rewrite Hc. }
  unfold peeked, after. run. rewrite Hfl, Hh. eauto.
Qed.

Lemma single_test c :
  single c = false ->
  bool_decide (Z.of_nat (length c) = 1) && match c with x :: _ => bool_decide (x < 128) | [] => false end = false.
Proof.
  destruct c as [|x [|y c]]; intros H; [done| |].
  - cbn [single] in H. by rewrite H, andb_false_r.
  - by rewrite bool_decide_false by (cbn [length]; lia).
Qed.

Lemma Bytes_ok k c : k <> KList -> consumes k c Bytes c.
Proof.
  intros Hk rest rem st s Hfit Hrd. unfold Bytes. run. rewrite Hrd. destruct k; [| |done].
  - destruct (peeked_byte c rest rem st Hfit) as (x & -> & _ & Ha & <-). eexists. split; [reflexivity|done].
  - destruct (peeked_readFull KString c rest rem st ltac:(done) Hfit) as (s' & -> & Ha).
    exists s'. unfold plen. cbn [payload]. rewrite single_test by apply Hfit. done.
Qed.

Lemma wrapped_consumes {A} k c (m : SD A) v : consumes k c m v -> consumes k c (wrapped m) v.
Proof.
  intros H rest rem st s Hf Hr. destruct (H rest rem st s Hf Hr) as (s' & E & Ha). exists s'.
  unfold wrapped. run. by rewrite E.
Qed.

Lemma map_consumes {A B} k c (m : SD A) (f : A -> B) v :
  consumes k c m v -> consumes k c (x ← m; mret (f x)) (f v).
Proof.
  intros H rest rem st s Hf Hr. destruct (H rest rem st s Hf Hr) as (s' & E & Ha). exists s'.
  run. by rewrite E.
Qed.

(** ** Numbers *)

Lemma peeked_readUint c rest rem st :
  fits KString c rem st -> head c <> Some 0 ->
  exists s', readUint (Z.of_nat (length c)) (peeked KString c rest rem st) = Ok (s', inr (be_uint c)) /\
    after rest (rem - flen KString c) (adv (flen KString c) st) s'.
Proof.
  intros Hfit Hh. destruct (peeked_readFull KString c rest rem st ltac:(done) Hfit) as (s' & Hf & Ha).
  unfold plen in Hf. cbn [payload] in Hf. unfold readUint. destruct c as [|x [|y c]].
  - rewrite bool_decide_true by done. unfold peeked. run. eexists. split; [done|].
    unfold after, hlen, plen. do 3 eexists. f_equal; simpl; f_equal; lia.
  - rewrite bool_decide_false, bool_decide_true by (simpl; lia).
    unfold readFull in Hf. unfold readByte. revert Hf. run. change (Z.of_nat (length [x])) with 1.
    destruct (willRead 1 (peeked KString [x] rest rem st)) as [[s1 [e|[]]]|e| |] eqn:Ew; try done.
    assert (s_r s1 = x :: rest) as Hr.
    { destruct Hfit as [_ Hrem _ Hr]. pose proof (flen_pos KString [x]). unfold peeked in Ew. rewrite willRead_ok in Ew.
      - by injection Ew as <-.
      - unfold hlen. change (plen KString [x]) with 1. lia.
      - apply room_adv; unfold hlen; change (plen KString [x]) with 1; [|lia..]. eapply room_le; [done|lia]. }
    destruct s1. cbn [s_r] in Hr. subst. run. rewrite bool_decide_false by (simpl; lia). intros [= <-]. eauto.
  - rewrite !bool_decide_false by (simpl; lia). run. rewrite Hf. exists s'. split; [|done].
    destruct x; [done|done|done].
Qed.

Lemma big_bytes_head i : 0 <= i -> head (big_bytes i) <> Some 0.
Proof.
  intros Hi. destruct (decide (i = 0)) as [->|]; [done|].
  destruct (big_bytes_cons i ltac:(lia)) as (b & l & -> & Hb). simpl. intros [= ->]. lia.
Qed.

Lemma big_bytes_width i n : 0 <= i < 256 ^ Z.of_nat n -> (length (big_bytes i) <= n)%nat.
Proof.
  intros Hi. destruct (decide (i = 0)) as [->|]; [simpl; lia|].
  pose proof (big_bytes_ok i) as Hok. pose proof (be_uint_big_bytes i ltac:(lia)) as Hu.
  destruct (big_bytes_cons i ltac:(lia)) as (b & l & E & Hb). rewrite E in *.
  apply Forall_cons in Hok as [_ Hl]. pose proof (be_uint_head_pos b l Hl Hb). rewrite Hu in *. simpl.
  assert (256 ^ Z.of_nat (length l) < 256 ^ Z.of_nat n) as Hlt by lia.
  apply Z.pow_lt_mono_r_iff in Hlt; lia.
Qed.

Lemma be_uint_not_single c :
  bytes_ok c -> head c <> Some 0 -> single c = false -> (0 < length c)%nat -> 128 <= be_uint c.
Proof.
  intros Hok Hh Hs Hl. destruct c as [|x [|y c]]; [simpl in Hl; lia| |].
  - simpl in Hs. apply bool_decide_eq_false in Hs. rewrite be_uint_cons. unfold be_uint. simpl. lia.
  - apply Forall_cons in Hok as [Hx Hok]. unfold is_byte in Hx.
    assert (x <> 0) by (simpl in Hh; congruence).
    pose proof (be_uint_head_pos x (y :: c) Hok ltac:(lia)).
    assert (256 ^ 1 <= 256 ^ Z.of_nat (length (y :: c))) by (apply Z.pow_le_mono_r; simpl; lia). lia.
Qed.

Lemma uint_ok k i (n : nat) :
  k <> KList -> (n <= 8)%nat -> 0 <= i < 256 ^ Z.of_nat n -> consumes k (big_bytes i) (uint (8 * Z.of_nat n)) i.
Proof.
  intros Hk Hn Hi rest rem st s Hfit Hrd. pose proof (big_bytes_width i n Hi) as Hw.
  pose proof (be_uint_big_bytes i ltac:(lia)) as Hu. pose proof (big_bytes_head i ltac:(lia)) as Hh.
  pose proof (big_bytes_ok i) as Hok. set (c := big_bytes i) in *.
  unfold uint. run. rewrite Hrd. destruct k; [| |done].
  - destruct (peeked_byte c rest rem st Hfit) as (x & Ec & _ & Ha & _). clearbody c. subst c.
    unfold peeked at 1. run. cbn [cached_byte]. rewrite bool_decide_false by (simpl in Hh; congruence). eexists. split; [|done].
    do 3 f_equal. rewrite <- Hu, be_uint_cons. unfold be_uint. simpl. lia.
  - unfold plen. cbn [payload].
    rewrite bool_decide_false by (rewrite Z.mul_comm, Z.div_mul by lia; lia).
    rewrite wrapU_small by lia.
    destruct (peeked_readUint c rest rem st Hfit Hh) as (s' & -> & Ha). exists s'. rewrite bool_decide_false, Hu; [done|].
    rewrite Hu. intros [Hl H128]. pose proof (be_uint_not_single c Hok Hh (fits_kind _ _ _ _ Hfit) ltac:(lia)). lia.
Qed.

Lemma Bool_ok k b : k <> KList -> consumes k (if b : bool then [1] else []) Bool b.
Proof.
  intros Hk rest rem st s Hf Hr. replace (if b then [1] else []) with (big_bytes (if b then 1 else 0)) in * by by destruct b.
  destruct (uint_ok k (if b then 1 else 0) 1 Hk ltac:(lia) ltac:(destruct b; simpl; lia) rest rem st s Hf Hr)
    as (s' & E & Ha).
  exists s'. unfold Bool. run. change (8 * Z.of_nat 1) with 8 in E. rewrite E. by destruct b.
Qed.

Lemma decodeBigInt_ok k i : k <> KList -> 0 <= i -> consumes k (big_bytes i) decodeBigInt (VBigInt (Some i)).
Proof.
  intros Hk Hi rest rem st s Hf Hr.
  destruct (wrapped_consumes _ _ _ _ (Bytes_ok k (big_bytes i) Hk) rest rem st s Hf Hr) as (s' & E & Ha).
  exists s'. unfold decodeBigInt. run. rewrite E. split; [|done].
  pose proof (big_bytes_head i Hi). rewrite be_uint_big_bytes by done.
  destruct (big_bytes i) as [|[] l]; done.
Qed.

Lemma decodeByteArray_ok k c :
  k <> KList -> bytes_ok c -> c <> [0] -> consumes k c (decodeByteArray (length c)) (VBytes c).
Proof.
  intros Hk Hok H0 rest rem st s Hfit Hrd. unfold decodeByteArray. run. rewrite Hrd. destruct k; [| |done].
  - destruct (peeked_byte c rest rem st Hfit) as (x & -> & Hx & Ha & _). unfold bytes_ok in Hok. rewrite Forall_singleton in Hok.
    unfold is_byte in Hok. assert (x <> 0) by congruence. cbn [length Nat.eqb Nat.ltb Nat.leb]. unfold uint. run. rewrite peeked_Kind.
    unfold peeked at 1. cbn [s_byteval cached_byte]. rewrite bool_decide_false by done. eexists. split; [|done].
    unfold rearm, peeked. run. cbn [cached_byte]. by rewrite wrapU_small by lia.
  - unfold plen. cbn [payload]. rewrite !bool_decide_false by lia.
    destruct (peeked_readFull KString c rest rem st ltac:(done) Hfit) as (s' & E & Ha).
    unfold plen in E. cbn [payload] in E. rewrite E. exists s'. rewrite single_test by apply Hfit. done.
Qed.

(** ** Lists *)

Lemma rdepth_pos t : (1 <= rdepth t)%nat.
Proof. induction t as [| | | | | | | |fs| | |]; simpl; try lia. induction fs; simpl; lia. Qed.

(** At the end of the innermost list every decoder reports [EOL]. *)
Lemma decode_eol t : forall fuel r rem sz bv ke p st,
  (rdepth t <= fuel)%nat ->
  decode fuel t (mkStream r rem true None sz bv ke ((p, p) :: st)) =
  Ok (mkStream r rem true None sz bv None ((p, p) :: st), inl EOL).
Proof.
  assert (forall r rem sz bv ke p st,
    Kind_ (mkStream r rem true None sz bv ke ((p, p) :: st)) =
    Ok (mkStream r rem true None sz bv None ((p, p) :: st), inl EOL)) as HK.
  { intros. unfold Kind_. run. by rewrite bool_decide_true. }
  induction t; intros fuel r rem sz bv ke p st Hf; (destruct fuel as [|fuel]; [match type of Hf with (rdepth ?t <= _)%nat => pose proof (rdepth_pos t) end; lia|]);
    cbn [decode];
    unfold Raw, decodeBigInt, decodeByteArray, decodeListSlice, wrapped, Bool, uint, Bytes, List; run;
    rewrite ?HK; try done.
  cbn [rdepth] in Hf. by rewrite IHt by lia.
Qed.

Lemma List_ok c rest rem st s :
  ready KList c rest rem st s ->
  List s = Ok (mkStream (c ++ rest) (rem - hlen KList c) true None 0 0 None
                 ((0, Z.of_nat (length c)) :: adv (hlen KList c) st), inr (Z.of_nat (length c))).
Proof. intros Hr. unfold List. run. rewrite Hr. done. Qed.

Lemma ListEnd_ok c rest rem st s :
  let n := Z.of_nat (length c) in
  fits KList c rem st -> after rest (rem - flen KList c) ((n, n) :: adv (hlen KList c) st) s ->
  exists s', ListEnd s = Ok (s', inr tt) /\ after rest (rem - flen KList c) (adv (flen KList c) st) s'.
Proof.
  intros n [_ Hrem H64 Hr] (sz & bv & ke & ->). unfold ListEnd. run. rewrite bool_decide_false by lia.
  eexists. split; [done|]. do 3 eexists. f_equal.
  assert (flen KList c = hlen KList c + n) as E by (unfold hlen, plen, n; simpl; lia).
  pose proof (flen_pos KList c). destruct st as [|[p q] st]; [done|]. simpl in Hr |- *.
  rewrite wrapU_small by (unfold n in *; lia). do 2 f_equal. lia.
Qed.

(** [dec] decodes the item [it] to [v]. *)
Definition reads (dec : SD rval) (v : rval) (it : item) : Prop :=
  forall k c, encode_item it = frame k c -> consumes k c dec v.

Lemma reads_after dec v it rest rem pos size st s :
  reads dec v it -> let n := Z.of_nat (length (encode_item it)) in
  0 <= pos -> pos + n <= size -> size < 2 ^ 64 -> n <= rem ->
  after (encode_item it ++ rest) rem ((pos, size) :: st) s ->
  exists s', dec s = Ok (s', inr v) /\ after rest (rem - n) ((pos + n, size) :: st) s'.
Proof.
  intros Hd n Hp Hsz H64 Hn (sz & bv & ke & ->).
  destruct (encode_item_frame it) as (k & c & E & Hk & _).
  assert (n = flen k c) as Hfl by (unfold n, flen; by rewrite E). rewrite E.
  assert (fits k c rem ((pos, size) :: st)) as Hf by (split; [done|lia|lia|simpl; lia]).
  destruct (Hd k c E rest rem ((pos, size) :: st) (mkStream (frame k c ++ rest) rem true None sz bv ke ((pos, size) :: st)) Hf)
    as (s' & E' & Ha); [apply fresh_ready; apply Hf|].
  exists s'. split; [done|]. rewrite Hfl. done.
Qed.

Lemma elems_ok dec vs its : forall fuel rest rem pos size st s,
  Forall2 (reads dec) vs its -> (length vs < fuel)%nat ->
  (forall r rem sz bv ke p st,
     dec (mkStream r rem true None sz bv ke ((p, p) :: st)) =
     Ok (mkStream r rem true None sz bv None ((p, p) :: st), inl EOL)) ->
  let n := Z.of_nat (length (concat (map encode_item its))) in
  0 <= pos -> pos + n = size -> size < 2 ^ 64 -> n <= rem ->
  after (concat (map encode_item its) ++ rest) rem ((pos, size) :: st) s ->
  exists s', decodeSliceElems fuel dec s = Ok (s', inr vs) /\ after rest (rem - n) ((size, size) :: st) s'.
Proof.
  intros fuel rest rem pos size st s Hl Hf Heol. revert fuel rem pos s Hf.
  induction Hl as [|v it vs its Hv Hl IH]; intros fuel rem pos s Hf n Hp Hsz H64 Hrem Ha; unfold n in *;
    (destruct fuel as [|fuel]; [simpl in Hf; lia|]); cbn [decodeSliceElems].
  - destruct Ha as (sz & bv & ke & ->). simpl in *. assert (pos = size) as -> by lia.
    run. rewrite Heol. eexists. split; [done|]. do 3 eexists. f_equal. lia.
  - cbn [map concat] in *. rewrite length_app in *. rewrite <- app_assoc in Ha.
    destruct (reads_after dec v it _ rem pos size st s Hv Hp ltac:(lia) H64 ltac:(lia) Ha) as (s1 & E1 & A1).
    set (m := Z.of_nat (length (encode_item it))) in *.
    destruct (IH fuel (rem - m) (pos + m) s1 ltac:(simpl in Hf; lia) ltac:(lia) ltac:(lia) H64 ltac:(lia) A1) as (s2 & E2 & A2).
    exists s2. unfold handle. rewrite E1. run. rewrite E2. split; [done|].
    replace (rem - _) with (rem - m - Z.of_nat (length (concat (map encode_item its)))) by lia.
    done.
Qed.

Lemma fields_ok decs vs its : forall rest rem pos size st s,
  Forall3 reads decs vs its ->
  let n := Z.of_nat (length (concat (map encode_item its))) in
  0 <= pos -> pos + n = size -> size < 2 ^ 64 -> n <= rem ->
  after (concat (map encode_item its) ++ rest) rem ((pos, size) :: st) s ->
  exists s', decodeFields decs s = Ok (s', inr vs) /\ after rest (rem - n) ((size, size) :: st) s'.
Proof.
  intros rest rem pos size st s Hl. revert rem pos s.
  induction Hl as [|dec v it decs vs its Hv Hl IH]; intros rem pos s n Hp Hsz H64 Hrem Ha; unfold n in *;
    cbn [decodeFields].
  - exists s. split; [done|]. destruct Ha as (sz & bv & ke & ->). simpl in *. assert (pos = size) as -> by lia.
    do 3 eexists. f_equal. lia.
  - cbn [map concat] in *. rewrite length_app in *. rewrite <- app_assoc in Ha.
    destruct (reads_after dec v it _ rem pos size st s Hv Hp ltac:(lia) H64 ltac:(lia) Ha) as (s1 & E1 & A1).
    set (m := Z.of_nat (length (encode_item it))) in *.
    destruct (IH (rem - m) (pos + m) s1 ltac:(lia) ltac:(lia) H64 ltac:(lia) A1) as (s2 & E2 & A2).
    exists s2. unfold handle. rewrite E1. run. rewrite E2. split; [done|].
    replace (rem - _) with (rem - m - Z.of_nat (length (concat (map encode_item its)))) by lia.
    done.
Qed.

Lemma list_payload c rem st :
  fits KList c rem st ->
  Z.of_nat (length c) <= rem - hlen KList c /\ Z.of_nat (length c) < 2 ^ 64 /\
  rem - hlen KList c - Z.of_nat (length c) = rem - flen KList c.
Proof.
  intros [_ Hrem H64 _]. pose proof (flen_pos KList c). unfold hlen, plen in *. simpl in *. lia.
Qed.

Lemma decodeListSlice_ok fuel dec vs its :
  Forall2 (reads dec) vs its -> (length vs < fuel)%nat ->
  (forall r rem sz bv ke p st,
     dec (mkStream r rem true None sz bv ke ((p, p) :: st)) =
     Ok (mkStream r rem true None sz bv None ((p, p) :: st), inl EOL)) ->
  consumes KList (concat (map encode_item its)) (decodeListSlice fuel dec) vs.
Proof.
  intros Hl Hf Heol rest rem st s Hfit Hrd. set (c := concat (map encode_item its)) in *.
  destruct (list_payload c rem st Hfit) as (Hp1 & Hp2 & Hp3).
  unfold decodeListSlice, wrapped. run. rewrite (List_ok c rest rem st s Hrd).
  set (s0 := mkStream _ _ _ _ _ _ _ _).
  assert (after (c ++ rest) (rem - hlen KList c) ((0, Z.of_nat (length c)) :: adv (hlen KList c) st) s0) as A0
    by (do 3 eexists; done).
  destruct (elems_ok dec vs its fuel rest (rem - hlen KList c) 0 (Z.of_nat (length c)) (adv (hlen KList c) st) s0
    Hl Hf Heol ltac:(lia) ltac:(fold c; lia) Hp2 Hp1 A0) as (s1 & E1 & A1).
  fold c in A1. rewrite Hp3 in A1. case_bool_decide as H0.
  - destruct vs as [|v vs].
    + rewrite H0 in A0. assert (flen KList c = hlen KList c) as Hfl by lia.
      destruct (ListEnd_ok c rest rem st s0 Hfit) as (s2 & E2 & A2).
      { rewrite H0, Hfl. destruct c; [done|simpl in H0; lia]. }
      rewrite E2. exists s2. done.
    + apply Forall2_cons_inv_l in Hl as (it & its' & _ & _ & ->). pose proof (encode_item_nonempty it).
      unfold c in H0. simpl in H0. rewrite length_app in H0. lia.
  - rewrite E1. destruct (ListEnd_ok c rest rem st s1 Hfit A1) as (s2 & E2 & A2). rewrite E2. exists s2. done.
Qed.

Lemma decode_struct_ok fuel fs vs its :
  Forall3 reads (map (decode fuel) fs) vs its ->
  consumes KList (concat (map encode_item its)) (decode (S fuel) (TStruct fs)) (VList vs).
Proof.
  intros Hl rest rem st s Hfit Hrd. set (c := concat (map encode_item its)) in *.
  destruct (list_payload c rem st Hfit) as (Hp1 & Hp2 & Hp3).
  cbn [decode]. unfold wrapped. run. rewrite (List_ok c rest rem st s Hrd).
  set (s0 := mkStream _ _ _ _ _ _ _ _).
  destruct (fields_ok (map (decode fuel) fs) vs its rest (rem - hlen KList c) 0 (Z.of_nat (length c))
    (adv (hlen KList c) st) s0 Hl ltac:(lia) ltac:(fold c; lia) Hp2 Hp1) as (s1 & E1 & A1); [by do 3 eexists|].
  fold c in A1. rewrite Hp3 in A1. rewrite E1.
  destruct (ListEnd_ok c rest rem st s1 Hfit A1) as (s2 & E2 & A2). rewrite E2. exists s2. done.
Qed.

(** ** The round trip *)

(** The values decoding can produce: machine integers in range, big integers
    that are present and not negative, arrays of their length, present pointers,
    interfaces of byte strings and lists; the array [1]byte with a zero is the
    one value of these shapes that is left out. *)
Inductive canon : rtype -> rval -> Prop :=
  | canon_bigint i : 0 <= i -> canon TBigInt (VBigInt (Some i))
  | canon_uint n i : (n <= 8)%nat -> 0 <= i < 256 ^ Z.of_nat n -> canon (TUint (8 * Z.of_nat n)) (VUint i)
  | canon_bool b : canon TBool (VBool b)
  | canon_string b : bytes_ok b -> canon TString (VBytes b)
  | canon_bytes b : bytes_ok b -> canon TBytes (VBytes b)
  | canon_array b : bytes_ok b -> b <> [0] -> canon (TByteArray (length b)) (VBytes b)
  | canon_slice t l : Forall (canon t) l -> canon (TSlice t) (VList l)
  | canon_struct fs l : Forall2 canon fs l -> canon (TStruct fs) (VList l)
  | canon_ptr t v : canon t v -> canon (TPtr t) (VPtr v)
  | canon_nil t it : nil_item t = Some it -> canon (TNilPtr t) VNil
  | canon_nilptr t v : canon t v -> item_of v t <> Some (Str []) -> item_of v t <> Some (Lst []) ->
      canon (TNilPtr t) (VPtr v)
  | canon_iface_bytes b : bytes_ok b -> canon TInterface (VIface TBytes (VBytes b))
  | canon_iface_list l : Forall (canon TInterface) l ->
      canon TInterface (VIface (TSlice TInterface) (VList l)).

Lemma reads_str dec v b :
  (forall k, k <> KList -> consumes k b dec v) -> reads dec v (Str b).
Proof.
  intros H k c E rest rem st s Hf Hr. destruct (encode_item_frame (Str b)) as (k' & c' & E' & Hk' & Hn & ->).
  rewrite E' in E. pose proof (flen_pos k c). pose proof (fits_kind _ _ _ _ Hf) as Hk. pose proof (fits_64 _ _ _ _ Hf) as H64.
  pose proof (Split_frame k c [] Hk ltac:(rewrite app_nil_r; unfold flen in *; lia)) as S1.
  rewrite <- E, Split_frame in S1; [|done|rewrite app_nil_r, E; unfold flen in *; lia].
  injection S1 as <- <-. by apply H.
Qed.

Lemma reads_lst dec v l :
  consumes KList (concat (map encode_item l)) dec v -> reads dec v (Lst l).
Proof.
  intros H k c E rest rem st s Hf Hr. pose proof (fits_kind _ _ _ _ Hf) as Hk. pose proof (fits_64 _ _ _ _ Hf) as H64.
  change (encode_item (Lst l)) with (frame KList (concat (map encode_item l))) in E.
  pose proof (Split_frame k c [] Hk ltac:(rewrite app_nil_r; unfold flen in *; lia)) as S1.
  rewrite <- E, Split_frame in S1; [|done|rewrite app_nil_r, E; unfold flen in *; lia].
  injection S1 as <- <-. by apply H.
Qed.

Definition decodes (v : rval) : Prop :=
  forall t it fuel, canon t v -> item_of v t = Some it ->
  (length (encode_item it) + rdepth t <= fuel)%nat -> reads (decode fuel t) v it.

Lemma slice_reads t l its fuel :
  Forall decodes l -> Forall (canon t) l -> seq_items (map (fun v => (v, t)) l) = Some its ->
  (length (concat (map encode_item its)) + rdepth t <= fuel)%nat ->
  Forall2 (reads (decode fuel t)) l its /\ (length l <= length (concat (map encode_item its)))%nat.
Proof.
  intros Hd Hc. revert its. induction Hd as [|v l Hv _ IH]; intros its Hi Hf; simpl in Hi.
  { simplify_eq. simpl. split; [constructor|lia]. }
  apply bind_Some in Hi as (it & Ei & (its' & El & E)%bind_Some). simplify_eq.
  apply Forall_cons in Hc as [Hcv Hc]. cbn [map concat] in *. rewrite length_app in *.
  destruct (IH Hc its' El ltac:(lia)) as [H1 H2]. pose proof (encode_item_nonempty it).
  split; [constructor; [apply Hv; [done|done|lia]|done]|simpl; lia].
Qed.

Lemma struct_reads fs l its fuel :
  Forall decodes l -> Forall2 canon fs l -> seq_items (zip l fs) = Some its ->
  (length (concat (map encode_item its)) + rdepth (TStruct fs) <= fuel)%nat ->
  Forall3 reads (map (decode fuel) fs) l its.
Proof.
  intros Hd Hc. revert its Hd. induction Hc as [|t v fs l Hv _ IH]; intros its Hd Hi Hf; simpl in Hi.
  { simplify_eq. constructor. }
  apply bind_Some in Hi as (it & Ei & (its' & El & E)%bind_Some). simplify_eq.
  apply Forall_cons in Hd as [Hdv Hd]. cbn [map concat] in *. rewrite length_app in *. simpl in Hf.
  constructor; [apply Hdv; [done|done|lia]|]. apply IH; [done|done|]. simpl. lia.
Qed.

Lemma length_encode_lst l : (length (concat (map encode_item l)) < length (encode_item (Lst l)))%nat.
Proof.
  cbn [encode_item]. rewrite length_app.
  pose proof (length_header_ge 0xC0 0xF7 (Z.of_nat (length (concat (map encode_item l))))). lia.
Qed.

Lemma slice_decodes t l its fuel :
  Forall decodes l -> Forall (canon t) l -> seq_items (map (fun v => (v, t)) l) = Some its ->
  (length (encode_item (Lst its)) + rdepth t <= S fuel)%nat ->
  consumes KList (concat (map encode_item its)) (decodeListSlice fuel (decode fuel t)) l.
Proof.
  intros Hd Hc Hi Hf. pose proof (length_encode_lst its). pose proof (rdepth_pos t).
  destruct (slice_reads t l its fuel Hd Hc Hi ltac:(lia)) as [H1 H2].
  apply decodeListSlice_ok; [done|lia|]. intros. apply decode_eol. lia.
Qed.

(** Looking at the kind first. *)
Lemma peek_consumes {A} k c (f : Kind * Z -> SD A) v :
  consumes k c (f (k, plen k c)) v -> consumes k c (p ← Kind_; f p) v.
Proof. intros H rest rem st s Hf Hr. run. rewrite Hr. by apply H. Qed.

Lemma peek_handle_consumes {A} k c (f : rlp_error + Kind * Z -> SD A) v :
  consumes k c (f (inr (k, plen k c))) v -> consumes k c (handle Kind_ f) v.
Proof. intros H rest rem st s Hf Hr. run. rewrite Hr. by apply H. Qed.

Lemma frame_empty k c :
  kind_ok k c -> flen k c < 2 ^ 64 -> k <> KByte -> plen k c = 0 ->
  frame k c = encode_item (if bool_decide (k = KList) then Lst [] else Str []).
Proof. intros Hk H64 Hb Hp. unfold plen in Hp. destruct k; [done| |]; destruct c; simpl in Hp |- *; done || lia. Qed.

Lemma nil_consumes k t fuel : k <> KByte -> consumes k [] (decode (S fuel) (TNilPtr t)) VNil.
Proof.
  intros Hk rest rem st s Hf Hr. cbn [decode]. unfold rearm. run. rewrite Hr.
  rewrite bool_decide_true by (by destruct k). eexists. split; [done|]. unfold peeked. run. cbn [payload app].
  assert (flen k [] = hlen k []) as -> by (unfold hlen; destruct k; done). do 3 eexists. by destruct k.
Qed.

Lemma nil_decodes t it fuel : nil_item t = Some it -> reads (decode (S fuel) (TNilPtr t)) VNil it.
Proof.
  intros Hn. assert (it = Str [] \/ it = Lst []) as [-> | ->] by (induction t; simplify_eq/=; eauto).
  - apply reads_str. intros [] Hk; [|by apply nil_consumes|done].
    intros rest rem st s Hf. pose proof (fits_kind _ _ _ _ Hf) as H. done.
  - apply reads_lst. by apply nil_consumes.
Qed.

Lemma nilptr_decodes t v it fuel :
  it <> Str [] -> it <> Lst [] -> reads (decode fuel t) v it -> reads (decode (S fuel) (TNilPtr t)) (VPtr v) it.
Proof.
  intros Hs Hl Hd k c E rest rem st s Hf Hr. cbn [decode]. run. rewrite Hr.
  rewrite bool_decide_false.
  - destruct (Hd k c E rest rem st (peeked k c rest rem st) Hf (peeked_Kind _ _ _ _ _)) as (s' & E' & Ha).
    rewrite E'. by exists s'.
  - intros [Hp Hk]. pose proof (fits_64 _ _ _ _ Hf) as H64.
    pose proof (frame_empty k c (fits_kind _ _ _ _ Hf) H64 Hk Hp) as Ee. rewrite <- E in Ee.
    apply encode_item_inj in Ee; [|rewrite E; unfold flen in H64; lia]. subst it. case_bool_decide; done.
Qed.

Lemma iface_bytes_decodes b fuel : reads (decode (S fuel) TInterface) (VIface TBytes (VBytes b)) (Str b).
Proof.
  apply reads_str. intros k Hk. cbn [decode]. apply (peek_consumes k b (fun '(kind, _) => _)).
  rewrite bool_decide_false by done. by apply (map_consumes _ _ _ (fun b => VIface TBytes (VBytes b))), Bytes_ok.
Qed.

Lemma iface_list_decodes l its fuel :
  consumes KList (concat (map encode_item its)) (decodeListSlice fuel (decode fuel TInterface)) l ->
  reads (decode (S fuel) TInterface) (VIface (TSlice TInterface) (VList l)) (Lst its).
Proof.
  intros H. apply reads_lst. cbn [decode]. apply (peek_consumes KList _ (fun '(kind, _) => _)).
  rewrite bool_decide_true by done. by apply (map_consumes _ _ _ (fun l => VIface _ (VList l))).
Qed.

Lemma decode_decodes v : decodes v /\ (forall l, v = VList l -> Forall decodes l).
Proof.
  induction v as [b|i|i|b|b|l IH|v [IH _]| |t' v [_ IH]] using rval_nested_ind; (split; [|naive_solver || idtac]).
  all: try (intros t it fuel Hc Hi Hf; pose proof (encode_item_nonempty it);
    (destruct fuel as [|fuel]; [lia|]); inversion Hc; subst; cbn [rdepth] in Hf).
  - simpl in Hi. case_bool_decide; [|done]. simplify_eq. apply reads_str. intros k Hk. by apply decodeBigInt_ok.
  - simpl in Hi. case_bool_decide; [|done]. simplify_eq. apply reads_str. intros k Hk. cbn [decode].
    by apply (map_consumes _ _ _ VUint), wrapped_consumes, uint_ok.
  - simpl in Hi. simplify_eq. apply reads_str. intros k Hk. cbn [decode].
    by apply (map_consumes _ _ _ VBool), wrapped_consumes, Bool_ok.
  - simpl in Hi. simplify_eq. apply reads_str. intros k Hk. cbn [decode].
    by apply (map_consumes _ _ _ VBytes), wrapped_consumes, Bytes_ok.
  - simpl in Hi. simplify_eq. apply reads_str. intros k Hk. cbn [decode].
    by apply (map_consumes _ _ _ VBytes), wrapped_consumes, Bytes_ok.
  - simpl in Hi. simplify_eq. apply reads_str. intros k Hk. cbn [decode]. by apply decodeByteArray_ok.
  - rewrite item_of_slice in Hi. apply bind_Some in Hi as (its & Hi & E). simplify_eq.
    apply reads_lst. cbn [decode]. apply (map_consumes _ _ _ VList).
    apply slice_decodes; [by eapply Forall_impl; [exact IH|intros ? []]|done|done|done].
  - apply item_of_struct in Hi as (_ & its & Hi & ->). pose proof (length_encode_lst its).
    apply reads_lst, decode_struct_ok, struct_reads; [by eapply Forall_impl; [exact IH|intros ? []]|done|done|].
    cbn [rdepth] in *. lia.
  - intros l' [= <-]. by eapply Forall_impl; [exact IH|intros ? []].
  - intros k c E. cbn [decode]. apply (map_consumes _ _ _ VPtr). apply (IH t0 it fuel); [done|done|lia|done].
  - apply nilptr_decodes; [naive_solver..|]. apply IH; [done|done|lia].
  - by apply nil_decodes.
  - simpl in Hi. simplify_eq. apply iface_bytes_decodes.
  - change (item_of (VList l) (TSlice TInterface) = Some it) in Hi.
    rewrite item_of_slice in Hi. apply bind_Some in Hi as (its & Hi & E). simplify_eq.
    apply iface_list_decodes, slice_decodes; [by apply IH|done|done|done].
Qed.

Lemma decode_encode t v it :
  canon t v -> item_of v t = Some it -> Z.of_nat (length (encode_item it)) < 2 ^ 64 ->
  DecodeBytes (encode_item it) t = Ok v.
Proof.
  intros Hc Hi Hlen.
  unfold DecodeBytes, DecodeBytes_fuel, NewStream.
  set (b := encode_item it) in *. destruct (encode_item_frame it) as (k & c & E & Hk & _).
  assert (Z.of_nat (length b) = flen k c) as Hfl by (unfold b, flen; by rewrite E).
  pose proof (flen_pos k c). rewrite Hfl, bool_decide_true by lia.
  destruct (proj1 (decode_decodes v) t it (length b + rdepth t + 2)%nat Hc Hi ltac:(unfold b; lia) k c E
    [] (flen k c) [] (mkStream b (flen k c) true None 0 0 None [])) as (s' & -> & sz & bv & ke & ->).
  - split; [done|lia|lia|done].
  - unfold b. rewrite E, <- (app_nil_r (frame k c)). apply fresh_ready; [done|lia|lia|done].
  - simpl. done.
Qed.

(** C27: roundtrip.  Encoding a value in canonical form ([canon]) and decoding the bytes
    at its type gives the value back, for types built from integers, booleans, strings,
    byte arrays, slices, structs, pointers, optional pointers and interfaces, whatever
    the nesting, if the encoding has less than 2^64 bytes; [DecodeBytes] terminates with
    the fuel the length of the input gives it.  Not canonical are the array of one zero
    byte (decoding a slice of such arrays does not end, [byte_array_diverges]), nil
    pointers that are not optional, nil and negative big integers, integers out of the
    range of their type, optional pointers to values that are encoded like nil, and in
    interfaces anything but byte slices and slices of interfaces. *)
Theorem decode_roundtrip t v it :
  canon t v -> item_of v t = Some it -> Z.of_nat (length (encode_item it)) < 2 ^ 64 ->
  exists b, EncodeToBytes t v = Ok b /\ DecodeBytes b t = Ok v.
Proof.
  intros Hc Hi Hlen. exists (encode_item it). split; [by apply encode_ok|by apply decode_encode].
Qed.

Lemma decode_roundtrip_witness :
  let t := TStruct [TUint (8 * Z.of_nat 8); TSlice TBigInt; TNilPtr (TByteArray 2); TInterface] in
  let v := VList [VUint 1024; VList [VBigInt (Some 0); VBigInt (Some (2 ^ 100))]; VNil;
                  VIface (TSlice TInterface) (VList [VIface TBytes (VBytes [7])])] in
  exists b, EncodeToBytes t v = Ok b /\ DecodeBytes b t = Ok v.
Proof.
  intros t v. eapply (decode_roundtrip t v).
  - repeat (apply canon_struct || apply Forall2_cons_2 || apply Forall2_nil_2).
    + apply canon_uint; lia.
    + apply canon_slice. repeat constructor; lia.
    + by eapply canon_nil.
    + apply canon_iface_list. repeat constructor; unfold is_byte; lia.
  - reflexivity.
  - vm_compute. reflexivity.
Defined.

(** ** The array of one zero byte *)

(** Decoding a zero byte into a [1]byte leaves the stream where it was. *)
Lemma byte_array_stuck r rem st :
  decodeByteArray 1 (mkStream r rem true (Some KByte) 0 0 None st) =
  Ok (mkStream r rem true (Some KByte) 0 0 None st, inr (VBytes [0])).
Proof. done. Qed.

Lemma byte_array_elems_stuck n fuel r rem st :
  decodeSliceElems n (decode fuel (TByteArray 1)) (mkStream r rem true (Some KByte) 0 0 None st) = OutOfFuel.
Proof.
  destruct fuel as [|fuel]; [by destruct n|]. induction n as [|n IH]; [done|].
  cbn [decodeSliceElems]. unfold handle. cbn [decode] in *. rewrite byte_array_stuck. run. by rewrite IH.
Qed.

(** A defect.  Decoding the two bytes C1 00 as a slice of
    one-byte arrays never returns: no amount of fuel is enough, since the error
    of [s.Uint()] for the zero byte is dropped and its header is never consumed. *)
Theorem byte_array_diverges fuel : DecodeBytes_fuel fuel [0xc1; 0x00] (TSlice (TByteArray 1)) = OutOfFuel.
Proof.
  unfold DecodeBytes_fuel. destruct fuel as [|fuel]; [done|]. cbn [decode].
  unfold decodeListSlice. run. change (wrapped List (NewStream [0xc1; 0x00] (Z.of_nat (length [0xc1; 0x00]))))
    with (Ok (E := Empty_set) (mkStream [0x00] 1 true None 0 0 None [(0, 1)], inr (A := rlp_error) 1)).
  cbv beta iota. rewrite bool_decide_false by done. destruct fuel as [|fuel]; [done|].
  cbn [decodeSliceElems]. unfold handle. cbn [decode].
  change (decodeByteArray 1 (mkStream [0x00] 1 true None 0 0 None [(0, 1)]))
    with (Ok (E := Empty_set) (mkStream [] 0 true (Some KByte) 0 0 None [(1, 1)], inr (A := rlp_error) (VBytes [0]))).
  run. pose proof (byte_array_elems_stuck fuel (S fuel) [] 0 [(1, 1)]) as H. cbn [decode] in H. by rewrite H.
Qed.
