(* ===== verification/DposContext.v ===== *)
(** * The DPoS context ([src/core/types/dpos_context.go])

    Five tries hold the state of the election: candidates, votes (delegator to
    candidate), delegations (candidate followed by delegator), the validators of
    the epoch and the blocks minted per validator.  A method is a computation in
    [SM DposContext dpos_error]; a failing trie operation leaves its trie as it
    was.  [Commit] needs the write side of the node database and is not modelled;
    [FromProto], which has no caller, is not either.

    The abstract state is one finite map per trie ([dpos_maps]); [dpos_refines]
    shows that registration, delegation and its withdrawal compute exactly the
    map operations [map_dpos], [ballot_invariant] that they keep votes and
    delegations consistent.  [kickout_complete] shows what removing a candidate
    does to a delegation trie without a prefix, [kickout_prefixed] what it does
    to the one [NewDelegateTrie] opens. *)

From Stdlib Require Ascii String.
From S2P Require Import Prelude Common TrieEncoding Trie TrieSpec TrieMap.
From S2P Require Import TrieCanon Rlp Sha3 TrieHash TrieMerkle TrieIter.
From S2P Require Import TrieIterSpec RlpRaw TrieBinding RlpStream.

(** The database field is only nil or not: [Copy] leaves it nil. *)
Record DposContext := mkDposContext {
  epochTrie : Trie;
  delegateTrie : Trie;
  voteTrie : Trie;
  candidateTrie : Trie;
  mintCntTrie : Trie;
  has_db : bool
}.

Inductive dpos_error : Type :=
  | ETrie (e : trie_error)
  | EInvalidDelegate
  | EInvalidUndelegate
  | EMismatch
  | EDecodeValidators (e : rlp_error)
  | EEncodeValidators (e : rlp_error)
  | EMsg (s : string)
  | EWrap (s : string) (e : dpos_error).

(** The ASCII codes of a string constant. *)
Definition ascii_bytes (s : string) : list Z := map (fun c => Z.of_nat (Ascii.nat_of_ascii c)) (String.list_ascii_of_string s).

Definition epochPrefix : list Z := ascii_bytes "epoch-".
Definition delegatePrefix : list Z := ascii_bytes "delegate-".
Definition votePrefix : list Z := ascii_bytes "vote-".
Definition candidatePrefix : list Z := ascii_bytes "candidate-".
Definition mintCntPrefix : list Z := ascii_bytes "mintCnt-".

(** [DposContextProto] *)
Record DposContextProto := mkProto {
  EpochHash : list Z;
  DelegateHash : list Z;
  CandidateHash : list Z;
  VoteHash : list Z;
  MintCntHash : list Z
}.

Definition set_epochTrie (t : Trie) (d : DposContext) : DposContext :=
  mkDposContext t (delegateTrie d) (voteTrie d) (candidateTrie d) (mintCntTrie d) (has_db d).
Definition set_delegateTrie (t : Trie) (d : DposContext) : DposContext :=
  mkDposContext (epochTrie d) t (voteTrie d) (candidateTrie d) (mintCntTrie d) (has_db d).
Definition set_voteTrie (t : Trie) (d : DposContext) : DposContext :=
  mkDposContext (epochTrie d) (delegateTrie d) t (candidateTrie d) (mintCntTrie d) (has_db d).
Definition set_candidateTrie (t : Trie) (d : DposContext) : DposContext :=
  mkDposContext (epochTrie d) (delegateTrie d) (voteTrie d) t (mintCntTrie d) (has_db d).
Definition set_mintCntTrie (t : Trie) (d : DposContext) : DposContext :=
  mkDposContext (epochTrie d) (delegateTrie d) (voteTrie d) (candidateTrie d) t (has_db d).

(** The fields, with the setter that goes with each. *)
Inductive field := FEpoch | FDelegate | FVote | FCandidate | FMintCnt.

Definition get_trie (f : field) (d : DposContext) : Trie :=
  match f with
  | FEpoch => epochTrie d
  | FDelegate => delegateTrie d
  | FVote => voteTrie d
  | FCandidate => candidateTrie d
  | FMintCnt => mintCntTrie d
  end.

Definition set_trie (f : field) (t : Trie) (d : DposContext) : DposContext :=
  match f with
  | FEpoch => set_epochTrie t d
  | FDelegate => set_delegateTrie t d
  | FVote => set_voteTrie t d
  | FCandidate => set_candidateTrie t d
  | FMintCnt => set_mintCntTrie t d
  end.

Definition with_tries (d s : DposContext) (db : bool) : DposContext :=
  mkDposContext (epochTrie s) (delegateTrie s) (voteTrie s) (candidateTrie s) (mintCntTrie s) db.

(** [DposContext.Copy] and [Snapshot]: the copy has no database.  Nodes are never
    changed in place, so a copied trie is a value. *)
Definition Copy (d : DposContext) : DposContext := with_tries d d false.
Definition Snapshot (d : DposContext) : DposContext := Copy d.

(** [DposContext.RevertToSnapShot] *)
Definition RevertToSnapShot (snapshot d : DposContext) : DposContext := with_tries d snapshot (has_db d).

Abbreviation DM := (SM DposContext dpos_error).

(** A trie method on one of the tries. *)
Definition on_trie {A} (f : field) (op : Trie -> outcome trie_error (A * Trie)) : DM A := fun d =>
  match op (get_trie f d) with
  | Ok (a, t) => Ok (set_trie f t d, inr a)
  | Err e => Ok (d, inl (ETrie e))
  | Panic => Panic
  | OutOfFuel => OutOfFuel
  end.

Definition on_trie_ {A} (f : field) (op : Trie -> outcome trie_error Trie) (a : A) : DM A :=
  on_trie f (fun t => t ← op t; Ok (a, t)).

(** [if err != nil { if _, ok := err.( *trie.MissingNodeError); !ok { return err } }]: go
    on with [dflt] after a missing node. *)
Definition ignore_missing {A} (dflt : A) (m : DM A) : DM A :=
  handle m (fun r =>
    match r with
    | inr a => mret a
    | inl (ETrie (MissingNodeError _ _)) => mret dflt
    | inl e => throw e
    end).

Section dpos_context.
Context `{Keccak} (dbnode : list Z -> Z -> option node).

(** ** Construction *)

(** [NewEpochTrie] and its siblings; [trie.New] panics without a database. *)
Definition open_trie (db : bool) (pfx root : list Z) : outcome trie_error Trie :=
  if db then NewTrieWithPrefix dbnode root pfx else Panic.

Definition NewEpochTrie (db : bool) (root : list Z) := open_trie db epochPrefix root.
Definition NewDelegateTrie (db : bool) (root : list Z) := open_trie db delegatePrefix root.
Definition NewVoteTrie (db : bool) (root : list Z) := open_trie db votePrefix root.
Definition NewCandidateTrie (db : bool) (root : list Z) := open_trie db candidatePrefix root.
Definition NewMintCntTrie (db : bool) (root : list Z) := open_trie db mintCntPrefix root.

(** [NewDposContextFromProto] *)
Definition NewDposContextFromProto (p : DposContextProto) : outcome trie_error DposContext :=
  epoch ← NewEpochTrie true (EpochHash p);
  delegate ← NewDelegateTrie true (DelegateHash p);
  vote ← NewVoteTrie true (VoteHash p);
  candidate ← NewCandidateTrie true (CandidateHash p);
  mintCnt ← NewMintCntTrie true (MintCntHash p);
  Ok (mkDposContext epoch delegate vote candidate mintCnt true).

(** [NewDposContext] *)
Definition NewDposContext : outcome trie_error DposContext :=
  epoch ← NewEpochTrie true emptyHash;
  delegate ← NewDelegateTrie true emptyHash;
  vote ← NewVoteTrie true emptyHash;
  candidate ← NewCandidateTrie true emptyHash;
  mintCnt ← NewMintCntTrie true emptyHash;
  Ok (mkDposContext epoch delegate vote candidate mintCnt true).

(** ** Roots *)

(** The hash of the RLP encodings of the five roots. *)
Definition hash_roots (hs : list (list Z)) : list Z :=
  keccak256 (concat (map (fun h => match Encode (TByteArray HashLength) (VBytes h) with Ok b => b | _ => [] end) hs)).

(** [DposContextProto.Root] *)
Definition Proto_Root (p : DposContextProto) : list Z :=
  hash_roots [EpochHash p; DelegateHash p; CandidateHash p; VoteHash p; MintCntHash p].

(** [DposContext.Root]; hashing fills the caches of the tries. *)
Definition Root : DM (list Z) :=
  e ← on_trie FEpoch Hash;
  d ← on_trie FDelegate Hash;
  c ← on_trie FCandidate Hash;
  v ← on_trie FVote Hash;
  m ← on_trie FMintCnt Hash;
  mret (hash_roots [e; d; c; v; m]).

(** [DposContext.ToProto] *)
Definition ToProto : DM DposContextProto :=
  e ← on_trie FEpoch Hash;
  d ← on_trie FDelegate Hash;
  c ← on_trie FCandidate Hash;
  v ← on_trie FVote Hash;
  m ← on_trie FMintCnt Hash;
  mret (mkProto e d c v m).

(** ** Candidates and votes *)

Definition try_get f (k : list Z) : DM (option (list Z)) := on_trie f (fun t => TryGet dbnode t k).
Definition try_update f (k v : list Z) : DM unit := on_trie_ f (fun t => TryUpdate dbnode t k v) tt.
Definition try_delete f (k : list Z) : DM unit := on_trie_ f (fun t => TryDelete dbnode t k) tt.

(** [DposContext.BecomeCandidate] *)
Definition BecomeCandidate (candidate : list Z) : DM unit := try_update FCandidate candidate candidate.

(** [DposContext.Delegate] *)
Definition Delegate (delegator candidate : list Z) : DM unit :=
  candidateInTrie ← try_get FCandidate candidate;
  if bool_decide (candidateInTrie = None) then throw EInvalidDelegate
  else
    oldCandidate ← ignore_missing None (try_get FVote delegator);
    match oldCandidate with
    | Some old => on_trie_ FDelegate (fun t => Delete dbnode t (old ++ delegator)) tt
    | None => mret tt
    end ;;
    try_update FDelegate (candidate ++ delegator) delegator ;;
    try_update FVote delegator candidate.

(** [DposContext.UnDelegate] *)
Definition UnDelegate (delegator candidate : list Z) : DM unit :=
  candidateInTrie ← try_get FCandidate candidate;
  if bool_decide (candidateInTrie = None) then throw EInvalidUndelegate
  else
    oldCandidate ← try_get FVote delegator;
    if negb (bool_decide (candidate = default [] oldCandidate)) then throw EMismatch
    else
      try_delete FDelegate (candidate ++ delegator) ;;
      try_delete FVote delegator.

(** [for iter.Next() { body }] over the local variables [acc], where the body may
    return an error; the iterator itself ends the loop when it fails, it reports
    nothing. *)
Definition for_fold {S E A} (lift : trie_error -> E) (fuel : nat) (ni : NodeIterator)
  (body : list Z -> list Z -> A -> SM S E A) (acc : A) : SM S E A := fun s =>
  match for_iter dbnode (fun e => (s, lift e)) fuel ni
          (fun k v '(s, acc) =>
             match body k v acc s with
             | Ok (s, inr acc) => Ok (s, acc)
             | Ok (s, inl e) => Err (s, e)
             | Err e => match e with end
             | Panic => Panic
             | OutOfFuel => OutOfFuel
             end) (s, acc) with
  | Ok ((s, acc), _) => Ok (s, inr acc)
  | Err (s, e) => Ok (s, inl e)
  | Panic => Panic
  | OutOfFuel => OutOfFuel
  end.

(** The body of the loop in [KickoutCandidate]. *)
Definition kickout_body (candidate delegator : list Z) : DM unit :=
  ignore_missing tt (try_delete FDelegate (candidate ++ delegator)) ;;
  v ← ignore_missing None (v ← try_get FVote delegator; mret (Some (default [] v)));
  if bool_decide (v = Some candidate) then ignore_missing tt (try_delete FVote delegator) else mret tt.

(** [DposContext.KickoutCandidate] *)
Definition KickoutCandidate (fuel : nat) (candidate : list Z) : DM unit :=
  ignore_missing tt (try_delete FCandidate candidate) ;;
  iter ← on_trie FDelegate (fun t => PrefixIterator dbnode fuel t candidate);
  for_fold ETrie fuel iter (fun _ delegator _ => kickout_body candidate delegator) tt.

(** ** Validators *)

Definition validator_key : list Z := ascii_bytes "validator".
Definition addresses : rtype := TSlice (TByteArray AddressLength).

(** [DposContext.GetValidators] *)
Definition GetValidators : DM (list (list Z)) :=
  validatorsRLP ← on_trie FEpoch (fun t => Get dbnode t validator_key);
  match DecodeBytes (default [] validatorsRLP) addresses with
  | Ok (VList l) => mret (map (fun v => match v with VBytes a => a | _ => [] end) l)
  | Ok _ => mret []
  | Err e => throw (EDecodeValidators e)
  | Panic => panic
  | OutOfFuel => fun _ => OutOfFuel
  end.

(** [DposContext.SetValidators] *)
Definition SetValidators (validators : list (list Z)) : DM unit :=
  match EncodeToBytes addresses (VList (map VBytes validators)) with
  | Ok b => on_trie_ FEpoch (fun t => Update dbnode t validator_key b) tt
  | Err e => throw (EEncodeValidators e)
  | Panic => panic
  | OutOfFuel => fun _ => OutOfFuel
  end.
End dpos_context.

(** ** The abstract state *)

Abbreviation bmap := (gmap (list Z) (list Z)).

Record dpos_maps := mkMaps {
  mEpoch : bmap;
  mDelegate : bmap;
  mVote : bmap;
  mCandidate : bmap;
  mMintCnt : bmap
}.

Definition get_map (f : field) (a : dpos_maps) : bmap :=
  match f with
  | FEpoch => mEpoch a | FDelegate => mDelegate a | FVote => mVote a
  | FCandidate => mCandidate a | FMintCnt => mMintCnt a
  end.

Definition set_map (f : field) (m : bmap) (a : dpos_maps) : dpos_maps :=
  match f with
  | FEpoch => mkMaps m (mDelegate a) (mVote a) (mCandidate a) (mMintCnt a)
  | FDelegate => mkMaps (mEpoch a) m (mVote a) (mCandidate a) (mMintCnt a)
  | FVote => mkMaps (mEpoch a) (mDelegate a) m (mCandidate a) (mMintCnt a)
  | FCandidate => mkMaps (mEpoch a) (mDelegate a) (mVote a) m (mMintCnt a)
  | FMintCnt => mkMaps (mEpoch a) (mDelegate a) (mVote a) (mCandidate a) m
  end.

#[global] Instance field_dec : EqDecision field.
Proof. solve_decision. Defined.

Lemma get_set_map f f' m a : get_map f (set_map f' m a) = if bool_decide (f = f') then m else get_map f a.
Proof. by destruct f, f'. Qed.

Lemma get_set_trie f f' t d : get_trie f (set_trie f' t d) = if bool_decide (f = f') then t else get_trie f d.
Proof. by destruct f, f'. Qed.

Lemma set_get_map f a : set_map f (get_map f a) a = a.
Proof. by destruct f, a. Qed.

(** What no operation changes: the database, the prefixes, the cache
    generations. *)
Definition framed (d d' : DposContext) : Prop :=
  has_db d' = has_db d /\
  forall f, tprefix (get_trie f d') = tprefix (get_trie f d) /\ cachegen (get_trie f d') = cachegen (get_trie f d).

Lemma framed_refl d : framed d d.
Proof. done. Qed.

Lemma framed_trans d1 d2 d3 : framed d1 d2 -> framed d2 d3 -> framed d1 d3.
Proof.
  intros [H1 F1] [H2 F2]. split; [congruence|]. intros f. destruct (F1 f), (F2 f). split; congruence.
Qed.

Lemma framed_set f t d :
  tprefix t = tprefix (get_trie f d) -> cachegen t = cachegen (get_trie f d) -> framed d (set_trie f t d).
Proof.
  intros Hp Hg. split; [by destruct f|]. intros f'. rewrite get_set_trie. case_bool_decide; by subst.
Qed.

Section refinement.
Context `{Keccak} (dbnode : list Z -> Z -> option node) (Hdb : db_coherent dbnode).

(** Every trie of the context holds the corresponding map. *)
Definition rep (d : DposContext) (a : dpos_maps) : Prop := forall f, sound dbnode (get_trie f d) (get_map f a).

Lemma rep_set f t m d a : rep d a -> sound dbnode t m -> rep (set_trie f t d) (set_map f m a).
Proof. intros Hr Hs f'. rewrite get_set_trie, get_set_map. by case_bool_decide. Qed.

Lemma trie_step_frame t o r t' :
  trie_step dbnode t o = Ok (r, t') -> tprefix t' = tprefix t /\ cachegen t' = cachegen t.
Proof.
  destruct o as [k|k v|k]; simpl; intros E.
  - unfold TryGet in E. apply bind_ok_inv in E as ([[? ?] []] & _ & E); by simplify_eq.
  - apply bind_ok_inv in E as (t1 & E1 & E). simplify_eq. unfold TryUpdate in E1.
    destruct v; apply bind_ok_inv in E1 as ([? ?] & _ & E1); by simplify_eq.
  - apply bind_ok_inv in E as (t1 & E1 & E). simplify_eq. unfold TryDelete in E1.
    apply bind_ok_inv in E1 as ([? ?] & _ & E1); by simplify_eq.
Qed.

(** One trie operation inside the context. *)
Lemma on_trie_step f o d a :
  rep d a -> bytes_ok (op_key o) ->
  exists d', on_trie f (fun t => trie_step dbnode t o) d = Ok (d', inr (map_step (get_map f a) o).1) /\
    rep d' (set_map f (map_step (get_map f a) o).2 a) /\ framed d d'.
Proof.
  intros Hr Hk. destruct (trie_step_sound dbnode Hdb _ _ o (Hr f) Hk) as (t' & E & Hs).
  pose proof (trie_step_frame _ _ _ _ E) as [Hp Hg].
  exists (set_trie f t' d). unfold on_trie. rewrite E. split; [done|].
  split; [by apply rep_set|by apply framed_set].
Qed.

Lemma try_get_ok f k d a :
  rep d a -> bytes_ok k ->
  exists d', try_get dbnode f k d = Ok (d', inr (get_map f a !! k)) /\ rep d' a /\ framed d d'.
Proof.
  intros Hr Hk. destruct (on_trie_step f (OpGet k) d a Hr Hk) as (d' & E & Hr' & Hf).
  cbn [map_step fst snd] in *. rewrite set_get_map in Hr'. eauto.
Qed.

Lemma on_trie__step {A} f (op : Trie -> outcome trie_error Trie) o (x : A) d a :
  (forall t, trie_step dbnode t o = (t' ← op t; Ok (None, t'))) ->
  rep d a -> bytes_ok (op_key o) ->
  exists d', on_trie_ f op x d = Ok (d', inr x) /\ rep d' (set_map f (map_step (get_map f a) o).2 a) /\ framed d d'.
Proof.
  intros Ho Hr Hk. destruct (on_trie_step f o d a Hr Hk) as (d' & E & Hr' & Hf). exists d'. split; [|done].
  revert E. unfold on_trie_, on_trie. rewrite Ho. destruct (op (get_trie f d)); simpl; intros E; by simplify_eq.
Qed.

Lemma try_update_ok f k v d a :
  rep d a -> bytes_ok k ->
  exists d', try_update dbnode f k v d = Ok (d', inr tt) /\
    rep d' (set_map f (put k v (get_map f a)) a) /\ framed d d'.
Proof. intros Hr Hk. by apply (on_trie__step f _ (OpUpdate k v)). Qed.

Lemma try_delete_ok f k d a :
  rep d a -> bytes_ok k ->
  exists d', try_delete dbnode f k d = Ok (d', inr tt) /\
    rep d' (set_map f (delete k (get_map f a)) a) /\ framed d d'.
Proof. intros Hr Hk. by apply (on_trie__step f _ (OpDelete k)). Qed.

Lemma delete_ok f k d a :
  rep d a -> bytes_ok k ->
  exists d', on_trie_ f (fun t => Delete dbnode t k) tt d = Ok (d', inr tt) /\
    rep d' (set_map f (delete k (get_map f a)) a) /\ framed d d'.
Proof.
  intros Hr Hk. destruct (try_delete_ok f k d a Hr Hk) as (d' & E & Hrest). exists d'. split; [|done].
  revert E. unfold try_delete, on_trie_, on_trie, Delete.
  destruct (TryDelete dbnode (get_trie f d) k); simpl; intros E; by simplify_eq.
Qed.

Lemma ignore_missing_ok {A} (x y : A) (m : DM A) d d' :
  m d = Ok (d', inr y) -> ignore_missing x m d = Ok (d', inr y).
Proof. intros E. unfold ignore_missing. by rewrite (handle_run _ _ _ _ _ E). Qed.

(** ** Operations on the maps *)

Inductive dpos_op : Type :=
  | OpBecome (candidate : list Z)
  | OpDelegate (delegator candidate : list Z)
  | OpUnDelegate (delegator candidate : list Z).

Definition dpos_op_ok (o : dpos_op) : Prop :=
  match o with
  | OpBecome c => address_ok c
  | OpDelegate d c | OpUnDelegate d c => address_ok d /\ address_ok c
  end.

Definition dpos_step (o : dpos_op) : DM unit :=
  match o with
  | OpBecome c => BecomeCandidate dbnode c
  | OpDelegate d c => Delegate dbnode d c
  | OpUnDelegate d c => UnDelegate dbnode d c
  end.

(** The same on the maps. *)
Definition map_dpos (o : dpos_op) (a : dpos_maps) : dpos_maps * (dpos_error + unit) :=
  match o with
  | OpBecome c => (set_map FCandidate (<[c := c]> (mCandidate a)) a, inr tt)
  | OpDelegate d c =>
      match mCandidate a !! c with
      | None => (a, inl EInvalidDelegate)
      | Some _ =>
          let dels := match mVote a !! d with Some old => delete (old ++ d) (mDelegate a) | None => mDelegate a end in
          (mkMaps (mEpoch a) (<[c ++ d := d]> dels) (<[d := c]> (mVote a)) (mCandidate a) (mMintCnt a), inr tt)
      end
  | OpUnDelegate d c =>
      match mCandidate a !! c with
      | None => (a, inl EInvalidUndelegate)
      | Some _ =>
          if bool_decide (mVote a !! d = Some c) then
            (mkMaps (mEpoch a) (delete (c ++ d) (mDelegate a)) (delete d (mVote a)) (mCandidate a) (mMintCnt a), inr tt)
          else (a, inl EMismatch)
      end
  end.

Lemma address_nonempty a : address_ok a -> a <> [].
Proof. intros [Hl _] ->. done. Qed.

Lemma put_nonempty (k v : list Z) (m : bmap) : v <> [] -> put k v m = <[k := v]> m.
Proof. by destruct v. Qed.

Lemma BecomeCandidate_ok c d a :
  rep d a -> address_ok c ->
  exists d', BecomeCandidate dbnode c d = Ok (d', inr tt) /\
    rep d' (set_map FCandidate (<[c := c]> (mCandidate a)) a) /\ framed d d'.
Proof.
  intros Hr Hc. destruct (try_update_ok FCandidate c c d a Hr (proj2 Hc)) as (d' & E & Hr' & Hf).
  rewrite put_nonempty in Hr' by by apply address_nonempty. eauto.
Qed.

(** The vote a delegator replaces is taken out of the delegations. *)
Lemma drop_old_ok dl (old : option (list Z)) d a :
  rep d a -> bytes_ok dl -> (forall c, old = Some c -> bytes_ok c) ->
  exists d', match old with
             | Some old => on_trie_ FDelegate (fun t => Delete dbnode t (old ++ dl)) tt
             | None => mret tt
             end d = Ok (d', inr tt) /\
    rep d' (set_map FDelegate (match old with Some old => delete (old ++ dl) (mDelegate a) | None => mDelegate a end) a) /\
    framed d d'.
Proof.
  intros Hr Hd Ho. destruct old as [old|].
  - apply (delete_ok FDelegate); [done|]. apply bytes_ok_app. auto.
  - exists d. split_and!; [done|by rewrite (set_get_map FDelegate)|apply framed_refl].
Qed.

Lemma Delegate_ok dl c d a :
  rep d a -> address_ok dl -> address_ok c -> (forall v, mVote a !! dl = Some v -> bytes_ok v) ->
  exists d', Delegate dbnode dl c d = Ok (d', (map_dpos (OpDelegate dl c) a).2) /\
    rep d' (map_dpos (OpDelegate dl c) a).1 /\ framed d d'.
Proof.
  intros Hr [Hl Hdl] Hc Hv. pose proof (proj2 Hc) as Hcb. unfold Delegate, map_dpos.
  destruct (try_get_ok FCandidate c d a Hr Hcb) as (d1 & E1 & R1 & F1).
  rewrite (sm_bind_ok _ _ _ _ _ E1). cbn [get_map]. destruct (mCandidate a !! c) as [x|].
  2:{ rewrite bool_decide_true by done. by exists d1. }
  rewrite bool_decide_false by done.
  destruct (try_get_ok FVote dl d1 a R1 Hdl) as (d2 & E2 & R2 & F2).
  rewrite (sm_bind_ok _ _ _ _ _ (ignore_missing_ok _ _ _ _ _ E2)). cbn [get_map].
  destruct (drop_old_ok dl (mVote a !! dl) d2 a R2 Hdl Hv) as (d3 & E3 & R3 & F3).
  rewrite (sm_bind_ok _ _ _ _ _ E3).
  destruct (try_update_ok FDelegate (c ++ dl) dl d3 _ R3) as (d4 & E4 & R4 & F4); [by apply bytes_ok_app|].
  rewrite (sm_bind_ok _ _ _ _ _ E4).
  destruct (try_update_ok FVote dl c d4 _ R4 Hdl) as (d5 & E5 & R5 & F5).
  exists d5. split; [done|]. split; [|eauto using framed_trans].
  rewrite !put_nonempty in R5 by (apply address_nonempty; done). done.
Qed.

Lemma UnDelegate_ok dl c d a :
  rep d a -> address_ok dl -> address_ok c ->
  exists d', UnDelegate dbnode dl c d = Ok (d', (map_dpos (OpUnDelegate dl c) a).2) /\
    rep d' (map_dpos (OpUnDelegate dl c) a).1 /\ framed d d'.
Proof.
  intros Hr [Hl Hdl] Hc. pose proof (proj2 Hc) as Hcb. unfold UnDelegate, map_dpos.
  destruct (try_get_ok FCandidate c d a Hr Hcb) as (d1 & E1 & R1 & F1).
  rewrite (sm_bind_ok _ _ _ _ _ E1). cbn [get_map]. destruct (mCandidate a !! c) as [x|].
  2:{ rewrite bool_decide_true by done. by exists d1. }
  rewrite bool_decide_false by done.
  destruct (try_get_ok FVote dl d1 a R1 Hdl) as (d2 & E2 & R2 & F2).
  rewrite (sm_bind_ok _ _ _ _ _ E2). cbn [get_map].
  assert (bool_decide (c = default [] (mVote a !! dl)) = bool_decide (mVote a !! dl = Some c)) as ->.
  { apply bool_decide_ext. pose proof (address_nonempty c Hc). destruct (mVote a !! dl); simpl; naive_solver. }
  case_bool_decide; cbn [negb]; [|exists d2; split; [done|eauto using framed_trans]].
  destruct (try_delete_ok FDelegate (c ++ dl) d2 a R2) as (d3 & E3 & R3 & F3); [by apply bytes_ok_app|].
  rewrite (sm_bind_ok _ _ _ _ _ E3).
  destruct (try_delete_ok FVote dl d3 _ R3 Hdl) as (d4 & E4 & R4 & F4).
  exists d4. split; [done|]. eauto using framed_trans.
Qed.

(** ** Votes and delegations agree *)

(** Candidates are stored under their own address, every vote is for a
    candidate, and the delegations are exactly the votes. *)
Record ballot (a : dpos_maps) : Prop := {
  ballot_candidate k v : mCandidate a !! k = Some v -> v = k /\ address_ok k;
  ballot_vote d c : mVote a !! d = Some c -> address_ok d /\ mCandidate a !! c = Some c;
  ballot_delegate k v : mDelegate a !! k = Some v <-> exists c, k = c ++ v /\ mVote a !! v = Some c
}.

Lemma ballot_vote_ok a d c : ballot a -> mVote a !! d = Some c -> address_ok d /\ address_ok c.
Proof.
  intros Hb Hv. destruct (ballot_vote a Hb _ _ Hv) as [Hd Hc]. by apply (ballot_candidate a Hb) in Hc as [_ ?].
Qed.

Lemma delegation_inj (c d c' d' : list Z) :
  address_ok c -> address_ok c' -> c ++ d = c' ++ d' -> c = c' /\ d = d'.
Proof. intros [L _] [L' _] E. apply app_inj_1 in E; [done|congruence]. Qed.

Lemma ballot_become c a :
  ballot a -> address_ok c -> ballot (set_map FCandidate (<[c := c]> (mCandidate a)) a).
Proof.
  intros Hb Hc. split; simpl.
  - intros k v [[<- <-]|[_ Hk]]%lookup_insert_Some; [done|]. by apply (ballot_candidate a Hb).
  - intros d x Hv. destruct (ballot_vote a Hb _ _ Hv) as [Hd Hx]. split; [done|].
    destruct (decide (x = c)) as [->|]; [by rewrite lookup_insert_eq|by rewrite lookup_insert_ne].
  - apply (ballot_delegate a Hb).
Qed.

Lemma ballot_delegate_op dl c a :
  ballot a -> address_ok dl -> address_ok c -> mCandidate a !! c = Some c ->
  ballot (mkMaps (mEpoch a)
    (<[c ++ dl := dl]> (match mVote a !! dl with Some old => delete (old ++ dl) (mDelegate a) | None => mDelegate a end))
    (<[dl := c]> (mVote a)) (mCandidate a) (mMintCnt a)).
Proof.
  intros Hb Hd Hc Hcand. split; simpl.
  - apply (ballot_candidate a Hb).
  - intros d x [[<- <-]|[_ Hk]]%lookup_insert_Some; [done|]. by apply (ballot_vote a Hb).
  - intros k v. split.
    + intros [[<- <-]|[Hne Hk]]%lookup_insert_Some; [exists c; by rewrite lookup_insert_eq|].
      assert (mDelegate a !! k = Some v /\ (forall old, mVote a !! dl = Some old -> old ++ dl <> k)) as [Hk' Hold].
      { destruct (mVote a !! dl); [|naive_solver]. apply lookup_delete_Some in Hk as [? ?]. naive_solver. }
      apply (ballot_delegate a Hb) in Hk' as (x & -> & Hv). exists x. split; [done|].
      rewrite lookup_insert_ne; [done|]. intros ->. by apply (Hold x).
    + intros (x & -> & [[<- <-]|[Hne Hv]]%lookup_insert_Some); [by rewrite lookup_insert_eq|].
      assert (mDelegate a !! (x ++ v) = Some v) as Hk by (apply (ballot_delegate a Hb); eauto).
      destruct (ballot_vote_ok _ _ _ Hb Hv) as [_ Hx].
      rewrite lookup_insert_ne by (intros E; by apply delegation_inj in E as [_ ?]).
      destruct (mVote a !! dl) as [old|] eqn:Eo; [|done]. destruct (ballot_vote_ok _ _ _ Hb Eo) as [_ Ho].
      rewrite lookup_delete_ne by (intros E; by apply delegation_inj in E as [_ ?]). done.
Qed.

Lemma ballot_undelegate_op dl c a :
  ballot a -> mVote a !! dl = Some c ->
  ballot (mkMaps (mEpoch a) (delete (c ++ dl) (mDelegate a)) (delete dl (mVote a)) (mCandidate a) (mMintCnt a)).
Proof.
  intros Hb Hvote. destruct (ballot_vote_ok _ _ _ Hb Hvote) as [_ Hc]. split; simpl.
  - apply (ballot_candidate a Hb).
  - intros d x [_ Hk]%lookup_delete_Some. by apply (ballot_vote a Hb).
  - intros k v. rewrite lookup_delete_Some, (ballot_delegate a Hb). split.
    + intros (Hne & x & -> & Hv). exists x. rewrite lookup_delete_ne by congruence. done.
    + intros (x & -> & [Hne Hv]%lookup_delete_Some). destruct (ballot_vote_ok _ _ _ Hb Hv) as [_ Hx].
      split; [intros E; by apply delegation_inj in E as [_ ?]|eauto].
Qed.

Lemma ballot_step o a : ballot a -> dpos_op_ok o -> ballot (map_dpos o a).1.
Proof.
  intros Hb Ho. destruct o as [c|dl c|dl c]; simpl in *.
  - by apply ballot_become.
  - destruct (mCandidate a !! c) as [x|] eqn:Ec; [|done]. destruct (ballot_candidate a Hb _ _ Ec) as [-> _].
    destruct Ho. by apply ballot_delegate_op.
  - destruct (mCandidate a !! c) as [x|] eqn:Ec; [|done]. case_bool_decide; [|done]. by apply ballot_undelegate_op.
Qed.

(** ** Sequences of operations *)

Fixpoint dpos_run (os : list dpos_op) : DM (list (dpos_error + unit)) :=
  match os with
  | [] => mret []
  | o :: os => handle (dpos_step o) (fun r => rs ← dpos_run os; mret (r :: rs))
  end.

Fixpoint map_dpos_run (os : list dpos_op) (a : dpos_maps) : dpos_maps * list (dpos_error + unit) :=
  match os with
  | [] => (a, [])
  | o :: os => let '(a, r) := map_dpos o a in let '(a, rs) := map_dpos_run os a in (a, r :: rs)
  end.

Lemma dpos_step_ok o d a :
  rep d a -> ballot a -> dpos_op_ok o ->
  exists d', dpos_step o d = Ok (d', (map_dpos o a).2) /\ rep d' (map_dpos o a).1 /\ framed d d'.
Proof.
  intros Hr Hb Ho. destruct o as [c|dl c|dl c]; cbn [dpos_step].
  - by apply BecomeCandidate_ok.
  - destruct Ho. apply Delegate_ok; [done..|]. intros v Hv. by destruct (ballot_vote_ok _ _ _ Hb Hv) as [_ [_ ?]].
  - destruct Ho. by apply UnDelegate_ok.
Qed.

Lemma dpos_run_ok os : forall d a,
  rep d a -> ballot a -> Forall dpos_op_ok os ->
  exists d', dpos_run os d = Ok (d', inr (map_dpos_run os a).2) /\ rep d' (map_dpos_run os a).1 /\
    ballot (map_dpos_run os a).1 /\ framed d d'.
Proof.
  induction os as [|o os IH]; intros d a Hr Hb Hos.
  { exists d. split_and!; [done|done|done|apply framed_refl]. }
  apply Forall_cons in Hos as [Ho Hos]. destruct (dpos_step_ok o d a Hr Hb Ho) as (d1 & E1 & R1 & F1).
  pose proof (ballot_step o a Hb Ho) as B1. cbn [dpos_run map_dpos_run].
  rewrite (handle_run _ _ _ _ _ E1). destruct (map_dpos o a) as [a1 r1]. cbn [fst snd] in *.
  destruct (IH d1 a1 R1 B1 Hos) as (d2 & E2 & R2 & B2 & F2). rewrite (sm_bind_ok _ _ _ _ _ E2).
  destruct (map_dpos_run os a1) as [a2 rs]. exists d2. split; [done|]. split_and!; [done|done|by eapply framed_trans].
Qed.

(** ** Removing a candidate *)

(** One delegation of [c] goes, with the vote behind it. *)
Definition kick_one (c v : list Z) (a : dpos_maps) : dpos_maps :=
  mkMaps (mEpoch a) (delete (c ++ v) (mDelegate a))
    (if bool_decide (mVote a !! v = Some c) then delete v (mVote a) else mVote a) (mCandidate a) (mMintCnt a).

Definition kick_all (c : list Z) (es : list (list Z * list Z)) (a : dpos_maps) : dpos_maps :=
  fold_left (fun a e => kick_one c e.2 a) es a.

Lemma kickout_body_ok c v d a :
  rep d a -> address_ok c -> bytes_ok v ->
  exists d', kickout_body dbnode c v d = Ok (d', inr tt) /\ rep d' (kick_one c v a) /\ framed d d'.
Proof.
  intros Hr Hc Hv. unfold kickout_body.
  destruct (try_delete_ok FDelegate (c ++ v) d a Hr) as (d1 & E1 & R1 & F1).
  { apply bytes_ok_app. split; [apply Hc|done]. }
  rewrite (sm_bind_ok _ _ _ _ _ (ignore_missing_ok _ _ _ _ _ E1)).
  destruct (try_get_ok FVote v d1 _ R1 Hv) as (d2 & E2 & R2 & F2).
  rewrite (sm_bind_ok _ _ d1 d2 (Some (default [] (mVote a !! v)))).
  2:{ apply ignore_missing_ok. by rewrite (sm_bind_ok _ _ _ _ _ E2). }
  assert (bool_decide (Some (default [] (mVote a !! v)) = Some c) = bool_decide (mVote a !! v = Some c)) as ->.
  { apply bool_decide_ext. pose proof (address_nonempty c Hc). destruct (mVote a !! v); simpl; naive_solver. }
  unfold kick_one. case_bool_decide.
  - destruct (try_delete_ok FVote v d2 _ R2 Hv) as (d3 & E3 & R3 & F3). exists d3.
    split; [by apply ignore_missing_ok|]. eauto using framed_trans.
  - exists d2. split; [done|]. eauto using framed_trans.
Qed.

(** The loop over the entries an iterator delivers. *)
Fixpoint fold_list {S E A} (body : list Z -> list Z -> A -> SM S E A) (es : list (list Z * list Z)) (acc : A) : SM S E A :=
  match es with
  | [] => mret acc
  | (k, v) :: es => acc ← body k v acc; fold_list body es acc
  end.

Lemma for_fold_list {S E A} (lift : trie_error -> E) fuel ni es (body : list Z -> list Z -> A -> SM S E A) acc s :
  loops_over dbnode fuel ni es -> for_fold dbnode lift fuel ni body acc s = fold_list body es acc s.
Proof.
  intros Hl. unfold for_fold.
  match goal with |- context [for_iter _ ?li _ _ ?b ?s0] => destruct (Hl _ _ li b s0) as (ni' & ->) end.
  clear Hl. revert s acc. induction es as [|[k v] es IH]; intros s acc; [done|]. cbn [fold_entries fold_list].
  unfold mbind at 3. unfold SM_bind. destruct (body k v acc s) as [[s1 [e|acc1]]| [] | |]; cbn [mbind outcome_bind]; done.
Qed.

(** A loop whose body never fails; [R] relates the state and the local variables
    to the entries done so far. *)
Lemma fold_list_ok {S E A} es (body : list Z -> list Z -> A -> SM S E A)
    (R : S -> A -> list (list Z * list Z) -> Prop) s acc :
  (forall pre e post s acc, es = pre ++ e :: post -> R s acc pre ->
     exists s' acc', body e.1 e.2 acc s = Ok (s', inr acc') /\ R s' acc' (pre ++ [e])) ->
  R s acc [] ->
  exists s' acc', fold_list body es acc s = Ok (s', inr acc') /\ R s' acc' es.
Proof.
  intros Hb Hr. assert (es = [] ++ es) as Hes by done. revert Hes Hr.
  generalize (@nil (list Z * list Z)) as pre. generalize es at 2 3 as rest. intros rest.
  revert s acc. induction rest as [|[k v] rest IH]; intros s acc pre Hes Hr.
  { exists s, acc. rewrite app_nil_r in Hes. by subst. }
  destruct (Hb pre (k, v) rest s acc Hes Hr) as (s1 & acc1 & E1 & R1). cbn [fold_list fst snd] in *.
  rewrite (sm_bind_ok _ _ _ _ _ E1). apply (IH s1 acc1 (pre ++ [(k, v)])); [|done]. by rewrite <- app_assoc.
Qed.

Lemma for_fold_ok {S E A} (lift : trie_error -> E) fuel ni es (body : list Z -> list Z -> A -> SM S E A)
    (R : S -> A -> list (list Z * list Z) -> Prop) s acc :
  loops_over dbnode fuel ni es ->
  (forall pre e post s acc, es = pre ++ e :: post -> R s acc pre ->
     exists s' acc', body e.1 e.2 acc s = Ok (s', inr acc') /\ R s' acc' (pre ++ [e])) ->
  R s acc [] ->
  exists s' acc', for_fold dbnode lift fuel ni body acc s = Ok (s', inr acc') /\ R s' acc' es.
Proof. intros Hl Hb Hr. rewrite (for_fold_list _ _ _ es) by done. by apply fold_list_ok. Qed.

(** Removing [c] on the maps: the candidate, its delegations and its votes. *)
Definition kick (c : list Z) (a : dpos_maps) : dpos_maps :=
  mkMaps (mEpoch a) (filter (fun e => ~ c `prefix_of` e.1) (mDelegate a)) (filter (fun e => e.2 <> c) (mVote a))
    (delete c (mCandidate a)) (mMintCnt a).

Lemma kick_all_maps c es : forall a,
  let a' := kick_all c es a in
  mEpoch a' = mEpoch a /\ mCandidate a' = mCandidate a /\ mMintCnt a' = mMintCnt a /\
  (forall k, mDelegate a' !! k = if bool_decide (k ∈ (fun e => c ++ e.2) <$> es) then None else mDelegate a !! k) /\
  (forall v, mVote a' !! v = if bool_decide (v ∈ es.*2 /\ mVote a !! v = Some c) then None else mVote a !! v).
Proof.
  induction es as [|[k0 v0] es IH]; intros a a'; [done|].
  destruct (IH (kick_one c v0 a)) as (He & Hc & Hm & Hd & Hv). unfold a', kick_all in *. cbn [fold_left snd] in *.
  split_and!; [done|done|done| |].
  - intros k. rewrite Hd. cbn [kick_one mDelegate]. rewrite fmap_cons. simpl.
    destruct (decide (k = c ++ v0)) as [->|Hne].
    + rewrite (bool_decide_true (_ ∈ _ :: _)) by (by left). rewrite lookup_delete_eq. by case_bool_decide.
    + rewrite lookup_delete_ne by done. erewrite bool_decide_ext; [done|]. rewrite elem_of_cons. naive_solver.
  - intros v. rewrite Hv. cbn [kick_one mVote]. rewrite fmap_cons. simpl.
    destruct (bool_decide_reflect (mVote a !! v0 = Some c)) as [H0|H0].
    + destruct (decide (v = v0)) as [->|Hne].
      * rewrite lookup_delete_eq. rewrite (bool_decide_true (_ ∈ _ :: _ /\ _)) by (split; [by left|done]).
        by case_bool_decide.
      * rewrite lookup_delete_ne by done. erewrite bool_decide_ext; [done|]. rewrite elem_of_cons. naive_solver.
    + erewrite bool_decide_ext; [done|]. rewrite elem_of_cons. naive_solver.
Qed.

(** Over all the delegations of [c], the loop computes [kick]. *)
Lemma kick_all_kick c es a :
  ballot a -> address_ok c -> is_entries (fun k => c `prefix_of` k) (mDelegate a) es ->
  kick_all c es (set_map FCandidate (delete c (mCandidate a)) a) = kick c a.
Proof.
  intros Hb Hc [_ Hes]. destruct (kick_all_maps c es (set_map FCandidate (delete c (mCandidate a)) a))
    as (He & Hca & Hm & Hd & Hv).
  assert (forall k v, (k, v) ∈ es <-> k = c ++ v /\ mVote a !! v = Some c) as Hin.
  { intros k v. rewrite Hes, (ballot_delegate a Hb). split.
    - intros [(x & -> & Hx) [r E]]. destruct (ballot_vote_ok _ _ _ Hb Hx) as [_ Hxo].
      apply delegation_inj in E as [-> _]; done.
    - intros [-> Hx]. split; [eauto|by eexists]. }
  assert (forall v, v ∈ es.*2 <-> mVote a !! v = Some c) as Hin2.
  { intros v. rewrite list_elem_of_fmap. split.
    - intros ([k w] & -> & Hkw). by apply Hin in Hkw as [_ ?].
    - intros Hx. exists (c ++ v, v). split; [done|]. by apply Hin. }
  destruct (kick_all c es _) as [e1 d1 v1 c1 m1]. unfold kick. simpl in *. subst. f_equal; apply map_eq; intros k.
  - rewrite Hd, map_lookup_filter. case_bool_decide as Hk.
    + apply list_elem_of_fmap in Hk as ([k' v] & -> & Hkv). simpl. apply Hin in Hkv as [-> Hx].
      rewrite (proj2 (ballot_delegate a Hb (c ++ v) v)) by eauto. simpl. rewrite option_guard_False; [done|].
      intros Hn. apply Hn. by eexists.
    + destruct (mDelegate a !! k) as [v|] eqn:Ek; [|done]. simpl. rewrite option_guard_True; [done|].
      intros Hpre. apply Hk. apply list_elem_of_fmap. exists (k, v). simpl.
      assert ((k, v) ∈ es) as Hkv by (by apply Hes). split; [by apply Hin in Hkv as [-> _]|done].
  - rewrite Hv, map_lookup_filter. destruct (mVote a !! k) as [v|] eqn:Ek; simpl.
    + destruct (decide (v = c)) as [->|Hne].
      * rewrite bool_decide_true by (split; [by apply Hin2|done]). by rewrite option_guard_False by naive_solver.
      * rewrite bool_decide_false by naive_solver. by rewrite option_guard_True.
    + by case_bool_decide.
Qed.

Lemma ballot_kick c a : ballot a -> address_ok c -> ballot (kick c a).
Proof.
  intros Hb Hc. split; simpl.
  - intros k v [_ Hk]%lookup_delete_Some. by apply (ballot_candidate a Hb).
  - intros d x [Hv Hne]%map_lookup_filter_Some. simpl in Hne. destruct (ballot_vote a Hb _ _ Hv) as [Hd Hx].
    split; [done|]. by rewrite lookup_delete_ne.
  - intros k v. rewrite map_lookup_filter_Some, (ballot_delegate a Hb). simpl. split.
    + intros [(x & -> & Hx) Hn]. exists x. split; [done|]. apply map_lookup_filter_Some. split; [done|].
      simpl. intros ->. apply Hn. by eexists.
    + intros (x & -> & [Hx Hne]%map_lookup_filter_Some). split; [eauto|]. intros [r E].
      destruct (ballot_vote_ok _ _ _ Hb Hx) as [_ Hxo]. by apply delegation_inj in E as [-> _].
Qed.

(** The keys the iteration over the delegations of [c] looks for. *)
Definition delegation_prefix (d : DposContext) (c : list Z) : list Z := default [] (tprefix (delegateTrie d)) ++ c.

Lemma KickoutCandidate_ok c d a :
  rep d a -> ballot a -> address_ok c -> bytes_ok (delegation_prefix d c) -> clash_free (delegateTrie d) ->
  exists es d' N, is_entries (fun k => delegation_prefix d c `prefix_of` k) (mDelegate a) es /\
    rep d' (kick_all c es (set_map FCandidate (delete c (mCandidate a)) a)) /\ framed d d' /\
    forall fuel, (N <= fuel)%nat -> KickoutCandidate dbnode fuel c d = Ok (d', inr tt).
Proof.
  intros Hr Hb Hc Hp Hcl. unfold delegation_prefix in *.
  destruct (try_delete_ok FCandidate c d a Hr (proj2 Hc)) as (d1 & E1 & R1 & F1). cbn [get_map] in R1.
  set (a1 := set_map FCandidate (delete c (mCandidate a)) a) in *.
  assert (delegateTrie d1 = delegateTrie d) as Hd1.
  { revert E1. unfold try_delete, on_trie_, on_trie. destruct (TryDelete _ _ _); simpl; intros [= <-]. done. }
  assert (sound dbnode (delegateTrie d1) (mDelegate a)) as Hs by apply (R1 FDelegate).
  destruct (prefix_iterator_entries dbnode (cachegen (delegateTrie d1)) (delegateTrie d1) (mDelegate a) c)
    as (es & t' & N & Hes & Hs' & Hg' & Hp' & _ & Hit); [done|by rewrite Hd1|done|by rewrite Hd1|].
  rewrite Hd1 in Hes. set (d2 := set_trie FDelegate t' d1).
  assert (rep d2 a1) as R2.
  { replace a1 with (set_map FDelegate (mDelegate a) a1) by done. by apply rep_set. }
  assert (framed d d2) as F2 by (eapply framed_trans; [done|by apply framed_set]).
  destruct (fold_list_ok es (fun _ v _ => kickout_body dbnode c v)
    (fun s _ pre => rep s (kick_all c pre a1) /\ framed d s) d2 tt) as (d3 & [] & E3 & R3 & F3); [|done|].
  { intros pre [k v] post s [] Hin [Rs Fs]. simpl.
    destruct (kickout_body_ok c v s _ Rs Hc) as (s' & E' & R' & F').
    - destruct Hes as [_ Hes]. destruct (proj1 (Hes k v)) as [Hk _]; [rewrite Hin; set_solver|].
      apply (ballot_delegate a Hb) in Hk as (x & _ & Hx). by destruct (ballot_vote_ok _ _ _ Hb Hx) as [[_ ?] _].
    - exists s', tt. split; [done|]. split; [|by eapply framed_trans]. unfold kick_all. by rewrite fold_left_app. }
  exists es, d3, N. split_and!; [done|done|done|]. intros fuel Hf. destruct (Hit fuel Hf) as (ni & E2 & Hl).
  unfold KickoutCandidate. rewrite (sm_bind_ok _ _ _ _ _ (ignore_missing_ok _ _ _ _ _ E1)).
  rewrite (sm_bind_ok _ _ d1 d2 ni) by (unfold on_trie; cbn [get_trie]; by rewrite E2).
  by rewrite (for_fold_list _ _ _ es) by (by apply Hl).
Qed.

(** Nothing to remove. *)
Lemma is_entries_none (P : list Z -> Prop) (m : bmap) es :
  (forall k v, m !! k = Some v -> ~ P k) -> is_entries P m es -> es = [].
Proof.
  intros Hn [_ Hes]. destruct es as [|[k v] es]; [done|].
  destruct (proj1 (Hes k v)) as [Hk HP]; [by left|]. by destruct (Hn _ _ Hk).
Qed.

(** No delegation has a key the prefixed iteration looks for. *)
Lemma prefixed_none c a :
  ballot a -> (forall x, is_Some (mCandidate a !! x) -> ~ delegatePrefix `prefix_of` x) ->
  forall k v, mDelegate a !! k = Some v -> ~ (delegatePrefix ++ c) `prefix_of` k.
Proof.
  intros Hb Hno k v Hkv [r E]. apply (ballot_delegate a Hb) in Hkv as (x & -> & Hx).
  destruct (ballot_vote a Hb _ _ Hx) as [_ Hcx]. apply (Hno x); [eauto|].
  destruct (ballot_candidate a Hb _ _ Hcx) as [_ [Hl _]]. rewrite <- app_assoc in E.
  assert (length delegatePrefix <= length x)%nat as Hle by (rewrite Hl; vm_compute; lia).
  rewrite <- (take_app_length delegatePrefix (c ++ r)), <- E, take_app_le by done. apply prefix_take.
Qed.

(** When the delegation trie has no prefix of its own,
    [KickoutCandidate] removes exactly the candidate, all the delegations to it
    and the votes behind them, and nothing else; votes and delegations still
    agree, and the loop terminates. *)
Theorem kickout_complete c d a :
  rep d a -> ballot a -> address_ok c -> default [] (tprefix (delegateTrie d)) = [] ->
  clash_free (delegateTrie d) ->
  ballot (kick c a) /\
  exists d' N, rep d' (kick c a) /\
    forall fuel, (N <= fuel)%nat -> KickoutCandidate dbnode fuel c d = Ok (d', inr tt).
Proof.
  intros Hr Hb Hc Hp Hcl. split; [by apply ballot_kick|].
  assert (delegation_prefix d c = c) as Epre by (unfold delegation_prefix; by rewrite Hp).
  destruct (KickoutCandidate_ok c d a Hr Hb Hc) as (es & d' & N & Hes & R & _ & E); [rewrite Epre; apply Hc|done|].
  rewrite Epre in Hes. exists d', N. split; [|done]. by rewrite <- (kick_all_kick c es a).
Qed.

(** A defect.  On the trie that [NewDelegateTrie] opens, the
    iteration looks for keys that start with "delegate-", which no delegation
    does unless an address happens to: [KickoutCandidate] removes the candidate
    and leaves every delegation to it and every vote for it behind. *)
Theorem kickout_prefixed c d a :
  rep d a -> ballot a -> address_ok c -> tprefix (delegateTrie d) = Some delegatePrefix ->
  clash_free (delegateTrie d) ->
  (forall x, is_Some (mCandidate a !! x) -> ~ delegatePrefix `prefix_of` x) ->
  exists d' a' N, rep d' a' /\
    (forall fuel, (N <= fuel)%nat -> KickoutCandidate dbnode fuel c d = Ok (d', inr tt)) /\
    mDelegate a' = mDelegate a /\ mVote a' = mVote a /\ mCandidate a' = delete c (mCandidate a) /\
    (forall x, mVote a !! x = Some c -> ~ ballot a').
Proof.
  intros Hr Hb Hc Hp Hcl Hno. unfold delegation_prefix in *.
  destruct (KickoutCandidate_ok c d a Hr Hb Hc) as (es & d' & N & Hes & R & _ & E).
  { unfold delegation_prefix. rewrite Hp. apply bytes_ok_app. split; [|apply Hc].
    apply (bool_decide_unpack (bytes_ok delegatePrefix)). vm_compute. done. }
  { done. }
  unfold delegation_prefix in Hes. rewrite Hp in Hes. apply is_entries_none in Hes; [subst es|].
  - simpl in R. eexists d', _, N. split; [done|]. split; [done|]. simpl. split_and!; [done..|].
    intros x Hx Hbal. destruct (ballot_vote _ Hbal x c Hx) as [_ Hcc]. simpl in Hcc.
    by rewrite lookup_delete_eq in Hcc.
  - intros k v. by apply prefixed_none.
Qed.
End refinement.

(** ** Validators *)

Lemma seq_items_bytes t l :
  (forall v, item_of (VBytes v) t = Some (Str v)) ->
  seq_items (map (fun v => (v, t)) (map VBytes l)) = Some (map Str l).
Proof. intros Ht. induction l as [|v l IH]; [done|]. cbn [map seq_items]. by rewrite Ht, IH. Qed.

Lemma addresses_item l : item_of (VList (map VBytes l)) addresses = Some (Lst (map Str l)).
Proof. unfold addresses. by rewrite item_of_slice, seq_items_bytes. Qed.

(** The encoding of a list of addresses has 21 bytes for each. *)
Lemma addresses_size l :
  Forall address_ok l -> length (concat (map encode_item (map Str l))) = (21 * length l)%nat.
Proof.
  induction 1 as [|a l [Ha _] _ IH]; [done|]. cbn [map concat length]. rewrite length_app, IH.
  cbn [encode_item]. destruct a as [|x [|y a]]; try done. unfold encode_str.
  rewrite length_app, Ha. change (length (header 128 183 (Z.of_nat AddressLength))) with 1%nat.
  unfold AddressLength. lia.
Qed.

Lemma canon_addresses l : Forall address_ok l -> canon addresses (VList (map VBytes l)).
Proof.
  intros Hl. constructor. apply Forall_fmap. eapply Forall_impl; [exact Hl|]. intros a [Ha Hb]. simpl.
  rewrite <- Ha. apply canon_array; [done|]. intros ->. done.
Qed.

Lemma addresses_bound l :
  Forall address_ok l -> Z.of_nat (length l) < 2 ^ 32 ->
  Z.of_nat (length (encode_item (Lst (map Str l)))) < 2 ^ 64.
Proof.
  intros Hl Hn. cbn [encode_item]. rewrite length_app, (addresses_size l Hl).
  pose proof (length_header 0xC0 0xF7 (Z.of_nat (21 * length l)) ltac:(lia)) as Hh.
  unfold headsize in Hh. pose proof (intsize_range (Z.of_nat (21 * length l)) ltac:(lia)).
  case_bool_decide; lia.
Qed.

Section validators.
Context `{Keccak} (dbnode : list Z -> Z -> option node) (Hdb : db_coherent dbnode).

(** The map behind [SetValidators]. *)
Definition map_validators (l : list (list Z)) (a : dpos_maps) : dpos_maps :=
  set_map FEpoch (<[validator_key := encode_item (Lst (map Str l))]> (mEpoch a)) a.

Lemma validator_key_ok : bytes_ok validator_key.
Proof. apply (bool_decide_unpack (bytes_ok validator_key)). vm_compute. done. Qed.

Lemma SetValidators_ok l d a :
  rep dbnode d a -> Forall address_ok l -> Z.of_nat (length l) < 2 ^ 32 ->
  exists d', SetValidators dbnode l d = Ok (d', inr tt) /\ rep dbnode d' (map_validators l a) /\ framed d d'.
Proof.
  intros Hr Hl Hn. unfold SetValidators.
  destruct (encode_ok _ _ _ (addresses_item l) (addresses_bound l Hl Hn)) as [-> _].
  pose proof (encode_item_nonempty (Lst (map Str l))) as Hne. set (b := encode_item _) in *.
  destruct (try_update_ok dbnode Hdb FEpoch validator_key b d a Hr validator_key_ok) as (d' & E & R & F).
  exists d'. split.
  - revert E. unfold try_update, on_trie_, on_trie, Update.
    destruct (TryUpdate dbnode (get_trie FEpoch d) validator_key b); simpl; intros E; by simplify_eq.
  - split; [|done]. rewrite put_nonempty in R; [done|]. intros Eb. rewrite Eb in Hne. simpl in Hne. lia.
Qed.

Lemma GetValidators_ok l d a :
  rep dbnode d a -> Forall address_ok l -> Z.of_nat (length l) < 2 ^ 32 ->
  mEpoch a !! validator_key = Some (encode_item (Lst (map Str l))) ->
  exists d', GetValidators dbnode d = Ok (d', inr l) /\ rep dbnode d' a /\ framed d d'.
Proof.
  intros Hr Hl Hn Hv. unfold GetValidators.
  destruct (try_get_ok dbnode Hdb FEpoch validator_key d a Hr validator_key_ok) as (d' & E & R & F).
  exists d'. split; [|done]. cbn [get_map] in E. rewrite Hv in E.
  rewrite (sm_bind_ok _ _ d d' (Some (encode_item (Lst (map Str l))))).
  2:{ revert E. unfold try_get, on_trie, Get. destruct (TryGet dbnode (get_trie FEpoch d) validator_key); by intros. }
  cbn [default from_option id].
  rewrite (decode_encode _ _ _ (canon_addresses l Hl) (addresses_item l) (addresses_bound l Hl Hn)).
  unfold mret, SM_ret. do 3 f_equal. rewrite map_map. apply map_id.
Qed.

(** The validators stored in the epoch trie are the ones read
    back, in order, through RLP and the trie; the other tries keep their
    content. *)
Theorem validators_roundtrip l d a :
  rep dbnode d a -> Forall address_ok l -> Z.of_nat (length l) < 2 ^ 32 ->
  exists d1 d2, SetValidators dbnode l d = Ok (d1, inr tt) /\ GetValidators dbnode d1 = Ok (d2, inr l) /\
    rep dbnode d2 (map_validators l a).
Proof.
  intros Hr Hl Hn. destruct (SetValidators_ok l d a Hr Hl Hn) as (d1 & E1 & R1 & _).
  destruct (GetValidators_ok l d1 _ R1 Hl Hn) as (d2 & E2 & R2 & _); [apply lookup_insert_eq|]. eauto.
Qed.
End validators.

(** ** From a fresh context *)

Definition empty_maps : dpos_maps := mkMaps ∅ ∅ ∅ ∅ ∅.

Definition fresh_context : DposContext :=
  let t p := mkTrie Nil emptyHash (Some p) 0 0 in
  mkDposContext (t epochPrefix) (t delegatePrefix) (t votePrefix) (t candidatePrefix) (t mintCntPrefix) true.

Lemma NewDposContext_fresh dbnode : NewDposContext dbnode = Ok fresh_context.
Proof. done. Qed.

Lemma ballot_empty : ballot empty_maps.
Proof.
  split; simpl; [by intros ?? ?%lookup_empty_Some..|]. intros k v. rewrite lookup_empty.
  split; [done|]. by intros (c & _ & ?%lookup_empty_Some).
Qed.

Section fresh.
Context `{Keccak} (dbnode : list Z -> Z -> option node) (Hdb : db_coherent dbnode).

Lemma rep_fresh : rep dbnode fresh_context empty_maps.
Proof.
  intros f. replace (get_map f empty_maps) with (∅ : bmap) by by destruct f.
  constructor; [apply represents_empty|]; destruct f; done.
Qed.

(** C1: refinement.  Any sequence of registrations, delegations and withdrawals
    on a context whose votes and delegations agree computes the operations on
    finite maps: the same errors in the same places, never a missing node or a
    panic, and tries that hold exactly the resulting maps. *)
Theorem dpos_refines os d a :
  rep dbnode d a -> ballot a -> Forall dpos_op_ok os ->
  exists d', dpos_run dbnode os d = Ok (d', inr (map_dpos_run os a).2) /\
    rep dbnode d' (map_dpos_run os a).1 /\ framed d d'.
Proof.
  intros Hr Hb Hos. destruct (dpos_run_ok dbnode Hdb os d a Hr Hb Hos) as (d' & E & R & _ & F). eauto.
Qed.

(** C28: invariant.  After any registrations, delegations and withdrawals of delegations
    on the context that [NewDposContext] makes, a delegator's vote is for [c] if and only if
    the delegation of that delegator to [c] is recorded, and then [c] is a registered
    candidate; no delegator has two votes.  [KickoutCandidate] is not among these operations:
    on this context it breaks the invariant ([kickout_prefixed]). *)
Theorem ballot_invariant os dl c :
  Forall dpos_op_ok os -> address_ok dl -> address_ok c ->
  exists d0 d rs d1 d2 d3 vote del cand,
    NewDposContext dbnode = Ok d0 /\ dpos_run dbnode os d0 = Ok (d, inr rs) /\
    try_get dbnode FVote dl d = Ok (d1, inr vote) /\
    try_get dbnode FDelegate (c ++ dl) d = Ok (d2, inr del) /\
    try_get dbnode FCandidate c d = Ok (d3, inr cand) /\
    (vote = Some c <-> del = Some dl) /\ (del <> None -> vote = Some c) /\ (vote = Some c -> cand = Some c).
Proof.
  intros Hos Hdl Hc. destruct (dpos_run_ok dbnode Hdb os _ _ rep_fresh ballot_empty Hos) as (d & E & R & B & _).
  set (a := (map_dpos_run os empty_maps).1) in *.
  destruct (try_get_ok dbnode Hdb FVote dl d a R (proj2 Hdl)) as (d1 & E1 & _).
  destruct (try_get_ok dbnode Hdb FDelegate (c ++ dl) d a R) as (d2 & E2 & _).
  { apply bytes_ok_app. split; [apply Hc|apply Hdl]. }
  destruct (try_get_ok dbnode Hdb FCandidate c d a R (proj2 Hc)) as (d3 & E3 & _). cbn [get_map] in *.
  assert (forall v, mDelegate a !! (c ++ dl) = Some v -> v = dl /\ mVote a !! dl = Some c) as Hdel.
  { intros v (x & Ex & Hx)%(ballot_delegate a B). destruct (ballot_vote_ok _ _ _ B Hx) as [_ Hxo].
    by apply delegation_inj in Ex as [-> ->]. }
  exists fresh_context, d. do 7 eexists. do 5 (split; [done|]). split_and!.
  - split; [|by intros Hd; apply Hdel in Hd as [_ ?]]. intros Hv. apply (ballot_delegate a B). eauto.
  - destruct (mDelegate a !! (c ++ dl)) as [v|] eqn:Ed; [|done]. intros _. by apply (Hdel v).
  - intros Hv. by apply (ballot_vote a B) in Hv as [_ ?].
Qed.
End fresh.

(** ** Roots *)

Definition proto_ok (p : DposContextProto) : Prop :=
  Forall Common.hash_ok [EpochHash p; DelegateHash p; CandidateHash p; VoteHash p; MintCntHash p].

Lemma Encode_hash h : Common.hash_ok h -> Encode (TByteArray HashLength) (VBytes h) = Ok (0xa0 :: h).
Proof.
  intros [Hl _]. destruct (encode_ok (VBytes h) (TByteArray HashLength) (Str h) eq_refl) as [_ ->].
  - cbn [encode_item]. rewrite encode_str_frame, length_app, Hl by (by destruct h as [|x [|]]). vm_compute. done.
  - cbn [encode_item]. rewrite encode_str_frame, Hl by (by destruct h as [|x [|]]). done.
Qed.

Lemma hash_roots_spec `{Keccak} hs : Forall Common.hash_ok hs -> hash_roots hs = keccak256 (concat (map (cons 0xa0) hs)).
Proof.
  intros Hh. unfold hash_roots. f_equal. f_equal. induction Hh as [|h hs Hh _ IH]; [done|].
  cbn [map]. by rewrite Encode_hash, IH by done.
Qed.

Lemma concat_hash_inj l1 l2 :
  Forall Common.hash_ok l1 -> Forall Common.hash_ok l2 -> concat (map (cons 0xa0) l1) = concat (map (cons 0xa0) l2) -> l1 = l2.
Proof.
  intros H1. revert l2. induction H1 as [|h l1 [Hl _] _ IH]; intros l2 H2 E; destruct H2 as [|h' l2 [Hl' _] H2]; try done.
  simpl in E. injection E as E. apply app_inj_1 in E as [-> E]; [|congruence]. f_equal. by apply IH.
Qed.

(** What [Proto_Root] hashes. *)
Definition proto_bytes (p : DposContextProto) : list Z :=
  concat (map (cons 0xa0) [EpochHash p; DelegateHash p; CandidateHash p; VoteHash p; MintCntHash p]).

Lemma Proto_Root_inj `{Keccak} p q :
  proto_ok p -> proto_ok q -> no_collision [proto_bytes p] [proto_bytes q] -> Proto_Root p = Proto_Root q -> p = q.
Proof.
  intros Hp Hq Hnc E. unfold Proto_Root in E. rewrite !hash_roots_spec in E by done.
  apply Hnc in E; [|by left..]. apply concat_hash_inj in E; [|done..]. destruct p, q. simpl in E. by simplify_eq.
Qed.

Section roots.
Context `{Keccak} (dbnode : list Z -> Z -> option node).

Definition trie_root (f : field) (d : DposContext) : list Z := merkle_root (root (get_trie f d)).

(** The proto of a context whose tries are sound. *)
Definition proto_of (d : DposContext) : DposContextProto :=
  mkProto (trie_root FEpoch d) (trie_root FDelegate d) (trie_root FCandidate d) (trie_root FVote d) (trie_root FMintCnt d).

Lemma on_trie_Hash f d a :
  rep dbnode d a ->
  exists d', on_trie f Hash d = Ok (d', inr (trie_root f d)) /\ rep dbnode d' a /\ framed d d' /\
    forall f', f' <> f -> get_trie f' d' = get_trie f' d.
Proof.
  intros Hr. destruct (Hash_spec dbnode _ _ (Hr f)) as (t' & E & Hs & Hg & _ & Hp & _).
  exists (set_trie f t' d). unfold on_trie. rewrite E. split; [done|]. split_and!.
  - rewrite <- (set_get_map f a). by apply rep_set.
  - by apply framed_set.
  - intros f' Hne. rewrite get_set_trie. by rewrite bool_decide_false.
Qed.

(** The five hashes, in the order both methods compute them. *)
Lemma hash_all {A} (k : list Z -> list Z -> list Z -> list Z -> list Z -> A) d a :
  rep dbnode d a ->
  exists d', (e ← on_trie FEpoch Hash; dl ← on_trie FDelegate Hash; c ← on_trie FCandidate Hash;
              v ← on_trie FVote Hash; m ← on_trie FMintCnt Hash; mret (k e dl c v m)) d
    = Ok (d', inr (let p := proto_of d in
                   k (EpochHash p) (DelegateHash p) (CandidateHash p) (VoteHash p) (MintCntHash p))) /\
    rep dbnode d' a /\ framed d d'.
Proof.
  intros Hr. cbn [proto_of EpochHash DelegateHash CandidateHash VoteHash MintCntHash]. unfold trie_root.
  destruct (on_trie_Hash FEpoch d a Hr) as (d1 & E1 & R1 & F1 & G1). rewrite (sm_bind_ok _ _ _ _ _ E1).
  destruct (on_trie_Hash FDelegate d1 a R1) as (d2 & E2 & R2 & F2 & G2). rewrite (sm_bind_ok _ _ _ _ _ E2).
  destruct (on_trie_Hash FCandidate d2 a R2) as (d3 & E3 & R3 & F3 & G3). rewrite (sm_bind_ok _ _ _ _ _ E3).
  destruct (on_trie_Hash FVote d3 a R3) as (d4 & E4 & R4 & F4 & G4). rewrite (sm_bind_ok _ _ _ _ _ E4).
  destruct (on_trie_Hash FMintCnt d4 a R4) as (d5 & E5 & R5 & F5 & G5). rewrite (sm_bind_ok _ _ _ _ _ E5).
  unfold trie_root. rewrite (G4 FMintCnt), (G3 FMintCnt), (G2 FMintCnt), (G1 FMintCnt) by done.
  rewrite (G3 FVote), (G2 FVote), (G1 FVote), (G2 FCandidate), (G1 FCandidate), (G1 FDelegate) by done.
  exists d5. split; [done|]. split; [done|]. eauto 6 using framed_trans.
Qed.

Lemma ToProto_ok d a :
  rep dbnode d a -> exists d', ToProto d = Ok (d', inr (proto_of d)) /\ rep dbnode d' a /\ framed d d'.
Proof. apply (hash_all (fun e dl c v m => mkProto e dl c v m)). Qed.

Lemma Root_ok d a :
  rep dbnode d a -> exists d', Root d = Ok (d', inr (Proto_Root (proto_of d))) /\ rep dbnode d' a /\ framed d d'.
Proof. apply (hash_all (fun e dl c v m => hash_roots [e; dl; c; v; m])). Qed.
End roots.

(** Two contexts with the same content, whatever their history,
    their caches and their databases, have the same proto, and the root each
    computes is the root of that proto, which is what a validator of a block
    recomputes from the header. *)
Theorem context_root_content `{Keccak} db1 db2 d1 d2 a :
  db_coherent db1 -> db_coherent db2 -> rep db1 d1 a -> rep db2 d2 a ->
  exists p x1 x2 y1 y2,
    ToProto d1 = Ok (x1, inr p) /\ ToProto d2 = Ok (x2, inr p) /\
    Root d1 = Ok (y1, inr (Proto_Root p)) /\ Root d2 = Ok (y2, inr (Proto_Root p)) /\
    rep db1 x1 a /\ rep db2 x2 a /\ rep db1 y1 a /\ rep db2 y2 a.
Proof.
  intros H1 H2 R1 R2. assert (proto_of d2 = proto_of d1) as E.
  { assert (forall f, trie_root f d2 = trie_root f d1) as Ef
      by (intros f; unfold trie_root; by eapply (merkle_root_content db2 db1); [..|apply R2|apply R1]).
    unfold proto_of. by rewrite !Ef. }
  destruct (ToProto_ok db1 d1 a R1) as (x1 & ? & ? & _). destruct (ToProto_ok db2 d2 a R2) as (x2 & Ex & ? & _).
  destruct (Root_ok db1 d1 a R1) as (y1 & ? & ? & _). destruct (Root_ok db2 d2 a R2) as (y2 & Ey & ? & _).
  rewrite E in Ex, Ey. exists (proto_of d1), x1, x2, y1, y2. split_and!; done.
Qed.

Lemma merkle_root_ok `{Keccak} dbnode t m :
  db_coherent dbnode -> sound dbnode t m -> Common.hash_ok (merkle_root (root t)).
Proof.
  intros Hdb Hs. destruct (sound_loaded _ Hdb _ _ Hs) as (t0 & R & <-). destruct (rep_wf _ _ _ R) as [->|Hw].
  - apply (bool_decide_unpack (length emptyRoot = HashLength /\ bytes_ok emptyRoot)). vm_compute. done.
  - rewrite (merkle_root_wf _ _ Hw). apply keccak256_ok.
Qed.

Lemma proto_of_ok `{Keccak} dbnode d a : db_coherent dbnode -> rep dbnode d a -> proto_ok (proto_of d).
Proof.
  intros Hdb Hr. assert (forall f, Common.hash_ok (trie_root f d)) as Hf by (intros f; eapply merkle_root_ok, Hr; done).
  repeat (constructor; [apply Hf|]). constructor.
Qed.

(** The context root in a header binds the whole election state:
    when two contexts have the same root, and the hash function collides neither
    on the encoded trie nodes nor on the lists of the five trie roots, they have
    the same validators, candidates, delegations, votes and block counts. *)
Theorem context_root_binding `{Keccak} db1 db2 d1 d2 a1 a2 p1 p2 x1 x2 y1 y2 h :
  keccak256 [128] = emptyRoot -> db_coherent db1 -> db_coherent db2 -> rep db1 d1 a1 -> rep db2 d2 a2 ->
  (forall f, short_map (get_map f a1) /\ short_map (get_map f a2)) ->
  (forall f x y, node_blob (get_map f a1) x -> node_blob (get_map f a2) y -> keccak256 x = keccak256 y -> x = y) ->
  ToProto d1 = Ok (x1, inr p1) -> ToProto d2 = Ok (x2, inr p2) -> no_collision [proto_bytes p1] [proto_bytes p2] ->
  Root d1 = Ok (y1, inr h) -> Root d2 = Ok (y2, inr h) -> a1 = a2.
Proof.
  intros He D1 D2 R1 R2 Hm Hn P1 P2 Hp E1 E2.
  destruct (ToProto_ok db1 d1 a1 R1) as (u1 & T1 & _). destruct (ToProto_ok db2 d2 a2 R2) as (u2 & T2 & _).
  destruct (Root_ok db1 d1 a1 R1) as (v1 & Q1 & _). destruct (Root_ok db2 d2 a2 R2) as (v2 & Q2 & _).
  assert (p1 = proto_of d1) as -> by congruence. assert (p2 = proto_of d2) as -> by congruence.
  assert (Proto_Root (proto_of d1) = Proto_Root (proto_of d2)) as Q by congruence.
  assert (forall f, get_map f a1 = get_map f a2) as Ef.
  { apply Proto_Root_inj in Q; [|exact (proto_of_ok _ _ _ D1 R1)|exact (proto_of_ok _ _ _ D2 R2)|done].
    intros f. destruct (Hm f). eapply (sound_binding db1 db2 _ _ _ _ He D1 D2 (R1 f) (R2 f)); try done; [by apply Hn|].
    unfold proto_of, trie_root in Q. injection Q as ? ? ? ? ?. by destruct f. }
  destruct a1, a2. f_equal; [apply (Ef FEpoch)|apply (Ef FDelegate)|apply (Ef FVote)|apply (Ef FCandidate)|apply (Ef FMintCnt)].
Qed.

(** ** Concrete contexts *)

Definition addr (x : Z) : list Z := replicate 20 x.

Lemma addr_ok x : is_byte x -> address_ok (addr x).
Proof. intros Hx. split; [done|]. by apply Forall_replicate. Qed.

(** Two candidates, two votes, a changed mind, a vote for nobody. *)
Definition sample_dpos : list dpos_op :=
  [OpBecome (addr 1); OpBecome (addr 2); OpDelegate (addr 7) (addr 1); OpDelegate (addr 8) (addr 1);
   OpDelegate (addr 8) (addr 2); OpDelegate (addr 7) (addr 3); OpUnDelegate (addr 7) (addr 2)].

Lemma sample_dpos_ok : Forall dpos_op_ok sample_dpos.
Proof. repeat constructor; simpl; unfold is_byte; lia. Qed.

Lemma dpos_refines_witness :
  exists d', dpos_run no_db sample_dpos fresh_context =
      Ok (d', inr [inr tt; inr tt; inr tt; inr tt; inr tt; inl EInvalidDelegate; inl EMismatch]) /\
    @rep sha3_keccak no_db d' (mkMaps ∅ (<[addr 1 ++ addr 7 := addr 7]> {[ addr 2 ++ addr 8 := addr 8 ]})
      (<[addr 7 := addr 1]> {[ addr 8 := addr 2 ]}) (<[addr 1 := addr 1]> {[ addr 2 := addr 2 ]}) ∅).
Proof.
  destruct (@dpos_refines sha3_keccak no_db no_db_coherent sample_dpos fresh_context empty_maps)
    as (d' & E & R & _); [apply rep_fresh|apply ballot_empty|apply sample_dpos_ok|].
  exists d'. split; [rewrite E; do 3 f_equal; vm_compute; reflexivity|].
  revert R. replace ((map_dpos_run sample_dpos empty_maps).1) with
    (mkMaps ∅ (<[addr 1 ++ addr 7 := addr 7]> {[ addr 2 ++ addr 8 := addr 8 ]})
      (<[addr 7 := addr 1]> {[ addr 8 := addr 2 ]}) (<[addr 1 := addr 1]> {[ addr 2 := addr 2 ]}) ∅); [done|].
  vm_compute. reflexivity.
Defined.

Lemma ballot_invariant_witness :
  exists d0 d rs d1 d2 d3 vote del cand,
    NewDposContext no_db = Ok d0 /\ dpos_run no_db sample_dpos d0 = Ok (d, inr rs) /\
    try_get no_db FVote (addr 8) d = Ok (d1, inr vote) /\
    try_get no_db FDelegate (addr 2 ++ addr 8) d = Ok (d2, inr del) /\
    try_get no_db FCandidate (addr 2) d = Ok (d3, inr cand) /\
    (vote = Some (addr 2) <-> del = Some (addr 8)) /\ (del <> None -> vote = Some (addr 2)) /\
    (vote = Some (addr 2) -> cand = Some (addr 2)).
Proof.
  apply (@ballot_invariant sha3_keccak no_db no_db_coherent sample_dpos (addr 8) (addr 2));
    [apply sample_dpos_ok|apply addr_ok; unfold is_byte; lia..].
Defined.

(** The context of the sample, over a delegation trie with the prefix [pfx]. *)
Definition context_with (pfx : option (list Z)) : DposContext :=
  set_trie FDelegate (mkTrie Nil emptyHash pfx 0 0) fresh_context.

Definition sample_context (pfx : option (list Z)) : DposContext :=
  match dpos_run no_db sample_dpos (context_with pfx) with Ok (d, _) => d | _ => fresh_context end.

Definition sample_maps : dpos_maps := (map_dpos_run sample_dpos empty_maps).1.

Lemma sample_rep `{Keccak} pfx :
  rep no_db (sample_context pfx) sample_maps /\ ballot sample_maps /\
  tprefix (delegateTrie (sample_context pfx)) = pfx.
Proof.
  assert (rep no_db (context_with pfx) empty_maps) as R0.
  { intros f. replace (get_map f empty_maps) with (∅ : bmap) by by destruct f.
    constructor; [apply represents_empty|]; destruct f; done. }
  destruct (dpos_run_ok no_db no_db_coherent sample_dpos _ _ R0 ballot_empty sample_dpos_ok)
    as (d' & E & R & B & [_ F]).
  unfold sample_context. rewrite E. split_and!; [done|done|]. apply (F FDelegate).
Qed.

Definition sample_context_ok := @sample_rep sha3_keccak.

Lemma kickout_complete_witness :
  ballot (kick (addr 1) sample_maps) /\
  exists d' N, @rep tag_keccak no_db d' (kick (addr 1) sample_maps) /\
    forall fuel, (N <= fuel)%nat ->
      @KickoutCandidate tag_keccak no_db fuel (addr 1) (sample_context None) = Ok (d', inr tt).
Proof.
  destruct (@sample_rep tag_keccak None) as (R & B & P).
  apply (@kickout_complete tag_keccak no_db no_db_coherent (addr 1) (sample_context None) sample_maps);
    [exact R|exact B|apply addr_ok; unfold is_byte; lia|by rewrite P|].
  apply (tag_clash_free no_db _ _ no_db_coherent (R FDelegate)).
Defined.

Lemma kickout_prefixed_witness :
  exists d' a' N, @rep tag_keccak no_db d' a' /\
      (forall fuel, (N <= fuel)%nat ->
        @KickoutCandidate tag_keccak no_db fuel (addr 1) (sample_context (Some delegatePrefix)) = Ok (d', inr tt)) /\
      mDelegate a' = mDelegate sample_maps /\ mVote a' = mVote sample_maps /\
      mCandidate a' = delete (addr 1) (mCandidate sample_maps) /\
      (forall x, mVote sample_maps !! x = Some (addr 1) -> ~ ballot a').
Proof.
  destruct (@sample_rep tag_keccak (Some delegatePrefix)) as (R & B & P).
  apply (@kickout_prefixed tag_keccak no_db no_db_coherent (addr 1) (sample_context (Some delegatePrefix)) sample_maps);
    [exact R|exact B|apply addr_ok; unfold is_byte; lia|exact P| |].
  - apply (tag_clash_free no_db _ _ no_db_coherent (R FDelegate)).
  - assert (mCandidate sample_maps = <[addr 1 := addr 1]> {[ addr 2 := addr 2 ]}) as -> by (vm_compute; reflexivity).
    intros x [y Hy]. rewrite lookup_insert_Some, lookup_singleton_Some in Hy. intros [r Hr].
    destruct Hy as [[<- _]|[_ [<- _]]]; discriminate Hr.
Defined.

Lemma validators_roundtrip_witness :
  exists d1 d2, SetValidators no_db [addr 2; addr 1] fresh_context = Ok (d1, inr tt) /\
    GetValidators no_db d1 = Ok (d2, inr [addr 2; addr 1]) /\
    @rep sha3_keccak no_db d2 (map_validators [addr 2; addr 1] empty_maps).
Proof.
  apply (@validators_roundtrip sha3_keccak no_db no_db_coherent [addr 2; addr 1] fresh_context empty_maps);
    [apply rep_fresh|repeat constructor; lia|done].
Defined.

(** The same content over tries with different prefixes. *)
Lemma context_root_content_witness :
  exists p x1 x2 y1 y2,
    @ToProto sha3_keccak (sample_context None) = Ok (x1, inr p) /\
    @ToProto sha3_keccak (sample_context (Some delegatePrefix)) = Ok (x2, inr p) /\
    @Root sha3_keccak (sample_context None) = Ok (y1, inr (@Proto_Root sha3_keccak p)) /\
    @Root sha3_keccak (sample_context (Some delegatePrefix)) = Ok (y2, inr (@Proto_Root sha3_keccak p)) /\
    @rep sha3_keccak no_db x1 sample_maps /\ @rep sha3_keccak no_db x2 sample_maps /\
    @rep sha3_keccak no_db y1 sample_maps /\ @rep sha3_keccak no_db y2 sample_maps.
Proof.
  apply (@context_root_content sha3_keccak no_db no_db); [apply no_db_coherent..| |]; apply sample_context_ok.
Defined.

Lemma context_root_binding_witness :
  exists p x y h, @ToProto sha3_keccak fresh_context = Ok (x, inr p) /\ @Root sha3_keccak fresh_context = Ok (y, inr h) /\
    empty_maps = empty_maps.
Proof.
  destruct (ToProto_ok (H := sha3_keccak) no_db fresh_context empty_maps (rep_fresh no_db)) as (x & Ex & _).
  destruct (Root_ok (H := sha3_keccak) no_db fresh_context empty_maps (rep_fresh no_db)) as (y & Ey & _).
  exists (@proto_of sha3_keccak fresh_context), x, y, (@Proto_Root sha3_keccak (@proto_of sha3_keccak fresh_context)).
  split; [exact Ex|]. split; [exact Ey|].
  eapply (@context_root_binding sha3_keccak no_db no_db fresh_context fresh_context);
    [exact sha3_empty_root|apply no_db_coherent..|apply rep_fresh|apply rep_fresh| | |exact Ex|exact Ex| |exact Ey|exact Ey].
  - intros f. assert (get_map f empty_maps = ∅) as -> by by destruct f.
    split; intros k v Hk; destruct (lookup_empty_Some _ _ Hk).
  - intros f x' y' Hx Hy _.
    assert (represents no_db empty_trie ∅) as R0 by by apply represents_empty.
    assert (get_map f empty_maps = ∅) as Em by by destruct f. rewrite Em in Hx, Hy.
    apply (node_blob_of _ _ _ R0) in Hx, Hy. cbn in Hx, Hy. rewrite list_elem_of_singleton in Hx, Hy. congruence.
  - intros x' y'. rewrite !list_elem_of_singleton. congruence.
Defined.
