(* ===== verification/Header.v ===== *)
(** * Block headers ([src/core/types/block.go], [sigHash] of [src/consensus/dpos/dpos.go],
      [Address.Hex] of [src/common/types.go])

    The header with the fields this chain adds (validator, context roots,
    validator-set size, block interval), its hash, the hash that is signed, and
    the checksummed text form of an address, which orders equal votes.

    [header_hash_binding]: equal hashes mean equal headers, if the hash function
    does not collide on their encodings.  [sighash_covers]: what a signature
    covers, which is everything but the signature and the block interval. *)

From S2P Require Import Prelude Common Trie Rlp Sha3 RlpRaw.
From S2P Require Import DposContext.

(** ** Addresses as text *)

(** [hex.EncodeToString] *)
Definition hex_digit (n : Z) : Z := if bool_decide (n < 10) then 48 + n else 87 + n.
Definition hex_bytes (b : list Z) : list Z := concat (map (fun x => [hex_digit (Z.shiftr x 4); hex_digit (Z.land x 15)]) b).

Section address_text.
Context `{Keccak}.

(** The loop of [Address.Hex]: digit [i] is raised when its nibble of the hash
    is above 7. *)
Fixpoint checksum (hash : list Z) (i : nat) (digits : list Z) : list Z :=
  match digits with
  | [] => []
  | c :: digits =>
      let b := default 0 (hash !! (i / 2)%nat) in
      let hashByte := if (i mod 2 =? 0)%nat then Z.shiftr b 4 else Z.land b 15 in
      (if bool_decide (57 < c /\ 7 < hashByte) then c - 32 else c) :: checksum hash (S i) digits
  end.

(** [Address.Hex] and [String] *)
Definition Address_Hex (a : list Z) : list Z :=
  let unchecksummed := hex_bytes a in
  [48; 120] ++ checksum (keccak256 unchecksummed) 0 unchecksummed.
End address_text.

(** The text determines the address. *)
Definition lower (c : Z) : Z := if bool_decide (65 <= c <= 70) then c + 32 else c.

Definition is_digit (c : Z) : Prop := 48 <= c <= 57 \/ 97 <= c <= 102.

Lemma hex_digit_ok n : 0 <= n < 16 -> is_digit (hex_digit n).
Proof. unfold hex_digit, is_digit. intros. case_bool_decide; lia. Qed.

Lemma hex_digit_inj n m : 0 <= n < 16 -> 0 <= m < 16 -> hex_digit n = hex_digit m -> n = m.
Proof. unfold hex_digit. intros. repeat case_bool_decide; lia. Qed.

Lemma byte_nibbles x : is_byte x -> 0 <= Z.shiftr x 4 < 16 /\ 0 <= Z.land x 15 < 16 /\ x = 16 * Z.shiftr x 4 + Z.land x 15.
Proof.
  unfold is_byte. intros Hx. rewrite Z.shiftr_div_pow2 by lia. change 15 with (Z.ones 4).
  rewrite Z.land_ones by lia. change (2 ^ 4) with 16.
  pose proof (Z.div_mod x 16 ltac:(lia)). pose proof (Z.mod_pos_bound x 16 ltac:(lia)).
  split; [|lia]. split; [apply Z.div_pos; lia|]. apply Z.div_lt_upper_bound; lia.
Qed.

Lemma hex_bytes_digits b : bytes_ok b -> Forall is_digit (hex_bytes b).
Proof.
  induction 1 as [|x b Hx _ IH]; [constructor|]. unfold hex_bytes in *. cbn [map concat app].
  destruct (byte_nibbles x Hx) as (? & ? & _).
  apply Forall_cons. split; [by apply hex_digit_ok|]. apply Forall_cons. split; [by apply hex_digit_ok|done].
Qed.

Lemma hex_bytes_inj a b : bytes_ok a -> bytes_ok b -> hex_bytes a = hex_bytes b -> a = b.
Proof.
  intros Ha. revert b. induction Ha as [|x a Hx _ IH]; intros b Hb E; destruct Hb as [|y b Hy Hb]; try done.
  unfold hex_bytes in *. cbn [map concat app] in E. injection E as E1 E2 E3.
  destruct (byte_nibbles x Hx) as (? & ? & Ex), (byte_nibbles y Hy) as (? & ? & Ey).
  apply hex_digit_inj in E1; [|done..]. apply hex_digit_inj in E2; [|done..].
  f_equal; [rewrite Ex, Ey, E1, E2; done|by apply IH].
Qed.

Lemma lower_checksum hash digits : forall i, Forall is_digit digits -> map lower (checksum hash i digits) = digits.
Proof.
  induction digits as [|c digits IH]; intros i Hd; [done|]. apply Forall_cons in Hd as [Hc Hd].
  cbn [checksum map]. rewrite IH by done. f_equal. unfold lower, is_digit in *.
  case_bool_decide; case_bool_decide; lia.
Qed.

Lemma Address_Hex_inj `{Keccak} a b : bytes_ok a -> bytes_ok b -> Address_Hex a = Address_Hex b -> a = b.
Proof.
  intros Ha Hb E. unfold Address_Hex in E. injection E as E. apply (f_equal (map lower)) in E.
  rewrite !lower_checksum in E by by apply hex_bytes_digits. by apply hex_bytes_inj.
Qed.

(** ** Headers *)

(** [Header]; a nil pointer is [None]. *)
Record Header := mkHeader {
  ParentHash : list Z;
  UncleHash : list Z;
  Validator : list Z;
  Coinbase : list Z;
  h_Root : list Z;
  TxHash : list Z;
  ReceiptHash : list Z;
  h_DposContext : option DposContextProto;
  Bloom : list Z;
  Difficulty : option Z;
  Number : option Z;
  GasLimit : Z;
  GasUsed : Z;
  Time : option Z;
  Extra : list Z;
  MixDigest : list Z;
  Nonce : list Z;
  MaxValidatorSize : Z;
  BlockInterval : Z
}.

Definition BloomByteLength : nat := 256.
Definition NonceLength : nat := 8.

Definition t_Hash : rtype := TByteArray HashLength.
Definition t_Address : rtype := TByteArray AddressLength.
Definition t_Proto : rtype := TStruct (replicate 5 t_Hash).

(** What the encoder sees of the type [*Header]. *)
Definition t_Header : rtype :=
  TPtr (TStruct [t_Hash; t_Hash; t_Address; t_Address; t_Hash; t_Hash; t_Hash; TPtr t_Proto;
                 TByteArray BloomByteLength; TBigInt; TBigInt; TUint 64; TUint 64; TBigInt; TBytes;
                 t_Hash; TByteArray NonceLength; TUint 64; TUint 64]).

Definition proto_rval (p : DposContextProto) : rval :=
  VList (map VBytes [EpochHash p; DelegateHash p; CandidateHash p; VoteHash p; MintCntHash p]).

Definition header_rval (h : Header) : rval :=
  VPtr (VList [VBytes (ParentHash h); VBytes (UncleHash h); VBytes (Validator h); VBytes (Coinbase h);
               VBytes (h_Root h); VBytes (TxHash h); VBytes (ReceiptHash h);
               match h_DposContext h with Some p => VPtr (proto_rval p) | None => VNil end;
               VBytes (Bloom h); VBigInt (Difficulty h); VBigInt (Number h); VUint (GasLimit h); VUint (GasUsed h);
               VBigInt (Time h); VBytes (Extra h); VBytes (MixDigest h); VBytes (Nonce h);
               VUint (MaxValidatorSize h); VUint (BlockInterval h)]).

(** [CopyHeader] *)
Definition zero_proto : DposContextProto := mkProto emptyHash emptyHash emptyHash emptyHash emptyHash.

Definition CopyHeader (h : Header) : Header :=
  mkHeader (ParentHash h) (UncleHash h) (Validator h) (Coinbase h) (h_Root h) (TxHash h) (ReceiptHash h)
    (Some (default zero_proto (h_DposContext h))) (Bloom h) (Some (default 0 (Difficulty h)))
    (Some (default 0 (Number h))) (GasLimit h) (GasUsed h) (Some (default 0 (Time h))) (Extra h) (MixDigest h)
    (Nonce h) (MaxValidatorSize h) (BlockInterval h).

Section hashes.
Context `{Keccak}.

(** [rlpHash]; an encoding error writes nothing. *)
Definition rlpHash (t : rtype) (v : rval) : list Z :=
  keccak256 (match Encode t v with Ok b => b | _ => [] end).

(** [Header.Hash] *)
Definition Header_Hash (h : Header) : list Z := rlpHash t_Header (header_rval h).

(** [Header.HashNoNonce] *)
Definition HashNoNonce (h : Header) : list Z :=
  rlpHash (TSlice TInterface) (VList (map (fun p => VIface p.1 p.2)
    [(t_Hash, VBytes (ParentHash h)); (t_Hash, VBytes (UncleHash h)); (t_Address, VBytes (Validator h));
     (t_Address, VBytes (Coinbase h)); (t_Hash, VBytes (h_Root h)); (t_Hash, VBytes (TxHash h));
     (t_Hash, VBytes (ReceiptHash h)); (TByteArray BloomByteLength, VBytes (Bloom h));
     (TBigInt, VBigInt (Difficulty h)); (TBigInt, VBigInt (Number h)); (TUint 64, VUint (GasLimit h));
     (TUint 64, VUint (GasUsed h)); (TBigInt, VBigInt (Time h)); (TBytes, VBytes (Extra h))])).

(** The elements [sigHash] encodes. *)
Definition sig_fields (h : Header) (extra root : list Z) : list (rtype * rval) :=
  [(t_Hash, VBytes (ParentHash h)); (t_Hash, VBytes (UncleHash h)); (t_Address, VBytes (Validator h));
   (t_Address, VBytes (Coinbase h)); (t_Hash, VBytes (h_Root h)); (t_Hash, VBytes (TxHash h));
   (t_Hash, VBytes (ReceiptHash h)); (TByteArray BloomByteLength, VBytes (Bloom h));
   (TBigInt, VBigInt (Difficulty h)); (TBigInt, VBigInt (Number h)); (TUint 64, VUint (GasLimit h));
   (TUint 64, VUint (GasUsed h)); (TBigInt, VBigInt (Time h)); (TBytes, VBytes extra);
   (t_Hash, VBytes (MixDigest h)); (TByteArray NonceLength, VBytes (Nonce h));
   (t_Hash, VBytes root); (TUint 64, VUint (MaxValidatorSize h))].

(** [sigHash]: panics when the extra data is shorter than a signature, or the
    context is nil. *)
Definition sigHash {E} (h : Header) : outcome E (list Z) :=
  if bool_decide (Z.of_nat (length (Extra h)) < 65) then Panic
  else
    p ← or_panic (h_DposContext h);
    Ok (rlpHash (TSlice TInterface) (VList (map (fun p => VIface p.1 p.2)
          (sig_fields h (take (length (Extra h) - 65) (Extra h)) (Proto_Root p))))).
End hashes.

(** ** Hashes commit to their fields *)

Lemma Ok_inj {E A} (a b : A) : Ok (E := E) a = Ok b -> a = b.
Proof. by intros [=]. Qed.

Lemma rlpHash_item `{Keccak} t v it :
  item_of v t = Some it -> Z.of_nat (length (encode_item it)) < 2 ^ 64 -> rlpHash t v = keccak256 (encode_item it).
Proof. intros Hi Hl. unfold rlpHash. by destruct (encode_ok v t it Hi Hl) as [_ ->]. Qed.

Lemma keccak_item_inj `{Keccak} i j :
  Z.of_nat (length (encode_item i)) < 2 ^ 64 -> no_collision [encode_item i] [encode_item j] ->
  keccak256 (encode_item i) = keccak256 (encode_item j) -> i = j.
Proof. intros Hl Hnc E. apply encode_item_inj; [done|]. apply Hnc; [by left..|done]. Qed.

Lemma big_bytes_inj x y : 0 <= x -> 0 <= y -> big_bytes x = big_bytes y -> x = y.
Proof. intros Hx Hy E. rewrite <- (be_uint_big_bytes x), <- (be_uint_big_bytes y), E by done. done. Qed.

Definition in_uint64 (z : Z) : Prop := 0 <= z < 2 ^ 64.

(** The numbers of a header are in range. *)
Record header_ok (h : Header) : Prop := {
  ok_difficulty : 0 <= default 0 (Difficulty h);
  ok_number : 0 <= default 0 (Number h);
  ok_time : 0 <= default 0 (Time h);
  ok_gaslimit : in_uint64 (GasLimit h);
  ok_gasused : in_uint64 (GasUsed h);
  ok_maxvalidator : in_uint64 (MaxValidatorSize h);
  ok_interval : in_uint64 (BlockInterval h)
}.

Definition big_item (z : option Z) : item := Str (big_bytes (default 0 z)).

Lemma big_item_of z : 0 <= default 0 z -> item_of (VBigInt z) TBigInt = Some (big_item z).
Proof. destruct z as [z|]; simpl; intros Hz; [by rewrite bool_decide_true|done]. Qed.

Lemma uint_item_of z : in_uint64 z -> item_of (VUint z) (TUint 64) = Some (Str (big_bytes z)).
Proof. intros Hz. simpl. by rewrite bool_decide_true. Qed.

Definition proto_item (p : option DposContextProto) : item :=
  match p with
  | Some p => Lst (map Str [EpochHash p; DelegateHash p; CandidateHash p; VoteHash p; MintCntHash p])
  | None => Lst []
  end.

Definition header_item (h : Header) : item :=
  Lst [Str (ParentHash h); Str (UncleHash h); Str (Validator h); Str (Coinbase h); Str (h_Root h); Str (TxHash h);
       Str (ReceiptHash h); proto_item (h_DposContext h); Str (Bloom h); big_item (Difficulty h); big_item (Number h);
       Str (big_bytes (GasLimit h)); Str (big_bytes (GasUsed h)); big_item (Time h); Str (Extra h);
       Str (MixDigest h); Str (Nonce h); Str (big_bytes (MaxValidatorSize h)); Str (big_bytes (BlockInterval h))].

Lemma struct_item_of l fs its :
  length l = length fs -> seq_items (zip l fs) = Some its -> item_of (VList l) (TStruct fs) = Some (Lst its).
Proof.
  intros Hl Hi. cbn [item_of].
  enough ((fix go l fs : option (list item) :=
            match l, fs with
            | v :: l, t :: fs => i ← item_of v t; its ← go l fs; Some (i :: its)
            | [], [] => Some []
            | _, _ => None
            end) l fs = Some its) as -> by done.
  revert fs its Hl Hi. induction l as [|v l IH]; intros [|t fs] its Hl Hi; simplify_eq/=; [done|].
  apply bind_Some in Hi as (i & -> & (its' & El & E)%bind_Some). simplify_eq/=. by rewrite (IH fs its').
Qed.

Lemma proto_item_of p :
  item_of (match p with Some p => VPtr (proto_rval p) | None => VNil end) (TPtr t_Proto) = Some (proto_item p).
Proof. by destruct p as [[]|]. Qed.

Lemma header_item_of h : header_ok h -> item_of (header_rval h) t_Header = Some (header_item h).
Proof.
  intros [H1 H2 H3 H4 H5 H6 H7]. change (item_of (header_rval h) t_Header) with
    (match header_rval h, t_Header with VPtr v, TPtr t => item_of v t | _, _ => None end).
  cbn [header_rval t_Header]. apply struct_item_of; [done|]. cbn [zip_with zip seq_items].
  rewrite proto_item_of, !big_item_of, !uint_item_of by done. done.
Qed.

Lemma Header_Hash_inj `{Keccak} h1 h2 :
  header_ok h1 -> header_ok h2 ->
  Z.of_nat (length (encode_item (header_item h1))) < 2 ^ 64 ->
  Z.of_nat (length (encode_item (header_item h2))) < 2 ^ 64 ->
  no_collision [encode_item (header_item h1)] [encode_item (header_item h2)] ->
  Header_Hash h1 = Header_Hash h2 ->
  CopyHeader h1 = CopyHeader h2 /\ (h_DposContext h1 = None <-> h_DposContext h2 = None).
Proof.
  intros O1 O2 L1 L2 Hnc E. unfold Header_Hash in E. rewrite (rlpHash_item _ _ _ (header_item_of h1 O1)), (rlpHash_item _ _ _ (header_item_of h2 O2)) in E by done.
  apply keccak_item_inj in E; [|done..].
  destruct O1, O2, h1 as [? ? ? ? ? ? ? p1], h2 as [? ? ? ? ? ? ? p2]. unfold CopyHeader, in_uint64 in *.
  simpl in *. unfold big_item in E. simplify_eq.
  repeat match goal with E : big_bytes _ = big_bytes _ |- _ => apply big_bytes_inj in E; [|lia..] end.
  destruct p1 as [[]|], p2 as [[]|]; simplify_eq/=; split; try done; congruence.
Qed.

(** Two headers with the same hash have the same content, once nil
    integers are read as zero, unless the hash function collides on their two
    encodings. *)
Theorem header_hash_binding `{Keccak} h1 h2 :
  header_ok h1 -> header_ok h2 ->
  Z.of_nat (length (encode_item (header_item h1))) < 2 ^ 64 ->
  Z.of_nat (length (encode_item (header_item h2))) < 2 ^ 64 ->
  no_collision [encode_item (header_item h1)] [encode_item (header_item h2)] ->
  Header_Hash h1 = Header_Hash h2 ->
  CopyHeader h1 = CopyHeader h2 /\ (h_DposContext h1 = None <-> h_DposContext h2 = None).
Proof. apply Header_Hash_inj. Qed.

Lemma header_hash_binding_witness :
  let h := mkHeader emptyHash emptyHash (addr 1) (addr 1) emptyRoot emptyRoot emptyRoot (Some zero_proto)
             (zeroes 256) (Some 1) (Some 7) 4712388 0 None (zeroes 97) emptyHash (zeroes 8) 3 10 in
  let h' := mkHeader emptyHash emptyHash (addr 1) (addr 1) emptyRoot emptyRoot emptyRoot (Some zero_proto)
             (zeroes 256) (Some 1) (Some 7) 4712388 0 (Some 0) (zeroes 97) emptyHash (zeroes 8) 3 10 in
  CopyHeader h = CopyHeader h' /\ (h_DposContext h = None <-> h_DposContext h' = None).
Proof.
  intros h h'. apply (@header_hash_binding sha3_keccak h h').
  1,2: constructor; unfold in_uint64; simpl; lia.
  1,2: vm_compute; done.
  - intros x y. rewrite !list_elem_of_singleton. intros -> -> _. reflexivity.
  - reflexivity.
Defined.

(** ** The signed content *)

(** The header without its signature and its block interval. *)
Definition unsigned (h : Header) : Header :=
  let c := CopyHeader h in
  mkHeader (ParentHash c) (UncleHash c) (Validator c) (Coinbase c) (h_Root c) (TxHash c) (ReceiptHash c)
    (h_DposContext c) (Bloom c) (Difficulty c) (Number c) (GasLimit c) (GasUsed c) (Time c)
    (take (length (Extra c) - 65) (Extra c)) (MixDigest c) (Nonce c) (MaxValidatorSize c) 0.

Definition sig_item (h : Header) (root : list Z) : item :=
  Lst [Str (ParentHash h); Str (UncleHash h); Str (Validator h); Str (Coinbase h); Str (h_Root h); Str (TxHash h);
       Str (ReceiptHash h); Str (Bloom h); big_item (Difficulty h); big_item (Number h);
       Str (big_bytes (GasLimit h)); Str (big_bytes (GasUsed h)); big_item (Time h); Str (Extra h);
       Str (MixDigest h); Str (Nonce h); Str root; Str (big_bytes (MaxValidatorSize h))].

Lemma iface_items l its :
  seq_items (map (fun p => (p.2, p.1)) l) = Some its ->
  item_of (VList (map (fun p => VIface p.1 p.2) l)) (TSlice TInterface) = Some (Lst its).
Proof.
  intros Hi. rewrite item_of_slice.
  assert (seq_items (map (fun v => (v, TInterface)) (map (fun p => VIface p.1 p.2) l)) = Some its) as ->; [|done].
  revert its Hi. induction l as [|[t v] l IH]; intros its Hi; [done|]. simpl in Hi.
  apply bind_Some in Hi as (i & Ei & (its' & El & E)%bind_Some). simplify_eq.
  cbn [map seq_items item_of fst snd]. rewrite Ei. simpl. by rewrite (IH its').
Qed.

Section signing.
Context `{Keccak}.

Lemma sig_item_of h extra root :
  header_ok h ->
  item_of (VList (map (fun p => VIface p.1 p.2) (sig_fields h extra root))) (TSlice TInterface) =
  Some (Lst [Str (ParentHash h); Str (UncleHash h); Str (Validator h); Str (Coinbase h); Str (h_Root h); Str (TxHash h);
       Str (ReceiptHash h); Str (Bloom h); big_item (Difficulty h); big_item (Number h);
       Str (big_bytes (GasLimit h)); Str (big_bytes (GasUsed h)); big_item (Time h); Str extra;
       Str (MixDigest h); Str (Nonce h); Str root; Str (big_bytes (MaxValidatorSize h))]).
Proof.
  intros [H1 H2 H3 H4 H5 H6 H7]. apply iface_items. cbn [sig_fields map fst snd seq_items].
  rewrite !big_item_of, !uint_item_of by done. done.
Qed.

(** [sigHash] hashes the unsigned part, with the context by its root. *)
Lemma sigHash_spec {E} h p :
  header_ok h -> h_DposContext h = Some p -> 65 <= Z.of_nat (length (Extra h)) ->
  Z.of_nat (length (encode_item (sig_item (unsigned h) (Proto_Root p)))) < 2 ^ 64 ->
  sigHash (E := E) h = Ok (keccak256 (encode_item (sig_item (unsigned h) (Proto_Root p)))).
Proof.
  intros Hok Hp He Hl. unfold sigHash. rewrite bool_decide_false by lia. rewrite Hp. cbn [or_panic mbind outcome_bind].
  f_equal. apply rlpHash_item; [|done]. by rewrite sig_item_of.
Qed.

(** The headers a signature is checked on. *)
Definition signable (h : Header) : Prop :=
  header_ok h /\ 65 <= Z.of_nat (length (Extra h)) /\
  exists p, h_DposContext h = Some p /\ proto_ok p /\
    Z.of_nat (length (encode_item (sig_item (unsigned h) (Proto_Root p)))) < 2 ^ 64.

(** What is hashed to sign a header: the unsigned part, and the trie roots of
    its context. *)
Definition sig_bytes (h : Header) : list Z :=
  encode_item (sig_item (unsigned h) (Proto_Root (default zero_proto (h_DposContext h)))).
Definition ctx_bytes (h : Header) : list Z := proto_bytes (default zero_proto (h_DposContext h)).

(** A signature covers exactly the header without the trailing 65
    bytes of extra data and without the block interval: headers that agree on
    the rest have the same signing hash, and headers with the same signing hash
    agree on the rest, unless the hash function collides on what is hashed.  The interval, by which slots and
    epochs are computed, can be changed under a valid signature. *)
Theorem sighash_covers h1 h2 :
  signable h1 -> signable h2 -> no_collision [sig_bytes h1] [sig_bytes h2] ->
  no_collision [ctx_bytes h1] [ctx_bytes h2] ->
  (unsigned h1 = unsigned h2 -> sigHash (E := Empty_set) h1 = sigHash h2) /\
  (sigHash (E := Empty_set) h1 = sigHash h2 -> unsigned h1 = unsigned h2).
Proof.
  intros (O1 & L1 & p1 & P1 & Q1 & B1) (O2 & L2 & p2 & P2 & Q2 & B2). unfold sig_bytes, ctx_bytes. rewrite P1, P2.
  intros Hs Hc.
  rewrite (sigHash_spec h1 p1), (sigHash_spec h2 p2) by done. split.
  - intros E. rewrite E in *. assert (p1 = p2) as ->; [|done].
    apply (f_equal h_DposContext) in E. simpl in E. rewrite P1, P2 in E. by simplify_eq/=.
  - intros E%Ok_inj. apply keccak_item_inj in E; [|done|done].
    assert (Proto_Root p1 = Proto_Root p2) as Er by by simplify_eq/=.
    apply Proto_Root_inj in Er as ->; [|done..].
    destruct O1, O2, h1, h2. unfold unsigned, in_uint64, CopyHeader, big_item, sig_item in *. simpl in *. simplify_eq/=.
    repeat match goal with E : big_bytes _ = big_bytes _ |- _ => apply big_bytes_inj in E; [|lia..] end.
    congruence.
Qed.
End signing.

(** The same signature under two block intervals. *)
Lemma sighash_covers_witness :
  let h i := mkHeader emptyHash emptyHash (addr 1) (addr 1) emptyRoot emptyRoot emptyRoot (Some zero_proto)
               (zeroes 256) (Some 1) (Some 7) 4712388 0 (Some 600) (zeroes 97) emptyHash (zeroes 8) 3 i in
  @sigHash sha3_keccak Empty_set (h 10) = @sigHash sha3_keccak Empty_set (h 1).
Proof.
  intros h.
  assert (forall i, 0 <= i < 2 ^ 64 -> @signable sha3_keccak (h i)) as Hs.
  { intros i Hi. split; [constructor; unfold in_uint64; simpl; lia|]. split; [done|]. exists zero_proto.
    split; [done|]. split; [apply (bool_decide_unpack (proto_ok zero_proto)); vm_compute; done|]. vm_compute. done. }
  apply (@sighash_covers sha3_keccak (h 10) (h 1)); [apply Hs; lia|apply Hs; lia|..|reflexivity].
  all: intros x y; rewrite !list_elem_of_singleton; intros -> -> _; reflexivity.
Defined.
