(* ===== verification/EpochContext.v ===== *)
(** * Elections ([src/consensus/dpos/epoch_context.go], [tryElect] of
      [src/consensus/dpos/api.go])

    Counting the votes, removing validators that minted too few blocks, the
    validator of a slot, and the election at the start of an epoch.  The balances
    are the function [bal] ([StateDB.GetBalance]); [timeOfFirstBlock] is an
    argument; the pseudo-random generator of [math/rand] is the class [Rand].

    [count_votes_stake]: votes are the stake of the delegators when the delegation
    trie has no prefix; [count_votes_prefixed]: all votes are zero on the tries
    the constructors open.  [lookup_round_robin]: the slots of an epoch go around
    the validators.  [kickout_keeps_safe]: removal stops at the safe size.
    [elect_top]: an election stores a permutation of the best candidates. *)

From S2P Require Import Prelude Common TrieEncoding Trie TrieSpec TrieMap.
From S2P Require Import TrieCanon Rlp Sha3 TrieHash TrieMerkle TrieIter.
From S2P Require Import TrieIterSpec RlpRaw RlpStream DposContext Header.

(** The election period of [dpos.go]. *)
Definition epochInterval : Z := 60.

(** Signed 64-bit division, which truncates and panics on zero. *)
Definition div64 {S E} (a b : Z) : SM S E Z := if bool_decide (b = 0) then panic else mret (i64 (Z.quot a b)).
Definition rem64 {S E} (a b : Z) : SM S E Z := if bool_decide (b = 0) then panic else mret (Z.rem a b).

(** [binary.BigEndian.PutUint64] and [Uint64] *)
Definition PutUint64 (z : Z) : list Z := be_bytes 8 (u64 z).
Definition Uint64 {S E} (b : list Z) : SM S E Z := if (length b <? 8)%nat then panic else mret (be_uint (take 8 b)).

(** [math/rand]: a generator made from a seed; [Int31n n] is below [n]. *)
Class Rand := {
  rng : Type;
  NewSource : Z -> rng;
  Int31n : rng -> Z -> Z * rng;
  Int31n_range r n : 0 < n -> 0 <= (Int31n r n).1 < n
}.

(** ** Sorting *)

(** [sortableAddress] and [sortableAddresses.Less] *)
Abbreviation sortableAddress := (list Z * Z)%type.

Definition Less `{Keccak} (p q : sortableAddress) : bool :=
  if bool_decide (p.2 < q.2) then false
  else if bool_decide (q.2 < p.2) then true
  else match bytes_compare (Address_Hex p.1) (Address_Hex q.1) with Lt => true | _ => false end.

(** [sort.Sort]: the order is total on different elements, so every sorting
    algorithm gives the result of this one ([sort_unique]). *)
Fixpoint sort_insert (less : sortableAddress -> sortableAddress -> bool) (x : sortableAddress)
  (l : list sortableAddress) : list sortableAddress :=
  match l with
  | [] => [x]
  | y :: l' => if less y x then y :: sort_insert less x l' else x :: l
  end.

Definition sort_Sort (less : sortableAddress -> sortableAddress -> bool) (l : list sortableAddress)
  : list sortableAddress := fold_right (sort_insert less) [] l.

(** [sort.Reverse] *)
Definition Reverse (less : sortableAddress -> sortableAddress -> bool) (p q : sortableAddress) : bool := less q p.

(** ** Shuffling *)

Definition swap {A} (i j : nat) (l : list A) : option (list A) :=
  match l !! i, l !! j with
  | Some x, Some y => Some (<[j := x]> (<[i := y]> l))
  | _, _ => None
  end.

(** The loop [for i := len - 1; i > 0; i--] of [tryElect]. *)
Fixpoint shuffle `{Rand} {A} (i : nat) (r : rng) (l : list A) : option (list A) :=
  match i with
  | O => Some l
  | S i' =>
      let '(j, r) := Int31n r (Z.of_nat i + 1) in
      l ← swap i (Z.to_nat j) l;
      shuffle i' r l
  end.

Section epoch_context.
Context `{Keccak, Rand} (dbnode : list Z -> Z -> option node) (bal : list Z -> Z).

(** [Trie.NodeIterator] *)
Definition node_iterator (fuel : nat) (start : list Z) (t : Trie) : outcome trie_error (NodeIterator * Trie) :=
  '(it, t) ← newNodeIterator dbnode fuel t start;
  Ok (PlainIt it, t).

(** [EpochContext.countVotes]: the flags tell whether a loop ran at all. *)
Definition count_candidate (fuel : nat) (candidate : list Z) (votes : gmap (list Z) Z) : DM (gmap (list Z) Z) :=
  let candidateAddr := BytesToAddress candidate in
  delegateIterator ← on_trie FDelegate (fun t => PrefixIterator dbnode fuel t candidate);
  '(existDelegator, votes) ← for_fold dbnode ETrie fuel delegateIterator (fun _ delegator '(_, votes) =>
      let score := default 0 (votes !! candidateAddr) in
      let weight := bal (BytesToAddress delegator) in
      mret (true, <[candidateAddr := score + weight]> votes)) (false, votes);
  mret (if existDelegator : bool then votes else <[candidateAddr := 0]> votes).

Definition countVotes (fuel : nat) : DM (gmap (list Z) Z) :=
  iterCandidate ← on_trie FCandidate (node_iterator fuel []);
  '(existCandidate, votes) ← for_fold dbnode ETrie fuel iterCandidate (fun _ candidate '(_, votes) =>
      votes ← count_candidate fuel candidate votes;
      mret (true, votes)) (false, ∅);
  if existCandidate : bool then mret votes else throw (EMsg "no candidates").

(** ** Removing idle validators *)

(** The first loop of [kickoutValidator]. *)
Fixpoint idle_validators (epoch epochDuration blockInterval maxValidatorSize : Z) (validators : list (list Z))
  : DM (list sortableAddress) :=
  match validators with
  | [] => mret []
  | validator :: validators =>
      cntBytes ← on_trie FMintCnt (fun t => Get dbnode t (PutUint64 epoch ++ validator));
      cnt ← match cntBytes with Some b => n ← Uint64 b; mret (i64 n) | None => mret 0 end;
      q ← div64 epochDuration (i64 blockInterval);
      q ← div64 q (i64 maxValidatorSize);
      q ← div64 q 2;
      rest ← idle_validators epoch epochDuration blockInterval maxValidatorSize validators;
      mret (if bool_decide (cnt < q) then (validator, cnt) :: rest else rest)
  end.

(** The second loop: counting stops at [limit], through the error result. *)
Definition count_loop (fuel : nat) (limit : Z) (iter : NodeIterator) : outcome Empty_set Z :=
  match for_iter dbnode (fun _ => 0) fuel iter
          (fun _ _ n => if bool_decide (limit <= n + 1) then Err (n + 1) else Ok (n + 1)) 0 with
  | Ok (n, _) => Ok n
  | Err n => Ok n
  | Panic => Panic
  | OutOfFuel => OutOfFuel
  end.

Definition count_candidates (fuel : nat) (limit : Z) : DM Z :=
  iter ← on_trie FCandidate (node_iterator fuel []);
  pure (fun e : Empty_set => match e with end) (count_loop fuel limit iter).

(** The third loop. *)
Fixpoint kickout_loop (fuel : nat) (safeSize candidateCount : Z) (needKickout : list sortableAddress) : DM unit :=
  match needKickout with
  | [] => mret tt
  | (validator, _) :: needKickout =>
      if bool_decide (candidateCount <= safeSize) then mret tt
      else
        KickoutCandidate dbnode fuel validator ;;
        kickout_loop fuel safeSize (candidateCount - 1) needKickout
  end.

(** [EpochContext.kickoutValidator] *)
Definition kickoutValidator (fuel : nat) (timeStamp timeOfFirstBlock epoch : Z) (genesis : Header) : DM unit :=
  validators ← with_err (EWrap "failed to get validator") (GetValidators dbnode);
  let maxValidatorSize := MaxValidatorSize genesis in
  let safeSize := i64 (u64 (u64 (maxValidatorSize * 2) / 3 + 1)) in
  if bool_decide (validators = []) then throw (EMsg "no validator could be kickout")
  else
    let age := i64 (timeStamp - timeOfFirstBlock) in
    let epochDuration := if bool_decide (age < epochInterval) then age else epochInterval in
    need ← idle_validators epoch epochDuration (BlockInterval genesis) maxValidatorSize validators;
    let needCnt := Z.of_nat (length need) in
    if bool_decide (needCnt <= 0) then mret tt
    else
      let need := sort_Sort (Reverse Less) need in
      candidateCount ← count_candidates fuel (i64 (needCnt + safeSize));
      kickout_loop fuel safeSize candidateCount need.

(** ** The validator of a slot *)

(** [EpochContext.lookupValidator] *)
Definition lookupValidator (now blockInterval : Z) : DM (list Z) :=
  offset ← rem64 now epochInterval;
  r ← rem64 offset (i64 blockInterval);
  if bool_decide (r <> 0) then throw (EMsg "invalid time to mint the block")
  else
    offset ← div64 offset (i64 blockInterval);
    validators ← GetValidators dbnode;
    if bool_decide (validators = []) then throw (EMsg "failed to lookup validator")
    else
      offset ← rem64 offset (Z.of_nat (length validators));
      if bool_decide (offset < 0) then panic else must (validators !! Z.to_nat offset).

(** ** Elections *)

(** The election of one epoch: the body of the loop in [tryElect] after the
    removal of idle validators. *)
Definition elect (fuel : nat) (genesisMax : Z) (parentHash : list Z) (i : Z) : DM unit :=
  votes ← countVotes fuel;
  let maxValidatorSize := i64 genesisMax in
  let safeSize := i64 (Z.quot (i64 (maxValidatorSize * 2)) 3 + 1) in
  let candidates := map_to_list votes in
  if bool_decide (Z.of_nat (length candidates) < safeSize) then throw (EMsg "too few candidates")
  else
    let candidates := sort_Sort Less candidates in
    candidates ←
      (if bool_decide (maxValidatorSize < Z.of_nat (length candidates))
       then if bool_decide (maxValidatorSize < 0) then panic else mret (take (Z.to_nat maxValidatorSize) candidates)
       else mret candidates);
    digest ← pure (fun e : Empty_set => match e with end) (Keccak512 [parentHash]);
    let seed := i64 (be_uint (rev (take 4 digest)) + i) in
    candidates ← must (shuffle (length candidates - 1) (NewSource seed) candidates);
    db ← gets has_db;
    on_trie_ FEpoch (fun _ => NewEpochTrie dbnode db emptyHash) tt ;;
    handle (SetValidators dbnode (map fst candidates)) (fun _ => mret tt).

(** The loop over the epochs, with the iterator over the mint counts. *)
Fixpoint elect_loop (n : nat) (fuel : nat) (timeStamp timeOfFirstBlock : Z) (genesis : Header) (parentHash : list Z)
  (prevEpochIsGenesis : bool) (prevEpoch i : Z) (iter : NodeIterator) : DM unit :=
  match n with
  | O => mret tt
  | S n =>
      iter ←
        (if prevEpochIsGenesis then mret iter
         else
           '(r, iter) ← pure ETrie (Iterator_Next dbnode fuel iter);
           match r with
           | Some _ => kickoutValidator fuel timeStamp timeOfFirstBlock prevEpoch genesis ;; mret iter
           | None => mret iter
           end);
      elect fuel (MaxValidatorSize genesis) parentHash i ;;
      elect_loop n fuel timeStamp timeOfFirstBlock genesis parentHash prevEpochIsGenesis prevEpoch (i + 1) iter
  end.

(** [EpochContext.tryElect] *)
Definition tryElect (fuel : nat) (timeStamp timeOfFirstBlock : Z) (genesis parent : Header) : DM unit :=
  genesisTime ← must (Time genesis);
  parentTime ← must (Time parent);
  let genesisEpoch := Z.quot (i64 genesisTime) epochInterval in
  let prevEpoch := Z.quot (i64 parentTime) epochInterval in
  let currentEpoch := Z.quot timeStamp epochInterval in
  let prevEpochIsGenesis := bool_decide (prevEpoch = genesisEpoch) in
  let prevEpoch := if prevEpochIsGenesis && bool_decide (prevEpoch < currentEpoch) then currentEpoch - 1 else prevEpoch in
  iter ← on_trie FMintCnt (fun t => PrefixIterator dbnode fuel t (PutUint64 prevEpoch));
  elect_loop (Z.to_nat (currentEpoch - prevEpoch)) fuel timeStamp timeOfFirstBlock genesis (Header_Hash parent)
    prevEpochIsGenesis prevEpoch prevEpoch iter.
End epoch_context.

(** ** Sorting is determined by the order *)

Section sorting.
Context (less : sortableAddress -> sortableAddress -> bool) (dom : sortableAddress -> Prop).
Context (less_irrefl : forall x, less x x = false).
Context (less_trans : forall x y z, less x y = true -> less y z = true -> less x z = true).
Context (less_total : forall x y, dom x -> dom y -> x = y \/ less x y = true \/ less y x = true).

(** No element comes before one that is less. *)
Definition le_of (x y : sortableAddress) : Prop := less y x = false.

Lemma sort_insert_perm x l : sort_insert less x l ≡ₚ x :: l.
Proof.
  induction l as [|y l IH]; [done|]. simpl. case_match; [|done]. by rewrite IH, Permutation_swap.
Qed.

Lemma sort_perm l : sort_Sort less l ≡ₚ l.
Proof. induction l as [|x l IH]; [done|]. simpl. by rewrite sort_insert_perm, IH. Qed.

Lemma le_of_trans x y z : dom x -> dom y -> dom z -> le_of x y -> le_of y z -> le_of x z.
Proof.
  unfold le_of. intros Dx Dy Dz Hxy Hyz. destruct (less z x) eqn:E; [|done].
  destruct (less_total x y Dx Dy) as [->|[Hl|Hl]]; [congruence| |congruence].
  by rewrite (less_trans z x y) in Hyz.
Qed.

Lemma sort_insert_sorted x l :
  dom x -> Forall dom l -> StronglySorted le_of l -> StronglySorted le_of (sort_insert less x l).
Proof.
  intros Dx Dl Hs. induction Hs as [|y l Hs IH Hy]; simpl; [repeat constructor|].
  apply Forall_cons in Dl as [Dy Dl]. destruct (less y x) eqn:E.
  - constructor; [by apply IH|]. rewrite sort_insert_perm. constructor; [|done].
    unfold le_of. destruct (less x y) eqn:E'; [|done].
    pose proof (less_irrefl y). pose proof (less_trans y x y E E'). congruence.
  - constructor; [by constructor|]. constructor; [done|].
    rewrite Forall_forall in Hy, Dl |- *. intros z Hz. eapply (le_of_trans x y z); auto.
Qed.

Lemma sort_sorted l : Forall dom l -> StronglySorted le_of (sort_Sort less l).
Proof.
  induction 1 as [|x l Dx Dl IH]; simpl; [constructor|]. apply sort_insert_sorted; [done| |done].
  by rewrite sort_perm.
Qed.

(** Two sorted lists of the same elements are the same list. *)
Lemma sort_unique l1 l2 :
  Forall dom l1 -> l1 ≡ₚ l2 -> StronglySorted le_of l1 -> StronglySorted le_of l2 -> l1 = l2.
Proof.
  intros D1 Hp S1. revert l2 D1 Hp. induction S1 as [|x l1 S1 IH Hx]; intros l2 D1 Hp S2.
  { by apply Permutation_nil_l in Hp. }
  destruct S2 as [|y l2 S2 Hy]; [by apply Permutation_nil_r in Hp|].
  assert (Forall dom (y :: l2)) as D2 by by rewrite <- Hp.
  apply Forall_cons in D1 as [Dx D1], D2 as [Dy D2]. rewrite Forall_forall in Hx, Hy.
  assert (x = y) as ->.
  { assert (x ∈ y :: l2) as [->|Ix]%elem_of_cons by (rewrite <- Hp; by left); [done|].
    assert (y ∈ x :: l1) as [->|Iy]%elem_of_cons by (rewrite Hp; by left); [done|].
    apply Hy in Ix. apply Hx in Iy. unfold le_of in *.
    destruct (less_total x y Dx Dy) as [?|[?|?]]; congruence. }
  f_equal. apply Permutation_cons_inv in Hp. by apply IH.
Qed.

Lemma sort_perm_eq l1 l2 : Forall dom l1 -> l1 ≡ₚ l2 -> sort_Sort less l1 = sort_Sort less l2.
Proof.
  intros D1 Hp. assert (Forall dom l2) as D2 by by rewrite <- Hp.
  apply sort_unique; [by rewrite sort_perm| |by apply sort_sorted..]. by rewrite !sort_perm.
Qed.
End sorting.

(** The order of the candidates: more votes first, then by text. *)
Section candidate_order.
Context `{Keccak}.

Lemma Less_spec p q :
  Less p q = true <-> q.2 < p.2 \/ (p.2 = q.2 /\ path_lt (Address_Hex p.1) (Address_Hex q.1)).
Proof.
  unfold Less. destruct (bool_decide_reflect (p.2 < q.2)); [split; [done|lia]|].
  destruct (bool_decide_reflect (q.2 < p.2)); [split; [by left|done]|].
  unfold path_lt. destruct (bytes_compare _ _); split; try done; try (intros [?|[_ ?]]; [lia|done]).
  intros _. right. split; [lia|done].
Qed.

Lemma Less_irrefl p : Less p p = false.
Proof.
  destruct (Less p p) eqn:E; [|done]. apply Less_spec in E as [?|[_ Hl]]; [lia|]. by apply path_lt_irrefl in Hl.
Qed.

Lemma Less_trans p q r : Less p q = true -> Less q r = true -> Less p r = true.
Proof.
  rewrite !Less_spec. intros [?|[? H1]] [?|[? H2]]; try (left; lia). right. split; [lia|].
  by eapply path_lt_trans.
Qed.

Lemma path_lt_total a b : a = b \/ path_lt a b \/ path_lt b a.
Proof.
  revert b. induction a as [|x a IH]; intros [|y b]; rewrite ?path_lt_cons.
  - by left.
  - right; left. by apply path_lt_nil_l.
  - right; right. by apply path_lt_nil_l.
  - destruct (Z.lt_trichotomy x y) as [?|[->|?]]; [tauto| |tauto]. destruct (IH b) as [->|[?|?]]; tauto.
Qed.

Definition candidate_ok (p : sortableAddress) : Prop := bytes_ok p.1.

Lemma Less_total p q : candidate_ok p -> candidate_ok q -> p = q \/ Less p q = true \/ Less q p = true.
Proof.
  intros Hp Hq. rewrite !Less_spec. destruct (Z.lt_trichotomy p.2 q.2) as [?|[E|?]]; [tauto| |tauto].
  destruct (path_lt_total (Address_Hex p.1) (Address_Hex q.1)) as [Ea|[?|?]]; [left|tauto|].
  - apply Address_Hex_inj in Ea; [|done..]. destruct p, q. simpl in *. by subst.
  - right; right; right. done.
Qed.

Lemma Reverse_total p q : candidate_ok p -> candidate_ok q -> p = q \/ Reverse Less p q = true \/ Reverse Less q p = true.
Proof. intros Hp Hq. unfold Reverse. destruct (Less_total p q Hp Hq) as [?|[?|?]]; tauto. Qed.
End candidate_order.

(** ** Shuffling permutes *)

Lemma swap_perm {A} i j (l : list A) : (i < length l)%nat -> (j < length l)%nat -> exists l', swap i j l = Some l' /\ l' ≡ₚ l.
Proof.
  intros Hi Hj. destruct (lookup_lt_is_Some_2 l i Hi) as [x Ex], (lookup_lt_is_Some_2 l j Hj) as [y Ey].
  unfold swap. rewrite Ex, Ey. eexists. split; [done|]. destruct (decide (i = j)) as [->|Hne].
  - rewrite list_insert_insert_eq. simplify_eq. by rewrite list_insert_id.
  - apply Permutation_inj. split; [by rewrite !length_insert|].
    exists (fun n => if decide (n = i) then j else if decide (n = j) then i else n). split.
    + intros a b. repeat case_decide; naive_solver.
    + intros n. destruct (decide (n = i)) as [->|Hni]; [|destruct (decide (n = j)) as [->|Hnj]].
      * rewrite list_lookup_insert_ne, list_lookup_insert_eq by done. by rewrite Ey.
      * rewrite list_lookup_insert_eq by (by rewrite length_insert). by rewrite Ex.
      * by rewrite !list_lookup_insert_ne by done.
Qed.

Lemma shuffle_perm `{Rand} {A} i : forall r (l : list A),
  (i = 0 \/ i < length l)%nat -> exists l', shuffle i r l = Some l' /\ l' ≡ₚ l.
Proof.
  induction i as [|i IH]; intros r l Hi; [by exists l|]. cbn [shuffle].
  pose proof (Int31n_range r (Z.of_nat (S i) + 1) ltac:(lia)) as Hr.
  destruct (Int31n r (Z.of_nat (S i) + 1)) as [j r']. simpl in Hr.
  destruct (swap_perm (S i) (Z.to_nat j) l) as (l1 & E1 & P1); [lia|lia|]. rewrite E1. simpl.
  destruct (IH r' l1) as (l2 & E2 & P2); [right; rewrite P1; lia|]. exists l2. split; [done|]. by rewrite P2.
Qed.

(** ** Counting *)

Definition sumZ (l : list Z) : Z := fold_right Z.add 0 l.

Lemma sumZ_app l1 l2 : sumZ (l1 ++ l2) = sumZ l1 + sumZ l2.
Proof. induction l1 as [|x l1 IH]; simpl; [done|]. rewrite IH. lia. Qed.

#[global] Instance sumZ_perm : Proper ((≡ₚ) ==> eq) sumZ.
Proof. induction 1; simpl; lia. Qed.

Lemma entries_perm (P : list Z -> Prop) `{!forall k, Decision (P k)} (m : bmap) es :
  is_entries P m es -> es ≡ₚ map_to_list (filter (fun e => P e.1) m).
Proof.
  intros He. pose proof (is_entries_NoDup _ _ _ He) as Hn. destruct He as [_ He].
  apply NoDup_Permutation; [by eapply NoDup_fmap_1|apply NoDup_map_to_list|].
  intros [k v]. by rewrite He, elem_of_map_to_list, map_lookup_filter_Some.
Qed.

Section counting.
Context `{Keccak} (dbnode : list Z -> Z -> option node) (Hdb : db_coherent dbnode) (bal : list Z -> Z).

(** The weight behind the delegations whose key starts with [pfx]. *)
Definition counted (pfx : list Z) (m : bmap) : Z :=
  sumZ ((fun e => bal e.2) <$> map_to_list (filter (fun e => pfx `prefix_of` e.1) m)).

(** One candidate that has no entry yet. *)
Lemma count_loop_ok (c : list Z) (fuel : nat) (ni : NodeIterator) (es : list (list Z * list Z)) (votes : gmap (list Z) Z) (d : DposContext) :
  loops_over dbnode fuel ni es -> Forall (fun e => address_ok e.2) es -> votes !! c = None ->
  for_fold dbnode ETrie fuel ni (fun _ delegator '(_, votes) =>
      mret (true, <[c := default 0 (votes !! c) + bal (BytesToAddress delegator)]> votes)) (false, votes) d
  = Ok (d, inr (if bool_decide (es = []) then (false, votes)
                else (true, <[c := sumZ ((fun e => bal e.2) <$> es)]> votes))).
Proof.
  intros Hl Hes Hc.
  destruct (for_fold_ok dbnode ETrie fuel ni es
    (fun (_ : list Z) delegator '((_, votes) : bool * gmap (list Z) Z) =>
       mret (M := DM) (true, <[c := default 0 (votes !! c) + bal (BytesToAddress delegator)]> votes))
    (fun s acc pre => s = d /\ acc = if bool_decide (pre = []) then (false, votes)
                                     else (true, <[c := sumZ ((fun e => bal e.2) <$> pre)]> votes)) d (false, votes))
    as (s' & acc' & E & -> & ->); [done| |done|done].
  intros pre [k v] post s acc Ees [-> ->]. eexists _, _. split; [|split; [done|done]].
  rewrite (bool_decide_false (pre ++ _ = [])) by (by destruct pre). rewrite fmap_app, sumZ_app. simpl.
  rewrite Ees, Forall_app, Forall_cons in Hes. destruct Hes as (_ & Hv & _). simpl in Hv.
  rewrite BytesToAddress_id by done. case_bool_decide; unfold mret, SM_ret.
  - subst pre. rewrite Hc. simpl. do 5 f_equal. lia.
  - rewrite lookup_insert_eq, insert_insert_eq. simpl. do 5 f_equal. lia.
Qed.

Lemma count_candidate_ok (c : list Z) (votes : gmap (list Z) Z) d a t' N :
  rep dbnode d a -> ballot a -> address_ok c -> votes !! c = None -> bytes_ok (delegation_prefix d c) ->
  sound dbnode t' (mDelegate a) ->
  (forall pfx, bytes_ok (default [] (tprefix (delegateTrie d)) ++ pfx) ->
     exists es, is_entries (fun k => (default [] (tprefix (delegateTrie d)) ++ pfx) `prefix_of` k) (mDelegate a) es /\
       forall fuel, (N <= fuel)%nat -> exists ni,
         PrefixIterator dbnode fuel (delegateTrie d) pfx = Ok (ni, t') /\ loops_over dbnode fuel ni es) ->
  forall fuel, (N <= fuel)%nat ->
    count_candidate dbnode bal fuel c votes d =
    Ok (set_trie FDelegate t' d, inr (<[c := counted (delegation_prefix d c) (mDelegate a)]> votes)).
Proof.
  intros Hr Hb Hc Hv Hp Hs Hit fuel Hf. destruct (Hit c Hp) as (es & Hes & Hl).
  destruct (Hl fuel Hf) as (ni & E & Hloop). unfold count_candidate.
  rewrite (BytesToAddress_id c) by done.
  rewrite (sm_bind_ok _ _ d (set_trie FDelegate t' d) ni) by (unfold on_trie; cbn [get_trie]; by rewrite E).
  assert (Forall (fun e => address_ok e.2) es) as Ha.
  { apply Forall_forall. intros [k v] Hin. destruct Hes as [_ Hes]. apply Hes in Hin as [Hk _].
    apply (ballot_delegate a Hb) in Hk as (x & _ & Hx). by destruct (ballot_vote_ok _ _ _ Hb Hx). }
  rewrite (sm_bind_ok _ _ _ _ _ (count_loop_ok c fuel ni es votes _ Hloop Ha Hv)).
  unfold counted, delegation_prefix. rewrite <- (entries_perm _ _ _ Hes).
  case_bool_decide as He; [subst es|]; done.
Qed.

(** The result of [countVotes]: every candidate with its counted weight. *)
Definition votes_of (d : DposContext) (a : dpos_maps) : gmap (list Z) Z :=
  map_imap (fun c _ => Some (counted (delegation_prefix d c) (mDelegate a))) (mCandidate a).

Lemma votes_of_lookup d a c :
  votes_of d a !! c = (fun _ => counted (delegation_prefix d c) (mDelegate a)) <$> mCandidate a !! c.
Proof. unfold votes_of. rewrite map_lookup_imap. by destruct (mCandidate a !! c). Qed.

(** Building the votes one candidate after the other. *)
Definition add_votes (d : DposContext) (a : dpos_maps) (es : list (list Z * list Z)) : gmap (list Z) Z :=
  fold_left (fun votes e => <[e.2 := counted (delegation_prefix d e.2) (mDelegate a)]> votes) es ∅.

Lemma add_votes_lookup d a es : forall c,
  add_votes d a es !! c =
  if bool_decide (c ∈ es.*2) then Some (counted (delegation_prefix d c) (mDelegate a)) else None.
Proof.
  unfold add_votes. induction es as [|e es IH] using rev_ind; intros c; [done|].
  rewrite fold_left_app. simpl. destruct (decide (c = e.2)) as [->|Hne].
  - rewrite lookup_insert_eq, bool_decide_true; [done|]. rewrite fmap_app. set_solver.
  - rewrite lookup_insert_ne, IH by done. erewrite bool_decide_ext; [done|]. rewrite fmap_app. set_solver.
Qed.

Lemma path_lt_key_nil k : bytes_ok k -> ~ path_lt (keybytesToHex k) (key_nibbles []).
Proof. intros _. apply path_lt_nil_r. Qed.

Lemma candidate_entries a es :
  ballot a -> is_entries (fun k => ~ path_lt (keybytesToHex k) (key_nibbles [])) (mCandidate a) es ->
  NoDup es.*2 /\ forall c, c ∈ es.*2 <-> mCandidate a !! c = Some c /\ address_ok c.
Proof.
  intros Hb He. pose proof (is_entries_NoDup _ _ _ He) as Hn. destruct He as [_ He].
  assert (es.*2 = es.*1) as ->.
  { apply list_fmap_ext. intros i [k v] Hi. apply list_elem_of_lookup_2, He in Hi as [Hk _].
    by apply (ballot_candidate a Hb) in Hk as [-> _]. }
  split; [done|]. intros c. rewrite list_elem_of_fmap. split.
  - intros ([k v] & -> & [Hk _]%He). simpl. by apply (ballot_candidate a Hb) in Hk as H'; destruct H' as [-> ?].
  - intros [Hc Hok]. exists (c, c). split; [done|]. apply He. split; [done|]. apply path_lt_key_nil, Hok.
Qed.

(** The tries the election iterates over can be iterated. *)
Definition iterable (d : DposContext) : Prop :=
  clash_free (candidateTrie d) /\ clash_free (delegateTrie d) /\ bytes_ok (default [] (tprefix (delegateTrie d))).

Definition count_result (d : DposContext) (a : dpos_maps) : dpos_error + gmap (list Z) Z :=
  if bool_decide (mCandidate a = ∅) then inl (EMsg "no candidates") else inr (votes_of d a).

Lemma votes_complete d a es :
  ballot a -> is_entries (fun k => ~ path_lt (keybytesToHex k) (key_nibbles [])) (mCandidate a) es ->
  add_votes d a es = votes_of d a /\ (es = [] <-> mCandidate a = ∅).
Proof.
  intros Hb He. destruct (candidate_entries a es Hb He) as [_ Hin]. split.
  - apply map_eq. intros c. rewrite add_votes_lookup, votes_of_lookup. case_bool_decide as Hc.
    + by apply Hin in Hc as [-> _].
    + destruct (mCandidate a !! c) as [v|] eqn:Ec; [|done]. destruct Hc. apply Hin.
      by destruct (ballot_candidate a Hb _ _ Ec) as [-> ?].
  - split.
    + intros ->. apply map_empty. intros c. destruct (mCandidate a !! c) as [v|] eqn:Ec; [|done].
      destruct (ballot_candidate a Hb _ _ Ec) as [-> Hok]. exfalso. apply (elem_of_nil c), (Hin c). done.
    + intros Hm. destruct es as [|e es]; [done|]. destruct (proj1 (Hin e.2)) as [Hc _]; [by left|].
      by rewrite Hm in Hc.
Qed.

(** The body of the loop over the candidates, from a state whose delegation trie
    is the one of [d] or its hashed form. *)
Lemma count_step_ok d s a td Nd pre (e : list Z * list Z) :
  rep dbnode s a -> ballot a -> address_ok e.2 -> add_votes d a pre !! e.2 = None ->
  bytes_ok (default [] (tprefix (delegateTrie d))) -> tprefix (delegateTrie s) = tprefix (delegateTrie d) ->
  sound dbnode td (mDelegate a) ->
  (forall pfx, let full := default [] (tprefix (delegateTrie d)) ++ pfx in bytes_ok full ->
     exists es, is_entries (fun k => full `prefix_of` k) (mDelegate a) es /\
       forall fuel, (Nd <= fuel)%nat -> exists ni,
         PrefixIterator dbnode fuel (delegateTrie s) pfx = Ok (ni, td) /\ loops_over dbnode fuel ni es) ->
  forall fuel, (Nd <= fuel)%nat ->
    (votes ← count_candidate dbnode bal fuel e.2 (add_votes d a pre); mret (true, votes)) s =
    Ok (set_trie FDelegate td s, inr (true, add_votes d a (pre ++ [e]))).
Proof.
  intros Hr Hb Hok Hnone Hp Hps Hs Hid fuel Hf.
  assert (delegation_prefix s e.2 = delegation_prefix d e.2) as Hdp by (unfold delegation_prefix; by rewrite Hps).
  rewrite (sm_bind_ok _ _ s (set_trie FDelegate td s)
    (<[e.2 := counted (delegation_prefix s e.2) (mDelegate a)]> (add_votes d a pre))).
  - unfold mret, SM_ret. do 4 f_equal. unfold add_votes. rewrite fold_left_app, Hdp. done.
  - apply (count_candidate_ok e.2 _ s a td Nd); try done.
    + rewrite Hdp. apply bytes_ok_app. split; [done|apply Hok].
    + intros pfx Hpfx. rewrite Hps in *. by apply (Hid pfx).
Qed.

Lemma countVotes_ok d a :
  rep dbnode d a -> ballot a -> iterable d ->
  exists d' N, rep dbnode d' a /\ framed d d' /\ iterable d' /\
    forall fuel, (N <= fuel)%nat -> countVotes dbnode bal fuel d = Ok (d', count_result d a).
Proof.
  intros Hr Hb (Hcc & Hcd & Hp).
  destruct (node_iterator_entries dbnode (cachegen (candidateTrie d)) (candidateTrie d) (mCandidate a) [])
    as (es & tc & Nc & Hes & Hsc & Hgc & Hpc & Hcc' & Hic); [apply (Hr FCandidate)|done|done|].
  destruct (prefix_iterator_uniform dbnode (cachegen (delegateTrie d)) (delegateTrie d) (mDelegate a))
    as (td & Nd & Hsd & Hgd & Hpd & Hcd' & Hid); [apply (Hr FDelegate)|done|done|].
  set (d1 := set_trie FCandidate tc d). set (d2 := set_trie FDelegate td d1).
  assert (rep dbnode d1 a) as R1 by (rewrite <- (set_get_map FCandidate a); by apply rep_set).
  assert (rep dbnode d2 a) as R2 by (rewrite <- (set_get_map FDelegate a); by apply rep_set).
  assert (framed d d1) as F1 by by apply framed_set.
  assert (framed d d2) as F2 by (eapply framed_trans; [done|by apply framed_set]).
  destruct (votes_complete d a es Hb Hes) as [Hvotes Hempty].
  destruct (candidate_entries a es Hb Hes) as [Hnd Hin].
  exists (if bool_decide (es = []) then d1 else d2), (Nc `max` Nd)%nat. split_and!.
  - by case_bool_decide.
  - by case_bool_decide.
  - unfold iterable. case_bool_decide; simpl; [done|]. rewrite Hpd. done.
  - intros fuel Hf. destruct (Hic fuel ltac:(lia)) as (it & Ei & Hl0). pose proof (Hl0 fuel ltac:(lia)) as Hl. unfold countVotes.
    rewrite (sm_bind_ok _ _ d d1 (PlainIt it)).
    2:{ unfold on_trie, node_iterator. cbn [get_trie]. by rewrite Ei. }
    edestruct (for_fold_ok dbnode ETrie fuel (PlainIt it) es
      (fun _ candidate '((_, votes) : bool * gmap (list Z) Z) =>
         votes ← count_candidate dbnode bal fuel candidate votes; mret (true, votes))
      (fun s acc pre => s = (if bool_decide (pre = []) then d1 else d2) /\
         acc = (negb (bool_decide (pre = [])), add_votes d a pre)) d1 (false, ∅))
      as (s' & acc' & E & -> & ->); [done| |done|].
    2:{ rewrite (sm_bind_ok _ _ _ _ _ E). unfold count_result. rewrite Hvotes.
        rewrite (bool_decide_ext _ _ Hempty). by destruct (bool_decide (mCandidate a = ∅)). }
    intros pre e post s acc Ees [-> ->].
    assert (mCandidate a !! e.2 = Some e.2 /\ address_ok e.2) as [He Hok] by (apply Hin; rewrite Ees, fmap_app; set_solver).
    assert (add_votes d a pre !! e.2 = None) as Hnone.
    { rewrite add_votes_lookup, bool_decide_false; [done|]. rewrite Ees, fmap_app, fmap_cons, NoDup_app in Hnd.
      intros Hx. destruct Hnd as (_ & Hnd & _). apply (Hnd _ Hx). by left. }
    exists d2, (true, add_votes d a (pre ++ [e])). split.
    2:{ split; [by rewrite bool_decide_false by (by destruct pre)|]. f_equal. by destruct pre. }
    set (s := if bool_decide (pre = []) then d1 else d2).
    replace d2 with (set_trie FDelegate td s) by (unfold s; by case_bool_decide).
    assert (delegateTrie s = delegateTrie d \/ delegateTrie s = td) as Hs by (unfold s; case_bool_decide; auto).
    apply (count_step_ok d s a td Nd pre e); try done; [by unfold s; case_bool_decide|by destruct Hs as [->| ->]| |lia].
    intros pfx full Hfull. destruct (Hid (delegateTrie s) pfx Hs Hfull) as (es' & He' & Hn'). exists es'. split; [done|].
    intros fuel' Hf'. destruct (Hn' fuel' Hf') as (ni & En & Hln). eauto.
Qed.

(** The stake behind a candidate: the balances of those who vote for it. *)
Definition stake (c : list Z) (a : dpos_maps) : Z :=
  sumZ ((fun e => bal e.1) <$> map_to_list (filter (fun e => e.2 = c) (mVote a))).

Lemma delegators_perm c a :
  ballot a -> address_ok c ->
  (map_to_list (filter (fun e => c `prefix_of` e.1) (mDelegate a))).*2 ≡ₚ
  (map_to_list (filter (fun e => e.2 = c) (mVote a))).*1.
Proof.
  intros Hb Hc.
  assert (forall k v, (k, v) ∈ map_to_list (filter (fun e => c `prefix_of` e.1) (mDelegate a)) <->
    k = c ++ v /\ mVote a !! v = Some c) as Hin.
  { intros k v. rewrite elem_of_map_to_list, map_lookup_filter_Some, (ballot_delegate a Hb). simpl. split.
    - intros [(x & -> & Hx) [r E]]. destruct (ballot_vote_ok _ _ _ Hb Hx) as [_ Hxo].
      by apply delegation_inj in E as [-> _].
    - intros [-> Hx]. split; [eauto|by eexists]. }
  apply NoDup_Permutation.
  - apply NoDup_fmap_2_strong; [|apply NoDup_map_to_list]. intros [k1 v1] [k2 v2] H1 H2 E.
    apply Hin in H1 as [-> _], H2 as [-> _]. simpl in E. by subst.
  - apply NoDup_fst_map_to_list.
  - intros v. rewrite !list_elem_of_fmap. split.
    + intros ([k w] & -> & [-> Hv]%Hin). exists (w, c). split; [done|].
      by rewrite elem_of_map_to_list, map_lookup_filter_Some.
    + intros ([w x] & -> & Hw). rewrite elem_of_map_to_list, map_lookup_filter_Some in Hw. simpl in Hw.
      destruct Hw as [Hw ->]. exists (c ++ w, w). split; [done|]. by apply Hin.
Qed.

Lemma counted_stake c a : ballot a -> address_ok c -> counted c (mDelegate a) = stake c a.
Proof.
  intros Hb Hc. unfold counted, stake. pose proof (delegators_perm c a Hb Hc) as Hp.
  apply (fmap_Permutation bal) in Hp. rewrite <- !list_fmap_compose in Hp. by rewrite Hp.
Qed.

Lemma counted_prefixed c a :
  ballot a -> (forall x, is_Some (mCandidate a !! x) -> ~ delegatePrefix `prefix_of` x) ->
  counted (delegatePrefix ++ c) (mDelegate a) = 0.
Proof.
  intros Hb Hno. unfold counted. assert (filter (fun e => (delegatePrefix ++ c) `prefix_of` e.1) (mDelegate a) = ∅) as ->.
  { apply map_empty. intros k. apply map_lookup_filter_None. right. intros v Hv. by eapply prefixed_none. }
  by rewrite map_to_list_empty.
Qed.

(** When the delegation trie has no prefix of its own,
    [countVotes] gives every candidate, and nobody else, the sum of the balances
    of the delegators whose vote it has; it terminates and changes no content. *)
Theorem count_votes_stake d a :
  rep dbnode d a -> ballot a -> iterable d -> default [] (tprefix (delegateTrie d)) = [] -> mCandidate a <> ∅ ->
  exists d' N votes, rep dbnode d' a /\
    (forall fuel, (N <= fuel)%nat -> countVotes dbnode bal fuel d = Ok (d', inr votes)) /\
    forall c, votes !! c = (fun _ => stake c a) <$> mCandidate a !! c.
Proof.
  intros Hr Hb Hi Hp Hne. destruct (countVotes_ok d a Hr Hb Hi) as (d' & N & R & _ & _ & E).
  unfold count_result in E. rewrite bool_decide_false in E by done. exists d', N, (votes_of d a).
  split_and!; [done|done|]. intros c. rewrite votes_of_lookup. destruct (mCandidate a !! c) eqn:Ec; [|done].
  simpl. f_equal. unfold delegation_prefix. rewrite Hp. apply counted_stake; [done|].
  by apply (ballot_candidate a Hb) in Ec as [_ ?].
Qed.

(** A defect: on the trie that [NewDelegateTrie] opens every
    candidate is counted zero votes, however many delegators it has and whatever
    they own. *)
Theorem count_votes_prefixed d a :
  rep dbnode d a -> ballot a -> iterable d -> tprefix (delegateTrie d) = Some delegatePrefix -> mCandidate a <> ∅ ->
  (forall x, is_Some (mCandidate a !! x) -> ~ delegatePrefix `prefix_of` x) ->
  exists d' N votes,
    (forall fuel, (N <= fuel)%nat -> countVotes dbnode bal fuel d = Ok (d', inr votes)) /\
    forall c, votes !! c = (fun _ => 0) <$> mCandidate a !! c.
Proof.
  intros Hr Hb Hi Hp Hne Hno. destruct (countVotes_ok d a Hr Hb Hi) as (d' & N & R & _ & _ & E).
  unfold count_result in E. rewrite bool_decide_false in E by done. exists d', N, (votes_of d a).
  split; [done|]. intros c. rewrite votes_of_lookup. destruct (mCandidate a !! c) eqn:Ec; [|done].
  simpl. f_equal. unfold delegation_prefix. rewrite Hp. by apply counted_prefixed.
Qed.
End counting.

(** ** Slots *)

Section slots.
Context `{Keccak} (dbnode : list Z -> Z -> option node) (Hdb : db_coherent dbnode).

(** The validators of the epoch. *)
Definition has_validators (a : dpos_maps) (l : list (list Z)) : Prop :=
  mEpoch a !! validator_key = Some (encode_item (Lst (map Str l))) /\ Forall address_ok l /\
  Z.of_nat (length l) < 2 ^ 32.

Lemma lookupValidator_ok now bi l d a :
  rep dbnode d a -> has_validators a l -> l <> [] -> 0 <= now -> 0 < bi < 2 ^ 63 ->
  exists d', rep dbnode d' a /\ framed d d' /\
    lookupValidator dbnode now bi d =
    Ok (d', if bool_decide ((now mod epochInterval) mod bi <> 0) then inl (EMsg "invalid time to mint the block")
            else match l !! Z.to_nat ((now mod epochInterval) / bi mod Z.of_nat (length l)) with
                 | Some v => inr v
                 | None => inl (EMsg "failed to lookup validator")
                 end).
Proof.
  intros Hr (Hv & Hl & Hn) Hne Hnow Hbi. unfold lookupValidator, rem64, div64, epochInterval in *.
  rewrite (wrapS_small 64 bi) by lia. assert (0 < Z.of_nat (length l)) by (destruct l; simpl; [done|lia]).
  pose proof (Z.mod_pos_bound now 60 ltac:(lia)) as Ho. rewrite (bool_decide_false (60 = 0)) by lia.
  rewrite (bool_decide_false (bi = 0)) by lia. erewrite sm_bind_ok by done.
  rewrite Z.rem_mod_nonneg by lia. set (o := now mod 60) in *. erewrite sm_bind_ok by done.
  rewrite Z.rem_mod_nonneg by lia. case_bool_decide as Hm.
  { exists d. split_and!; [done|apply framed_refl|done]. }
  rewrite Z.quot_div_nonneg by lia.
  assert (0 <= o / bi < 60) as Hq by (split; [apply Z.div_pos; lia|apply Z.div_lt_upper_bound; nia]).
  rewrite wrapS_small by lia. erewrite sm_bind_ok by done.
  destruct (GetValidators_ok dbnode Hdb l d a Hr Hl Hn Hv) as (d' & E & R & F).
  rewrite (sm_bind_ok _ _ _ _ _ E). rewrite bool_decide_false by done.
  rewrite (bool_decide_false (Z.of_nat (length l) = 0)) by lia. erewrite sm_bind_ok by done.
  rewrite Z.rem_mod_nonneg by lia. set (i := o / bi mod Z.of_nat (length l)).
  pose proof (Z.mod_pos_bound (o / bi) (Z.of_nat (length l)) ltac:(lia)) as Hi. fold i in Hi.
  rewrite bool_decide_false by lia. exists d'. split_and!; [done|done|].
  destruct (lookup_lt_is_Some_2 l (Z.to_nat i)) as [v ->]; [lia|]. done.
Qed.

(** The [k]-th slot of an epoch belongs to validator
    [k mod n], so [n] consecutive slots of an epoch go once around the
    validators; at a time of the epoch that is not the start of a slot there is no
    validator, only an error. *)
Theorem lookup_round_robin bi l e k r d a :
  rep dbnode d a -> has_validators a l -> l <> [] -> 0 < bi < 2 ^ 63 ->
  0 <= e -> 0 <= k -> 0 <= r < bi -> bi * k + r < epochInterval ->
  exists d', rep dbnode d' a /\
    lookupValidator dbnode (epochInterval * e + (bi * k + r)) bi d =
    Ok (d', if bool_decide (r <> 0) then inl (EMsg "invalid time to mint the block")
            else match l !! Z.to_nat (k mod Z.of_nat (length l)) with
                 | Some v => inr v
                 | None => inl (EMsg "failed to lookup validator")
                 end) /\
    is_Some (l !! Z.to_nat (k mod Z.of_nat (length l))).
Proof.
  intros Hr Hv Hne Hbi He Hk Hrr Hlt. unfold epochInterval in *.
  destruct (lookupValidator_ok (60 * e + (bi * k + r)) bi l d a Hr Hv Hne ltac:(nia) Hbi) as (d' & R & _ & E).
  unfold epochInterval in E. exists d'. split; [done|].
  assert ((60 * e + (bi * k + r)) mod 60 = bi * k + r) as Em.
  { rewrite (Z.mul_comm 60), Z.add_comm, Z.mod_add by lia. apply Z.mod_small. nia. }
  assert ((bi * k + r) mod bi = r) as Er by (rewrite Z.add_comm, Z.mul_comm, Z.mod_add by lia; apply Z.mod_small; lia).
  assert ((bi * k + r) / bi = k) as Ed by (rewrite Z.mul_comm, Z.div_add_l by lia; rewrite Z.div_small by lia; lia).
  rewrite Em, Er, Ed in E. split; [done|]. apply lookup_lt_is_Some_2.
  assert (0 < Z.of_nat (length l)) by (destruct l; simpl; [done|lia]).
  pose proof (Z.mod_pos_bound k (Z.of_nat (length l)) ltac:(lia)). lia.
Qed.
End slots.

(** ** One election *)

Lemma Keccak512_ok data : Keccak512 data = Ok (sponge 72 0x01 64 (concat data)).
Proof. unfold Keccak512. apply (sponge_ok 72 64 0x01); unfold maxRate; simpl; lia. Qed.

Section election.
Context `{Keccak, Rand} (dbnode : list Z -> Z -> option node) (Hdb : db_coherent dbnode) (bal : list Z -> Z).

Definition safe_size (n : Z) : Z := n * 2 / 3 + 1.

(** The candidates an election of [n] takes from the votes, before shuffling. *)
Definition best (n : Z) (votes : gmap (list Z) Z) : list sortableAddress :=
  take (Z.to_nat n) (sort_Sort Less (map_to_list votes)).

Definition elect_seed (parentHash : list Z) (i : Z) : rng :=
  NewSource (i64 (be_uint (rev (take 4 (sponge 72 0x01 64 parentHash))) + i)).

(** The maps after the election of [l]: the epoch trie starts afresh. *)
Definition map_elected (l : list (list Z)) (a : dpos_maps) : dpos_maps :=
  set_map FEpoch {[ validator_key := encode_item (Lst (map Str l)) ]} a.

(** The elected validators, in the order of their slots. *)
Definition elected (n : Z) (parentHash : list Z) (i : Z) (votes : gmap (list Z) Z) : option (list (list Z)) :=
  map fst <$> shuffle (length (best n votes) - 1) (elect_seed parentHash i) (best n votes).

Lemma elected_perm n parentHash i votes :
  exists l, elected n parentHash i votes = Some l /\ l ≡ₚ (best n votes).*1.
Proof.
  unfold elected.
  destruct (shuffle_perm (length (best n votes) - 1) (elect_seed parentHash i) (best n votes)) as (l & -> & Hp).
  - destruct (best n votes); simpl; lia.
  - exists (map fst l). split; [done|]. by apply (fmap_Permutation fst).
Qed.

Lemma best_sub n votes : best n votes ⊆+ map_to_list votes.
Proof.
  unfold best. etrans; [apply submseteq_take|]. by rewrite sort_perm.
Qed.

Lemma best_ok n votes c v : (c, v) ∈ best n votes -> votes !! c = Some v.
Proof. intros Hin. apply elem_of_map_to_list. by eapply elem_of_submseteq, best_sub. Qed.

Lemma reset_epoch d a :
  rep dbnode d a -> has_db d = true ->
  exists d', on_trie_ FEpoch (fun _ => NewEpochTrie dbnode true emptyHash) tt d = Ok (d', inr tt) /\
    rep dbnode d' (set_map FEpoch ∅ a) /\ d' = set_trie FEpoch (mkTrie Nil emptyHash (Some epochPrefix) 0 0) d.
Proof.
  intros Hr Hd. eexists. split; [done|]. split; [|done]. apply rep_set; [done|].
  constructor; [by apply represents_empty|done].
Qed.

Lemma set_new_validators l d a :
  rep dbnode d a -> has_db d = true -> Forall address_ok l -> Z.of_nat (length l) < 2 ^ 32 ->
  exists d', (db ← gets has_db; on_trie_ FEpoch (fun _ => NewEpochTrie dbnode db emptyHash) tt ;;
              handle (SetValidators dbnode l) (fun _ => mret tt)) d = Ok (d', inr tt) /\
    rep dbnode d' (map_elected l a) /\ has_db d' = true /\
    forall f, f <> FEpoch -> get_trie f d' = get_trie f d.
Proof.
  intros Hr Hd Hl Hn. erewrite sm_bind_ok by done. rewrite Hd.
  destruct (reset_epoch d a Hr Hd) as (d1 & E1 & R1 & Ed1). rewrite (sm_bind_ok _ _ _ _ _ E1).
  destruct (SetValidators_ok dbnode Hdb l d1 _ R1 Hl Hn) as (d2 & E2 & R2 & [Hdb2 _]).
  rewrite (handle_run _ _ _ _ _ E2). exists d2. split; [done|]. split_and!.
  - done.
  - rewrite Hdb2. by subst d1.
  - intros f Hf. revert E2. unfold SetValidators.
    destruct (encode_ok _ _ _ (addresses_item l) (addresses_bound l Hl Hn)) as [-> _].
    unfold on_trie_, on_trie. destruct (Update _ _ _ _); simpl; intros E2; simplify_eq. by destruct f.
Qed.

(** The outcome of an election over [votes]. *)
Definition elect_result (n : Z) (parentHash : list Z) (i : Z) (votes : gmap (list Z) Z) (a : dpos_maps)
  : dpos_maps * (dpos_error + unit) :=
  if bool_decide (mCandidate a = ∅) then (a, inl (EMsg "no candidates"))
  else if bool_decide (Z.of_nat (size votes) < safe_size n) then (a, inl (EMsg "too few candidates"))
  else match elected n parentHash i votes with
       | Some l => (map_elected l a, inr tt)
       | None => (a, inr tt)
       end.

Lemma elect_result_inr n parentHash i votes a :
  mCandidate a <> ∅ -> safe_size n <= Z.of_nat (size votes) -> (elect_result n parentHash i votes a).2 = inr tt.
Proof.
  intros Hc Hn. unfold elect_result. rewrite !bool_decide_false by (done || lia).
  by destruct (elected_perm n parentHash i votes) as (l & -> & _).
Qed.

Lemma elect_take n (cl : list sortableAddress) (d : DposContext) :
  0 <= n ->
  (if bool_decide (n < Z.of_nat (length cl))
   then if bool_decide (n < 0) then panic else mret (take (Z.to_nat n) cl) else mret cl) d =
  Ok (E := Empty_set) (d, inr (A := dpos_error) (take (Z.to_nat n) cl)).
Proof.
  intros Hn. rewrite (bool_decide_false (n < 0)) by lia. case_bool_decide; [done|].
  by rewrite take_ge by lia.
Qed.

Lemma elected_ok n parentHash i votes l :
  0 <= n < 2 ^ 31 -> (forall c, is_Some (votes !! c) -> address_ok c) ->
  elected n parentHash i votes = Some l -> Forall address_ok l /\ Z.of_nat (length l) < 2 ^ 32.
Proof.
  intros Hn Hok El. destruct (elected_perm n parentHash i votes) as (l' & E' & Hp).
  rewrite El in E'. simplify_eq. split.
  - apply Forall_forall. intros c Hc. rewrite Hp in Hc. apply list_elem_of_fmap in Hc as ([c' v] & -> & Hin).
    apply Hok. apply best_ok in Hin. eauto.
  - rewrite Hp, length_fmap. unfold best. rewrite length_take. lia.
Qed.

(** Every candidate an election sees has a 20-byte address. *)
Lemma votes_of_ok d a c : ballot a -> is_Some (votes_of bal d a !! c) -> address_ok c.
Proof.
  intros Hb [v Hv]. rewrite votes_of_lookup in Hv. destruct (mCandidate a !! c) as [x|] eqn:Ec; [|done].
  by apply (ballot_candidate a Hb) in Ec as [_ ?].
Qed.

Lemma elect_ok n parentHash i d a :
  rep dbnode d a -> ballot a -> iterable d -> has_db d = true -> 0 <= n < 2 ^ 31 ->
  exists d' N, rep dbnode d' (elect_result n parentHash i (votes_of bal d a) a).1 /\ has_db d' = true /\
    iterable d' /\ tprefix (delegateTrie d') = tprefix (delegateTrie d) /\
    forall fuel, (N <= fuel)%nat ->
      elect dbnode bal fuel n parentHash i d = Ok (d', (elect_result n parentHash i (votes_of bal d a) a).2).
Proof.
  intros Hr Hb Hi Hd Hn. destruct (countVotes_ok dbnode Hdb bal d a Hr Hb Hi) as (d1 & N & R1 & [Hd1 F1] & I1 & E1).
  unfold elect_result, count_result in *. set (votes := votes_of bal d a) in *.
  destruct (bool_decide (mCandidate a = ∅)).
  { exists d1, N. split_and!; [done|congruence|done|apply (F1 FDelegate)|]. intros fuel Hf. unfold elect.
    by rewrite (sm_bind_err _ _ _ _ _ (E1 fuel Hf)). }
  assert (length (map_to_list votes) = size votes) as Hsz by apply length_map_to_list.
  assert (i64 (Z.quot (i64 (i64 n * 2)) 3 + 1) = safe_size n) as Hsafe.
  { rewrite !(wrapS_small 64 n), (wrapS_small 64 (n * 2)) by lia. unfold safe_size.
    rewrite Z.quot_div_nonneg by lia. pose proof (Z.div_lt_upper_bound (n * 2) 3 (2 ^ 32) ltac:(lia) ltac:(lia)).
    pose proof (Z.div_pos (n * 2) 3 ltac:(lia) ltac:(lia)). by rewrite wrapS_small by lia. }
  destruct (bool_decide (Z.of_nat (size votes) < safe_size n)) eqn:Efew.
  { exists d1, N. split_and!; [done|congruence|done|apply (F1 FDelegate)|]. intros fuel Hf. unfold elect.
    rewrite (sm_bind_ok _ _ _ _ _ (E1 fuel Hf)). cbv zeta. by rewrite Hsafe, Hsz, Efew. }
  destruct (elected_perm n parentHash i votes) as (l & El & Hp).
  destruct (elected_ok n parentHash i votes l Hn (fun c => votes_of_ok d a c Hb) El) as [Hl Hlen].
  destruct (set_new_validators l d1 a R1 ltac:(congruence) Hl Hlen) as (d2 & E2 & R2 & Hd2 & G2).
  pose proof (G2 FCandidate ltac:(done)) as Gc. pose proof (G2 FDelegate ltac:(done)) as Gd. cbn [get_trie] in Gc, Gd.
  rewrite El. exists d2, N. split_and!; [done|done| | |].
  { unfold iterable in *. by rewrite Gc, Gd. }
  { rewrite Gd. apply (F1 FDelegate). }
  intros fuel Hf. unfold elect. rewrite (sm_bind_ok _ _ _ _ _ (E1 fuel Hf)). cbv zeta.
  rewrite Hsafe, Hsz, Efew, (wrapS_small 64 n) by lia. cbv beta iota.
  rewrite (sm_bind_ok _ _ _ _ _ (elect_take n (sort_Sort Less (map_to_list votes)) d1 (proj1 Hn))).
  fold (best n votes).
  rewrite (sm_bind_ok _ _ d1 d1 (sponge 72 0x01 64 parentHash)).
  2:{ rewrite Keccak512_ok. simpl. by rewrite app_nil_r. }
  unfold elected, elect_seed in El. destruct (shuffle _ _ _) as [cl|]; simplify_eq/=.
  by rewrite (sm_bind_ok _ _ d1 d1 cl).
Qed.

Lemma sorted_app_le (l1 l2 : list sortableAddress) x y :
  StronglySorted (le_of Less) (l1 ++ l2) -> x ∈ l1 -> y ∈ l2 -> le_of Less x y.
Proof.
  intros Hs. induction l1 as [|z l1 IH]; intros Hx Hy; [by apply elem_of_nil in Hx|].
  simpl in Hs. apply StronglySorted_inv in Hs as [Hs Hz]. apply elem_of_cons in Hx as [->|Hx]; [|by apply IH].
  rewrite Forall_forall in Hz. apply Hz. set_solver.
Qed.

(** Whoever is not among the best has no more votes than any of them. *)
Lemma best_top (n : Z) (votes : gmap (list Z) Z) (c : list Z) (v : Z) (c' : list Z) (v' : Z) :
  (forall x, is_Some (votes !! x) -> address_ok x) ->
  (c, v) ∈ best n votes -> votes !! c' = Some v' -> c' ∉ (best n votes).*1 -> v' <= v.
Proof.
  intros Hok Hin Hc' Hno. set (l := sort_Sort Less (map_to_list votes)).
  assert (StronglySorted (le_of Less) l) as Hs.
  { apply (sort_sorted Less candidate_ok Less_irrefl Less_trans Less_total). apply Forall_forall.
    intros [x w] Hx. apply elem_of_map_to_list in Hx. apply Hok. eauto. }
  rewrite <- (take_drop (Z.to_nat n) l) in Hs.
  assert ((c', v') ∈ l) as Hl by (unfold l; by rewrite sort_perm, elem_of_map_to_list).
  rewrite <- (take_drop (Z.to_nat n) l), elem_of_app in Hl. destruct Hl as [Hl|Hl].
  { destruct Hno. apply list_elem_of_fmap. by exists (c', v'). }
  pose proof (sorted_app_le _ _ _ _ Hs Hin Hl) as Hle. unfold le_of in Hle.
  destruct (Z.le_gt_cases v' v) as [|Hgt]; [done|].
  assert (Less (c', v') (c, v) = true) by (apply Less_spec; left; simpl; lia). congruence.
Qed.

Lemma best_length (n : Z) (votes : gmap (list Z) Z) :
  0 <= n -> Z.of_nat (length (best n votes)) = Z.min n (Z.of_nat (size votes)).
Proof. intros Hn. unfold best. rewrite length_take, (sort_perm Less), length_map_to_list. lia. Qed.

Lemma best_NoDup (n : Z) (votes : gmap (list Z) Z) : NoDup (best n votes).*1.
Proof.
  destruct (submseteq_Permutation _ _ (best_sub n votes)) as [r Hp].
  pose proof (NoDup_fst_map_to_list votes) as Hn. rewrite Hp, fmap_app in Hn. by apply NoDup_app in Hn as [? _].
Qed.

Lemma votes_of_size d a : size (votes_of bal d a) = size (mCandidate a).
Proof.
  rewrite <- !size_dom. f_equal. apply set_eq. intros c. rewrite !elem_of_dom, votes_of_lookup.
  by rewrite fmap_is_Some.
Qed.

(** C11: functional.  An election over delegations without a prefix succeeds when
    there are enough candidates, and stores [min n |candidates|] different
    candidates such that nobody outside the list has more stake behind it than
    anybody inside; candidates, votes and delegations keep their content. *)
Theorem elect_top n parentHash i d a :
  rep dbnode d a -> ballot a -> iterable d -> has_db d = true -> 0 <= n < 2 ^ 31 ->
  default [] (tprefix (delegateTrie d)) = [] -> safe_size n <= Z.of_nat (size (mCandidate a)) ->
  exists d' N l,
    (forall fuel, (N <= fuel)%nat -> elect dbnode bal fuel n parentHash i d = Ok (d', inr tt)) /\
    rep dbnode d' (map_elected l a) /\ NoDup l /\
    Z.of_nat (length l) = Z.min n (Z.of_nat (size (mCandidate a))) /\
    (forall c, c ∈ l -> mCandidate a !! c = Some c) /\
    (forall c c', c ∈ l -> mCandidate a !! c' = Some c' -> c' ∉ l -> stake bal c' a <= stake bal c a).
Proof.
  intros Hr Hb Hi Hd Hn Hp Hsafe. destruct (elect_ok n parentHash i d a Hr Hb Hi Hd Hn) as (d' & N & R & _ & _ & _ & E).
  assert (0 <= n * 2 / 3) by (apply Z.div_pos; lia).
  unfold elect_result in *. rewrite votes_of_size in *. unfold safe_size in *.
  rewrite bool_decide_false in R, E by (intros Em; rewrite Em, map_size_empty in Hsafe; lia).
  rewrite bool_decide_false in R, E by lia.
  destruct (elected_perm n parentHash i (votes_of bal d a)) as (l & El & Hperm). rewrite El in R, E.
  exists d', N, l. split_and!; [done|done| | | |].
  - rewrite Hperm. apply best_NoDup.
  - rewrite Hperm, length_fmap, best_length, votes_of_size by lia. done.
  - intros c Hc. rewrite Hperm in Hc. apply list_elem_of_fmap in Hc as ([x v] & -> & Hx%best_ok). simpl.
    rewrite votes_of_lookup in Hx. destruct (mCandidate a !! x) as [y|] eqn:Ey; [|done].
    by destruct (ballot_candidate a Hb _ _ Ey) as [-> _].
  - assert (forall x, mCandidate a !! x = Some x -> votes_of bal d a !! x = Some (stake bal x a)) as Hst.
    { intros x Hx. rewrite votes_of_lookup, Hx. simpl. f_equal. unfold delegation_prefix. rewrite Hp.
      apply counted_stake; [done|]. by apply (ballot_candidate a Hb) in Hx as [_ ?]. }
    intros c c' Hc Hc' Hno. rewrite Hperm in Hc, Hno. apply list_elem_of_fmap in Hc as ([x v] & -> & Hx). simpl.
    pose proof (best_ok _ _ _ _ Hx) as Hv. pose proof Hv as Hv'. rewrite votes_of_lookup in Hv'.
    destruct (mCandidate a !! x) as [y|] eqn:Ey; [|done]. destruct (ballot_candidate a Hb _ _ Ey) as [-> _].
    rewrite (Hst x Ey) in Hv. simplify_eq.
    eapply (best_top n (votes_of bal d a) x _ c'); [intros z; by apply votes_of_ok|done|by apply Hst|done].
Qed.

(** ** From one epoch to the next *)

(** The mint counts of an epoch that the election looks at. *)
Definition mint_prefix (d : DposContext) (epoch : Z) : list Z := default [] (tprefix (mintCntTrie d)) ++ PutUint64 epoch.

Definition no_mints (d : DposContext) (a : dpos_maps) (epoch : Z) : Prop :=
  forall k v, mMintCnt a !! k = Some v -> ~ mint_prefix d epoch `prefix_of` k.

Lemma mint_iterator d a epoch :
  rep dbnode d a -> clash_free (mintCntTrie d) -> bytes_ok (default [] (tprefix (mintCntTrie d))) ->
  exists t' es N, is_entries (fun k => mint_prefix d epoch `prefix_of` k) (mMintCnt a) es /\
    rep dbnode (set_trie FMintCnt t' d) a /\ framed d (set_trie FMintCnt t' d) /\
    forall fuel, (N <= fuel)%nat -> exists ni ni',
      on_trie FMintCnt (fun t => PrefixIterator dbnode fuel t (PutUint64 epoch)) d = Ok (set_trie FMintCnt t' d, inr ni) /\
      Iterator_Next dbnode fuel ni = Ok (head es, ni').
Proof.
  intros Hr Hc Hp.
  destruct (prefix_iterator_entries dbnode (cachegen (mintCntTrie d)) (mintCntTrie d) (mMintCnt a) (PutUint64 epoch))
    as (es & t' & N & Hes & Hs & Hg & Hpt & _ & Hit); [apply (Hr FMintCnt)|done|done| |].
  { apply bytes_ok_app. split; [done|apply be_bytes_ok]. }
  exists t', es, N. split_and!; [done| |by apply framed_set|].
  { rewrite <- (set_get_map FMintCnt a). by apply rep_set. }
  intros fuel Hf. destruct (Hit fuel Hf) as (ni & E & Hl).
  destruct (loops_over_next dbnode fuel ni es (Hl (S fuel) ltac:(lia))) as (ni' & En).
  exists ni, ni'. split; [|done]. unfold on_trie. cbn [get_trie]. by rewrite E.
Qed.

(** The epochs of [tryElect]. *)
Definition epoch_of (t : Z) : Z := t / epochInterval.

Lemma epoch_quot t : 0 <= t < 2 ^ 63 -> Z.quot (i64 t) epochInterval = epoch_of t.
Proof. intros Ht. rewrite wrapS_small by lia. unfold epoch_of, epochInterval. by rewrite Z.quot_div_nonneg by lia. Qed.

(** Whether the parent is in the epoch of the genesis block, and the first epoch
    of the loop. *)
Definition from_genesis (gt pt : Z) : bool := bool_decide (epoch_of pt = epoch_of gt).

Definition first_epoch (gt pt ts : Z) : Z :=
  if from_genesis gt pt && bool_decide (epoch_of pt < epoch_of ts) then epoch_of ts - 1 else epoch_of pt.

Lemma tryElect_loop fuel timeStamp first genesis parent gt pt d d1 ni :
  Time genesis = Some gt -> Time parent = Some pt ->
  0 <= gt < 2 ^ 63 -> 0 <= pt < 2 ^ 63 -> 0 <= timeStamp < 2 ^ 63 ->
  let start := first_epoch gt pt timeStamp in
  on_trie FMintCnt (fun t => PrefixIterator dbnode fuel t (PutUint64 start)) d = Ok (d1, inr ni) ->
  tryElect dbnode bal fuel timeStamp first genesis parent d =
  elect_loop dbnode bal (Z.to_nat (epoch_of timeStamp - start)) fuel timeStamp first genesis (Header_Hash parent)
    (from_genesis gt pt) start start ni d1.
Proof.
  intros Eg Ep Hgt Hpt Hts start E. unfold tryElect. rewrite Eg, Ep. do 2 (erewrite sm_bind_ok by done).
  rewrite !epoch_quot by done.
  assert (Z.quot timeStamp epochInterval = epoch_of timeStamp) as ->
    by (unfold epoch_of, epochInterval; by rewrite Z.quot_div_nonneg by lia).
  cbv zeta. fold (from_genesis gt pt). fold (first_epoch gt pt timeStamp). fold start.
  by rewrite (sm_bind_ok _ _ _ _ _ E).
Qed.

(** One round of the loop in which nobody is removed. *)
Lemma elect_loop_once fuel timeStamp first genesis parentHash isg prev i ni ni' r d d' x :
  Iterator_Next dbnode fuel ni = Ok (r, ni') -> (isg = false -> r = None) ->
  elect dbnode bal fuel (MaxValidatorSize genesis) parentHash i d = Ok (d', x) ->
  elect_loop dbnode bal 1 fuel timeStamp first genesis parentHash isg prev i ni d = Ok (d', x).
Proof.
  intros En Hr E. cbn [elect_loop].
  assert (exists ni2, (if isg then mret ni else '(r, iter) ← pure ETrie (Iterator_Next dbnode fuel ni);
     match r with
     | Some _ => kickoutValidator dbnode fuel timeStamp first prev genesis ;; mret iter
     | None => mret iter
     end) d = Ok (d, inr ni2)) as (ni2 & E0).
  { destruct isg; [by exists ni|]. rewrite Hr in En by done. exists ni'. unfold pure. rewrite En.
    by erewrite sm_bind_ok by done. }
  rewrite (sm_bind_ok _ _ _ _ _ E0). unfold mbind, SM_bind. rewrite E. by destruct x as [e|[]].
Qed.

Lemma tryElect_ok timeStamp first genesis parent gt pt d a :
  rep dbnode d a -> ballot a -> iterable d -> has_db d = true ->
  clash_free (mintCntTrie d) -> bytes_ok (default [] (tprefix (mintCntTrie d))) ->
  Time genesis = Some gt -> Time parent = Some pt ->
  0 <= gt < 2 ^ 63 -> 0 <= pt < 2 ^ 63 -> 0 <= timeStamp < 2 ^ 63 -> 0 <= MaxValidatorSize genesis < 2 ^ 31 ->
  let prev := epoch_of pt in let cur := epoch_of timeStamp in
  exists d' N,
    (cur <= prev -> rep dbnode d' a /\
       forall fuel, (N <= fuel)%nat -> tryElect dbnode bal fuel timeStamp first genesis parent d = Ok (d', inr tt)) /\
    (prev < cur -> prev = epoch_of gt \/ (cur = prev + 1 /\ no_mints d a prev) ->
     let r := elect_result (MaxValidatorSize genesis) (Header_Hash parent) (cur - 1) (votes_of bal d a) a in
     rep dbnode d' r.1 /\
       forall fuel, (N <= fuel)%nat -> tryElect dbnode bal fuel timeStamp first genesis parent d = Ok (d', r.2)).
Proof.
  intros Hr Hb Hi Hd Hcm Hpm Eg Ep Hgt Hpt Hts Hn prev cur. set (start := first_epoch gt pt timeStamp).
  destruct (mint_iterator d a start Hr Hcm Hpm) as (t' & es & N1 & Hes & R1 & F1 & Hit).
  set (d1 := set_trie FMintCnt t' d) in *.
  destruct (elect_ok (MaxValidatorSize genesis) (Header_Hash parent) (cur - 1) d1 a R1 Hb Hi Hd Hn)
    as (d2 & N2 & R2 & _ & _ & _ & E2).
  change (votes_of bal d1 a) with (votes_of bal d a) in R2, E2.
  destruct (Z.le_gt_cases cur prev) as [Hle|Hlt].
  - exists d1, N1. split; [|lia]. intros _. split; [done|]. intros fuel Hf.
    destruct (Hit fuel Hf) as (ni & ni' & E & _). rewrite (tryElect_loop _ _ _ _ _ gt pt d d1 ni) by done.
    fold cur start. assert (start = prev) as ->.
    { unfold start, first_epoch. rewrite (bool_decide_false (epoch_of pt < _)) by (unfold cur, prev in *; lia).
      by rewrite andb_false_r. }
    by replace (Z.to_nat (cur - prev)) with 0%nat by lia.
  - exists d2, (N1 `max` N2)%nat. split; [lia|]. intros _ Hcase. split; [done|]. intros fuel Hf.
    destruct (Hit fuel ltac:(lia)) as (ni & ni' & E & En). rewrite (tryElect_loop _ _ _ _ _ gt pt d d1 ni) by done.
    fold cur start. assert (start = cur - 1 /\ (from_genesis gt pt = false -> es = [])) as [Es Hno].
    { assert (start = if from_genesis gt pt then cur - 1 else prev) as Es.
      { unfold start, first_epoch. rewrite (bool_decide_true (epoch_of pt < _)) by (unfold cur, prev in *; lia).
        by rewrite andb_true_r. }
      rewrite Es in Hes |- *. unfold from_genesis in *.
      destruct (bool_decide_reflect (epoch_of pt = epoch_of gt)) as [|Hne]; [done|].
      destruct Hcase as [?|[Hc Hm]]; [done|]. split; [lia|]. intros _. by eapply is_entries_none. }
    rewrite Es. replace (Z.to_nat (cur - (cur - 1))) with 1%nat by lia.
    eapply elect_loop_once; [done| |apply E2; lia]. intros Hg. by rewrite Hno.
Qed.

(** C34: functional.  Between two blocks of the same epoch [tryElect] changes
    nothing.  At the first block of an epoch that follows the epoch of the
    genesis block, or directly follows its parent's epoch without recorded mints,
    it holds exactly one election, with the error or the new validators of that
    election. *)
Theorem try_elect_once timeStamp first genesis parent gt pt d a :
  rep dbnode d a -> ballot a -> iterable d -> has_db d = true ->
  clash_free (mintCntTrie d) -> bytes_ok (default [] (tprefix (mintCntTrie d))) ->
  Time genesis = Some gt -> Time parent = Some pt ->
  0 <= gt < 2 ^ 63 -> 0 <= pt < 2 ^ 63 -> 0 <= timeStamp < 2 ^ 63 -> 0 <= MaxValidatorSize genesis < 2 ^ 31 ->
  let prev := epoch_of pt in let cur := epoch_of timeStamp in
  exists d' N,
    (cur <= prev -> rep dbnode d' a /\
       forall fuel, (N <= fuel)%nat -> tryElect dbnode bal fuel timeStamp first genesis parent d = Ok (d', inr tt)) /\
    (prev < cur -> prev = epoch_of gt \/ (cur = prev + 1 /\ no_mints d a prev) ->
     let r := elect_result (MaxValidatorSize genesis) (Header_Hash parent) (cur - 1) (votes_of bal d a) a in
     rep dbnode d' r.1 /\
       forall fuel, (N <= fuel)%nat -> tryElect dbnode bal fuel timeStamp first genesis parent d = Ok (d', r.2)).
Proof. apply tryElect_ok. Qed.
End election.

(** ** Removing idle validators *)

Section kickouts.
Context `{Keccak} (dbnode : list Z -> Z -> option node) (Hdb : db_coherent dbnode).

(** No trie has the hash of the empty string as its root. *)
Definition no_clash : Prop := forall t m, sound dbnode t m -> clash_free t.
Context (Hnc : no_clash).

(** The recorded number of blocks of a validator. *)
Definition mint_count (a : dpos_maps) (epoch : Z) (v : list Z) : Z :=
  match mMintCnt a !! (PutUint64 epoch ++ v) with Some b => i64 (be_uint (take 8 b)) | None => 0 end.

Definition mints_ok (a : dpos_maps) : Prop := forall k b, mMintCnt a !! k = Some b -> length b = 8%nat.

(** The validators with fewer than [q] blocks. *)
Definition idle (a : dpos_maps) (epoch q : Z) (l : list (list Z)) : list sortableAddress :=
  filter (fun p => p.2 < q) (map (fun v => (v, mint_count a epoch v)) l).

Definition quota (duration blockInterval n : Z) : Z := Z.quot (Z.quot (Z.quot duration blockInterval) n) 2.

Lemma quot_range x y : 0 < y -> - 2 ^ 63 <= x < 2 ^ 63 -> - 2 ^ 63 <= Z.quot x y < 2 ^ 63.
Proof.
  intros Hy Hx. destruct (Z.le_gt_cases 0 x).
  - rewrite Z.quot_div_nonneg by lia. pose proof (Z.div_pos x y ltac:(lia) ltac:(lia)).
    pose proof (Z.div_le_upper_bound x y x ltac:(lia) ltac:(nia)). lia.
  - replace x with (- (- x)) by lia. rewrite Z.quot_opp_l, Z.quot_div_nonneg by lia.
    pose proof (Z.div_pos (- x) y ltac:(lia) ltac:(lia)).
    pose proof (Z.div_le_upper_bound (- x) y (- x) ltac:(lia) ltac:(nia)). lia.
Qed.

Lemma div64_ok {S E} x y (s : S) :
  0 < y -> - 2 ^ 63 <= x < 2 ^ 63 -> div64 (E := E) x y s = Ok (s, inr (Z.quot x y)).
Proof.
  intros Hy Hx. unfold div64. rewrite bool_decide_false by lia. unfold mret, SM_ret. do 3 f_equal.
  apply wrapS_small; [lia|]. by apply quot_range.
Qed.

Lemma get_mint k d a :
  rep dbnode d a -> bytes_ok k ->
  exists d', on_trie FMintCnt (fun t => Get dbnode t k) d = Ok (d', inr (mMintCnt a !! k)) /\ rep dbnode d' a /\ framed d d'.
Proof.
  intros Hr Hk. destruct (try_get_ok dbnode Hdb FMintCnt k d a Hr Hk) as (d' & E & Hrest). exists d'. split; [|done].
  revert E. unfold try_get, on_trie, Get. destruct (TryGet dbnode (get_trie FMintCnt d) k); simpl; intros E; by simplify_eq.
Qed.

Lemma read_count (o : option (list Z)) (d : DposContext) :
  (forall b, o = Some b -> length b = 8%nat) ->
  match o with Some b => n ← Uint64 b; mret (i64 n) | None => mret 0 end d =
  Ok (E := Empty_set) (d, inr (A := dpos_error) match o with Some b => i64 (be_uint (take 8 b)) | None => 0 end).
Proof.
  intros Ho. destruct o as [b|]; [|done]. unfold Uint64. rewrite (Ho b eq_refl). simpl. by erewrite sm_bind_ok by done.
Qed.

Lemma idle_validators_ok epoch dur bi n l : forall d a,
  rep dbnode d a -> mints_ok a -> Forall address_ok l -> 0 < bi < 2 ^ 63 -> 0 < n < 2 ^ 63 -> - 2 ^ 63 <= dur < 2 ^ 63 ->
  exists d', idle_validators dbnode epoch dur bi n l d = Ok (d', inr (idle a epoch (quota dur bi n) l)) /\
    rep dbnode d' a /\ framed d d'.
Proof.
  induction l as [|v l IH]; intros d a Hr Hm Hl Hbi Hn Hd; [by exists d|]. apply Forall_cons in Hl as [[_ Hv] Hl].
  cbn [idle_validators]. assert (bytes_ok (PutUint64 epoch ++ v)) as Hk by (apply bytes_ok_app; split; [apply be_bytes_ok|done]).
  destruct (get_mint _ d a Hr Hk) as (d1 & E1 & R1 & F1). rewrite (sm_bind_ok _ _ _ _ _ E1).
  rewrite (sm_bind_ok _ _ _ _ _ (read_count _ d1 (Hm (PutUint64 epoch ++ v)))).
  rewrite !(wrapS_small 64 bi), !(wrapS_small 64 n) by lia.
  pose proof (quot_range dur bi ltac:(lia) Hd) as Q1. pose proof (quot_range _ n ltac:(lia) Q1) as Q2.
  rewrite (sm_bind_ok _ _ d1 d1 _ (div64_ok dur bi d1 ltac:(lia) Hd)).
  rewrite (sm_bind_ok _ _ d1 d1 _ (div64_ok _ n d1 ltac:(lia) Q1)).
  rewrite (sm_bind_ok _ _ d1 d1 _ (div64_ok _ 2 d1 ltac:(lia) Q2)).
  destruct (IH d1 a R1 Hm Hl Hbi Hn Hd) as (d2 & E2 & R2 & F2). rewrite (sm_bind_ok _ _ _ _ _ E2).
  exists d2. split; [|eauto using framed_trans]. unfold mret, SM_ret. do 3 f_equal.
  unfold idle. cbn [map]. rewrite filter_cons. cbn [snd]. fold (mint_count a epoch v).
  fold (quota dur bi n). case_bool_decide; case_decide; done || lia.
Qed.

(** ** Counting and removing *)

Lemma count_entries limit (es : list (list Z * list Z)) : forall n,
  n < limit ->
  fold_entries (fun _ _ n => if bool_decide (limit <= n + 1) then Err (n + 1) else Ok (n + 1)) es n =
  if bool_decide (es <> [] /\ limit <= n + Z.of_nat (length es)) then Err limit else Ok (n + Z.of_nat (length es)).
Proof.
  induction es as [|[k v] es IH]; intros n Hn; cbn [fold_entries length].
  { rewrite bool_decide_false by naive_solver. f_equal. lia. }
  case_bool_decide as Hl; cbn [mbind outcome_bind].
  - rewrite bool_decide_true by (split; [done|lia]). f_equal. lia.
  - rewrite IH by lia. destruct es as [|e es]; cbn [length].
    + rewrite !bool_decide_false by naive_solver lia. f_equal. lia.
    + destruct (decide (limit <= n + Z.of_nat (S (S (length es))))).
      * rewrite !bool_decide_true by (split; [done|lia]). done.
      * rewrite !bool_decide_false by (intros [_ ?]; lia). f_equal. lia.
Qed.

Lemma count_candidates_ok limit d a :
  rep dbnode d a -> ballot a -> 0 < limit ->
  exists d' N, rep dbnode d' a /\ framed d d' /\
    forall fuel, (N <= fuel)%nat ->
      count_candidates dbnode fuel limit d = Ok (d', inr (Z.min limit (Z.of_nat (size (mCandidate a))))).
Proof.
  intros Hr Hb Hl.
  destruct (node_iterator_entries dbnode (cachegen (candidateTrie d)) (candidateTrie d) (mCandidate a) [])
    as (es & tc & N & Hes & Hs & Hg & Hp & _ & Hit); [apply (Hr FCandidate)|by eapply Hnc, (Hr FCandidate)|done|].
  assert (length es = size (mCandidate a)) as Hlen.
  { rewrite (entries_perm _ _ _ Hes), <- length_map_to_list. f_equal. f_equal. apply map_filter_id.
    intros k v Hk. simpl. apply path_lt_nil_r. }
  exists (set_trie FCandidate tc d), N. split_and!.
  - rewrite <- (set_get_map FCandidate a). by apply rep_set.
  - by apply framed_set.
  - intros fuel Hf. destruct (Hit fuel Hf) as (it & E & Hloop). unfold count_candidates.
    rewrite (sm_bind_ok _ _ d (set_trie FCandidate tc d) (PlainIt it)).
    2:{ unfold on_trie, node_iterator. cbn [get_trie]. by rewrite E. }
    unfold count_loop. edestruct (Hloop fuel Hf) as (ni' & ->). rewrite count_entries by done. rewrite Hlen.
    case_bool_decide as Hc; simpl; do 3 f_equal; [lia|]. destruct es as [|e es].
    + simpl in Hlen. rewrite <- Hlen. lia.
    + destruct (Z.le_gt_cases limit (Z.of_nat (size (mCandidate a)))); [|lia]. destruct Hc. split; [done|lia].
Qed.

(** Removing the addresses of [l] on the maps. *)
Definition kick_list (l : list sortableAddress) (a : dpos_maps) : dpos_maps := fold_left (fun a p => kick p.1 a) l a.

Lemma kickout_loop_ok safe l : forall n d a,
  rep dbnode d a -> ballot a -> default [] (tprefix (delegateTrie d)) = [] -> Forall (fun p => address_ok p.1) l ->
  exists d' N, rep dbnode d' (kick_list (take (Z.to_nat (n - safe)) l) a) /\
    ballot (kick_list (take (Z.to_nat (n - safe)) l) a) /\
    forall fuel, (N <= fuel)%nat -> kickout_loop dbnode fuel safe n l d = Ok (d', inr tt).
Proof.
  induction l as [|[v c] l IH]; intros n d a Hr Hb Hp Hl; cbn [kickout_loop].
  { exists d, 0%nat. by rewrite take_nil. }
  apply Forall_cons in Hl as [Hv Hl]. simpl in Hv. case_bool_decide as Hn.
  { exists d, 0%nat. by replace (Z.to_nat (n - safe)) with 0%nat by lia. }
  assert (delegation_prefix d v = v) as Epre by (unfold delegation_prefix; by rewrite Hp).
  destruct (KickoutCandidate_ok dbnode Hdb v d a Hr Hb Hv) as (es & d1 & N1 & Hes & R1 & [_ F1] & E1);
    [rewrite Epre; apply Hv|eapply Hnc, (Hr FDelegate)|].
  rewrite Epre in Hes. rewrite (kick_all_kick v es a) in R1 by done.
  destruct (IH (n - 1) d1 (kick v a) R1 (ballot_kick v a Hb Hv)) as (d2 & N2 & R2 & B2 & E2); [|done|].
  { destruct (F1 FDelegate) as [Fp _]. cbn [get_trie] in Fp. by rewrite Fp. }
  replace (Z.to_nat (n - safe)) with (S (Z.to_nat (n - 1 - safe))) by lia. cbn [take kick_list fold_left fst].
  exists d2, (N1 `max` N2)%nat. split_and!; [done|done|]. intros fuel Hf.
  rewrite (sm_bind_ok _ _ _ _ _ (E1 fuel ltac:(lia))). apply E2. lia.
Qed.

Lemma kick_list_size l : forall a,
  (size (mCandidate a) - length l <= size (mCandidate (kick_list l a)))%nat.
Proof.
  induction l as [|p l IH]; intros a; [simpl; lia|]. cbn [kick_list fold_left length]. etrans; [|apply IH]. simpl.
  rewrite map_size_delete. destruct (mCandidate a !! p.1); simpl; lia.
Qed.

Lemma ballot_kick_list l : forall a, Forall (fun p => address_ok p.1) l -> ballot a -> ballot (kick_list l a).
Proof.
  induction l as [|p l IH]; intros a Hl Hb; [done|]. apply Forall_cons in Hl as [Hp Hl].
  cbn [kick_list fold_left]. apply IH; [done|]. by apply ballot_kick.
Qed.

Lemma idle_ok a epoch q l :
  Forall address_ok l -> Forall (fun p => address_ok p.1) (idle a epoch q l) /\ (length (idle a epoch q l) <= length l)%nat.
Proof.
  intros Hl. split.
  - apply Forall_forall. intros p [_ Hin]%list_elem_of_filter. apply list_elem_of_fmap in Hin as (v & -> & Hin).
    by eapply Forall_forall in Hl.
  - unfold idle. rewrite length_filter, length_map. done.
Qed.

(** The length of an epoch that counts: the first one may have begun later. *)
Definition epoch_length (timeStamp first : Z) : Z := Z.min (timeStamp - first) epochInterval.

(** The part of [kickoutValidator] after the idle validators are known. *)
Lemma kickout_need_ok n lazy d a :
  rep dbnode d a -> ballot a -> default [] (tprefix (delegateTrie d)) = [] ->
  Forall (fun p => address_ok p.1) lazy -> Z.of_nat (length lazy) < 2 ^ 32 -> 0 < safe_size n < 2 ^ 33 ->
  let need := sort_Sort (Reverse Less) lazy in
  exists d' N,
    rep dbnode d' (kick_list (take (Z.to_nat (Z.of_nat (size (mCandidate a)) - safe_size n)) need) a) /\
    forall fuel, (N <= fuel)%nat ->
      (if bool_decide (Z.of_nat (length lazy) <= 0) then mret tt
       else candidateCount ← count_candidates dbnode fuel (i64 (Z.of_nat (length lazy) + safe_size n));
            kickout_loop dbnode fuel (safe_size n) candidateCount need) d = Ok (d', inr tt).
Proof.
  intros Hr Hb Hp Hlz Hlen Hsafe need.
  assert (length need = length lazy) as Hnl by (unfold need; by rewrite (sort_perm (Reverse Less))).
  case_bool_decide as Hz.
  { exists d, 0%nat. destruct need; [by rewrite take_nil|simpl in Hnl; lia]. }
  rewrite wrapS_small by lia.
  destruct (count_candidates_ok (Z.of_nat (length lazy) + safe_size n) d a Hr Hb ltac:(lia)) as (d1 & N1 & R1 & [_ F1] & E1).
  set (cnt := Z.min (Z.of_nat (length lazy) + safe_size n) (Z.of_nat (size (mCandidate a)))) in *.
  destruct (kickout_loop_ok (safe_size n) need cnt d1 a R1 Hb) as (d2 & N2 & R2 & _ & E2).
  { destruct (F1 FDelegate) as [Fp _]. cbn [get_trie] in Fp. by rewrite Fp. }
  { unfold need. by rewrite (sort_perm (Reverse Less)). }
  exists d2, (N1 `max` N2)%nat. split.
  - enough (take (Z.to_nat (cnt - safe_size n)) need =
            take (Z.to_nat (Z.of_nat (size (mCandidate a)) - safe_size n)) need) as <- by done.
    unfold cnt. destruct (Z.le_gt_cases (Z.of_nat (length lazy) + safe_size n) (Z.of_nat (size (mCandidate a)))).
    + rewrite !take_ge by lia. done.
    + f_equal. lia.
  - intros fuel Hf. rewrite (sm_bind_ok _ _ _ _ _ (E1 fuel ltac:(lia))). apply E2. lia.
Qed.

(** Over delegations without a prefix, and with the
    validators and mint counts of the epoch recorded, [kickoutValidator] removes
    idle validators, those with fewer than half their share of blocks, in the
    order of [sort_Sort (Reverse Less)], fewest blocks first; it removes as many as
    the excess of candidates over the safe size allows and no more, so the number
    of candidates never falls below the smaller of its old value and the safe
    size; votes and delegations still agree. *)
Theorem kickout_keeps_safe timeStamp first epoch genesis l d a :
  rep dbnode d a -> ballot a -> mints_ok a -> has_validators a l -> l <> [] ->
  default [] (tprefix (delegateTrie d)) = [] ->
  0 <= timeStamp < 2 ^ 63 -> 0 <= first < 2 ^ 63 ->
  0 < BlockInterval genesis < 2 ^ 63 -> 0 < MaxValidatorSize genesis < 2 ^ 31 ->
  let n := MaxValidatorSize genesis in
  let lazy := idle a epoch (quota (epoch_length timeStamp first) (BlockInterval genesis) n) l in
  let excess := Z.of_nat (size (mCandidate a)) - safe_size n in
  let a' := kick_list (take (Z.to_nat excess) (sort_Sort (Reverse Less) lazy)) a in
  ballot a' /\ Z.min (Z.of_nat (size (mCandidate a))) (safe_size n) <= Z.of_nat (size (mCandidate a')) /\
  exists d' N, rep dbnode d' a' /\
    forall fuel, (N <= fuel)%nat -> kickoutValidator dbnode fuel timeStamp first epoch genesis d = Ok (d', inr tt).
Proof.
  intros Hr Hb Hm (Hv & Hl & Hlen) Hne Hp Hts Hfst Hbi Hn n lazy excess a'.
  assert (0 <= n * 2 / 3 < 2 ^ 32) as Hdiv by (split; [apply Z.div_pos; lia|apply Z.div_lt_upper_bound; lia]).
  assert (0 < safe_size n < 2 ^ 33) as Hsafe by (unfold safe_size; lia).
  destruct (idle_ok a epoch (quota (epoch_length timeStamp first) (BlockInterval genesis) n) l Hl) as [Hlz Hll].
  fold lazy in Hlz, Hll. split; [|split].
  - apply ballot_kick_list; [|done]. apply Forall_take. by rewrite (sort_perm (Reverse Less)).
  - unfold a'. pose proof (kick_list_size (take (Z.to_nat excess) (sort_Sort (Reverse Less) lazy)) a) as Hs.
    rewrite length_take in Hs. unfold excess in *. lia.
  - destruct (GetValidators_ok dbnode Hdb l d a Hr Hl Hlen Hv) as (d1 & E1 & R1 & F1).
    assert (- 2 ^ 63 <= epoch_length timeStamp first < 2 ^ 63) as Hel by (unfold epoch_length, epochInterval; lia).
    destruct (idle_validators_ok epoch (epoch_length timeStamp first) (BlockInterval genesis) n l d1 a R1 Hm Hl Hbi)
      as (d2 & E2 & R2 & F2); [lia|done|]. fold lazy in E2.
    destruct (kickout_need_ok n lazy d2 a R2 Hb) as (d3 & N & R3 & E3); [|done|lia|done|].
    { destruct F1 as [_ F1], F2 as [_ F2]. destruct (F1 FDelegate) as [P1 _], (F2 FDelegate) as [P2 _].
      cbn [get_trie] in P1, P2. by rewrite P2, P1. }
    exists d3, N. split; [done|]. intros fuel Hf. unfold kickoutValidator.
    assert (with_err (EWrap "failed to get validator") (GetValidators dbnode) d = Ok (d1, inr l)) as E1'.
    { unfold with_err. by rewrite (handle_run _ _ _ _ _ E1). }
    rewrite (sm_bind_ok _ _ _ _ _ E1'). fold n. cbv zeta. rewrite bool_decide_false by done.
    rewrite (wrapU_small 64 (n * 2)), (wrapU_small 64 (_ + 1)), (wrapS_small 64 (_ + 1)) by lia. fold (safe_size n).
    rewrite (wrapS_small 64 (timeStamp - first)) by lia.
    replace (if bool_decide (timeStamp - first < epochInterval) then timeStamp - first else epochInterval)
      with (epoch_length timeStamp first)
      by (unfold epoch_length; destruct (bool_decide_reflect (timeStamp - first < epochInterval)); lia).
    rewrite (sm_bind_ok _ _ _ _ _ E2). by apply E3.
Qed.
End kickouts.

(** C39: safety, a defect.  On the tries the constructors open, an election does
    not depend on the votes: two chains with the same candidates, whatever their
    votes, delegations and balances, elect the same validators in the same
    order. *)
Theorem election_ignores_votes `{Keccak, Rand} db bal1 bal2 n parentHash i d1 d2 a1 a2 :
  db_coherent db -> rep db d1 a1 -> rep db d2 a2 -> ballot a1 -> ballot a2 -> iterable d1 -> iterable d2 ->
  has_db d1 = true -> has_db d2 = true -> 0 <= n < 2 ^ 31 ->
  tprefix (delegateTrie d1) = Some delegatePrefix -> tprefix (delegateTrie d2) = Some delegatePrefix ->
  mCandidate a1 = mCandidate a2 -> (forall x, is_Some (mCandidate a1 !! x) -> ~ delegatePrefix `prefix_of` x) ->
  safe_size n <= Z.of_nat (size (mCandidate a1)) ->
  exists e1 e2 N l, rep db e1 (map_elected l a1) /\ rep db e2 (map_elected l a2) /\
    forall fuel, (N <= fuel)%nat ->
      elect db bal1 fuel n parentHash i d1 = Ok (e1, inr tt) /\ elect db bal2 fuel n parentHash i d2 = Ok (e2, inr tt).
Proof.
  intros Hdb R1 R2 B1 B2 I1 I2 D1 D2 Hn P1 P2 Hc Hno Hsafe.
  assert (votes_of bal1 d1 a1 = votes_of bal2 d2 a2) as Ev.
  { apply map_eq. intros c. rewrite !votes_of_lookup, <- Hc. destruct (mCandidate a1 !! c); [|done]. simpl. f_equal.
    unfold delegation_prefix. rewrite P1, P2. simpl default.
    rewrite !counted_prefixed; [done|done|by rewrite <- Hc|done|done]. }
  destruct (elect_ok db Hdb bal1 n parentHash i d1 a1 R1 B1 I1 D1 Hn) as (e1 & N1 & Q1 & _ & _ & _ & E1).
  destruct (elect_ok db Hdb bal2 n parentHash i d2 a2 R2 B2 I2 D2 Hn) as (e2 & N2 & Q2 & _ & _ & _ & E2).
  assert (0 <= n * 2 / 3) by (apply Z.div_pos; lia). unfold safe_size in Hsafe.
  assert (mCandidate a1 <> ∅) as Hne by (intros Em; rewrite Em, map_size_empty in Hsafe; lia).
  unfold elect_result in *. rewrite <- Hc, <- Ev in *. rewrite (bool_decide_false (mCandidate a1 = ∅)) in * by done.
  rewrite votes_of_size in *. unfold safe_size in *. rewrite bool_decide_false in * by lia.
  destruct (elected_perm n parentHash i (votes_of bal1 d1 a1)) as (l & El & _). rewrite El in *.
  exists e1, e2, (N1 `max` N2)%nat, l. split_and!; [done|done|]. intros fuel Hf. split; [apply E1; lia|apply E2; lia].
Qed.

(** ** Concrete elections *)

(** A linear congruential generator. *)
Definition lcg_next (r n : Z) : Z * Z := let r := (1103515245 * r + 12345) mod 2 ^ 31 in (r mod n, r).

Lemma lcg_range r n : 0 < n -> 0 <= (lcg_next r n).1 < n.
Proof. intros Hn. by apply Z.mod_pos_bound. Qed.

Definition lcg : Rand := Build_Rand Z (fun s => s) lcg_next lcg_range.

(** An account owns one coin for each unit of the first byte of its address. *)
Definition sample_bal (a : list Z) : Z := default 0 (head a).

Lemma tag_no_clash : @no_clash tag_keccak no_db.
Proof. intros t m. apply tag_clash_free, no_db_coherent. Qed.

Lemma sample_iterable pfx :
  bytes_ok (default [] pfx) -> @iterable tag_keccak (sample_context pfx).
Proof.
  intros Hb. destruct (@sample_rep tag_keccak pfx) as (R & _ & P).
  split; [exact (tag_no_clash _ _ (R FCandidate))|]. split; [exact (tag_no_clash _ _ (R FDelegate))|by rewrite P].
Qed.

Lemma sample_db pfx : has_db (sample_context pfx) = true.
Proof. done. Qed.

Lemma delegatePrefix_ok : bytes_ok delegatePrefix.
Proof. apply (bool_decide_unpack (bytes_ok delegatePrefix)). vm_compute. done. Qed.

Lemma sample_candidates : mCandidate sample_maps = <[addr 1 := addr 1]> {[ addr 2 := addr 2 ]}.
Proof. vm_compute. reflexivity. Qed.

Lemma sample_unprefixed x : is_Some (mCandidate sample_maps !! x) -> ~ delegatePrefix `prefix_of` x.
Proof.
  rewrite sample_candidates. intros [y Hy]. rewrite lookup_insert_Some, lookup_singleton_Some in Hy. intros [r Hr].
  destruct Hy as [[<- _]|[_ [<- _]]]; discriminate Hr.
Qed.

Lemma count_votes_stake_witness :
  exists d' N votes, @rep tag_keccak no_db d' sample_maps /\
    (forall fuel, (N <= fuel)%nat ->
       @countVotes tag_keccak no_db sample_bal fuel (sample_context None) = Ok (d', inr votes)) /\
    forall c, votes !! c = (fun _ => stake sample_bal c sample_maps) <$> mCandidate sample_maps !! c.
Proof.
  destruct (@sample_rep tag_keccak None) as (R & B & P).
  apply (@count_votes_stake tag_keccak no_db no_db_coherent sample_bal (sample_context None) sample_maps);
    [exact R|exact B|apply sample_iterable; constructor|by rewrite P|rewrite sample_candidates; done].
Defined.

Lemma count_votes_prefixed_witness :
  exists d' N votes,
    (forall fuel, (N <= fuel)%nat ->
       @countVotes tag_keccak no_db sample_bal fuel (sample_context (Some delegatePrefix)) = Ok (d', inr votes)) /\
    forall c, votes !! c = (fun _ => 0) <$> mCandidate sample_maps !! c.
Proof.
  destruct (@sample_rep tag_keccak (Some delegatePrefix)) as (R & B & P).
  apply (@count_votes_prefixed tag_keccak no_db no_db_coherent sample_bal (sample_context (Some delegatePrefix)) sample_maps);
    [exact R|exact B|apply sample_iterable, delegatePrefix_ok|done|rewrite sample_candidates; done|
     apply sample_unprefixed].
Defined.

Lemma elect_top_witness :
  exists d' N l,
    (forall fuel, (N <= fuel)%nat ->
       @elect tag_keccak lcg no_db sample_bal fuel 2 emptyHash 0 (sample_context None) = Ok (d', inr tt)) /\
    @rep tag_keccak no_db d' (map_elected l sample_maps) /\ NoDup l /\
    Z.of_nat (length l) = 2 /\
    (forall c, c ∈ l -> mCandidate sample_maps !! c = Some c) /\
    (forall c c', c ∈ l -> mCandidate sample_maps !! c' = Some c' -> c' ∉ l ->
       stake sample_bal c' sample_maps <= stake sample_bal c sample_maps).
Proof.
  destruct (@sample_rep tag_keccak None) as (R & B & P).
  apply (@elect_top tag_keccak lcg no_db no_db_coherent sample_bal 2 emptyHash 0 (sample_context None) sample_maps);
    [exact R|exact B|apply sample_iterable; constructor|done|lia|by rewrite P|rewrite sample_candidates; done].
Defined.

Lemma election_ignores_votes_witness :
  exists e1 e2 N l, @rep tag_keccak no_db e1 (map_elected l sample_maps) /\
    @rep tag_keccak no_db e2 (map_elected l sample_maps) /\
    forall fuel, (N <= fuel)%nat ->
      @elect tag_keccak lcg no_db sample_bal fuel 2 emptyHash 0 (sample_context (Some delegatePrefix)) = Ok (e1, inr tt) /\
      @elect tag_keccak lcg no_db (fun _ => 0) fuel 2 emptyHash 0 (sample_context (Some delegatePrefix)) = Ok (e2, inr tt).
Proof.
  destruct (@sample_rep tag_keccak (Some delegatePrefix)) as (R & B & P).
  assert (@iterable tag_keccak (sample_context (Some delegatePrefix))) as I
    by (apply sample_iterable, delegatePrefix_ok).
  apply (@election_ignores_votes tag_keccak lcg no_db sample_bal (fun _ => 0) 2 emptyHash 0
    (sample_context (Some delegatePrefix)) (sample_context (Some delegatePrefix)) sample_maps sample_maps);
    [apply no_db_coherent|done..|lia|done|done|done|apply sample_unprefixed|rewrite sample_candidates; done].
Defined.

(** The fourth slot of the sixth epoch with two validators. *)
Lemma lookup_round_robin_witness :
  exists d, @rep tag_keccak no_db d (map_validators [addr 1; addr 2] empty_maps) /\
  exists d', @rep tag_keccak no_db d' (map_validators [addr 1; addr 2] empty_maps) /\
    lookupValidator no_db 330 10 d = Ok (d', inr (addr 2)) /\ is_Some ([addr 1; addr 2] !! 1%nat).
Proof.
  assert (Forall address_ok [addr 1; addr 2]) as Hl by (repeat constructor; lia).
  destruct (@SetValidators_ok tag_keccak no_db no_db_coherent [addr 1; addr 2] fresh_context empty_maps)
    as (d & _ & R & _); [apply rep_fresh|done|done|].
  exists d. split; [done|].
  apply (@lookup_round_robin tag_keccak no_db no_db_coherent 10 [addr 1; addr 2] 5 3 0 d
    (map_validators [addr 1; addr 2] empty_maps)); try done; try lia.
Defined.

(** Blocks of the sample chain. *)
Definition sample_header (number time : Z) : Header :=
  mkHeader emptyHash emptyHash (addr 1) (addr 1) emptyRoot emptyRoot emptyRoot (Some zero_proto)
    (zeroes 256) (Some 1) (Some number) 4712388 0 (Some time) (zeroes 97) emptyHash (zeroes 8) 2 10.

(** The first block after the epoch of the genesis block. *)
Lemma try_elect_once_witness :
  exists d' N, let r := @elect_result tag_keccak lcg 2 (@Header_Hash tag_keccak (sample_header 1 10)) 0
                          (@votes_of sample_bal (sample_context None) sample_maps) sample_maps in
    @rep tag_keccak no_db d' r.1 /\ r.2 = inr tt /\
    forall fuel, (N <= fuel)%nat ->
      @tryElect tag_keccak lcg no_db sample_bal fuel 60 10 (sample_header 0 0) (sample_header 1 10) (sample_context None)
      = Ok (d', inr tt).
Proof.
  destruct (@sample_rep tag_keccak None) as (R & B & P).
  destruct (@try_elect_once tag_keccak lcg no_db no_db_coherent sample_bal 60 10 (sample_header 0 0) (sample_header 1 10)
    0 10 (sample_context None) sample_maps) as (d' & N & _ & Hx);
    [exact R|exact B|apply sample_iterable; constructor|reflexivity|exact (tag_no_clash _ _ (R FMintCnt))| |
     reflexivity|reflexivity|simpl; lia..|].
  { apply (bool_decide_unpack (bytes_ok _)). vm_compute. exact I. }
  exists d', N. cbv zeta. destruct Hx as [Hr Ht]; [reflexivity|by left|].
  assert (mCandidate sample_maps <> ∅) as Hc by (rewrite sample_candidates; apply insert_non_empty).
  pose proof (@elect_result_inr tag_keccak lcg 2 (@Header_Hash tag_keccak (sample_header 1 10)) 0
    (votes_of sample_bal (sample_context None) sample_maps) sample_maps Hc) as Er.
  rewrite votes_of_size, sample_candidates in Er. specialize (Er ltac:(vm_compute; discriminate)).
  split; [exact Hr|]. split; [exact Er|]. intros fuel Hf. rewrite <- Er. exact (Ht fuel Hf).
Defined.

(** An idle validator is removed when there is a third candidate to spare. *)
Definition spare_maps : dpos_maps :=
  map_validators [addr 1] (set_map FCandidate (<[addr 3 := addr 3]> (mCandidate sample_maps)) sample_maps).

Lemma kickout_keeps_safe_witness :
  exists d, @rep tag_keccak no_db d spare_maps /\
  let a' := kick_list [(addr 1, 0)] spare_maps in
  ballot a' /\ 2 <= Z.of_nat (size (mCandidate a')) /\
  exists d' N, @rep tag_keccak no_db d' a' /\
    forall fuel, (N <= fuel)%nat ->
      @kickoutValidator tag_keccak no_db fuel 600 10 9 (sample_header 0 0) d = Ok (d', inr tt).
Proof.
  destruct (@sample_rep tag_keccak None) as (R & B & P).
  destruct (@BecomeCandidate_ok tag_keccak no_db no_db_coherent (addr 3) (sample_context None) sample_maps R)
    as (d1 & _ & R1 & [_ F1]); [apply addr_ok; unfold is_byte; lia|].
  pose proof (ballot_become (addr 3) sample_maps B ltac:(apply addr_ok; unfold is_byte; lia)) as B1.
  destruct (@SetValidators_ok tag_keccak no_db no_db_coherent [addr 1] d1 _ R1)
    as (d2 & _ & R2 & [_ F2]); [repeat constructor; lia|done|].
  exists d2. split; [exact R2|].
  assert (ballot spare_maps) as B2 by (destruct B1 as [X Y Z]; by split).
  destruct (F1 FDelegate) as [P1 _], (F2 FDelegate) as [P2 _]. cbn [get_trie] in P1, P2.
  assert (mints_ok spare_maps) as Hm.
  { intros k b Hk. assert (mMintCnt spare_maps = ∅) as Em by (vm_compute; reflexivity). rewrite Em, lookup_empty in Hk. discriminate Hk. }
  assert (has_validators spare_maps [addr 1]) as Hv.
  { split; [apply lookup_insert_eq|]. split; [repeat constructor; lia|reflexivity]. }
  pose proof (@kickout_keeps_safe tag_keccak no_db no_db_coherent tag_no_clash 600 10 9 (sample_header 0 0) [addr 1] d2
    spare_maps R2 B2 Hm Hv ltac:(discriminate) ltac:(by rewrite P2, P1, P) ltac:(lia) ltac:(lia) ltac:(simpl; lia)
    ltac:(simpl; lia)) as Hk.
  cbv zeta in Hk. change (MaxValidatorSize (sample_header 0 0)) with 2 in Hk.
  change (BlockInterval (sample_header 0 0)) with 10 in Hk.
  assert (size (mCandidate spare_maps) = 3%nat) as Es by (vm_compute; reflexivity). rewrite Es in Hk.
  assert (@idle spare_maps 9 (quota (epoch_length 600 10) 10 2) [addr 1] = [(addr 1, 0)]) as El by (vm_compute; reflexivity).
  rewrite El in Hk. exact Hk.
Defined.
