(* ===== verification/Params.v ===== *)
(** * Chain configuration ([src/params/config.go], [src/params/gas_table.go])

    The blocks at which the protocol changes, the gas prices of each phase, and
    the check that a stored configuration can be replaced.  A [*big.Int] that may
    be nil is an option.

    [config_rewind]: [CheckCompatible] terminates, accepts only configurations
    that agree on every fork that has happened, and otherwise names the last block
    that is valid under both. *)

From S2P Require Import Prelude Common.

(** [ChainConfig], without the engine settings. *)
Record ChainConfig := mkConfig {
  ChainID : option Z;
  HomesteadBlock : option Z;
  DAOForkBlock : option Z;
  DAOForkSupport : bool;
  EIP150Block : option Z;
  EIP150Hash : list Z;
  EIP155Block : option Z;
  EIP158Block : option Z;
  ByzantiumBlock : option Z;
  ConstantinopleBlock : option Z
}.

(** [DposConfig] *)
Record DposConfig := mkDposConfig {
  dc_Validators : list (list Z);
  dc_MaxValidatorSize : Z;
  dc_BlockInterval : Z
}.

Definition isForked (s head : option Z) : bool :=
  match s, head with
  | Some s, Some head => bool_decide (s <= head)
  | _, _ => false
  end.

Definition IsHomestead (c : ChainConfig) (num : option Z) : bool := isForked (HomesteadBlock c) num.
Definition IsDAOFork (c : ChainConfig) (num : option Z) : bool := isForked (DAOForkBlock c) num.
Definition IsEIP150 (c : ChainConfig) (num : option Z) : bool := isForked (EIP150Block c) num.
Definition IsEIP155 (c : ChainConfig) (num : option Z) : bool := isForked (EIP155Block c) num.
Definition IsEIP158 (c : ChainConfig) (num : option Z) : bool := isForked (EIP158Block c) num.
Definition IsByzantium (c : ChainConfig) (num : option Z) : bool := isForked (ByzantiumBlock c) num.
Definition IsConstantinople (c : ChainConfig) (num : option Z) : bool := isForked (ConstantinopleBlock c) num.

(** ** Gas prices *)

Record GasTable := mkGasTable {
  gt_ExtcodeSize : Z;
  gt_ExtcodeCopy : Z;
  gt_ExtcodeHash : Z;
  gt_Balance : Z;
  gt_SLoad : Z;
  gt_Calls : Z;
  gt_Suicide : Z;
  gt_ExpByte : Z;
  gt_CreateBySuicide : Z
}.

Definition GasTableHomestead : GasTable := mkGasTable 20 20 0 20 50 40 0 10 0.
Definition GasTableEIP150 : GasTable := mkGasTable 700 700 0 400 200 700 5000 10 25000.
Definition GasTableEIP158 : GasTable := mkGasTable 700 700 0 400 200 700 5000 50 25000.
Definition GasTableConstantinople : GasTable := mkGasTable 700 700 400 400 200 700 5000 50 25000.

(** [ChainConfig.GasTable] *)
Definition config_GasTable (c : ChainConfig) (num : option Z) : GasTable :=
  match num with
  | None => GasTableHomestead
  | Some _ =>
      if IsConstantinople c num then GasTableConstantinople
      else if IsEIP158 c num then GasTableEIP158
      else if IsEIP150 c num then GasTableEIP150
      else GasTableHomestead
  end.

(** [Rules] *)
Record Rules := mkRules {
  r_ChainID : Z;
  r_IsHomestead : bool;
  r_IsEIP150 : bool;
  r_IsEIP155 : bool;
  r_IsEIP158 : bool;
  r_IsByzantium : bool
}.

Definition config_Rules (c : ChainConfig) (num : option Z) : Rules :=
  mkRules (default 0 (ChainID c)) (IsHomestead c num) (IsEIP150 c num) (IsEIP155 c num) (IsEIP158 c num)
    (IsByzantium c num).

(** ** Compatibility *)

Definition configNumEqual (x y : option Z) : bool :=
  match x, y with
  | None, None => true
  | Some x, Some y => bool_decide (x = y)
  | _, _ => false
  end.

Definition isForkIncompatible (s1 s2 head : option Z) : bool :=
  (isForked s1 head || isForked s2 head) && negb (configNumEqual s1 s2).

Record ConfigCompatError := mkCompatError {
  What : string;
  StoredConfig : option Z;
  NewConfig : option Z;
  RewindTo : Z
}.

Definition newCompatError (what : string) (storedblock newblock : option Z) : ConfigCompatError :=
  let rew :=
    match storedblock, newblock with
    | None, _ => newblock
    | Some _, None => storedblock
    | Some s, Some n => if bool_decide (s < n) then storedblock else newblock
    end in
  mkCompatError what storedblock newblock
    (match rew with Some r => if bool_decide (0 < r) then u64 (u64 r - 1) else 0 | None => 0 end).

(** [ChainConfig.checkCompatible] *)
Definition checkCompatible (c newcfg : ChainConfig) (head : Z) : option ConfigCompatError :=
  let h := Some head in
  if isForkIncompatible (HomesteadBlock c) (HomesteadBlock newcfg) h
  then Some (newCompatError "Homestead fork block" (HomesteadBlock c) (HomesteadBlock newcfg))
  else if isForkIncompatible (DAOForkBlock c) (DAOForkBlock newcfg) h
  then Some (newCompatError "DAO fork block" (DAOForkBlock c) (DAOForkBlock newcfg))
  else if IsDAOFork c h && negb (Bool.eqb (DAOForkSupport c) (DAOForkSupport newcfg))
  then Some (newCompatError "DAO fork support flag" (DAOForkBlock c) (DAOForkBlock newcfg))
  else if isForkIncompatible (EIP150Block c) (EIP150Block newcfg) h
  then Some (newCompatError "EIP150 fork block" (EIP150Block c) (EIP150Block newcfg))
  else if isForkIncompatible (EIP155Block c) (EIP155Block newcfg) h
  then Some (newCompatError "EIP155 fork block" (EIP155Block c) (EIP155Block newcfg))
  else if isForkIncompatible (EIP158Block c) (EIP158Block newcfg) h
  then Some (newCompatError "EIP158 fork block" (EIP158Block c) (EIP158Block newcfg))
  else if IsEIP158 c h && negb (configNumEqual (ChainID c) (ChainID newcfg))
  then Some (newCompatError "EIP158 chain ID" (EIP158Block c) (EIP158Block newcfg))
  else if isForkIncompatible (ByzantiumBlock c) (ByzantiumBlock newcfg) h
  then Some (newCompatError "Byzantium fork block" (ByzantiumBlock c) (ByzantiumBlock newcfg))
  else if isForkIncompatible (ConstantinopleBlock c) (ConstantinopleBlock newcfg) h
  then Some (newCompatError "Constantinople fork block" (ConstantinopleBlock c) (ConstantinopleBlock newcfg))
  else None.

(** The loop of [ChainConfig.CheckCompatible]. *)
Fixpoint compat_loop (fuel : nat) (c newcfg : ChainConfig) (bhead : Z) (lasterr : option ConfigCompatError)
  : outcome Empty_set (option ConfigCompatError) :=
  match fuel with
  | O => OutOfFuel
  | S fuel =>
      match checkCompatible c newcfg bhead with
      | None => Ok lasterr
      | Some err =>
          if match lasterr with Some l => bool_decide (RewindTo err = RewindTo l) | None => false end
          then Ok lasterr
          else compat_loop fuel c newcfg (RewindTo err) (Some err)
      end
  end.

Definition CheckCompatible (fuel : nat) (c newcfg : ChainConfig) (height : Z)
  : outcome Empty_set (option ConfigCompatError) := compat_loop fuel c newcfg height None.

(** ** The check is decided by the first disagreement *)

(** The block at which a disagreement takes effect. *)
Definition first_block (s1 s2 : option Z) : option Z :=
  match s1, s2 with
  | Some a, Some b => Some (Z.min a b)
  | Some a, None => Some a
  | None, o => o
  end.

(** The last block before it. *)
Definition before (b : Z) : Z := Z.max 0 (b - 1).

Lemma RewindTo_before what s1 s2 b head :
  first_block s1 s2 = Some b -> b <= head < 2 ^ 64 -> RewindTo (newCompatError what s1 s2) = before b.
Proof.
  intros E Hb. assert (RewindTo (newCompatError what s1 s2) = if bool_decide (0 < b) then u64 (u64 b - 1) else 0) as ->.
  { destruct s1 as [x|], s2 as [y|]; simpl in *; simplify_eq; try done. case_bool_decide; simpl;
      [by rewrite Z.min_l by lia|by rewrite Z.min_r by lia]. }
  unfold before. case_bool_decide; [|lia]. rewrite (u64_small b), u64_small by (unfold in_u64; lia). lia.
Qed.

Lemma configNumEqual_iff x y : configNumEqual x y = true <-> x = y.
Proof. destruct x, y; simpl; rewrite ?bool_decide_eq_true; naive_solver. Qed.

(** A disagreement about a fork lasts from its first block on. *)
Lemma fork_incompatible_from s1 s2 head :
  isForkIncompatible s1 s2 (Some head) = true ->
  exists b, first_block s1 s2 = Some b /\ b <= head /\ forall h, b <= h -> isForkIncompatible s1 s2 (Some h) = true.
Proof.
  unfold isForkIncompatible. intros [Hf ->]%andb_true_iff.
  setoid_rewrite andb_true_r. destruct s1 as [x|], s2 as [y|]; simpl in *; try done.
  - apply orb_true_iff in Hf. rewrite !bool_decide_eq_true in Hf. exists (Z.min x y). split_and!; [done|lia|].
    intros h Hh. apply orb_true_iff. rewrite !bool_decide_eq_true. lia.
  - rewrite orb_false_r, bool_decide_eq_true in Hf. exists x. split_and!; [done..|]. intros h Hh.
    by rewrite bool_decide_true.
  - rewrite bool_decide_eq_true in Hf. exists y. split_and!; [done..|]. intros h Hh. by rewrite bool_decide_true.
Qed.

Lemma fork_compatible s1 s2 head :
  isForkIncompatible s1 s2 (Some head) = false -> isForked s1 (Some head) = isForked s2 (Some head).
Proof.
  unfold isForkIncompatible. destruct (configNumEqual s1 s2) eqn:E.
  - apply configNumEqual_iff in E. by subst.
  - rewrite andb_true_r. by intros [-> ->]%orb_false_iff.
Qed.

(** A disagreement about a flag lasts from the first block of its fork on. *)
Lemma flag_incompatible_from s1 s2 head :
  isForkIncompatible s1 s2 (Some head) = false -> isForked s1 (Some head) = true ->
  exists b, first_block s1 s2 = Some b /\ b <= head /\ forall h, b <= h -> isForked s1 (Some h) = true.
Proof.
  unfold isForkIncompatible. intros Hc Hf. rewrite Hf in Hc. apply negb_false_iff, configNumEqual_iff in Hc as <-.
  destruct s1 as [x|]; [|done]. simpl in *. apply bool_decide_eq_true in Hf. exists x.
  split_and!; [by rewrite Z.min_id|done|]. intros h Hh. by rewrite bool_decide_true.
Qed.

(** Any disagreement makes the check fail. *)
Ltac checks := unfold checkCompatible; repeat (case_match; try done); congruence.

(** An error names a block from which every check fails. *)
Lemma checkCompatible_error c n head e :
  head < 2 ^ 64 -> checkCompatible c n head = Some e ->
  exists b, b <= head /\ RewindTo e = before b /\ forall h, b <= h -> checkCompatible c n h <> None.
Proof.
  intros Hh. unfold checkCompatible at 1. unfold IsDAOFork, IsEIP158.
  repeat match goal with
  | |- context [if isForkIncompatible ?a ?b (Some head) then _ else _] =>
      destruct (isForkIncompatible a b (Some head)) eqn:?
  | |- context [if ?f && negb ?b then _ else _] => destruct (f && negb b) eqn:?
  end; intros [= <-]; match goal with
  | H : isForkIncompatible _ _ _ = true |- _ =>
      apply fork_incompatible_from in H as (b & Hb & Hle & Hall); exists b; split_and!;
      [done|by eapply RewindTo_before|]; intros h Hbh; specialize (Hall h Hbh); checks
  | H : _ && negb _ = true |- _ =>
      apply andb_true_iff in H as [H Hn]; eapply flag_incompatible_from in H as (b & Hb & Hle & Hall); [|eassumption];
      exists b; split_and!; [done|by eapply RewindTo_before|]; intros h Hbh; specialize (Hall h Hbh);
      unfold checkCompatible, IsDAOFork, IsEIP158; rewrite Hall, Hn; repeat (case_match; try done)
  end.
Qed.

(** What a configuration decides about a block. *)
Definition phase (c : ChainConfig) (num : Z) : list bool * GasTable :=
  ([IsHomestead c (Some num); IsDAOFork c (Some num); IsEIP150 c (Some num); IsEIP155 c (Some num);
    IsEIP158 c (Some num); IsByzantium c (Some num); IsConstantinople c (Some num)], config_GasTable c (Some num)).

Lemma compatible_phase c n h : checkCompatible c n h = None -> phase c h = phase n h.
Proof.
  unfold checkCompatible. repeat (case_match; [discriminate|]). intros _.
  repeat match goal with H : isForkIncompatible _ _ _ = false |- _ => apply fork_compatible in H end.
  unfold phase, config_GasTable, IsHomestead, IsDAOFork, IsEIP150, IsEIP155, IsEIP158, IsByzantium, IsConstantinople.
  repeat match goal with H : isForked _ _ = isForked _ _ |- _ => rewrite H; clear H end. done.
Qed.

(** What the loop has found so far: the checks above [bhead] fail. *)
Definition rewound (c n : ChainConfig) (height bhead : Z) (last : option ConfigCompatError) : Prop :=
  match last with
  | None => bhead = height
  | Some l => RewindTo l = bhead /\ 0 <= bhead <= height /\ checkCompatible c n height <> None /\
      forall h, bhead < h <= height -> checkCompatible c n h <> None
  end.

Definition rewind_ok (c n : ChainConfig) (height : Z) (r : option ConfigCompatError) : Prop :=
  match r with
  | None => forall h, h <= height -> checkCompatible c n h = None
  | Some e =>
      0 <= RewindTo e <= height /\ checkCompatible c n height <> None /\
      (forall h, RewindTo e < h <= height -> checkCompatible c n h <> None) /\
      (0 < RewindTo e -> forall h, h <= RewindTo e -> checkCompatible c n h = None)
  end.

Lemma compatible_below c n head h :
  head < 2 ^ 64 -> checkCompatible c n head = None -> h <= head -> checkCompatible c n h = None.
Proof.
  intros Hh E Hle. destruct (checkCompatible c n h) as [e|] eqn:Ee; [|done].
  apply checkCompatible_error in Ee as (b & Hb & _ & Hall); [|lia]. by destruct (Hall head ltac:(lia)).
Qed.

Lemma compat_loop_ok c n height bhead last fuel :
  0 <= bhead -> height < 2 ^ 64 -> rewound c n height bhead last ->
  (Z.to_nat bhead + match last with None => 2 | Some _ => 1 end <= fuel)%nat ->
  exists r, compat_loop fuel c n bhead last = Ok r /\ rewind_ok c n height r.
Proof.
  revert bhead last. induction fuel as [|fuel IH]; intros bhead last Hb Hh Hr Hf; [destruct last; lia|].
  assert (bhead <= height) as Hbh by (destruct last; simpl in Hr; lia).
  cbn [compat_loop]. destruct (checkCompatible c n bhead) as [e|] eqn:Ee.
  - apply checkCompatible_error in Ee as (b & Hbb & Er & Hall); [|lia].
    assert (rewound c n height (RewindTo e) (Some e)) as Hr'.
    { rewrite Er. unfold before. split_and!; [done|lia|lia|apply Hall; lia|]. intros h Hh'. apply Hall. lia. }
    destruct last as [l|].
    + destruct Hr as (El & Hbl & Hn & Habove). rewrite El. case_bool_decide as Heq.
      * exists (Some l). split; [done|]. unfold rewind_ok. rewrite El. split_and!; [lia..|done|done|].
        unfold before in Er. lia.
      * apply IH; [rewrite Er; unfold before; lia|done|done|]. unfold before in Er. lia.
    + simpl in Hr. subst bhead. apply IH; [rewrite Er; unfold before; lia|done|done|].
      rewrite Er. unfold before. lia.
  - exists last. split; [done|]. destruct last as [l|]; simpl in *.
    + destruct Hr as (-> & Hbl & Hn & Habove). split_and!; [lia..|done|done|]. intros _ h Hle.
      by apply (compatible_below _ _ bhead); [lia|..].
    + subst bhead. intros h Hle. by apply (compatible_below _ _ height).
Qed.

Lemma compat_loop_mono c n k fuel bhead last r :
  compat_loop k c n bhead last = Ok r -> (k <= fuel)%nat -> compat_loop fuel c n bhead last = Ok r.
Proof.
  revert fuel bhead last. induction k as [|k IH]; intros fuel bhead last E Hf; [done|].
  destruct fuel as [|fuel]; [lia|]. cbn [compat_loop] in *. destruct (checkCompatible c n bhead) as [e|]; [|done].
  destruct (match last with Some l => _ | None => _ end); [done|]. apply IH; [done|lia].
Qed.

(** [CheckCompatible] terminates on every head
    block.  When it reports nothing the two configurations apply the same phase to
    every block up to the head; otherwise the check fails for every
    block above [RewindTo] and, unless that is the genesis block, passes for
    every block up to it, where both configurations apply the same phase. *)
Theorem config_rewind c n height :
  0 <= height < 2 ^ 64 ->
  exists r, (forall fuel, (Z.to_nat height + 2 <= fuel)%nat -> CheckCompatible fuel c n height = Ok r) /\
  match r with
  | None => forall h, h <= height -> phase c h = phase n h
  | Some e =>
      0 <= RewindTo e <= height /\
      (forall h, RewindTo e < h <= height -> checkCompatible c n h <> None) /\
      (0 < RewindTo e -> forall h, h <= RewindTo e -> checkCompatible c n h = None /\ phase c h = phase n h)
  end.
Proof.
  intros Hh. destruct (compat_loop_ok c n height height None (Z.to_nat height + 2)) as (r & Er & Hr); [lia..|done|lia|].
  exists r. split.
  - intros fuel Hf. by eapply compat_loop_mono.
  - destruct r as [e|]; simpl in Hr.
    + destruct Hr as (Hb & _ & Habove & Hbelow). split_and!; [lia..|done|]. intros Hp h Hle.
      split; [by apply Hbelow|]. by apply compatible_phase, Hbelow.
    + intros h Hle. by apply compatible_phase, Hr.
Qed.

(** Moving Byzantium from block 5 to block 8 at height 10 rewinds to block 4. *)
Lemma config_rewind_witness :
  let c b := mkConfig (Some 1) (Some 0) None false (Some 0) emptyHash (Some 3) (Some 3) (Some b) None in
  CheckCompatible 12 (c 5) (c 8) 10 = Ok (Some (mkCompatError "Byzantium fork block" (Some 5) (Some 8) 4)) /\
  exists r, (forall fuel, (12 <= fuel)%nat -> CheckCompatible fuel (c 5) (c 8) 10 = Ok r) /\
  match r with
  | None => forall h, h <= 10 -> phase (c 5) h = phase (c 8) h
  | Some e =>
      0 <= RewindTo e <= 10 /\
      (forall h, RewindTo e < h <= 10 -> checkCompatible (c 5) (c 8) h <> None) /\
      (0 < RewindTo e -> forall h, h <= RewindTo e ->
         checkCompatible (c 5) (c 8) h = None /\ phase (c 5) h = phase (c 8) h)
  end.
Proof. intros c. split; [reflexivity|]. apply (config_rewind (c 5) (c 8) 10). lia. Defined.
