(* ===== verification/Transaction.v ===== *)
(** * Transactions ([src/core/types/transaction.go],
      [src/core/types/transaction_signing.go], signature checks of
      [src/crypto/crypto.go])

    The transaction data with the type field this chain adds, its encoding and
    hash, the three signature schemes, and the derivation of the sender with its
    cache.  A payload slice may be nil, which [Validate] tells from empty.
    [crypto.Ecrecover] (the secp256k1 C library) is the class [Ecdsa].

    [sign_sender]: a signature put into a transaction is the signature that is
    checked when the sender is derived, and only under the chain identifier it was
    made for, if that is not 0.  [tx_sighash_covers]: what a signature covers, which leaves out the
    transaction type.  [tx_decode_roundtrip]: encoding and decoding. *)

From S2P Require Import Prelude Common Trie Rlp Sha3 RlpRaw.
From S2P Require Import RlpStream Params DposContext Header.

(** [TxType] is a byte; these are the values with a meaning. *)
Definition tx_Binary : Z := 0.
Definition tx_RegCandidate : Z := 1.
Definition tx_UnregCandidate : Z := 2.
Definition tx_Delegate : Z := 3.
Definition tx_UnDelegate : Z := 4.

(** [txdata] *)
Record txdata := mkTxdata {
  tx_Type : Z;
  AccountNonce : Z;
  Price : Z;
  tx_GasLimit : Z;
  Recipient : option (list Z);
  Amount : Z;
  Payload : option (list Z);
  tx_V : Z;
  tx_R : Z;
  tx_S : Z
}.

Inductive tx_error : Type :=
  | ErrInvalidSig
  | ErrInvalidChainId
  | EEcrecover
  | EInvalidPubkey
  | ETxMsg (s : string).

(** [newTransaction]; a nil number is zero. *)
Definition newTransaction (txType nonce : Z) (to : option (list Z)) (amount : option Z) (gasLimit : Z)
  (gasPrice : option Z) (data : option (list Z)) : txdata :=
  mkTxdata txType nonce (default 0 gasPrice) gasLimit to (default 0 amount) data 0 0 0.

(** [NewTransaction] and [NewContractCreation] *)
Definition NewTransaction (txType nonce : Z) (to : list Z) (amount : option Z) (gasLimit : Z) (gasPrice : option Z)
  (data : option (list Z)) : txdata :=
  if bool_decide (txType <> tx_Binary) && bool_decide (to = emptyAddress)
  then newTransaction txType nonce None amount gasLimit gasPrice data
  else newTransaction txType nonce (Some to) amount gasLimit gasPrice data.

Definition NewContractCreation (nonce : Z) (amount : option Z) (gasLimit : Z) (gasPrice : option Z)
  (data : option (list Z)) : txdata := newTransaction tx_Binary nonce None amount gasLimit gasPrice data.

(** [Transaction.Validate] *)
Definition tx_Validate (tx : txdata) : outcome tx_error unit :=
  if bool_decide (tx_Type tx <> tx_Binary) then
    if bool_decide (big_Uint64 (Amount tx) <> 0) then Err (ETxMsg "transaction value should be 0")
    else if bool_decide (Recipient tx = None) && bool_decide (tx_Type tx <> tx_RegCandidate)
            && bool_decide (tx_Type tx <> tx_UnregCandidate) then Err (ETxMsg "receipient was required")
    else if bool_decide (Payload tx <> None) then Err (ETxMsg "payload should be empty")
    else Ok tt
  else Ok tt.

(** [Transaction.Cost] *)
Definition Cost (tx : txdata) : Z := Price tx * tx_GasLimit tx + Amount tx.

(** ** Encoding *)

Definition t_txdata : rtype :=
  TStruct [TUint 8; TUint 64; TBigInt; TUint 64; TNilPtr t_Address; TBigInt; TBytes; TBigInt; TBigInt; TBigInt].

Definition tx_rval (tx : txdata) : rval :=
  VList [VUint (tx_Type tx); VUint (AccountNonce tx); VBigInt (Some (Price tx)); VUint (tx_GasLimit tx);
         match Recipient tx with Some a => VPtr (VBytes a) | None => VNil end; VBigInt (Some (Amount tx));
         VBytes (default [] (Payload tx)); VBigInt (Some (tx_V tx)); VBigInt (Some (tx_R tx)); VBigInt (Some (tx_S tx))].

(** [Transaction.EncodeRLP], as [Transactions.GetRlp] calls it. *)
Definition tx_Encode (tx : txdata) : outcome rlp_error (list Z) := EncodeToBytes (TPtr t_txdata) (VPtr (tx_rval tx)).

(** [Transaction.DecodeRLP]: the decoded payload is never nil. *)
Definition tx_of_rval (v : rval) : option txdata :=
  match v with
  | VList [VUint ty; VUint nonce; VBigInt (Some price); VUint gas; to; VBigInt (Some amount); VBytes payload;
           VBigInt (Some v); VBigInt (Some r); VBigInt (Some s)] =>
      match to with
      | VNil => Some (mkTxdata ty nonce price gas None amount (Some payload) v r s)
      | VPtr (VBytes a) => Some (mkTxdata ty nonce price gas (Some a) amount (Some payload) v r s)
      | _ => None
      end
  | _ => None
  end.

Definition tx_Decode (b : list Z) : outcome rlp_error txdata :=
  v ← DecodeBytes b t_txdata;
  or_panic (tx_of_rval v).

(** ** Signatures *)

(** [crypto.Ecrecover]: the public key, or an error. *)
Class Ecdsa := { Ecrecover : list Z -> list Z -> option (list Z) }.

Definition secp256k1N : Z := 0xfffffffffffffffffffffffffffffffebaaedce6af48a03bbfd25e8cd0364141.
Definition secp256k1halfN : Z := secp256k1N / 2.

(** [crypto.ValidateSignatureValues] *)
Definition ValidateSignatureValues (v r s : Z) (homestead : bool) : bool :=
  if bool_decide (r < 1) || bool_decide (s < 1) then false
  else if homestead && bool_decide (secp256k1halfN < s) then false
  else bool_decide (r < secp256k1N) && bool_decide (s < secp256k1N) && (bool_decide (v = 0) || bool_decide (v = 1)).

(** [isProtectedV] and [deriveChainId] *)
Definition isProtectedV (V : Z) : bool :=
  if bool_decide (BitLen V <= 8) then negb (bool_decide (big_Uint64 V = 27)) && negb (bool_decide (big_Uint64 V = 28))
  else true.

Definition deriveChainId (v : Z) : Z :=
  if bool_decide (BitLen v <= 64) then
    let v := big_Uint64 v in
    if bool_decide (v = 27) || bool_decide (v = 28) then 0 else u64 (v - 35) / 2
  else (v - 35) / 2.

(** The implementations of the interface [Signer]. *)
Inductive Signer : Type :=
  | FrontierSigner
  | HomesteadSigner
  | EIP155Signer (chainId : Z).

#[global] Instance Signer_dec : EqDecision Signer.
Proof. solve_decision. Defined.

Definition NewEIP155Signer (chainId : option Z) : Signer := EIP155Signer (default 0 chainId).

(** [MakeSigner] *)
Definition MakeSigner (config : ChainConfig) (blockNumber : option Z) : Signer :=
  if IsEIP155 config blockNumber then NewEIP155Signer (ChainID config)
  else if IsHomestead config blockNumber then HomesteadSigner
  else FrontierSigner.

(** [Signer.Equal] *)
Definition signer_Equal (s s2 : Signer) : bool :=
  match s, s2 with
  | FrontierSigner, FrontierSigner => true
  | HomesteadSigner, HomesteadSigner => true
  | EIP155Signer c, EIP155Signer c2 => bool_decide (c2 = c)
  | _, _ => false
  end.

(** What [Signer.Hash] encodes: the type of the transaction is not there. *)
Definition plain_fields (tx : txdata) : list (rtype * rval) :=
  [(TUint 64, VUint (AccountNonce tx)); (TBigInt, VBigInt (Some (Price tx))); (TUint 64, VUint (tx_GasLimit tx));
   (TPtr t_Address, match Recipient tx with Some a => VPtr (VBytes a) | None => VNil end);
   (TBigInt, VBigInt (Some (Amount tx))); (TBytes, VBytes (default [] (Payload tx)))].

Definition signed_fields (s : Signer) (tx : txdata) : list (rtype * rval) :=
  match s with
  | EIP155Signer chainId => plain_fields tx ++ [(TBigInt, VBigInt (Some chainId)); (TUint 64, VUint 0); (TUint 64, VUint 0)]
  | _ => plain_fields tx
  end.

Section signing.
Context `{Keccak, Ecdsa}.

(** [Transaction.Hash] *)
Definition tx_Hash (tx : txdata) : list Z := rlpHash (TPtr t_txdata) (VPtr (tx_rval tx)).

(** [Signer.Hash] *)
Definition signer_Hash (s : Signer) (tx : txdata) : list Z :=
  rlpHash (TSlice TInterface) (VList (map (fun p => VIface p.1 p.2) (signed_fields s tx))).

(** [copy(sig[end-len(b):end], b)]: panics when the number has more than 32
    bytes. *)
Definition pad32 (z : Z) : outcome tx_error (list Z) :=
  let b := big_bytes z in
  if (32 <? length b)%nat then Panic else Ok (zeroes (32 - length b) ++ b).

(** The address of a public key. *)
Definition pubkey_address (pub : list Z) : list Z := drop 12 (keccak256 (drop 1 pub)).

(** [recoverPlain] *)
Definition recoverPlain (sighash : list Z) (R S Vb : Z) (homestead : bool) : outcome tx_error (list Z) :=
  if bool_decide (8 < BitLen Vb) then Err ErrInvalidSig
  else
    let V := u8 (big_Uint64 Vb - 27) in
    if negb (ValidateSignatureValues V R S homestead) then Err ErrInvalidSig
    else
      r ← pad32 R;
      s ← pad32 S;
      match Ecrecover sighash (r ++ s ++ [V]) with
      | None => Err EEcrecover
      | Some pub => if bool_decide (head pub = Some 4) then Ok (pubkey_address pub) else Err EInvalidPubkey
      end.

(** [Signer.Sender] *)
Definition signer_Sender (s : Signer) (tx : txdata) : outcome tx_error (list Z) :=
  match s with
  | FrontierSigner => recoverPlain (signer_Hash FrontierSigner tx) (tx_R tx) (tx_S tx) (tx_V tx) false
  | HomesteadSigner => recoverPlain (signer_Hash HomesteadSigner tx) (tx_R tx) (tx_S tx) (tx_V tx) true
  | EIP155Signer chainId =>
      if negb (isProtectedV (tx_V tx))
      then recoverPlain (signer_Hash HomesteadSigner tx) (tx_R tx) (tx_S tx) (tx_V tx) true
      else if bool_decide (deriveChainId (tx_V tx) <> chainId) then Err ErrInvalidChainId
      else recoverPlain (signer_Hash s tx) (tx_R tx) (tx_S tx) (tx_V tx - chainId * 2 - 8) true
  end.

(** [Signer.SignatureValues]: the values r, s, v of a 65-byte signature; the sums
    in [byte] wrap around. *)
Definition SignatureValues (s : Signer) (sig : list Z) : outcome tx_error (Z * Z * Z) :=
  if negb (length sig =? 65)%nat then Panic
  else
    b ← or_panic (sig !! 64%nat);
    let r := be_uint (take 32 sig) in
    let s' := be_uint (take 32 (drop 32 sig)) in
    match s with
    | EIP155Signer chainId =>
        if bool_decide (chainId <> 0) then Ok (r, s', u8 (b + 35) + chainId * 2) else Ok (r, s', u8 (b + 27))
    | _ => Ok (r, s', u8 (b + 27))
    end.

(** [Transaction.WithSignature] *)
Definition WithSignature (s : Signer) (sig : list Z) (tx : txdata) : outcome tx_error txdata :=
  '(r, s, v) ← SignatureValues s sig;
  Ok (mkTxdata (tx_Type tx) (AccountNonce tx) (Price tx) (tx_GasLimit tx) (Recipient tx) (Amount tx) (Payload tx) v r s).

(** [Transaction] with the cache of its sender, and [Sender]. *)
Record Transaction := mkTransaction {
  tx_data : txdata;
  tx_from : option (Signer * list Z)
}.

Definition Sender (signer : Signer) (tx : Transaction) : outcome tx_error (list Z * Transaction) :=
  match tx_from tx with
  | Some (s, from) =>
      if signer_Equal s signer then Ok (from, tx)
      else
        addr ← signer_Sender signer (tx_data tx);
        Ok (addr, mkTransaction (tx_data tx) (Some (signer, addr)))
  | None =>
      addr ← signer_Sender signer (tx_data tx);
      Ok (addr, mkTransaction (tx_data tx) (Some (signer, addr)))
  end.

(** [Message] and [Transaction.AsMessage] *)
Record Message := mkMessage {
  m_to : option (list Z);
  m_from : list Z;
  m_nonce : Z;
  m_amount : Z;
  m_gasLimit : Z;
  m_gasPrice : Z;
  m_data : option (list Z);
  m_checkNonce : bool;
  m_txType : Z
}.

Definition AsMessage (s : Signer) (tx : Transaction) : outcome tx_error (Message * Transaction) :=
  '(from, tx) ← Sender s tx;
  let d := tx_data tx in
  Ok (mkMessage (Recipient d) from (AccountNonce d) (Amount d) (tx_GasLimit d) (Price d) (Payload d) true (tx_Type d), tx).
End signing.

(** ** Encoding round trip *)

(** The ranges of the fields. *)
Record tx_ok (tx : txdata) : Prop := {
  txok_type : 0 <= tx_Type tx < 256;
  txok_nonce : in_uint64 (AccountNonce tx);
  txok_price : 0 <= Price tx;
  txok_gas : in_uint64 (tx_GasLimit tx);
  txok_to : from_option address_ok True (Recipient tx);
  txok_amount : 0 <= Amount tx;
  txok_payload : bytes_ok (default [] (Payload tx));
  txok_sig : 0 <= tx_V tx /\ 0 <= tx_R tx /\ 0 <= tx_S tx
}.

Definition to_item (to : option (list Z)) : item := Str (default [] to).

Lemma to_item_of to :
  item_of (match to with Some a => VPtr (VBytes a) | None => VNil end) (TNilPtr t_Address) = Some (to_item to).
Proof. by destruct to. Qed.

Definition tx_item (tx : txdata) : item :=
  Lst [Str (big_bytes (tx_Type tx)); Str (big_bytes (AccountNonce tx)); Str (big_bytes (Price tx));
       Str (big_bytes (tx_GasLimit tx)); to_item (Recipient tx); Str (big_bytes (Amount tx));
       Str (default [] (Payload tx)); Str (big_bytes (tx_V tx)); Str (big_bytes (tx_R tx)); Str (big_bytes (tx_S tx))].

Lemma big_some_item z : 0 <= z -> item_of (VBigInt (Some z)) TBigInt = Some (Str (big_bytes z)).
Proof. intros Hz. apply (big_item_of (Some z)). done. Qed.

Lemma tx_item_of tx : tx_ok tx -> item_of (tx_rval tx) t_txdata = Some (tx_item tx).
Proof.
  intros [Hty Hn Hp Hg Ht Ha Hd (Hv & Hr & Hs)]. apply struct_item_of; [done|]. cbn [zip_with zip seq_items].
  rewrite to_item_of, !big_some_item, !uint_item_of by done.
  assert (item_of (VUint (tx_Type tx)) (TUint 8) = Some (Str (big_bytes (tx_Type tx)))) as ->; [|done].
  simpl. rewrite bool_decide_true by lia. done.
Qed.

Lemma tx_canon tx : tx_ok tx -> canon t_txdata (tx_rval tx).
Proof.
  intros [Hty Hn Hp Hg Ht Ha Hd (Hv & Hr & Hs)]. unfold in_uint64 in *. apply canon_struct.
  repeat (apply Forall2_cons_2; [|]); try apply Forall2_nil_2; try (by constructor).
  - apply (canon_uint 1); simpl; lia.
  - apply (canon_uint 8); simpl; lia.
  - apply (canon_uint 8); simpl; lia.
  - destruct (Recipient tx) as [a|]; [|by eapply canon_nil]. destruct Ht as [Hl Hb].
    unfold t_Address. rewrite <- Hl. apply canon_nilptr; [apply canon_array; [done|]|..].
    + intros ->. done.
    + simpl. intros [= ->]. done.
    + done.
Qed.

(** What decoding cannot tell apart: a nil payload comes back empty. *)
Definition decoded (tx : txdata) : txdata :=
  mkTxdata (tx_Type tx) (AccountNonce tx) (Price tx) (tx_GasLimit tx) (Recipient tx) (Amount tx)
    (Some (default [] (Payload tx))) (tx_V tx) (tx_R tx) (tx_S tx).

Lemma tx_of_rval_decoded tx : tx_of_rval (tx_rval tx) = Some (decoded tx).
Proof. unfold tx_rval, decoded. by destruct (Recipient tx). Qed.

(** C38: roundtrip, error.  A transaction whose encoding fits the length fields is
    decoded from its encoding, field by field, except that a nil payload becomes
    an empty one; therefore [Validate], which asks for a nil payload, refuses
    every decoded transaction of a type other than the original one. *)
Theorem tx_decode_roundtrip tx :
  tx_ok tx -> Z.of_nat (length (encode_item (tx_item tx))) < 2 ^ 64 ->
  exists b, tx_Encode tx = Ok b /\ tx_Decode b = Ok (decoded tx) /\
    (tx_Type tx <> tx_Binary -> exists e, tx_Validate (decoded tx) = Err e).
Proof.
  intros Hok Hl. pose proof (tx_item_of tx Hok) as Hi. exists (encode_item (tx_item tx)). split_and!.
  - by apply (encode_ok (VPtr (tx_rval tx)) (TPtr t_txdata)).
  - unfold tx_Decode. rewrite (decode_encode t_txdata (tx_rval tx) (tx_item tx)); [|by apply tx_canon|done..].
    cbn [mbind outcome_bind]. by rewrite tx_of_rval_decoded.
  - intros Ht. unfold tx_Validate. rewrite bool_decide_true by done. repeat case_match; eauto.
    by case_bool_decide.
Qed.

(** A vote without payload. *)
Definition sample_vote : txdata := NewTransaction tx_Delegate 7 (addr 9) None 21000 (Some 5) None.

Lemma sample_vote_ok : tx_ok sample_vote.
Proof.
  assert (sample_vote = mkTxdata 3 7 5 21000 (Some (addr 9)) 0 None 0 0 0) as -> by reflexivity.
  constructor; unfold in_uint64; simpl; [lia..|apply addr_ok; unfold is_byte; lia|lia|constructor|lia].
Qed.

Lemma tx_decode_roundtrip_witness :
  tx_Validate sample_vote = Ok tt /\
  exists b, tx_Encode sample_vote = Ok b /\ tx_Decode b = Ok (decoded sample_vote) /\
    (tx_Type sample_vote <> tx_Binary -> exists e, tx_Validate (decoded sample_vote) = Err e).
Proof.
  split; [reflexivity|]. apply (tx_decode_roundtrip sample_vote); [apply sample_vote_ok|vm_compute; reflexivity].
Defined.

(** ** Signing and recovering *)

Section sender.
Context `{Keccak, Ecdsa}.

(** The number of a protected signature is recognised, with its chain. *)
Lemma protected_v c v : 0 < c -> 0 <= v <= 1 -> isProtectedV (v + 35 + c * 2) = true.
Proof.
  intros Hc Hv. unfold isProtectedV, big_Uint64. case_bool_decide as Hb; [|done].
  apply BitLen_bound in Hb; [|lia]. rewrite Z.abs_eq in * by lia. rewrite wrapU_small by lia.
  rewrite !bool_decide_false by lia. done.
Qed.

Lemma chain_v c v : 0 < c -> 0 <= v <= 1 -> deriveChainId (v + 35 + c * 2) = c.
Proof.
  intros Hc Hv. unfold deriveChainId, big_Uint64.
  assert ((v + 35 + c * 2 - 35) / 2 = c) as Ediv.
  { replace (v + 35 + c * 2 - 35) with (v + c * 2) by lia. rewrite Z.div_add, Z.div_small by lia. lia. }
  case_bool_decide as Hb; [|done]. apply BitLen_bound in Hb; [|lia]. rewrite Z.abs_eq in * by lia.
  rewrite (wrapU_small 64 (v + 35 + c * 2)) by lia. rewrite !bool_decide_false by lia. simpl.
  rewrite wrapU_small by lia. done.
Qed.

Lemma pad32_be_uint b : bytes_ok b -> length b = 32%nat -> pad32 (be_uint b) = Ok b.
Proof.
  intros Hb Hl. pose proof (be_uint_range b Hb) as Hr. rewrite Hl in Hr. unfold pad32.
  assert (length (big_bytes (be_uint b)) <= 32)%nat as Hle by (apply big_bytes_width; lia).
  destruct (Nat.ltb_spec 32 (length (big_bytes (be_uint b)))); [lia|]. f_equal.
  apply be_uint_inj.
  - apply bytes_ok_app. split; [apply bytes_ok_zeroes|apply big_bytes_ok; lia].
  - done.
  - rewrite length_app. unfold zeroes. rewrite length_replicate. lia.
  - rewrite be_uint_zeroes, be_uint_big_bytes by lia. done.
Qed.

Lemma recoverPlain_sig h rb sb v :
  bytes_ok rb -> length rb = 32%nat -> bytes_ok sb -> length sb = 32%nat -> 0 <= v <= 1 ->
  ValidateSignatureValues v (be_uint rb) (be_uint sb) true = true ->
  recoverPlain h (be_uint rb) (be_uint sb) (v + 27) true =
  match Ecrecover h (rb ++ sb ++ [v]) with
  | None => Err EEcrecover
  | Some pub => if bool_decide (head pub = Some 4) then Ok (pubkey_address pub) else Err EInvalidPubkey
  end.
Proof.
  intros Hrb Hr Hsb Hs Hv Hval. unfold recoverPlain, big_Uint64.
  pose proof (BitLen_le (v + 27) 8 ltac:(lia) ltac:(lia)). rewrite bool_decide_false by lia.
  rewrite Z.abs_eq, (wrapU_small 64) by lia. replace (v + 27 - 27) with v by lia. rewrite wrapU_small by lia.
  rewrite Hval. simpl. by rewrite !pad32_be_uint.
Qed.

(** The values of a signature. *)
Lemma signature_values c rb sb v :
  length rb = 32%nat -> length sb = 32%nat -> 0 <= v <= 1 ->
  bytes_ok rb -> bytes_ok sb ->
  SignatureValues (EIP155Signer c) (rb ++ sb ++ [v]) =
    Ok (be_uint rb, be_uint sb, if bool_decide (c <> 0) then v + 35 + c * 2 else v + 27).
Proof.
  intros Hr Hs Hv Hrb Hsb. unfold SignatureValues. rewrite !length_app, Hr, Hs. simpl.
  rewrite lookup_app_r, lookup_app_r, Hr, Hs by (rewrite ?Hr, ?Hs; lia). simpl.
  rewrite take_app_length' by done. rewrite drop_app_length' by done. rewrite take_app_length' by done.
  case_bool_decide; by rewrite wrapU_small by lia.
Qed.

(** With the chain identifier 0 the hash that is signed is not the one the sender is
    derived from: [Hash] covers the identifier, while V is 27 or 28, for which [Sender]
    takes the hash of the Homestead scheme, under any identifier. *)
Theorem sign_sender_zero tx rb sb v :
  bytes_ok rb -> length rb = 32%nat -> bytes_ok sb -> length sb = 32%nat -> 0 <= v <= 1 ->
  ValidateSignatureValues v (be_uint rb) (be_uint sb) true = true ->
  exists tx', WithSignature (EIP155Signer 0) (rb ++ sb ++ [v]) tx = Ok tx' /\
    forall c, signer_Sender (EIP155Signer c) tx' =
      match Ecrecover (signer_Hash HomesteadSigner tx) (rb ++ sb ++ [v]) with
      | None => Err EEcrecover
      | Some pub => if bool_decide (head pub = Some 4) then Ok (pubkey_address pub) else Err EInvalidPubkey
      end.
Proof.
  intros Hrb Hr Hsb Hs Hv Hval. unfold WithSignature. rewrite signature_values by done. eexists. split; [reflexivity|].
  intros c. cbn [signer_Sender tx_V tx_R tx_S]. rewrite (bool_decide_false (0 <> 0)) by auto.
  assert (isProtectedV (v + 27) = false) as ->.
  { assert (v = 0 \/ v = 1) as [-> | ->] by lia; vm_compute; reflexivity. }
  by apply recoverPlain_sig.
Qed.

(** C36: roundtrip, safety.  Put a signature (r, s, v) with valid values, v 0 or 1, into a
    transaction under a chain identifier other than 0.  Deriving the sender under the same
    identifier hands to [Ecrecover] exactly the signed hash and the bytes of the
    signature, and returns the address of the recovered key; under every other
    identifier it fails, so the transaction cannot be replayed on another chain.  (With
    the identifier 0 neither holds: see [sign_sender_zero].) *)
Theorem sign_sender c tx rb sb v :
  0 < c -> bytes_ok rb -> length rb = 32%nat -> bytes_ok sb -> length sb = 32%nat -> 0 <= v <= 1 ->
  ValidateSignatureValues v (be_uint rb) (be_uint sb) true = true ->
  let s := EIP155Signer c in
  exists tx', WithSignature s (rb ++ sb ++ [v]) tx = Ok tx' /\ signer_Hash s tx' = signer_Hash s tx /\
    signer_Sender s tx' =
      match Ecrecover (signer_Hash s tx) (rb ++ sb ++ [v]) with
      | None => Err EEcrecover
      | Some pub => if bool_decide (head pub = Some 4) then Ok (pubkey_address pub) else Err EInvalidPubkey
      end /\
    forall c', c' <> c -> signer_Sender (EIP155Signer c') tx' = Err ErrInvalidChainId.
Proof.
  intros Hc Hrb Hr Hsb Hs Hv Hval s.
  assert (SignatureValues s (rb ++ sb ++ [v]) = Ok (be_uint rb, be_uint sb, v + 35 + c * 2)) as Esig.
  { unfold s. rewrite signature_values by done. by rewrite bool_decide_true by lia. }
  unfold WithSignature. rewrite Esig. eexists. split; [reflexivity|]. split; [done|]. subst s. cbn [signer_Sender tx_V tx_R tx_S].
  rewrite (protected_v c v), (chain_v c v) by done. simpl negb. cbv iota. split.
  - rewrite (bool_decide_false (c <> c)) by auto. replace (v + 35 + c * 2 - c * 2 - 8) with (v + 27) by lia.
    by apply recoverPlain_sig.
  - intros c' Hne. by rewrite bool_decide_true by done.
Qed.

(** The cache of the sender holds what deriving it gives. *)
Definition cache_ok (t : Transaction) : Prop :=
  forall s a, tx_from t = Some (s, a) -> signer_Sender s (tx_data t) = Ok a.

Lemma signer_Equal_iff s s' : signer_Equal s s' = true <-> s = s'.
Proof. destruct s, s'; simpl; rewrite ?bool_decide_eq_true; naive_solver. Qed.

Lemma Sender_cached s t :
  cache_ok t ->
  match signer_Sender s (tx_data t) with
  | Ok a => exists t', Sender s t = Ok (a, t') /\ tx_data t' = tx_data t /\ cache_ok t'
  | Err e => Sender s t = Err e
  | Panic => Sender s t = Panic
  | OutOfFuel => Sender s t = OutOfFuel
  end.
Proof.
  intros Hc. unfold Sender. destruct (tx_from t) as [[s' a']|] eqn:Ef.
  - specialize (Hc s' a' Ef) as Ha. destruct (signer_Equal s' s) eqn:Es.
    + apply signer_Equal_iff in Es as ->. rewrite Ha. exists t. done.
    + destruct (signer_Sender s (tx_data t)) as [a| | |] eqn:E; simpl; try done.
      eexists. split_and!; [done..|]. by intros ? ? [= <- <-].
  - destruct (signer_Sender s (tx_data t)) as [a| | |] eqn:E; simpl; try done.
    eexists. split_and!; [done..|]. by intros ? ? [= <- <-].
Qed.
End sender.

(** ** What a signature covers *)

(** The transaction without its type and its signature. *)
Definition unsigned_tx (tx : txdata) : txdata :=
  mkTxdata 0 (AccountNonce tx) (Price tx) (tx_GasLimit tx) (Recipient tx) (Amount tx) (Some (default [] (Payload tx))) 0 0 0.

Definition retype (ty : Z) (tx : txdata) : txdata :=
  mkTxdata ty (AccountNonce tx) (Price tx) (tx_GasLimit tx) (Recipient tx) (Amount tx) (Payload tx) (tx_V tx) (tx_R tx) (tx_S tx).

Definition signed_items (s : Signer) (tx : txdata) : item :=
  Lst ([Str (big_bytes (AccountNonce tx)); Str (big_bytes (Price tx)); Str (big_bytes (tx_GasLimit tx));
        to_item (Recipient tx); Str (big_bytes (Amount tx)); Str (default [] (Payload tx))] ++
       match s with EIP155Signer c => [Str (big_bytes c); Str []; Str []] | _ => [] end).

Definition signer_ok (s : Signer) : Prop := match s with EIP155Signer c => 0 <= c | _ => True end.

Lemma signed_items_of s tx :
  tx_ok tx -> signer_ok s ->
  item_of (VList (map (fun p => VIface p.1 p.2) (signed_fields s tx))) (TSlice TInterface) = Some (signed_items s tx).
Proof.
  intros [Hty Hn Hp Hg Ht Ha Hd Hs] Hc. apply iface_items.
  assert (forall to, item_of (match to with Some a => VPtr (VBytes a) | None => VNil end) (TPtr t_Address) = Some (to_item to))
    as Hto by by intros [].
  destruct s as [| |c]; cbn [signed_fields plain_fields map app fst snd seq_items];
    rewrite Hto, !uint_item_of, !big_some_item by (done || (unfold in_uint64; lia)); done.
Qed.

(** C37: safety, a defect.  A signature covers exactly the nonce, price, gas limit,
    recipient, amount, payload and (EIP 155) chain identifier: two transactions
    with the same signing hash agree on them, unless the hash function collides on
    the two encodings.  It does not cover the type: whoever relays a signed
    transfer can turn it into a candidate registration, a vote or a withdrawal of
    a vote, and the sender derived from it stays the same. *)
Theorem tx_sighash_covers `{Keccak, Ecdsa} s1 s2 t1 t2 :
  tx_ok t1 -> tx_ok t2 -> signer_ok s1 -> signer_ok s2 ->
  Z.of_nat (length (encode_item (signed_items s1 t1))) < 2 ^ 64 ->
  Z.of_nat (length (encode_item (signed_items s2 t2))) < 2 ^ 64 ->
  no_collision [encode_item (signed_items s1 t1)] [encode_item (signed_items s2 t2)] ->
  (signer_Hash s1 t1 = signer_Hash s2 t2 ->
     unsigned_tx t1 = unsigned_tx t2 /\
     match s1, s2 with
     | EIP155Signer c1, EIP155Signer c2 => c1 = c2
     | EIP155Signer _, _ | _, EIP155Signer _ => False
     | _, _ => True
     end) /\
  (forall ty, signer_Sender s1 (retype ty t1) = signer_Sender s1 t1).
Proof.
  intros O1 O2 G1 G2 L1 L2 Hnc. split; [|by destruct s1].
  unfold signer_Hash. rewrite (rlpHash_item _ _ _ (signed_items_of s1 t1 O1 G1)), (rlpHash_item _ _ _ (signed_items_of s2 t2 O2 G2)) by done.
  intros E. apply keccak_item_inj in E; [|done..].
  destruct O1 as [_ N1 P1 Q1 T1 A1 D1 _], O2 as [_ N2 P2 Q2 T2 A2 D2 _]. unfold in_uint64 in *.
  assert (forall x y, from_option address_ok True x -> from_option address_ok True y -> default [] x = default [] y -> x = y) as Hto.
  { intros [x|] [y|] Hx Hy Exy; simpl in *; try done; [congruence|destruct Hx; by subst|destruct Hy; by subst]. }
  assert (unsigned_tx t1 = unsigned_tx t2 /\ match s1 with EIP155Signer c => [Str (big_bytes c); Str []; Str []] | _ => [] end =
    match s2 with EIP155Signer c => [Str (big_bytes c); Str []; Str []] | _ => [] end) as [Eu Es].
  { unfold signed_items, to_item in E. injection E as En Ep Eg Et Ea Ed Es. split; [|done]. unfold unsigned_tx.
    apply big_bytes_inj in En, Ep, Eg, Ea; [|lia..]. apply Hto in Et; [|done..]. by rewrite En, Ep, Eg, Ea, Ed, Et. }
  split; [done|]. destruct s1, s2; try done. injection Es as Es. by apply big_bytes_inj in Es.
Qed.

(** ** Concrete signatures *)

(** A recovery function: the key is made of the signature. *)
Definition toy_ecdsa : Ecdsa := {| Ecrecover := fun _ sig => Some (4 :: sig) |}.

Definition one32 : list Z := zeroes 31 ++ [1].

Lemma one32_ok : bytes_ok one32.
Proof. apply (bool_decide_unpack (bytes_ok one32)). vm_compute. exact I. Qed.

Lemma sign_sender_witness :
  let s := EIP155Signer 1337 in
  exists tx', WithSignature s (one32 ++ one32 ++ [1]) sample_vote = Ok tx' /\ tx_V tx' = 2710 /\
    @signer_Sender sha3_keccak toy_ecdsa s tx' = Ok (@pubkey_address sha3_keccak (4 :: one32 ++ one32 ++ [1])) /\
    @signer_Sender sha3_keccak toy_ecdsa (EIP155Signer 1) tx' = Err ErrInvalidChainId.
Proof.
  intros s. destruct (@sign_sender sha3_keccak toy_ecdsa 1337 sample_vote one32 one32 1) as (tx' & E & _ & Es & Hr);
    [lia|apply one32_ok|reflexivity|apply one32_ok|reflexivity|lia|vm_compute; reflexivity|].
  exists tx'. split; [exact E|]. split; [vm_compute in E; injection E as <-; reflexivity|].
  split; [exact Es|]. apply Hr. lia.
Defined.

(** The same signature on a transfer and on a vote. *)
Lemma tx_sighash_covers_witness :
  @signer_Sender sha3_keccak toy_ecdsa (EIP155Signer 1) (retype tx_Binary sample_vote) =
  @signer_Sender sha3_keccak toy_ecdsa (EIP155Signer 1) sample_vote.
Proof.
  assert (forall ty, @signer_Sender sha3_keccak toy_ecdsa (EIP155Signer 1) (retype ty sample_vote) =
                     @signer_Sender sha3_keccak toy_ecdsa (EIP155Signer 1) sample_vote) as Hty.
  { apply (@tx_sighash_covers sha3_keccak toy_ecdsa (EIP155Signer 1) (EIP155Signer 1) sample_vote sample_vote);
      [apply sample_vote_ok|apply sample_vote_ok|simpl; lia..|vm_compute; reflexivity|vm_compute; reflexivity|].
    intros x y. rewrite !list_elem_of_singleton. congruence. }
  exact (Hty tx_Binary).
Defined.
