(* ===== verification/Block.v ===== *)
(** * Blocks, receipts and bloom filters ([src/core/types/block.go], [receipt.go],
      [log.go], [bloom9.go], [derive_sha.go])

    The body of a block and its assembly by [NewBlock], the receipts with their
    two encodings, the log bloom filter, and the list root [DeriveSha].

    [bloom_complete]: a bloom filter never misses a log it was made from.
    [derive_sha_binding]: the transaction and receipt roots of a header bind the
    lists.  [receipt_roundtrip]: receipts survive the database encoding. *)

From S2P Require Import Prelude Common TrieEncoding Trie TrieSpec TrieMap.
From S2P Require Import TrieCanon Rlp Sha3 TrieHash TrieMerkle RlpRaw.
From S2P Require Import TrieBinding RlpStream DposContext Header Transaction.

(** ** Logs and receipts *)

Record Log := mkLog {
  l_Address : list Z;
  l_Topics : list (list Z);
  l_Data : list Z;
  l_BlockNumber : Z;
  l_TxHash : list Z;
  l_TxIndex : Z;
  l_BlockHash : list Z;
  l_Index : Z;
  l_Removed : bool
}.

Record Receipt := mkReceipt {
  PostState : list Z;
  Status : Z;
  CumulativeGasUsed : Z;
  r_Bloom : list Z;
  Logs : list Log;
  r_TxHash : list Z;
  ContractAddress : list Z;
  r_GasUsed : Z
}.

Definition ReceiptStatusFailed : Z := 0.
Definition ReceiptStatusSuccessful : Z := 1.

(** [NewReceipt] *)
Definition NewReceipt (root : list Z) (failed : bool) (cumulativeGasUsed : Z) : Receipt :=
  mkReceipt root (if failed then ReceiptStatusFailed else ReceiptStatusSuccessful) cumulativeGasUsed
    (zeroes BloomByteLength) [] emptyHash emptyAddress 0.

(** [Receipt.statusEncoding] and [setStatus] *)
Definition statusEncoding (r : Receipt) : list Z :=
  match PostState r with
  | [] => if bool_decide (Status r = ReceiptStatusFailed) then [] else [1]
  | p => p
  end.

Definition set_status (status : Z) (post : list Z) (r : Receipt) : Receipt :=
  mkReceipt post status (CumulativeGasUsed r) (r_Bloom r) (Logs r) (r_TxHash r) (ContractAddress r) (r_GasUsed r).

Definition setStatus (postStateOrStatus : list Z) (r : Receipt) : outcome tx_error Receipt :=
  if bool_decide (postStateOrStatus = [1]) then Ok (set_status ReceiptStatusSuccessful (PostState r) r)
  else if bool_decide (postStateOrStatus = []) then Ok (set_status ReceiptStatusFailed (PostState r) r)
  else if (length postStateOrStatus =? HashLength)%nat then Ok (set_status (Status r) postStateOrStatus r)
  else Err (ETxMsg "invalid receipt status").

(** [rlpLog] and [rlpStorageLog] *)
Definition t_rlpLog : rtype := TStruct [t_Address; TSlice t_Hash; TBytes].
Definition t_rlpStorageLog : rtype :=
  TStruct [t_Address; TSlice t_Hash; TBytes; TUint 64; t_Hash; TUint 64; t_Hash; TUint 64].

Definition log_rval (l : Log) : rval := VList [VBytes (l_Address l); VList (map VBytes (l_Topics l)); VBytes (l_Data l)].
Definition storage_log_rval (l : Log) : rval :=
  VList [VBytes (l_Address l); VList (map VBytes (l_Topics l)); VBytes (l_Data l); VUint (l_BlockNumber l);
         VBytes (l_TxHash l); VUint (l_TxIndex l); VBytes (l_BlockHash l); VUint (l_Index l)].

(** [Receipt.EncodeRLP] *)
Definition t_receiptRLP : rtype := TStruct [TBytes; TUint 64; TByteArray BloomByteLength; TSlice t_rlpLog].
Definition receipt_rval (r : Receipt) : rval :=
  VList [VBytes (statusEncoding r); VUint (CumulativeGasUsed r); VBytes (r_Bloom r); VList (map log_rval (Logs r))].
Definition receipt_Encode (r : Receipt) : outcome rlp_error (list Z) :=
  EncodeToBytes (TPtr t_receiptRLP) (VPtr (receipt_rval r)).

(** [ReceiptForStorage.EncodeRLP] *)
Definition t_receiptStorageRLP : rtype :=
  TStruct [TBytes; TUint 64; TByteArray BloomByteLength; t_Hash; t_Address; TSlice t_rlpStorageLog; TUint 64].
Definition storage_rval (r : Receipt) : rval :=
  VList [VBytes (statusEncoding r); VUint (CumulativeGasUsed r); VBytes (r_Bloom r); VBytes (r_TxHash r);
         VBytes (ContractAddress r); VList (map storage_log_rval (Logs r)); VUint (r_GasUsed r)].
Definition storage_Encode (r : Receipt) : outcome rlp_error (list Z) :=
  EncodeToBytes (TPtr t_receiptStorageRLP) (VPtr (storage_rval r)).

(** [LogForStorage.DecodeRLP] and [ReceiptForStorage.DecodeRLP], into a new
    receipt. *)
Definition bytes_of (v : rval) : list Z := match v with VBytes b => b | _ => [] end.

Definition storage_log_of (v : rval) : option Log :=
  match v with
  | VList [VBytes a; VList ts; VBytes d; VUint bn; VBytes th; VUint ti; VBytes bh; VUint i] =>
      Some (mkLog a (map bytes_of ts) d bn th ti bh i false)
  | _ => None
  end.

Definition storage_of (v : rval) : outcome tx_error Receipt :=
  match v with
  | VList [VBytes st; VUint cum; VBytes bloom; VBytes th; VBytes ca; VList ls; VUint gas] =>
      logs ← or_panic (mapM storage_log_of ls);
      setStatus st (mkReceipt [] 0 cum bloom logs th ca gas)
  | _ => Panic
  end.

Definition storage_Decode (b : list Z) : outcome tx_error Receipt :=
  v ← map_err (fun _ => ETxMsg "rlp") (DecodeBytes b t_receiptStorageRLP);
  storage_of v.

(** ** Bloom filters *)

Section bloom.
Context `{Keccak}.

(** One of the three bits of [bloom9]. *)
Definition bloom_bit (b : list Z) (i : nat) : outcome Empty_set Z :=
  hi ← or_panic (b !! i);
  lo ← or_panic (b !! S i);
  Ok (Z.shiftl 1 (Z.land (lo + Z.shiftl hi 8) 2047)).

(** [bloom9] *)
Definition bloom9 (b : list Z) : outcome Empty_set Z :=
  let b := keccak256 b in
  x ← bloom_bit b 0;
  y ← bloom_bit b 2;
  z ← bloom_bit b 4;
  Ok (Z.lor (Z.lor (Z.lor 0 x) y) z).

(** [bin.Or(bin, bloom9(b))] for each element. *)
Fixpoint or_all (bin : Z) (bs : list (list Z)) : outcome Empty_set Z :=
  match bs with
  | [] => Ok bin
  | b :: bs => x ← bloom9 b; or_all (Z.lor bin x) bs
  end.

(** [LogsBloom] *)
Fixpoint logs_bloom (bin : Z) (logs : list Log) : outcome Empty_set Z :=
  match logs with
  | [] => Ok bin
  | l :: logs => bin ← or_all bin (l_Address l :: l_Topics l); logs_bloom bin logs
  end.
Definition LogsBloom (logs : list Log) : outcome Empty_set Z := logs_bloom 0 logs.

(** [BytesToBloom]: panics when there are too many bytes. *)
Definition BytesToBloom (d : list Z) : outcome Empty_set (list Z) :=
  if (BloomByteLength <? length d)%nat then Panic else Ok (zeroes (BloomByteLength - length d) ++ d).

(** [CreateBloom] *)
Fixpoint receipts_bloom (bin : Z) (receipts : list Receipt) : outcome Empty_set Z :=
  match receipts with
  | [] => Ok bin
  | r :: receipts => x ← LogsBloom (Logs r); receipts_bloom (Z.lor bin x) receipts
  end.
Definition CreateBloom (receipts : list Receipt) : outcome Empty_set (list Z) :=
  bin ← receipts_bloom 0 receipts;
  BytesToBloom (big_bytes bin).

(** [BloomLookup] *)
Definition BloomLookup (bin : list Z) (topic : list Z) : outcome Empty_set bool :=
  cmp ← bloom9 topic;
  Ok (bool_decide (Z.land (be_uint bin) cmp = cmp)).
End bloom.

(** ** List roots *)

Section derive_sha.
Context `{Keccak}.

(** The key of an index: [rlp.Encode(keybuf, uint(i))]. *)
Definition index_key (i : nat) : list Z := match Encode (TUint 64) (VUint (Z.of_nat i)) with Ok b => b | _ => [] end.

(** The loop of [DeriveSha] over the encodings [GetRlp] returns. *)
Fixpoint derive_loop (i : nat) (l : list (list Z)) (t : Trie) : outcome trie_error Trie :=
  match l with
  | [] => Ok t
  | b :: l => t ← Update no_db t (index_key i) b; derive_loop (S i) l t
  end.

Definition DeriveSha (l : list (list Z)) : outcome trie_error (list Z) :=
  t ← derive_loop 0 l (mkTrie Nil emptyHash None 0 0);
  '(h, _) ← Hash t;
  Ok h.
End derive_sha.

(** ** Blocks *)

(** [Block] and [Body]; the caches of hash and size, the total difficulty and the
    bookkeeping of the network are left out. *)
Record Block := mkBlock {
  b_header : Header;
  b_uncles : list Header;
  b_transactions : list txdata;
  b_DposContext : option DposContext
}.

Section blocks.
Context `{Keccak}.

(** [CalcUncleHash] and [EmptyUncleHash] *)
Definition CalcUncleHash (uncles : list Header) : list Z := rlpHash (TSlice t_Header) (VList (map header_rval uncles)).
Definition EmptyUncleHash : list Z := CalcUncleHash [].

(** [Transactions.GetRlp] and [Receipts.GetRlp]: the first ignores an encoding
    error, the second panics. *)
Definition tx_GetRlp (tx : txdata) : list Z := match tx_Encode tx with Ok b => b | _ => [] end.
Definition receipt_GetRlp (r : Receipt) : outcome trie_error (list Z) :=
  match receipt_Encode r with Ok b => Ok b | _ => Panic end.

Definition set_body_hashes (tx receipt bloom uncle : list Z) (h : Header) : Header :=
  mkHeader (ParentHash h) uncle (Validator h) (Coinbase h) (h_Root h) tx receipt (h_DposContext h) bloom (Difficulty h)
    (Number h) (GasLimit h) (GasUsed h) (Time h) (Extra h) (MixDigest h) (Nonce h) (MaxValidatorSize h) (BlockInterval h).

(** [NewBlock] *)
Definition NewBlock (header : Header) (txs : list txdata) (uncles : list Header) (receipts : list Receipt)
  : outcome trie_error Block :=
  let h := CopyHeader header in
  txHash ← DeriveSha (map tx_GetRlp txs);
  rlps ← mapM receipt_GetRlp receipts;
  receiptHash ← DeriveSha rlps;
  bloom ← match receipts with
          | [] => Ok (Bloom h)
          | _ => match CreateBloom receipts with Ok b => Ok b | _ => Panic end
          end;
  let uncleHash := match uncles with [] => EmptyUncleHash | _ => CalcUncleHash uncles end in
  Ok (mkBlock (set_body_hashes txHash receiptHash bloom uncleHash h) (map CopyHeader uncles) txs None).

(** [NewBlockWithHeader], [Block.WithSeal], [Block.WithBody], [Block.Header] *)
Definition NewBlockWithHeader (header : Header) : Block := mkBlock (CopyHeader header) [] [] None.
Definition WithSeal (b : Block) (header : Header) : Block :=
  mkBlock header (b_uncles b) (b_transactions b) (b_DposContext b).
Definition WithBody (b : Block) (transactions : list txdata) (uncles : list Header) : Block :=
  mkBlock (CopyHeader (b_header b)) (map CopyHeader uncles) transactions None.
Definition block_Header (b : Block) : Header := CopyHeader (b_header b).
Definition block_Hash (b : Block) : list Z := Header_Hash (b_header b).
End blocks.

(** ** Bloom filters never miss *)

Section bloom_spec.
Context `{Keccak}.

(** Every bit of [x] is set in [y], which has at most 2048 bits. *)
Definition within (x y : Z) : Prop := Z.land y x = x.

Lemma within_lor_l x y z : within x y -> within x (Z.lor y z).
Proof.
  unfold within. intros E. apply Z.bits_inj'. intros n Hn. apply (f_equal (fun w => Z.testbit w n)) in E.
  rewrite Z.land_spec, Z.lor_spec in *. destruct (Z.testbit x n), (Z.testbit y n), (Z.testbit z n); done.
Qed.

Lemma within_lor_r x y : within x (Z.lor y x).
Proof.
  unfold within. apply Z.bits_inj'. intros n Hn. rewrite Z.land_spec, Z.lor_spec.
  by destruct (Z.testbit x n), (Z.testbit y n).
Qed.

Definition in_bloom (x : Z) : Prop := 0 <= x < 2 ^ 2048.

Lemma log2_bloom x : in_bloom x -> Z.log2 x < 2048.
Proof.
  intros [H1 H2]. destruct (decide (x = 0)) as [->|]; [simpl; lia|]. apply Z.log2_lt_pow2; lia.
Qed.

Lemma in_bloom_lor x y : in_bloom x -> in_bloom y -> in_bloom (Z.lor x y).
Proof.
  intros Hx Hy. pose proof (log2_bloom x Hx). pose proof (log2_bloom y Hy). unfold in_bloom in *.
  assert (0 <= Z.lor x y) by (apply Z.lor_nonneg; lia). split; [done|].
  destruct (decide (Z.lor x y = 0)) as [->|Hne]; [lia|]. apply Z.log2_lt_pow2; [lia|]. rewrite Z.log2_lor by lia. lia.
Qed.

Lemma bloom_bit_ok b i : (S i < length b)%nat -> exists x, bloom_bit b i = Ok x /\ in_bloom x.
Proof.
  intros Hi. unfold bloom_bit. destruct (lookup_lt_is_Some_2 b i) as [x ->]; [lia|].
  destruct (lookup_lt_is_Some_2 b (S i)) as [y ->]; [lia|]. simpl. eexists. split; [done|].
  unfold in_bloom. rewrite Z.shiftl_1_l. change 2047 with (Z.ones 11). rewrite Z.land_ones by lia.
  pose proof (Z.mod_pos_bound (y + Z.shiftl x 8) (2 ^ 11) ltac:(lia)).
  split; [apply Z.pow_nonneg; lia|apply Z.pow_lt_mono_r; lia].
Qed.

Lemma bloom9_ok b : exists x, bloom9 b = Ok x /\ in_bloom x.
Proof.
  unfold bloom9. destruct (keccak256_ok b) as [Hl _].
  destruct (bloom_bit_ok (keccak256 b) 0) as (x & -> & Hx); [lia|].
  destruct (bloom_bit_ok (keccak256 b) 2) as (y & -> & Hy); [lia|].
  destruct (bloom_bit_ok (keccak256 b) 4) as (z & -> & Hz); [lia|]. simpl. eexists. split; [done|].
  repeat apply in_bloom_lor; try done.
Qed.

(** The filter [bin'] extends [bin] and has the bits of the elements of [bs]. *)
Definition extends (bin bin' : Z) (bs : list (list Z)) : Prop :=
  in_bloom bin' /\ (forall x, within x bin -> within x bin') /\
  forall b x, b ∈ bs -> bloom9 b = Ok x -> within x bin'.

Lemma extends_app bin bin1 bin2 bs1 bs2 :
  extends bin bin1 bs1 -> extends bin1 bin2 bs2 -> extends bin bin2 (bs1 ++ bs2).
Proof.
  intros (H1 & M1 & B1) (H2 & M2 & B2). split_and!; [done|auto|].
  intros b x. rewrite elem_of_app. intros [Hb|Hb] Ex; eauto.
Qed.

Lemma or_all_ok bs bin : in_bloom bin -> exists bin', or_all bin bs = Ok bin' /\ extends bin bin' bs.
Proof.
  revert bin. induction bs as [|b bs IH]; intros bin Hb; simpl.
  - exists bin. split; [done|]. split_and!; [done..|]. by intros ? ? ?%not_elem_of_nil.
  - destruct (bloom9_ok b) as (x & Ex & Hx). rewrite Ex. simpl.
    destruct (IH (Z.lor bin x)) as (bin' & E & Hext); [by apply in_bloom_lor|]. exists bin'. split; [done|].
    apply (extends_app bin (Z.lor bin x) bin' [b] bs); [|done]. split_and!; [by apply in_bloom_lor|auto using within_lor_l|].
    intros b' x' Hb'. apply list_elem_of_singleton in Hb' as ->. rewrite Ex. intros [= <-]. apply within_lor_r.
Qed.

Definition log_elements (l : Log) : list (list Z) := l_Address l :: l_Topics l.

Lemma logs_bloom_ok logs bin :
  in_bloom bin -> exists bin', logs_bloom bin logs = Ok bin' /\ extends bin bin' (concat (map log_elements logs)).
Proof.
  revert bin. induction logs as [|l logs IH]; intros bin Hb; simpl.
  - exists bin. split; [done|]. split_and!; [done..|]. by intros ? ? ?%not_elem_of_nil.
  - destruct (or_all_ok (log_elements l) bin Hb) as (b1 & E1 & X1). unfold log_elements in E1. cbn [or_all] in E1.
    rewrite E1. simpl. destruct (IH b1) as (b2 & E2 & X2); [apply X1|]. exists b2. split; [done|].
    by apply (extends_app _ b1 _ (log_elements l)).
Qed.

Definition receipt_elements (r : Receipt) : list (list Z) := concat (map log_elements (Logs r)).

Lemma receipts_bloom_ok rs bin :
  in_bloom bin -> exists bin', receipts_bloom bin rs = Ok bin' /\ extends bin bin' (concat (map receipt_elements rs)).
Proof.
  revert bin. induction rs as [|r rs IH]; intros bin Hb; simpl.
  - exists bin. split; [done|]. split_and!; [done..|]. by intros ? ? ?%not_elem_of_nil.
  - unfold LogsBloom. destruct (logs_bloom_ok (Logs r) 0) as (x & E1 & X1 & M1 & B1); [unfold in_bloom; lia|].
    rewrite E1. simpl. destruct (IH (Z.lor bin x)) as (b2 & E2 & X2); [by apply in_bloom_lor|]. exists b2. split; [done|].
    apply (extends_app _ (Z.lor bin x) _ (receipt_elements r)); [|done].
    split_and!; [by apply in_bloom_lor|auto using within_lor_l|]. intros b y Hb' Ey.
    rewrite Z.lor_comm. apply within_lor_l. by eapply B1.
Qed.

Lemma CreateBloom_ok rs : exists bloom, CreateBloom rs = Ok bloom.
Proof.
  unfold CreateBloom. destruct (receipts_bloom_ok rs 0) as (bin & E & Hin & _ & _); [unfold in_bloom; lia|].
  rewrite E. cbn [mbind outcome_bind]. unfold BytesToBloom.
  assert (length (big_bytes bin) <= 256)%nat as Hl.
  { apply big_bytes_width. replace (256 ^ Z.of_nat 256) with (2 ^ 2048) by reflexivity. apply Hin. }
  unfold BloomByteLength at 1. destruct (Nat.ltb_spec 256 (length (big_bytes bin))); [lia|]. by eexists.
Qed.

(** The filter of a block is built without panicking, has exactly 256
    bytes, and every address and topic of every log of its receipts is found in
    it: looking up a log that is there never answers no. *)
Theorem bloom_complete rs :
  exists bloom, CreateBloom rs = Ok bloom /\ length bloom = BloomByteLength /\
    forall r l x, r ∈ rs -> l ∈ Logs r -> x = l_Address l \/ x ∈ l_Topics l -> BloomLookup bloom x = Ok true.
Proof.
  unfold CreateBloom. destruct (receipts_bloom_ok rs 0) as (bin & E & Hin & _ & Hall); [unfold in_bloom; lia|].
  rewrite E. cbn [mbind outcome_bind]. unfold BytesToBloom.
  assert (length (big_bytes bin) <= 256)%nat as Hl.
  { apply big_bytes_width. replace (256 ^ Z.of_nat 256) with (2 ^ 2048) by reflexivity. apply Hin. }
  unfold BloomByteLength at 1. destruct (Nat.ltb_spec 256 (length (big_bytes bin))); [lia|].
  eexists. split; [done|]. split; [rewrite length_app; unfold zeroes; rewrite length_replicate; unfold BloomByteLength; lia|].
  intros r l x Hr Hlg Hx. unfold BloomLookup. destruct (bloom9_ok x) as (y & Ey & _). rewrite Ey. simpl.
  assert (within y bin) as Hw.
  { eapply (Hall x y); [|done]. apply list_elem_of_In, in_concat. exists (receipt_elements r).
    split; [by apply in_map, list_elem_of_In|]. apply in_concat. exists (log_elements l).
    split; [by apply in_map, list_elem_of_In|]. apply list_elem_of_In. unfold log_elements. set_solver. }
  assert (be_uint (zeroes (BloomByteLength - length (big_bytes bin)) ++ big_bytes bin) = bin) as ->.
  { rewrite be_uint_zeroes. apply be_uint_big_bytes, Hin. }
  by rewrite bool_decide_true.
Qed.
End bloom_spec.

(** ** List roots bind the list *)

Section list_roots.
Context `{Keccak}.

Lemma index_key_spec i : Z.of_nat i < 2 ^ 64 -> index_key i = encode_str (big_bytes (Z.of_nat i)).
Proof.
  intros Hi. unfold index_key.
  destruct (encode_ok (VUint (Z.of_nat i)) (TUint 64) (Str (big_bytes (Z.of_nat i)))) as [_ ->]; [| |done].
  - apply uint_item_of. unfold in_uint64. lia.
  - cbn [encode_item]. assert (length (big_bytes (Z.of_nat i)) <= 8)%nat by (apply big_bytes_width; lia).
    pose proof (encode_str_length (big_bytes (Z.of_nat i)) ltac:(lia)). lia.
Qed.

Lemma index_key_length i : Z.of_nat i < 2 ^ 64 -> Z.of_nat (length (index_key i)) <= 17.
Proof.
  intros Hi. rewrite index_key_spec by done.
  assert (length (big_bytes (Z.of_nat i)) <= 8)%nat by (apply big_bytes_width; lia).
  pose proof (encode_str_length (big_bytes (Z.of_nat i)) ltac:(lia)). lia.
Qed.

Lemma index_key_inj i j : Z.of_nat i < 2 ^ 64 -> Z.of_nat j < 2 ^ 64 -> index_key i = index_key j -> i = j.
Proof.
  intros Hi Hj E. pose proof (index_key_length i Hi) as Hl. rewrite !index_key_spec in * by done.
  apply (encode_item_inj (Str _) (Str _)) in E; [|cbn [encode_item]; lia]. injection E as E.
  apply big_bytes_inj in E; lia.
Qed.

Lemma index_key_ok i : Z.of_nat i < 2 ^ 64 -> bytes_ok (index_key i).
Proof.
  intros Hi. rewrite index_key_spec by done. pose proof (big_bytes_ok (Z.of_nat i)) as Hb.
  assert (length (big_bytes (Z.of_nat i)) <= 8)%nat by (apply big_bytes_width; lia).
  destruct (single (big_bytes (Z.of_nat i))) eqn:Es.
  - destruct (big_bytes (Z.of_nat i)) as [|x [|]]; try done. simpl. case_bool_decide; [done|].
    constructor; [unfold is_byte; lia|done].
  - rewrite encode_str_frame by done. apply bytes_ok_app. split; [|done].
    unfold header. rewrite bool_decide_true by lia. repeat constructor; lia.
Qed.

(** The bindings of the trie that [DeriveSha] builds. *)
Fixpoint derive_map (i : nat) (l : list (list Z)) (m : gmap (list Z) (list Z)) : gmap (list Z) (list Z) :=
  match l with
  | [] => m
  | b :: l => derive_map (S i) l (<[index_key i := b]> m)
  end.

Lemma derive_loop_ok l i t m :
  sound no_db t m -> Forall (fun b => b <> []) l -> Z.of_nat (i + length l) < 2 ^ 64 ->
  exists t', derive_loop i l t = Ok t' /\ sound no_db t' (derive_map i l m).
Proof.
  intros Hs Hl. revert i t m Hs. induction Hl as [|b l Hb _ IH]; intros i t m Hs Hi; [by exists t|].
  cbn [derive_loop derive_map length] in *.
  destruct (trie_step_sound no_db ltac:(intros ? ? ? E; discriminate E) t m (OpUpdate (index_key i) b) Hs) as (t' & E & Hs').
  { apply index_key_ok. lia. }
  cbn [trie_step map_step fst snd] in *. unfold Update. destruct (TryUpdate no_db t (index_key i) b) as [u| | |]; try done.
  simpl in E. injection E as ->. cbn [mbind outcome_bind]. apply IH; [|lia]. unfold put in Hs'. by destruct b.
Qed.

Lemma derive_map_lookup l i m j :
  Z.of_nat (i + length l) < 2 ^ 64 -> Z.of_nat j < 2 ^ 64 ->
  (forall k, (i <= k)%nat -> Z.of_nat k < 2 ^ 64 -> m !! index_key k = None) ->
  derive_map i l m !! index_key j = if (j <? i)%nat then m !! index_key j else l !! (j - i)%nat.
Proof.
  revert i m. induction l as [|b l IH]; intros i m Hl Hj Hm; cbn [derive_map length] in *.
  - destruct (Nat.ltb_spec j i); [done|]. by rewrite Hm.
  - rewrite IH; [|lia|lia|].
    + destruct (Nat.ltb_spec j (S i)), (Nat.ltb_spec j i); try lia.
      * rewrite lookup_insert_ne; [done|]. intros E%index_key_inj; lia.
      * assert (j = i) as -> by lia. rewrite lookup_insert_eq, Nat.sub_diag. done.
      * replace (j - i)%nat with (S (j - S i)) by lia. done.
    + intros k Hk Hk'. rewrite lookup_insert_ne; [apply Hm; lia|]. intros E%index_key_inj; lia.
Qed.

Lemma derive_map_key l i m k v :
  Z.of_nat (i + length l) < 2 ^ 64 ->
  derive_map i l m !! k = Some v -> m !! k = Some v \/ exists j, Z.of_nat j < 2 ^ 64 /\ k = index_key j /\ v ∈ l.
Proof.
  revert i m. induction l as [|b l IH]; intros i m Hl Hk; cbn [derive_map length] in *; [by left|].
  destruct (IH (S i) _ ltac:(lia) Hk) as [H1|(j & Hj & -> & Hv)]; [|right; exists j; set_solver].
  apply lookup_insert_Some in H1 as [[<- <-]|[_ H1]]; [right; exists i; split_and!; [lia|done|set_solver]|by left].
Qed.

(** Lists the encoder and the trie can hold. *)
Definition list_ok (l : list (list Z)) : Prop :=
  Z.of_nat (length l) < 2 ^ 32 /\ Forall (fun b => b <> [] /\ Z.of_nat (length b) < 2 ^ 32) l.

Lemma derive_sound l :
  list_ok l -> exists t, derive_loop 0 l (mkTrie Nil emptyHash None 0 0) = Ok t /\ sound no_db t (derive_map 0 l ∅) /\
    short_map (derive_map 0 l ∅) /\ forall j, Z.of_nat j < 2 ^ 64 -> derive_map 0 l ∅ !! index_key j = l !! j.
Proof.
  intros [Hl Hf]. destruct (derive_loop_ok l 0 (mkTrie Nil emptyHash None 0 0) ∅) as (t & E & Hs).
  - constructor; [by apply represents_empty|exact I].
  - eapply Forall_impl; [exact Hf|]. naive_solver.
  - simpl. lia.
  - exists t. split_and!; [done|done| |].
    + intros k v Hk. apply derive_map_key in Hk as [Hk|(j & Hj & -> & Hv)]; [by apply lookup_empty_Some in Hk| |simpl; lia].
      pose proof (index_key_length j Hj). rewrite Forall_forall in Hf. destruct (Hf v Hv). lia.
    + intros j Hj. rewrite derive_map_lookup by (simpl; lia || done). simpl. by rewrite Nat.sub_0_r.
Qed.

Lemma derive_sha_ok l : list_ok l -> exists h, DeriveSha l = Ok h.
Proof.
  intros Hl. destruct (derive_sound l Hl) as (t & E & S & _). destruct (Hash_spec _ _ _ S) as (u & Eh & _).
  unfold DeriveSha. rewrite E. simpl. rewrite Eh. by eexists.
Qed.

(** [DeriveSha] succeeds on every list of non-empty encodings, and two
    lists with the same root are equal, unless the hash function collides on the
    encoded nodes of the two tries: the transaction root and the receipt root of a
    header bind the transactions and receipts, their number and their order. *)
Theorem derive_sha_binding l1 l2 :
  keccak256 [128] = emptyRoot -> list_ok l1 -> list_ok l2 ->
  (forall x y, node_blob (derive_map 0 l1 ∅) x -> node_blob (derive_map 0 l2 ∅) y -> keccak256 x = keccak256 y -> x = y) ->
  exists h1 h2, DeriveSha l1 = Ok h1 /\ DeriveSha l2 = Ok h2 /\ (h1 = h2 -> l1 = l2).
Proof.
  intros He O1 O2 Hnc. assert (db_coherent no_db) as Hdb by (intros ? ? ? E; discriminate E).
  destruct (derive_sound l1 O1) as (t1 & E1 & S1 & M1 & L1). destruct (derive_sound l2 O2) as (t2 & E2 & S2 & M2 & L2).
  destruct (Hash_spec _ _ _ S1) as (u1 & H1 & _), (Hash_spec _ _ _ S2) as (u2 & H2 & _).
  exists (merkle_root (root t1)), (merkle_root (root t2)). unfold DeriveSha. rewrite E1, E2. simpl. rewrite H1, H2.
  split_and!; [done..|]. intros Er. pose proof (sound_binding _ _ _ _ _ _ He Hdb Hdb S1 S2 M1 M2 Hnc Er) as Em.
  apply list_eq. intros j. destruct (decide (Z.of_nat j < 2 ^ 32)) as [Hj|Hj].
  - rewrite <- L1, <- L2, Em by lia. done.
  - destruct O1 as [N1 _], O2 as [N2 _]. by rewrite !lookup_ge_None_2 by lia.
Qed.
End list_roots.

(** A list of one element. *)
Lemma derive_sha_binding_witness :
  exists h1 h2, @DeriveSha sha3_keccak [[5]] = Ok h1 /\ @DeriveSha sha3_keccak [[5]] = Ok h2 /\ (h1 = h2 -> [[5]] = [[5]]).
Proof.
  assert (list_ok [[5]]) as Hok by (split; [simpl; lia|constructor; [simpl; split; [discriminate|lia]|constructor]]).
  destruct (@derive_sound sha3_keccak [[5]] Hok) as (t & E & S & _).
  assert (exists b, @root_blobs sha3_keccak (root t) = [b]) as [b Eb].
  { vm_compute in E. injection E as <-. by eexists. }
  apply (@derive_sha_binding sha3_keccak [[5]] [[5]] sha3_empty_root Hok Hok).
  intros x y Hx Hy _. apply (node_blob_of _ _ _ (sound_rep _ _ _ S)) in Hx, Hy.
  rewrite Eb, list_elem_of_singleton in Hx, Hy. congruence.
Defined.

(** ** Receipts survive the database *)

Record log_ok (l : Log) : Prop := {
  lok_address : address_ok (l_Address l);
  lok_topics : Forall Common.hash_ok (l_Topics l);
  lok_data : bytes_ok (l_Data l);
  lok_number : in_uint64 (l_BlockNumber l) /\ in_uint64 (l_TxIndex l) /\ in_uint64 (l_Index l);
  lok_hashes : Common.hash_ok (l_TxHash l) /\ Common.hash_ok (l_BlockHash l);
  lok_kept : l_Removed l = false
}.

(** A receipt has a status (0 or 1) or, before Byzantium, a state root. *)
Record receipt_ok (r : Receipt) : Prop := {
  rok_status : (PostState r = [] /\ (Status r = 0 \/ Status r = 1)) \/ (Common.hash_ok (PostState r) /\ Status r = 0);
  rok_gas : in_uint64 (CumulativeGasUsed r) /\ in_uint64 (r_GasUsed r);
  rok_bloom : length (r_Bloom r) = BloomByteLength /\ bytes_ok (r_Bloom r);
  rok_hash : Common.hash_ok (r_TxHash r);
  rok_address : address_ok (ContractAddress r);
  rok_logs : Forall log_ok (Logs r)
}.

Lemma canon_fixed n b : length b = n -> bytes_ok b -> n <> 1%nat -> canon (TByteArray n) (VBytes b).
Proof. intros <- Hb Hn. apply canon_array; [done|]. by intros ->. Qed.

Lemma canon_u64 z : in_uint64 z -> canon (TUint 64) (VUint z).
Proof. intros Hz. apply (canon_uint 8); [lia|]. exact Hz. Qed.

#[local] Hint Resolve canon_u64 canon_bytes : canon_db.

Lemma storage_log_canon l : log_ok l -> canon t_rlpStorageLog (storage_log_rval l).
Proof.
  intros [[A1 A2] T D (N1 & N2 & N3) ([H1 H1'] & [H2 H2']) _]. apply canon_struct.
  repeat (apply Forall2_cons_2; [|]); try apply Forall2_nil_2; auto with canon_db; try by apply canon_fixed.
  apply canon_slice. apply Forall_fmap. eapply Forall_impl; [exact T|]. intros h [Hl Hb]. by apply canon_fixed.
Qed.

Lemma statusEncoding_ok r : receipt_ok r -> bytes_ok (statusEncoding r).
Proof.
  intros [Hst _ _ _ _ _]. unfold statusEncoding. destruct Hst as [[-> Hs]|[[Hl Hb] _]].
  - case_bool_decide; repeat constructor; unfold is_byte; lia.
  - by destruct (PostState r).
Qed.

Lemma storage_canon r : receipt_ok r -> canon t_receiptStorageRLP (storage_rval r).
Proof.
  intros Hr. pose proof (statusEncoding_ok r Hr) as Hst. destruct Hr as [_ [G1 G2] [B1 B2] [H1 H2] [A1 A2] L].
  apply canon_struct.
  repeat (apply Forall2_cons_2; [|]); try apply Forall2_nil_2; auto with canon_db; try by apply canon_fixed.
  apply canon_slice. apply Forall_fmap. eapply Forall_impl; [exact L|]. apply storage_log_canon.
Qed.

Lemma storage_log_of_ok l : log_ok l -> storage_log_of (storage_log_rval l) = Some l.
Proof.
  intros Hl. destruct l as [a ts d bn th ti bh i rm]. pose proof (lok_kept _ Hl) as E. simpl in E. subst rm.
  simpl. rewrite map_map. simpl. by rewrite map_id.
Qed.

Lemma storage_of_ok r : receipt_ok r -> storage_of (storage_rval r) = Ok r.
Proof.
  intros Hr. unfold storage_rval, storage_of.
  assert (mapM storage_log_of (map storage_log_rval (Logs r)) = Some (Logs r)) as ->.
  { apply mapM_Some. rewrite Forall2_fmap_l. apply Forall_Forall2_diag. eapply Forall_impl; [apply (rok_logs _ Hr)|].
    apply storage_log_of_ok. }
  cbn [or_panic mbind outcome_bind]. destruct r as [ps st cum bl ls th ca gas]. unfold setStatus, statusEncoding, set_status. simpl.
  destruct (rok_status _ Hr) as [[E Hs]|[[Hl Hb] Hs]]; simpl in *; subst.
  - destruct Hs as [-> | ->]; done.
  - destruct ps as [|x ps]; [done|]. destruct ps as [|y ps]; [done|]. rewrite !bool_decide_false by done.
    rewrite Hl. done.
Qed.

(** A receipt written to the database is read back unchanged, with
    its status or state root, its logs and their positions in the chain. *)
Theorem receipt_roundtrip r it :
  receipt_ok r -> item_of (storage_rval r) t_receiptStorageRLP = Some it -> Z.of_nat (length (encode_item it)) < 2 ^ 64 ->
  exists b, storage_Encode r = Ok b /\ storage_Decode b = Ok r.
Proof.
  intros Hr Hi Hl. exists (encode_item it). split.
  - by apply (encode_ok (VPtr (storage_rval r)) (TPtr t_receiptStorageRLP)).
  - unfold storage_Decode. rewrite (decode_encode _ _ _ (storage_canon r Hr) Hi Hl). by apply storage_of_ok.
Qed.

(** A successful receipt with one log. *)
Definition sample_log : Log := mkLog (addr 3) [emptyHash; emptyRoot] [1; 2; 3] 9 emptyHash 4 emptyRoot 2 false.
Definition sample_receipt : Receipt :=
  mkReceipt [] 1 21000 (zeroes 256) [sample_log] emptyRoot (addr 8) 21000.

Lemma emptyRoot_ok : Common.hash_ok emptyRoot.
Proof. apply (bool_decide_unpack (length emptyRoot = HashLength /\ bytes_ok emptyRoot)). vm_compute. exact I. Qed.

Lemma emptyHash_ok : Common.hash_ok emptyHash.
Proof. split; [reflexivity|apply bytes_ok_zeroes]. Qed.

Lemma sample_receipt_ok : receipt_ok sample_receipt.
Proof.
  assert (log_ok sample_log) as Hl.
  { constructor; simpl; [apply addr_ok; unfold is_byte; lia|constructor; [apply emptyHash_ok|constructor; [apply emptyRoot_ok|constructor]]
      |repeat constructor; unfold is_byte; lia|unfold in_uint64; lia|split; [apply emptyHash_ok|apply emptyRoot_ok]|reflexivity]. }
  constructor; simpl; [by left; split; [|right]|unfold in_uint64; lia|split; [reflexivity|apply bytes_ok_zeroes]
    |apply emptyRoot_ok|apply addr_ok; unfold is_byte; lia|by constructor].
Qed.

Lemma receipt_roundtrip_witness : exists b, storage_Encode sample_receipt = Ok b /\ storage_Decode b = Ok sample_receipt.
Proof.
  eapply (receipt_roundtrip sample_receipt); [apply sample_receipt_ok|reflexivity|vm_compute; reflexivity].
Defined.
