(* ===== verification/SecureTrie.v ===== *)
(** * Tries with hashed keys ([src/trie/secure_trie.go])

    [SecureTrie] stores every key under its hash, and keeps the preimages of the
    hashes of the keys written since the last commit.  A copy shares that table
    with its original only until the first access, when it gets a table of its own:
    [st_owned] is [t == t.secKeyCacheOwner].

    [holds t m]: the trie below [t] has the bindings [m], keyed by hashes.  The
    lemmas lift the operations of the trie; [secure_injective] is the hypothesis
    under which hashed keys can be told apart. *)

From S2P Require Import Prelude Common TrieEncoding Trie TrieSpec TrieMap.
From S2P Require Import TrieCanon Rlp Sha3 TrieHash TrieMerkle.

Record SecureTrie := mkSecure {
  st_trie : Trie;
  secKeyCache : gmap (list Z) (list Z);
  st_owned : bool
}.

(** [SecureTrie.getSecKeyCache] *)
Definition getSecKeyCache (t : SecureTrie) : SecureTrie :=
  if st_owned t then t else mkSecure (st_trie t) ∅ true.

Definition set_st_trie (u : Trie) (t : SecureTrie) : SecureTrie := mkSecure u (secKeyCache t) (st_owned t).
Definition set_cache (c : gmap (list Z) (list Z)) (t : SecureTrie) : SecureTrie := mkSecure (st_trie t) c (st_owned t).

(** [SecureTrie.Copy] *)
Definition st_Copy (t : SecureTrie) : SecureTrie := mkSecure (st_trie t) (secKeyCache t) false.

Section secure.
Context `{Keccak} (dbnode : list Z -> Z -> option node).

(** [NewSecure], with [SetCacheLimit] *)
Definition NewSecure (rt : list Z) (limit : Z) : outcome trie_error SecureTrie :=
  t ← New dbnode rt;
  Ok (mkSecure (mkTrie (root t) (originalRoot t) (tprefix t) (cachegen t) limit) ∅ false).

(** [SecureTrie.hashKey] *)
Definition hashKey (key : list Z) : list Z := keccak256 key.

(** [SecureTrie.TryGet], [TryUpdate], [TryDelete]: the receiver keeps its changes
    when there is an error, so it is returned with the error. *)
Definition st_TryGet (t : SecureTrie) (key : list Z) : outcome Empty_set (SecureTrie * (trie_error + option (list Z))) :=
  match TryGet dbnode (st_trie t) (hashKey key) with
  | Ok (v, u) => Ok (set_st_trie u t, inr v)
  | Err e => Ok (t, inl e)
  | Panic => Panic
  | OutOfFuel => OutOfFuel
  end.

Definition st_TryUpdate (t : SecureTrie) (key value : list Z) : outcome Empty_set (SecureTrie * option trie_error) :=
  let hk := hashKey key in
  match TryUpdate dbnode (st_trie t) hk value with
  | Ok u => let t := getSecKeyCache (set_st_trie u t) in Ok (set_cache (<[hk := key]> (secKeyCache t)) t, None)
  | Err e => Ok (t, Some e)
  | Panic => Panic
  | OutOfFuel => OutOfFuel
  end.

Definition st_TryDelete (t : SecureTrie) (key : list Z) : outcome Empty_set (SecureTrie * option trie_error) :=
  let hk := hashKey key in
  let t := getSecKeyCache t in
  let t := set_cache (delete hk (secKeyCache t)) t in
  match TryDelete dbnode (st_trie t) hk with
  | Ok u => Ok (set_st_trie u t, None)
  | Err e => Ok (t, Some e)
  | Panic => Panic
  | OutOfFuel => OutOfFuel
  end.

(** [SecureTrie.Hash]: the hasher without a database has no errors. *)
Definition st_Hash (t : SecureTrie) : outcome Empty_set (list Z * SecureTrie) :=
  match Hash (st_trie t) with
  | Ok (h, u) => Ok (h, set_st_trie u t)
  | OutOfFuel => OutOfFuel
  | _ => Panic
  end.

(** [SecureTrie.GetKey]; [preimage] is the table of the database. *)
Definition GetKey (preimage : list Z -> option (list Z)) (t : SecureTrie) (shaKey : list Z) : option (list Z) * SecureTrie :=
  let t := getSecKeyCache t in
  (match secKeyCache t !! shaKey with
   | Some key => Some key
   | None => preimage (BytesToHash shaKey)
   end, t).

(** [SecureTrie.Commit]: the preimages that go into the database, and the events of
    the commit of the trie. *)
Definition st_Commit (onleaf : bool) (t : SecureTrie)
  : outcome trie_error (list Z * SecureTrie * gmap (list Z) (list Z) * list db_event) :=
  let t := getSecKeyCache t in
  '(h, u, ev) ← Commit onleaf (st_trie t);
  Ok (h, mkSecure u ∅ (st_owned t), secKeyCache t, ev).

(** ** Content *)

Definition holds (t : SecureTrie) (m : gmap (list Z) (list Z)) : Prop := sound dbnode (st_trie t) m.

Context (Hdb : db_coherent dbnode).

Lemma hashKey_ok k : bytes_ok (hashKey k).
Proof. apply keccak256_ok. Qed.

Lemma holds_trie t u m : st_trie u = st_trie t -> holds t m -> holds u m.
Proof. unfold holds. by intros ->. Qed.

Lemma holds_copy t m : holds t m -> holds (st_Copy t) m.
Proof. done. Qed.

Lemma getSecKeyCache_trie t : st_trie (getSecKeyCache t) = st_trie t.
Proof. unfold getSecKeyCache. by destruct (st_owned t). Qed.

Lemma st_TryGet_ok t m k :
  holds t m -> exists t', st_TryGet t k = Ok (t', inr (m !! hashKey k)) /\ holds t' m.
Proof.
  intros Hh. destruct (trie_step_sound dbnode Hdb _ _ (OpGet (hashKey k)) Hh (hashKey_ok k)) as (u & E & Hs).
  cbn [trie_step map_step fst snd] in *. unfold st_TryGet. rewrite E. by eexists.
Qed.

Lemma st_TryUpdate_ok t m k v :
  holds t m -> v <> [] -> exists t', st_TryUpdate t k v = Ok (t', None) /\ holds t' (<[hashKey k := v]> m).
Proof.
  intros Hh Hv. destruct (trie_step_sound dbnode Hdb _ _ (OpUpdate (hashKey k) v) Hh (hashKey_ok k)) as (u & E & Hs).
  cbn [trie_step map_step fst snd] in *. unfold st_TryUpdate. destruct (TryUpdate dbnode (st_trie t) (hashKey k) v); try done.
  simpl in E. injection E as ->. eexists. split; [done|].
  replace (<[hashKey k := v]> m) with (put (hashKey k) v m) by (unfold put; by destruct v).
  unfold holds. cbn [st_trie set_cache]. rewrite getSecKeyCache_trie. exact Hs.
Qed.

Lemma st_TryDelete_ok t m k :
  holds t m -> exists t', st_TryDelete t k = Ok (t', None) /\ holds t' (delete (hashKey k) m).
Proof.
  intros Hh. destruct (trie_step_sound dbnode Hdb _ _ (OpDelete (hashKey k)) Hh (hashKey_ok k)) as (u & E & Hs).
  cbn [trie_step map_step fst snd] in *. unfold st_TryDelete. cbn [st_trie set_cache]. rewrite getSecKeyCache_trie.
  destruct (TryDelete dbnode (st_trie t) (hashKey k)); try done. simpl in E. injection E as ->. by eexists.
Qed.

Lemma st_Hash_ok t m :
  holds t m -> exists t', st_Hash t = Ok (merkle_root (root (st_trie t)), t') /\ holds t' m.
Proof.
  intros Hh. destruct (Hash_spec _ _ _ Hh) as (u & E & Hs & _). unfold st_Hash. rewrite E. by eexists.
Qed.

Lemma holds_empty u c o : root u = Nil -> holds (mkSecure u c o) ∅.
Proof. intros E. split; [by apply represents_empty|]. cbn [st_trie]. by rewrite E. Qed.

(** The empty trie opens whatever the database holds. *)
Lemma NewSecure_empty limit : exists t, NewSecure emptyHash limit = Ok t /\ holds t ∅.
Proof. eexists. split; [done|]. by apply holds_empty. Qed.
End secure.

(** Keys of one length that do not collide. *)
Definition secure_injective `{Keccak} (n : nat) : Prop :=
  forall a b, length a = n -> length b = n -> bytes_ok a -> bytes_ok b -> keccak256 a = keccak256 b -> a = b.
