(* ===== verification/State.v ===== *)
(** * The state database ([src/core/state/statedb.go], [state_object.go],
      [journal.go])

    Accounts live in a trie with hashed keys; [stateObjects] holds those that were
    touched, with their storage cached above a trie of its own.  Every change is
    recorded in a journal whose entries know how to undo it; a snapshot is a
    position in the journal.  Objects are values in the map [stateObjects]: the
    pointer a Go method works on is always the one in that map.  Errors of the
    database do not abort anything, the first one is remembered.

    The node database is [dbnode], the code database [codedb].  The order in which
    Go iterates over a map is an argument of the operations that do so.  Locks, the
    cache of past tries and [ForEachStorage] are left out, and so is [Commit], which
    writes to the database.

    [StateSpec] has the theorems about snapshots, [StateRoot] those about roots. *)

From S2P Require Import Prelude Common TrieEncoding Trie TrieSpec TrieMap.
From S2P Require Import TrieCanon Rlp Sha3 TrieHash TrieMerkle TrieIter.
From S2P Require Import TrieIterSpec RlpRaw TrieBinding RlpStream Params DposContext.
From S2P Require Import Header Transaction Block SecureTrie.

(** ** Accounts *)

(** [Account]; [newObject] replaces the nil values of an empty one. *)
Record Account := mkAccount {
  a_Nonce : Z;
  a_Balance : Z;
  a_Root : list Z;
  a_CodeHash : list Z
}.

Definition t_Account : rtype := TStruct [TUint 64; TBigInt; TByteArray HashLength; TBytes].
Definition account_rval (a : Account) : rval :=
  VList [VUint (a_Nonce a); VBigInt (Some (a_Balance a)); VBytes (a_Root a); VBytes (a_CodeHash a)].
Definition account_of (v : rval) : option Account :=
  match v with
  | VList [VUint n; VBigInt (Some b); VBytes r; VBytes c] => Some (mkAccount n b r c)
  | _ => None
  end.

Inductive state_error : Type :=
  | SETrie (e : trie_error)
  | SEOpen (e : trie_error)
  | SESplit (e : rlp_error)
  | SECode (hash : list Z).

Abbreviation Storage := (gmap (list Z) (list Z)).

(** [stateObject]; [addrHash] is the hash of the address. *)
Record stateObject := mkObject {
  so_address : list Z;
  so_data : Account;
  so_dbErr : option state_error;
  so_trie : option SecureTrie;
  so_code : option (list Z);
  cachedStorage : Storage;
  dirtyStorage : Storage;
  dirtyCode : bool;
  suicided : bool;
  deleted : bool
}.

Definition set_data (a : Account) (o : stateObject) : stateObject :=
  mkObject (so_address o) a (so_dbErr o) (so_trie o) (so_code o) (cachedStorage o) (dirtyStorage o) (dirtyCode o) (suicided o) (deleted o).
Definition set_so_trie (t : SecureTrie) (o : stateObject) : stateObject :=
  mkObject (so_address o) (so_data o) (so_dbErr o) (Some t) (so_code o) (cachedStorage o) (dirtyStorage o) (dirtyCode o) (suicided o) (deleted o).
Definition set_storage (cached dirty : Storage) (o : stateObject) : stateObject :=
  mkObject (so_address o) (so_data o) (so_dbErr o) (so_trie o) (so_code o) cached dirty (dirtyCode o) (suicided o) (deleted o).
Definition set_so_code (c : option (list Z)) (dirty : bool) (o : stateObject) : stateObject :=
  mkObject (so_address o) (so_data o) (so_dbErr o) (so_trie o) c (cachedStorage o) (dirtyStorage o) dirty (suicided o) (deleted o).
Definition set_suicided (b : bool) (o : stateObject) : stateObject :=
  mkObject (so_address o) (so_data o) (so_dbErr o) (so_trie o) (so_code o) (cachedStorage o) (dirtyStorage o) (dirtyCode o) b (deleted o).
Definition set_deleted (o : stateObject) : stateObject :=
  mkObject (so_address o) (so_data o) (so_dbErr o) (so_trie o) (so_code o) (cachedStorage o) (dirtyStorage o) (dirtyCode o) (suicided o) true.

(** [stateObject.setError]: the first error stays. *)
Definition obj_setError (e : state_error) (o : stateObject) : stateObject :=
  mkObject (so_address o) (so_data o) (match so_dbErr o with Some e' => Some e' | None => Some e end) (so_trie o) (so_code o)
    (cachedStorage o) (dirtyStorage o) (dirtyCode o) (suicided o) (deleted o).

(** [setBalance], [setNonce], [setCode], [setState] *)
Definition setBalance (amount : Z) (o : stateObject) : stateObject :=
  let a := so_data o in set_data (mkAccount (a_Nonce a) amount (a_Root a) (a_CodeHash a)) o.
Definition setNonce (nonce : Z) (o : stateObject) : stateObject :=
  let a := so_data o in set_data (mkAccount nonce (a_Balance a) (a_Root a) (a_CodeHash a)) o.
Definition setRoot (rt : list Z) (o : stateObject) : stateObject :=
  let a := so_data o in set_data (mkAccount (a_Nonce a) (a_Balance a) rt (a_CodeHash a)) o.
Definition setCode (codeHash : list Z) (code : option (list Z)) (o : stateObject) : stateObject :=
  let a := so_data o in
  set_so_code code true (set_data (mkAccount (a_Nonce a) (a_Balance a) (a_Root a) codeHash) o).
Definition setState (key value : list Z) (o : stateObject) : stateObject :=
  set_storage (<[key := value]> (cachedStorage o)) (<[key := value]> (dirtyStorage o)) o.

(** [bytes.TrimLeft(b, zero)] *)
Fixpoint trim_left (b : list Z) : list Z :=
  match b with
  | x :: b' => if bool_decide (x = 0) then trim_left b' else b
  | [] => []
  end.

(** ** The journal *)

Inductive journalEntry : Type :=
  | createObjectChange (account : list Z)
  | resetObjectChange (prev : stateObject)
  | suicideChange (account : list Z) (prev : bool) (prevbalance : Z)
  | balanceChange (account : list Z) (prev : Z)
  | nonceChange (account : list Z) (prev : Z)
  | storageChange (account key prevalue : list Z)
  | codeChange (account : list Z) (prevcode : option (list Z)) (prevhash : list Z)
  | refundChange (prev : Z)
  | addLogChange (txhash : list Z)
  | addPreimageChange (hash : list Z)
  | touchChange (account : list Z).

(** [dirtied] *)
Definition dirtied (e : journalEntry) : option (list Z) :=
  match e with
  | createObjectChange a | suicideChange a _ _ | balanceChange a _ | nonceChange a _ | storageChange a _ _
  | codeChange a _ _ | touchChange a => Some a
  | _ => None
  end.

(** [journal]; the newest entry comes first. *)
Record journal := mkJournal {
  j_entries : list journalEntry;
  j_dirties : gmap (list Z) Z
}.

Definition newJournal : journal := mkJournal [] ∅.

(** [journal.dirty] and the end of a change. *)
Definition dirty (a : list Z) (d : gmap (list Z) Z) : gmap (list Z) Z := <[a := default 0 (d !! a) + 1]> d.
Definition undirty (a : list Z) (d : gmap (list Z) Z) : gmap (list Z) Z :=
  let n := default 0 (d !! a) - 1 in if bool_decide (n = 0) then delete a d else <[a := n]> d.

(** [journal.append] *)
Definition journal_append (e : journalEntry) (j : journal) : journal :=
  mkJournal (e :: j_entries j) (match dirtied e with Some a => dirty a (j_dirties j) | None => j_dirties j end).

(** ** The state *)

(** [StateDB] *)
Record StateDB := mkState {
  s_trie : SecureTrie;
  stateObjects : gmap (list Z) stateObject;
  stateObjectsDirty : gset (list Z);
  s_dbErr : option state_error;
  s_refund : Z;
  thash : list Z;
  bhash : list Z;
  txIndex : Z;
  s_logs : gmap (list Z) (list Log);
  logSize : Z;
  s_preimages : gmap (list Z) (list Z);
  s_journal : journal;
  validRevisions : list (Z * nat);
  nextRevisionId : Z
}.

Abbreviation ST := (SM StateDB Empty_set).

Definition set_s_trie (t : SecureTrie) (s : StateDB) : StateDB :=
  mkState t (stateObjects s) (stateObjectsDirty s) (s_dbErr s) (s_refund s) (thash s) (bhash s) (txIndex s) (s_logs s) (logSize s)
    (s_preimages s) (s_journal s) (validRevisions s) (nextRevisionId s).
Definition set_objects (m : gmap (list Z) stateObject) (s : StateDB) : StateDB :=
  mkState (s_trie s) m (stateObjectsDirty s) (s_dbErr s) (s_refund s) (thash s) (bhash s) (txIndex s) (s_logs s) (logSize s)
    (s_preimages s) (s_journal s) (validRevisions s) (nextRevisionId s).
Definition set_objects_dirty (d : gset (list Z)) (s : StateDB) : StateDB :=
  mkState (s_trie s) (stateObjects s) d (s_dbErr s) (s_refund s) (thash s) (bhash s) (txIndex s) (s_logs s) (logSize s)
    (s_preimages s) (s_journal s) (validRevisions s) (nextRevisionId s).
Definition set_refund (n : Z) (s : StateDB) : StateDB :=
  mkState (s_trie s) (stateObjects s) (stateObjectsDirty s) (s_dbErr s) n (thash s) (bhash s) (txIndex s) (s_logs s) (logSize s)
    (s_preimages s) (s_journal s) (validRevisions s) (nextRevisionId s).
Definition set_logs (l : gmap (list Z) (list Log)) (n : Z) (s : StateDB) : StateDB :=
  mkState (s_trie s) (stateObjects s) (stateObjectsDirty s) (s_dbErr s) (s_refund s) (thash s) (bhash s) (txIndex s) l n
    (s_preimages s) (s_journal s) (validRevisions s) (nextRevisionId s).
Definition set_preimages (m : gmap (list Z) (list Z)) (s : StateDB) : StateDB :=
  mkState (s_trie s) (stateObjects s) (stateObjectsDirty s) (s_dbErr s) (s_refund s) (thash s) (bhash s) (txIndex s) (s_logs s) (logSize s)
    m (s_journal s) (validRevisions s) (nextRevisionId s).
Definition set_journal (j : journal) (s : StateDB) : StateDB :=
  mkState (s_trie s) (stateObjects s) (stateObjectsDirty s) (s_dbErr s) (s_refund s) (thash s) (bhash s) (txIndex s) (s_logs s) (logSize s)
    (s_preimages s) j (validRevisions s) (nextRevisionId s).
Definition set_revisions (l : list (Z * nat)) (n : Z) (s : StateDB) : StateDB :=
  mkState (s_trie s) (stateObjects s) (stateObjectsDirty s) (s_dbErr s) (s_refund s) (thash s) (bhash s) (txIndex s) (s_logs s) (logSize s)
    (s_preimages s) (s_journal s) l n.

(** [StateDB.setError] *)
Definition setError (e : state_error) (s : StateDB) : StateDB :=
  mkState (s_trie s) (stateObjects s) (stateObjectsDirty s) (match s_dbErr s with Some e' => Some e' | None => Some e end)
    (s_refund s) (thash s) (bhash s) (txIndex s) (s_logs s) (logSize s) (s_preimages s) (s_journal s) (validRevisions s) (nextRevisionId s).

Definition append (e : journalEntry) : ST unit := modify (fun s => set_journal (journal_append e (s_journal s)) s).
Definition setStateObject (o : stateObject) : ST unit := modify (fun s => set_objects (<[so_address o := o]> (stateObjects s)) s).
Definition mod_object (a : list Z) (f : stateObject -> stateObject) : ST unit :=
  modify (fun s => set_objects (alter f a (stateObjects s)) s).

(** A computation that has no errors. *)
Definition total {S A} (o : outcome Empty_set A) : SM S Empty_set A := pure (fun e : Empty_set => e) o.

Section state.
Context `{Keccak} (dbnode : list Z -> Z -> option node) (codedb : list Z -> option (list Z)).

(** [emptyCodeHash] *)
Definition emptyCodeHash : list Z := keccak256 [].

(** [newObject] on [Account{}] *)
Definition zero_account : Account := mkAccount 0 0 emptyHash emptyCodeHash.

(** [newObject] *)
Definition newObject (address : list Z) (data : Account) : stateObject :=
  mkObject address data None None None ∅ ∅ false false false.

(** [stateObject.empty] *)
Definition empty (o : stateObject) : bool :=
  bool_decide (a_Nonce (so_data o) = 0) && bool_decide (a_Balance (so_data o) = 0)
  && bool_decide (a_CodeHash (so_data o) = emptyCodeHash).

(** ** Objects *)

(** [stateObject.getTrie]; the empty trie always opens. *)
Definition getTrie (o : stateObject) : outcome Empty_set (SecureTrie * stateObject) :=
  match so_trie o with
  | Some t => Ok (t, o)
  | None =>
      match NewSecure dbnode (a_Root (so_data o)) 0 with
      | Ok t => Ok (t, set_so_trie t o)
      | Err e =>
          match NewSecure dbnode emptyHash 0 with
          | Ok t => Ok (t, obj_setError (SEOpen e) (set_so_trie t o))
          | Err _ | Panic => Panic
          | OutOfFuel => OutOfFuel
          end
      | Panic => Panic
      | OutOfFuel => OutOfFuel
      end
  end.

(** The value of an entry of a storage trie: no bytes are the zero value. *)
Definition storage_content (enc : list Z) : outcome rlp_error (list Z) :=
  match enc with
  | [] => Ok emptyHash
  | _ => '(_, content, _) ← Split enc; Ok (BytesToHash content)
  end.

Definition cache_value (key value : list Z) (o : stateObject) : stateObject :=
  set_storage (<[key := value]> (cachedStorage o)) (dirtyStorage o) o.

(** [stateObject.GetState] *)
Definition obj_GetState (o : stateObject) (key : list Z) : outcome Empty_set (list Z * stateObject) :=
  match cachedStorage o !! key with
  | Some value => Ok (value, o)
  | None =>
      '(t, o) ← getTrie o;
      '(t, r) ← st_TryGet dbnode t key;
      let o := set_so_trie t o in
      match r with
      | inl e => Ok (emptyHash, obj_setError (SETrie e) o)
      | inr enc =>
          match storage_content (default [] enc) with
          | Ok v => Ok (v, cache_value key v o)
          | Err e => Ok (emptyHash, cache_value key emptyHash (obj_setError (SESplit e) o))
          | Panic => Panic
          | OutOfFuel => OutOfFuel
          end
      end
  end.

(** [stateObject.Code] *)
Definition obj_Code (o : stateObject) : option (list Z) * stateObject :=
  match so_code o with
  | Some c => (Some c, o)
  | None =>
      if bool_decide (a_CodeHash (so_data o) = emptyCodeHash) then (None, o)
      else match codedb (BytesToHash (a_CodeHash (so_data o))) with
           | Some c => (Some c, set_so_code (Some c) (dirtyCode o) o)
           | None => (None, set_so_code None (dirtyCode o) (obj_setError (SECode (a_CodeHash (so_data o))) o))
           end
  end.

(** The loop body of [updateTrie]. *)
Definition flush_entry (t : SecureTrie) (o : stateObject) (key value : list Z) : outcome Empty_set (SecureTrie * stateObject) :=
  let o := set_storage (cachedStorage o) (delete key (dirtyStorage o)) o in
  '(t, err) ←
    (if bool_decide (value = emptyHash) then st_TryDelete dbnode t key
     else match EncodeToBytes TBytes (VBytes (trim_left value)) with
          | Ok v => st_TryUpdate dbnode t key v
          | _ => Panic
          end);
  Ok (t, match err with Some e => obj_setError (SETrie e) o | None => o end).

Fixpoint flush_loop (t : SecureTrie) (o : stateObject) (l : list (list Z * list Z)) : outcome Empty_set (SecureTrie * stateObject) :=
  match l with
  | [] => Ok (t, o)
  | (key, value) :: l => '(t, o) ← flush_entry t o key value; flush_loop t o l
  end.

(** [stateObject.updateTrie]; [order] lists the entries of the map in the order of
    the iteration. *)
Definition updateTrie (order : Storage -> list (list Z * list Z)) (o : stateObject) : outcome Empty_set (SecureTrie * stateObject) :=
  '(t, o) ← getTrie o;
  '(t, o) ← flush_loop t o (order (dirtyStorage o));
  Ok (t, set_so_trie t o).

(** [stateObject.updateRoot] *)
Definition updateRoot (order : Storage -> list (list Z * list Z)) (o : stateObject) : outcome Empty_set stateObject :=
  '(t, o) ← updateTrie order o;
  '(h, t) ← st_Hash t;
  Ok (setRoot h (set_so_trie t o)).

(** ** Finding objects *)

(** [StateDB.getStateObject] *)
Definition getStateObject (addr : list Z) : ST (option stateObject) :=
  objs ← gets stateObjects;
  match objs !! addr with
  | Some obj => mret (if deleted obj then None else Some obj)
  | None =>
      t ← gets s_trie;
      '(t, r) ← total (st_TryGet dbnode t addr);
      modify (set_s_trie t) ;;
      match r with
      | inl err => modify (setError (SETrie err)) ;; mret None
      | inr None | inr (Some []) => mret None
      | inr (Some enc) =>
          match DecodeBytes enc t_Account with
          | Ok v =>
              data ← must (account_of v);
              let obj := newObject addr data in
              setStateObject obj ;; mret (Some obj)
          | Err _ => mret None
          | Panic => panic
          | OutOfFuel => fun _ => OutOfFuel
          end
      end
  end.

(** [StateDB.createObject] *)
Definition createObject (addr : list Z) : ST (stateObject * option stateObject) :=
  prev ← getStateObject addr;
  let newobj := setNonce 0 (newObject addr zero_account) in
  match prev with
  | None => append (createObjectChange addr)
  | Some p => append (resetObjectChange p)
  end ;;
  setStateObject newobj ;;
  mret (newobj, prev).

(** [StateDB.GetOrNewStateObject] *)
Definition GetOrNewStateObject (addr : list Z) : ST stateObject :=
  o ← getStateObject addr;
  match o with
  | Some o => mret o
  | None => '(o, _) ← createObject addr; mret o
  end.

(** [StateDB.CreateAccount] *)
Definition CreateAccount (addr : list Z) : ST unit :=
  '(_, prev) ← createObject addr;
  match prev with
  | Some p => mod_object addr (setBalance (a_Balance (so_data p)))
  | None => mret tt
  end.

(** ** Reading *)

Definition Exist (addr : list Z) : ST bool := o ← getStateObject addr; mret (bool_decide (is_Some o)).
Definition Empty (addr : list Z) : ST bool :=
  o ← getStateObject addr; mret (match o with Some o => empty o | None => true end).
Definition GetBalance (addr : list Z) : ST Z :=
  o ← getStateObject addr; mret (match o with Some o => a_Balance (so_data o) | None => 0 end).
Definition GetNonce (addr : list Z) : ST Z :=
  o ← getStateObject addr; mret (match o with Some o => a_Nonce (so_data o) | None => 0 end).
Definition GetCodeHash (addr : list Z) : ST (list Z) :=
  o ← getStateObject addr; mret (match o with Some o => BytesToHash (a_CodeHash (so_data o)) | None => emptyHash end).
Definition HasSuicided (addr : list Z) : ST bool :=
  o ← getStateObject addr; mret (match o with Some o => suicided o | None => false end).
Definition GetCode (addr : list Z) : ST (option (list Z)) :=
  o ← getStateObject addr;
  match o with
  | Some o => let '(c, o') := obj_Code o in mod_object addr (fun _ => o') ;; mret c
  | None => mret None
  end.
(** [GetCodeSize]; the database returns no code and an error for an unknown hash. *)
Definition GetCodeSize (addr : list Z) : ST Z :=
  o ← getStateObject addr;
  match o with
  | None => mret 0
  | Some o =>
      match so_code o with
      | Some c => mret (Z.of_nat (length c))
      | None =>
          match codedb (BytesToHash (a_CodeHash (so_data o))) with
          | Some c => mret (Z.of_nat (length c))
          | None => modify (setError (SECode (a_CodeHash (so_data o)))) ;; mret 0
          end
      end
  end.
Definition GetState (addr key : list Z) : ST (list Z) :=
  o ← getStateObject addr;
  match o with
  | Some o => '(v, o') ← total (obj_GetState o key); mod_object addr (fun _ => o') ;; mret v
  | None => mret emptyHash
  end.
Definition GetRefund : ST Z := gets s_refund.
Definition GetLogs (hash : list Z) : ST (list Log) := l ← gets s_logs; mret (default [] (l !! hash)).

(** ** Changing *)

(** The address of the precompiled contract that stays dirty once touched. *)
Definition ripemd : list Z := zeroes 19 ++ [3].

(** [stateObject.touch] *)
Definition touch (addr : list Z) : ST unit :=
  append (touchChange addr) ;;
  if bool_decide (addr = ripemd)
  then modify (fun s => set_journal (mkJournal (j_entries (s_journal s)) (dirty addr (j_dirties (s_journal s)))) s)
  else mret tt.

(** [stateObject.SetBalance] *)
Definition obj_SetBalance (o : stateObject) (amount : Z) : ST unit :=
  append (balanceChange (so_address o) (a_Balance (so_data o))) ;;
  mod_object (so_address o) (setBalance amount).

Definition AddBalance (addr : list Z) (amount : Z) : ST unit :=
  o ← GetOrNewStateObject addr;
  if bool_decide (amount = 0) then if empty o then touch (so_address o) else mret tt
  else obj_SetBalance o (a_Balance (so_data o) + amount).
Definition SubBalance (addr : list Z) (amount : Z) : ST unit :=
  o ← GetOrNewStateObject addr;
  if bool_decide (amount = 0) then mret tt else obj_SetBalance o (a_Balance (so_data o) - amount).
Definition SetBalance (addr : list Z) (amount : Z) : ST unit :=
  o ← GetOrNewStateObject addr;
  obj_SetBalance o amount.
Definition SetNonce (addr : list Z) (nonce : Z) : ST unit :=
  o ← GetOrNewStateObject addr;
  append (nonceChange (so_address o) (a_Nonce (so_data o))) ;;
  mod_object (so_address o) (setNonce nonce).
Definition SetCode (addr code : list Z) : ST unit :=
  o ← GetOrNewStateObject addr;
  let '(prevcode, o') := obj_Code o in
  mod_object addr (fun _ => o') ;;
  append (codeChange (so_address o) prevcode (a_CodeHash (so_data o))) ;;
  mod_object (so_address o) (setCode (keccak256 code) (Some code)).
Definition SetState (addr key value : list Z) : ST unit :=
  o ← GetOrNewStateObject addr;
  '(prevalue, o') ← total (obj_GetState o key);
  mod_object addr (fun _ => o') ;;
  append (storageChange (so_address o) key prevalue) ;;
  mod_object (so_address o) (setState key value).
Definition Suicide (addr : list Z) : ST bool :=
  o ← getStateObject addr;
  match o with
  | None => mret false
  | Some o =>
      append (suicideChange addr (suicided o) (a_Balance (so_data o))) ;;
      mod_object addr (fun o => setBalance 0 (set_suicided true o)) ;;
      mret true
  end.

Definition AddRefund (gas : Z) : ST unit :=
  r ← gets s_refund;
  append (refundChange r) ;;
  modify (fun s => set_refund (u64 (s_refund s + gas)) s).
Definition AddLog (log : Log) : ST unit :=
  th ← gets thash;
  append (addLogChange th) ;;
  modify (fun s =>
    let l := mkLog (l_Address log) (l_Topics log) (l_Data log) (l_BlockNumber log) (thash s) (u64 (txIndex s)) (bhash s)
               (logSize s) (l_Removed log) in
    set_logs (<[thash s := default [] (s_logs s !! thash s) ++ [l]]> (s_logs s)) (u64 (logSize s + 1)) s).
Definition AddPreimage (hash preimage : list Z) : ST unit :=
  m ← gets s_preimages;
  match m !! hash with
  | Some _ => mret tt
  | None => append (addPreimageChange hash) ;; modify (fun s => set_preimages (<[hash := preimage]> (s_preimages s)) s)
  end.

(** [StateDB.Prepare] *)
Definition state_Prepare (th bh : list Z) (ti : Z) : ST unit :=
  modify (fun s => mkState (s_trie s) (stateObjects s) (stateObjectsDirty s) (s_dbErr s) (s_refund s) th bh ti (s_logs s) (logSize s)
    (s_preimages s) (s_journal s) (validRevisions s) (nextRevisionId s)).

(** ** Snapshots *)

(** The [revert] of each entry. *)
Definition revert_entry (e : journalEntry) : ST unit :=
  match e with
  | createObjectChange a =>
      modify (fun s => set_objects_dirty (stateObjectsDirty s ∖ {[ a ]}) (set_objects (delete a (stateObjects s)) s))
  | resetObjectChange prev => setStateObject prev
  | suicideChange a prev prevbalance =>
      o ← getStateObject a;
      match o with
      | Some _ => mod_object a (fun o => setBalance prevbalance (set_suicided prev o))
      | None => mret tt
      end
  | touchChange _ => mret tt
  | balanceChange a prev => o ← getStateObject a; _ ← must o; mod_object a (setBalance prev)
  | nonceChange a prev => o ← getStateObject a; _ ← must o; mod_object a (setNonce prev)
  | codeChange a prevcode prevhash => o ← getStateObject a; _ ← must o; mod_object a (setCode (BytesToHash prevhash) prevcode)
  | storageChange a key prevalue => o ← getStateObject a; _ ← must o; mod_object a (setState key prevalue)
  | refundChange prev => modify (set_refund prev)
  | addLogChange txhash =>
      l ← gets s_logs;
      let logs := default [] (l !! txhash) in
      match logs with
      | [] => panic
      | [_] => modify (fun s => set_logs (delete txhash (s_logs s)) (u64 (logSize s - 1)) s)
      | _ => modify (fun s => set_logs (<[txhash := take (length logs - 1) logs]> (s_logs s)) (u64 (logSize s - 1)) s)
      end
  | addPreimageChange hash => modify (fun s => set_preimages (delete hash (s_preimages s)) s)
  end.

Definition undo_dirty (e : journalEntry) (s : StateDB) : StateDB :=
  match dirtied e with
  | Some a => set_journal (mkJournal (j_entries (s_journal s)) (undirty a (j_dirties (s_journal s)))) s
  | None => s
  end.

(** [journal.revert]: the loop over the newest entries, then the cut. *)
Fixpoint revert_list (es : list journalEntry) : ST unit :=
  match es with
  | [] => mret tt
  | e :: es => revert_entry e ;; modify (undo_dirty e) ;; revert_list es
  end.

Definition journal_revert (snapshot : nat) : ST unit :=
  j ← gets s_journal;
  let n := length (j_entries j) in
  if (n <? snapshot)%nat then panic
  else
    revert_list (take (n - snapshot) (j_entries j)) ;;
    modify (fun s => set_journal (mkJournal (drop (n - snapshot) (j_entries (s_journal s))) (j_dirties (s_journal s))) s).

(** [StateDB.Snapshot] *)
Definition state_Snapshot : ST Z :=
  s ← gets id;
  modify (fun s => set_revisions (validRevisions s ++ [(nextRevisionId s, length (j_entries (s_journal s)))]) (nextRevisionId s + 1) s) ;;
  mret (nextRevisionId s).

(** [sort.Search] *)
Fixpoint search_loop (fuel : nat) (f : nat -> bool) (i j : nat) : outcome Empty_set nat :=
  match fuel with
  | O => OutOfFuel
  | S fuel =>
      if (i <? j)%nat then
        let h := ((i + j) / 2)%nat in
        if f h then search_loop fuel f i h else search_loop fuel f (h + 1)%nat j
      else Ok i
  end.
Definition sort_Search (n : nat) (f : nat -> bool) : outcome Empty_set nat := search_loop (S n) f 0 n.

(** [StateDB.RevertToSnapshot] *)
Definition RevertToSnapshot (revid : Z) : ST unit :=
  revs ← gets validRevisions;
  idx ← total (sort_Search (length revs) (fun i => match revs !! i with Some (id, _) => bool_decide (revid <= id) | None => false end));
  match revs !! idx with
  | Some (id, snapshot) =>
      if bool_decide (id = revid) then
        journal_revert snapshot ;;
        modify (fun s => set_revisions (take idx (validRevisions s)) (nextRevisionId s) s)
      else panic
  | None => panic
  end.

(** [StateDB.clearJournalAndRefund] *)
Definition clearJournalAndRefund : ST unit :=
  modify (fun s => set_refund 0 (set_revisions [] (nextRevisionId s) (set_journal newJournal s))).

(** ** Roots *)

Definition note_error (err : option trie_error) : ST unit :=
  match err with Some e => modify (setError (SETrie e)) | None => mret tt end.

(** [StateDB.updateStateObject] and [deleteStateObject] *)
Definition updateStateObject (o : stateObject) : ST unit :=
  match EncodeToBytes t_Account (account_rval (so_data o)) with
  | Ok data =>
      t ← gets s_trie;
      '(t, err) ← total (st_TryUpdate dbnode t (so_address o) data);
      modify (set_s_trie t) ;; note_error err
  | _ => panic
  end.
Definition deleteStateObject (o : stateObject) : ST unit :=
  mod_object (so_address o) set_deleted ;;
  t ← gets s_trie;
  '(t, err) ← total (st_TryDelete dbnode t (so_address o));
  modify (set_s_trie t) ;; note_error err.

(** The orders in which the maps are iterated over. *)
Record iteration := mkIteration {
  it_dirties : gmap (list Z) Z -> list (list Z);
  it_storage : Storage -> list (list Z * list Z)
}.

(** The loop body of [Finalise], and the loop. *)
Definition finalise_one (it : iteration) (deleteEmptyObjects : bool) (addr : list Z) : ST unit :=
  objs ← gets stateObjects;
  match objs !! addr with
  | None => mret tt
  | Some o =>
      (if suicided o || (deleteEmptyObjects && empty o) then deleteStateObject o
       else
         o' ← total (updateRoot (it_storage it) o);
         mod_object addr (fun _ => o') ;;
         updateStateObject o') ;;
      modify (fun s => set_objects_dirty ({[ addr ]} ∪ stateObjectsDirty s) s)
  end.

Fixpoint finalise_loop (it : iteration) (deleteEmptyObjects : bool) (addrs : list (list Z)) : ST unit :=
  match addrs with
  | [] => mret tt
  | addr :: addrs => finalise_one it deleteEmptyObjects addr ;; finalise_loop it deleteEmptyObjects addrs
  end.

(** [StateDB.Finalise] and [IntermediateRoot] *)
Definition Finalise (it : iteration) (deleteEmptyObjects : bool) : ST unit :=
  j ← gets s_journal;
  finalise_loop it deleteEmptyObjects (it_dirties it (j_dirties j)) ;;
  clearJournalAndRefund.
Definition IntermediateRoot (it : iteration) (deleteEmptyObjects : bool) : ST (list Z) :=
  Finalise it deleteEmptyObjects ;;
  t ← gets s_trie;
  '(h, t) ← total (st_Hash t);
  modify (set_s_trie t) ;;
  mret h.

(** ** Making states *)

(** [New], with [OpenTrie]; a trie kept from earlier has the content of one opened
    from the database. *)
Definition MaxTrieCacheGen : Z := 120.
Definition fresh_state (t : SecureTrie) : StateDB :=
  mkState t ∅ ∅ None 0 emptyHash emptyHash 0 ∅ 0 ∅ newJournal [] 0.
Definition state_New (rt : list Z) : outcome trie_error StateDB :=
  t ← NewSecure dbnode rt MaxTrieCacheGen;
  Ok (fresh_state t).

(** [stateObject.deepCopy] *)
Definition deepCopy (o : stateObject) : stateObject :=
  mkObject (so_address o) (so_data o) None (st_Copy <$> so_trie o) (so_code o) (dirtyStorage o) (dirtyStorage o)
    (dirtyCode o) (suicided o) (deleted o).

(** [StateDB.Copy] *)
Definition state_Copy (s : StateDB) : outcome Empty_set StateDB :=
  let dirties := dom (j_dirties (s_journal s)) in
  let first := deepCopy <$> filter (fun p => p.1 ∈ dirties) (stateObjects s) in
  let more := stateObjectsDirty s ∖ dom first in
  if bool_decide (more ⊆ dom (stateObjects s)) then
    let objs := first ∪ (deepCopy <$> filter (fun p => p.1 ∈ more) (stateObjects s)) in
    Ok (mkState (st_Copy (s_trie s)) objs (dom objs) None (s_refund s) emptyHash emptyHash 0 (s_logs s) (logSize s) (s_preimages s)
          newJournal [] 0)
  else Panic.
End state.
