(* ===== verification/StateSpec.v ===== *)
(** * Snapshots of the state database

    The abstract state is a [world]: for every address an account or nothing, the
    refund counter, the logs and the preimages.  [state_rep s m w]: the database [s]
    over the committed accounts [m] stands for the world [w].  Loading and caching
    do not change the world; every operation computes the obvious function on it.

    [state_refines]: against a specification that keeps whole worlds on a stack of
    snapshots, any sequence of operations, snapshots and reverts gives the same
    answers: undoing the journal restores exactly what a snapshot saved. *)

From S2P Require Import Prelude Common TrieEncoding Trie TrieSpec TrieMap.
From S2P Require Import TrieCanon Rlp Sha3 TrieHash TrieMerkle TrieIter.
From S2P Require Import TrieIterSpec RlpRaw TrieBinding RlpStream Params DposContext.
From S2P Require Import Header Transaction Block SecureTrie State.

(** ** Worlds *)

Record acct := mkAcct {
  v_nonce : Z;
  v_balance : Z;
  v_codehash : list Z;
  v_code : list Z;
  v_storage : list Z -> list Z;
  v_suicided : bool
}.

Record world := mkWorld {
  w_acct : list Z -> option acct;
  w_refund : Z;
  w_thash : list Z;
  w_bhash : list Z;
  w_txIndex : Z;
  w_logs : gmap (list Z) (list Log);
  w_logSize : Z;
  w_preimages : gmap (list Z) (list Z)
}.

(** Equality of accounts and worlds, with functions compared point by point. *)
#[global] Instance acct_equiv : Equiv acct := fun a b =>
  v_nonce a = v_nonce b /\ v_balance a = v_balance b /\ v_codehash a = v_codehash b /\ v_code a = v_code b /\
  (forall k, v_storage a k = v_storage b k) /\ v_suicided a = v_suicided b.
#[global] Instance acct_equivalence : Equivalence (≡@{acct}).
Proof.
  split.
  - by intros [].
  - intros [] [] (? & ? & ? & ? & ? & ?); split_and!; congruence.
  - intros [] [] [] (? & ? & ? & ? & ? & ?) (? & ? & ? & ? & ? & ?); split_and!; congruence.
Qed.

#[global] Instance world_equiv : Equiv world := fun v w =>
  (forall a, w_acct v a ≡ w_acct w a) /\ w_refund v = w_refund w /\ w_thash v = w_thash w /\ w_bhash v = w_bhash w /\
  w_txIndex v = w_txIndex w /\ w_logs v = w_logs w /\ w_logSize v = w_logSize w /\ w_preimages v = w_preimages w.
#[global] Instance world_equivalence : Equivalence (≡@{world}).
Proof.
  split.
  - intros w. split; [intros a; reflexivity|by split_and!].
  - intros v w [Ha Hr]. split; [intros a; symmetry; apply Ha|]. destruct_and!. split_and!; congruence.
  - intros u v w [Ha Hr] [Hb Hs]. split; [intros a; etrans; [apply Ha|apply Hb]|]. destruct_and!. split_and!; congruence.
Qed.

Definition set_acct (a : list Z) (v : option acct) (w : world) : world :=
  mkWorld (fun b => if bool_decide (b = a) then v else w_acct w b) (w_refund w) (w_thash w) (w_bhash w) (w_txIndex w)
    (w_logs w) (w_logSize w) (w_preimages w).
Definition with_refund (n : Z) (w : world) : world :=
  mkWorld (w_acct w) n (w_thash w) (w_bhash w) (w_txIndex w) (w_logs w) (w_logSize w) (w_preimages w).
Definition with_logs (l : gmap (list Z) (list Log)) (n : Z) (w : world) : world :=
  mkWorld (w_acct w) (w_refund w) (w_thash w) (w_bhash w) (w_txIndex w) l n (w_preimages w).
Definition with_preimages (p : gmap (list Z) (list Z)) (w : world) : world :=
  mkWorld (w_acct w) (w_refund w) (w_thash w) (w_bhash w) (w_txIndex w) (w_logs w) (w_logSize w) p.

Definition with_balance (x : Z) (a : acct) : acct := mkAcct (v_nonce a) x (v_codehash a) (v_code a) (v_storage a) (v_suicided a).
Definition with_nonce (x : Z) (a : acct) : acct := mkAcct x (v_balance a) (v_codehash a) (v_code a) (v_storage a) (v_suicided a).
Definition with_code (hash code : list Z) (a : acct) : acct := mkAcct (v_nonce a) (v_balance a) hash code (v_storage a) (v_suicided a).
Definition with_state (k v : list Z) (a : acct) : acct :=
  mkAcct (v_nonce a) (v_balance a) (v_codehash a) (v_code a) (fun k' => if bool_decide (k' = k) then v else v_storage a k') (v_suicided a).
Definition with_suicided (b : bool) (a : acct) : acct := mkAcct (v_nonce a) (v_balance a) (v_codehash a) (v_code a) (v_storage a) b.

Lemma set_acct_equiv a v v' w w' : v ≡ v' -> w ≡ w' -> set_acct a v w ≡ set_acct a v' w'.
Proof.
  intros Hv (Ha & ? & ? & ? & ? & ? & ? & ?). split_and!; try done. intros b. simpl. by case_bool_decide.
Qed.

(** Putting an account back. *)
Lemma set_acct_restore a v v' w : w_acct w a ≡ v' -> set_acct a v' (set_acct a v w) ≡ w.
Proof.
  intros Hv. split_and!; try done. intros b. simpl. case_bool_decide; [subst; by symmetry|reflexivity].
Qed.

(** ** Operations *)

Inductive state_op : Type :=
  | OpCreateAccount (a : list Z) | OpAddBalance (a : list Z) (x : Z) | OpSubBalance (a : list Z) (x : Z)
  | OpSetBalance (a : list Z) (x : Z) | OpSetNonce (a : list Z) (x : Z) | OpSetCode (a c : list Z) | OpSetState (a k x : list Z)
  | OpSuicide (a : list Z) | OpAddRefund (g : Z) | OpAddLog (l : Log) | OpAddPreimage (h p : list Z)
  | OpExist (a : list Z) | OpEmpty (a : list Z) | OpGetBalance (a : list Z) | OpGetNonce (a : list Z) | OpGetCodeHash (a : list Z)
  | OpGetCode (a : list Z) | OpGetCodeSize (a : list Z) | OpGetState (a k : list Z) | OpHasSuicided (a : list Z) | OpGetRefund | OpGetLogs (h : list Z)
  | OpSnapshot | OpRevertToSnapshot (id : Z).

Inductive answer : Type :=
  | ANone
  | AInt (x : Z)
  | ABool (b : bool)
  | ABytes (b : list Z)
  | ALogs (l : list Log).

(** A world, the worlds saved by snapshots (the newest first), the next identifier. *)
Record spec := mkSpec {
  sp_world : world;
  sp_saved : list (Z * world);
  sp_next : Z
}.

Section rep.
Context `{Keccak} (dbnode : list Z -> Z -> option node) (codedb : list Z -> option (list Z)).

(** ** Objects stand for accounts *)

Definition code_view (o : stateObject) : list Z := default [] (obj_Code codedb o).1.

Definition trie_value (enc : option (list Z)) : list Z :=
  match storage_content (default [] enc) with Ok v => v | _ => emptyHash end.

Definition storage_view (o : stateObject) (sm : gmap (list Z) (list Z)) (k : list Z) : list Z :=
  match cachedStorage o !! k with Some v => v | None => trie_value (sm !! hashKey k) end.

(** The storage below an object, opened or not. *)
Definition storage_trie (o : stateObject) (sm : gmap (list Z) (list Z)) : Prop :=
  match so_trie o with
  | Some t => holds dbnode t sm
  | None => exists t, NewSecure dbnode (a_Root (so_data o)) 0 = Ok t /\ holds dbnode t sm
  end.

Record obj_rep (o : stateObject) (a : acct) : Prop := {
  or_nonce : a_Nonce (so_data o) = v_nonce a;
  or_balance : a_Balance (so_data o) = v_balance a;
  or_codehash : a_CodeHash (so_data o) = v_codehash a;
  or_code : code_view o = v_code a;
  or_suicided : suicided o = v_suicided a;
  or_hash : Common.hash_ok (a_CodeHash (so_data o));
  or_storage : exists sm, storage_trie o sm /\ forall k, storage_view o sm k = v_storage a k;
  or_dirty : forall k v, dirtyStorage o !! k = Some v -> cachedStorage o !! k = Some v;
  or_alive : deleted o = false
}.

Lemma obj_rep_equiv o a a' : a ≡ a' -> obj_rep o a -> obj_rep o a'.
Proof.
  intros (? & ? & ? & ? & Hs & ?) [? ? ? ? ? ? (sm & Ht & Hv) ? ?]. split; try congruence; [|done].
  exists sm. split; [done|]. intros k. by rewrite Hv.
Qed.

(** ** Databases stand for worlds *)

Definition decode_account (enc : list Z) : option Account :=
  match DecodeBytes enc t_Account with Ok v => account_of v | _ => None end.

(** What the database holds for an address. *)
Definition acct_at (objs : gmap (list Z) stateObject) (m : gmap (list Z) (list Z)) (addr : list Z) (v : option acct) : Prop :=
  match objs !! addr with
  | Some o =>
      so_address o = addr /\
      if deleted o then v = None /\ m !! hashKey addr = None else exists a, v = Some a /\ obj_rep o a
  | None =>
      match m !! hashKey addr with
      | Some enc => exists data a, decode_account enc = Some data /\ v = Some a /\ obj_rep (newObject addr data) a
      | None => v = None
      end
  end.

Record state_rep (s : StateDB) (m : gmap (list Z) (list Z)) (w : world) : Prop := {
  sr_trie : holds dbnode (s_trie s) m;
  sr_acct : forall addr, acct_at (stateObjects s) m addr (w_acct w addr);
  sr_refund : s_refund s = w_refund w;
  sr_context : thash s = w_thash w /\ bhash s = w_bhash w /\ txIndex s = w_txIndex w;
  sr_logs : s_logs s = w_logs w /\ logSize s = w_logSize w;
  sr_logs_ok : in_u64 (w_logSize w) /\ forall h, w_logs w !! h <> Some [];
  sr_preimages : s_preimages s = w_preimages w
}.

Lemma acct_at_equiv objs m addr v v' : v ≡ v' -> acct_at objs m addr v -> acct_at objs m addr v'.
Proof.
  intros Hv. unfold acct_at. destruct (objs !! addr) as [o|].
  - intros [Ho Hd]. split; [done|]. destruct (deleted o).
    + destruct Hd as [-> Hd]. by inversion Hv.
    + destruct Hd as (a & -> & Hr). inversion Hv; subst. eexists. split; [done|]. by eapply obj_rep_equiv.
  - destruct (m !! hashKey addr) as [enc|]; [|intros ->; by inversion Hv].
    intros (data & a & Hd & -> & Hr). inversion Hv; subst. eexists _, _. split; [done|]. split; [done|]. by eapply obj_rep_equiv.
Qed.

Lemma state_rep_equiv s m w w' : w ≡ w' -> state_rep s m w -> state_rep s m w'.
Proof.
  intros (Ha & ? & ? & ? & ? & El & Es & ?) [? Hs ? (? & ? & ?) [? ?] ? ?].
  split; [done| |congruence|by split_and!; etrans|by split; etrans|by rewrite <- El, <- Es|congruence]. intros addr. eapply acct_at_equiv; [apply Ha|apply Hs].
Qed.

(** The database apart from the objects and the trie. *)
Definition same_core (s s' : StateDB) : Prop :=
  exists t objs, s' = set_objects objs (set_s_trie t s).

Lemma same_core_refl s : same_core s s.
Proof. exists (s_trie s), (stateObjects s). by destruct s. Qed.

Lemma same_core_trans s1 s2 s3 : same_core s1 s2 -> same_core s2 s3 -> same_core s1 s3.
Proof. intros (t1 & o1 & ->) (t2 & o2 & ->). by exists t2, o2. Qed.

Lemma same_core_journal s s' : same_core s s' -> s_journal s' = s_journal s /\ validRevisions s' = validRevisions s /\ nextRevisionId s' = nextRevisionId s.
Proof. by intros (t & o & ->). Qed.

(** ** Loading *)

Context (Hdb : db_coherent dbnode).

Lemma acct_at_absent objs m addr : acct_at objs m addr None -> m !! hashKey addr = None.
Proof.
  unfold acct_at. destruct (objs !! addr) as [o|].
  - intros [_ Hd]. destruct (deleted o); [by destruct Hd|]. by destruct Hd as (a & Ha & _).
  - destruct (m !! hashKey addr); [|done]. by intros (? & ? & _ & ? & _).
Qed.

Lemma acct_at_insert objs m addr o a b v :
  so_address o = addr -> obj_rep o a -> acct_at objs m b v ->
  acct_at (<[addr := o]> objs) m b (if bool_decide (b = addr) then Some a else v).
Proof.
  intros Ho Hr Hb. unfold acct_at. case_bool_decide as E.
  - subst b. rewrite lookup_insert_eq. split; [done|]. rewrite (or_alive _ _ Hr). eauto.
  - by rewrite lookup_insert_ne.
Qed.

(** Writing an object writes an account. *)
Lemma state_rep_put s m w addr o a :
  state_rep s m w -> so_address o = addr -> obj_rep o a ->
  state_rep (set_objects (<[addr := o]> (stateObjects s)) s) m (set_acct addr (Some a) w).
Proof. intros [] Ho Hr. split; try done. intros b. by apply acct_at_insert. Qed.

(** Replacing an object by one that stands for the same account. *)
Lemma state_rep_refresh s m w addr o a :
  state_rep s m w -> w_acct w addr = Some a -> so_address o = addr -> obj_rep o a ->
  state_rep (set_objects (<[addr := o]> (stateObjects s)) s) m w.
Proof.
  intros Hs Hw Ho Hr. eapply state_rep_equiv; [|by apply (state_rep_put s m w addr o a)].
  split_and!; try done. intros b. simpl. case_bool_decide; [subst; by rewrite Hw|reflexivity].
Qed.

Lemma state_rep_trie s m w t : state_rep s m w -> holds dbnode t m -> state_rep (set_s_trie t s) m w.
Proof. intros [] Ht. by split. Qed.

Lemma getStateObject_ok s m w addr :
  state_rep s m w ->
  exists s' r, getStateObject dbnode addr s = Ok (s', inr r) /\ state_rep s' m w /\ same_core s s' /\
    match w_acct w addr with
    | None => r = None
    | Some a => exists o, r = Some o /\ so_address o = addr /\ obj_rep o a /\ stateObjects s' !! addr = Some o
    end.
Proof.
  intros Hs. pose proof (sr_acct _ _ _ Hs addr) as Ha. unfold acct_at in Ha.
  unfold getStateObject. erewrite sm_bind_ok by done. destruct (stateObjects s !! addr) as [o|] eqn:Eo.
  { destruct Ha as [Ho Ha]. eexists _, _. split; [done|]. split; [done|]. split; [apply same_core_refl|].
    destruct (deleted o); [by destruct Ha as [-> _]|]. destruct Ha as (a & -> & Hr). eauto. }
  erewrite sm_bind_ok by done. destruct (st_TryGet_ok dbnode Hdb _ _ addr (sr_trie _ _ _ Hs)) as (t & Et & Ht).
  erewrite sm_bind_ok by (unfold total, pure; by rewrite Et). cbn beta iota. erewrite sm_bind_ok by done.
  pose proof (state_rep_trie _ _ _ _ Hs Ht) as Hs'.
  destruct (m !! hashKey addr) as [enc|] eqn:Em.
  - destruct Ha as (data & a & Hd & Hw & Hr). rewrite Hw.
    pose proof (rep_value_nonempty _ _ _ _ _ (sound_rep _ _ _ Ht) Em) as Hne. destruct enc as [|x enc]; [done|].
    unfold decode_account in Hd. destruct (DecodeBytes (x :: enc) t_Account) as [v| | |] eqn:Ed; try done.
    rewrite Hd. erewrite sm_bind_ok by done. cbn beta iota. erewrite sm_bind_ok by done.
    eexists _, _. split; [done|]. split; [|split; [by eexists _, _|]].
    + by apply (state_rep_refresh _ m w addr (newObject addr data) a).
    + exists (newObject addr data). split_and!; try done. simpl. apply lookup_insert_eq.
  - subst. rewrite Ha. eexists _, _. split; [done|]. split; [done|]. split; [|done].
    exists t, (stateObjects s). by destruct s.
Qed.

(** ** Objects under the operations *)

(** An object changed apart from its storage. *)
Lemma obj_rep_data o a data c d su :
  obj_rep o a -> a_Root data = a_Root (so_data o) -> Common.hash_ok (a_CodeHash data) ->
  let o' := mkObject (so_address o) data (so_dbErr o) (so_trie o) c (cachedStorage o) (dirtyStorage o) d su (deleted o) in
  obj_rep o' (mkAcct (a_Nonce data) (a_Balance data) (a_CodeHash data) (code_view o') (v_storage a) su).
Proof.
  intros [? ? ? ? ? ? (sm & Ht & Hv) ? ?] Hroot Hh. split; try done. exists sm. split; [|done].
  unfold storage_trie in *. cbn [so_trie so_data]. by rewrite Hroot.
Qed.

Lemma code_view_data o data t c d e su :
  a_CodeHash data = a_CodeHash (so_data o) ->
  code_view (mkObject (so_address o) data e t (so_code o) c d (dirtyCode o) su (deleted o)) = code_view o.
Proof.
  intros Hh. unfold code_view, obj_Code. cbn [so_code so_data]. rewrite Hh. destruct (so_code o); [done|].
  case_bool_decide; [done|]. by destruct (codedb _).
Qed.

Lemma setBalance_rep o a x : obj_rep o a -> obj_rep (setBalance x o) (with_balance x a).
Proof.
  intros Hr. eapply obj_rep_equiv; [|apply (obj_rep_data o a _ (so_code o) (dirtyCode o) (suicided o) Hr); [done|by apply (or_hash _ _ Hr)]].
  rewrite code_view_data by done. by destruct Hr.
Qed.

Lemma setNonce_rep o a x : obj_rep o a -> obj_rep (setNonce x o) (with_nonce x a).
Proof.
  intros Hr. eapply obj_rep_equiv; [|apply (obj_rep_data o a _ (so_code o) (dirtyCode o) (suicided o) Hr); [done|by apply (or_hash _ _ Hr)]].
  rewrite code_view_data by done. by destruct Hr.
Qed.

Lemma set_suicided_rep o a b : obj_rep o a -> obj_rep (set_suicided b o) (with_suicided b a).
Proof.
  intros Hr. eapply obj_rep_equiv; [|apply (obj_rep_data o a (so_data o) (so_code o) (dirtyCode o) b Hr); [done|by apply (or_hash _ _ Hr)]].
  rewrite code_view_data by done. by destruct Hr.
Qed.

(** Setting code: the code is there, or it is what the hash stands for. *)
Lemma setCode_rep o a h c :
  obj_rep o a -> Common.hash_ok h ->
  obj_rep (setCode h c o)
    (with_code h (match c with Some c => c | None => if bool_decide (h = emptyCodeHash) then [] else default [] (codedb h) end) a).
Proof.
  intros Hr Hh. eapply obj_rep_equiv; [|apply (obj_rep_data o a (mkAccount (a_Nonce (so_data o)) (a_Balance (so_data o)) (a_Root (so_data o)) h) c true (suicided o) Hr); done].
  split_and!; try apply Hr; try done. unfold code_view, obj_Code. cbn [so_code so_data a_CodeHash]. destruct c; [done|].
  case_bool_decide; [done|]. rewrite BytesToHash_id by done. by destruct (codedb h).
Qed.

Lemma setState_rep o a k v : obj_rep o a -> obj_rep (setState k v o) (with_state k v a).
Proof.
  intros [? ? ? Hc ? ? (sm & Ht & Hv) Hd ?]. split; try done.
  - etrans; [by apply (code_view_data o)|done].
  - exists sm. split; [done|]. intros k'. unfold storage_view. simpl. rewrite <- Hv. unfold storage_view.
    case_bool_decide; [subst; by rewrite lookup_insert_eq|by rewrite lookup_insert_ne].
  - simpl. intros k' v'. rewrite !lookup_insert_Some. naive_solver.
Qed.

Lemma obj_Code_rep o a :
  obj_rep o a -> default [] (obj_Code codedb o).1 = v_code a /\ obj_rep (obj_Code codedb o).2 a /\
  so_address (obj_Code codedb o).2 = so_address o /\ a_CodeHash (so_data (obj_Code codedb o).2) = a_CodeHash (so_data o).
Proof.
  intros Hr. split; [apply (or_code _ _ Hr)|]. unfold obj_Code. destruct (so_code o) eqn:E; [done|].
  case_bool_decide as Ee; [done|]. destruct Hr as [? ? ? Hc ? ? ? ? ?].
  unfold code_view, obj_Code in Hc. rewrite E, bool_decide_false in Hc by done.
  destruct (codedb _) as [c|] eqn:Ec; split_and!; try done; split; try done.
  unfold code_view, obj_Code. cbn [snd so_code set_so_code so_data obj_setError].
  rewrite bool_decide_false by done. by rewrite Ec.
Qed.

Lemma getTrie_ok o sm : storage_trie o sm -> exists t, getTrie dbnode o = Ok (t, set_so_trie t o) /\ holds dbnode t sm.
Proof.
  unfold storage_trie, getTrie. destruct (so_trie o) as [t|] eqn:Es.
  - intros Hh. exists t. split; [|done]. destruct o; simpl in *. by subst.
  - intros (t & -> & Hh). by exists t.
Qed.

(** Reading storage opens the trie and fills the cache. *)
Lemma obj_GetState_rep o a k :
  obj_rep o a ->
  exists o', obj_GetState dbnode o k = Ok (v_storage a k, o') /\ obj_rep o' a /\ so_address o' = so_address o.
Proof.
  intros Hr. destruct (or_storage _ _ Hr) as (sm & Ht & Hv). specialize (Hv k) as Hk. unfold storage_view in Hk.
  unfold obj_GetState. destruct (cachedStorage o !! k) as [v|] eqn:Ec; [subst; by eexists|].
  destruct (getTrie_ok _ _ Ht) as (t & Et & Hh). rewrite Et. cbn [mbind outcome_bind]. destruct (st_TryGet_ok dbnode Hdb _ _ k Hh) as (t' & -> & Hh'). cbn [mbind outcome_bind].
  unfold trie_value in Hk.
  assert (forall e v, v = v_storage a k ->
    obj_rep (cache_value k v (mkObject (so_address o) (so_data o) e (Some t') (so_code o) (cachedStorage o) (dirtyStorage o) (dirtyCode o) (suicided o) (deleted o))) a) as Hnew.
  { intros e v ->. destruct Hr as [? ? ? Hc ? ? _ Hd ?]. split; try done.
    - etrans; [by apply (code_view_data o)|done].
    - exists sm. split; [done|]. intros k'. rewrite <- (Hv k'). unfold storage_view. simpl.
      destruct (decide (k' = k)) as [->|]; [by rewrite lookup_insert_eq, Ec|].
      by rewrite lookup_insert_ne by congruence.
    - simpl. intros k' v' Hk'. apply Hd in Hk'. rewrite lookup_insert_ne; [done|]. intros ->. congruence. }
  assert (settled (storage_content (default [] (sm !! hashKey k)))) as [[v E]|[e E]].
  { unfold storage_content. destruct (default [] _); [left; by eexists|]. apply settled_bind; [apply Split_settled|].
    intros [[? ?] ?] _. left. by eexists. }
  - rewrite E in *. subst v. eexists. split; [done|]. split; [by apply Hnew|done].
  - rewrite E in *. rewrite <- Hk. eexists. split; [done|]. split; [by apply Hnew|done].
Qed.

(** ** The journal undoes changes *)

Definition code_of (h : list Z) (c : option (list Z)) : list Z :=
  match c with Some c => c | None => if bool_decide (h = emptyCodeHash) then [] else default [] (codedb h) end.

(** [undoes m e w w']: undoing the entry [e] leads from [w] back to [w']. *)
Inductive undoes (m : gmap (list Z) (list Z)) : journalEntry -> world -> world -> Prop :=
  | U_create a w w' : m !! hashKey a = None -> w' ≡ set_acct a None w -> undoes m (createObjectChange a) w w'
  | U_reset prev v w w' : obj_rep prev v -> w' ≡ set_acct (so_address prev) (Some v) w -> undoes m (resetObjectChange prev) w w'
  | U_suicide a prev bal v w w' :
      w_acct w a ≡ Some v -> w' ≡ set_acct a (Some (with_balance bal (with_suicided prev v))) w ->
      undoes m (suicideChange a prev bal) w w'
  | U_balance a prev v w w' :
      w_acct w a ≡ Some v -> w' ≡ set_acct a (Some (with_balance prev v)) w -> undoes m (balanceChange a prev) w w'
  | U_nonce a prev v w w' :
      w_acct w a ≡ Some v -> w' ≡ set_acct a (Some (with_nonce prev v)) w -> undoes m (nonceChange a prev) w w'
  | U_storage a k prev v w w' :
      w_acct w a ≡ Some v -> w' ≡ set_acct a (Some (with_state k prev v)) w -> undoes m (storageChange a k prev) w w'
  | U_code a prevcode prevhash v w w' :
      w_acct w a ≡ Some v -> Common.hash_ok prevhash ->
      w' ≡ set_acct a (Some (with_code prevhash (code_of prevhash prevcode) v)) w -> undoes m (codeChange a prevcode prevhash) w w'
  | U_refund prev w w' : w' ≡ with_refund prev w -> undoes m (refundChange prev) w w'
  | U_log h logs l w w' :
      w_logs w !! h = Some (logs ++ [l]) ->
      w' ≡ with_logs (if bool_decide (logs = []) then delete h (w_logs w) else <[h := logs]> (w_logs w)) (u64 (w_logSize w - 1)) w ->
      undoes m (addLogChange h) w w'
  | U_preimage h w w' : w' ≡ with_preimages (delete h (w_preimages w)) w -> undoes m (addPreimageChange h) w w'
  | U_touch a w w' : w' ≡ w -> undoes m (touchChange a) w w'.

Inductive undo_chain (m : gmap (list Z) (list Z)) : list journalEntry -> world -> world -> Prop :=
  | chain_nil w w' : w' ≡ w -> undo_chain m [] w w'
  | chain_cons e es w w1 w2 : undoes m e w w1 -> undo_chain m es w1 w2 -> undo_chain m (e :: es) w w2.

Lemma world_acct v w a x : v ≡ w -> w_acct v a ≡ x -> w_acct w a ≡ x.
Proof. intros [Ha _] <-. symmetry. apply Ha. Qed.

Lemma undoes_equiv m e v w w' : v ≡ w -> undoes m e v w' -> undoes m e w w'.
Proof.
  intros Hvw Hu.
  assert (forall a x u, u ≡ set_acct a x v -> u ≡ set_acct a x w) as Hset by (intros a x u ->; by apply set_acct_equiv).
  destruct Hu; try (econstructor; eauto using world_acct; fail); destruct Hvw as (Ha & Hr & Ht & Hb & Hi & Hl & Hs & Hp).
  - apply U_refund. etrans; [done|]. by split_and!.
  - eapply U_log; [by rewrite <- Hl|]. rewrite <- Hl, <- Hs. etrans; [done|]. by split_and!.
  - apply U_preimage. etrans; [done|]. rewrite Hp. by split_and!.
  - apply U_touch. etrans; [done|]. by split_and!.
Qed.

Lemma undo_chain_equiv m es v w w' : v ≡ w -> undo_chain m es v w' -> undo_chain m es w w'.
Proof.
  intros Hvw Hc. destruct Hc as [|e es v w1 w2 Hu Hc]; [constructor; by etrans|].
  econstructor; [by eapply undoes_equiv|done].
Qed.

Lemma undo_chain_app m es es' w1 w2 w3 : undo_chain m es w1 w2 -> undo_chain m es' w2 w3 -> undo_chain m (es ++ es') w1 w3.
Proof.
  intros Hc Hc'. induction Hc as [w w' Hw|]; [by eapply undo_chain_equiv|]. simpl. econstructor; eauto.
Qed.

(** [revert] of an entry does what the entry stands for. *)
Lemma mod_object_run s a f o :
  stateObjects s !! a = Some o -> mod_object a f s = Ok (set_objects (<[a := f o]> (stateObjects s)) s, inr tt).
Proof. intros Ho. unfold mod_object, modify. do 3 f_equal. apply map_eq. intros b.
  destruct (decide (a = b)) as [<-|]; [by rewrite lookup_alter_eq, Ho, lookup_insert_eq|by rewrite lookup_alter_ne, lookup_insert_ne].
Qed.

(** Changing an existing object in place, the way most entries are undone. *)
Lemma revert_existing s m w a v f g :
  state_rep s m w -> w_acct w a ≡ Some v -> (forall o v, obj_rep o v -> obj_rep (f o) (g v)) -> (forall o, so_address (f o) = so_address o) ->
  exists s', (o ← getStateObject dbnode a; _ ← must o; mod_object a f) s = Ok (s', inr tt) /\
    state_rep s' m (set_acct a (Some (g v)) w) /\ same_core s s'.
Proof.
  intros Hs Hv Hf Hfa. destruct (getStateObject_ok s m w a Hs) as (s1 & r & E & Hs1 & Hc & Hr).
  inversion Hv as [x y Hxy Ex|]; subst y. rewrite <- Ex in Hr. destruct Hr as (o & -> & Ho & Hor & Hl).
  erewrite sm_bind_ok by exact E. erewrite sm_bind_ok by done. rewrite (mod_object_run _ _ _ _ Hl).
  eexists. split; [done|]. split.
  - apply state_rep_put; [done|by rewrite Hfa|]. apply Hf. by eapply obj_rep_equiv.
  - eapply same_core_trans; [done|]. by exists (s_trie s1), (<[a := f o]> (stateObjects s1)).
Qed.

Definition keeps_log (s s' : StateDB) : Prop :=
  s_journal s' = s_journal s /\ validRevisions s' = validRevisions s /\ nextRevisionId s' = nextRevisionId s.

Lemma acct_at_delete objs m a b v :
  m !! hashKey a = None -> acct_at objs m b v -> acct_at (delete a objs) m b (if bool_decide (b = a) then None else v).
Proof.
  intros Hm Hb. unfold acct_at. case_bool_decide as E.
  - subst b. by rewrite lookup_delete_eq, Hm.
  - by rewrite lookup_delete_ne.
Qed.

Lemma revert_log_ok s m w h logs l :
  state_rep s m w -> w_logs w !! h = Some (logs ++ [l]) ->
  exists s', revert_entry dbnode (addLogChange h) s = Ok (s', inr tt) /\ keeps_log s s' /\
    state_rep s' m (with_logs (if bool_decide (logs = []) then delete h (w_logs w) else <[h := logs]> (w_logs w)) (u64 (w_logSize w - 1)) w).
Proof.
  intros [? ? ? ? [El Es] [Hsize Hne] ?] Hl. unfold revert_entry. erewrite sm_bind_ok by done. rewrite El, Hl. cbn [default from_option id].
  assert (in_u64 (u64 (w_logSize w - 1))) by (apply wrapU_range; lia).
  destruct logs as [|x [|y logs]]; cbn [app]; (eexists; split; [done|split; [done|]]).
  - rewrite bool_decide_true by done. split; simpl; try done; [by rewrite El, Es|]. split; [done|]. intros h' [_ Hh]%lookup_delete_Some. by eapply Hne.
  - rewrite bool_decide_false by done. split; simpl; try done; [by rewrite El, Es|]. split; [done|].
    intros h' [[_ Hh]|[_ Hh]]%lookup_insert_Some; [done|by eapply Hne].
  - rewrite bool_decide_false by done. split; simpl; try done.
    + rewrite El, Es, length_app, Nat.add_1_r. cbn [take]. by rewrite take_app_length.
    + split; [done|]. intros h' [[_ Hh]|[_ Hh]]%lookup_insert_Some; [done|by eapply Hne].
Qed.

Lemma revert_entry_ok s m w e w' :
  state_rep s m w -> undoes m e w w' ->
  exists s', revert_entry dbnode e s = Ok (s', inr tt) /\ keeps_log s s' /\ state_rep s' m w'.
Proof.
  intros Hs Hu.
  assert (forall a v f g, w_acct w a ≡ Some v -> w' ≡ set_acct a (Some (g v)) w ->
    (forall o v, obj_rep o v -> obj_rep (f o) (g v)) -> (forall o, so_address (f o) = so_address o) ->
    exists s', (o ← getStateObject dbnode a; _ ← must o; mod_object a f) s = Ok (s', inr tt) /\ keeps_log s s' /\ state_rep s' m w') as Hchange.
  { intros a v f g Hv Hw Hf Hfa. destruct (revert_existing s m w a v f g) as (s' & E & Hs' & Hc); try done.
    exists s'. split; [done|]. split; [by apply same_core_journal|]. by eapply state_rep_equiv. }
  destruct Hu as [a w w' Hm Hw|prev v w w' Hv Hw|a prev bal v w w' Hv Hw|a prev v w w' Hv Hw|a prev v w w' Hv Hw
    |a k prev v w w' Hv Hw|a pc ph v w w' Hv Hh Hw|prev w w' Hw|h logs l w w' Hl Hw|h w w' Hw|a w w' Hw].
  - eexists. split; [done|]. split; [done|]. eapply state_rep_equiv; [symmetry; exact Hw|].
    destruct Hs as [? Ha ? ? ? ? ?]. split; try done. intros b. by apply acct_at_delete.
  - eexists. split; [done|]. split; [done|]. eapply state_rep_equiv; [symmetry; exact Hw|]. by apply state_rep_put.
  - destruct (Hchange a v (fun o => setBalance bal (set_suicided prev o)) (fun v => with_balance bal (with_suicided prev v))) as (s' & E & Hk & Hr);
      try done; [intros; by apply setBalance_rep, set_suicided_rep|].
    exists s'. split; [|done]. destruct (getStateObject_ok s m w a Hs) as (s2 & r2 & E2 & _ & _ & Hr2).
    inversion Hv as [x y Hxy Ex|]; subst y. rewrite <- Ex in Hr2. destruct Hr2 as (o & -> & _).
    unfold revert_entry. erewrite sm_bind_ok in E |- * by exact E2. exact E.
  - apply (Hchange a v (setBalance prev) (with_balance prev)); try done. intros. by apply setBalance_rep.
  - apply (Hchange a v (setNonce prev) (with_nonce prev)); try done. intros. by apply setNonce_rep.
  - apply (Hchange a v (setState k prev) (with_state k prev)); try done. intros. by apply setState_rep.
  - unfold revert_entry. rewrite BytesToHash_id by done.
    apply (Hchange a v (setCode ph pc) (with_code ph (code_of ph pc))); try done. intros o u Hr. by apply setCode_rep.
  - eexists. split; [done|]. split; [done|]. eapply state_rep_equiv; [symmetry; exact Hw|]. by destruct Hs.
  - destruct (revert_log_ok s m w h logs l Hs Hl) as (s' & E & Hk & Hr). exists s'. split; [done|]. split; [done|].
    by eapply state_rep_equiv.
  - eexists. split; [done|]. split; [done|]. eapply state_rep_equiv; [symmetry; exact Hw|].
    destruct Hs as [? ? ? ? ? ? Hp]. split; try done. simpl. by rewrite Hp.
  - eexists. split; [done|]. split; [done|]. by eapply state_rep_equiv.
Qed.

(** Undoing the newest entries, one after the other. *)
Lemma revert_list_ok es : forall s m w w',
  state_rep s m w -> undo_chain m es w w' ->
  exists s', revert_list dbnode es s = Ok (s', inr tt) /\ state_rep s' m w' /\
    j_entries (s_journal s') = j_entries (s_journal s) /\ validRevisions s' = validRevisions s /\ nextRevisionId s' = nextRevisionId s.
Proof.
  induction es as [|e es IH]; intros s m w w' Hs Hc; inversion Hc as [? ? Hw|? ? ? w1 ? Hu Hc']; subst; simpl.
  { exists s. split; [done|]. split; [by eapply state_rep_equiv|done]. }
  destruct (revert_entry_ok s m w e w1 Hs Hu) as (s1 & E & (Hj & Hr & Hn) & Hs1). erewrite sm_bind_ok by exact E.
  erewrite sm_bind_ok by done.
  destruct (IH (undo_dirty e s1) m w1 w') as (s' & E' & Hs' & Hj' & Hr' & Hn'); [|done|].
  - unfold undo_dirty. destruct (dirtied e); [|done]. by destruct Hs1.
  - exists s'. split; [done|]. split; [done|]. rewrite Hj', Hr', Hn'. unfold undo_dirty. destruct (dirtied e); simpl; by rewrite ?Hj.
Qed.

(** ** The operations *)

(** From [s], standing for [w], to [s'], standing for [w']: the new entries of the
    journal lead back. *)
Record advances (m : gmap (list Z) (list Z)) (s : StateDB) (w : world) (s' : StateDB) (w' : world) : Prop := {
  adv_rep : state_rep s' m w';
  adv_journal : exists es, j_entries (s_journal s') = es ++ j_entries (s_journal s) /\ undo_chain m es w' w;
  adv_revisions : validRevisions s' = validRevisions s /\ nextRevisionId s' = nextRevisionId s
}.

Lemma advances_core m s w s' : state_rep s' m w -> same_core s s' -> advances m s w s' w.
Proof.
  intros Hs Hc. pose proof (same_core_journal _ _ Hc) as (Hj & Hr). split; [done| |done].
  exists []. rewrite Hj. split; [done|]. by constructor.
Qed.

Lemma advances_trans m s1 w1 s2 w2 s3 w3 : advances m s1 w1 s2 w2 -> advances m s2 w2 s3 w3 -> advances m s1 w1 s3 w3.
Proof.
  intros [_ (es & E & Hc) (Hr & Hn)] [Hs (es' & E' & Hc') (Hr' & Hn')]. split; [done| |by rewrite Hr', Hn'].
  exists (es' ++ es). rewrite E', E, app_assoc. split; [done|]. by eapply undo_chain_app.
Qed.

Lemma advances_equiv m s w s' v v' : v ≡ v' -> advances m s w s' v -> advances m s w s' v'.
Proof.
  intros Hv [Hs (es & E & Hc) Hr]. split; [by eapply state_rep_equiv| |done].
  exists es. split; [done|]. by eapply undo_chain_equiv.
Qed.

(** One entry, and a change that it undoes. *)
Lemma advances_entry m s w e s' w' :
  state_rep s' m w' -> undoes m e w' w -> j_entries (s_journal s') = e :: j_entries (s_journal s) ->
  validRevisions s' = validRevisions s -> nextRevisionId s' = nextRevisionId s -> advances m s w s' w'.
Proof.
  intros Hs Hu Hj Hr Hn. split; [done| |done]. exists [e]. split; [done|]. econstructor; [done|]. by constructor.
Qed.

Definition fresh_acct : acct := mkAcct 0 0 emptyCodeHash [] (fun _ => emptyHash) false.
Definition acct_of (w : world) (a : list Z) : acct := default fresh_acct (w_acct w a).
Definition update_acct (a : list Z) (f : acct -> acct) (w : world) : world := set_acct a (Some (f (acct_of w a))) w.

Lemma newObject_rep a : obj_rep (setNonce 0 (newObject a zero_account)) fresh_acct.
Proof.
  split; try done.
  - unfold code_view, obj_Code. simpl. by rewrite bool_decide_true.
  - apply keccak256_ok.
  - destruct (NewSecure_empty dbnode 0) as (t & E & Ht). exists ∅. split; [by exists t|]. intros k.
    unfold storage_view, trie_value. simpl. by rewrite !lookup_empty.
Qed.

(** The entry of [createObject] undoes it whatever the new object becomes. *)
Lemma createObject_ok s m w a :
  state_rep s m w ->
  exists s' prev, createObject dbnode a s = Ok (s', inr (setNonce 0 (newObject a zero_account), prev)) /\
    state_rep s' m (set_acct a (Some fresh_acct) w) /\
    (forall s2 x, keeps_log s' s2 -> state_rep s2 m (set_acct a x w) -> advances m s w s2 (set_acct a x w)) /\
    stateObjects s' !! a = Some (setNonce 0 (newObject a zero_account)) /\
    match w_acct w a with Some v => exists p, prev = Some p /\ obj_rep p v | None => prev = None end.
Proof.
  intros Hs. unfold createObject. destruct (getStateObject_ok s m w a Hs) as (s1 & r & E & Hs1 & Hc & Hr).
  erewrite sm_bind_ok by exact E. cbv zeta.
  assert (forall e, (forall x, undoes m e (set_acct a x w) w) ->
    let s' := set_objects (<[a := setNonce 0 (newObject a zero_account)]> (stateObjects s1)) (set_journal (journal_append e (s_journal s1)) s1) in
    state_rep s' m (set_acct a (Some fresh_acct) w) /\
    (forall s2 x, keeps_log s' s2 -> state_rep s2 m (set_acct a x w) -> advances m s w s2 (set_acct a x w))) as Hnew.
  { intros e Hu s'. split.
    - apply (state_rep_put (set_journal _ s1)); [by destruct Hs1|done|apply newObject_rep].
    - intros s2 x (Hj & Hv & Hn) Hs2. eapply advances_trans; [by apply advances_core|].
      eapply (advances_entry _ _ _ e); try done. by rewrite Hj. }
  destruct (w_acct w a) as [v|] eqn:Ew.
  - destruct Hr as (o & -> & Ho & Hor & Hl). do 2 erewrite sm_bind_ok by done. eexists _, _. split; [done|].
    destruct (Hnew (resetObjectChange o)) as [Hs' Hadv].
    { intros x. eapply U_reset; [done|]. rewrite Ho. symmetry. apply set_acct_restore. by rewrite Ew. }
    split; [exact Hs'|]. split; [exact Hadv|]. split; [simpl; apply lookup_insert_eq|by eauto].
  - subst r. do 2 erewrite sm_bind_ok by done. eexists _, _. split; [done|].
    destruct (Hnew (createObjectChange a)) as [Hs' Hadv].
    { intros x. apply U_create; [|symmetry; apply set_acct_restore; by rewrite Ew].
      eapply acct_at_absent. rewrite <- Ew. apply (sr_acct _ _ _ Hs). }
    split; [exact Hs'|]. split; [exact Hadv|]. split; [simpl; apply lookup_insert_eq|done].
Qed.

Lemma GetOrNewStateObject_ok s m w a :
  state_rep s m w ->
  exists s' o, GetOrNewStateObject dbnode a s = Ok (s', inr o) /\ advances m s w s' (update_acct a id w) /\
    so_address o = a /\ obj_rep o (acct_of w a) /\ stateObjects s' !! a = Some o.
Proof.
  intros Hs. unfold GetOrNewStateObject. destruct (getStateObject_ok s m w a Hs) as (s1 & r & E & Hs1 & Hc & Hr).
  erewrite sm_bind_ok by exact E. unfold update_acct, acct_of. destruct (w_acct w a) as [v|] eqn:Ew.
  - destruct Hr as (o & -> & Ho & Hor & Hl). exists s1, o. split; [done|]. split; [|done].
    eapply advances_equiv; [|by apply advances_core]. split_and!; try done.
    intros b. simpl. case_bool_decide; [subst; by rewrite Ew|reflexivity].
  - subst r. destruct (createObject_ok s1 m w a Hs1) as (s2 & prev & E2 & Hs2 & Ha & Hl & _).
    erewrite sm_bind_ok by exact E2. eexists _, _. split; [done|]. split; [|split_and!; [done|apply newObject_rep|done]].
    eapply advances_trans; [by apply advances_core|by apply Ha].
Qed.

Lemma set_acct_same a v w : w_acct (set_acct a (Some v) w) a ≡ Some v.
Proof. simpl. by rewrite bool_decide_true. Qed.

Lemma set_acct_twice a x y w : set_acct a x (set_acct a y w) ≡ set_acct a x w.
Proof. split_and!; try done. intros b. simpl. by case_bool_decide. Qed.

Lemma set_acct_back a x y v w : w_acct w a ≡ Some v -> x ≡ v -> w ≡ set_acct a (Some x) (set_acct a y w).
Proof. intros Hv Hx. symmetry. apply set_acct_restore. rewrite Hv. by constructor. Qed.

(** A change of an object that is in the map, with its entry. *)
Lemma object_change s m w a o e f v' :
  state_rep s m w -> stateObjects s !! a = Some o -> so_address (f o) = a -> obj_rep (f o) v' ->
  undoes m e (set_acct a (Some v') w) w ->
  exists s', (append e ;; mod_object a f) s = Ok (s', inr tt) /\ advances m s w s' (set_acct a (Some v') w).
Proof.
  intros Hs Hl Ha Hf Hu. erewrite sm_bind_ok by done. rewrite (mod_object_run _ a f o) by done.
  eexists. split; [done|]. eapply (advances_entry _ _ _ e); try done.
  apply (state_rep_put (set_journal _ s)); [by destruct Hs|done|done].
Qed.

(** The operations that fetch an object, creating it if need be, and change it:
    [k] is what they do with it. *)
Lemma update_ok s m w a (k : stateObject -> ST unit) g :
  state_rep s m w ->
  (forall s1 o w1, state_rep s1 m w1 -> stateObjects s1 !! a = Some o -> so_address o = a -> w_acct w1 a ≡ Some (acct_of w a) ->
     obj_rep o (acct_of w a) ->
     exists s', k o s1 = Ok (s', inr tt) /\ advances m s1 w1 s' (set_acct a (Some (g (acct_of w a))) w1)) ->
  exists s', (o ← GetOrNewStateObject dbnode a; k o) s = Ok (s', inr tt) /\ advances m s w s' (update_acct a g w).
Proof.
  intros Hs Hk. destruct (GetOrNewStateObject_ok s m w a Hs) as (s1 & o & E & Ha & Ho & Hr & Hl).
  erewrite sm_bind_ok by exact E.
  destruct (Hk s1 o _ (adv_rep _ _ _ _ _ Ha) Hl Ho) as (s' & E' & Ha'); [apply set_acct_same|done|].
  exists s'. split; [done|]. eapply advances_equiv; [|by eapply advances_trans]. apply set_acct_twice.
Qed.

Lemma obj_SetBalance_ok s m w a o v x :
  state_rep s m w -> stateObjects s !! a = Some o -> so_address o = a -> w_acct w a ≡ Some v -> obj_rep o v ->
  exists s', obj_SetBalance o x s = Ok (s', inr tt) /\ advances m s w s' (set_acct a (Some (with_balance x v)) w).
Proof.
  intros Hs Hl Ho Hv Hr. unfold obj_SetBalance. rewrite Ho, (or_balance _ _ Hr).
  apply (object_change s m w a o); try done; [by apply setBalance_rep|].
  eapply U_balance; [apply set_acct_same|]. by eapply set_acct_back.
Qed.

Lemma empty_rep o v :
  obj_rep o v ->
  empty o = bool_decide (v_nonce v = 0) && bool_decide (v_balance v = 0) && bool_decide (v_codehash v = emptyCodeHash).
Proof. intros [Hn Hb Hc _ _ _ _ _ _]. unfold empty. by rewrite Hn, Hb, Hc. Qed.

Lemma touch_ok s m w a : state_rep s m w -> exists s', touch a s = Ok (s', inr tt) /\ advances m s w s' w.
Proof.
  intros Hs. unfold touch. erewrite sm_bind_ok by done. case_bool_decide; (eexists; split; [done|]);
    (eapply (advances_entry _ _ _ (touchChange a)); [by destruct Hs|by constructor|done..]).
Qed.

Lemma AddBalance_ok s m w a x :
  state_rep s m w ->
  exists s', AddBalance dbnode a x s = Ok (s', inr tt) /\ advances m s w s' (update_acct a (fun v => with_balance (v_balance v + x) v) w).
Proof.
  intros Hs. apply update_ok; [done|]. intros s1 o w1 Hs1 Hl Ho Hv Hr. rewrite (or_balance _ _ Hr).
  case_bool_decide as Ex; [|by apply obj_SetBalance_ok].
  assert (w1 ≡ set_acct a (Some (with_balance (v_balance (acct_of w a) + x) (acct_of w a))) w1) as Hw.
  { split_and!; try done. intros b. simpl. case_bool_decide; [|reflexivity]. subst b. rewrite Hv. constructor.
    subst x. rewrite Z.add_0_r. by destruct (acct_of w a). }
  destruct (empty o).
  - destruct (touch_ok s1 m w1 (so_address o) Hs1) as (s' & E & Ha). exists s'. split; [done|]. by eapply advances_equiv.
  - eexists. split; [done|]. eapply advances_equiv; [done|]. by apply advances_core, same_core_refl.
Qed.

Lemma SubBalance_ok s m w a x :
  state_rep s m w ->
  exists s', SubBalance dbnode a x s = Ok (s', inr tt) /\ advances m s w s' (update_acct a (fun v => with_balance (v_balance v - x) v) w).
Proof.
  intros Hs. apply update_ok; [done|]. intros s1 o w1 Hs1 Hl Ho Hv Hr. rewrite (or_balance _ _ Hr).
  case_bool_decide as Ex; [|by apply obj_SetBalance_ok].
  eexists. split; [done|]. eapply advances_equiv; [|by apply advances_core, same_core_refl].
  split_and!; try done. intros b. simpl. case_bool_decide; [|reflexivity]. subst b. rewrite Hv. constructor.
  subst x. rewrite Z.sub_0_r. by destruct (acct_of w a).
Qed.

Lemma SetBalance_ok s m w a x :
  state_rep s m w -> exists s', SetBalance dbnode a x s = Ok (s', inr tt) /\ advances m s w s' (update_acct a (with_balance x) w).
Proof. intros Hs. apply update_ok; [done|]. intros. by apply obj_SetBalance_ok. Qed.

Lemma SetNonce_ok s m w a x :
  state_rep s m w -> exists s', SetNonce dbnode a x s = Ok (s', inr tt) /\ advances m s w s' (update_acct a (with_nonce x) w).
Proof.
  intros Hs. apply update_ok; [done|]. intros s1 o w1 Hs1 Hl Ho Hv Hr. rewrite Ho, (or_nonce _ _ Hr).
  apply (object_change s1 m w1 a o); try done; [by apply setNonce_rep|].
  eapply U_nonce; [apply set_acct_same|]. by eapply set_acct_back.
Qed.

(** The code that [obj_Code] returns and the hash determine the code. *)
Lemma code_of_rep o v : obj_rep o v -> code_of (v_codehash v) (obj_Code codedb o).1 = v_code v.
Proof.
  intros Hr. pose proof (or_hash _ _ Hr) as Hh. rewrite <- (or_code _ _ Hr), <- (or_codehash _ _ Hr). unfold code_view, code_of, obj_Code.
  destruct (so_code o); [done|]. case_bool_decide as Ee; [done|].
  rewrite BytesToHash_id by done. by destruct (codedb _).
Qed.

Lemma SetCode_ok s m w a c :
  state_rep s m w -> exists s', SetCode dbnode codedb a c s = Ok (s', inr tt) /\ advances m s w s' (update_acct a (with_code (keccak256 c) c) w).
Proof.
  intros Hs. apply update_ok; [done|]. intros s1 o w1 Hs1 Hl Ho Hv Hr.
  destruct (obj_Code_rep o _ Hr) as (_ & Hr' & Ho' & Hh'). pose proof (code_of_rep o _ Hr) as Hc.
  destruct (obj_Code codedb o) as [pc o'] eqn:Eo. cbn [fst snd] in *. rewrite (or_codehash _ _ Hr), Ho.
  inversion Hv as [v0 ? Hv0 E0|]; subst. erewrite sm_bind_ok by (by apply mod_object_run).
  assert (state_rep (set_objects (<[so_address o := o']> (stateObjects s1)) s1) m w1) as Hs2.
  { eapply state_rep_refresh; [done|done|done|]. by eapply obj_rep_equiv. }
  destruct (object_change _ m w1 (so_address o) o' (codeChange (so_address o) pc (v_codehash (acct_of w (so_address o))))
    (setCode (keccak256 c) (Some c)) (with_code (keccak256 c) c (acct_of w (so_address o))) Hs2) as (s' & E & Ha).
  - simpl. apply lookup_insert_eq.
  - done.
  - apply (setCode_rep o' _ _ (Some c)); [done|apply keccak256_ok].
  - eapply U_code; [apply set_acct_same|rewrite <- (or_codehash _ _ Hr); apply (or_hash _ _ Hr)|].
    eapply set_acct_back; [done|]. rewrite Hc. by destruct (acct_of w (so_address o)).
  - exists s'. split; [exact E|]. eapply advances_trans; [|done]. apply advances_core; [done|].
    by exists (s_trie s1), (<[so_address o := o']> (stateObjects s1)).
Qed.

Lemma SetState_ok s m w a k x :
  state_rep s m w -> exists s', SetState dbnode a k x s = Ok (s', inr tt) /\ advances m s w s' (update_acct a (with_state k x) w).
Proof.
  intros Hs. apply update_ok; [done|]. intros s1 o w1 Hs1 Hl Ho Hv Hr.
  destruct (obj_GetState_rep o _ k Hr) as (o' & Eo & Hr' & Ho'). rewrite Ho in Ho'.
  erewrite sm_bind_ok by (unfold total, pure; by rewrite Eo). cbn beta iota. rewrite Ho.
  inversion Hv as [v0 ? Hv0 E0|]; subst. erewrite sm_bind_ok by (by apply mod_object_run).
  assert (state_rep (set_objects (<[so_address o := o']> (stateObjects s1)) s1) m w1) as Hs2.
  { eapply state_rep_refresh; [done|done|done|]. by eapply obj_rep_equiv. }
  destruct (object_change _ m w1 (so_address o) o' (storageChange (so_address o) k (v_storage (acct_of w (so_address o)) k))
    (setState k x) (with_state k x (acct_of w (so_address o))) Hs2) as (s' & E & Ha).
  - simpl. apply lookup_insert_eq.
  - done.
  - by apply setState_rep.
  - eapply U_storage; [apply set_acct_same|]. eapply set_acct_back; [done|]. split_and!; try done.
    intros k'. simpl. by case_bool_decide; subst.
  - exists s'. split; [exact E|]. eapply advances_trans; [|done]. apply advances_core; [done|].
    by exists (s_trie s1), (<[so_address o := o']> (stateObjects s1)).
Qed.

Lemma CreateAccount_ok s m w a :
  state_rep s m w ->
  exists s', CreateAccount dbnode a s = Ok (s', inr tt) /\
    advances m s w s' (set_acct a (Some (with_balance (v_balance (acct_of w a)) fresh_acct)) w).
Proof.
  intros Hs. unfold CreateAccount, acct_of. destruct (createObject_ok s m w a Hs) as (s1 & prev & E & Hs1 & Ha & Hl & Hp).
  erewrite sm_bind_ok by exact E. cbn beta iota. destruct (w_acct w a) as [v|] eqn:Ew; [|subst prev; eexists; split; [done|]; by apply Ha].
  destruct Hp as (p & -> & Hp). rewrite (mod_object_run _ _ _ _ Hl), (or_balance _ _ Hp). eexists. split; [done|]. apply Ha; [done|].
  eapply state_rep_equiv; [apply set_acct_twice|]. apply state_rep_put; [done|done|]. by apply setBalance_rep, newObject_rep.
Qed.

Lemma Suicide_ok s m w a :
  state_rep s m w ->
  exists s', Suicide dbnode a s = Ok (s', inr (bool_decide (is_Some (w_acct w a)))) /\
    advances m s w s' (match w_acct w a with Some v => set_acct a (Some (with_balance 0 (with_suicided true v))) w | None => w end).
Proof.
  intros Hs. unfold Suicide. destruct (getStateObject_ok s m w a Hs) as (s1 & r & E & Hs1 & Hc & Hr).
  erewrite sm_bind_ok by exact E. destruct (w_acct w a) as [v|] eqn:Ew.
  - destruct Hr as (o & -> & Ho & Hor & Hl). rewrite bool_decide_true by done.
    rewrite (or_suicided _ _ Hor), (or_balance _ _ Hor).
    destruct (object_change s1 m w a o (suicideChange a (v_suicided v) (v_balance v)) (fun o => setBalance 0 (set_suicided true o))
      (with_balance 0 (with_suicided true v)) Hs1) as (s' & E' & Ha); try done.
    + by apply setBalance_rep, set_suicided_rep.
    + eapply U_suicide; [apply set_acct_same|]. eapply set_acct_back; [by rewrite Ew|]. by destruct v.
    + exists s'. split; [|eapply advances_trans; [by apply advances_core|done]].
      erewrite sm_bind_ok by done. by erewrite sm_bind_ok by exact E'.
  - subst r. rewrite bool_decide_false by (by intros [? ?]). eexists. split; [done|]. by apply advances_core.
Qed.

Lemma AddRefund_ok s m w g :
  state_rep s m w -> exists s', AddRefund g s = Ok (s', inr tt) /\ advances m s w s' (with_refund (u64 (w_refund w + g)) w).
Proof.
  intros [? ? Hr ? ? ? ?]. eexists. split; [done|]. eapply (advances_entry _ _ _ (refundChange (w_refund w))); try done.
  - split; try done. simpl. by rewrite Hr.
  - by apply U_refund.
  - simpl. by rewrite Hr.
Qed.

Definition new_log (w : world) (log : Log) : Log :=
  mkLog (l_Address log) (l_Topics log) (l_Data log) (l_BlockNumber log) (w_thash w) (u64 (w_txIndex w)) (w_bhash w) (w_logSize w) (l_Removed log).
Definition add_log (log : Log) (w : world) : world :=
  with_logs (<[w_thash w := default [] (w_logs w !! w_thash w) ++ [new_log w log]]> (w_logs w)) (u64 (w_logSize w + 1)) w.

Lemma AddLog_ok s m w l :
  state_rep s m w -> exists s', AddLog l s = Ok (s', inr tt) /\ advances m s w s' (add_log l w).
Proof.
  intros [? ? ? (Et & Eb & Ei) [El Es] [Hsize Hne] ?]. eexists. split; [done|].
  eapply (advances_entry _ _ _ (addLogChange (w_thash w))); try done.
  - split; try done; simpl; [by rewrite Et, Eb, Ei, El, Es|]. split; [apply wrapU_range; lia|].
    intros h [[_ Hh]|[_ Hh]]%lookup_insert_Some; [by apply app_nil in Hh as [_ ?]|by eapply Hne].
  - eapply U_log; [apply lookup_insert_eq|]. cbn. split_and!; try done; simpl.
    + case_bool_decide as Eo.
      * apply map_eq. intros h. destruct (decide (h = w_thash w)) as [->|].
        -- rewrite lookup_delete_eq. destruct (w_logs w !! w_thash w) as [[|]|] eqn:Ew; try done. by apply Hne in Ew.
        -- by rewrite lookup_delete_ne, lookup_insert_ne.
      * rewrite insert_insert_eq. symmetry. apply insert_id. by destruct (w_logs w !! w_thash w).
    + unfold in_u64 in Hsize. rewrite <- (u64_small (w_logSize w)) at 1 by done. unfold u64, wrapU.
      rewrite Zminus_mod_idemp_l. f_equal. lia.
  - simpl. by rewrite Et.
Qed.

Definition add_preimage (h p : list Z) (w : world) : world :=
  match w_preimages w !! h with Some _ => w | None => with_preimages (<[h := p]> (w_preimages w)) w end.

Lemma AddPreimage_ok s m w h p :
  state_rep s m w -> exists s', AddPreimage h p s = Ok (s', inr tt) /\ advances m s w s' (add_preimage h p w).
Proof.
  intros Hs. destruct Hs as [? ? ? ? ? ? Hp] eqn:EHs. unfold AddPreimage, add_preimage. erewrite sm_bind_ok by done. rewrite Hp.
  destruct (w_preimages w !! h) eqn:Eh; (eexists; split; [done|]); [by apply advances_core, same_core_refl|].
  eapply (advances_entry _ _ _ (addPreimageChange h)); try done.
  - split; try done. simpl. by rewrite Hp.
  - apply U_preimage. split_and!; try done. simpl. by rewrite delete_insert_id.
Qed.

(** Reading through an object. *)
Lemma read_ok {A} s m w a (f : option stateObject -> A) (g : option acct -> A) :
  state_rep s m w -> (f None = g None) -> (forall o v, obj_rep o v -> f (Some o) = g (Some v)) ->
  exists s', (o ← getStateObject dbnode a; mret (f o)) s = Ok (s', inr (g (w_acct w a))) /\ advances m s w s' w.
Proof.
  intros Hs Hn Hf. destruct (getStateObject_ok s m w a Hs) as (s1 & r & E & Hs1 & Hc & Hr).
  erewrite sm_bind_ok by exact E. exists s1. split; [|by apply advances_core]. unfold mret, SM_ret. do 3 f_equal.
  destruct (w_acct w a); [|by subst]. destruct Hr as (o & -> & _ & Ho & _). by apply Hf.
Qed.

Lemma refresh_ok s m w a o o' v :
  state_rep s m w -> w_acct w a = Some v -> stateObjects s !! a = Some o -> so_address o' = a -> obj_rep o' v ->
  exists s', mod_object a (fun _ => o') s = Ok (s', inr tt) /\ advances m s w s' w.
Proof.
  intros Hs Hw Hl Ho Hr. rewrite (mod_object_run _ _ _ _ Hl). eexists. split; [done|]. apply advances_core.
  - by eapply state_rep_refresh.
  - by exists (s_trie s), (<[a := o']> (stateObjects s)).
Qed.

Lemma GetCode_ok s m w a :
  state_rep s m w ->
  exists s' c, GetCode dbnode codedb a s = Ok (s', inr c) /\ default [] c = match w_acct w a with Some v => v_code v | None => [] end /\
    advances m s w s' w.
Proof.
  intros Hs. unfold GetCode. destruct (getStateObject_ok s m w a Hs) as (s1 & r & E & Hs1 & Hc & Hr).
  erewrite sm_bind_ok by exact E. destruct (w_acct w a) as [v|] eqn:Ew.
  - destruct Hr as (o & -> & Ho & Hor & Hl). destruct (obj_Code_rep o v Hor) as (Hc1 & Hc2 & Hc3 & _).
    destruct (obj_Code codedb o) as [c o']. cbn [fst snd] in *. destruct (refresh_ok s1 m w a o o' v) as (s' & E' & Ha); try done; [by rewrite Hc3|].
    exists s', c. erewrite sm_bind_ok by exact E'. split; [done|]. split; [done|]. eapply advances_trans; [by apply advances_core|done].
  - subst r. exists s1, None. split; [done|]. split; [done|]. by apply advances_core.
Qed.

(** The hash of no code is no other code's. *)
Context (Hcode : default [] (codedb emptyCodeHash) = []).

Lemma GetCodeSize_ok s m w a :
  state_rep s m w ->
  exists s', GetCodeSize dbnode codedb a s = Ok (s', inr (match w_acct w a with Some v => Z.of_nat (length (v_code v)) | None => 0 end)) /\
    advances m s w s' w.
Proof.
  intros Hs. unfold GetCodeSize. destruct (getStateObject_ok s m w a Hs) as (s1 & r & E & Hs1 & Hc & Hr).
  erewrite sm_bind_ok by exact E. destruct (w_acct w a) as [v|] eqn:Ew; [|subst r; exists s1; split; [done|by apply advances_core]].
  destruct Hr as (o & -> & Ho & Hor & Hl). pose proof (or_code _ _ Hor) as Hv. unfold code_view, obj_Code in Hv.
  destruct (so_code o) as [c|] eqn:Ec; [simpl in Hv; subst c; exists s1; split; [done|by apply advances_core]|].
  rewrite BytesToHash_id in * by apply (or_hash _ _ Hor).
  assert (v_code v = default [] (codedb (a_CodeHash (so_data o)))) as ->.
  { rewrite <- Hv. case_bool_decide as Ee; [by rewrite Ee, Hcode|by destruct (codedb (a_CodeHash (so_data o)))]. }
  destruct (codedb (a_CodeHash (so_data o))) as [c|]; [exists s1; split; [done|by apply advances_core]|].
  eexists. split; [done|]. eapply advances_trans; [by apply advances_core|].
  split; [by destruct Hs1|exists []; split; [done|by constructor]|done].
Qed.

Lemma GetState_ok s m w a k :
  state_rep s m w ->
  exists s', GetState dbnode a k s = Ok (s', inr (match w_acct w a with Some v => v_storage v k | None => emptyHash end)) /\ advances m s w s' w.
Proof.
  intros Hs. unfold GetState. destruct (getStateObject_ok s m w a Hs) as (s1 & r & E & Hs1 & Hc & Hr).
  erewrite sm_bind_ok by exact E. destruct (w_acct w a) as [v|] eqn:Ew.
  - destruct Hr as (o & -> & Ho & Hor & Hl). destruct (obj_GetState_rep o v k Hor) as (o' & Eo & Hr' & Ho').
    destruct (refresh_ok s1 m w a o o' v) as (s' & E' & Ha); try done; [by rewrite Ho'|].
    exists s'. erewrite sm_bind_ok by (unfold total, pure; by rewrite Eo). cbn beta iota.
    erewrite sm_bind_ok by exact E'. split; [done|]. eapply advances_trans; [by apply advances_core|done].
  - subst r. exists s1. split; [done|]. by apply advances_core.
Qed.

(** ** Binary search *)

Lemma search_loop_ok f n : forall fuel i j,
  (i <= j <= n)%nat -> (j - i < fuel)%nat -> (forall x y, (x <= y < n)%nat -> f x = true -> f y = true) ->
  exists r, search_loop fuel f i j = Ok r /\ (i <= r <= j)%nat /\ (forall x, (i <= x < r)%nat -> f x = false) /\ ((r < j)%nat -> f r = true).
Proof.
  induction fuel as [|fuel IH]; intros i j Hij Hf Hm; [lia|]. cbn [search_loop]. destruct (Nat.ltb_spec i j) as [Hlt|Hge].
  - assert (i <= (i + j) / 2 < j)%nat as Hh by (split; [apply Nat.div_le_lower_bound|apply Nat.Div0.div_lt_upper_bound]; lia).
    destruct (f ((i + j) / 2)%nat) eqn:Ef.
    + destruct (IH i ((i + j) / 2)%nat) as (r & E & Hr & Hb & Ht); [lia..|done|]. exists r. split; [done|]. split; [lia|]. split; [done|].
      intros _. destruct (decide (r = ((i + j) / 2)%nat)) as [->|]; [done|]. apply Ht. lia.
    + destruct (IH ((i + j) / 2 + 1)%nat j) as (r & E & Hr & Hb & Ht); [lia..|done|]. exists r. split; [done|]. split; [lia|]. split; [|done].
      intros x Hx. destruct (decide ((i + j) / 2 + 1 <= x)%nat); [apply Hb; lia|].
      destruct (f x) eqn:Ex; [|done]. by rewrite (Hm x ((i + j) / 2)%nat) in Ef by (done || lia).
  - exists i. split; [done|]. split; [lia|]. split; [lia|]. lia.
Qed.

(** ** Snapshots *)

(** [saved m b es w rs ws]: undoing the journal [es] from [w] passes through the
    worlds [ws] at the positions [rs]; the newest comes first, the identifiers
    decrease from [b]. *)
Inductive saved (m : gmap (list Z) (list Z)) : Z -> list journalEntry -> world -> list (Z * nat) -> list (Z * world) -> Prop :=
  | saved_nil b es w : saved m b es w [] []
  | saved_cons b es1 es2 w w1 id rs ws :
      id < b -> undo_chain m es1 w w1 -> saved m id es2 w1 rs ws ->
      saved m b (es1 ++ es2) w ((id, length es2) :: rs) ((id, w1) :: ws).

Lemma saved_extend m b es w w' es' rs ws : undo_chain m es' w' w -> saved m b es w rs ws -> saved m b (es' ++ es) w' rs ws.
Proof.
  intros Hc Hs. destruct Hs as [|b es1 es2 w w1 id rs ws Hid Hc1 Hs]; [constructor|].
  rewrite app_assoc. constructor; [done| |done]. by eapply undo_chain_app.
Qed.

Lemma saved_weaken m b b' es w rs ws : b <= b' -> saved m b es w rs ws -> saved m b' es w rs ws.
Proof. intros Hb Hs. destruct Hs; constructor; try done. lia. Qed.

Lemma saved_ids m b es w rs ws : saved m b es w rs ws -> Forall (fun r => r.1 < b) rs.
Proof.
  induction 1 as [|b es1 es2 w w1 id rs ws Hid _ _ IH]; constructor; [done|]. eapply Forall_impl; [exact IH|]. simpl. lia.
Qed.

(** The snapshot with an identifier, and those before it. *)
Fixpoint find_saved (id : Z) (ws : list (Z * world)) : option (world * list (Z * world)) :=
  match ws with
  | [] => None
  | (i, w) :: ws => if bool_decide (i = id) then Some (w, ws) else find_saved id ws
  end.

Lemma saved_find m id b es w rs ws :
  saved m b es w rs ws ->
  match find_saved id ws with
  | Some (w1, ws') => exists es1 es2 rs1 rs', es = es1 ++ es2 /\ rs = rs1 ++ (id, length es2) :: rs' /\ undo_chain m es1 w w1 /\
      id < b /\ saved m id es2 w1 rs' ws'
  | None => Forall (fun r => r.1 <> id) rs
  end.
Proof.
  induction 1 as [|b es1 es2 w w1 i rs ws Hid Hc Hs IH]; [constructor|]. simpl. case_bool_decide as Ei.
  - subst i. by exists es1, es2, [], rs.
  - destruct (find_saved id ws) as [[w2 ws']|].
    + destruct IH as (es3 & es4 & rs1 & rs' & -> & -> & Hc' & Hid' & Hs'). exists (es1 ++ es3), es4, ((i, length (es3 ++ es4)) :: rs1), rs'.
      split; [by rewrite app_assoc|]. split; [done|]. split; [by eapply undo_chain_app|]. split; [lia|done].
    + by constructor.
Qed.

(** Sorted identifiers. *)
Lemma saved_sorted m b es w rs ws : saved m b es w rs ws ->
  forall x y p q, reverse rs !! x = Some p -> reverse rs !! y = Some q -> (x <= y)%nat -> p.1 <= q.1.
Proof.
  induction 1 as [|b es1 es2 w w1 i rs ws Hid Hc Hs IH]; intros x y p q; [done|]. rewrite reverse_cons.
  intros [Hx|[Hx Ex]]%lookup_app_Some [Hy|[Hy Ey]]%lookup_app_Some Hxy.
  - by eapply IH.
  - apply list_lookup_singleton_Some in Ey as [_ <-]. simpl.
    pose proof (saved_ids _ _ _ _ _ _ Hs) as Hall. rewrite Forall_forall in Hall.
    apply list_elem_of_lookup_2, elem_of_reverse, Hall in Hx. lia.
  - apply lookup_lt_Some in Hy. lia.
  - apply list_lookup_singleton_Some in Ex as [_ <-]. apply list_lookup_singleton_Some in Ey as [_ <-]. done.
Qed.

Lemma search_revision (revs : list (Z * nat)) id :
  (forall x y p q, revs !! x = Some p -> revs !! y = Some q -> (x <= y)%nat -> p.1 <= q.1) ->
  exists r, sort_Search (length revs) (fun i => match revs !! i with Some (i', _) => bool_decide (id <= i') | None => false end) = Ok r /\
    (forall x p, revs !! x = Some p -> (x < r)%nat -> p.1 < id) /\ (forall p, revs !! r = Some p -> id <= p.1).
Proof.
  intros Hmono. edestruct (search_loop_ok (fun i : nat => match revs !! i with Some (i', _) => bool_decide (id <= i') | None => false end)
    (length revs) (S (length revs)) 0 (length revs)) as (r & E & Hr & Hb & Ht); [lia..| |].
  - intros x y Hxy Hx. destruct (revs !! x) as [[ix nx]|] eqn:Ex; [|done]. destruct (lookup_lt_is_Some_2 revs y) as [[iy ny] Ey]; [lia|].
    rewrite Ey. apply bool_decide_eq_true in Hx. apply bool_decide_eq_true. pose proof (Hmono x y _ _ Ex Ey). simpl in *. lia.
  - exists r. split; [exact E|]. split.
    + intros x [ix nx] Ex Hx. specialize (Hb x). simpl in Hb. rewrite Ex in Hb. simpl.
      assert (bool_decide (id <= ix) = false) as Hf by (apply Hb; lia). apply bool_decide_eq_false in Hf. lia.
    + intros [ix nx] Ex. simpl in *. pose proof (lookup_lt_Some _ _ _ Ex) as Hlt. specialize (Ht Hlt). simpl in Ht. rewrite Ex in Ht.
      by apply bool_decide_eq_true in Ht.
Qed.

Lemma journal_revert_ok s m w es1 es2 w1 :
  state_rep s m w -> j_entries (s_journal s) = es1 ++ es2 -> undo_chain m es1 w w1 ->
  exists s', journal_revert dbnode (length es2) s = Ok (s', inr tt) /\ state_rep s' m w1 /\ j_entries (s_journal s') = es2 /\
    validRevisions s' = validRevisions s /\ nextRevisionId s' = nextRevisionId s.
Proof.
  intros Hs Hj Hc. unfold journal_revert. erewrite sm_bind_ok by done. rewrite Hj, length_app. cbv zeta.
  destruct (Nat.ltb_spec (length es1 + length es2) (length es2)); [lia|].
  replace (length es1 + length es2 - length es2)%nat with (length es1) by lia. rewrite take_app_length.
  destruct (revert_list_ok es1 s m w w1 Hs Hc) as (s' & E & Hs' & Hj' & Hr & Hn). erewrite sm_bind_ok by exact E.
  eexists. split; [done|]. split; [by destruct Hs'|]. simpl. by rewrite Hj', Hj, drop_app_length.
Qed.

Lemma RevertToSnapshot_ok s m w id b rs ws :
  state_rep s m w -> saved m b (j_entries (s_journal s)) w rs ws -> validRevisions s = reverse rs ->
  match find_saved id ws with
  | Some (w1, ws') => exists s' rs', RevertToSnapshot dbnode id s = Ok (s', inr tt) /\ state_rep s' m w1 /\
      saved m b (j_entries (s_journal s')) w1 rs' ws' /\ validRevisions s' = reverse rs' /\ nextRevisionId s' = nextRevisionId s
  | None => RevertToSnapshot dbnode id s = Panic
  end.
Proof.
  intros Hs Hsav Hv. unfold RevertToSnapshot. erewrite sm_bind_ok by done. rewrite Hv.
  destruct (search_revision (reverse rs) id (saved_sorted _ _ _ _ _ _ Hsav)) as (r & E & Hlo & Hhi).
  erewrite sm_bind_ok by (unfold total, pure; by rewrite E). pose proof (saved_find m id _ _ _ _ _ Hsav) as Hf.
  destruct (find_saved id ws) as [[w1 ws']|].
  - destruct Hf as (es1 & es2 & rs1 & rs' & Hj & -> & Hc & Hid & Hs').
    assert (reverse (rs1 ++ (id, length es2) :: rs') = reverse rs' ++ (id, length es2) :: reverse rs1) as Hrev
      by (by rewrite reverse_app, reverse_cons, <- app_assoc).
    rewrite Hrev in *. assert ((reverse rs' ++ (id, length es2) :: reverse rs1) !! length rs' = Some (id, length es2)) as Hat
      by (by rewrite lookup_app_r, length_reverse, Nat.sub_diag by (by rewrite length_reverse)).
    assert (r = length rs') as ->.
    { destruct (Nat.lt_total r (length rs')) as [Hlt|[->|Hgt]]; [|done|by pose proof (Hlo _ _ Hat Hgt); simpl in *; lia].
      destruct (lookup_lt_is_Some_2 (reverse rs') r) as [p Hp]; [by rewrite length_reverse|].
      assert (id <= p.1) by (apply Hhi; by apply lookup_app_l_Some).
      pose proof (saved_ids _ _ _ _ _ _ Hs') as Hall. rewrite Forall_forall in Hall.
      apply list_elem_of_lookup_2, elem_of_reverse, Hall in Hp. lia. }
    rewrite Hat, bool_decide_true by done.
    destruct (journal_revert_ok s m w es1 es2 w1 Hs Hj Hc) as (s' & E' & Hs1 & Hj' & Hr & Hn). erewrite sm_bind_ok by exact E'.
    eexists _, rs'. split; [done|]. split; [by destruct Hs1|]. simpl. rewrite Hj', Hr, Hv.
    split; [eapply saved_weaken; [|done]; lia|]. split; [|done]. by rewrite <- (length_reverse rs'), take_app_length.
  - destruct (reverse rs !! r) as [[i n]|] eqn:Er; [|done]. rewrite bool_decide_false; [done|].
    rewrite Forall_forall in Hf. apply list_elem_of_lookup_2, elem_of_reverse, Hf in Er. done.
Qed.

(** ** The specification *)

Definition v_empty (v : acct) : bool :=
  bool_decide (v_nonce v = 0) && bool_decide (v_balance v = 0) && bool_decide (v_codehash v = emptyCodeHash).

(** What an operation that is not about snapshots does to a world. *)
Definition world_step (o : state_op) (w : world) : world * answer :=
  match o with
  | OpCreateAccount a => (set_acct a (Some (with_balance (v_balance (acct_of w a)) fresh_acct)) w, ANone)
  | OpAddBalance a x => (update_acct a (fun v => with_balance (v_balance v + x) v) w, ANone)
  | OpSubBalance a x => (update_acct a (fun v => with_balance (v_balance v - x) v) w, ANone)
  | OpSetBalance a x => (update_acct a (with_balance x) w, ANone)
  | OpSetNonce a x => (update_acct a (with_nonce x) w, ANone)
  | OpSetCode a c => (update_acct a (with_code (keccak256 c) c) w, ANone)
  | OpSetState a k x => (update_acct a (with_state k x) w, ANone)
  | OpSuicide a =>
      (match w_acct w a with Some v => set_acct a (Some (with_balance 0 (with_suicided true v))) w | None => w end,
       ABool (bool_decide (is_Some (w_acct w a))))
  | OpAddRefund g => (with_refund (u64 (w_refund w + g)) w, ANone)
  | OpAddLog l => (add_log l w, ANone)
  | OpAddPreimage h p => (add_preimage h p w, ANone)
  | OpExist a => (w, ABool (bool_decide (is_Some (w_acct w a))))
  | OpEmpty a => (w, ABool (match w_acct w a with Some v => v_empty v | None => true end))
  | OpGetBalance a => (w, AInt (match w_acct w a with Some v => v_balance v | None => 0 end))
  | OpGetNonce a => (w, AInt (match w_acct w a with Some v => v_nonce v | None => 0 end))
  | OpGetCodeHash a => (w, ABytes (match w_acct w a with Some v => v_codehash v | None => emptyHash end))
  | OpGetCode a => (w, ABytes (match w_acct w a with Some v => v_code v | None => [] end))
  | OpGetCodeSize a => (w, AInt (match w_acct w a with Some v => Z.of_nat (length (v_code v)) | None => 0 end))
  | OpGetState a k => (w, ABytes (match w_acct w a with Some v => v_storage v k | None => emptyHash end))
  | OpHasSuicided a => (w, ABool (match w_acct w a with Some v => v_suicided v | None => false end))
  | OpGetRefund => (w, AInt (w_refund w))
  | OpGetLogs h => (w, ALogs (default [] (w_logs w !! h)))
  | OpSnapshot | OpRevertToSnapshot _ => (w, ANone)
  end.

(** The specification of snapshots saves whole worlds; an unknown identifier is
    not accepted. *)
Definition spec_step (o : state_op) (sp : spec) : option (spec * answer) :=
  match o with
  | OpSnapshot => Some (mkSpec (sp_world sp) ((sp_next sp, sp_world sp) :: sp_saved sp) (sp_next sp + 1), AInt (sp_next sp))
  | OpRevertToSnapshot id => '(w, ws) ← find_saved id (sp_saved sp); Some (mkSpec w ws (sp_next sp), ANone)
  | _ => let '(w, a) := world_step o (sp_world sp) in Some (mkSpec w (sp_saved sp) (sp_next sp), a)
  end.

Fixpoint spec_run (os : list state_op) (sp : spec) : option (spec * list answer) :=
  match os with
  | [] => Some (sp, [])
  | o :: os => '(sp, a) ← spec_step o sp; '(sp, l) ← spec_run os sp; Some (sp, a :: l)
  end.

(** The operations of the database. *)
Definition run_op (o : state_op) : ST answer :=
  match o with
  | OpCreateAccount a => CreateAccount dbnode a ;; mret ANone
  | OpAddBalance a x => AddBalance dbnode a x ;; mret ANone
  | OpSubBalance a x => SubBalance dbnode a x ;; mret ANone
  | OpSetBalance a x => SetBalance dbnode a x ;; mret ANone
  | OpSetNonce a x => SetNonce dbnode a x ;; mret ANone
  | OpSetCode a c => SetCode dbnode codedb a c ;; mret ANone
  | OpSetState a k x => SetState dbnode a k x ;; mret ANone
  | OpSuicide a => b ← Suicide dbnode a; mret (ABool b)
  | OpAddRefund g => AddRefund g ;; mret ANone
  | OpAddLog l => AddLog l ;; mret ANone
  | OpAddPreimage h p => AddPreimage h p ;; mret ANone
  | OpExist a => b ← Exist dbnode a; mret (ABool b)
  | OpEmpty a => b ← Empty dbnode a; mret (ABool b)
  | OpGetBalance a => x ← GetBalance dbnode a; mret (AInt x)
  | OpGetNonce a => x ← GetNonce dbnode a; mret (AInt x)
  | OpGetCodeHash a => h ← GetCodeHash dbnode a; mret (ABytes h)
  | OpGetCode a => c ← GetCode dbnode codedb a; mret (ABytes (default [] c))
  | OpGetCodeSize a => x ← GetCodeSize dbnode codedb a; mret (AInt x)
  | OpGetState a k => v ← GetState dbnode a k; mret (ABytes v)
  | OpHasSuicided a => b ← HasSuicided dbnode a; mret (ABool b)
  | OpGetRefund => x ← GetRefund; mret (AInt x)
  | OpGetLogs h => l ← GetLogs h; mret (ALogs l)
  | OpSnapshot => id ← state_Snapshot; mret (AInt id)
  | OpRevertToSnapshot id => RevertToSnapshot dbnode id ;; mret ANone
  end.

Fixpoint run_ops (os : list state_op) : ST (list answer) :=
  match os with
  | [] => mret []
  | o :: os => a ← run_op o; l ← run_ops os; mret (a :: l)
  end.

(** The database stands for a state of the specification. *)
Record state_match (m : gmap (list Z) (list Z)) (s : StateDB) (sp : spec) : Prop := {
  sm_rep : state_rep s m (sp_world sp);
  sm_next : nextRevisionId s = sp_next sp;
  sm_saved : exists rs, validRevisions s = reverse rs /\ saved m (sp_next sp) (j_entries (s_journal s)) (sp_world sp) rs (sp_saved sp)
}.

Lemma advances_match m s sp s' w' :
  state_match m s sp -> advances m s (sp_world sp) s' w' -> state_match m s' (mkSpec w' (sp_saved sp) (sp_next sp)).
Proof.
  intros [_ Hn (rs & Hv & Hs)] [Hr (es & Hj & Hc) [Hv' Hn']]. split; simpl; [done|congruence|].
  exists rs. split; [congruence|]. rewrite Hj. by eapply saved_extend.
Qed.

Lemma answer_step {A} (c : ST A) (f : A -> answer) s v w w' m :
  (exists s', c s = Ok (s', inr v) /\ advances m s w s' w') ->
  exists s', (x ← c; mret (f x)) s = Ok (s', inr (f v)) /\ advances m s w s' w'.
Proof. intros (s' & E & Ha). erewrite sm_bind_ok by exact E. by exists s'. Qed.

Definition plain (o : state_op) : bool := match o with OpSnapshot | OpRevertToSnapshot _ => false | _ => true end.

Lemma run_plain o s m w :
  plain o = true -> state_rep s m w ->
  exists s', run_op o s = Ok (s', inr (world_step o w).2) /\ advances m s w s' (world_step o w).1.
Proof.
  intros Hp Hs.
  destruct o; try done; cbn [run_op world_step fst snd].
  1-7: apply (answer_step _ (fun _ => ANone) _ tt); by (apply CreateAccount_ok || apply AddBalance_ok || apply SubBalance_ok || apply SetBalance_ok ||
                        apply SetNonce_ok || apply SetCode_ok || apply SetState_ok).
  - apply answer_step. by apply Suicide_ok.
  - apply (answer_step _ (fun _ => ANone) _ tt). by apply AddRefund_ok.
  - apply (answer_step _ (fun _ => ANone) _ tt). by apply AddLog_ok.
  - apply (answer_step _ (fun _ => ANone) _ tt). by apply AddPreimage_ok.
  - apply answer_step. apply (read_ok s m w a _ (fun v => @bool_decide _ (is_Some_dec v))); try done.
  - apply answer_step. apply (read_ok s m w a _ (fun v => match v with Some v => v_empty v | None => true end)); try done. apply empty_rep.
  - apply answer_step. apply (read_ok s m w a _ (fun v => match v with Some v => v_balance v | None => 0 end)); try done. apply or_balance.
  - apply answer_step. apply (read_ok s m w a _ (fun v => match v with Some v => v_nonce v | None => 0 end)); try done. apply or_nonce.
  - apply answer_step. apply (read_ok s m w a _ (fun v => match v with Some v => v_codehash v | None => emptyHash end)); try done.
    intros o v Hr. rewrite BytesToHash_id by apply (or_hash _ _ Hr). apply (or_codehash _ _ Hr).
  - destruct (GetCode_ok s m w a Hs) as (s' & c & E & <- & Ha). exists s'. by erewrite sm_bind_ok by exact E.
  - apply answer_step. by apply GetCodeSize_ok.
  - apply answer_step. by apply GetState_ok.
  - apply answer_step. apply (read_ok s m w a _ (fun v => match v with Some v => v_suicided v | None => false end)); try done. apply or_suicided.
  - exists s. rewrite <- (sr_refund _ _ _ Hs). split; [done|]. by apply advances_core, same_core_refl.
  - exists s. rewrite <- (proj1 (sr_logs _ _ _ Hs)). split; [done|]. by apply advances_core, same_core_refl.
Qed.

Lemma step_refines m s sp o :
  state_match m s sp ->
  match spec_step o sp with
  | Some (sp', a) => exists s', run_op o s = Ok (s', inr a) /\ state_match m s' sp'
  | None => run_op o s = Panic
  end.
Proof.
  intros Hm. destruct (plain o) eqn:Ep.
  - destruct (run_plain o s m (sp_world sp) Ep (sm_rep _ _ _ Hm)) as (s' & E & Ha).
    assert (spec_step o sp = Some (mkSpec (world_step o (sp_world sp)).1 (sp_saved sp) (sp_next sp), (world_step o (sp_world sp)).2)) as ->
      by (destruct o; done).
    exists s'. split; [done|]. by eapply advances_match.
  - destruct Hm as [Hr Hn (rs & Hv & Hs)]. destruct o; try done; cbn [spec_step run_op].
    + rewrite <- Hn in *. eexists. split; [reflexivity|]. split; simpl; [by destruct Hr|done|].
      exists ((nextRevisionId s, length (j_entries (s_journal s))) :: rs). split; [by rewrite reverse_cons, Hv|].
      apply (saved_cons m _ []); [lia|by constructor|done].
    + pose proof (RevertToSnapshot_ok s m _ id _ rs _ Hr Hs Hv) as Hrev. destruct (find_saved id (sp_saved sp)) as [[w1 ws']|] eqn:Ef; cbn.
      * destruct Hrev as (s' & rs' & E & Hr' & Hs' & Hv' & Hn'). exists s'. erewrite sm_bind_ok by exact E. split; [done|].
        split; simpl; [done|congruence|]. exists rs'. done.
      * unfold mbind, SM_bind. by rewrite Hrev.
Qed.

Lemma run_refines m os : forall s sp,
  state_match m s sp ->
  match spec_run os sp with
  | Some (sp', l) => exists s', run_ops os s = Ok (s', inr l) /\ state_match m s' sp'
  | None => run_ops os s = Panic
  end.
Proof.
  induction os as [|o os IH]; intros s sp Hm; cbn [spec_run run_ops]; [by exists s|].
  pose proof (step_refines m s sp o Hm) as Hstep. destruct (spec_step o sp) as [[sp1 a]|]; cbn [mbind option_bind].
  - destruct Hstep as (s1 & E & Hm1). specialize (IH s1 sp1 Hm1). destruct (spec_run os sp1) as [[sp2 l]|]; cbn [mbind option_bind].
    + destruct IH as (s2 & E2 & Hm2). exists s2. erewrite sm_bind_ok by exact E. by erewrite sm_bind_ok by exact E2.
    + erewrite sm_bind_ok by exact E. unfold mbind, SM_bind. by rewrite IH.
  - unfold mbind, SM_bind. by rewrite Hstep.
Qed.

(** The world of the accounts in the trie: nothing has been changed yet. *)
Record committed (m : gmap (list Z) (list Z)) (w : world) : Prop := {
  cm_acct : forall addr, acct_at ∅ m addr (w_acct w addr);
  cm_rest : w_refund w = 0 /\ w_thash w = emptyHash /\ w_bhash w = emptyHash /\ w_txIndex w = 0 /\
    w_logs w = ∅ /\ w_logSize w = 0 /\ w_preimages w = ∅
}.

Lemma state_New_match rt s m w :
  state_New dbnode rt = Ok s -> holds dbnode (s_trie s) m -> committed m w -> state_match m s (mkSpec w [] 0).
Proof.
  unfold state_New. destruct (NewSecure dbnode rt MaxTrieCacheGen) as [t| | |]; try done. intros [= <-] Hh [Ha (Er & Et & Eb & Ei & El & Es & Ep)].
  split; [|done|exists []; split; [done|constructor]].
  split; cbn; try done. split; [rewrite Es; by unfold in_u64|]. intros h. by rewrite El, lookup_empty.
Qed.

(** C2: refinement.  The journal implements snapshots: open the state
    database at a root; whatever accounts are committed there, any sequence of
    reads, changes, snapshots and reverts, with caching and lazy loading going on
    underneath, gives the answers of a specification in which [Snapshot] saves the
    whole world and [RevertToSnapshot] puts it back.  An identifier that was never
    given out, or was given out after the point reverted to, panics. *)
Theorem state_refines rt s m w os :
  state_New dbnode rt = Ok s -> holds dbnode (s_trie s) m -> committed m w ->
  match spec_run os (mkSpec w [] 0) with
  | Some (sp', answers) => exists s', run_ops os s = Ok (s', inr answers) /\ state_rep s' m (sp_world sp')
  | None => run_ops os s = Panic
  end.
Proof.
  intros Hnew Hh Hc. pose proof (run_refines m os s _ (state_New_match rt s m w Hnew Hh Hc)) as Hr.
  destruct (spec_run os _) as [[sp' l]|]; [|done]. destruct Hr as (s' & E & Hm). exists s'. split; [done|apply Hm].
Qed.
End rep.

Definition no_code : list Z -> option (list Z) := fun _ => None.
Definition no_accounts : world := mkWorld (fun _ => None) 0 emptyHash emptyHash 0 ∅ 0 ∅.
Definition demo_addr (x : Z) : list Z := repeat x 20.
Definition demo_slot (x : Z) : list Z := zeroes 31 ++ [x].
Definition demo_ops : list state_op :=
  [OpSetBalance (demo_addr 1) 5; OpSetState (demo_addr 1) (demo_slot 7) (demo_slot 9); OpSnapshot;
   OpAddBalance (demo_addr 1) 3; OpSetState (demo_addr 1) (demo_slot 7) (demo_slot 2); OpSetCode (demo_addr 1) [96; 0]; OpSnapshot;
   OpCreateAccount (demo_addr 2); OpSuicide (demo_addr 1); OpGetBalance (demo_addr 1); OpRevertToSnapshot 0;
   OpGetBalance (demo_addr 1); OpGetState (demo_addr 1) (demo_slot 7); OpGetCode (demo_addr 1); OpExist (demo_addr 2);
   OpHasSuicided (demo_addr 1)].

Lemma state_refines_witness :
  let s := fresh_state (mkSecure (mkTrie Nil emptyHash None 0 120) ∅ false) in
  (exists s', @run_ops sha3_keccak no_db no_code demo_ops s =
    Ok (s', inr [ANone; ANone; AInt 0; ANone; ANone; ANone; AInt 1; ANone; ABool true; AInt 0; ANone;
                 AInt 5; ABytes (demo_slot 9); ABytes []; ABool false; ABool false])) /\
  @run_ops sha3_keccak no_db no_code (demo_ops ++ [OpRevertToSnapshot 1]) s = Panic.
Proof.
  intros s.
  assert (@committed sha3_keccak no_db no_code ∅ no_accounts) as Hc by (split; [intros addr; unfold acct_at; by rewrite !lookup_empty|done]).
  assert (@holds sha3_keccak no_db (s_trie s) ∅) as Hh by (by apply holds_empty).
  assert (state_New no_db emptyHash = Ok s) as Hn by done.
  assert (@db_coherent sha3_keccak no_db) as Hdb by (intros ? ? ? E; discriminate E).
  split.
  - pose proof (@state_refines sha3_keccak no_db no_code Hdb eq_refl emptyHash s ∅ no_accounts demo_ops Hn Hh Hc) as Hr.
    destruct (spec_run demo_ops _) as [[sp' l]|] eqn:E; [|apply (f_equal (fmap snd)) in E; vm_compute in E; discriminate E].
    destruct Hr as (s' & Hr & _). exists s'. rewrite Hr. apply (f_equal (fmap snd)) in E. vm_compute in E. injection E as <-. reflexivity.
  - pose proof (@state_refines sha3_keccak no_db no_code Hdb eq_refl emptyHash s ∅ no_accounts (demo_ops ++ [OpRevertToSnapshot 1]) Hn Hh Hc) as Hr.
    destruct (spec_run (demo_ops ++ _) _) as [[sp' l]|] eqn:E; [|exact Hr].
    apply (f_equal (fmap snd)) in E. vm_compute in E. discriminate E.
Defined.
