(* ===== verification/StateRoot.v ===== *)
(** * Roots of the state

    [Finalise] writes the accounts that the journal marks as dirty into the trie,
    each with the root of its own storage trie; [IntermediateRoot] hashes the
    result.  Both loops range over Go maps, whose order is random.

    [intermediate_root_order]: the root does not depend on the order.
    [finalise_content]: what is in the trie afterwards. *)

From S2P Require Import Prelude Common TrieEncoding Trie TrieSpec TrieMap.
From S2P Require Import TrieCanon Rlp Sha3 TrieHash TrieMerkle TrieIter.
From S2P Require Import TrieIterSpec RlpRaw TrieBinding RlpStream Params DposContext.
From S2P Require Import Header Transaction Block SecureTrie State StateSpec.

(** ** Lengths of encodings *)

Lemma length_header_le small large n : 0 <= n < 2 ^ 64 -> (length (header small large n) <= 9)%nat.
Proof.
  intros Hn. unfold header. case_bool_decide; simpl; [lia|]. rewrite length_be_bytes. pose proof (intsize_range n Hn). lia.
Qed.

Lemma length_encode_str_le b : Z.of_nat (length b) < 2 ^ 64 -> (length (encode_str b) <= length b + 9)%nat.
Proof.
  intros Hb. destruct b as [|x [|y b]]; cbn [encode_str]; [simpl; lia|case_bool_decide; simpl; lia|].
  rewrite length_app. pose proof (length_header_le 0x80 0xB7 (Z.of_nat (length (x :: y :: b)))). lia.
Qed.

Lemma length_big_bytes_le z n : 0 <= z < 2 ^ (8 * Z.of_nat n) -> (length (big_bytes z) <= n)%nat.
Proof.
  intros Hz. unfold big_bytes. case_bool_decide as Ez; [simpl; lia|]. rewrite length_be_bytes. unfold big_bytes_fuel.
  assert (Z.log2 z < 8 * Z.of_nat n) by (apply Z.log2_lt_pow2; lia).
  pose proof (Z.log2_nonneg z). pose proof (Z.div_lt_upper_bound (Z.log2 z) 8 (Z.of_nat n)). lia.
Qed.

Lemma encode_str_nonempty b : encode_str b <> [].
Proof. destruct b as [|x [|y b]]; cbn [encode_str]; [done|by case_bool_decide|]. unfold header. by case_bool_decide. Qed.

(** ** Writes to a map *)

Definition write (m : gmap (list Z) (list Z)) (kv : list Z * option (list Z)) : gmap (list Z) (list Z) :=
  match kv with (k, Some v) => <[k := v]> m | (k, None) => delete k m end.
Definition apply_writes (m : gmap (list Z) (list Z)) (ws : list (list Z * option (list Z))) : gmap (list Z) (list Z) := foldl write m ws.

Lemma lookup_write m k v k' : write m (k, v) !! k' = if bool_decide (k' = k) then v else m !! k'.
Proof.
  destruct v; simpl; case_bool_decide; subst; by rewrite ?lookup_insert_eq, ?lookup_insert_ne, ?lookup_delete_eq, ?lookup_delete_ne by congruence.
Qed.

Lemma apply_writes_other ws k : forall m, k ∉ ws.*1 -> apply_writes m ws !! k = m !! k.
Proof.
  induction ws as [|[k' v] ws IH]; intros m Hk; [done|]. simpl in *. apply not_elem_of_cons in Hk as [Hne Hk].
  change (apply_writes (write m (k', v)) ws !! k = m !! k). rewrite IH by done. by rewrite lookup_write, bool_decide_false.
Qed.

Lemma apply_writes_key ws k v : forall m, NoDup ws.*1 -> (k, v) ∈ ws -> apply_writes m ws !! k = v.
Proof.
  induction ws as [|[k' v'] ws IH]; intros m Hn Hin; [by apply not_elem_of_nil in Hin|]. apply NoDup_cons in Hn as [Hk Hn].
  change (apply_writes (write m (k', v')) ws !! k = v). apply elem_of_cons in Hin as [[= -> ->]|Hin]; [|by apply IH].
  rewrite (apply_writes_other ws k' _ Hk). by rewrite lookup_write, bool_decide_true.
Qed.

(** Writes to different keys can be made in any order. *)
Lemma apply_writes_order m ws ws' : NoDup ws.*1 -> ws ≡ₚ ws' -> apply_writes m ws = apply_writes m ws'.
Proof.
  intros Hn Hp. apply map_eq. intros k. assert (NoDup ws'.*1) as Hn' by (by rewrite <- Hp).
  destruct (decide (k ∈ ws.*1)) as [Hk|Hk].
  - apply list_elem_of_fmap in Hk as ([k' v] & -> & Hv). rewrite (apply_writes_key ws _ v) by done.
    symmetry. apply apply_writes_key; [done|]. by rewrite <- Hp.
  - rewrite apply_writes_other by done. symmetry. apply apply_writes_other. by rewrite <- Hp.
Qed.

Section root.
Context `{Keccak} (dbnode : list Z -> Z -> option node) (codedb : list Z -> option (list Z)) (Hdb : db_coherent dbnode).

(** ** Storage *)

Definition storage_write (kv : list Z * list Z) : list Z * option (list Z) :=
  (hashKey kv.1, if bool_decide (kv.2 = emptyHash) then None else Some (encode_str (trim_left kv.2))).

Lemma length_trim_left b : (length (trim_left b) <= length b)%nat.
Proof. induction b as [|x b IH]; simpl; [lia|]. case_bool_decide; simpl; lia. Qed.

Lemma trim_left_pad b : zeroes (length b - length (trim_left b)) ++ trim_left b = b.
Proof.
  unfold zeroes. induction b as [|x b IH]; [done|]. simpl. case_bool_decide as Ex; [|by rewrite Nat.sub_diag].
  pose proof (length_trim_left b). rewrite Nat.sub_succ_l by lia. simpl. by rewrite IH, Ex.
Qed.

(** What is written to a slot is what is read from it. *)
Lemma storage_write_read k x : length x = HashLength -> trie_value (storage_write (k, x)).2 = x.
Proof.
  intros Hl. unfold trie_value, storage_write. cbn [fst snd]. case_bool_decide as Ex; [by subst|]. cbn [default from_option id].
  pose proof (length_trim_left x) as Ht. pose proof (length_encode_str_le (trim_left x)) as He. unfold HashLength in *.
  set (c := trim_left x) in *. assert (Split (encode_str c) = Ok (if single c then KByte else KString, c, [])) as Es.
  { rewrite <- (app_nil_r (encode_str c)). destruct (single c) eqn:Ec.
    - apply (Split_frame KByte); [done|]. cbn [frame]. rewrite app_nil_r. lia.
    - apply (Split_frame KString); [done|]. cbn [frame]. rewrite app_nil_r. lia. }
  unfold storage_content. pose proof (encode_str_nonempty c) as Hne. destruct (encode_str c); [done|].
  rewrite Es. cbn [mbind outcome_bind]. unfold BytesToHash, setBytes, HashLength.
  destruct (Nat.ltb_spec 32 (length c)); [lia|]. rewrite <- Hl. apply trim_left_pad.
Qed.

Lemma flush_entry_ok t o sm k v :
  holds dbnode t sm -> length v = HashLength ->
  exists t', flush_entry dbnode t o k v = Ok (t', set_storage (cachedStorage o) (delete k (dirtyStorage o)) o) /\
    holds dbnode t' (write sm (storage_write (k, v))).
Proof.
  intros Hh Hl. unfold flush_entry, storage_write. cbn [fst snd]. case_bool_decide.
  - destruct (st_TryDelete_ok dbnode Hdb t sm k Hh) as (t' & -> & Ht). by exists t'.
  - pose proof (length_trim_left v). assert (Z.of_nat (length (trim_left v)) < 2 ^ 64 - 9) by (unfold HashLength in Hl; lia).
    pose proof (length_encode_str_le (trim_left v)).
    destruct (encode_ok (VBytes (trim_left v)) TBytes (Str (trim_left v))) as [-> _]; [done|cbn [encode_item]; lia|].
    cbn [encode_item]. destruct (st_TryUpdate_ok dbnode Hdb t sm k _ Hh (encode_str_nonempty (trim_left v))) as (t' & -> & Ht). by exists t'.
Qed.

Lemma flush_loop_ok l : forall t o sm,
  holds dbnode t sm -> Forall (fun kv => length kv.2 = HashLength) l ->
  exists t' d, flush_loop dbnode t o l = Ok (t', set_storage (cachedStorage o) d o) /\ holds dbnode t' (apply_writes sm (storage_write <$> l)).
Proof.
  induction l as [|[k v] l IH]; intros t o sm Hh Hl; cbn [flush_loop].
  { exists t, (dirtyStorage o). split; [by destruct o|done]. }
  apply Forall_cons in Hl as [Hv Hl]. destruct (flush_entry_ok t o sm k v Hh Hv) as (t1 & -> & Ht1). cbn [mbind outcome_bind].
  destruct (IH t1 (set_storage (cachedStorage o) (delete k (dirtyStorage o)) o) _ Ht1 Hl) as (t2 & d & -> & Ht2). by exists t2, d.
Qed.

(** The data of an object after its storage has been flushed: only the root of the
    storage changes. *)
Lemma updateRoot_ok order o v sm :
  obj_rep dbnode codedb o v -> storage_trie dbnode o sm -> Forall (fun kv => length kv.2 = HashLength) (order (dirtyStorage o)) ->
  exists t o', updateRoot dbnode order o = Ok o' /\ (so_address o' = so_address o /\ deleted o' = deleted o) /\
    holds dbnode t (apply_writes sm (storage_write <$> order (dirtyStorage o))) /\
    so_data o' = mkAccount (v_nonce v) (v_balance v) (merkle_root (root (st_trie t))) (v_codehash v).
Proof.
  intros Hr Hst Hl. unfold updateRoot, updateTrie.
  assert (exists t, getTrie dbnode o = Ok (t, set_so_trie t o) /\ holds dbnode t sm) as (t & -> & Hh) by by apply getTrie_ok.
  cbn [mbind outcome_bind]. destruct (flush_loop_ok _ t (set_so_trie t o) sm Hh Hl) as (t1 & d & E1 & Ht1).
  cbn [dirtyStorage set_so_trie] in *. rewrite E1. cbn [mbind outcome_bind].
  destruct (st_Hash_ok dbnode t1 _ Ht1) as (t2 & E2 & Ht2). rewrite E2. cbn [mbind outcome_bind].
  exists t1. eexists. split; [done|]. split; [done|]. split; [done|]. by destruct Hr as [<- <- <- _ _ _ _ _ _].
Qed.

(** ** Accounts *)

Record account_ok (d : Account) : Prop := {
  ao_nonce : in_u64 (a_Nonce d);
  ao_balance : 0 <= a_Balance d < 2 ^ 256;
  ao_root : Common.hash_ok (a_Root d);
  ao_code : Common.hash_ok (a_CodeHash d)
}.

(** An account is written, and read back. *)
Lemma account_encode d :
  account_ok d -> exists b, EncodeToBytes t_Account (account_rval d) = Ok b /\ b <> [] /\ decode_account b = Some d.
Proof.
  intros [Hn Hb [Hr1 Hr2] [Hc1 Hc2]]. unfold in_u64 in Hn.
  set (it := Lst [Str (big_bytes (a_Nonce d)); Str (big_bytes (a_Balance d)); Str (a_Root d); Str (a_CodeHash d)]).
  assert (item_of (account_rval d) t_Account = Some it) as Hi.
  { unfold t_Account, account_rval. simpl. by rewrite !bool_decide_true by lia. }
  assert (Z.of_nat (length (encode_item it)) < 2 ^ 64) as Hl.
  { pose proof (length_big_bytes_le (a_Nonce d) 8 Hn). pose proof (length_big_bytes_le (a_Balance d) 32 Hb).
    unfold HashLength in *. assert (forall b, (length b <= 32)%nat -> (length (encode_str b) <= 41)%nat) as Hs.
    { intros b Hlb. pose proof (length_encode_str_le b). lia. }
    assert (length (concat (map encode_item [Str (big_bytes (a_Nonce d)); Str (big_bytes (a_Balance d)); Str (a_Root d); Str (a_CodeHash d)])) <= 200)%nat as Hp.
    { cbn [map concat encode_item]. rewrite !length_app. cbn [length].
      pose proof (Hs (big_bytes (a_Nonce d))). pose proof (Hs (big_bytes (a_Balance d))). pose proof (Hs (a_Root d)). pose proof (Hs (a_CodeHash d)). lia. }
    unfold it. cbn [encode_item]. rewrite length_app.
    match goal with |- context [header ?a ?b ?n] => pose proof (length_header_le a b n) end. lia. }
  exists (encode_item it). split; [by apply (encode_ok (account_rval d) t_Account it)|]. split.
  - pose proof (encode_item_nonempty it). intros E. rewrite E in *. simpl in *. lia.
  - unfold decode_account. rewrite (decode_encode t_Account (account_rval d) it); [by destruct d| |done|done].
    apply canon_struct. repeat (apply Forall2_cons_2; [|]); try apply Forall2_nil_2.
    + by apply canon_u64.
    + apply canon_bigint. lia.
    + by apply canon_fixed.
    + by apply canon_bytes.
Qed.

(** What [Finalise] needs of an object: 32-byte values, keys whose hashes differ. *)
Definition flushable (o : stateObject) : Prop :=
  (forall k x, dirtyStorage o !! k = Some x -> length x = HashLength) /\
  (forall k k', is_Some (dirtyStorage o !! k) -> is_Some (dirtyStorage o !! k') -> hashKey k = hashKey k' -> k = k').

(** An iteration visits every key once. *)
Record iteration_ok (it : iteration) : Prop := {
  io_dirties : forall d, it_dirties it d ≡ₚ elements (dom d);
  io_storage : forall st, it_storage it st ≡ₚ map_to_list st
}.

Lemma storage_writes_nodup o it :
  iteration_ok it -> flushable o -> NoDup (storage_write <$> it_storage it (dirtyStorage o)).*1.
Proof.
  intros Hit [_ Hinj]. rewrite (io_storage _ Hit), <- list_fmap_compose.
  apply NoDup_fmap_2_strong; [|apply NoDup_map_to_list]. intros [k x] [k' x'] Hx Hx' Hk.
  apply elem_of_map_to_list in Hx. apply elem_of_map_to_list in Hx'. simpl in Hk.
  assert (k = k') as <- by eauto. congruence.
Qed.

Lemma flushable_values o it :
  iteration_ok it -> flushable o -> Forall (fun kv => length kv.2 = HashLength) (it_storage it (dirtyStorage o)).
Proof.
  intros Hit [Hv _]. rewrite (io_storage _ Hit). apply Forall_forall. intros [k x] Hx%elem_of_map_to_list. by eapply Hv.
Qed.

(** The account of an object after [updateRoot] does not depend on the order. *)
Lemma updateRoot_order it1 it2 o v :
  iteration_ok it1 -> iteration_ok it2 -> obj_rep dbnode codedb o v -> flushable o ->
  exists o1 o2, updateRoot dbnode (it_storage it1) o = Ok o1 /\ updateRoot dbnode (it_storage it2) o = Ok o2 /\ so_data o1 = so_data o2.
Proof.
  intros H1 H2 Hr Hf. destruct (or_storage _ _ _ _ Hr) as (sm & Hst & _).
  destruct (updateRoot_ok (it_storage it1) o v sm Hr Hst) as (t1 & o1 & E1 & _ & Ht1 & D1); [by apply flushable_values|].
  destruct (updateRoot_ok (it_storage it2) o v sm Hr Hst) as (t2 & o2 & E2 & _ & Ht2 & D2); [by apply flushable_values|].
  exists o1, o2. split; [done|]. split; [done|]. rewrite D1, D2. f_equal.
  eapply (merkle_root_content dbnode dbnode); [done|done|exact Ht1|].
  rewrite (apply_writes_order _ _ (storage_write <$> it_storage it2 (dirtyStorage o))); [exact Ht2|by apply storage_writes_nodup|].
  by rewrite (io_storage _ H1), (io_storage _ H2).
Qed.

(** ** The loop of [Finalise] *)

Definition dead (del : bool) (o : stateObject) : bool := suicided o || (del && empty o).

(** The entry of the trie that [Finalise] leaves for an object. *)
Definition final_entry (it : iteration) (del : bool) (o : stateObject) : option (list Z) :=
  if dead del o then None
  else match updateRoot dbnode (it_storage it) o with
       | Ok o' => match EncodeToBytes t_Account (account_rval (so_data o')) with Ok b => Some b | _ => None end
       | _ => None
       end.

Definition account_write (it : iteration) (del : bool) (objs : gmap (list Z) stateObject) (addr : list Z)
  : option (list Z * option (list Z)) :=
  o ← objs !! addr; Some (hashKey addr, final_entry it del o).

(** An object that [Finalise] can write. *)
Definition writable (addr : list Z) (o : stateObject) : Prop :=
  exists v, obj_rep dbnode codedb o v /\ so_address o = addr /\ flushable o /\ in_u64 (v_nonce v) /\ 0 <= v_balance v < 2 ^ 256.

(** The storage below a root. *)
Definition storage_at (rt : list Z) (sm : gmap (list Z) (list Z)) : Prop :=
  exists t, holds dbnode t sm /\ merkle_root (root (st_trie t)) = rt.

(** An account as it is after [Finalise]: the fields of the object, and a root of a
    storage in which the dirty slots have been written. *)
Definition flushed (o : stateObject) (d : Account) : Prop :=
  a_Nonce d = a_Nonce (so_data o) /\ a_Balance d = a_Balance (so_data o) /\ a_CodeHash d = a_CodeHash (so_data o) /\
  exists sm sm', storage_trie dbnode o sm /\ storage_at (a_Root d) sm' /\
    (forall k x, dirtyStorage o !! k = Some x -> trie_value (sm' !! hashKey k) = x) /\
    (forall h, (forall k, is_Some (dirtyStorage o !! k) -> h <> hashKey k) -> sm' !! h = sm !! h).

Lemma writable_entry it del addr o :
  iteration_ok it -> writable addr o -> dead del o = false ->
  exists o' b, updateRoot dbnode (it_storage it) o = Ok o' /\ so_address o' = addr /\ deleted o' = false /\
    EncodeToBytes t_Account (account_rval (so_data o')) = Ok b /\ b <> [] /\ final_entry it del o = Some b /\
    decode_account b = Some (so_data o') /\ flushed o (so_data o').
Proof.
  intros Hit (v & Hr & Ha & Hf & Hn & Hb) Hd. destruct (or_storage _ _ _ _ Hr) as (sm & Hst & _).
  destruct (updateRoot_ok (it_storage it) o v sm Hr Hst) as (t & o' & E & [Ho' Hdel] & Ht & D); [by apply flushable_values|].
  destruct (account_encode (so_data o')) as (b & Eb & Hne & Hdec).
  { rewrite D. split; simpl; [done|done|by eapply merkle_root_ok|]. rewrite <- (or_codehash _ _ _ _ Hr). apply (or_hash _ _ _ _ Hr). }
  exists o', b. rewrite Ho', Hdel, Ha, (or_alive _ _ _ _ Hr). split_and!; try done; [by unfold final_entry; rewrite Hd, E, Eb|].
  rewrite D. split; [by rewrite (or_nonce _ _ _ _ Hr)|]. split; [by rewrite (or_balance _ _ _ _ Hr)|]. split; [by rewrite (or_codehash _ _ _ _ Hr)|].
  exists sm, (apply_writes sm (storage_write <$> it_storage it (dirtyStorage o))). split; [done|]. split; [by exists t|]. split.
  - intros k x Hk. rewrite (apply_writes_key _ _ (storage_write (k, x)).2).
    + apply storage_write_read. by eapply (proj1 Hf).
    + by apply storage_writes_nodup.
    + change (storage_write (k, x) ∈ storage_write <$> it_storage it (dirtyStorage o)). apply list_elem_of_fmap_2.
      rewrite (io_storage _ Hit). by apply elem_of_map_to_list.
  - intros h Hh. apply apply_writes_other. rewrite <- list_fmap_compose, list_elem_of_fmap. intros ([k x] & -> & Hin).
    rewrite (io_storage _ Hit) in Hin. apply elem_of_map_to_list in Hin. by apply (Hh k).
Qed.

Lemma deleteStateObject_ok s m o :
  holds dbnode (s_trie s) m -> stateObjects s !! so_address o = Some o ->
  exists s', deleteStateObject dbnode o s = Ok (s', inr tt) /\ holds dbnode (s_trie s') (delete (hashKey (so_address o)) m) /\
    stateObjects s' = <[so_address o := set_deleted o]> (stateObjects s).
Proof.
  intros Hh Ho. unfold deleteStateObject. erewrite sm_bind_ok by (by apply mod_object_run). erewrite sm_bind_ok by done.
  destruct (st_TryDelete_ok dbnode Hdb (s_trie s) m (so_address o) Hh) as (t & E & Ht).
  erewrite sm_bind_ok by (unfold total, pure; cbn [s_trie set_objects]; by rewrite E). by eexists.
Qed.

Lemma updateStateObject_ok s m o b :
  holds dbnode (s_trie s) m -> EncodeToBytes t_Account (account_rval (so_data o)) = Ok b -> b <> [] ->
  exists s', updateStateObject dbnode o s = Ok (s', inr tt) /\ holds dbnode (s_trie s') (<[hashKey (so_address o) := b]> m) /\
    stateObjects s' = stateObjects s.
Proof.
  intros Hh Eb Hne. unfold updateStateObject. rewrite Eb. erewrite sm_bind_ok by done.
  destruct (st_TryUpdate_ok dbnode Hdb (s_trie s) m (so_address o) b Hh Hne) as (t & E & Ht).
  erewrite sm_bind_ok by (unfold total, pure; by rewrite E). by eexists.
Qed.

(** An object before and after its turn: deleted if it is dead, else with the balance
    it had. *)
Definition settles (del : bool) (x y : option stateObject) : Prop :=
  match x with
  | None => y = None
  | Some o => exists o', y = Some o' /\
      if dead del o then deleted o' = true else deleted o' = false /\ a_Balance (so_data o') = a_Balance (so_data o)
  end.

Lemma finalise_one_ok it del s m addr :
  iteration_ok it -> holds dbnode (s_trie s) m -> (forall o, stateObjects s !! addr = Some o -> writable addr o) ->
  exists s', finalise_one dbnode it del addr s = Ok (s', inr tt) /\
    holds dbnode (s_trie s') (apply_writes m (option_list (account_write it del (stateObjects s) addr))) /\
    settles del (stateObjects s !! addr) (stateObjects s' !! addr) /\
    forall b, b <> addr -> stateObjects s' !! b = stateObjects s !! b.
Proof.
  intros Hit Hh Hw. unfold finalise_one, account_write. erewrite sm_bind_ok by done.
  destruct (stateObjects s !! addr) as [o|] eqn:Eo; [|exists s; by rewrite Eo].
  specialize (Hw o eq_refl) as Hwo. cbn [mbind option_bind option_list]. fold (dead del o). destruct (dead del o) eqn:Ed.
  - assert (final_entry it del o = None) as -> by (unfold final_entry; by rewrite Ed).
    destruct Hwo as (v & _ & Ha & _). subst addr.
    destruct (deleteStateObject_ok s m o Hh Eo) as (s1 & E1 & Hh1 & Ho1). erewrite sm_bind_ok by exact E1.
    eexists. split; [done|]. split; [done|]. simpl. rewrite Ho1. split; [|intros b Hb; by rewrite lookup_insert_ne].
    rewrite lookup_insert_eq. eexists. split; [done|]. by rewrite Ed.
  - destruct (writable_entry it del addr o Hit Hwo Ed) as (o' & b & E & Ho' & Hdel & Eb & Hne & -> & _ & Hfl).
    destruct (updateStateObject_ok (set_objects (<[addr := o']> (stateObjects s)) s) m o' b Hh Eb Hne) as (s1 & E1 & Hh1 & Ho1).
    erewrite sm_bind_ok; [|erewrite sm_bind_ok by (unfold total, pure; by rewrite E); erewrite sm_bind_ok by (by apply mod_object_run); exact E1].
    eexists. split; [done|]. rewrite Ho' in Hh1. split; [done|]. simpl. rewrite Ho1. simpl.
    split; [|intros b' Hb; by rewrite lookup_insert_ne]. rewrite lookup_insert_eq. exists o'. split; [done|]. rewrite Ed. split; [done|apply Hfl].
Qed.

Lemma finalise_loop_ok it del objs l : forall s m,
  iteration_ok it -> holds dbnode (s_trie s) m -> NoDup l -> (forall a, a ∈ l -> stateObjects s !! a = objs !! a) ->
  (forall a o, a ∈ l -> objs !! a = Some o -> writable a o) ->
  exists s', finalise_loop dbnode it del l s = Ok (s', inr tt) /\ holds dbnode (s_trie s') (apply_writes m (omap (account_write it del objs) l)) /\
    (forall a, a ∈ l -> settles del (objs !! a) (stateObjects s' !! a)) /\ (forall a, a ∉ l -> stateObjects s' !! a = stateObjects s !! a).
Proof.
  induction l as [|a l IH]; intros s m Hit Hh Hn Ho Hw; cbn [finalise_loop]; [exists s; split_and!; try done; by intros a Ha%elem_of_nil|].
  apply NoDup_cons in Hn as [Ha Hn].
  destruct (finalise_one_ok it del s m a Hit Hh) as (s1 & E1 & Hh1 & Hs1 & Hb1).
  { intros o Eo. apply Hw; [by left|]. rewrite <- Eo. symmetry. apply Ho. by left. }
  erewrite sm_bind_ok by exact E1.
  destruct (IH s1 _ Hit Hh1 Hn) as (s2 & E2 & Hh2 & Hs2 & Hb2).
  - intros b Hb. rewrite Hb1 by (by intros ->). apply Ho. by right.
  - intros b o Hb. apply Hw. by right.
  - exists s2. split; [done|]. split; [|split].
    + assert (account_write it del (stateObjects s) a = account_write it del objs a) as Ea
        by (unfold account_write; by rewrite Ho by (by left)).
      rewrite Ea in Hh2. unfold apply_writes in *. rewrite <- foldl_app in Hh2. simpl. by destruct (account_write it del objs a).
    + intros b [->|Hb]%elem_of_cons; [|by apply Hs2]. rewrite Hb2, <- Ho by (done || by left). done.
    + intros b [Hne Hb]%not_elem_of_cons. by rewrite Hb2, Hb1.
Qed.

(** ** The theorems *)

(** The dirty accounts can be written and their hashes differ. *)
Record finalisable (s : StateDB) : Prop := {
  fin_objects : forall a o, a ∈ dom (j_dirties (s_journal s)) -> stateObjects s !! a = Some o -> writable a o;
  fin_hashes : forall a b, a ∈ dom (j_dirties (s_journal s)) -> b ∈ dom (j_dirties (s_journal s)) -> hashKey a = hashKey b -> a = b
}.

Definition dirty_writes (it : iteration) (del : bool) (s : StateDB) : list (list Z * option (list Z)) :=
  omap (account_write it del (stateObjects s)) (it_dirties it (j_dirties (s_journal s))).

Lemma elem_of_dirty_writes it del s h x :
  iteration_ok it ->
  (h, x) ∈ dirty_writes it del s <->
  exists a o, a ∈ dom (j_dirties (s_journal s)) /\ stateObjects s !! a = Some o /\ h = hashKey a /\ x = final_entry it del o.
Proof.
  intros Hit. unfold dirty_writes, account_write. rewrite list_elem_of_omap. split.
  - intros (a & Ha & E). rewrite (io_dirties _ Hit), elem_of_elements in Ha. apply bind_Some in E as (o & Eo & [= <- <-]). eauto 10.
  - intros (a & o & Ha & Eo & -> & ->). exists a. rewrite (io_dirties _ Hit), elem_of_elements. split; [done|]. by rewrite Eo.
Qed.

Lemma dirty_writes_nodup it del s : iteration_ok it -> finalisable s -> NoDup (dirty_writes it del s).*1.
Proof.
  intros Hit [_ Hinj]. unfold dirty_writes.
  assert (forall l, NoDup l -> (forall a, a ∈ l -> a ∈ dom (j_dirties (s_journal s))) ->
    NoDup (omap (account_write it del (stateObjects s)) l).*1) as Hgen.
  { induction l as [|a l IH]; intros Hn Hl; [constructor|]. apply NoDup_cons in Hn as [Ha Hn].
    assert (NoDup (omap (account_write it del (stateObjects s)) l).*1) as IH' by (apply IH; [done|]; intros b Hb; apply Hl; by right).
    simpl. unfold account_write at 1. destruct (stateObjects s !! a) as [o|]; [|done]. cbn [mbind option_bind]. apply NoDup_cons. split; [|done].
    intros ([h x] & E & Hin)%list_elem_of_fmap. simpl in E. subst h. apply list_elem_of_omap in Hin as (b & Hb & E).
    apply bind_Some in E as (o' & _ & [= E _]). apply Ha. rewrite (Hinj a b); [done|apply Hl; by left|apply Hl; by right|done]. }
  apply Hgen; [|intros a; by rewrite (io_dirties _ Hit), elem_of_elements]. rewrite (io_dirties _ Hit). apply NoDup_elements.
Qed.

(** The objects after [Finalise]. *)
Definition settled_objects (del : bool) (s s' : StateDB) : Prop :=
  (forall a, a ∈ dom (j_dirties (s_journal s)) -> settles del (stateObjects s !! a) (stateObjects s' !! a)) /\
  (forall a, a ∉ dom (j_dirties (s_journal s)) -> stateObjects s' !! a = stateObjects s !! a).

Lemma Finalise_ok it del s m :
  iteration_ok it -> holds dbnode (s_trie s) m -> finalisable s ->
  exists s', Finalise dbnode it del s = Ok (s', inr tt) /\ holds dbnode (s_trie s') (apply_writes m (dirty_writes it del s)) /\
    s_journal s' = newJournal /\ validRevisions s' = [] /\ s_refund s' = 0 /\ settled_objects del s s'.
Proof.
  intros Hit Hh Hf. unfold Finalise. erewrite sm_bind_ok by done.
  destruct (finalise_loop_ok it del (stateObjects s) (it_dirties it (j_dirties (s_journal s))) s m Hit Hh) as (s' & E & Hh' & Hs' & Hb').
  - rewrite (io_dirties _ Hit). apply NoDup_elements.
  - done.
  - intros a o Ha. apply (fin_objects _ Hf). by rewrite (io_dirties _ Hit), elem_of_elements in Ha.
  - erewrite sm_bind_ok by exact E. eexists. split_and!; try done. split.
    + intros a Ha. apply Hs'. by rewrite (io_dirties _ Hit), elem_of_elements.
    + intros a Ha. apply Hb'. by rewrite (io_dirties _ Hit), elem_of_elements.
Qed.

Lemma IntermediateRoot_ok it del s m :
  iteration_ok it -> holds dbnode (s_trie s) m -> finalisable s ->
  exists t s', IntermediateRoot dbnode it del s = Ok (s', inr (merkle_root (root (st_trie t)))) /\
    holds dbnode t (apply_writes m (dirty_writes it del s)) /\ holds dbnode (s_trie s') (apply_writes m (dirty_writes it del s)) /\
    settled_objects del s s'.
Proof.
  intros Hit Hh Hf. destruct (Finalise_ok it del s m Hit Hh Hf) as (s1 & E1 & Hh1 & _ & _ & _ & Hset).
  destruct (st_Hash_ok dbnode _ _ Hh1) as (t1 & T1 & Ht1). exists (s_trie s1). unfold IntermediateRoot.
  erewrite sm_bind_ok by exact E1. erewrite sm_bind_ok by done. erewrite sm_bind_ok by (unfold total, pure; by rewrite T1). eexists. by split_and!.
Qed.

(** The balance that is left of an account after [Finalise]: nothing if it has
    destroyed itself. *)
Definition settled_balance (s : StateDB) (w : world) (a : list Z) : Z :=
  match w_acct w a with
  | Some v => if bool_decide (a ∈ dom (j_dirties (s_journal s))) && v_suicided v then 0 else v_balance v
  | None => 0
  end.

(** An address without an object is read from the trie. *)
Lemma GetBalance_unloaded s m a :
  holds dbnode (s_trie s) m -> stateObjects s !! a = None ->
  (forall enc, m !! hashKey a = Some enc -> is_Some (decode_account enc)) ->
  exists s', GetBalance dbnode a s = Ok (s', inr (from_option a_Balance 0 (m !! hashKey a ≫= decode_account))).
Proof.
  intros Hh Ho Hd.
  assert (exists s', getStateObject dbnode a s = Ok (s', inr (newObject a <$> (m !! hashKey a ≫= decode_account)))) as (s' & E).
  { unfold getStateObject. destruct (st_TryGet_ok dbnode Hdb _ _ a Hh) as (t & Et & Ht).
    erewrite sm_bind_ok by done. rewrite Ho. erewrite sm_bind_ok by done.
    erewrite sm_bind_ok by (unfold total, pure; by rewrite Et). cbn beta iota. erewrite sm_bind_ok by done.
    destruct (m !! hashKey a) as [enc|] eqn:Em; [|by eexists].
    pose proof (rep_value_nonempty _ _ _ _ _ (sound_rep _ _ _ Ht) Em) as Hne. destruct (Hd enc eq_refl) as [data Ed]. cbn [mbind option_bind]. rewrite Ed.
    destruct enc as [|x enc]; [done|]. unfold decode_account in Ed. destruct (DecodeBytes (x :: enc) t_Account) as [v| | |] eqn:Edec; try done.
    rewrite Ed. erewrite sm_bind_ok by done. cbn beta iota. erewrite sm_bind_ok by done. by eexists. }
  exists s'. unfold GetBalance. rewrite (sm_bind_ok _ _ _ _ _ E). by destruct (m !! hashKey a ≫= decode_account).
Qed.

Lemma GetBalance_loaded s a o :
  stateObjects s !! a = Some o -> GetBalance dbnode a s = Ok (s, inr (if deleted o then 0 else a_Balance (so_data o))).
Proof.
  intros Ho. unfold GetBalance, getStateObject. erewrite sm_bind_ok; [|erewrite sm_bind_ok by done; cbv beta; by rewrite Ho].
  by destruct (deleted o).
Qed.

(** The balances that are read after [Finalise]. *)
Lemma settled_GetBalance it del s s' m w a :
  iteration_ok it -> state_rep dbnode codedb s m w -> finalisable s -> settled_objects del s s' ->
  holds dbnode (s_trie s') (apply_writes m (dirty_writes it del s)) ->
  (forall b, b ∈ dom (j_dirties (s_journal s)) -> hashKey b = hashKey a -> b = a) ->
  exists s2, GetBalance dbnode a s' = Ok (s2, inr (settled_balance s w a)).
Proof.
  intros Hit Hs Hf [Hd Hc] Hh Hinj. pose proof (sr_acct _ _ _ _ _ Hs a) as Hat. unfold acct_at in Hat. unfold settled_balance.
  destruct (stateObjects s !! a) as [o|] eqn:Eo.
  - destruct Hat as [_ Hat]. destruct (decide (a ∈ dom (j_dirties (s_journal s)))) as [Ha|Ha].
    + rewrite (bool_decide_true _ Ha). destruct (fin_objects _ Hf a o Ha Eo) as (v0 & Hr0 & _). rewrite (or_alive _ _ _ _ Hr0) in Hat.
      destruct Hat as (v & -> & Hr). specialize (Hd a Ha). rewrite Eo in Hd. destruct Hd as (o' & Eo' & Hd).
      rewrite (GetBalance_loaded s' a o' Eo'). eexists. do 3 f_equal. unfold dead in Hd. rewrite (or_suicided _ _ _ _ Hr), (empty_rep _ _ _ _ Hr) in Hd.
      rewrite (or_balance _ _ _ _ Hr) in Hd. destruct (v_suicided v); cbn [orb andb] in *; [by rewrite Hd|].
      destruct (del && _) eqn:Ee; [|by destruct Hd as [-> ->]]. rewrite Hd. apply andb_true_iff in Ee as [_ Ee].
      rewrite !andb_true_iff, !bool_decide_eq_true in Ee. by destruct Ee as [[_ ->] _].
    + rewrite (bool_decide_false _ Ha). rewrite <- (Hc a Ha) in Eo. rewrite (GetBalance_loaded s' a o Eo). eexists. do 3 f_equal.
      destruct (deleted o); [by destruct Hat as [-> _]|]. destruct Hat as (v & -> & Hr). by rewrite <- (or_balance _ _ _ _ Hr).
  - assert (stateObjects s' !! a = None) as Eo'.
    { destruct (decide (a ∈ dom (j_dirties (s_journal s)))) as [Ha|Ha]; [specialize (Hd a Ha); by rewrite Eo in Hd|by rewrite Hc]. }
    assert (apply_writes m (dirty_writes it del s) !! hashKey a = m !! hashKey a) as Em.
    { apply apply_writes_other. intros ([h x] & E & Hin)%list_elem_of_fmap. simpl in E. subst h.
      apply elem_of_dirty_writes in Hin as (b & o & Hb & Eb & Ehash & _); [|done]. rewrite (Hinj b Hb) in Eb; congruence. }
    edestruct (GetBalance_unloaded s' _ a Hh Eo') as [s2 ->]; [|exists s2; do 3 f_equal]; rewrite Em.
    + intros enc Ee. rewrite Ee in Hat. destruct Hat as (data & v & Ed & _). by rewrite Ed.
    + destruct (m !! hashKey a) as [enc|]; [|by rewrite Hat]. destruct Hat as (data & v & Ed & -> & Hr). cbn [mbind option_bind]. rewrite Ed.
      pose proof (or_suicided _ _ _ _ Hr) as <-. rewrite andb_false_r. apply Hr.
Qed.

Lemma dirty_writes_order it1 it2 del s :
  iteration_ok it1 -> iteration_ok it2 -> finalisable s -> dirty_writes it1 del s ≡ₚ dirty_writes it2 del s.
Proof.
  intros H1 H2 Hf. apply NoDup_Permutation; [by eapply NoDup_fmap_1, dirty_writes_nodup..|].
  intros [h x]. rewrite !elem_of_dirty_writes by done.
  assert (forall a o, a ∈ dom (j_dirties (s_journal s)) -> stateObjects s !! a = Some o -> final_entry it1 del o = final_entry it2 del o) as Heq.
  { intros a o Ha Eo. destruct (fin_objects _ Hf a o Ha Eo) as (v & Hr & _ & Hfl & _).
    destruct (updateRoot_order it1 it2 o v H1 H2 Hr Hfl) as (o1 & o2 & E1 & E2 & D). unfold final_entry. by rewrite E1, E2, D. }
  split; intros (a & o & Ha & Eo & -> & ->); exists a, o; (split_and!; try done); [by eapply Heq|symmetry; by eapply Heq].
Qed.

(** C20: equivalence.  The state root does not depend on the random order in which
    Go ranges over the dirty accounts and over the dirty slots of each: two runs of
    [IntermediateRoot] on the same state, each with its own orders, both succeed
    and return the same root. *)
Theorem intermediate_root_order it1 it2 del s m :
  iteration_ok it1 -> iteration_ok it2 -> holds dbnode (s_trie s) m -> finalisable s ->
  exists h s1 s2, IntermediateRoot dbnode it1 del s = Ok (s1, inr h) /\ IntermediateRoot dbnode it2 del s = Ok (s2, inr h).
Proof.
  intros H1 H2 Hh Hf. destruct (IntermediateRoot_ok it1 del s m H1 Hh Hf) as (t1 & s1 & E1 & Hh1 & _).
  destruct (IntermediateRoot_ok it2 del s m H2 Hh Hf) as (t2 & s2 & E2 & Hh2 & _).
  rewrite <- (apply_writes_order _ (dirty_writes it1 del s)) in Hh2; [|by apply dirty_writes_nodup|by apply dirty_writes_order].
  exists (merkle_root (root (st_trie t1))), s1, s2. split; [done|]. rewrite E2. do 3 f_equal. by eapply merkle_root_content.
Qed.

(** C21: functional.  What [Finalise] leaves in the trie.  Every dirty account that
    is neither suicided nor, when empty accounts are to go, empty is stored under
    the hash of its address, and the stored bytes decode to its nonce, balance and
    code hash and to the root of a storage trie in which the changed slots read
    back as they were set; the other dirty accounts are gone, and no other entry
    of the trie changes. *)
Theorem finalise_content it del s m w :
  iteration_ok it -> state_rep dbnode codedb s m w -> finalisable s ->
  exists s' m', Finalise dbnode it del s = Ok (s', inr tt) /\ holds dbnode (s_trie s') m' /\
    (forall a o, a ∈ dom (j_dirties (s_journal s)) -> stateObjects s !! a = Some o ->
       exists v, w_acct w a = Some v /\
         if v_suicided v || (del && v_empty v) then m' !! hashKey a = None
         else exists b d, m' !! hashKey a = Some b /\ decode_account b = Some d /\ flushed o d /\
                a_Nonce d = v_nonce v /\ a_Balance d = v_balance v /\ a_CodeHash d = v_codehash v) /\
    (forall h, (forall a, a ∈ dom (j_dirties (s_journal s)) -> is_Some (stateObjects s !! a) -> h <> hashKey a) -> m' !! h = m !! h).
Proof.
  intros Hit Hs Hf. destruct (Finalise_ok it del s m Hit (sr_trie _ _ _ _ _ Hs) Hf) as (s' & E & Hh & _).
  exists s'. eexists. split; [done|]. split; [done|]. pose proof (dirty_writes_nodup it del s Hit Hf) as Hn. split.
  - intros a o Ha Eo. pose proof (fin_objects _ Hf a o Ha Eo) as Hw.
    rewrite (apply_writes_key _ _ (final_entry it del o)); [|done|apply elem_of_dirty_writes; eauto 10].
    pose proof (sr_acct _ _ _ _ _ Hs a) as Hat. unfold acct_at in Hat. rewrite Eo in Hat. destruct Hat as [_ Hat].
    destruct (deleted o) eqn:Edel; [destruct Hw as (? & [] & _); congruence|]. destruct Hat as (v & Ev & Hr). exists v. split; [done|].
    assert (v_suicided v || (del && v_empty v) = dead del o) as -> by (unfold dead; by rewrite (empty_rep _ _ _ _ Hr), (or_suicided _ _ _ _ Hr)).
    destruct (dead del o) eqn:Ed; [unfold final_entry; by rewrite Ed|].
    destruct (writable_entry it del a o Hit Hw Ed) as (o' & b & _ & _ & _ & _ & _ & -> & Hdec & Hfl). exists b, (so_data o').
    split; [done|]. split; [done|]. split; [done|]. destruct Hfl as (-> & -> & -> & _). split_and!; apply Hr.
  - intros h Hno. apply apply_writes_other. intros ([h' x] & E' & Hin)%list_elem_of_fmap. simpl in E'. subst h'.
    apply elem_of_dirty_writes in Hin as (a & o & Ha & Eo & -> & _); [|done]. by apply (Hno a).
Qed.
End root.

(** Two accounts, one of them with two slots. *)
Definition root_ops : list state_op :=
  [OpSetBalance (demo_addr 1) 5; OpSetState (demo_addr 1) (demo_slot 7) (demo_slot 9); OpSetState (demo_addr 1) (demo_slot 8) (demo_slot 1);
   OpSetNonce (demo_addr 2) 1; OpSuicide (demo_addr 2)].
Definition root_state : StateDB :=
  match @run_ops sha3_keccak no_db no_code root_ops (fresh_state (mkSecure (mkTrie Nil emptyHash None 0 120) ∅ false)) with
  | Ok (s, _) => s
  | _ => fresh_state (mkSecure (mkTrie Nil emptyHash None 0 120) ∅ false)
  end.
Definition root_world : world :=
  match @spec_run sha3_keccak root_ops (mkSpec no_accounts [] 0) with Some (sp, _) => sp_world sp | None => no_accounts end.

Lemma root_state_rep : @state_rep sha3_keccak no_db no_code root_state ∅ root_world.
Proof.
  assert (@state_match sha3_keccak no_db no_code ∅ (fresh_state (mkSecure (mkTrie Nil emptyHash None 0 120) ∅ false)) (mkSpec no_accounts [] 0)) as Hm.
  { apply (state_New_match no_db no_code emptyHash); [done|by apply holds_empty|].
    split; [intros addr; unfold acct_at; by rewrite !lookup_empty|done]. }
  pose proof (@run_refines sha3_keccak no_db no_code (@no_db_coherent sha3_keccak) eq_refl ∅ root_ops _ _ Hm) as Hr. unfold root_state, root_world.
  destruct (spec_run root_ops _) as [[sp l]|] eqn:E.
  - destruct Hr as (s' & -> & Hr). apply Hr.
  - apply (f_equal (fmap snd)) in E. vm_compute in E. discriminate E.
Qed.

Lemma root_dirties : elements (dom (j_dirties (s_journal root_state))) = [demo_addr 1; demo_addr 2].
Proof. vm_compute. reflexivity. Qed.
Lemma root_dirty_slots :
  (fun o => map_to_list (dirtyStorage o)) <$> stateObjects root_state !! demo_addr 1 = Some [(demo_slot 7, demo_slot 9); (demo_slot 8, demo_slot 1)] /\
  (fun o => map_to_list (dirtyStorage o)) <$> stateObjects root_state !! demo_addr 2 = Some [].
Proof. vm_compute. split; reflexivity. Qed.

Lemma root_flushable a o : a = demo_addr 1 \/ a = demo_addr 2 -> stateObjects root_state !! a = Some o -> @flushable sha3_keccak o.
Proof.
  assert (forall l, map_to_list (dirtyStorage o) = l -> Forall (fun p => length p.2 = HashLength) l ->
    (forall p q, p ∈ l -> q ∈ l -> @hashKey sha3_keccak p.1 = @hashKey sha3_keccak q.1 -> p.1 = q.1) -> @flushable sha3_keccak o) as Hl.
  { intros l <- Hv Hk. rewrite Forall_forall in Hv. split.
    - intros k x Hx. by apply (Hv (k, x)), elem_of_map_to_list.
    - intros k k' [x Hx] [x' Hx']. by apply (Hk (k, x) (k', x')); apply elem_of_map_to_list. }
  destruct root_dirty_slots as [H1 H2]. intros [-> | ->] Ho; rewrite Ho in *; simpl in *.
  - injection H1 as H1. apply (Hl _ H1); [by repeat constructor|]. clear.
    assert (@hashKey sha3_keccak (demo_slot 7) <> @hashKey sha3_keccak (demo_slot 8)) as Hne by (intros E; vm_compute in E; discriminate E).
    intros p q Hp Hq. apply elem_of_cons in Hp as [->|Hp]; apply elem_of_cons in Hq as [->|Hq]; [reflexivity|..].
    + apply list_elem_of_singleton in Hq as ->. intros E. destruct (Hne E).
    + apply list_elem_of_singleton in Hp as ->. intros E. symmetry in E. destruct (Hne E).
    + apply list_elem_of_singleton in Hp as ->. apply list_elem_of_singleton in Hq as ->. reflexivity.
  - injection H2 as H2. apply (Hl _ H2); [constructor|]. intros p q Hp. destruct (proj1 (elem_of_nil p) Hp).
Qed.

Lemma root_finalisable : @finalisable sha3_keccak no_db no_code root_state.
Proof.
  assert (forall a, a ∈ dom (j_dirties (s_journal root_state)) -> a = demo_addr 1 \/ a = demo_addr 2) as Hd.
  { intros a Ha. rewrite <- elem_of_elements, root_dirties in Ha.
    apply elem_of_cons in Ha as [->|[->|Ha]%elem_of_cons]; [by left|by right|destruct (proj1 (elem_of_nil a) Ha)]. }
  split.
  - intros a o Ha Ho. apply Hd in Ha. pose proof (sr_acct _ _ _ _ _ root_state_rep a) as Hat. unfold acct_at in Hat. rewrite Ho in Hat.
    destruct Hat as [Hoa Hat].
    assert (deleted <$> stateObjects root_state !! a = Some false) as Hdel by (destruct Ha as [-> | ->]; vm_compute; reflexivity).
    rewrite Ho in Hdel. injection Hdel as Hdel. rewrite Hdel in Hat. destruct Hat as (v & _ & Hr).
    exists v. split; [done|]. split; [done|]. split; [by eapply root_flushable|].
    assert ((fun o => bool_decide (in_u64 (a_Nonce (so_data o)) /\ 0 <= a_Balance (so_data o) < 2 ^ 256)) <$> stateObjects root_state !! a = Some true) as Hb
      by (destruct Ha as [-> | ->]; vm_compute; reflexivity).
    rewrite Ho in Hb. injection Hb as Hb. apply bool_decide_eq_true in Hb. by rewrite (or_nonce _ _ _ _ Hr), (or_balance _ _ _ _ Hr) in Hb.
  - intros a b Ha Hb. apply Hd in Ha, Hb. 
    assert (@hashKey sha3_keccak (demo_addr 1) <> @hashKey sha3_keccak (demo_addr 2)) as Hne by (intros E; vm_compute in E; discriminate E).
    destruct Ha as [-> | ->], Hb as [-> | ->]; intros E; [reflexivity|destruct (Hne E)|destruct (Hne (eq_sym E))|reflexivity].
Qed.

Definition forward : iteration := mkIteration (fun d => elements (dom d)) map_to_list.
Definition backward : iteration := mkIteration (fun d => reverse (elements (dom d))) (fun st => reverse (map_to_list st)).

Lemma forward_ok : iteration_ok forward.
Proof. by split. Qed.
Lemma backward_ok : iteration_ok backward.
Proof. split; intros; simpl; by rewrite reverse_Permutation. Qed.

Lemma intermediate_root_order_witness :
  exists h s1 s2, @IntermediateRoot sha3_keccak no_db forward true root_state = Ok (s1, inr h) /\
    @IntermediateRoot sha3_keccak no_db backward true root_state = Ok (s2, inr h).
Proof.
  apply (@intermediate_root_order sha3_keccak no_db no_code no_db_coherent forward backward true root_state ∅ forward_ok backward_ok).
  - apply root_state_rep.
  - apply root_finalisable.
Defined.

Lemma finalise_content_witness :
  exists s' m', @Finalise sha3_keccak no_db forward true root_state = Ok (s', inr tt) /\ @holds sha3_keccak no_db (s_trie s') m' /\
    m' !! @hashKey sha3_keccak (demo_addr 2) = None /\
    exists b d, m' !! @hashKey sha3_keccak (demo_addr 1) = Some b /\ decode_account b = Some d /\ a_Balance d = 5.
Proof.
  destruct (@finalise_content sha3_keccak no_db no_code no_db_coherent forward true root_state ∅ root_world forward_ok root_state_rep root_finalisable)
    as (s' & m' & E & Hh & Hd & _).
  exists s', m'. split; [exact E|]. split; [exact Hh|].
  assert (forall a, a = demo_addr 1 \/ a = demo_addr 2 -> a ∈ dom (j_dirties (s_journal root_state))) as Hin.
  { intros a Ha. rewrite <- elem_of_elements, root_dirties. destruct Ha as [-> | ->]; [left|right; left]. }
  assert (forall a, a = demo_addr 1 \/ a = demo_addr 2 -> exists o, stateObjects root_state !! a = Some o) as Hex.
  { intros a Ha. destruct root_dirty_slots as [H1 H2].
    destruct Ha as [-> | ->]; [apply fmap_Some in H1 as (o & Ho & _)|apply fmap_Some in H2 as (o & Ho & _)]; by exists o. }
  assert ((fun v => (v_suicided v || @v_empty sha3_keccak v, v_balance v)) <$> w_acct root_world (demo_addr 2) = Some (true, 0)) as Hw2
    by (vm_compute; reflexivity).
  assert ((fun v => (v_suicided v || @v_empty sha3_keccak v, v_balance v)) <$> w_acct root_world (demo_addr 1) = Some (false, 5)) as Hw1
    by (vm_compute; reflexivity).
  split.
  - destruct (Hex (demo_addr 2)) as [o Ho]; [by right|]. destruct (Hd _ o (Hin _ (or_intror eq_refl)) Ho) as (v & Ev & Hv).
    rewrite Ev in Hw2. injection Hw2 as Hs _. cbn [andb] in Hv. rewrite Hs in Hv. exact Hv.
  - destruct (Hex (demo_addr 1)) as [o Ho]; [by left|]. destruct (Hd _ o (Hin _ (or_introl eq_refl)) Ho) as (v & Ev & Hv).
    rewrite Ev in Hw1. injection Hw1 as Hs Hb. cbn [andb] in Hv. rewrite Hs in Hv.
    destruct Hv as (b & d & H1 & H2 & _ & _ & H3 & _). exists b, d. split; [exact H1|]. split; [exact H2|]. rewrite H3. exact Hb.
Defined.
