(* ===== verification/Dpos.v ===== *)
(** * The consensus engine ([src/consensus/dpos/dpos.go],
      [src/consensus/misc/forks.go], [GetConfirmedBlockNumber] of [api.go])

    Verification of headers and seals, the confirmed block, the preparation,
    finalisation and sealing of blocks, the slots of the clock and the counts of
    minted blocks.  The chain is the record [ChainReader], the clock an argument,
    the state database the one of [State], the key store the function [signFn]; the
    key-value database is a finite map, with a list that tells which writes fail.
    The ARC cache of recovered signers keeps what is put into it, where the one of the
    code drops entries when it is full: the theorems are about every cache whose entries
    were put there by [ecrecover], so about one that has dropped any of them too.

    [slot_deadline]: the slots around a time and who may mint.
    [verify_headers_chain]: exactly which batches pass.  [seal_verified]: an accepted
    seal is by the validator of the slot.  [confirmed_quorum] and [confirm_advances]:
    what stands behind the confirmed block, when it must advance, and what a failed
    write leaves.
    [sealed_accepted]: made blocks are accepted.  [mint_count_updated]: the counts of
    minted blocks.  [finalize_block]: the effect of [Finalize]. *)

From S2P Require Import Prelude Common TrieEncoding Trie TrieSpec TrieMap.
From S2P Require Import TrieCanon Rlp Sha3 TrieHash TrieMerkle TrieIter.
From S2P Require Import TrieIterSpec RlpRaw TrieBinding RlpStream Params DposContext.
From S2P Require Import Header EpochContext Transaction Block.
From S2P Require Import SecureTrie State StateSpec StateRoot.

(** ** Constants and errors *)

Definition extraVanity : nat := 32.
Definition extraSeal : nat := 65.
Definition frontierBlockReward : Z := 5 * 10 ^ 18.
Definition byzantiumBlockReward : Z := 3 * 10 ^ 18.
Definition confirmedBlockHead : list Z := ascii_bytes "confirmed-block-head".

Definition errUnknownBlock : dpos_error := EMsg "unknown block".
Definition errMissingVanity : dpos_error := EMsg "extra-data 32 byte vanity prefix missing".
Definition errMissingSignature : dpos_error := EMsg "extra-data 65 byte suffix signature missing".
Definition errInvalidMixDigest : dpos_error := EMsg "non-zero mix digest".
Definition errInvalidUncleHash : dpos_error := EMsg "non empty uncle hash".
Definition errInvalidDifficulty : dpos_error := EMsg "invalid difficulty".
Definition ErrInvalidTimestamp : dpos_error := EMsg "invalid timestamp".
Definition ErrWaitForPrevBlock : dpos_error := EMsg "wait for last block arrived".
Definition ErrMintFutureBlock : dpos_error := EMsg "mint the future block".
Definition ErrMismatchSignerAndValidator : dpos_error := EMsg "mismatch block signer and validator".
Definition ErrInvalidBlockValidator : dpos_error := EMsg "invalid block validator".
Definition ErrNilBlockHeader : dpos_error := EMsg "nil block header returned".
Definition ErrFutureBlock : dpos_error := EMsg "block in the future".
Definition ErrUnknownAncestor : dpos_error := EMsg "unknown ancestor".

(** The part of [consensus.ChainReader] the engine reads. *)
Record ChainReader := mkChain {
  Config : ChainConfig;
  CurrentHeader : option Header;
  GetHeader : list Z -> Z -> option Header;
  GetHeaderByNumber : Z -> option Header;
  GetHeaderByHash : list Z -> option Header
}.

(** ** Slots *)

(** [PrevSlot] and [NextSlot]; the interval is a [uint64] read as an [int64]. *)
Definition PrevSlot {E} (now blockInterval : Z) : outcome E Z :=
  let b := i64 blockInterval in
  if bool_decide (b = 0) then Panic else Ok (i64 (i64 (Z.quot (i64 (now - 1)) b) * b)).

Definition NextSlot {E} (now blockInterval : Z) : outcome E Z :=
  let b := i64 blockInterval in
  if bool_decide (b = 0) then Panic else Ok (i64 (i64 (Z.quot (i64 (i64 (now + b) - 1)) b) * b)).

(** [Dpos.checkDeadline]: [last] is the time of the last block. *)
Definition checkDeadline (last now blockInterval : Z) : outcome dpos_error unit :=
  prevSlot ← PrevSlot now blockInterval;
  nextSlot ← NextSlot now blockInterval;
  if bool_decide (nextSlot <= big_Int64 last) then Err ErrMintFutureBlock
  else if bool_decide (big_Int64 last = prevSlot) || bool_decide (i64 (nextSlot - now) <= 1) then Ok tt
  else Err ErrWaitForPrevBlock.

Section engine.
Context `{Keccak, Ecdsa, Rand} (dbnode : list Z -> Z -> option node).

(** ** Headers *)

(** [misc.VerifyForkHashes] *)
Definition VerifyForkHashes (config : ChainConfig) (header : Header) (uncle : bool) : outcome dpos_error unit :=
  if uncle then Ok tt
  else
    match EIP150Block config with
    | None => Ok tt
    | Some n =>
        number ← or_panic (Number header);
        if bool_decide (n = number) && bool_decide (EIP150Hash config <> emptyHash)
           && bool_decide (EIP150Hash config <> Header_Hash header)
        then Err (EMsg "homestead gas reprice fork") else Ok tt
    end.

(** [Dpos.verifyHeader] *)
Definition verifyHeader (chain : ChainReader) (now : Z) (header : Header) (parents : list Header) (blockInterval : Z)
  : outcome dpos_error unit :=
  match Number header with
  | None => Err errUnknownBlock
  | Some num =>
      let number := big_Uint64 num in
      time ← or_panic (Time header);
      if bool_decide (now < time) then Err ErrFutureBlock
      else if (length (Extra header) <? extraVanity)%nat then Err errMissingVanity
      else if (length (Extra header) <? extraVanity + extraSeal)%nat then Err errMissingSignature
      else if bool_decide (MixDigest header <> emptyHash) then Err errInvalidMixDigest
      else
        difficulty ← or_panic (Difficulty header);
        if bool_decide (big_Uint64 difficulty <> 1) then Err errInvalidDifficulty
        else if bool_decide (UncleHash header <> CalcUncleHash []) then Err errInvalidUncleHash
        else
          _ ← VerifyForkHashes (Config chain) header false;
          match (match last parents with Some p => Some p | None => GetHeader chain (ParentHash header) (u64 (number - 1)) end) with
          | None => Err ErrUnknownAncestor
          | Some parent =>
              pnum ← or_panic (Number parent);
              if bool_decide (big_Uint64 pnum <> u64 (number - 1)) || bool_decide (Header_Hash parent <> ParentHash header)
              then Err ErrUnknownAncestor
              else
                ptime ← or_panic (Time parent);
                if bool_decide (big_Uint64 time < u64 (big_Uint64 ptime + blockInterval)) then Err ErrInvalidTimestamp
                else Ok tt
          end
  end.

(** [Dpos.VerifyHeader]: the flag is ignored. *)
Definition VerifyHeader (chain : ChainReader) (now : Z) (header : Header) (seal : bool) (blockInterval : Z)
  : outcome dpos_error unit := verifyHeader chain now header [] blockInterval.

(** An error kept as a value; a panic stays one. *)
Definition as_value {A} (m : outcome dpos_error A) : outcome Empty_set (dpos_error + A) :=
  match m with
  | Ok a => Ok (inr a)
  | Err e => Ok (inl e)
  | Panic => Panic
  | OutOfFuel => OutOfFuel
  end.

(** The loop of the goroutine of [VerifyHeaders]: what it sends on the channel.  A
    closed abort channel ends it once [limit] results are sent, after the next header
    has been verified too.  A panic in the goroutine ends the process. *)
Fixpoint verify_loop (chain : ChainReader) (now blockInterval : Z) (limit : nat) (parents headers : list Header) {struct headers}
  : outcome Empty_set (list (dpos_error + unit)) :=
  match headers with
  | [] => Ok []
  | header :: headers =>
      err ← as_value (verifyHeader chain now header parents blockInterval);
      match limit with
      | O => Ok []
      | S limit =>
          errs ← verify_loop chain now blockInterval limit (parents ++ [header]) headers;
          Ok (err :: errs)
      end
  end.

(** [Dpos.VerifyHeaders] *)
Definition VerifyHeaders (chain : ChainReader) (now : Z) (limit : nat) (headers : list Header)
  : outcome Empty_set (list (dpos_error + unit)) :=
  genesis ← or_panic (GetHeaderByNumber chain 0);
  verify_loop chain now (BlockInterval genesis) limit [] headers.

(** [Dpos.VerifyUncles] *)
Definition VerifyUncles (b : Block) : outcome dpos_error unit :=
  match b_uncles b with [] => Ok tt | _ => Err (EMsg "uncles not allowed") end.

(** ** The engine *)

(** [Dpos].  [d_puts] tells which of the coming writes to the database succeed; those
    it says nothing of do. *)
Record Dpos := mkDpos {
  d_db : gmap (list Z) (list Z);
  d_signer : list Z;
  d_signatures : gmap (list Z) (list Z);
  d_confirmedBlockHeader : option Header;
  d_puts : list bool
}.

Abbreviation EM := (SM Dpos dpos_error).

Definition set_signatures (m : gmap (list Z) (list Z)) (d : Dpos) : Dpos :=
  mkDpos (d_db d) (d_signer d) m (d_confirmedBlockHeader d) (d_puts d).
Definition set_confirmed (h : Header) (d : Dpos) : Dpos :=
  mkDpos (d_db d) (d_signer d) (d_signatures d) (Some h) (d_puts d).
Definition set_db (m : gmap (list Z) (list Z)) (d : Dpos) : Dpos :=
  mkDpos m (d_signer d) (d_signatures d) (d_confirmedBlockHeader d) (d_puts d).
Definition set_puts (puts : list bool) (d : Dpos) : Dpos :=
  mkDpos (d_db d) (d_signer d) (d_signatures d) (d_confirmedBlockHeader d) puts.

(** [New] and [Dpos.Authorize] *)
Definition Dpos_New (db : gmap (list Z) (list Z)) (puts : list bool) : Dpos := mkDpos db emptyAddress ∅ None puts.
Definition Authorize (signer : list Z) (d : Dpos) : Dpos :=
  mkDpos (d_db d) signer (d_signatures d) (d_confirmedBlockHeader d) (d_puts d).

(** [Database.Put]: a write that fails changes nothing. *)
Definition errPut : dpos_error := EMsg "leveldb".
Definition db_Put (key value : list Z) : EM unit :=
  puts ← gets d_puts;
  modify (set_puts (tail puts)) ;;
  match puts with
  | false :: _ => throw errPut
  | _ => modify (fun d => set_db (<[key := value]> (d_db d)) d)
  end.

(** [ecrecover] *)
Definition ecrecover (header : Header) : EM (list Z) :=
  let hash := Header_Hash header in
  cache ← gets d_signatures;
  match cache !! hash with
  | Some address => mret address
  | None =>
      if (length (Extra header) <? extraSeal)%nat then throw errMissingSignature
      else
        sighash ← pure (fun e : Empty_set => match e with end) (sigHash header);
        match Ecrecover sighash (drop (length (Extra header) - extraSeal) (Extra header)) with
        | None => throw (EMsg "ecrecover")
        | Some [] => panic
        | Some pubkey =>
            let signer := pubkey_address pubkey in
            modify (set_signatures (<[hash := signer]> cache)) ;;
            mret signer
        end
  end.

(** [Dpos.verifyBlockSigner] *)
Definition verifyBlockSigner (validator : list Z) (header : Header) : EM unit :=
  signer ← ecrecover header;
  if bool_decide (signer <> validator) then throw ErrInvalidBlockValidator
  else if bool_decide (signer <> Validator header) then throw ErrMismatchSignerAndValidator
  else mret tt.

(** ** The confirmed block *)

(** [Dpos.loadConfirmedBlockHeader] and [storeConfirmedBlockHeader] *)
Definition loadConfirmedBlockHeader (chain : ChainReader) : EM Header :=
  db ← gets d_db;
  match db !! confirmedBlockHead with
  | None => throw (EMsg "not found")
  | Some key =>
      match GetHeaderByHash chain (BytesToHash key) with
      | None => throw ErrNilBlockHeader
      | Some header => mret header
      end
  end.

Definition storeConfirmedBlockHeader : EM unit :=
  confirmed ← gets d_confirmedBlockHeader;
  confirmed ← must confirmed;
  db_Put confirmedBlockHead (Header_Hash confirmed).

(** [genesisHeader.MaxValidatorSize*2/3+1] *)
Definition consensus_size (genesis : Header) : Z := i64 (u64 (u64 (MaxValidatorSize genesis * 2) / 3 + 1)).

(** The loop of [updateConfirmedBlockHeader]; a nil genesis header is dereferenced
    in its body. *)
Fixpoint confirm_loop (fuel : nat) (chain : ChainReader) (genesis : option Header) (confirmed cur : Header) (epoch : Z)
  (validatorMap : gset (list Z)) : EM unit :=
  match fuel with
  | O => fun _ => OutOfFuel
  | S fuel =>
      if bool_decide (Header_Hash confirmed = Header_Hash cur) then mret tt
      else
        cnum ← must (Number confirmed);
        num ← must (Number cur);
        if bool_decide (big_Uint64 num <= big_Uint64 cnum) then mret tt
        else
          time ← must (Time cur);
          let curEpoch := Z.quot (big_Int64 time) epochInterval in
          let validatorMap := if bool_decide (curEpoch <> epoch) then ∅ else validatorMap in
          genesis' ← must genesis;
          let consensusSize := consensus_size genesis' in
          if bool_decide (i64 (big_Int64 num - big_Int64 cnum) < i64 (consensusSize - Z.of_nat (size validatorMap)))
          then mret tt
          else
            let validatorMap := {[ Validator cur ]} ∪ validatorMap in
            if bool_decide (consensusSize <= Z.of_nat (size validatorMap)) then
              modify (set_confirmed cur) ;; storeConfirmedBlockHeader
            else
              match GetHeaderByHash chain (ParentHash cur) with
              | None => throw ErrNilBlockHeader
              | Some parent => confirm_loop fuel chain genesis confirmed parent curEpoch validatorMap
              end
  end.

(** [Dpos.updateConfirmedBlockHeader] *)
Definition updateConfirmedBlockHeader (fuel : nat) (chain : ChainReader) : EM unit :=
  confirmed ← gets d_confirmedBlockHeader;
  confirmed ←
    match confirmed with
    | Some h => mret h
    | None =>
        header ← handle (loadConfirmedBlockHeader chain) (fun r =>
          match r with
          | inr h => mret h
          | inl err => match GetHeaderByNumber chain 0 with None => throw err | Some h => mret h end
          end);
        modify (set_confirmed header) ;;
        mret header
    end;
  cur ← must (CurrentHeader chain);
  confirm_loop fuel chain (GetHeaderByNumber chain 0) confirmed cur (-1) ∅.

(** ** Seals *)

(** Opening the context of a header, and running an operation of its own on it;
    the context is dropped afterwards. *)
Definition with_context {A} (proto : option DposContextProto) (m : DM A) : EM A := fun d =>
  match proto with
  | None => Panic
  | Some p =>
      match NewDposContextFromProto dbnode p with
      | Ok ctx =>
          match m ctx with
          | Ok (_, r) => Ok (d, r)
          | Err e => match e with end
          | Panic => Panic
          | OutOfFuel => OutOfFuel
          end
      | Err e => Ok (d, inl (ETrie e))
      | Panic => Panic
      | OutOfFuel => OutOfFuel
      end
  end.

(** [Dpos.verifySeal] *)
Definition verifySeal (fuel : nat) (chain : ChainReader) (currentheader genesisheader : Header) (parents : list Header)
  : EM unit :=
  num ← must (Number currentheader);
  let number := big_Uint64 num in
  if bool_decide (number = 0) then throw errUnknownBlock
  else
    parent ← must (match last parents with
                   | Some p => Some p
                   | None => GetHeader chain (ParentHash currentheader) (u64 (number - 1))
                   end);
    validator ← with_context (h_DposContext parent)
      (time ← must (Time currentheader);
       lookupValidator dbnode (big_Int64 time) (BlockInterval genesisheader));
    verifyBlockSigner validator currentheader ;;
    updateConfirmedBlockHeader fuel chain.

(** [Dpos.VerifySeal] *)
Definition VerifySeal (fuel : nat) (chain : ChainReader) (currentheader genesisheader : Header) : EM unit :=
  verifySeal fuel chain currentheader genesisheader [].

(** [Dpos.CheckValidator] *)
Definition CheckValidator (lastBlock : Block) (now blockInterval : Z) : EM unit :=
  last ← must (Time (b_header lastBlock));
  pure id (checkDeadline last now blockInterval) ;;
  validator ← with_context (h_DposContext (block_Header lastBlock)) (lookupValidator dbnode now blockInterval);
  signer ← gets d_signer;
  if bool_decide (validator = emptyAddress) || bool_decide (validator <> signer) then throw ErrInvalidBlockValidator
  else mret tt.

(** ** Making blocks *)

Definition set_prepared (extra : list Z) (difficulty : option Z) (validator : list Z) (nonce : list Z) (h : Header) : Header :=
  mkHeader (ParentHash h) (UncleHash h) validator (Coinbase h) (h_Root h) (TxHash h) (ReceiptHash h) (h_DposContext h)
    (Bloom h) difficulty (Number h) (GasLimit h) (GasUsed h) (Time h) extra (MixDigest h) nonce (MaxValidatorSize h)
    (BlockInterval h).

(** [Dpos.CalcDifficulty] *)
Definition CalcDifficulty (chain : ChainReader) (time : Z) (parent : Header) : option Z := Some 1.

(** [Dpos.Prepare], on the header it is given. *)
Definition Prepare (chain : ChainReader) (signer : list Z) : SM Header dpos_error unit :=
  modify (fun h => set_prepared (Extra h) (Difficulty h) (Validator h) (zeroes NonceLength) h) ;;
  num ← gets Number;
  num ← must num;
  let number := big_Uint64 num in
  modify (fun h =>
    let extra := take extraVanity (Extra h ++ zeroes (extraVanity - length (Extra h))) ++ zeroes extraSeal in
    set_prepared extra (Difficulty h) (Validator h) (Nonce h) h) ;;
  parentHash ← gets ParentHash;
  match GetHeader chain parentHash (u64 (number - 1)) with
  | None => throw ErrUnknownAncestor
  | Some parent =>
      time ← gets Time;
      time ← must time;
      modify (fun h => set_prepared (Extra h) (CalcDifficulty chain (big_Uint64 time) parent) signer (Nonce h) h)
  end.

Definition set_extra (extra : list Z) (h : Header) : Header :=
  set_prepared extra (Difficulty h) (Validator h) (Nonce h) h.

(** [Dpos.Seal]: [now] is the time at the start, [stopped] tells that the stop
    channel fired during the wait.  The time read after the wait is written into
    a copy of the header that is dropped. *)
Definition Seal (signFn : list Z -> list Z -> string + list Z) (chain : ChainReader) (now : Z) (stopped : bool) (block : Block)
  : EM (option Block) :=
  let header := block_Header block in
  num ← must (Number header);
  if bool_decide (big_Uint64 num = 0) then throw errUnknownBlock
  else
    genesis ← must (GetHeaderByNumber chain 0);
    next ← pure id (NextSlot now (BlockInterval genesis));
    if bool_decide (0 < i64 (next - now)) && stopped then mret None
    else
      signer ← gets d_signer;
      hash ← pure id (sigHash header);
      match signFn signer hash with
      | inl err => throw (EMsg err)
      | inr sighash =>
          let n := (length (Extra header) - extraSeal)%nat in
          let seal := take extraSeal sighash ++ drop (length sighash) (drop n (Extra header)) in
          mret (Some (WithSeal block (set_extra (take n (Extra header) ++ seal) header)))
      end.

(** [API.GetConfirmedBlockNumber] *)
Definition GetConfirmedBlockNumber (chain : ChainReader) : EM (option Z) :=
  confirmed ← gets d_confirmedBlockHeader;
  header ← match confirmed with Some h => mret h | None => loadConfirmedBlockHeader chain end;
  mret (Number header).

(** [API.GetValidators]; [None] is a nil number or the latest block.  Only the
    epoch trie of the context it builds is read. *)
Definition api_GetValidators (chain : ChainReader) (number : option Z) : outcome dpos_error (list (list Z)) :=
  let header := match number with None => CurrentHeader chain | Some n => GetHeaderByNumber chain (u64 n) end in
  match header with
  | None => Err errUnknownBlock
  | Some header =>
      proto ← or_panic (h_DposContext header);
      epoch ← map_err ETrie (NewEpochTrie dbnode true (EpochHash proto));
      match GetValidators dbnode (mkDposContext epoch epoch epoch epoch epoch false) with
      | Ok (_, inr l) => Ok l
      | Ok (_, inl e) => Err e
      | Err e => match e with end
      | Panic => Panic
      | OutOfFuel => OutOfFuel
      end
  end.

(** ** Counting minted blocks *)

(** The body of the conditional of [updateMintCnt]: the count of a validator that
    has minted in the epoch, plus one. *)
Definition next_count (fuel : nat) (currentEpoch : Z) (validator : list Z) : DM Z :=
  iter ← on_trie FMintCnt (node_iterator dbnode fuel (PutUint64 currentEpoch));
  '(r, _) ← pure ETrie (Iterator_Next dbnode fuel iter);
  match r with
  | None => mret 1
  | Some _ =>
      cntBytes ← on_trie FMintCnt (fun t => Get dbnode t (PutUint64 currentEpoch ++ validator));
      match cntBytes with
      | None => mret 1
      | Some b => n ← Uint64 b; mret (i64 (i64 n + 1))
      end
  end.

(** [updateMintCnt]; the error of the update is dropped. *)
Definition updateMintCnt (fuel : nat) (parentBlockTime currentBlockTime : Z) (validator : list Z) : DM unit :=
  let currentEpoch := Z.quot parentBlockTime epochInterval in
  let newEpoch := Z.quot currentBlockTime epochInterval in
  cnt ← (if bool_decide (currentEpoch = newEpoch) then next_count fuel currentEpoch validator else mret 1);
  handle (try_update dbnode FMintCnt (PutUint64 newEpoch ++ validator) (PutUint64 cnt)) (fun _ => mret tt).
End engine.

(** ** Finalisation *)

(** [AccumulateRewards] *)
Definition blockReward (config : ChainConfig) (header : Header) : Z :=
  if IsByzantium config (Number header) then byzantiumBlockReward else frontierBlockReward.
Definition AccumulateRewards `{Keccak} (dbnode : list Z -> Z -> option node) (config : ChainConfig) (header : Header) : ST unit :=
  AddBalance dbnode (Coinbase header) (blockReward config header).

(** What [Finalize] changes: the state, the context, the header it is given, and
    the variable [timeOfFirstBlock] of the package. *)
Record finalization := mkFin {
  f_state : StateDB;
  f_ctx : DposContext;
  f_header : Header;
  f_timeOfFirstBlock : Z
}.

Definition set_root (root : list Z) (h : Header) : Header :=
  mkHeader (ParentHash h) (UncleHash h) (Validator h) (Coinbase h) root (TxHash h) (ReceiptHash h) (h_DposContext h)
    (Bloom h) (Difficulty h) (Number h) (GasLimit h) (GasUsed h) (Time h) (Extra h) (MixDigest h) (Nonce h)
    (MaxValidatorSize h) (BlockInterval h).

Definition set_proto (p : DposContextProto) (h : Header) : Header :=
  mkHeader (ParentHash h) (UncleHash h) (Validator h) (Coinbase h) (h_Root h) (TxHash h) (ReceiptHash h) (Some p)
    (Bloom h) (Difficulty h) (Number h) (GasLimit h) (GasUsed h) (Time h) (Extra h) (MixDigest h) (Nonce h)
    (MaxValidatorSize h) (BlockInterval h).

Section finalize.
Context `{Keccak, Rand} (dbnode : list Z -> Z -> option node) (it : iteration).

(** An operation on the state alone. *)
Definition on_state {A} (m : ST A) : SM finalization dpos_error A := fun s =>
  match m (f_state s) with
  | Ok (st, inr a) => Ok (mkFin st (f_ctx s) (f_header s) (f_timeOfFirstBlock s), inr a)
  | Ok (_, inl e) => match e with end
  | Err e => match e with end
  | Panic => Panic
  | OutOfFuel => OutOfFuel
  end.

(** A balance as the election reads it with [StateDB.GetBalance].  The objects that
    reading loads into the cache of the state are not kept: a later reading loads
    them again. *)
Definition read_balance (s : StateDB) (a : list Z) : Z :=
  match GetBalance dbnode a s with Ok (_, inr b) => b | _ => 0 end.

(** An operation on the context alone. *)
Definition on_ctx {A} (m : DM A) : SM finalization dpos_error A := fun s =>
  match m (f_ctx s) with
  | Ok (ctx, r) => Ok (mkFin (f_state s) ctx (f_header s) (f_timeOfFirstBlock s), r)
  | Err e => match e with end
  | Panic => Panic
  | OutOfFuel => OutOfFuel
  end.

Definition on_header (f : Header -> Header) : SM finalization dpos_error unit :=
  modify (fun s => mkFin (f_state s) (f_ctx s) (f (f_header s)) (f_timeOfFirstBlock s)).

(** The first statements: rewards, the root, the time of the first block. *)
Definition settle (chain : ChainReader) : SM finalization dpos_error unit :=
  header ← gets f_header;
  on_state (AccumulateRewards dbnode (Config chain) header) ;;
  root ← on_state (IntermediateRoot dbnode it (IsEIP158 (Config chain) (Number header)));
  on_header (set_root root).

Definition note_first_block (chain : ChainReader) : SM finalization dpos_error unit :=
  t ← gets f_timeOfFirstBlock;
  if bool_decide (t = 0) then
    match GetHeaderByNumber chain 1 with
    | Some first =>
        time ← must (Time first);
        modify (fun s => mkFin (f_state s) (f_ctx s) (f_header s) (big_Int64 time))
    | None => mret tt
    end
  else mret tt.

(** [Dpos.Finalize] *)
Definition Finalize (fuel : nat) (chain : ChainReader) (txs : list txdata) (uncles : list Header) (receipts : list Receipt)
  : SM finalization dpos_error Block :=
  settle chain ;;
  header ← gets f_header;
  let parent := GetHeaderByHash chain (ParentHash header) in
  time ← must (Time header);
  note_first_block chain ;;
  first ← gets f_timeOfFirstBlock;
  s ← gets f_state;
  genesis ← must (GetHeaderByNumber chain 0);
  parent ← must parent;
  with_err (EWrap "got error when elect next epoch")
    (on_ctx (tryElect dbnode (read_balance s) fuel (big_Int64 time) first genesis parent)) ;;
  parentTime ← must (Time parent);
  on_ctx (updateMintCnt dbnode fuel (big_Int64 parentTime) (big_Int64 time) (Validator header)) ;;
  proto ← on_ctx ToProto;
  on_header (set_proto proto) ;;
  header ← gets f_header;
  pure ETrie (NewBlock header txs uncles receipts).
End finalize.

(** ** Slots: theorems *)

Section slots.
Context (b now : Z) (Hb : 0 < b) (Hnow : 0 < now) (Hmax : now + b < 2 ^ 63).

(** The last slot before [now]. *)
Definition prev_slot : Z := (now - 1) / b * b.

Lemma prev_slot_bounds : 0 <= (now - 1) / b <= prev_slot /\ prev_slot < now <= prev_slot + b.
Proof.
  unfold prev_slot. pose proof (Z.div_mod (now - 1) b ltac:(lia)). pose proof (Z.mod_pos_bound (now - 1) b ltac:(lia)).
  assert (0 <= (now - 1) / b) by (apply Z.div_pos; lia). nia.
Qed.

Lemma PrevSlot_spec {E} : @PrevSlot E now b = Ok prev_slot.
Proof.
  pose proof prev_slot_bounds as Hp. unfold PrevSlot. rewrite (i64_small b), bool_decide_false by (unfold in_i64; lia).
  rewrite (i64_small (now - 1)), Z.quot_div_nonneg by (unfold in_i64; lia).
  rewrite (i64_small ((now - 1) / b)) by (unfold in_i64; lia). fold prev_slot. by rewrite i64_small by (unfold in_i64; lia).
Qed.

Lemma NextSlot_spec {E} : @NextSlot E now b = Ok (prev_slot + b).
Proof.
  pose proof prev_slot_bounds as Hp. unfold NextSlot. rewrite (i64_small b), bool_decide_false by (unfold in_i64; lia).
  rewrite (i64_small (now + b)), (i64_small (now + b - 1)), Z.quot_div_nonneg by (unfold in_i64; lia).
  assert ((now + b - 1) / b * b = prev_slot + b) as E1.
  { replace (now + b - 1) with (now - 1 + 1 * b) by lia. rewrite Z.div_add by lia. unfold prev_slot. lia. }
  assert (0 <= (now + b - 1) / b <= prev_slot + b) by (split; [apply Z.div_pos; lia|rewrite <- E1; pose proof (Z.div_pos (now + b - 1) b); nia]).
  rewrite (i64_small ((now + b - 1) / b)), E1 by (unfold in_i64; lia). by rewrite i64_small by (unfold in_i64; lia).
Qed.

(** Around every time there are exactly two slots, multiples of
    the block interval one interval apart, [PrevSlot] before the time and [NextSlot]
    at it or after.  A validator may mint only if the last block is older than the
    next slot, and either it filled the previous slot or the next slot is at most a
    second away; the two refusals are told apart by their errors. *)
Theorem slot_deadline last :
  in_i64 last ->
  exists p, PrevSlot (E := dpos_error) now b = Ok p /\ NextSlot (E := dpos_error) now b = Ok (p + b) /\
    (b | p) /\ p < now <= p + b /\
    checkDeadline last now b =
      if bool_decide (p + b <= last) then Err ErrMintFutureBlock
      else if bool_decide (last = p \/ p + b - 1 <= now) then Ok tt
      else Err ErrWaitForPrevBlock.
Proof.
  intros Hl. pose proof prev_slot_bounds as Hp. exists prev_slot.
  split_and!; [apply PrevSlot_spec|apply NextSlot_spec|by eexists|lia..|].
  unfold checkDeadline. rewrite PrevSlot_spec, NextSlot_spec. cbn [mbind outcome_bind]. unfold big_Int64.
  rewrite (i64_small last), i64_small by (unfold in_i64 in *; lia).
  destruct (bool_decide_reflect (prev_slot + b <= last)); [done|].
  destruct (bool_decide_reflect (last = prev_slot)), (bool_decide_reflect (prev_slot + b - now <= 1)); cbn [orb];
    first [rewrite bool_decide_true by lia | rewrite bool_decide_false by lia]; done.
Qed.
End slots.

(** Eight seconds past a slot, one slot behind: wait. *)
Lemma slot_deadline_witness :
  exists p, PrevSlot (E := dpos_error) 108 10 = Ok p /\ NextSlot (E := dpos_error) 108 10 = Ok (p + 10) /\
    (10 | p) /\ p < 108 <= p + 10 /\
    checkDeadline 90 108 10 =
      if bool_decide (p + 10 <= 90) then Err ErrMintFutureBlock
      else if bool_decide (90 = p \/ p + 10 - 1 <= 108) then Ok tt
      else Err ErrWaitForPrevBlock.
Proof. apply (slot_deadline 10 108); unfold in_i64; lia. Defined.

(** ** Verified headers form a chain *)

Section verified.
Context `{Keccak} (chain : ChainReader) (now : Z).

(** The checks on a header alone. *)
Record plain_ok (h : Header) : Prop := {
  po_number : is_Some (Number h);
  po_time : exists t, Time h = Some t /\ t <= now;
  po_extra : (extraVanity + extraSeal <= length (Extra h))%nat;
  po_mix : MixDigest h = emptyHash;
  po_difficulty : exists d, Difficulty h = Some d /\ big_Uint64 d = 1;
  po_uncles : UncleHash h = CalcUncleHash [];
  po_forks : VerifyForkHashes (Config chain) h false = Ok tt
}.

(** The checks of a header against its parent. *)
Record child_of (b : Z) (p h : Header) : Prop := {
  co_hash : Header_Hash p = ParentHash h;
  co_number : exists n m, Number p = Some n /\ Number h = Some m /\ big_Uint64 n = u64 (big_Uint64 m - 1);
  co_time : exists s t, Time p = Some s /\ Time h = Some t /\ u64 (big_Uint64 s + b) <= big_Uint64 t
}.

Definition parent_in (parents : list Header) (h : Header) : option Header :=
  match last parents with
  | Some p => Some p
  | None => n ← Number h; GetHeader chain (ParentHash h) (u64 (big_Uint64 n - 1))
  end.

Lemma guard_ok {E A} (P : Prop) `{Decision P} (e : E) (m : outcome E A) a :
  (if bool_decide P then Err e else m) = Ok a <-> ~ P /\ m = Ok a.
Proof. case_bool_decide; naive_solver. Qed.

Lemma ltb_guard_ok {E A} x y (e : E) (m : outcome E A) a :
  (if (x <? y)%nat then Err e else m) = Ok a <-> (y <= x)%nat /\ m = Ok a.
Proof. destruct (Nat.ltb_spec x y); split; [discriminate|lia|done|by intros [? ?]]. Qed.

Lemma or_panic_bind_ok {E A B} (o : option A) (f : A -> outcome E B) b :
  (or_panic o ≫= f) = Ok b <-> exists a, o = Some a /\ f a = Ok b.
Proof. destruct o; simpl; [naive_solver|split; [done|naive_solver]]. Qed.

Lemma verifyHeader_ok h parents b :
  verifyHeader chain now h parents b = Ok tt <-> plain_ok h /\ exists p, parent_in parents h = Some p /\ child_of b p h.
Proof.
  unfold verifyHeader, parent_in. destruct (Number h) as [num|] eqn:En.
  2:{ split; [done|]. intros [[[? ?]] _]. congruence. }
  cbn [mbind option_bind]. split.
  - intros (time & Et & E)%or_panic_bind_ok. rewrite guard_ok, !ltb_guard_ok, guard_ok in E.
    destruct E as (Hnow & _ & Hex & Hmix & (diff & Ed & E)%or_panic_bind_ok). rewrite !guard_ok in E.
    destruct E as (Hdiff & Hunc & ([] & Ef & E)%bind_ok_inv).
    case_match eqn:Ep; [|discriminate]. apply or_panic_bind_ok in E as (pnum & Epn & E).
    rewrite <- bool_decide_or, guard_ok in E. destruct E as [Hl (ptime & Ept & E)%or_panic_bind_ok]. rewrite guard_ok in E.
    destruct E as [Htime _]. split.
    + constructor; [by eexists|by exists time; split; [|lia]|done|by apply dec_stable|..|by apply dec_stable|done].
      exists diff. split; [done|by apply dec_stable].
    + exists h0. split; [done|]. constructor; [apply dec_stable; tauto|..].
      * exists pnum, num. split_and!; [done|done|apply dec_stable; tauto].
      * exists ptime, time. split_and!; [done|done|lia].
  - intros [[_ (time & Et & Hnow) Hex Hmix (diff & Ed & Hdiff) Hunc Hf] (p & Hp & [Hh (pn & m & Epn & Em & Hn) (pt & t & Ept & Et' & Htt)])].
    rewrite En in Em. injection Em as <-. rewrite Et in Et'. injection Et' as <-.
    rewrite or_panic_bind_ok. exists time. split; [done|]. rewrite guard_ok, !ltb_guard_ok, guard_ok, or_panic_bind_ok.
    split_and!; [lia|lia|done|by intros ?|]. exists diff. split; [done|]. rewrite !guard_ok, Hf. cbn [mbind outcome_bind].
    split_and!; [by intros ?|by intros ?|]. cbn [mbind option_bind] in Hp. rewrite Hp, or_panic_bind_ok. exists pn.
    split; [done|]. rewrite <- bool_decide_or, guard_ok, or_panic_bind_ok. split; [tauto|]. exists pt.
    split; [done|]. rewrite guard_ok. split; [lia|done].
Qed.

(** The parent of a header inside a batch is the header before it. *)
Lemma parent_in_batch hs i p h : hs !! i = Some p -> parent_in (take (S i) hs) h = Some p.
Proof. intros Hp. unfold parent_in. by rewrite (take_S_r _ _ _ Hp), last_snoc. Qed.

Definition linked (b : Z) (hs : list Header) : Prop :=
  (forall h, hs !! 0%nat = Some h -> exists p, parent_in [] h = Some p /\ child_of b p h) /\
  (forall i p h, hs !! i = Some p -> hs !! S i = Some h -> child_of b p h).

(** A header with the fields that the checks dereference. *)
Definition filled (h : Header) : Prop := is_Some (Number h) /\ is_Some (Time h) /\ is_Some (Difficulty h).
Definition dated (h : Header) : Prop := is_Some (Number h) /\ is_Some (Time h).

Lemma fork_hashes_total h n :
  Number h = Some n -> VerifyForkHashes (Config chain) h false = Ok tt \/ exists e, VerifyForkHashes (Config chain) h false = Err e.
Proof.
  intros En. unfold VerifyForkHashes. rewrite En. destruct (EIP150Block (Config chain)); [|by left]. cbn [or_panic mbind outcome_bind].
  destruct (_ && _ && _); [right; by eexists|by left].
Qed.

Lemma guard_total (c : bool) e (m : outcome dpos_error unit) :
  (exists r, as_value m = Ok r) -> exists r, as_value (if c then Err e else m) = Ok r.
Proof. destruct c; [by eexists|done]. Qed.

(** On such headers, with a parent that has a number and a time, nothing panics. *)
Lemma verifyHeader_total h parents b :
  filled h -> (forall p, parent_in parents h = Some p -> dated p) ->
  exists r, as_value (verifyHeader chain now h parents b) = Ok r.
Proof.
  intros ([n En] & [t Et] & [df Ed]) Hp. unfold verifyHeader, parent_in in *. rewrite En, Et in *.
  cbn [or_panic mbind outcome_bind option_bind] in *. do 4 apply guard_total. rewrite Ed. do 2 apply guard_total.
  destruct (fork_hashes_total h n En) as [->|[e ->]]; [|by eexists]. cbn [mbind outcome_bind].
  destruct (match last parents with Some p => Some p | None => _ end) as [p|]; [|by eexists]. destruct (Hp p eq_refl) as [[pn Epn] [pt Ept]].
  rewrite Epn. apply guard_total. rewrite Ept. apply guard_total. by eexists.
Qed.

Lemma as_value_ok (m : outcome dpos_error unit) : as_value m = Ok (inr tt) <-> m = Ok tt.
Proof. destruct m as [[]|?| |]; naive_solver. Qed.

(** The loop sends the verdicts on the headers, each with those before it, up to the
    limit; to get that far it must not panic. *)
Lemma verify_loop_sends b parents hs rs :
  Forall2 (fun p r => as_value (verifyHeader chain now p.1 p.2 b) = Ok r) (imap (fun i h => (h, parents ++ take i hs)) hs) rs ->
  forall limit, verify_loop chain now b limit parents hs = Ok (take limit rs).
Proof.
  revert parents rs. induction hs as [|h hs IH]; intros parents rs Hall limit; cbn [imap] in Hall.
  { apply Forall2_nil_inv_l in Hall as ->. by destruct limit. }
  apply Forall2_cons_inv_l in Hall as (r & rs' & Hr & Hall & ->). cbn [fst snd take] in Hr. rewrite app_nil_r in Hr.
  cbn [verify_loop]. rewrite Hr. cbn [mbind outcome_bind]. destruct limit as [|limit]; [done|].
  rewrite (IH _ rs'); [done|]. erewrite imap_ext; [exact Hall|]. intros i x _. cbn. by rewrite <- app_assoc.
Qed.

Lemma verify_loop_inv b parents hs rs :
  verify_loop chain now b (length hs) parents hs = Ok rs ->
  Forall2 (fun p r => as_value (verifyHeader chain now p.1 p.2 b) = Ok r) (imap (fun i h => (h, parents ++ take i hs)) hs) rs.
Proof.
  revert parents rs. induction hs as [|h hs IH]; intros parents rs; cbn [verify_loop length imap].
  { intros [= <-]. constructor. }
  intros (r & Er & (rs' & Ers & [= <-])%bind_ok_inv)%bind_ok_inv. constructor; [cbn; by rewrite app_nil_r|].
  erewrite imap_ext; [by apply IH|]. intros i x _. cbn. by rewrite <- app_assoc.
Qed.

Lemma verify_batch b hs :
  verify_loop chain now b (length hs) [] hs = Ok (replicate (length hs) (inr tt)) <-> Forall plain_ok hs /\ linked b hs.
Proof.
  transitivity (forall i h, hs !! i = Some h -> plain_ok h /\ exists p, parent_in (take i hs) h = Some p /\ child_of b p h).
  - split.
    + intros Hv%verify_loop_inv i h Hh. apply verifyHeader_ok, as_value_ok. rewrite Forall2_lookup in Hv. specialize (Hv i).
      rewrite list_lookup_imap, Hh, lookup_replicate_2 in Hv by by eapply lookup_lt_Some. by inversion Hv.
    + intros Hv. erewrite verify_loop_sends, take_ge; [done|by rewrite length_replicate|]. apply Forall2_same_length_lookup_2; [by rewrite length_imap, length_replicate|].
      intros i x r. rewrite list_lookup_imap. intros (h & Hh & ->)%fmap_Some [-> _]%lookup_replicate. by apply as_value_ok, verifyHeader_ok, Hv.
  - rewrite Forall_lookup. split.
    + intros Hv. split; [intros i h Hh; by apply (Hv i)|]. split; [intros h Hh; by apply (Hv 0%nat)|].
      intros i p h Hp Hh. destruct (Hv (S i) h Hh) as (_ & p' & Hp' & Hc). rewrite (parent_in_batch _ _ _ _ Hp) in Hp'. congruence.
    + intros (Hpl & H0 & HS) i h Hh. split; [by apply (Hpl i)|]. destruct i as [|i]; [by apply H0|].
      destruct (lookup_lt_is_Some_2 hs i) as [p Hp]; [apply lookup_lt_Some in Hh; lia|].
      exists p. split; [by apply parent_in_batch|by apply (HS i)].
Qed.

Lemma Forall_choices {A B} (P : A -> B -> Prop) l : Forall (fun x => exists y, P x y) l -> exists k, Forall2 P l k.
Proof. induction 1 as [|x l [y Hy] _ [k Hk]]; [by exists []|exists (y :: k); by constructor]. Qed.

(** A batch of filled headers is answered in full. *)
Lemma verify_answers b hs :
  Forall filled hs -> (forall h p, hs !! 0%nat = Some h -> parent_in [] h = Some p -> dated p) ->
  exists rs, Forall2 (fun p r => as_value (verifyHeader chain now p.1 p.2 b) = Ok r) (imap (fun i h => (h, take i hs)) hs) rs.
Proof.
  intros Hf H0. apply Forall_choices, Forall_lookup. intros i x. rewrite list_lookup_imap. intros (h & Hh & ->)%fmap_Some.
  rewrite Forall_lookup in Hf. apply verifyHeader_total; [by eapply Hf|]. intros p. destruct i as [|i]; [by apply H0|].
  destruct (lookup_lt_is_Some_2 hs i) as [q Hq]; [apply lookup_lt_Some in Hh; lia|].
  cbn [fst snd]. rewrite (parent_in_batch _ _ _ _ Hq). intros [= <-]. destruct (Hf _ _ Hq) as (? & ? & _). by split.
Qed.

(** Linked headers are at least an interval apart. *)
Lemma linked_times b hs :
  0 <= b -> 0 <= now -> now + b < 2 ^ 64 -> Forall plain_ok hs -> Forall (fun h => forall t, Time h = Some t -> 0 <= t) hs -> linked b hs ->
  forall i h0 h t0, hs !! 0%nat = Some h0 -> hs !! i = Some h -> Time h0 = Some t0 ->
  exists t, Time h = Some t /\ t0 + Z.of_nat i * b <= t.
Proof.
  intros Hb Hnow Hmax Hpl Hpos [_ Hl] i. induction i as [|i IH]; intros h0 h t0 Hh0 Hh Ht0.
  - exists t0. split; [congruence|lia].
  - destruct (lookup_lt_is_Some_2 hs i) as [p Hp]; [apply lookup_lt_Some in Hh; lia|].
    destruct (IH h0 p t0 Hh0 Hp Ht0) as (s & Hs & Hle). destruct (Hl i p h Hp Hh) as [_ _ (s' & t & Hs' & Ht & Hst)].
    assert (s' = s) as -> by congruence. exists t. split; [done|]. rewrite Forall_lookup in Hpl, Hpos.
    destruct (Hpl _ _ Hp) as [_ (s1 & Hs1 & Hsn) _ _ _ _ _], (Hpl _ _ Hh) as [_ (t1 & Ht1 & Htn) _ _ _ _ _].
    assert (s1 = s) as -> by congruence. assert (t1 = t) as -> by congruence.
    pose proof (Hpos _ _ Hp _ Hs). pose proof (Hpos _ _ Hh _ Ht). unfold big_Uint64 in Hst.
    rewrite !Z.abs_eq in Hst by lia. rewrite (wrapU_small 64 s), (wrapU_small 64 t), wrapU_small in Hst by lia. lia.
Qed.

(** A header with a number but without a time stops the process, whatever else is
    in the batch before it is answered. *)
Theorem timeless_header_panics genesis h hs limit n :
  GetHeaderByNumber chain 0 = Some genesis -> Number h = Some n -> Time h = None ->
  VerifyHeaders chain now limit (h :: hs) = Panic.
Proof. intros Hg Hn Ht. unfold VerifyHeaders. rewrite Hg. cbn. unfold verifyHeader. by rewrite Hn, Ht. Qed.

(** C13: functional, safety.  If the headers have a number, a time and a difficulty,
    and the stored parent of the first one a number and a time, [VerifyHeaders] does
    not panic and answers every header in order with what [verifyHeader] says of it
    after the headers before it; after an abort it has sent a prefix of these answers.
    Whatever the headers are, all of a batch is accepted exactly when each header
    passes the checks on it alone, the first one extends a stored header, and each
    later one extends the header before it: hash, number and an interval of time.
    So the headers of an accepted batch, if their times are not negative, are at
    least the block interval apart, also in sum. *)
Theorem verify_headers_chain genesis hs :
  GetHeaderByNumber chain 0 = Some genesis -> let b := BlockInterval genesis in
  let accepted := VerifyHeaders chain now (length hs) hs = Ok (replicate (length hs) (inr tt)) in
  (Forall filled hs -> (forall h p, hs !! 0%nat = Some h -> parent_in [] h = Some p -> dated p) ->
   exists rs, (forall limit, VerifyHeaders chain now limit hs = Ok (take limit rs)) /\ length rs = length hs /\
     forall i h r, hs !! i = Some h -> rs !! i = Some r -> as_value (verifyHeader chain now h (take i hs) b) = Ok r) /\
  (accepted <-> Forall plain_ok hs /\ linked b hs) /\
  (accepted -> 0 <= b -> 0 <= now -> now + b < 2 ^ 64 ->
   Forall (fun h => forall t, Time h = Some t -> 0 <= t) hs ->
   forall i h0 h t0, hs !! 0%nat = Some h0 -> hs !! i = Some h -> Time h0 = Some t0 ->
   exists t, Time h = Some t /\ t0 + Z.of_nat i * b <= t).
Proof.
  intros Hg b accepted. unfold accepted, VerifyHeaders. rewrite Hg. cbn [or_panic mbind outcome_bind]. fold b. split_and!.
  - intros Hf H0. destruct (verify_answers b hs Hf H0) as [rs Hrs]. exists rs. split_and!.
    + by apply (verify_loop_sends b []).
    + apply Forall2_length in Hrs. by rewrite length_imap in Hrs.
    + intros i h r Hh Hr. eapply (Forall2_lookup_lr _ _ _ _ (h, take i hs)) in Hrs; [exact Hrs| |exact Hr]. by rewrite list_lookup_imap, Hh.
  - apply verify_batch.
  - intros [Hpl Hl]%verify_batch Hb Hn Hm Hpos. by apply linked_times.
Qed.
End verified.

(** Two headers on top of a genesis header, ten seconds apart. *)
Definition sample_genesis : Header :=
  mkHeader emptyHash emptyHash emptyAddress emptyAddress emptyRoot emptyRoot emptyRoot (Some zero_proto)
    (zeroes 256) (Some 1) (Some 0) 4712388 0 (Some 0) [] emptyHash (zeroes 8) 3 10.
Definition sample_child `{Keccak} (p : Header) (v : list Z) (n t : Z) : Header :=
  mkHeader (Header_Hash p) (CalcUncleHash []) v v emptyRoot emptyRoot emptyRoot (Some zero_proto)
    (zeroes 256) (Some 1) (Some n) 4712388 0 (Some t) (zeroes 97) emptyHash (zeroes 8) 3 10.
Definition sample_chain (current : Header) (known : list Z -> option Header) : ChainReader :=
  mkChain (mkConfig None None None false None emptyHash None None None None) (Some current) (fun h _ => known h)
    (fun n => if bool_decide (n = 0) then Some sample_genesis else None) known.

Lemma verify_headers_chain_witness :
  let h1 := @sample_child tag_keccak sample_genesis (addr 1) 1 10 in
  let h2 := @sample_child tag_keccak h1 (addr 2) 2 20 in
  let chain := sample_chain sample_genesis (fun _ => Some sample_genesis) in
  (exists rs, @VerifyHeaders tag_keccak chain 100 1 [h1; h2] = Ok (take 1 rs) /\ length rs = 2%nat) /\
  @VerifyHeaders tag_keccak chain 100 2 [h1; h2] = Ok [inr tt; inr tt] /\
  exists t, Time h2 = Some t /\ 10 + 1 * 10 <= t.
Proof.
  intros h1 h2 chain.
  destruct (@verify_headers_chain tag_keccak chain 100 sample_genesis [h1; h2] eq_refl) as (Hans & Hiff & Ht).
  assert (@VerifyHeaders tag_keccak chain 100 2 [h1; h2] = Ok [inr tt; inr tt]) as Hrs by (vm_compute; reflexivity).
  split_and!; [|exact Hrs|].
  - destruct Hans as (rs & E & Hl & _).
    + repeat constructor; by eexists.
    + intros h p [= <-] [= <-]. split; by eexists.
    + exists rs. split; [apply (E 1%nat)|exact Hl].
  - apply (Ht Hrs ltac:(simpl; lia) ltac:(lia) ltac:(simpl; lia)) with (i := 1%nat) (h0 := h1); [|done..].
    repeat constructor; simpl; intros t [= <-]; lia.
Defined.

(** ** The confirmed block *)

Definition header_epoch (h : Header) : Z := Z.quot (big_Int64 (default 0 (Time h))) epochInterval.
Definition number_of (h : Header) : Z := default 0 (Number h).

(** A header with a number and a time, the number in range. *)
Definition complete (h : Header) : Prop := is_Some (Number h) /\ is_Some (Time h) /\ 0 <= number_of h < 2 ^ 63.

(** A chain whose headers are complete, and numbered one after the other. *)
Record chain_ok (chain : ChainReader) (genesis head : Header) : Prop := {
  ck_genesis : GetHeaderByNumber chain 0 = Some genesis;
  ck_head : CurrentHeader chain = Some head;
  ck_complete h : h = genesis \/ h = head \/ (exists x, GetHeaderByHash chain x = Some h) -> complete h;
  ck_parent h p : h = head \/ (exists x, GetHeaderByHash chain x = Some h) ->
    GetHeaderByHash chain (ParentHash h) = Some p -> number_of h = number_of p + 1
}.

(** Headers from new to old, each the parent of the one before. *)
Definition walk (chain : ChainReader) (l : list Header) : Prop :=
  forall i h p, l !! i = Some h -> l !! S i = Some p -> GetHeaderByHash chain (ParentHash h) = Some p.

Definition validators_of (l : list Header) : gset (list Z) := list_to_set (map Validator l).

(** [c] is an ancestor of [head], and the headers [seg] at the old end of the walk
    from [head] to [c] are in the epoch of [c] and by [n] validators. *)
Definition quorum (chain : ChainReader) (n : Z) (head c : Header) : Prop :=
  exists path seg, path !! 0%nat = Some head /\ last path = Some c /\ walk chain path /\ seg `suffix_of` path /\
    Forall (fun h => header_epoch h = header_epoch c) seg /\ n <= Z.of_nat (size (validators_of seg)).

Lemma walk_snoc chain l h p : walk chain (l ++ [h]) -> GetHeaderByHash chain (ParentHash h) = Some p -> walk chain ((l ++ [h]) ++ [p]).
Proof.
  intros Hw Hp i x y Hx Hy. destruct (decide (S i < length (l ++ [h]))%nat) as [Hi|Hi].
  - rewrite lookup_app_l in Hx, Hy by lia. by apply (Hw i).
  - rewrite (lookup_app_r (l ++ [h])) in Hy by lia. apply list_lookup_singleton_Some in Hy as [Hy <-].
    rewrite lookup_app_l in Hx by lia. rewrite length_app in *. simpl in *.
    rewrite lookup_app_r in Hx by lia. replace (i - length l)%nat with 0%nat in Hx by lia. by injection Hx as ->.
Qed.

Lemma validators_snoc l h : validators_of (l ++ [h]) = {[ Validator h ]} ∪ validators_of l.
Proof. unfold validators_of. rewrite map_app, list_to_set_app_L. set_solver. Qed.

Section confirmed.
Context `{Keccak} (chain : ChainReader) (genesis head : Header) (Hck : chain_ok chain genesis head).

Definition known (h : Header) : Prop := h = head \/ exists x, GetHeaderByHash chain x = Some h.

(** Whether the next write fails; the state after a block is confirmed, in memory in
    any case and in the database if it can be written; and what is returned then. *)
Definition put_fails (d : Dpos) : bool := match d_puts d with false :: _ => true | _ => false end.
Definition confirm (c : Header) (d : Dpos) : Dpos :=
  mkDpos (if put_fails d then d_db d else <[confirmedBlockHead := Header_Hash c]> (d_db d))
    (d_signer d) (d_signatures d) (Some c) (tail (d_puts d)).
Definition put_result (d : Dpos) : dpos_error + unit := if put_fails d then inl errPut else inr tt.

Lemma store_confirmed c d : (modify (set_confirmed c) ;; storeConfirmedBlockHeader) d = Ok (confirm c d, put_result d).
Proof. by destruct d as [db sg sigs c0 [|[] ps]]. Qed.

(** The segment of the current epoch, once [cur] is reached. *)
Definition segment (epoch : Z) (cur : Header) (seg : list Header) : list Header :=
  if bool_decide (header_epoch cur <> epoch) then [] else seg.

Lemma segment_ok epoch cur seg path :
  seg `suffix_of` path -> Forall (fun h => header_epoch h = epoch) seg ->
  segment epoch cur seg ++ [cur] `suffix_of` path ++ [cur] /\
  Forall (fun h => header_epoch h = header_epoch cur) (segment epoch cur seg ++ [cur]).
Proof.
  intros Hs Hf. unfold segment. destruct (bool_decide_reflect (header_epoch cur <> epoch)) as [Hn|Hn].
  - split; [by exists path|by constructor].
  - apply dec_stable in Hn as <-. split; [|apply Forall_app; by repeat constructor].
    destruct Hs as [k ->]. exists k. by rewrite app_assoc.
Qed.

Lemma complete_run h : known h -> exists n t, Number h = Some n /\ Time h = Some t /\ 0 <= n < 2 ^ 63 /\ number_of h = n.
Proof.
  intros Hk. destruct (ck_complete _ _ _ Hck h) as ([n Hn] & [t Ht] & Hr); [destruct Hk; auto|].
  exists n, t. unfold number_of in *. rewrite Hn in *. done.
Qed.

Lemma big_small n : 0 <= n < 2 ^ 63 -> big_Uint64 n = n /\ big_Int64 n = n.
Proof.
  intros Hn. unfold big_Uint64, big_Int64. rewrite Z.abs_eq, wrapU_small, i64_small by (unfold in_i64; lia). done.
Qed.

(** The number of validators that confirm a block. *)
Definition needed : Z := MaxValidatorSize genesis * 2 / 3 + 1.
Context (Hmax : 0 <= MaxValidatorSize genesis < 2 ^ 62).

Lemma needed_bounds : 1 <= needed < 2 ^ 62 /\ consensus_size genesis = needed.
Proof.
  assert (0 <= MaxValidatorSize genesis * 2 / 3 < 2 ^ 62 - 1).
  { split; [apply Z.div_pos; lia|]. apply Z.div_lt_upper_bound; lia. }
  unfold needed, consensus_size. split; [lia|].
  rewrite (wrapU_small 64 (_ * 2)), wrapU_small, i64_small by (unfold in_i64; lia). done.
Qed.

Lemma segment_size epoch cur seg :
  Z.of_nat (size (validators_of seg)) < needed -> Z.of_nat (size (validators_of (segment epoch cur seg))) < needed.
Proof.
  pose proof needed_bounds. unfold segment. case_bool_decide; [|done]. change (size (validators_of [])) with 0%nat. lia.
Qed.

(** One turn of the loop. *)
Lemma confirm_turn fuel c0 cur epoch seg d :
  known cur -> complete c0 -> Z.of_nat (size (validators_of seg)) < needed -> let seg' := segment epoch cur seg in
  confirm_loop (S fuel) chain (Some genesis) c0 cur epoch (validators_of seg) d =
  if bool_decide (Header_Hash c0 = Header_Hash cur \/ number_of cur <= number_of c0 \/
                  number_of cur - number_of c0 < needed - Z.of_nat (size (validators_of seg')))
  then Ok (d, inr tt)
  else if bool_decide (needed <= Z.of_nat (size (validators_of (seg' ++ [cur])))) then Ok (confirm cur d, put_result d)
  else match GetHeaderByHash chain (ParentHash cur) with
       | None => Ok (d, inl ErrNilBlockHeader)
       | Some p => confirm_loop fuel chain (Some genesis) c0 p (header_epoch cur) (validators_of (seg' ++ [cur])) d
       end.
Proof.
  intros Hk ([n0 En0] & _ & Hn0) Hs seg'. destruct (complete_run cur Hk) as (n & t & En & Et & Hn & Enn). rewrite Enn.
  cbn [confirm_loop]. unfold number_of in Hn0 |- *. rewrite En0 in *. cbn [from_option] in *. unfold id in *. rewrite En. cbn [must].
  pose proof (segment_size epoch cur seg Hs) as Hs'. fold seg' in Hs'.
  destruct (bool_decide_reflect (Header_Hash c0 = Header_Hash cur)) as [Hh|Hh].
  { by rewrite bool_decide_true by auto. }
  rewrite !(sm_bind_ok _ _ d d _ eq_refl). destruct (big_small n Hn) as [-> ->], (big_small n0 Hn0) as [-> ->].
  destruct (bool_decide_reflect (n <= n0)) as [Hle|Hle].
  { by rewrite bool_decide_true by auto. }
  rewrite Et. cbn [must]. rewrite !(sm_bind_ok _ _ d d _ eq_refl).
  replace (Z.quot (big_Int64 t) epochInterval) with (header_epoch cur) by (unfold header_epoch; by rewrite Et).
  destruct needed_bounds as [Hnd ->].
  assert ((if bool_decide (header_epoch cur <> epoch) then ∅ else validators_of seg) = validators_of seg') as ->.
  { unfold seg', segment. by case_bool_decide. }
  rewrite <- validators_snoc, (i64_small (n - n0)), (i64_small (needed - Z.of_nat (size (validators_of seg')))) by (unfold in_i64; lia).
  destruct (bool_decide_reflect (n - n0 < needed - Z.of_nat (size (validators_of seg')))) as [Hq|Hq].
  { by rewrite bool_decide_true by auto. }
  rewrite (bool_decide_false (_ \/ _)) by tauto. case_bool_decide; [apply store_confirmed|]. by case_match.
Qed.

Lemma known_parent h p : known h -> GetHeaderByHash chain (ParentHash h) = Some p -> known p /\ number_of h = number_of p + 1.
Proof. intros Hk Hp. split; [right; by eexists|by apply (ck_parent _ _ _ Hck)]. Qed.

(** With as much fuel as there are blocks the loop ends; if it changes anything it
    confirms a block backed by a quorum. *)
Lemma confirm_loop_safe fuel : forall path cur epoch seg c0 d,
  known cur -> complete c0 -> (Z.to_nat (number_of cur) < fuel)%nat -> Z.of_nat (size (validators_of seg)) < needed ->
  walk chain (path ++ [cur]) -> (path ++ [cur]) !! 0%nat = Some head -> seg `suffix_of` path ->
  Forall (fun h => header_epoch h = epoch) seg ->
  (exists r, confirm_loop fuel chain (Some genesis) c0 cur epoch (validators_of seg) d = Ok (d, r)) \/
  (exists c, confirm_loop fuel chain (Some genesis) c0 cur epoch (validators_of seg) d = Ok (confirm c d, put_result d) /\
     known c /\ number_of c0 < number_of c /\ quorum chain needed head c).
Proof.
  induction fuel as [|fuel IH]; intros path cur epoch seg c0 d Hk Hc0 Hf Hs Hw Hh Hsuf Hep; [lia|].
  rewrite confirm_turn by done. destruct (segment_ok epoch cur seg path Hsuf Hep) as [Hsuf' Hep'].
  set (seg' := segment epoch cur seg) in *. case_bool_decide as Hstop; [left; by eexists|].
  case_bool_decide as Hq.
  - right. exists cur. split_and!; [done|done|lia|]. exists (path ++ [cur]), (seg' ++ [cur]).
    split_and!; [done|by rewrite last_snoc|done..].
  - destruct (GetHeaderByHash chain (ParentHash cur)) as [p|] eqn:Ep; [|left; by eexists].
    destruct (known_parent cur p Hk Ep) as [Hkp Hnum]. destruct (complete_run p Hkp) as (n & _ & _ & _ & Hn & Enn).
    apply (IH (path ++ [cur])); [done|done|lia|lia|by apply walk_snoc|by apply lookup_app_l_Some|done|done].
Qed.

Lemma union_size (X Y : gset (list Z)) : (size (X ∪ Y) <= size X + size Y)%nat.
Proof. rewrite size_union_alt. assert (size (Y ∖ X) <= size Y)%nat by (apply subseteq_size; set_solver). lia. Qed.

Lemma validators_size l : (size (validators_of l) <= length l)%nat.
Proof.
  induction l as [|h l IH]; [done|]. change (validators_of (h :: l)) with ({[ Validator h ]} ∪ validators_of l).
  etrans; [apply union_size|]. rewrite size_singleton. simpl. lia.
Qed.

Lemma validators_app_size l1 l2 : (size (validators_of (l1 ++ l2)) <= size (validators_of l1) + length l2)%nat.
Proof.
  pose proof (validators_size l2). unfold validators_of in *. rewrite map_app, list_to_set_app_L.
  etrans; [apply union_size|]. lia.
Qed.

(** Headers above [c0], each the parent of the one before. *)
Definition above (c0 : Header) (l : list Header) : Prop :=
  walk chain l /\ Forall (fun h => number_of c0 < number_of h /\ Header_Hash c0 <> Header_Hash h) l.

Lemma above_length c0 h l : known h -> above c0 (h :: l) -> Z.of_nat (length l) < number_of h - number_of c0.
Proof.
  revert h. induction l as [|p l IH]; intros h Hk [Hw Ha]; apply Forall_cons in Ha as [[Hn _] Ha]; simpl; [lia|].
  destruct (known_parent h p Hk) as [Hkp ->]; [by apply (Hw 0%nat)|].
  assert (Z.of_nat (length l) < number_of p - number_of c0); [|lia].
  apply IH; [done|]. split; [|done]. intros i. apply (Hw (S i)).
Qed.

(** If the next headers, all in one epoch, complete a quorum, a block is confirmed. *)
Lemma confirm_loop_live rest : forall fuel cur epoch seg c0 d,
  known cur -> complete c0 -> (length rest < fuel)%nat -> Z.of_nat (size (validators_of seg)) < needed ->
  segment epoch cur seg = seg -> Forall (fun h => header_epoch h = header_epoch cur) rest -> above c0 (cur :: rest) ->
  needed <= Z.of_nat (size (validators_of (seg ++ cur :: rest))) ->
  exists c, c ∈ cur :: rest /\
    confirm_loop fuel chain (Some genesis) c0 cur epoch (validators_of seg) d = Ok (confirm c d, put_result d).
Proof.
  induction rest as [|p rest IH]; intros fuel cur epoch seg c0 d Hk Hc0 Hf Hs Hseg Hep Hab Hq;
    (destruct fuel as [|fuel]; [simpl in Hf; lia|]); rewrite confirm_turn, Hseg by done;
    pose proof (above_length _ _ _ Hk Hab) as Hlen; destruct Hab as [Hw [[Hn Hh] Ha]%Forall_cons];
    match type of Hq with _ <= Z.of_nat (size (validators_of (_ ++ ?l))) => pose proof (validators_app_size seg l) as Hsz end;
    simpl in Hsz, Hlen; (rewrite bool_decide_false; [|intros [?|[?|?]]; [done|lia|lia]]).
  - rewrite bool_decide_true by done. exists cur. split; [by left|done].
  - case_bool_decide as Hnow; [exists cur; split; [by left|done]|]. assert (GetHeaderByHash chain (ParentHash cur) = Some p) as -> by by apply (Hw 0%nat).
    apply Forall_cons in Hep as [Hep Hrest].
    destruct (known_parent cur p Hk) as [Hkp _]; [by apply (Hw 0%nat)|].
    simpl in Hf. edestruct IH as (c & Hc & E); [..|exists c; split; [right; exact Hc|exact E]]; [done|done|lia|lia| | |split; [intros i; apply (Hw (S i))|done]|by rewrite <- app_assoc].
    + unfold segment. by rewrite bool_decide_false by (intros Hne; by apply Hne).
    + by rewrite Hep.
Qed.

(** The confirmed header the engine starts from: the one in memory, else the one in
    the database, else the genesis header. *)
Definition confirmed_of (d : Dpos) : Header :=
  match d_confirmedBlockHeader d with
  | Some c => c
  | None => default genesis (key ← d_db d !! confirmedBlockHead; GetHeaderByHash chain (BytesToHash key))
  end.
Definition started (d : Dpos) : Dpos := mkDpos (d_db d) (d_signer d) (d_signatures d) (Some (confirmed_of d)) (d_puts d).

Lemma updateConfirmed_run fuel d :
  updateConfirmedBlockHeader fuel chain d = confirm_loop fuel chain (Some genesis) (confirmed_of d) head (-1) (validators_of []) (started d).
Proof.
  destruct Hck as [Hg Hh _ _]. unfold updateConfirmedBlockHeader. rewrite (sm_bind_ok _ _ d d _ eq_refl).
  erewrite (sm_bind_ok _ _ d (started d) (confirmed_of d)); [by rewrite Hh, Hg|].
  unfold started, confirmed_of. destruct d as [db sg sigs [c|] ps]; [done|]. cbn [d_confirmedBlockHeader d_db d_signer d_signatures d_puts].
  unfold handle, loadConfirmedBlockHeader, gets, mbind, SM_bind. cbn [d_db].
  destruct (db !! confirmedBlockHead) as [key|]; [|by rewrite Hg]. cbn [option_bind].
  by destruct (GetHeaderByHash chain (BytesToHash key)); [|rewrite Hg].
Qed.

Definition confirmed_complete (d : Dpos) : Prop := forall c, d_confirmedBlockHeader d = Some c -> complete c.

Lemma confirmed_of_complete d : confirmed_complete d -> complete (confirmed_of d).
Proof.
  intros Hc. unfold confirmed_of. destruct (d_confirmedBlockHeader d) as [c|] eqn:Ec; [by apply Hc|].
  destruct (key ← d_db d !! confirmedBlockHead; GetHeaderByHash chain (BytesToHash key)) as [h|] eqn:E; cbn [default from_option].
  - apply bind_Some in E as (key & _ & E). apply (ck_complete _ _ _ Hck). eauto.
  - apply (ck_complete _ _ _ Hck). by left.
Qed.

(** An engine started on the database reports the block written there. *)
Lemma restarted c d puts :
  put_fails d = false -> GetHeaderByHash chain (Header_Hash c) = Some c ->
  exists d2, GetConfirmedBlockNumber chain (Dpos_New (d_db (confirm c d)) puts) = Ok (d2, inr (Number c)).
Proof.
  intros Hp Hg. eexists. unfold GetConfirmedBlockNumber. rewrite (sm_bind_ok _ _ _ _ _ eq_refl).
  cbn [d_confirmedBlockHeader Dpos_New]. erewrite sm_bind_ok; [done|]. unfold loadConfirmedBlockHeader.
  rewrite (sm_bind_ok _ _ _ _ _ eq_refl). cbn [d_db Dpos_New confirm]. rewrite Hp, lookup_insert_eq.
  rewrite BytesToHash_id by apply keccak256_ok. by rewrite Hg.
Qed.

(** C5: safety, termination, error.  On a chain of numbered headers, with as much fuel
    as there are blocks, [updateConfirmedBlockHeader] returns.  It changes the confirmed
    block only to a higher one that is an ancestor of the current head, and only when
    the blocks from it upwards, in its own epoch, were made by at least two thirds
    plus one of the validators.  If the write to the database succeeds the call does,
    and an engine started again on that database reports the number of the new block,
    provided the chain finds the block by its hash.  If the write fails its error is
    returned and the database is as before, but the engine keeps the new block as the
    confirmed one in memory. *)
Theorem confirmed_quorum fuel d :
  confirmed_complete d -> (Z.to_nat (number_of head) < fuel)%nat ->
  exists d' r, updateConfirmedBlockHeader fuel chain d = Ok (d', r) /\
    (d' = started d \/
     exists c, d' = confirm c (started d) /\ d_confirmedBlockHeader d' = Some c /\ number_of (confirmed_of d) < number_of c /\
       quorum chain needed head c /\
       (put_fails d = false -> r = inr tt /\
        (GetHeaderByHash chain (Header_Hash c) = Some c -> forall puts,
         exists d2, GetConfirmedBlockNumber chain (Dpos_New (d_db d') puts) = Ok (d2, inr (Number c)))) /\
       (put_fails d = true -> r = inl errPut /\ d_db d' = d_db d)).
Proof.
  intros Hc Hf. rewrite updateConfirmed_run. pose proof needed_bounds.
  destruct (confirm_loop_safe fuel [] head (-1) [] (confirmed_of d) (started d)) as [[r ->]|(c & -> & Hk & Hn & Hq)];
    [by left|by apply confirmed_of_complete|done|change (size (validators_of [])) with 0%nat; lia| |done..| |].
  - intros i h p Hh Hp. by destruct i.
  - by exists (started d), r; split; [|left].
  - exists (confirm c (started d)), (put_result (started d)). split; [done|]. right. exists c. split_and!; [done..| |].
    + intros Hp. change (put_fails d) with (put_fails (started d)) in Hp. split; [unfold put_result; by rewrite Hp|]. intros Hg puts. by apply restarted.
    + intros Hp. change (put_fails d) with (put_fails (started d)) in Hp. unfold put_result, confirm. cbn [d_db]. by rewrite Hp.
Qed.

(** C18: liveness.  If the newest blocks lie in one epoch, above the confirmed block,
    and were made by two thirds plus one of the validators, then
    [updateConfirmedBlockHeader] confirms one of them: the fast return never skips a
    confirmation that is due.  The block is confirmed in memory, and in the database
    unless the write fails, whose error is then what is returned. *)
Theorem confirm_advances fuel rest d :
  confirmed_complete d -> (length rest < fuel)%nat -> above (confirmed_of d) (head :: rest) ->
  Forall (fun h => header_epoch h = header_epoch head) rest -> needed <= Z.of_nat (size (validators_of (head :: rest))) ->
  exists c, c ∈ head :: rest /\ number_of (confirmed_of d) < number_of c /\
    updateConfirmedBlockHeader fuel chain d = Ok (confirm c (started d), put_result d).
Proof.
  intros Hc Hf Ha He Hq. rewrite updateConfirmed_run. pose proof needed_bounds.
  destruct (confirm_loop_live rest fuel head (-1) [] (confirmed_of d) (started d)) as (c & Hin & E);
    [by left|by apply confirmed_of_complete|done|change (size (validators_of [])) with 0%nat; lia| |done..|].
  { unfold segment. by case_bool_decide. }
  exists c. split_and!; [done| |done]. destruct Ha as [_ Ha]. rewrite Forall_forall in Ha. by apply Ha.
Qed.
End confirmed.

(** A hash function that tells the sample headers apart. *)
Definition poly_hash (b : list Z) : list Z := be_bytes 32 (fold_left (fun acc x => (acc * 257 + x + 1) mod 65521) b 0).

Lemma poly_hash_ok b : length (poly_hash b) = 32%nat /\ bytes_ok (poly_hash b).
Proof. unfold poly_hash. split; [apply length_be_bytes|apply be_bytes_ok]. Qed.

Definition poly_keccak : Keccak := Build_Keccak poly_hash poly_hash_ok.

(** Three blocks of one epoch by three validators. *)
Definition sample_h1 : Header := @sample_child poly_keccak sample_genesis (addr 1) 1 10.
Definition sample_h2 : Header := @sample_child poly_keccak sample_h1 (addr 2) 2 20.
Definition sample_h3 : Header := @sample_child poly_keccak sample_h2 (addr 3) 3 30.

Fixpoint find_header `{Keccak} (l : list Header) (x : list Z) : option Header :=
  match l with
  | [] => None
  | h :: l => if bool_decide (x = Header_Hash h) then Some h else find_header l x
  end.

Lemma find_header_in `{Keccak} l x h : find_header l x = Some h -> h ∈ l.
Proof. induction l as [|y l IH]; simpl; [done|]. case_bool_decide; [intros [= ->]; by left|right; auto]. Qed.

Lemma find_chain_ok `{Keccak} l head :
  head ∈ l -> sample_genesis ∈ l -> Forall complete l ->
  Forall (fun h => from_option (fun p => number_of h = number_of p + 1) True (find_header l (ParentHash h))) l ->
  chain_ok (sample_chain head (find_header l)) sample_genesis head.
Proof.
  intros Hh Hg Hc Hp. rewrite Forall_forall in Hc, Hp. split; [done|done| |].
  - intros h [->|[->|[x Hx%find_header_in]]]; auto.
  - intros h p Hk E. cbn in E. assert (h ∈ l) as Hin by (destruct Hk as [->|[x Hx%find_header_in]]; done).
    specialize (Hp h Hin). by rewrite E in Hp.
Qed.

Definition sample_headers : list Header := [sample_h1; sample_h2; sample_h3; sample_genesis].
Definition sample3 : ChainReader := sample_chain sample_h3 (@find_header poly_keccak sample_headers).

Lemma sample3_ok : chain_ok sample3 sample_genesis sample_h3.
Proof.
  apply (@find_chain_ok poly_keccak); [apply list_elem_of_lookup_2 with 2%nat; reflexivity|apply list_elem_of_lookup_2 with 3%nat; reflexivity| |].
  - assert (forall h, is_Some (Number h) -> is_Some (Time h) -> bool_decide (0 <= number_of h < 2 ^ 63) = true -> complete h) as Hc.
    { intros h H1 H2 H3%bool_decide_eq_true. exact (conj H1 (conj H2 H3)). }
    repeat (apply Forall_cons; split; [apply Hc; [eexists; reflexivity|eexists; reflexivity|vm_compute; reflexivity]|]). apply Forall_nil; exact I.
  - repeat (apply Forall_cons; split; [vm_compute; first [reflexivity|exact I]|]). apply Forall_nil; exact I.
Qed.

Lemma confirmed_quorum_witness :
  exists d' r, @updateConfirmedBlockHeader poly_keccak 4 sample3 (Dpos_New ∅ []) = Ok (d', r) /\
    r = inr tt /\ d_confirmedBlockHeader d' = Some sample_h1.
Proof.
  destruct (@confirmed_quorum poly_keccak sample3 sample_genesis sample_h3 sample3_ok ltac:(simpl; lia) 4 (Dpos_New ∅ []))
    as (d' & r & E & _); [intros c [=]|vm_compute; lia|].
  exists d', r. split; [exact E|]. vm_compute in E. injection E as <- <-. split; reflexivity.
Defined.

Lemma confirm_advances_witness :
  exists c, c ∈ [sample_h3; sample_h2; sample_h1] /\
    number_of (confirmed_of sample3 sample_genesis (Dpos_New ∅ [])) < number_of c /\
    @updateConfirmedBlockHeader poly_keccak 4 sample3 (Dpos_New ∅ []) =
    Ok (@confirm poly_keccak c (started sample3 sample_genesis (Dpos_New ∅ [])), put_result (Dpos_New ∅ [])).
Proof.
  apply (@confirm_advances poly_keccak sample3 sample_genesis sample_h3 sample3_ok ltac:(simpl; lia) 4 [sample_h2; sample_h1] (Dpos_New ∅ []));
    [intros c [=]|simpl; lia| | |vm_compute; discriminate].
  - split.
    + intros [|[|[|i]]] h p; intros [= <-]; intros [= <-]; vm_compute; reflexivity.
    + repeat constructor; try (vm_compute; reflexivity); vm_compute; discriminate.
  - repeat constructor.
Defined.

(** ** Seals: theorems *)

Definition header_bytes (h : Header) : list Z := encode_item (header_item h).

(** A header as the decoder makes them: its numbers present and in range. *)
Record decoded_header (h : Header) : Prop := {
  dh_ok : header_ok h;
  dh_full : is_Some (Difficulty h) /\ is_Some (Number h) /\ is_Some (Time h);
  dh_size : Z.of_nat (length (header_bytes h)) < 2 ^ 64
}.

Section seals.
Context `{Keccak, Ecdsa}.

Lemma decoded_hash_inj h1 h2 :
  decoded_header h1 -> decoded_header h2 -> no_collision [header_bytes h1] [header_bytes h2] ->
  Header_Hash h1 = Header_Hash h2 -> h1 = h2.
Proof.
  intros [O1 ([? D1] & [? N1] & [? T1]) B1] [O2 ([? D2] & [? N2] & [? T2]) B2] Hnc E.
  destruct (Header_Hash_inj h1 h2 O1 O2 B1 B2 Hnc E) as [Ec Ep]. clear - D1 D2 N1 N2 T1 T2 Ec Ep.
  destruct h1 as [? ? ? ? ? ? ? p1], h2 as [? ? ? ? ? ? ? p2]. unfold CopyHeader in Ec. simpl in *. subst. simpl in Ec.
  destruct Ep as [Ep1 Ep2]. destruct p1, p2; [|discriminate (Ep2 eq_refl)|discriminate (Ep1 eq_refl)|]; simpl in Ec; [exact Ec|].
  injection Ec. intros. by subst.
Qed.

(** The seal of a header was made by [a]. *)
Definition signed_by (h : Header) (a : list Z) : Prop :=
  exists hash x pub, (extraSeal <= length (Extra h))%nat /\ sigHash (E := Empty_set) h = Ok hash /\
    Ecrecover hash (drop (length (Extra h) - extraSeal) (Extra h)) = Some (x :: pub) /\ pubkey_address (x :: pub) = a.

(** The entries of the cache come from headers seen before. *)
Definition cache_sound (cache : gmap (list Z) (list Z)) (seen : list Header) : Prop :=
  forall hash a, cache !! hash = Some a -> exists h, h ∈ seen /\ hash = Header_Hash h /\ signed_by h a.

Context (h : Header) (seen : list Header).
Context (Hh : decoded_header h) (Hseen : Forall decoded_header seen) (Hnc : no_collision [header_bytes h] (map header_bytes seen)).

Lemma cache_hit cache a : cache_sound cache seen -> cache !! Header_Hash h = Some a -> signed_by h a.
Proof.
  intros Hc E. destruct (Hc _ _ E) as (h0 & Hin & Eh & Hs). rewrite Forall_forall in Hseen.
  rewrite (decoded_hash_inj h h0); [done|done|by apply Hseen| |done].
  intros x y Hx Hy. apply Hnc; [done|]. apply list_elem_of_singleton in Hy as ->. by apply list_elem_of_fmap_2.
Qed.

Lemma cache_sound_cons cache x : cache_sound cache seen -> cache_sound cache (x :: seen).
Proof. intros Hc hash a E. destruct (Hc _ _ E) as (h0 & Hin & Hs). exists h0. split; [by right|done]. Qed.

Lemma signed_by_inj a b : signed_by h a -> signed_by h b -> a = b.
Proof. intros (h1 & x1 & p1 & _ & E1 & R1 & <-) (h2 & x2 & p2 & _ & E2 & R2 & <-). congruence. Qed.

Lemma ecrecover_sound d d' a :
  cache_sound (d_signatures d) seen -> ecrecover h d = Ok (d', inr a) ->
  signed_by h a /\ exists cache, d' = set_signatures cache d /\ cache_sound cache (h :: seen).
Proof.
  intros Hc. unfold ecrecover. rewrite (sm_bind_ok _ _ d d _ eq_refl).
  destruct (d_signatures d !! Header_Hash h) as [s|] eqn:Ec.
  - intros [= <- <-]. split; [by eapply cache_hit|]. exists (d_signatures d). split; [by destruct d|by apply cache_sound_cons].
  - destruct (Nat.ltb_spec (length (Extra h)) extraSeal) as [|He]; [discriminate|].
    destruct (sigHash h) as [hash| | |] eqn:Es; [|destruct e|discriminate..]. rewrite (sm_bind_ok _ _ d d hash eq_refl).
    destruct (Ecrecover _ _) as [[|x pub]|] eqn:Er; [discriminate| |discriminate]. intros [= <- <-].
    assert (signed_by h (pubkey_address (x :: pub))) as Hs by (exists hash, x, pub; done).
    split; [done|]. eexists. split; [done|]. intros k b Hk.
    apply lookup_insert_Some in Hk as [[<- <-]|[_ Hk]]; [exists h; by split_and!; [left|..]|by apply (cache_sound_cons _ h Hc)].
Qed.

Lemma ecrecover_complete d a :
  cache_sound (d_signatures d) seen -> signed_by h a -> exists d', ecrecover h d = Ok (d', inr a).
Proof.
  intros Hc Hs. unfold ecrecover. rewrite (sm_bind_ok _ _ d d _ eq_refl).
  destruct (d_signatures d !! Header_Hash h) as [s|] eqn:Ec.
  { exists d. rewrite (signed_by_inj a s Hs); [done|by eapply cache_hit]. }
  destruct Hs as (hash & x & pub & He & Es & Er & <-). destruct (Nat.ltb_spec (length (Extra h)) extraSeal); [lia|].
  rewrite Es, (sm_bind_ok _ _ d d hash eq_refl), Er. by eexists.
Qed.

Lemma verifyBlockSigner_sound v d d' :
  cache_sound (d_signatures d) seen -> verifyBlockSigner v h d = Ok (d', inr tt) ->
  v = Validator h /\ signed_by h v /\ cache_sound (d_signatures d') (h :: seen).
Proof.
  intros Hc. unfold verifyBlockSigner. intros E. unfold mbind at 1, SM_bind at 1 in E.
  destruct (ecrecover h d) as [[d1 [e|a]]|[]| |] eqn:Er; try discriminate E.
  destruct (ecrecover_sound d d1 a Hc Er) as (Hs & cache & -> & Hc').
  destruct (bool_decide_reflect (a <> v)) as [|Ha]; [discriminate E|]. apply dec_stable in Ha as <-.
  destruct (bool_decide_reflect (a <> Validator h)) as [|Ha]; [discriminate E|]. apply dec_stable in Ha.
  injection E as <-. split_and!; [done..|]. by destruct d.
Qed.

Lemma verifyBlockSigner_complete d :
  cache_sound (d_signatures d) seen -> signed_by h (Validator h) ->
  exists d', verifyBlockSigner (Validator h) h d = Ok (d', inr tt).
Proof.
  intros Hc Hs. destruct (ecrecover_complete d _ Hc Hs) as (d' & E). exists d'. unfold verifyBlockSigner.
  rewrite (sm_bind_ok _ _ _ _ _ E). by rewrite bool_decide_false by (intros Hne; by apply Hne).
Qed.
End seals.

(** Confirming blocks leaves the signatures alone. *)
Lemma confirm_loop_signatures `{Keccak} chain genesis fuel : forall c0 cur epoch vs d d' r,
  confirm_loop fuel chain genesis c0 cur epoch vs d = Ok (d', r) -> d_signatures d' = d_signatures d.
Proof.
  induction fuel as [|fuel IH]; intros c0 cur epoch vs d d' r; [discriminate|]. cbn [confirm_loop].
  destruct (bool_decide _); [by intros [= <- _]|]. destruct (Number c0), (Number cur); try discriminate. cbn [must].
  rewrite !(sm_bind_ok _ _ d d _ eq_refl). destruct (bool_decide _); [by intros [= <- _]|].
  destruct (Time cur); [|discriminate]. destruct genesis; [|discriminate]. cbn [must]. rewrite !(sm_bind_ok _ _ d d _ eq_refl).
  destruct (bool_decide _); [by intros [= <- _]|]. destruct (bool_decide _); [rewrite store_confirmed; by intros [= <- _]|].
  destruct (GetHeaderByHash chain (ParentHash cur)); [apply IH|by intros [= <- _]].
Qed.

Lemma initial_signatures `{Keccak} chain (c : option Header) d d' r :
  (match c with
   | Some h => mret h
   | None =>
       header ← handle (loadConfirmedBlockHeader chain) (fun r =>
         match r with
         | inr h => mret h
         | inl err => match GetHeaderByNumber chain 0 with None => throw err | Some h => mret h end
         end);
       modify (set_confirmed header) ;;
       mret header
   end) d = Ok (d', r) -> d_signatures d' = d_signatures d.
Proof.
  destruct c; [by intros [= <- _]|].
  assert (exists x, loadConfirmedBlockHeader chain d = Ok (d, x)) as [x El].
  { unfold loadConfirmedBlockHeader. rewrite (sm_bind_ok _ _ d d _ eq_refl). destruct (d_db d !! _) as [key|]; [|by eexists].
    destruct (GetHeaderByHash _ _); by eexists. }
  intros [(e & E & _)|(d1 & h & E1 & E)]%sm_bind_inv.
  - rewrite (handle_run _ _ _ _ _ El) in E. destruct x; [destruct (GetHeaderByNumber chain 0)|]; by injection E as <- _.
  - injection E as <- _. rewrite (handle_run _ _ _ _ _ El) in E1.
    destruct x; [destruct (GetHeaderByNumber chain 0)|]; by injection E1 as <- _.
Qed.

Lemma updateConfirmed_signatures `{Keccak} fuel chain d d' r :
  updateConfirmedBlockHeader fuel chain d = Ok (d', r) -> d_signatures d' = d_signatures d.
Proof.
  unfold updateConfirmedBlockHeader. rewrite (sm_bind_ok _ _ d d _ eq_refl). intros E.
  apply sm_bind_inv in E as [(e & E & _)|(d1 & c & E1 & E)].
  - by apply initial_signatures in E.
  - apply initial_signatures in E1 as <-. destruct (CurrentHeader chain); [|discriminate]. cbn [must] in E.
    rewrite (sm_bind_ok _ _ d1 d1 _ eq_refl) in E. by apply confirm_loop_signatures in E.
Qed.

Section verify_seal.
Context `{Keccak, Ecdsa} (dbnode : list Z -> Z -> option node) (Hdb : db_coherent dbnode) (fuel : nat) (chain : ChainReader).

(** What is known when the seal of [h] is checked: the parent's context is in the
    database and holds the validators [vs]; the recovered signers come from
    [seen], and the hash function does not collide on [h] and [seen]. *)
Record seal_setting (h genesis parent : Header) (parents seen : list Header) (vs : list (list Z)) (d : Dpos) : Prop := {
  ss_parent : parent_in chain parents h = Some parent;
  ss_context : exists p ctx a, h_DposContext parent = Some p /\ NewDposContextFromProto dbnode p = Ok ctx /\
                 rep dbnode ctx a /\ has_validators a vs;
  ss_validators : vs <> [];
  ss_interval : 0 < BlockInterval genesis < 2 ^ 63;
  ss_time : 0 <= default 0 (Time h) < 2 ^ 63;
  ss_header : decoded_header h;
  ss_seen : Forall decoded_header seen;
  ss_collision : no_collision [header_bytes h] (map header_bytes seen);
  ss_cache : cache_sound (d_signatures d) seen
}.

(** The validator of the slot of [h]. *)
Definition slot_owner (h genesis : Header) (vs : list (list Z)) (v : list Z) : Prop :=
  let t := default 0 (Time h) mod epochInterval in
  t mod BlockInterval genesis = 0 /\ vs !! Z.to_nat (t / BlockInterval genesis mod Z.of_nat (length vs)) = Some v.

Lemma lookup_slot h genesis parent parents seen vs d :
  seal_setting h genesis parent parents seen vs d ->
  exists r, with_context dbnode (h_DposContext parent)
    (time ← must (Time h); lookupValidator dbnode (big_Int64 time) (BlockInterval genesis)) d = Ok (d, r) /\
    forall v, r = inr v <-> slot_owner h genesis vs v.
Proof.
  intros [_ (p & ctx & a & Ep & Ec & Hr & Hv) Hne Hbi Ht [_ (_ & _ & [t Et]) _] _ _ _].
  unfold with_context, slot_owner. rewrite Ep, Ec, Et in *. cbn [must default from_option] in *. unfold id in *.
  rewrite (sm_bind_ok _ _ ctx ctx _ eq_refl). destruct (big_small t Ht) as [_ ->].
  destruct (lookupValidator_ok dbnode Hdb t (BlockInterval genesis) vs ctx a Hr Hv Hne ltac:(lia) Hbi) as (ctx' & _ & _ & ->).
  eexists. split; [done|]. intros v. destruct (bool_decide_reflect (t mod epochInterval mod BlockInterval genesis <> 0)) as [Hm|Hm].
  - split; [done|]. by intros [? _].
  - apply dec_stable in Hm. destruct (vs !! _); naive_solver.
Qed.

(** C4: safety.  A seal that [verifySeal] accepts was made, over the signing hash of
    the header, by the account the header names as its validator; this is the
    validator of the slot among those of the parent's epoch, and the time of the
    header is the start of a slot.  The cache of signers only speeds this up: its
    entries remain truthful. *)
Theorem seal_verified h genesis parent parents seen vs d d' :
  seal_setting h genesis parent parents seen vs d ->
  verifySeal dbnode fuel chain h genesis parents d = Ok (d', inr tt) ->
  signed_by h (Validator h) /\ slot_owner h genesis vs (Validator h) /\ cache_sound (d_signatures d') (h :: seen).
Proof.
  intros Hset. pose proof Hset as [Hp _ _ _ _ Hh Hse Hnc Hc]. unfold verifySeal.
  destruct (dh_full h Hh) as (_ & [n En] & _). unfold parent_in in Hp. rewrite En in *. cbn [must mbind option_bind] in *.
  rewrite (sm_bind_ok _ _ d d _ eq_refl). destruct (bool_decide _); [discriminate|].
  rewrite Hp. cbn [must]. rewrite (sm_bind_ok _ _ d d _ eq_refl).
  destruct (lookup_slot _ _ _ _ _ _ _ Hset) as (r & El & Hr). intros E.
  apply sm_bind_inv in E as [(e & _ & [=])|(d1 & v & E1 & E)]. rewrite El in E1. injection E1 as <- ->.
  apply sm_bind_inv in E as [(e & _ & [=])|(d2 & [] & E2 & E)].
  destruct (verifyBlockSigner_sound h seen Hh Hse Hnc v d d2 Hc E2) as (-> & Hs & Hc').
  split_and!; [done|by apply Hr|]. by rewrite (updateConfirmed_signatures _ _ _ _ _ E).
Qed.
End verify_seal.

(** A database with one trie of one entry. *)
Definition leaf_node (k v : list Z) (g : Z) : node := ShortNode (keybytesToHex k) (ValueNode v) (newFlag g).
Definition leaf_db `{Keccak} (k v : list Z) (h : list Z) (g : Z) : option node :=
  if bool_decide (h = merkle_root (leaf_node k v 0)) then Some (leaf_node k v g) else None.

Lemma leaf_db_coherent `{Keccak} k v : db_coherent (leaf_db k v).
Proof.
  intros h g n. unfold leaf_db. case_bool_decide; [|done]. intros [= <-]. split; [|done].
  apply coherent_short. constructor.
Qed.

Lemma leaf_sound `{Keccak} dbnode k v rt pfx g l :
  bytes_ok k -> v <> [] -> sound dbnode (mkTrie (leaf_node k v g) rt pfx g l) {[ k := v ]}.
Proof.
  intros Hk Hv. split; [|apply coherent_short; constructor]. split; cbn [root cachegen leaf_node].
  - right. unfold leaf_node. rewrite keybytesToHex_nibbles. constructor; [by apply key_nibbles_ok|done].
  - intros k' v' [<- _]%lookup_singleton_Some. done.
  - intros hk w. unfold leaf_node. rewrite has_short_iff. setoid_rewrite has_value_iff. setoid_rewrite lookup_singleton_Some. split.
    + intros (k' & -> & -> & ->). exists k. by rewrite app_nil_r.
    + intros (k' & -> & <- & <-). exists []. by rewrite app_nil_r.
Qed.

Definition owner_seal : list Z := zeroes 64 ++ [1].
Definition owner : list Z := @pubkey_address poly_keccak (4 :: owner_seal).
Definition owner_record : list Z := encode_item (Lst (map Str [owner])).
Definition owner_db : list Z -> Z -> option node := @leaf_db poly_keccak validator_key owner_record.
Definition owner_proto : DposContextProto :=
  mkProto (@merkle_root poly_keccak (leaf_node validator_key owner_record 0)) emptyHash emptyHash emptyHash emptyHash.
Definition owner_parent : Header := set_proto owner_proto sample_genesis.
Definition owner_block : Header := set_extra (zeroes 32 ++ owner_seal) (@sample_child poly_keccak owner_parent owner 1 60).
Definition owner_chain : ChainReader := sample_chain sample_genesis (fun _ => Some owner_parent).

Lemma owner_context :
  exists ctx a, NewDposContextFromProto owner_db owner_proto = Ok ctx /\ @rep poly_keccak owner_db ctx a /\
    has_validators a [owner].
Proof.
  exists (mkDposContext (mkTrie (leaf_node validator_key owner_record 0) (EpochHash owner_proto) (Some epochPrefix) 0 0)
    (mkTrie Nil emptyHash (Some delegatePrefix) 0 0) (mkTrie Nil emptyHash (Some votePrefix) 0 0)
    (mkTrie Nil emptyHash (Some candidatePrefix) 0 0) (mkTrie Nil emptyHash (Some mintCntPrefix) 0 0) true).
  exists (mkMaps {[ validator_key := owner_record ]} ∅ ∅ ∅ ∅). split_and!.
  - vm_compute. reflexivity.
  - intros []; cbn [get_trie get_map]; [apply leaf_sound; [apply validator_key_ok|vm_compute; discriminate]|..];
      (constructor; [apply represents_empty; reflexivity|exact I]).
  - split; [apply lookup_singleton_eq|]. split; [|simpl; lia].
    constructor; [apply (bool_decide_unpack (address_ok owner)); vm_compute; exact I|constructor].
Qed.

Lemma owner_setting :
  @seal_setting poly_keccak toy_ecdsa owner_db owner_chain owner_block sample_genesis owner_parent [] [] [owner] (Dpos_New ∅ []).
Proof.
  destruct owner_context as (ctx & a & Ec & Hr & Hv). split.
  - reflexivity.
  - exists owner_proto, ctx, a. exact (conj eq_refl (conj Ec (conj Hr Hv))).
  - discriminate.
  - simpl. lia.
  - simpl. lia.
  - split; [constructor; unfold in_uint64; simpl; lia|split; [|split]; eexists; reflexivity|vm_compute; reflexivity].
  - constructor.
  - intros x y _ Hy. destruct (proj1 (elem_of_nil y) Hy).
  - intros k s E. destruct (lookup_empty_Some _ _ E).
Qed.

Definition accepted {S E} (r : outcome Empty_set (S * (E + unit))) : bool :=
  match r with Ok (_, inr tt) => true | _ => false end.

Lemma accepted_ok {S E} (r : outcome Empty_set (S * (E + unit))) : accepted r = true -> exists s, r = Ok (s, inr tt).
Proof. destruct r as [[s [e|[]]]|[]| |]; try discriminate. eauto. Qed.

Lemma seal_verified_witness : @signed_by poly_keccak toy_ecdsa owner_block owner.
Proof.
  destruct (accepted_ok (@verifySeal poly_keccak toy_ecdsa owner_db 1 owner_chain owner_block sample_genesis [] (Dpos_New ∅ [])))
    as [d' E]; [vm_compute; reflexivity|].
  exact (proj1 (@seal_verified poly_keccak toy_ecdsa owner_db (leaf_db_coherent _ _) 1 owner_chain owner_block sample_genesis
    owner_parent [] [] [owner] (Dpos_New ∅ []) d' owner_setting E)).
Defined.

(** ** Made blocks are accepted *)

Section making.
Context `{Keccak, Ecdsa}.

(** A prepared header: the vanity is kept, the seal is still zero. *)
Record prepared (signer : list Z) (h h' : Header) : Prop := {
  pp_extra : Extra h' = take extraVanity (Extra h ++ zeroes (extraVanity - length (Extra h))) ++ zeroes extraSeal;
  pp_rest : h' = set_prepared (Extra h') (Some 1) signer (zeroes NonceLength) h
}.

Lemma Prepare_ok chain signer h parent n t :
  Number h = Some n -> Time h = Some t -> GetHeader chain (ParentHash h) (u64 (big_Uint64 n - 1)) = Some parent ->
  exists h', Prepare chain signer h = Ok (h', inr tt) /\ prepared signer h h'.
Proof.
  intros En Et Ep. unfold Prepare, mbind, SM_bind. cbn. rewrite En. cbn. rewrite Ep. cbn. rewrite Et. cbn.
  eexists. split; [done|]. by split.
Qed.

Lemma prepared_length signer h h' : prepared signer h h' -> length (Extra h') = (extraVanity + extraSeal)%nat.
Proof.
  intros [-> _]. rewrite length_app, length_take, length_app. unfold zeroes. rewrite !length_replicate. unfold extraVanity, extraSeal. lia.
Qed.

Lemma sigHash_seal {E} h sig :
  (extraSeal <= length (Extra h))%nat -> length sig = extraSeal ->
  sigHash (E := E) (set_extra (take (length (Extra h) - extraSeal) (Extra h) ++ sig) h) = sigHash h.
Proof.
  intros He Hs. unfold sigHash, set_extra, set_prepared. cbn [Extra h_DposContext]. unfold extraSeal in *.
  rewrite length_app, length_take, Hs. rewrite !bool_decide_false by lia.
  replace (take _ (take _ _ ++ sig)) with (take (length (Extra h) - 65) (Extra h)); [done|].
  rewrite take_app_le, take_take by (rewrite length_take; lia). f_equal. lia.
Qed.

(** A key store that signs for [signer]. *)
Definition signs_for (signFn : list Z -> list Z -> string + list Z) (signer : list Z) : Prop :=
  forall hash, exists sig x pub, signFn signer hash = inr sig /\ length sig = extraSeal /\
    Ecrecover hash sig = Some (x :: pub) /\ pubkey_address (x :: pub) = signer.

Lemma Seal_ok signFn chain genesis now b d n :
  signs_for signFn (d_signer d) -> GetHeaderByNumber chain 0 = Some genesis -> i64 (BlockInterval genesis) <> 0 ->
  Number (b_header b) = Some n -> big_Uint64 n <> 0 -> (extraSeal <= length (Extra (b_header b)))%nat ->
  exists sig, length sig = extraSeal /\
    let h := CopyHeader (b_header b) in
    let h' := set_extra (take (length (Extra h) - extraSeal) (Extra h) ++ sig) h in
    Seal signFn chain now false b d = Ok (d, inr (Some (WithSeal b h'))) /\ signed_by h' (d_signer d).
Proof.
  intros Hsig Hg Hi En Hn He. set (h := CopyHeader (b_header b)). assert (Number h = Some n) as En' by (simpl; by rewrite En).
  change (Extra (b_header b)) with (Extra h) in He.
  assert (exists hash, forall E, sigHash (E := E) h = Ok hash) as [hash Eh].
  { unfold sigHash. rewrite bool_decide_false by (unfold extraSeal in He; lia). cbn. by eexists. }
  destruct (Hsig hash) as (sig & x & pub & Es & Hl & Er & Ea). exists sig. split; [done|]. intros h0 h'. subst h0.
  split.
  - unfold Seal, block_Header. fold h. rewrite En'. cbn [must]. rewrite (sm_bind_ok _ _ d d _ eq_refl), bool_decide_false by done.
    rewrite Hg. cbn [must]. rewrite (sm_bind_ok _ _ d d _ eq_refl). unfold NextSlot. rewrite bool_decide_false by done.
    rewrite (sm_bind_ok _ _ d d _ eq_refl), andb_false_r, (sm_bind_ok _ _ d d _ eq_refl), Eh, (sm_bind_ok _ _ d d _ eq_refl), Es.
    rewrite (take_ge sig), (drop_ge (drop _ _)) by (rewrite ?length_drop; lia). by rewrite app_nil_r.
  - exists hash, x, pub. unfold h'. rewrite sigHash_seal by done. cbn [Extra set_extra set_prepared].
    rewrite length_app, length_take, Hl. rewrite drop_app_length' by (rewrite length_take; lia). split_and!; [lia|done..].
Qed.

(** C35: functional.  The blocks an engine makes pass its own check.  [Prepare]
    succeeds on a header whose parent is stored, keeps 32 bytes of extra data, and
    enters the engine's account as the validator; [Seal] signs any block with that
    extra data and validator, changing nothing but the last 65 bytes of it, and the
    sealed header is accepted by [verifyBlockSigner] of every engine. *)
Theorem sealed_accepted signFn chain genesis parent now h n t d :
  signs_for signFn (d_signer d) -> GetHeaderByNumber chain 0 = Some genesis -> i64 (BlockInterval genesis) <> 0 ->
  Number h = Some n -> big_Uint64 n <> 0 -> Time h = Some t -> GetHeader chain (ParentHash h) (u64 (big_Uint64 n - 1)) = Some parent ->
  exists h1, Prepare chain (d_signer d) h = Ok (h1, inr tt) /\ prepared (d_signer d) h h1 /\
    forall b, Extra (b_header b) = Extra h1 -> Validator (b_header b) = Validator h1 -> Number (b_header b) = Number h1 ->
    exists sig b', length sig = extraSeal /\ Seal signFn chain now false b d = Ok (d, inr (Some b')) /\
      b_header b' = set_extra (take extraVanity (Extra h1) ++ sig) (CopyHeader (b_header b)) /\
      forall seen d2, decoded_header (b_header b') -> Forall decoded_header seen ->
        no_collision [header_bytes (b_header b')] (map header_bytes seen) -> cache_sound (d_signatures d2) seen ->
        exists d3, verifyBlockSigner (d_signer d) (b_header b') d2 = Ok (d3, inr tt).
Proof.
  intros Hsig Hg Hi En Hn Et Hp. destruct (Prepare_ok chain (d_signer d) h parent n t En Et Hp) as (h1 & E1 & P1).
  exists h1. split_and!; [done|done|]. intros b He Hv Hnum. pose proof (prepared_length _ _ _ P1) as Hl.
  destruct P1 as [_ Hr]. destruct (Seal_ok signFn chain genesis now b d n Hsig Hg Hi) as (sig & Hs & E & Hsb); [|done|rewrite He; unfold extraSeal, extraVanity in *; lia|].
  { rewrite Hnum, Hr. done. }
  eexists sig, _. split_and!; [done|exact E| |].
  - cbn [b_header WithSeal Extra CopyHeader]. rewrite He, Hl. done.
  - intros seen d2 Hd Hse Hnc Hc. cbn [b_header WithSeal] in *.
    assert (Validator (b_header b) = d_signer d) as Ev by by rewrite Hv, Hr.
    rewrite <- Ev in Hsb |- *. by apply (verifyBlockSigner_complete _ seen Hd Hse Hnc).
Qed.
End making.

Lemma sealed_accepted_witness :
  let d := Authorize owner (Dpos_New ∅ []) in
  let chain := sample_chain owner_parent (fun _ => Some owner_parent) in
  exists h1 b', Prepare chain owner (@sample_child poly_keccak owner_parent (addr 7) 1 60) = Ok (h1, inr tt) /\
    @Seal poly_keccak (fun _ _ => inr owner_seal) chain 55 false (NewBlockWithHeader h1) d = Ok (d, inr (Some b')).
Proof.
  intros d chain.
  destruct (@sealed_accepted poly_keccak toy_ecdsa (fun _ _ => inr owner_seal) chain sample_genesis owner_parent 55
    (@sample_child poly_keccak owner_parent (addr 7) 1 60) 1 60 d) as (h1 & E1 & P1 & Hs).
  - intros hash. exists owner_seal, 4, owner_seal. split_and!; reflexivity.
  - reflexivity.
  - vm_compute. discriminate.
  - reflexivity.
  - vm_compute. discriminate.
  - reflexivity.
  - reflexivity.
  - destruct (Hs (NewBlockWithHeader h1)) as (sig & b' & _ & Es & _); [reflexivity|reflexivity| |].
    + destruct P1 as [_ Hr]. rewrite Hr. reflexivity.
    + exists h1, b'. exact (conj E1 Es).
Defined.

(** ** Mint counts *)

Section minting.
Context `{Keccak} (dbnode : list Z -> Z -> option node) (Hdb : db_coherent dbnode).

(** The count that [updateMintCnt] writes, and the maps after it. *)
Definition minted (pt ct : Z) (v : list Z) (a : dpos_maps) : Z :=
  if bool_decide (Z.quot pt epochInterval = Z.quot ct epochInterval)
  then i64 (mint_count a (Z.quot ct epochInterval) v + 1) else 1.
Definition mint_maps (pt ct : Z) (v : list Z) (a : dpos_maps) : dpos_maps :=
  set_map FMintCnt (<[PutUint64 (Z.quot ct epochInterval) ++ v := PutUint64 (minted pt ct v a)]> (mMintCnt a)) a.

Lemma PutUint64_ok z : bytes_ok (PutUint64 z) /\ length (PutUint64 z) = 8%nat.
Proof. split; [apply be_bytes_ok|apply length_be_bytes]. Qed.

(** The number of minted blocks as the code reads it: the iterator finds an entry
    whenever there is a count to read. *)
Lemma next_count_ok e v d a :
  rep dbnode d a -> clash_free (mintCntTrie d) -> mints_ok a -> address_ok v ->
  exists d' N, rep dbnode d' a /\ framed d d' /\ forall fuel, (N <= fuel)%nat ->
    next_count dbnode fuel e v d = Ok (d', inr (i64 (mint_count a e v + 1))).
Proof.
  intros Hr Hc Hm [Hvl Hv]. set (k := PutUint64 e ++ v). destruct (PutUint64_ok e) as [He _].
  assert (bytes_ok k) as Hk by by apply bytes_ok_app.
  destruct (node_iterator_entries dbnode (cachegen (mintCntTrie d)) (mintCntTrie d) (mMintCnt a) (PutUint64 e))
    as (es & t & N & Hes & Hs & Hg & Hp & _ & Hit); [apply (Hr FMintCnt)|done|done|].
  set (d1 := set_trie FMintCnt t d).
  assert (rep dbnode d1 a) as R1 by (rewrite <- (set_get_map FMintCnt a); by apply rep_set).
  assert (framed d d1) as F1 by by apply framed_set.
  destruct (get_mint dbnode Hdb k d1 a R1 Hk) as (d2 & E2 & R2 & F2).
  assert (es = [] -> mMintCnt a !! k = None) as Hempty.
  { intros ->. apply eq_None_not_Some. intros [b Hb]. apply (elem_of_nil (k, b)). apply Hes. split; [done|].
    apply path_prefix_not_lt, nibbles_prefix; [done..|]. by apply prefix_app_r. }
  exists (if bool_decide (es = []) then d1 else d2), N.
  split; [by case_bool_decide|]. split; [case_bool_decide; eauto using framed_trans|]. intros fuel Hf.
  destruct (Hit fuel Hf) as (it & Ei & Hl). unfold next_count. rewrite (sm_bind_ok _ _ d d1 (PlainIt it)).
  2:{ unfold on_trie, node_iterator. cbn [get_trie]. by rewrite Ei. }
  destruct (loops_over_next dbnode fuel (PlainIt it) es (Hl (S fuel) ltac:(lia))) as (ni & En). rewrite En.
  erewrite sm_bind_ok by done. unfold mint_count. fold k. destruct es as [|e0 es].
  - rewrite bool_decide_true, (Hempty eq_refl) by done. done.
  - rewrite bool_decide_false by done. cbn [head]. rewrite (sm_bind_ok _ _ _ _ _ E2).
    destruct (mMintCnt a !! k) as [b|] eqn:Eb; [|done]. unfold Uint64. rewrite (Hm k b Eb). cbn [Nat.ltb Nat.leb].
    by erewrite sm_bind_ok by done.
Qed.

Lemma updateMintCnt_ok pt ct v d a :
  rep dbnode d a -> clash_free (mintCntTrie d) -> mints_ok a -> address_ok v ->
  exists d' N, rep dbnode d' (mint_maps pt ct v a) /\ framed d d' /\
    forall fuel, (N <= fuel)%nat -> updateMintCnt dbnode fuel pt ct v d = Ok (d', inr tt).
Proof.
  intros Hr Hc Hm Hv. pose proof Hv as [_ Hvb]. destruct (PutUint64_ok (Z.quot ct epochInterval)) as [He _].
  assert (exists d1 N, rep dbnode d1 a /\ framed d d1 /\ forall fuel, (N <= fuel)%nat ->
    (if bool_decide (Z.quot pt epochInterval = Z.quot ct epochInterval) then next_count dbnode fuel (Z.quot pt epochInterval) v
     else mret 1) d = Ok (d1, inr (minted pt ct v a))) as (d1 & N & R1 & F1 & E1).
  { unfold minted. case_bool_decide as Heq; [rewrite Heq; by apply next_count_ok|]. exists d, 0%nat. done. }
  destruct (try_update_ok dbnode Hdb FMintCnt (PutUint64 (Z.quot ct epochInterval) ++ v) (PutUint64 (minted pt ct v a)) d1 a R1)
    as (d2 & E2 & R2 & F2); [by apply bytes_ok_app|].
  exists d2, N. split_and!.
  - unfold mint_maps. rewrite put_nonempty in R2; [done|]. intros E%(f_equal length). by rewrite (proj2 (PutUint64_ok _)) in E.
  - eauto using framed_trans.
  - intros fuel Hf. unfold updateMintCnt. rewrite (sm_bind_ok _ _ _ _ _ (E1 fuel Hf)). by rewrite (handle_run _ _ _ _ _ E2).
Qed.

Lemma PutUint64_inj x y : 0 <= x < 2 ^ 64 -> 0 <= y < 2 ^ 64 -> PutUint64 x = PutUint64 y -> x = y.
Proof.
  intros Hx Hy E%(f_equal be_uint). unfold PutUint64 in E. rewrite !be_uint_be_bytes, !wrapU_small in E by lia.
  change (256 ^ Z.of_nat 8) with (2 ^ 64) in E. by rewrite !Z.mod_small in E by lia.
Qed.

Lemma mints_ok_mint pt ct v a : mints_ok a -> mints_ok (mint_maps pt ct v a).
Proof.
  intros Hm k b. unfold mint_maps. cbn [mMintCnt set_map]. intros [[_ <-]|[_ Hk]]%lookup_insert_Some; [apply PutUint64_ok|by apply (Hm k)].
Qed.

Lemma mint_count_mint pt ct v a :
  0 <= minted pt ct v a < 2 ^ 63 -> mint_count (mint_maps pt ct v a) (Z.quot ct epochInterval) v = minted pt ct v a.
Proof.
  intros Hc. unfold mint_count, mint_maps. cbn [mMintCnt set_map]. rewrite lookup_insert_eq. rewrite take_ge by (rewrite (proj2 (PutUint64_ok (minted pt ct v a))); lia).
  unfold PutUint64. rewrite be_uint_be_bytes, wrapU_small by lia. rewrite Z.mod_small by (simpl; lia).
  apply i64_small. unfold in_i64. lia.
Qed.

Lemma mint_count_other pt ct v a e' v' :
  0 <= ct < 2 ^ 63 -> 0 <= e' < 2 ^ 64 -> (e', v') <> (Z.quot ct epochInterval, v) ->
  mint_count (mint_maps pt ct v a) e' v' = mint_count a e' v'.
Proof.
  intros Hct He Hne. unfold mint_count, mint_maps. cbn [mMintCnt set_map]. rewrite lookup_insert_ne; [done|]. intros E.
  apply app_inj_1 in E as [E ->]; [|by rewrite (proj2 (PutUint64_ok e')), (proj2 (PutUint64_ok (Z.quot ct epochInterval)))]. apply Hne. f_equal.
  symmetry. apply PutUint64_inj; [|done|done]. unfold epochInterval. rewrite Z.quot_div_nonneg by lia.
  pose proof (Z.div_pos ct 60 ltac:(lia) ltac:(lia)). pose proof (Z.div_le_upper_bound ct 60 ct ltac:(lia) ltac:(lia)). lia.
Qed.

(** [updateMintCnt] counts the blocks of an epoch: the validator of
    the new block gets one more than before if the parent block is in the same epoch,
    and one if the block opens an epoch; the counts of the other validators and
    epochs, and the other tries, are untouched. *)
Theorem mint_count_updated pt ct v d a :
  rep dbnode d a -> clash_free (mintCntTrie d) -> mints_ok a -> address_ok v -> 0 <= ct < 2 ^ 63 ->
  let e := Z.quot ct epochInterval in 0 <= mint_count a e v < 2 ^ 63 - 1 ->
  exists d' a' N, (forall fuel, (N <= fuel)%nat -> updateMintCnt dbnode fuel pt ct v d = Ok (d', inr tt)) /\
    rep dbnode d' a' /\ mints_ok a' /\
    mint_count a' e v = (if bool_decide (Z.quot pt epochInterval = e) then mint_count a e v + 1 else 1) /\
    (forall e' v', 0 <= e' < 2 ^ 64 -> (e', v') <> (e, v) -> mint_count a' e' v' = mint_count a e' v') /\
    forall f, f <> FMintCnt -> get_map f a' = get_map f a.
Proof.
  intros Hr Hc Hm Hv Hct e Hn. destruct (updateMintCnt_ok pt ct v d a Hr Hc Hm Hv) as (d' & N & R & _ & E).
  assert (minted pt ct v a = if bool_decide (Z.quot pt epochInterval = e) then mint_count a e v + 1 else 1) as Hmi.
  { unfold minted. fold e. case_bool_decide; [|done]. apply i64_small. unfold in_i64. lia. }
  exists d', (mint_maps pt ct v a), N. split_and!; [done|done|by apply mints_ok_mint| |intros; by apply mint_count_other|].
  - rewrite <- Hmi. apply mint_count_mint. rewrite Hmi. case_bool_decide; lia.
  - intros f Hf. unfold mint_maps. rewrite get_set_map. by rewrite bool_decide_false.
Qed.
End minting.

(** The first block of the first epoch. *)
Lemma mint_count_updated_witness :
  exists d' a' N, (forall fuel, (N <= fuel)%nat -> @updateMintCnt tag_keccak no_db fuel 0 10 (addr 5) fresh_context = Ok (d', inr tt)) /\
    @rep tag_keccak no_db d' a' /\ mints_ok a' /\ mint_count a' 0 (addr 5) = 1.
Proof.
  pose proof (@rep_fresh tag_keccak no_db) as R.
  destruct (@mint_count_updated tag_keccak no_db no_db_coherent 0 10 (addr 5) fresh_context empty_maps R) as (d' & a' & N & E & R' & M & C & _).
  - exact (tag_clash_free _ _ _ no_db_coherent (R FMintCnt)).
  - intros k b Hk. destruct (lookup_empty_Some _ _ Hk).
  - apply addr_ok. unfold is_byte. lia.
  - lia.
  - vm_compute. split; [discriminate|reflexivity].
  - exists d', a', N. exact (conj E (conj R' (conj M C))).
Defined.

(** ** Finalisation: theorem *)

Section finalization.
Context `{Keccak, Rand} (dbnode : list Z -> Z -> option node) (Hdb : db_coherent dbnode) (Hnc : no_clash dbnode).
Context (codedb : list Z -> option (list Z)) (it : iteration) (Hit : iteration_ok it) (chain : ChainReader).

(** The balances of a world, and the world after the reward. *)
Definition balance_in (w : world) (a : list Z) : Z := from_option v_balance 0 (w_acct w a).
Definition rewarded (h : Header) (w : world) : world :=
  update_acct (Coinbase h) (fun v => with_balance (v_balance v + blockReward (Config chain) h) v) w.

Lemma rewarded_balance h w a :
  balance_in (rewarded h w) a = balance_in w a + (if bool_decide (Coinbase h = a) then blockReward (Config chain) h else 0).
Proof.
  unfold balance_in, rewarded, update_acct, acct_of. simpl. destruct (decide (Coinbase h = a)) as [<-|Hne].
  - rewrite !bool_decide_true by done. by destruct (w_acct w (Coinbase h)).
  - rewrite !bool_decide_false by done. lia.
Qed.

(** The time of the first block, as far as it is known. *)
Definition first_time (t : Z) : Z :=
  if bool_decide (t = 0) then from_option (fun h => big_Int64 (default 0 (Time h))) 0 (GetHeaderByNumber chain 1) else t.

(** The maps and the result of the election at a block. *)
Definition election (bal : list Z -> Z) (genesis parent : Header) (pt ts : Z) (d : DposContext) (a : dpos_maps)
  : dpos_maps * (dpos_error + unit) :=
  if bool_decide (EpochContext.epoch_of ts <= EpochContext.epoch_of pt) then (a, inr tt)
  else elect_result (MaxValidatorSize genesis) (Header_Hash parent) (EpochContext.epoch_of ts - 1) (votes_of bal d a) a.

Lemma election_mints bal genesis parent pt ts d a : mMintCnt (election bal genesis parent pt ts d a).1 = mMintCnt a.
Proof. unfold election, elect_result. repeat case_bool_decide; try done. destruct (elected _ _ _ _); [|done]. by unfold map_elected. Qed.

Lemma settle_ok s s1 st root :
  AccumulateRewards dbnode (Config chain) (f_header s) (f_state s) = Ok (s1, inr tt) ->
  IntermediateRoot dbnode it (IsEIP158 (Config chain) (Number (f_header s))) s1 = Ok (st, inr root) ->
  settle dbnode it chain s = Ok (mkFin st (f_ctx s) (set_root root (f_header s)) (f_timeOfFirstBlock s), inr tt).
Proof.
  intros E1 E2. unfold settle. rewrite (sm_bind_ok _ _ _ _ _ eq_refl).
  erewrite sm_bind_ok by (unfold on_state; by rewrite E1). erewrite sm_bind_ok by (unfold on_state; cbn [f_state]; by rewrite E2). done.
Qed.

Lemma note_first_block_ok s :
  (forall h, GetHeaderByNumber chain 1 = Some h -> is_Some (Time h)) ->
  note_first_block chain s = Ok (mkFin (f_state s) (f_ctx s) (f_header s) (first_time (f_timeOfFirstBlock s)), inr tt).
Proof.
  intros Hf. destruct s as [st ctx h t]. unfold note_first_block, first_time. rewrite (sm_bind_ok _ _ _ _ _ eq_refl). cbn [f_state f_ctx f_header f_timeOfFirstBlock].
  case_bool_decide as E; [|done]. destruct (GetHeaderByNumber chain 1) as [f|] eqn:E1; [|by rewrite E].
  destruct (Hf f eq_refl) as [x Ex]. cbn [from_option]. by rewrite Ex.
Qed.

Lemma on_ctx_ok {A} (m : DM A) s ctx r :
  m (f_ctx s) = Ok (ctx, r) -> on_ctx m s = Ok (mkFin (f_state s) ctx (f_header s) (f_timeOfFirstBlock s), r).
Proof. intros E. unfold on_ctx. by rewrite E. Qed.

Lemma NewBlock_ok h txs uncles receipts rlps :
  list_ok (map tx_GetRlp txs) -> mapM receipt_GetRlp receipts = Ok rlps -> list_ok rlps ->
  exists b tx rc bloom un, NewBlock h txs uncles receipts = Ok b /\ DeriveSha (map tx_GetRlp txs) = Ok tx /\
    DeriveSha rlps = Ok rc /\ b_transactions b = txs /\ b_header b = set_body_hashes tx rc bloom un (CopyHeader h).
Proof.
  intros Ht Er Hr. destruct (derive_sha_ok _ Ht) as [tx Et], (derive_sha_ok _ Hr) as [rc Erc].
  destruct (CreateBloom_ok receipts) as [bl Ebl].
  unfold NewBlock. rewrite Et. cbn [mbind outcome_bind]. rewrite Er. cbn [mbind outcome_bind].
  rewrite Erc. cbn [mbind outcome_bind]. rewrite Ebl. destruct receipts; cbn [mbind outcome_bind]; eexists _, tx, rc, _, _; done.
Qed.

(** What [Finalize] is given: the header, its parent and the genesis block; the
    context, which holds the maps [a]; transactions and receipts that encode. *)
Record final_setting (s : finalization) (genesis parent : Header) (gt pt ts : Z) (a : dpos_maps)
  (txs : list txdata) (receipts : list Receipt) (rlps : list (list Z)) : Prop := {
  fs_genesis : GetHeaderByNumber chain 0 = Some genesis /\ Time genesis = Some gt /\ 0 <= gt < 2 ^ 63;
  fs_parent : GetHeaderByHash chain (ParentHash (f_header s)) = Some parent /\ Time parent = Some pt /\ 0 <= pt < 2 ^ 63;
  fs_time : Time (f_header s) = Some ts /\ 0 <= ts < 2 ^ 63;
  fs_first : forall h, GetHeaderByNumber chain 1 = Some h -> is_Some (Time h);
  fs_max : 0 <= MaxValidatorSize genesis < 2 ^ 31;
  fs_validator : address_ok (Validator (f_header s));
  fs_rep : rep dbnode (f_ctx s) a /\ ballot a /\ mints_ok a;
  fs_db : has_db (f_ctx s) = true;
  fs_prefixes : bytes_ok (default [] (tprefix (delegateTrie (f_ctx s)))) /\ bytes_ok (default [] (tprefix (mintCntTrie (f_ctx s))));
  fs_epoch : EpochContext.epoch_of ts <= EpochContext.epoch_of pt \/ EpochContext.epoch_of pt = EpochContext.epoch_of gt \/
    (EpochContext.epoch_of ts = EpochContext.epoch_of pt + 1 /\ no_mints (f_ctx s) a (EpochContext.epoch_of pt));
  fs_txs : list_ok (map tx_GetRlp txs);
  fs_receipts : mapM receipt_GetRlp receipts = Ok rlps /\ list_ok rlps
}.

Lemma election_ok bal first s genesis parent gt pt ts a txs receipts rlps :
  final_setting s genesis parent gt pt ts a txs receipts rlps ->
  let r := election bal genesis parent pt ts (f_ctx s) a in
  exists d N, rep dbnode d r.1 /\
    forall fuel, (N <= fuel)%nat -> tryElect dbnode bal fuel ts first genesis parent (f_ctx s) = Ok (d, r.2).
Proof.
  intros [(_ & Eg & Hg) (_ & Ep & Hp) [_ Ht] _ Hm _ (R & B & _) Hd [P1 P2] He _ _] r.
  destruct (tryElect_ok dbnode Hdb bal ts first genesis parent gt pt (f_ctx s) a) as (d & N & Hsame & Hnew); try done.
  { split_and!; [by apply (Hnc _ _ (R FCandidate))|by apply (Hnc _ _ (R FDelegate))|done]. }
  { by apply (Hnc _ _ (R FMintCnt)). }
  exists d, N. unfold r, election. case_bool_decide as Hle; [by apply Hsame|]. apply Hnew; [lia|]. destruct He as [?|He]; [lia|exact He].
Qed.

(** The end of [Finalize], after the election. *)
Definition finish (fuel : nat) (pt ts : Z) (v : list Z) (txs : list txdata) (uncles : list Header) (receipts : list Receipt)
  : SM finalization dpos_error Block :=
  on_ctx (updateMintCnt dbnode fuel pt ts v) ;;
  proto ← on_ctx ToProto;
  on_header (set_proto proto) ;;
  header ← gets f_header;
  pure ETrie (NewBlock header txs uncles receipts).

Lemma Finalize_start fuel s genesis parent gt pt ts a txs uncles receipts rlps s1 root st :
  final_setting s genesis parent gt pt ts a txs receipts rlps ->
  AccumulateRewards dbnode (Config chain) (f_header s) (f_state s) = Ok (s1, inr tt) ->
  IntermediateRoot dbnode it (IsEIP158 (Config chain) (Number (f_header s))) s1 = Ok (st, inr root) ->
  let t := first_time (f_timeOfFirstBlock s) in
  Finalize dbnode it fuel chain txs uncles receipts s =
  (with_err (EWrap "got error when elect next epoch") (on_ctx (tryElect dbnode (read_balance dbnode st) fuel ts t genesis parent)) ;;
   finish fuel pt ts (Validator (f_header s)) txs uncles receipts) (mkFin st (f_ctx s) (set_root root (f_header s)) t).
Proof.
  intros [(Eg & _) (Ep & Ept & Hp) [Et Ht] Hfirst _ _ _ _ _ _ _ _] Er1 Er2 t. pose proof (settle_ok s s1 st root Er1 Er2) as Es.
  unfold Finalize. rewrite (sm_bind_ok _ _ _ _ _ Es), (sm_bind_ok _ _ _ _ _ eq_refl). cbn [f_header f_state f_ctx f_timeOfFirstBlock].
  change (Time (set_root root (f_header s))) with (Time (f_header s)).
  change (ParentHash (set_root root (f_header s))) with (ParentHash (f_header s)).
  change (Validator (set_root root (f_header s))) with (Validator (f_header s)).
  rewrite Et, Ep, Eg. cbn [must]. rewrite (sm_bind_ok _ _ _ _ _ eq_refl).
  erewrite (sm_bind_ok (note_first_block chain)) by (by apply note_first_block_ok). cbn [f_header f_state f_ctx f_timeOfFirstBlock].
  do 4 (rewrite (sm_bind_ok _ _ _ _ _ eq_refl)). cbn [f_header f_state f_ctx f_timeOfFirstBlock]. fold t.
  destruct (big_small ts Ht) as [_ ->], (big_small pt Hp) as [_ Ebp]. rewrite Ept. cbn [must].
  apply sm_bind_ext. intros [] sx. rewrite (sm_bind_ok _ _ _ _ _ eq_refl), Ebp. done.
Qed.

Lemma finish_ok pt ts v txs uncles receipts rlps s a :
  rep dbnode (f_ctx s) a -> address_ok v -> mints_ok a -> list_ok (map tx_GetRlp txs) ->
  mapM receipt_GetRlp receipts = Ok rlps -> list_ok rlps ->
  exists s' b d N tx rc bloom un,
    (forall fuel, (N <= fuel)%nat -> finish fuel pt ts v txs uncles receipts s = Ok (s', inr b)) /\
    f_state s' = f_state s /\ rep dbnode (f_ctx s') (mint_maps pt ts v a) /\ rep dbnode d (mint_maps pt ts v a) /\
    DeriveSha (map tx_GetRlp txs) = Ok tx /\ DeriveSha rlps = Ok rc /\ b_transactions b = txs /\
    b_header b = set_body_hashes tx rc bloom un (CopyHeader (set_proto (proto_of d) (f_header s))).
Proof.
  intros R Hv Hm Htx Erc Hrc.
  destruct (updateMintCnt_ok dbnode Hdb pt ts v (f_ctx s) a R (Hnc _ _ (R FMintCnt)) Hm Hv) as (d & N & R1 & _ & E1).
  destruct (ToProto_ok dbnode d _ R1) as (d2 & E2 & R2 & _).
  destruct (NewBlock_ok (set_proto (proto_of d) (f_header s)) txs uncles receipts rlps Htx Erc Hrc)
    as (b & tx & rc & bloom & un & Eb & Etx & Er & Hb & Hh).
  exists (mkFin (f_state s) d2 (set_proto (proto_of d) (f_header s)) (f_timeOfFirstBlock s)), b, d, N, tx, rc, bloom, un.
  split_and!; [|done..]. intros fuel Hf. unfold finish. rewrite (sm_bind_ok _ _ _ _ _ (on_ctx_ok _ s _ _ (E1 fuel Hf))).
  erewrite sm_bind_ok by (apply on_ctx_ok; exact E2). cbn [f_state f_ctx f_header f_timeOfFirstBlock].
  do 2 (rewrite (sm_bind_ok _ _ _ _ _ eq_refl)). cbn [f_header]. unfold pure. by rewrite Eb.
Qed.

(** The state after the first statements. *)
Lemma settle_state s m w :
  state_rep dbnode codedb (f_state s) m w ->
  (forall s1, AccumulateRewards dbnode (Config chain) (f_header s) (f_state s) = Ok (s1, inr tt) -> finalisable dbnode codedb s1) ->
  exists s1 st root, AccumulateRewards dbnode (Config chain) (f_header s) (f_state s) = Ok (s1, inr tt) /\
    state_rep dbnode codedb s1 m (rewarded (f_header s) w) /\
    IntermediateRoot dbnode it (IsEIP158 (Config chain) (Number (f_header s))) s1 = Ok (st, inr root) /\
    forall x, (forall b, b ∈ dom (j_dirties (s_journal s1)) -> hashKey b = hashKey x -> b = x) ->
      read_balance dbnode st x = settled_balance s1 (rewarded (f_header s) w) x.
Proof.
  intros Hw Hfin. destruct (AddBalance_ok dbnode codedb Hdb (f_state s) m w (Coinbase (f_header s)) (blockReward (Config chain) (f_header s)) Hw) as (s1 & E1 & Ha).
  pose proof (adv_rep _ _ _ _ _ _ _ Ha) as Hs1. specialize (Hfin s1 E1).
  destruct (IntermediateRoot_ok dbnode codedb Hdb it (IsEIP158 (Config chain) (Number (f_header s))) s1 m Hit (sr_trie _ _ _ _ _ Hs1) Hfin)
    as (t & st & E2 & _ & Ht & Hset).
  exists s1, st, (merkle_root (root (st_trie t))). split_and!; [done|done|done|]. intros x Hx.
  destruct (settled_GetBalance dbnode codedb Hdb it _ s1 st m _ x Hit Hs1 Hfin Hset Ht Hx) as [s2 E]. unfold read_balance. by rewrite E.
Qed.

(** C12: functional, error.  [Finalize] on a state that stands for the world [w] credits
    the block reward to the coinbase and to nobody else: the state then stands for
    [rewarded h w].  It puts the root of that state, computed by [IntermediateRoot], into
    the header, and holds the election that is due with the balances that are left after
    it: those after the reward, but nothing for an account that has destroyed itself (read
    so for every address whose hash is not that of another changed one).  If the election
    fails its error is returned and there is no block.  Otherwise the minted block is
    counted, and the block carries the transactions, their root, the root of the receipts,
    the state root, and the roots of the context it leaves.  The setting: the genesis block,
    the parent and their times are known; the transactions and receipts can be encoded; the
    accounts changed so far can be written; the context has the invariants of the ballots
    and of the counts, and its tries do not clash; and if the block begins a new epoch, then either the parent is in the genesis
    epoch, or the new epoch follows the parent's and no blocks were counted in that one:
    what is said of the election is for these cases. *)
Theorem finalize_block s m w genesis parent gt pt ts a txs uncles receipts rlps :
  final_setting s genesis parent gt pt ts a txs receipts rlps -> state_rep dbnode codedb (f_state s) m w ->
  (forall s1, AccumulateRewards dbnode (Config chain) (f_header s) (f_state s) = Ok (s1, inr tt) -> finalisable dbnode codedb s1) ->
  let h := f_header s in
  exists s1 st root, AccumulateRewards dbnode (Config chain) h (f_state s) = Ok (s1, inr tt) /\
    state_rep dbnode codedb s1 m (rewarded h w) /\
    (forall x, balance_in (rewarded h w) x = balance_in w x + (if bool_decide (Coinbase h = x) then blockReward (Config chain) h else 0)) /\
    IntermediateRoot dbnode it (IsEIP158 (Config chain) (Number h)) s1 = Ok (st, inr root) /\
    (forall x, (forall b, b ∈ dom (j_dirties (s_journal s1)) -> hashKey b = hashKey x -> b = x) ->
       read_balance dbnode st x = settled_balance s1 (rewarded h w) x) /\
    let '(a1, res) := election (read_balance dbnode st) genesis parent pt ts (f_ctx s) a in
    exists s' r N, (forall fuel, (N <= fuel)%nat -> Finalize dbnode it fuel chain txs uncles receipts s = Ok (s', r)) /\
      f_state s' = st /\
      match res with
      | inl e => r = inl (EWrap "got error when elect next epoch" e) /\ rep dbnode (f_ctx s') a1
      | inr _ =>
          exists b d tx rc bloom un, r = inr b /\ rep dbnode (f_ctx s') (mint_maps pt ts (Validator h) a1) /\
            rep dbnode d (mint_maps pt ts (Validator h) a1) /\ DeriveSha (map tx_GetRlp txs) = Ok tx /\ DeriveSha rlps = Ok rc /\
            b_transactions b = txs /\
            b_header b = set_body_hashes tx rc bloom un (CopyHeader (set_proto (proto_of d) (set_root root h)))
      end.
Proof.
  intros Hset Hw Hfin h. destruct (settle_state s m w Hw Hfin) as (s1 & st & root & E1 & Hs1 & E2 & Hbal).
  exists s1, st, root. split_and!; [done|done|intros x; apply rewarded_balance|done|done|].
  pose proof (election_ok (read_balance dbnode st) (first_time (f_timeOfFirstBlock s)) _ _ _ _ _ _ _ _ _ _ Hset) as (d & N & R & E).
  pose proof (election_mints (read_balance dbnode st) genesis parent pt ts (f_ctx s) a) as Hmm.
  pose proof (fun fuel => Finalize_start fuel s _ _ _ _ _ _ _ uncles _ _ _ _ _ Hset E1 E2) as Ef. cbv zeta in Ef.
  destruct (election _ _ _ _ _ _ _) as [a1 res]. cbn [fst snd] in *.
  set (s2 := mkFin st (f_ctx s) (set_root root h) (first_time (f_timeOfFirstBlock s))) in *.
  pose proof (fun fuel Hf => on_ctx_ok _ s2 _ _ (E fuel Hf)) as Eo.
  destruct res as [e|[]].
  - exists (mkFin st d (set_root root h) (first_time (f_timeOfFirstBlock s))), (inl (EWrap "got error when elect next epoch" e)), N.
    split; [|split; [reflexivity|split; [reflexivity|exact R]]]. intros fuel Hf.
    rewrite Ef. apply sm_bind_err. unfold with_err. by rewrite (handle_run _ _ _ _ _ (Eo fuel Hf)).
  - destruct Hset as [_ _ _ _ _ Hv (_ & _ & Hm) _ _ _ Htx [Erc Hrc]].
    destruct (finish_ok pt ts (Validator h) txs uncles receipts rlps (mkFin st d (set_root root h) (first_time (f_timeOfFirstBlock s))) a1)
      as (s' & b & d3 & N2 & tx & rc & bloom & un & Efin & Est & Rs & Rd & Etx & Erc' & Eb & Eh); [done|done| |done|done|done|].
    { intros k v. rewrite Hmm. apply Hm. }
    exists s', (inr b), (N `max` N2)%nat. split; [|split; [done|by exists b, d3, tx, rc, bloom, un]].
    intros fuel Hf. rewrite Ef. erewrite sm_bind_ok; [apply Efin; lia|]. unfold with_err.
    by rewrite (handle_run _ _ _ _ _ (Eo fuel ltac:(lia))).
Qed.
End finalization.

(** The second block of the first epoch, on a state without accounts. *)
Definition no_state : StateDB := fresh_state (mkSecure (mkTrie Nil emptyHash None 0 120) ∅ false).
Definition sample_final : finalization := mkFin no_state fresh_context (@sample_child tag_keccak sample_genesis (addr 1) 2 20) 0.
Definition final_chain : ChainReader := sample_chain sample_genesis (fun _ => Some (@sample_child tag_keccak sample_genesis (addr 1) 1 10)).

Lemma no_state_rep `{Keccak} : state_rep no_db no_code no_state ∅ no_accounts.
Proof.
  apply (state_New_match no_db no_code emptyHash); [done|by apply holds_empty|].
  split; [intros a; unfold acct_at; by rewrite !lookup_empty|done].
Qed.

Lemma sample_rewarded s1 :
  @AccumulateRewards tag_keccak no_db (Config final_chain) (f_header sample_final) (f_state sample_final) = Ok (s1, inr tt) ->
  elements (dom (j_dirties (s_journal s1))) = [addr 1] /\
  (fun o => (map_to_list (dirtyStorage o), a_Nonce (so_data o), a_Balance (so_data o), deleted o)) <$> stateObjects s1 !! addr 1 =
    Some ([], 0, frontierBlockReward, false).
Proof.
  set (x := @AccumulateRewards _ _ _ _ _).
  assert (match x with
          | Ok (s1, _) => elements (dom (j_dirties (s_journal s1))) = [addr 1] /\
             (fun o => (map_to_list (dirtyStorage o), a_Nonce (so_data o), a_Balance (so_data o), deleted o)) <$> stateObjects s1 !! addr 1 =
               Some ([], 0, frontierBlockReward, false)
          | _ => False
          end) as Hx by (vm_compute; split; reflexivity).
  intros E. by rewrite E in Hx.
Qed.

Lemma sample_finalisable s1 :
  @AccumulateRewards tag_keccak no_db (Config final_chain) (f_header sample_final) (f_state sample_final) = Ok (s1, inr tt) ->
  @finalisable tag_keccak no_db no_code s1.
Proof.
  intros E. destruct (sample_rewarded s1 E) as [Hd Ho].
  assert (forall a, a ∈ dom (j_dirties (s_journal s1)) -> a = addr 1) as Ha
    by (intros a; rewrite <- elem_of_elements, Hd; apply list_elem_of_singleton).
  split; [|intros a b Ia Ib _; by rewrite (Ha a Ia), (Ha b Ib)]. intros a o Ia Eo. rewrite (Ha a Ia) in *. rewrite Eo in Ho. injection Ho as Hs Hn Hb Hdel.
  destruct (@AddBalance_ok tag_keccak no_db no_code no_db_coherent _ _ _ (addr 1) frontierBlockReward no_state_rep) as (s2 & E2 & Hadv).
  assert (s2 = s1) as -> by (pose proof (eq_trans (eq_sym E2) E) as E3; by injection E3).
  pose proof (sr_acct _ _ _ _ _ (adv_rep _ _ _ _ _ _ _ Hadv) (addr 1)) as Hat. unfold acct_at in Hat. rewrite Eo, Hdel in Hat.
  destruct Hat as (Hoa & v & _ & Hr). exists v. split_and!; [done|done| |rewrite <- (or_nonce _ _ _ _ Hr), Hn; unfold in_u64; lia| |].
  - apply map_to_list_empty_iff in Hs. split; intros k; rewrite Hs; [intros x|intros k' [x Hx]]; by rewrite lookup_empty in *.
  - rewrite <- (or_balance _ _ _ _ Hr), Hb. by vm_compute.
  - rewrite <- (or_balance _ _ _ _ Hr), Hb. by vm_compute.
Qed.

Lemma sample_final_setting :
  @final_setting tag_keccak no_db final_chain sample_final sample_genesis (@sample_child tag_keccak sample_genesis (addr 1) 1 10)
    0 10 20 empty_maps [] [] [].
Proof.
  split.
  - split_and!; [reflexivity|reflexivity|lia|lia].
  - split_and!; [reflexivity|reflexivity|lia|lia].
  - split_and!; [reflexivity|lia|lia].
  - intros h E. discriminate E.
  - simpl. lia.
  - apply addr_ok. unfold is_byte. lia.
  - split_and!; [apply rep_fresh|apply ballot_empty|]. intros k b Hk. destruct (lookup_empty_Some _ _ Hk).
  - reflexivity.
  - split; apply (bool_decide_unpack (bytes_ok _)); vm_compute; exact I.
  - left. vm_compute. discriminate.
  - split; [simpl; lia|constructor].
  - split; [reflexivity|]. split; [simpl; lia|constructor].
Qed.

Lemma finalize_block_witness :
  exists st s' b N,
    (forall fuel, (N <= fuel)%nat -> @Finalize tag_keccak lcg no_db forward fuel final_chain [] [] [] sample_final = Ok (s', inr b)) /\
    f_state s' = st /\ @read_balance tag_keccak no_db st (addr 1) = frontierBlockReward /\
    @rep tag_keccak no_db (f_ctx s') (mint_maps 10 20 (addr 1) empty_maps).
Proof.
  destruct (@finalize_block tag_keccak lcg no_db no_db_coherent tag_no_clash no_code forward forward_ok final_chain sample_final ∅ no_accounts sample_genesis
    _ _ _ _ _ [] [] [] [] sample_final_setting no_state_rep sample_finalisable)
    as (s1 & st & root & E1 & _ & _ & _ & Hbal & s' & r & N & E & Hst & b & d & tx & rc & bl & un & Hr & R & _).
  exists st, s', b, N. rewrite Hr in E. split; [exact E|]. split; [exact Hst|]. split; [|exact R].
  assert (w_acct (@rewarded tag_keccak final_chain (f_header sample_final) no_accounts) (addr 1) =
    Some (with_balance frontierBlockReward (@fresh_acct tag_keccak))) as Ew by reflexivity.
  rewrite Hbal; [unfold settled_balance; rewrite Ew, andb_false_r; reflexivity|]. intros x Hx _. destruct (sample_rewarded s1 E1) as [Hd _].
  rewrite <- elem_of_elements, Hd in Hx. by apply list_elem_of_singleton in Hx.
Defined.
