(* ===== verification/EvmState.v ===== *)
(** * The state interface of the virtual machine ([src/core/vm/interface.go])

    [StateOps D]: the operations of the interface [vm.StateDB] on a database of
    type [D].  [StateLaws]: what the virtual machine relies on, that the database
    behaves like the specification of [StateSpec], worlds with saved worlds.  The
    journalled database of [State] keeps the promise ([statedb_laws], from the
    refinement of [StateSpec]), and so does the specification itself
    ([spec_laws]).  [CanTransfer] and [Transfer] are those of [src/core/evm.go]. *)

From S2P Require Import Prelude Common TrieEncoding Trie TrieSpec TrieMap.
From S2P Require Import TrieCanon Rlp Sha3 TrieHash TrieMerkle TrieIter.
From S2P Require Import TrieIterSpec RlpRaw TrieBinding RlpStream Params DposContext.
From S2P Require Import Header Transaction Block SecureTrie State StateSpec.

(** ** The interface *)

Class StateOps (D : Type) := {
  db_CreateAccount : list Z -> SM D Empty_set unit;
  db_SubBalance : list Z -> Z -> SM D Empty_set unit;
  db_AddBalance : list Z -> Z -> SM D Empty_set unit;
  db_GetBalance : list Z -> SM D Empty_set Z;
  db_GetNonce : list Z -> SM D Empty_set Z;
  db_SetNonce : list Z -> Z -> SM D Empty_set unit;
  db_GetCodeHash : list Z -> SM D Empty_set (list Z);
  db_GetCode : list Z -> SM D Empty_set (list Z);
  db_SetCode : list Z -> list Z -> SM D Empty_set unit;
  db_GetCodeSize : list Z -> SM D Empty_set Z;
  db_AddRefund : Z -> SM D Empty_set unit;
  db_GetRefund : SM D Empty_set Z;
  db_GetState : list Z -> list Z -> SM D Empty_set (list Z);
  db_SetState : list Z -> list Z -> list Z -> SM D Empty_set unit;
  db_Suicide : list Z -> SM D Empty_set bool;
  db_HasSuicided : list Z -> SM D Empty_set bool;
  db_Exist : list Z -> SM D Empty_set bool;
  db_Empty : list Z -> SM D Empty_set bool;
  db_RevertToSnapshot : Z -> SM D Empty_set unit;
  db_Snapshot : SM D Empty_set Z;
  db_AddLog : Log -> SM D Empty_set unit;
  db_AddPreimage : list Z -> list Z -> SM D Empty_set unit
}.

(** The operations of the specification that are in the interface. *)
Definition db_op {D} `{!StateOps D} (o : state_op) : option (SM D Empty_set answer) :=
  match o with
  | OpCreateAccount a => Some (db_CreateAccount a ;; mret ANone)
  | OpAddBalance a x => Some (db_AddBalance a x ;; mret ANone)
  | OpSubBalance a x => Some (db_SubBalance a x ;; mret ANone)
  | OpSetNonce a x => Some (db_SetNonce a x ;; mret ANone)
  | OpSetCode a c => Some (db_SetCode a c ;; mret ANone)
  | OpSetState a k x => Some (db_SetState a k x ;; mret ANone)
  | OpSuicide a => Some (b ← db_Suicide a; mret (ABool b))
  | OpAddRefund g => Some (db_AddRefund g ;; mret ANone)
  | OpAddLog l => Some (db_AddLog l ;; mret ANone)
  | OpAddPreimage h p => Some (db_AddPreimage h p ;; mret ANone)
  | OpExist a => Some (b ← db_Exist a; mret (ABool b))
  | OpEmpty a => Some (b ← db_Empty a; mret (ABool b))
  | OpGetBalance a => Some (x ← db_GetBalance a; mret (AInt x))
  | OpGetNonce a => Some (x ← db_GetNonce a; mret (AInt x))
  | OpGetCodeHash a => Some (h ← db_GetCodeHash a; mret (ABytes h))
  | OpGetCode a => Some (c ← db_GetCode a; mret (ABytes c))
  | OpGetCodeSize a => Some (x ← db_GetCodeSize a; mret (AInt x))
  | OpGetState a k => Some (v ← db_GetState a k; mret (ABytes v))
  | OpHasSuicided a => Some (b ← db_HasSuicided a; mret (ABool b))
  | OpGetRefund => Some (x ← db_GetRefund; mret (AInt x))
  | OpSnapshot => Some (id ← db_Snapshot; mret (AInt id))
  | OpRevertToSnapshot id => Some (db_RevertToSnapshot id ;; mret ANone)
  | OpSetBalance _ _ | OpGetLogs _ => None
  end.

(** What the interface promises. *)
Class StateLaws `{Keccak} {D} `{!StateOps D} (db_is : D -> spec -> Prop) := {
  db_step o m d sp :
    db_op o = Some m -> db_is d sp ->
    match spec_step o sp with
    | Some (sp', a) => exists d', m d = Ok (d', inr a) /\ db_is d' sp'
    | None => m d = Panic
    end
}.

(** ** The journalled database *)

Section statedb.
Context `{Keccak} (dbnode : list Z -> Z -> option node) (codedb : list Z -> option (list Z)).

#[local] Instance statedb_ops : StateOps StateDB := {|
  db_CreateAccount := CreateAccount dbnode;
  db_SubBalance := SubBalance dbnode;
  db_AddBalance := AddBalance dbnode;
  db_GetBalance := GetBalance dbnode;
  db_GetNonce := GetNonce dbnode;
  db_SetNonce := SetNonce dbnode;
  db_GetCodeHash := GetCodeHash dbnode;
  db_GetCode a := c ← GetCode dbnode codedb a; mret (default [] c);
  db_SetCode := SetCode dbnode codedb;
  db_GetCodeSize := GetCodeSize dbnode codedb;
  db_AddRefund := AddRefund;
  db_GetRefund := GetRefund;
  db_GetState := GetState dbnode;
  db_SetState := SetState dbnode;
  db_Suicide := Suicide dbnode;
  db_HasSuicided := HasSuicided dbnode;
  db_Exist := Exist dbnode;
  db_Empty := Empty dbnode;
  db_RevertToSnapshot := RevertToSnapshot dbnode;
  db_Snapshot := state_Snapshot;
  db_AddLog := AddLog;
  db_AddPreimage := AddPreimage
|}.

Lemma statedb_laws m :
  db_coherent dbnode -> default [] (codedb emptyCodeHash) = [] ->
  StateLaws (D := StateDB) (state_match dbnode codedb m).
Proof.
  intros Hdb Hcode. split. intros o c d sp Ho Hm. pose proof (step_refines dbnode codedb Hdb Hcode m d sp o Hm) as Hs.
  assert (forall s, c s = run_op dbnode codedb o s) as Hc.
  { intros s. destruct o; try discriminate Ho; injection Ho as <-; try reflexivity.
    cbn [run_op db_GetCode statedb_ops]. unfold mbind, SM_bind. by destruct (GetCode dbnode codedb a s) as [[? [[]|]]|[]| |]. }
  destruct (spec_step o sp) as [[sp' a]|]; [|by rewrite Hc].
  destruct Hs as (d' & E & Hm'). exists d'. by rewrite Hc.
Qed.

End statedb.

(** ** The specification as a database *)

Section specdb.
Context `{Keccak}.

Definition spec_do {A} (o : state_op) (f : answer -> option A) : SM spec Empty_set A := fun sp =>
  match spec_step o sp with
  | Some (sp', a) => match f a with Some x => Ok (sp', inr x) | None => Panic end
  | None => Panic
  end.
Definition a_unit (a : answer) : option unit := Some tt.
Definition a_int (a : answer) : option Z := match a with AInt x => Some x | _ => None end.
Definition a_bool (a : answer) : option bool := match a with ABool x => Some x | _ => None end.
Definition a_bytes (a : answer) : option (list Z) := match a with ABytes x => Some x | _ => None end.

#[local] Instance spec_ops : StateOps spec := {|
  db_CreateAccount a := spec_do (OpCreateAccount a) a_unit;
  db_SubBalance a x := spec_do (OpSubBalance a x) a_unit;
  db_AddBalance a x := spec_do (OpAddBalance a x) a_unit;
  db_GetBalance a := spec_do (OpGetBalance a) a_int;
  db_GetNonce a := spec_do (OpGetNonce a) a_int;
  db_SetNonce a x := spec_do (OpSetNonce a x) a_unit;
  db_GetCodeHash a := spec_do (OpGetCodeHash a) a_bytes;
  db_GetCode a := spec_do (OpGetCode a) a_bytes;
  db_SetCode a c := spec_do (OpSetCode a c) a_unit;
  db_GetCodeSize a := spec_do (OpGetCodeSize a) a_int;
  db_AddRefund g := spec_do (OpAddRefund g) a_unit;
  db_GetRefund := spec_do OpGetRefund a_int;
  db_GetState a k := spec_do (OpGetState a k) a_bytes;
  db_SetState a k x := spec_do (OpSetState a k x) a_unit;
  db_Suicide a := spec_do (OpSuicide a) a_bool;
  db_HasSuicided a := spec_do (OpHasSuicided a) a_bool;
  db_Exist a := spec_do (OpExist a) a_bool;
  db_Empty a := spec_do (OpEmpty a) a_bool;
  db_RevertToSnapshot id := spec_do (OpRevertToSnapshot id) a_unit;
  db_Snapshot := spec_do OpSnapshot a_int;
  db_AddLog l := spec_do (OpAddLog l) a_unit;
  db_AddPreimage h p := spec_do (OpAddPreimage h p) a_unit
|}.

Lemma spec_laws : StateLaws (D := spec) eq.
Proof.
  split. intros o c d sp Ho ->. destruct o; try discriminate Ho; injection Ho as <-;
    try (eexists; split; [reflexivity|reflexivity]).
  cbn [spec_step db_RevertToSnapshot spec_ops]. unfold mbind, SM_bind, spec_do. cbn [spec_step].
  destruct (find_saved id (sp_saved sp)) as [[w ws]|]; cbn; [|done]. eexists. split; reflexivity.
Qed.

End specdb.

(** ** Transfers *)

Section transfer.
Context {D} `{!StateOps D}.

Definition CanTransfer (addr : list Z) (amount : Z) : SM D Empty_set bool :=
  b ← db_GetBalance addr; mret (bool_decide (b >= amount)).

Definition Transfer (sender recipient : list Z) (amount : Z) : SM D Empty_set unit :=
  db_SubBalance sender amount ;;
  db_AddBalance recipient amount.

End transfer.
