(* ===== verification/EvmWord.v ===== *)
(** * 256-bit words ([src/common/math/big.go], [src/core/vm/instructions.go])

    The EVM computes with [*big.Int]s kept in the range of 256-bit words.  The
    functions [w_*] are the arithmetic of the instructions; [EvmInstr] wraps them
    into stack operations.  Division of [big.Int]s is Euclidean, [Rsh] rounds down,
    and the bit operations are those of two's complement, as for [Z].

    [spec_*] are the functions of the virtual machine's definition, on signed or
    unsigned words; the lemmas show that the code computes them.  [Exp_spec]: the
    loop over the bits of the exponent is exponentiation modulo 2^256.
    [w_sar_zero]: shifting zero right by 256 or more gives minus one. *)

From S2P Require Import Prelude Common Rlp.

Definition tt255 : Z := 2 ^ 255.
Definition tt256 : Z := 2 ^ 256.
Definition tt256m1 : Z := tt256 - 1.

(** [U256], [S256], [BigMax], [BigMin] *)
Definition U256 (x : Z) : Z := Z.land x tt256m1.
Definition S256 (x : Z) : Z := if bool_decide (x < tt255) then x else x - tt256.
Definition BigMax (x y : Z) : Z := if bool_decide (x < y) then y else x.
Definition BigMin (x y : Z) : Z := if bool_decide (x > y) then y else x.

(** [big.Int.Bits]: the words of 64 bits, the lowest first. *)
Fixpoint bits_loop (n : nat) (x : Z) : list Z :=
  match n with
  | O => []
  | S n => if bool_decide (x = 0) then [] else Z.land x (2 ^ 64 - 1) :: bits_loop n (Z.shiftr x 64)
  end.
Definition Bits (x : Z) : list Z := bits_loop (Z.to_nat (Z.log2 (Z.abs x) / 64 + 1)) (Z.abs x).

(** [Exp]: the inner loop over the bits of a word, the outer one over the words. *)
Fixpoint exp_word (n : nat) (word result base : Z) : Z * Z :=
  match n with
  | O => (result, base)
  | S n =>
      let result := if bool_decide (Z.land word 1 = 1) then U256 (result * base) else result in
      exp_word n (Z.shiftr word 1) result (U256 (base * base))
  end.
Fixpoint exp_words (words : list Z) (result base : Z) : Z :=
  match words with
  | [] => result
  | w :: words => let '(result, base) := exp_word 64 w result base in exp_words words result base
  end.
Definition Exp (base exponent : Z) : Z := exp_words (Bits exponent) 1 base.

(** [bigEndianByteAt] and [Byte] *)
Definition bigEndianByteAt (x n : Z) : Z :=
  match Bits x !! Z.to_nat (n / 8) with
  | Some word => u8 (Z.shiftr word (8 * (n mod 8)))
  | None => 0
  end.
Definition Byte (x padlength n : Z) : Z :=
  if bool_decide (n >= padlength) then 0 else bigEndianByteAt x (padlength - 1 - n).

(** ** The instructions *)

Definition of_bool (b : bool) : Z := if b then 1 else 0.

Definition w_add (x y : Z) : Z := U256 (x + y).
Definition w_sub (x y : Z) : Z := U256 (x - y).
Definition w_mul (x y : Z) : Z := U256 (x * y).
Definition w_div (x y : Z) : Z := if bool_decide (y <> 0) then U256 (x / y) else 0.
Definition w_sdiv (x y : Z) : Z :=
  let x := S256 x in let y := S256 y in
  if bool_decide (y = 0) || bool_decide (x = 0) then 0
  else if bool_decide (Z.sgn x <> Z.sgn y) then U256 (- (Z.abs x / Z.abs y)) else U256 (Z.abs x / Z.abs y).
Definition w_mod (x y : Z) : Z := if bool_decide (y = 0) then 0 else U256 (x mod y).
Definition w_smod (x y : Z) : Z :=
  let x := S256 x in let y := S256 y in
  if bool_decide (y = 0) then 0
  else if bool_decide (x < 0) then U256 (- (Z.abs x mod Z.abs y)) else U256 (Z.abs x mod Z.abs y).
Definition w_signextend (back num : Z) : Z :=
  if bool_decide (back < 31) then
    let bit := big_Uint64 back * 8 + 7 in
    let mask := Z.shiftl 1 bit - 1 in
    U256 (if Z.testbit num bit then Z.lor num (Z.lnot mask) else Z.land num mask)
  else num.
Definition w_not (x : Z) : Z := U256 (Z.lnot x).
Definition w_lt (x y : Z) : Z := of_bool (bool_decide (x < y)).
Definition w_gt (x y : Z) : Z := of_bool (bool_decide (x > y)).
Definition w_slt (x y : Z) : Z :=
  if bool_decide (x >= tt255) && bool_decide (y < tt255) then 1
  else if bool_decide (x < tt255) && bool_decide (y >= tt255) then 0
  else of_bool (bool_decide (x < y)).
Definition w_sgt (x y : Z) : Z :=
  if bool_decide (x >= tt255) && bool_decide (y < tt255) then 0
  else if bool_decide (x < tt255) && bool_decide (y >= tt255) then 1
  else of_bool (bool_decide (x > y)).
Definition w_eq (x y : Z) : Z := of_bool (bool_decide (x = y)).
Definition w_iszero (x : Z) : Z := if bool_decide (x > 0) then 0 else 1.
Definition w_byte (th val : Z) : Z := if bool_decide (th < 32) then Byte val 32 (big_Int64 th) else 0.
Definition w_addmod (x y z : Z) : Z := if bool_decide (z > 0) then U256 ((x + y) mod z) else 0.
Definition w_mulmod (x y z : Z) : Z := if bool_decide (z > 0) then U256 ((x * y) mod z) else 0.
Definition w_shl (shift value : Z) : Z :=
  let shift := U256 shift in let value := U256 value in
  if bool_decide (shift >= 256) then 0 else U256 (Z.shiftl value (big_Uint64 shift)).
Definition w_shr (shift value : Z) : Z :=
  let shift := U256 shift in let value := U256 value in
  if bool_decide (shift >= 256) then 0 else U256 (Z.shiftr value (big_Uint64 shift)).
Definition w_sar (shift value : Z) : Z :=
  let shift := U256 shift in let value := S256 value in
  if bool_decide (shift >= 256) then U256 (if bool_decide (value > 0) then 0 else -1)
  else U256 (Z.shiftr value (big_Uint64 shift)).

(** ** The functions of the virtual machine *)

Definition is_word (x : Z) : Prop := 0 <= x < 2 ^ 256.
Definition to_word (z : Z) : Z := z mod 2 ^ 256.
Definition signed (x : Z) : Z := if bool_decide (x < 2 ^ 255) then x else x - 2 ^ 256.

#[global] Instance is_word_dec x : Decision (is_word x).
Proof. unfold is_word. apply _. Defined.

Lemma U256_mod x : U256 x = to_word x.
Proof. unfold U256. change tt256m1 with (Z.ones 256). rewrite Z.land_ones by lia. reflexivity. Qed.

Lemma to_word_range x : is_word (to_word x).
Proof. apply Z.mod_pos_bound. lia. Qed.

Lemma to_word_small x : is_word x -> to_word x = x.
Proof. apply Z.mod_small. Qed.

Lemma signed_range x : is_word x -> - 2 ^ 255 <= signed x < 2 ^ 255.
Proof. unfold is_word, signed. case_bool_decide; lia. Qed.

Lemma S256_signed x : S256 x = signed x.
Proof. reflexivity. Qed.

Lemma signed_word x : is_word x -> to_word (signed x) = x.
Proof.
  intros Hx. unfold signed. case_bool_decide; [by apply to_word_small|].
  unfold to_word. rewrite <- (Z_mod_plus_full _ 1). rewrite Z.mod_small; unfold is_word in *; lia.
Qed.

Lemma signed_zero x : is_word x -> signed x = 0 <-> x = 0.
Proof. unfold signed, is_word. case_bool_decide; lia. Qed.

Definition spec_div (x y : Z) : Z := if bool_decide (y = 0) then 0 else x / y.
Definition spec_mod (x y : Z) : Z := if bool_decide (y = 0) then 0 else x mod y.
Definition spec_sdiv (x y : Z) : Z := if bool_decide (y = 0) then 0 else to_word (Z.quot (signed x) (signed y)).
Definition spec_smod (x y : Z) : Z := if bool_decide (y = 0) then 0 else to_word (Z.rem (signed x) (signed y)).
Definition spec_slt (x y : Z) : Z := of_bool (bool_decide (signed x < signed y)).
Definition spec_byte (i x : Z) : Z := if bool_decide (i < 32) then x / 256 ^ (31 - i) mod 256 else 0.
(** The low [8 (b + 1)] bits as a signed number. *)
Definition spec_signextend (b x : Z) : Z := if bool_decide (b < 31) then to_word (wrapS (8 * (b + 1)) x) else x.
Definition spec_shl (n x : Z) : Z := to_word (x * 2 ^ n).
Definition spec_shr (n x : Z) : Z := x / 2 ^ n.
Definition spec_sar (n x : Z) : Z := to_word (signed x / 2 ^ n).

Lemma w_div_spec x y : is_word x -> is_word y -> w_div x y = spec_div x y.
Proof.
  intros Hx Hy. unfold w_div, spec_div. case_bool_decide as E; [rewrite bool_decide_false by done|by rewrite bool_decide_true by lia].
  rewrite U256_mod. apply to_word_small. unfold is_word in *. split; [apply Z.div_pos; lia|].
  apply Z.le_lt_trans with x; [apply Z.div_le_upper_bound; nia|lia].
Qed.

Lemma w_mod_spec x y : is_word x -> is_word y -> w_mod x y = spec_mod x y.
Proof.
  intros Hx Hy. unfold w_mod, spec_mod. case_bool_decide as E; [done|].
  rewrite U256_mod. apply to_word_small. unfold is_word in *. pose proof (Z.mod_pos_bound x y). lia.
Qed.

(** Division of magnitudes with the sign put back is division that truncates. *)
Lemma quot_abs x y : y <> 0 -> Z.quot x y = if bool_decide (Z.sgn x = Z.sgn y) then Z.abs x / Z.abs y else - (Z.abs x / Z.abs y).
Proof.
  intros Hy. rewrite <- Z.quot_div_nonneg by lia.
  destruct (Z.abs_spec x) as [[Hx ->]|[Hx ->]], (Z.abs_spec y) as [[Hy' ->]|[Hy' ->]]; case_bool_decide as E;
    try (rewrite Z.quot_opp_l by lia); try (rewrite Z.quot_opp_r by lia); try lia.
  all: destruct (decide (x = 0)) as [->|]; [rewrite Z.quot_0_l by lia; lia|]; destruct x, y; simpl in E; try lia.
Qed.

Lemma rem_abs x y : y <> 0 -> Z.rem x y = if bool_decide (x < 0) then - (Z.abs x mod Z.abs y) else Z.abs x mod Z.abs y.
Proof.
  intros Hy. rewrite <- Z.rem_mod_nonneg by lia. rewrite Z.rem_abs_r by lia.
  case_bool_decide; [rewrite Z.abs_neq, Z.rem_opp_l by lia; lia|by rewrite Z.abs_eq by lia].
Qed.

Lemma w_sdiv_spec x y : is_word x -> is_word y -> w_sdiv x y = spec_sdiv x y.
Proof.
  intros Hx Hy. unfold w_sdiv, spec_sdiv. cbv zeta. change S256 with signed.
  destruct (bool_decide_reflect (y = 0)) as [Ey|Ey]; [rewrite (bool_decide_true (signed y = 0)) by (by apply signed_zero); done|].
  rewrite (bool_decide_false (signed y = 0)) by (by rewrite signed_zero). simpl.
  rewrite quot_abs by (by rewrite signed_zero). case_bool_decide as Ex.
  - rewrite Ex. simpl. rewrite Z.div_0_l by (rewrite Z.abs_0_iff, signed_zero; done). by case_bool_decide.
  - rewrite !U256_mod. case_bool_decide as Es; [rewrite bool_decide_false by done|rewrite bool_decide_true by (destruct (Z.eq_dec (Z.sgn (signed x)) (Z.sgn (signed y))); tauto)]; done.
Qed.

Lemma w_smod_spec x y : is_word x -> is_word y -> w_smod x y = spec_smod x y.
Proof.
  intros Hx Hy. unfold w_smod, spec_smod. cbv zeta. change S256 with signed.
  destruct (bool_decide_reflect (y = 0)) as [Ey|Ey]; [rewrite (bool_decide_true (signed y = 0)) by (by apply signed_zero); done|].
  rewrite (bool_decide_false (signed y = 0)) by (by rewrite signed_zero).
  rewrite rem_abs by (by rewrite signed_zero). rewrite !U256_mod. by case_bool_decide.
Qed.

Lemma w_slt_spec x y : is_word x -> is_word y -> w_slt x y = spec_slt x y.
Proof.
  intros Hx Hy. unfold w_slt, spec_slt, signed, tt255, is_word in *.
  repeat case_bool_decide; simpl; try lia; done.
Qed.

Lemma w_sgt_spec x y : is_word x -> is_word y -> w_sgt x y = spec_slt y x.
Proof.
  intros Hx Hy. unfold w_sgt, spec_slt, signed, tt255, is_word in *.
  repeat case_bool_decide; simpl; try lia; done.
Qed.

Lemma w_shl_spec n x : is_word n -> is_word x -> w_shl n x = spec_shl n x.
Proof.
  intros Hn Hx. unfold w_shl, spec_shl. cbv zeta. rewrite !U256_mod, !(to_word_small n), !(to_word_small x) by done.
  unfold is_word in *. case_bool_decide as E.
  - unfold to_word. replace n with (256 + (n - 256)) by lia. rewrite Z.pow_add_r by lia.
    replace (x * (2 ^ 256 * 2 ^ (n - 256))) with (x * 2 ^ (n - 256) * 2 ^ 256) by ring. by rewrite Z.mod_mul by lia.
  - rewrite Z.shiftl_mul_pow2; unfold big_Uint64; rewrite Z.abs_eq, wrapU_small by lia; [done|lia].
Qed.

Lemma w_shr_spec n x : is_word n -> is_word x -> w_shr n x = spec_shr n x.
Proof.
  intros Hn Hx. unfold w_shr, spec_shr. cbv zeta. rewrite !U256_mod, !(to_word_small n), !(to_word_small x) by done.
  unfold is_word in *. case_bool_decide as E.
  - symmetry. apply Z.div_small. split; [lia|]. apply Z.lt_le_trans with (2 ^ 256); [lia|]. apply Z.pow_le_mono_r; lia.
  - unfold big_Uint64. rewrite Z.abs_eq, wrapU_small, Z.shiftr_div_pow2 by lia. apply to_word_small. unfold is_word.
    assert (0 < 2 ^ n) by (apply Z.pow_pos_nonneg; lia). split; [apply Z.div_pos; lia|].
    apply Z.le_lt_trans with x; [apply Z.div_le_upper_bound; nia|lia].
Qed.

(** The arithmetic shift is right unless zero is shifted by 256 or more. *)
Lemma w_sar_spec n x : is_word n -> is_word x -> (256 <= n -> x <> 0) -> w_sar n x = spec_sar n x.
Proof.
  intros Hn Hx H0. unfold w_sar, spec_sar. cbv zeta. change S256 with signed. rewrite !U256_mod, !(to_word_small n) by done.
  pose proof (signed_range x Hx) as Hs. unfold is_word in Hn. case_bool_decide as E.
  - f_equal. assert (2 ^ 255 <= 2 ^ n) by (apply Z.pow_le_mono_r; lia).
    assert (signed x <> 0) by (rewrite signed_zero by done; apply H0; lia). case_bool_decide; symmetry.
    + apply Z.div_small. lia.
    + symmetry. apply (Z.div_unique_pos _ _ _ (signed x + 2 ^ n)); lia.
  - unfold big_Uint64. by rewrite Z.abs_eq, wrapU_small, Z.shiftr_div_pow2 by lia.
Qed.

Lemma w_sar_zero n : is_word n -> 256 <= n -> w_sar n 0 = 2 ^ 256 - 1 /\ spec_sar n 0 = 0.
Proof.
  intros Hn H256. unfold w_sar, spec_sar. cbv zeta. rewrite !U256_mod, to_word_small by done.
  rewrite bool_decide_true by lia. split; [reflexivity|]. change (signed 0) with 0. by rewrite Z.div_0_l by lia.
Qed.

(** ** Bytes of a word *)

Lemma land_mask x k : 0 <= k -> Z.land x (Z.shiftl 1 k - 1) = x mod 2 ^ k.
Proof. intros Hk. rewrite Z.shiftl_1_l. change (2 ^ k - 1) with (Z.pred (2 ^ k)). rewrite <- Z.ones_equiv. by apply Z.land_ones. Qed.

Lemma bits_loop_lookup n : forall x i, 0 <= x < 2 ^ (64 * Z.of_nat n) ->
  default 0 (bits_loop n x !! i) = x / 2 ^ (64 * Z.of_nat i) mod 2 ^ 64.
Proof.
  induction n as [|n IH]; intros x i Hx.
  { replace x with 0 by (simpl in Hx; lia). rewrite Z.div_0_l by (pose proof (Z.pow_pos_nonneg 2 (64 * Z.of_nat i)); lia). done. }
  cbn [bits_loop]. case_bool_decide as E.
  { subst x. rewrite Z.div_0_l by (pose proof (Z.pow_pos_nonneg 2 (64 * Z.of_nat i)); lia). done. }
  rewrite Z.shiftr_div_pow2 by lia. destruct i as [|i]; cbn [lookup list_lookup].
  - change (2 ^ 64 - 1) with (Z.ones 64). rewrite Z.land_ones by lia. simpl. by rewrite Z.div_1_r.
  - rewrite IH.
    + rewrite Z.div_div by (try apply Z.pow_nonzero; lia || apply Z.pow_pos_nonneg; lia). do 2 f_equal. rewrite <- Z.pow_add_r by lia. f_equal. lia.
    + split; [apply Z.div_pos; lia|]. apply Z.div_lt_upper_bound; [lia|]. rewrite <- Z.pow_add_r by lia.
      replace (64 + 64 * Z.of_nat n) with (64 * Z.of_nat (S n)) by lia. lia.
Qed.

Lemma Bits_fuel x : 0 <= x -> 0 <= x < 2 ^ (64 * Z.of_nat (Z.to_nat (Z.log2 x / 64 + 1))).
Proof.
  intros Hx. split; [done|].
  destruct (decide (x = 0)) as [->|]; [apply Z.pow_pos_nonneg; lia|].
  pose proof (Z.log2_nonneg x). pose proof (Z.div_pos (Z.log2 x) 64). rewrite Z2Nat.id by lia.
  apply Z.lt_le_trans with (2 ^ (Z.log2 x + 1)); [apply Z.log2_spec; lia|]. apply Z.pow_le_mono_r; [lia|].
  pose proof (Z.mul_succ_div_gt (Z.log2 x) 64). lia.
Qed.

Lemma Bits_lookup x i : 0 <= x -> default 0 (Bits x !! i) = x / 2 ^ (64 * Z.of_nat i) mod 2 ^ 64.
Proof.
  intros Hx. unfold Bits. rewrite Z.abs_eq by done. apply bits_loop_lookup. by apply Bits_fuel.
Qed.

Lemma bigEndianByteAt_spec x n : 0 <= x -> 0 <= n -> bigEndianByteAt x n = x / 256 ^ n mod 256.
Proof.
  intros Hx Hn. unfold bigEndianByteAt. pose proof (Z.div_pos n 8) as Hq. pose proof (Z.mod_pos_bound n 8) as Hm.
  pose proof (Bits_lookup x (Z.to_nat (n / 8)) Hx) as Hb. rewrite Z2Nat.id in Hb by lia.
  assert (wrapU 8 (Z.shiftr (default 0 (Bits x !! Z.to_nat (n / 8))) (8 * (n mod 8))) = x / 256 ^ n mod 256) as E.
  { rewrite Hb, Z.shiftr_div_pow2 by lia. unfold wrapU. change (2 ^ 8) with 256. apply Z.bits_inj'. intros i Hi.
    change 256 with (2 ^ 8). rewrite <- Z.pow_mul_r by lia. rewrite <- !Z.shiftr_div_pow2 by lia.
    destruct (decide (i < 8)).
    - rewrite !Z.mod_pow2_bits_low by lia. rewrite !Z.shiftr_spec by lia. rewrite Z.mod_pow2_bits_low by lia.
      rewrite Z.shiftr_spec by lia. f_equal. pose proof (Z.div_mod n 8). lia.
    - by rewrite !Z.mod_pow2_bits_high by lia. }
  destruct (Bits x !! Z.to_nat (n / 8)); simpl in E; [done|]. rewrite <- E. unfold id. by rewrite Z.shiftr_0_l.
Qed.

Lemma w_byte_spec i x : is_word i -> is_word x -> w_byte i x = spec_byte i x.
Proof.
  intros Hi Hx. unfold is_word in *. unfold w_byte, spec_byte. case_bool_decide; [|done]. unfold Byte.
  assert (big_Int64 i = i) as -> by (apply i64_small; unfold in_i64; lia).
  rewrite bool_decide_false by lia. by rewrite bigEndianByteAt_spec by lia.
Qed.

(** ** Sign extension *)

Lemma wrapS_low k x : 0 < k ->
  wrapS k x = if Z.testbit x (k - 1) then x mod 2 ^ (k - 1) - 2 ^ (k - 1) else x mod 2 ^ (k - 1).
Proof.
  intros Hk. unfold wrapS. set (h := 2 ^ (k - 1)). assert (0 < h) by (apply Z.pow_pos_nonneg; lia).
  assert (2 ^ k = 2 * h) as -> by (unfold h; rewrite <- Z.pow_succ_r by lia; f_equal; lia).
  rewrite Z.testbit_odd, Z.shiftr_div_pow2 by lia. fold h.
  pose proof (Z.div_mod x h ltac:(lia)) as Hd. pose proof (Z.mod_pos_bound x h ltac:(lia)) as Hm.
  destruct (Z.odd (x / h)) eqn:Eo.
  - apply Z.odd_spec in Eo as [q Hq].
    rewrite <- (Z.mod_unique_pos (x + h) (2 * h) (q + 1) (x mod h)); nia.
  - apply (f_equal negb) in Eo. rewrite Z.negb_odd in Eo. apply Z.even_spec in Eo as [q Hq].
    rewrite <- (Z.mod_unique_pos (x + h) (2 * h) q (x mod h + h)); nia.
Qed.

Lemma lor_lnot_mask x k : 0 <= k -> Z.lor x (Z.lnot (Z.shiftl 1 k - 1)) = x mod 2 ^ k - 2 ^ k.
Proof.
  intros Hk. rewrite <- (land_mask x k Hk). rewrite Z.shiftl_1_l. change (2 ^ k - 1) with (Z.pred (2 ^ k)). rewrite <- Z.ones_equiv.
  assert (Z.lor x (Z.lnot (Z.ones k)) = Z.lor (Z.land x (Z.ones k)) (Z.lnot (Z.ones k))) as ->.
  { apply Z.bits_inj'. intros i Hi. rewrite !Z.lor_spec, Z.land_spec, Z.lnot_spec by done.
    destruct (Z.testbit x i), (Z.testbit (Z.ones k) i); done. }
  rewrite <- Z.add_nocarry_lor; [unfold Z.lnot; rewrite Z.ones_equiv; lia|].
  apply Z.bits_inj'. intros i Hi. rewrite !Z.land_spec, Z.lnot_spec, Z.bits_0 by done.
  destruct (Z.testbit x i), (Z.testbit (Z.ones k) i); done.
Qed.

Lemma w_signextend_spec b x : is_word b -> is_word x -> w_signextend b x = spec_signextend b x.
Proof.
  intros Hb Hx. unfold is_word in *. unfold w_signextend, spec_signextend. case_bool_decide as E; [|done]. cbv zeta.
  assert (big_Uint64 b = b) as -> by (unfold big_Uint64; rewrite Z.abs_eq, wrapU_small by lia; done).
  rewrite U256_mod. f_equal. rewrite wrapS_low by lia. replace (8 * (b + 1) - 1) with (b * 8 + 7) by lia.
  destruct (Z.testbit x (b * 8 + 7)); [by apply lor_lnot_mask; lia|by apply land_mask; lia].
Qed.

(** ** Exponentiation *)

Lemma to_word_mul_l a b : to_word (to_word a * b) = to_word (a * b).
Proof. apply Z.mul_mod_idemp_l. lia. Qed.
Lemma to_word_mul_r a b : to_word (a * to_word b) = to_word (a * b).
Proof. apply Z.mul_mod_idemp_r. lia. Qed.

Lemma to_word_pow a n : to_word (to_word a ^ n) = to_word (a ^ n).
Proof. apply Z.mod_pow_l. Qed.

(** After [n] bits: the result has taken up the low bits of the exponent, the base
    has been squared [n] times. *)
Lemma exp_word_spec n : forall word r b, 0 <= word -> is_word r -> is_word b ->
  exp_word n word r b = (to_word (r * b ^ (word mod 2 ^ Z.of_nat n)), to_word (b ^ 2 ^ Z.of_nat n)).
Proof.
  induction n as [|n IH]; intros word r b Hw Hr Hb.
  { simpl. rewrite Z.mod_1_r. by rewrite Z.pow_0_r, Z.mul_1_r, Z.pow_1_r, !to_word_small. }
  cbn [exp_word]. rewrite !U256_mod. set (h := Z.shiftr word 1). assert (h = word / 2) as Hh by (unfold h; rewrite Z.shiftr_div_pow2 by lia; done).
  assert (Z.land word 1 = word mod 2) as -> by (change 1 with (Z.ones 1) at 1; rewrite Z.land_ones by lia; done).
  assert (0 <= h) by (subst h; rewrite Hh; apply Z.div_pos; lia).
  rewrite IH; [|done|case_bool_decide; [apply to_word_range|done]|apply to_word_range].
  assert (2 ^ Z.of_nat (S n) = 2 * 2 ^ Z.of_nat n) as Hp by (rewrite Nat2Z.inj_succ, Z.pow_succ_r by lia; done).
  assert (0 < 2 ^ Z.of_nat n) by (apply Z.pow_pos_nonneg; lia).
  assert (word mod 2 ^ Z.of_nat (S n) = 2 * (h mod 2 ^ Z.of_nat n) + word mod 2) as Hm.
  { rewrite Hp, Z.rem_mul_r, Hh by lia. lia. }
  pose proof (Z.mod_pos_bound h (2 ^ Z.of_nat n)). pose proof (Z.mod_pos_bound word 2).
  f_equal.
  - rewrite Hm, Z.pow_add_r, Z.pow_mul_r by lia. replace (b ^ 2) with (b * b) by ring.
    case_bool_decide as Eb.
    + rewrite Eb, Z.pow_1_r, to_word_mul_l. rewrite <- to_word_mul_r, to_word_pow, to_word_mul_r. f_equal. ring.
    + replace (word mod 2) with 0 by lia. rewrite Z.pow_0_r, Z.mul_1_r.
      by rewrite <- to_word_mul_r, to_word_pow, to_word_mul_r.
  - rewrite to_word_pow, Hp, Z.pow_mul_r by lia. do 2 f_equal. ring.
Qed.

Lemma exp_words_spec ws : forall r b, Forall (fun w => 0 <= w < 2 ^ 64) ws -> is_word r -> is_word b ->
  exp_words ws r b = to_word (r * b ^ (foldr (fun w acc => w + 2 ^ 64 * acc) 0 ws)).
Proof.
  induction ws as [|w ws IH]; intros r b Hws Hr Hb; [simpl; by rewrite Z.pow_0_r, Z.mul_1_r, to_word_small|].
  apply Forall_cons in Hws as [Hw Hws]. cbn [exp_words foldr]. rewrite exp_word_spec by (lia || done).
  change (2 ^ Z.of_nat 64) with (2 ^ 64). rewrite Z.mod_small by lia.
  rewrite IH by (done || apply to_word_range).
  assert (0 <= foldr (fun w acc => w + 2 ^ 64 * acc) 0 ws) by (clear -Hws; induction Hws; simpl; lia).
  rewrite to_word_mul_l, <- to_word_mul_r, to_word_pow, to_word_mul_r.
  rewrite Z.pow_add_r, Z.pow_mul_r by lia. f_equal. ring.
Qed.

Lemma bits_loop_value n : forall x, 0 <= x < 2 ^ (64 * Z.of_nat n) ->
  Forall (fun w => 0 <= w < 2 ^ 64) (bits_loop n x) /\ foldr (fun w acc => w + 2 ^ 64 * acc) 0 (bits_loop n x) = x.
Proof.
  induction n as [|n IH]; intros x Hx; [simpl in *; split; [done|lia]|]. cbn [bits_loop].
  case_bool_decide as E; [by subst|]. rewrite Z.shiftr_div_pow2 by lia. change (2 ^ 64 - 1) with (Z.ones 64). rewrite Z.land_ones by lia.
  destruct (IH (x / 2 ^ 64)) as [Hf Hv].
  { split; [apply Z.div_pos; lia|]. apply Z.div_lt_upper_bound; [lia|]. rewrite <- Z.pow_add_r by lia.
    replace (64 + 64 * Z.of_nat n) with (64 * Z.of_nat (S n)) by lia. lia. }
  split; [constructor; [apply Z.mod_pos_bound; lia|done]|]. cbn [foldr]. rewrite Hv. pose proof (Z.div_mod x (2 ^ 64)). lia.
Qed.

Lemma Bits_value x : 0 <= x -> Forall (fun w => 0 <= w < 2 ^ 64) (Bits x) /\ foldr (fun w acc => w + 2 ^ 64 * acc) 0 (Bits x) = x.
Proof.
  intros Hx. unfold Bits. rewrite Z.abs_eq by done. apply bits_loop_value. by apply Bits_fuel.
Qed.

Lemma Exp_spec b e : is_word b -> 0 <= e -> Exp b e = to_word (b ^ e).
Proof.
  intros Hb He. unfold Exp. destruct (Bits_value e He) as [Hf Hv]. rewrite exp_words_spec, Hv, Z.mul_1_l by (done || (unfold is_word; lia)). done.
Qed.

(** ** The instructions compute words *)

Lemma word_U256 x : is_word (U256 x).
Proof. rewrite U256_mod. apply to_word_range. Qed.

Lemma word_small x : 0 <= x < 2 ^ 64 -> is_word x.
Proof. unfold is_word. lia. Qed.

Lemma word_of_bool b : is_word (of_bool b).
Proof. destruct b; by apply word_small. Qed.

Lemma word_bits (f : Z -> Z -> Z) (g : bool -> bool -> bool) x y :
  (forall n, Z.testbit (f x y) n = g (Z.testbit x n) (Z.testbit y n)) -> g false false = false -> 0 <= f x y ->
  is_word x -> is_word y -> is_word (f x y).
Proof.
  intros Hf Hg Hp [Hx0 Hx] [Hy0 Hy]. split; [done|]. destruct (decide (f x y = 0)) as [->|Hn]; [lia|].
  apply Z.log2_lt_pow2; [lia|]. destruct (Z.lt_ge_cases (Z.log2 (f x y)) 256) as [|Hge]; [done|].
  assert (forall z, 0 <= z < 2 ^ 256 -> Z.testbit z (Z.log2 (f x y)) = false) as Hz.
  { intros z [Hz0 Hz]. destruct (decide (z = 0)) as [->|]; [apply Z.testbit_0_l|]. apply Z.bits_above_log2; [done|].
    assert (Z.log2 z < 256) by (apply Z.log2_lt_pow2; lia). lia. }
  pose proof (Z.bit_log2 (f x y) ltac:(lia)) as Hb. by rewrite Hf, !Hz, Hg in Hb by done.
Qed.

Lemma word_land x y : is_word x -> is_word y -> is_word (Z.land x y).
Proof. intros Hx Hy. apply (word_bits Z.land andb); auto using Z.land_spec. apply Z.land_nonneg. left. apply Hx. Qed.
Lemma word_lor x y : is_word x -> is_word y -> is_word (Z.lor x y).
Proof. intros Hx Hy. apply (word_bits Z.lor orb); auto using Z.lor_spec. apply Z.lor_nonneg. split; [apply Hx|apply Hy]. Qed.
Lemma word_lxor x y : is_word x -> is_word y -> is_word (Z.lxor x y).
Proof. intros Hx Hy. apply (word_bits Z.lxor xorb); auto using Z.lxor_spec. apply Z.lxor_nonneg. split; intros _; [apply Hy|apply Hx]. Qed.

Lemma word_byte x y : is_word x -> is_word y -> is_word (w_byte x y).
Proof.
  intros Hx Hy. unfold w_byte, Byte, bigEndianByteAt. repeat case_match; try (by apply word_small).
  apply word_small. pose proof (wrapU_range 8 (Z.shiftr z (8 * ((32 - 1 - big_Int64 x) mod 8))) ltac:(lia)). lia.
Qed.

Lemma word_exp x y : is_word x -> is_word y -> is_word (Exp x y).
Proof. intros Hx [Hy _]. rewrite Exp_spec by done. apply to_word_range. Qed.

Lemma word_signextend x y : is_word x -> is_word y -> is_word (w_signextend x y).
Proof. intros Hx Hy. unfold w_signextend. case_bool_decide; [apply word_U256|done]. Qed.

Create HintDb words.
#[export] Hint Resolve word_U256 word_of_bool word_land word_lor word_lxor word_byte word_exp word_signextend : words.

(** A word, whatever the branches. *)
Ltac word_cases := repeat case_match; first [by apply word_small|apply word_U256|apply word_of_bool].

Lemma word_binary x y :
  is_word x -> is_word y ->
  Forall is_word [w_add x y; w_sub x y; w_mul x y; w_div x y; w_sdiv x y; w_mod x y; w_smod x y; w_lt x y; w_gt x y;
    w_slt x y; w_sgt x y; w_eq x y; w_shl x y; w_shr x y; w_sar x y].
Proof.
  intros Hx Hy. repeat constructor; try apply word_U256; try apply word_of_bool;
    unfold w_div, w_sdiv, w_mod, w_smod, w_slt, w_sgt, w_shl, w_shr, w_sar; word_cases.
Qed.
