(* ===== verification/EvmCode.v ===== *)
(** * Opcodes and jump destinations ([src/core/vm/opcodes.go], [analysis.go])

    A jump must go to a [JUMPDEST] that is an instruction, not data of a push.
    [codeBitmap] marks the data, eight positions at a time where it can; [data_mask]
    is the definition it is meant to compute.  [codeBitmap_spec] shows that it does;
    the theorem about jumps is in [EvmSpec]. *)

From S2P Require Import Prelude Common.

(** ** Opcodes *)

Abbreviation STOP := 0x00 (only parsing).
Abbreviation ADD := 0x01 (only parsing).
Abbreviation MUL := 0x02 (only parsing).
Abbreviation SUB := 0x03 (only parsing).
Abbreviation DIV := 0x04 (only parsing).
Abbreviation SDIV := 0x05 (only parsing).
Abbreviation MOD := 0x06 (only parsing).
Abbreviation SMOD := 0x07 (only parsing).
Abbreviation ADDMOD := 0x08 (only parsing).
Abbreviation MULMOD := 0x09 (only parsing).
Abbreviation EXP := 0x0a (only parsing).
Abbreviation SIGNEXTEND := 0x0b (only parsing).
Abbreviation LT := 0x10 (only parsing).
Abbreviation GT := 0x11 (only parsing).
Abbreviation SLT := 0x12 (only parsing).
Abbreviation SGT := 0x13 (only parsing).
Abbreviation EQ := 0x14 (only parsing).
Abbreviation ISZERO := 0x15 (only parsing).
Abbreviation AND := 0x16 (only parsing).
Abbreviation OR := 0x17 (only parsing).
Abbreviation XOR := 0x18 (only parsing).
Abbreviation NOT := 0x19 (only parsing).
Abbreviation BYTE := 0x1a (only parsing).
Abbreviation SHL := 0x1b (only parsing).
Abbreviation SHR := 0x1c (only parsing).
Abbreviation SAR := 0x1d (only parsing).
Abbreviation SHA3 := 0x20 (only parsing).
Abbreviation ADDRESS := 0x30 (only parsing).
Abbreviation BALANCE := 0x31 (only parsing).
Abbreviation ORIGIN := 0x32 (only parsing).
Abbreviation CALLER := 0x33 (only parsing).
Abbreviation CALLVALUE := 0x34 (only parsing).
Abbreviation CALLDATALOAD := 0x35 (only parsing).
Abbreviation CALLDATASIZE := 0x36 (only parsing).
Abbreviation CALLDATACOPY := 0x37 (only parsing).
Abbreviation CODESIZE := 0x38 (only parsing).
Abbreviation CODECOPY := 0x39 (only parsing).
Abbreviation GASPRICE := 0x3a (only parsing).
Abbreviation EXTCODESIZE := 0x3b (only parsing).
Abbreviation EXTCODECOPY := 0x3c (only parsing).
Abbreviation RETURNDATASIZE := 0x3d (only parsing).
Abbreviation RETURNDATACOPY := 0x3e (only parsing).
Abbreviation EXTCODEHASH := 0x3f (only parsing).
Abbreviation BLOCKHASH := 0x40 (only parsing).
Abbreviation COINBASE := 0x41 (only parsing).
Abbreviation TIMESTAMP := 0x42 (only parsing).
Abbreviation NUMBER := 0x43 (only parsing).
Abbreviation DIFFICULTY := 0x44 (only parsing).
Abbreviation GASLIMIT := 0x45 (only parsing).
Abbreviation POP := 0x50 (only parsing).
Abbreviation MLOAD := 0x51 (only parsing).
Abbreviation MSTORE := 0x52 (only parsing).
Abbreviation MSTORE8 := 0x53 (only parsing).
Abbreviation SLOAD := 0x54 (only parsing).
Abbreviation SSTORE := 0x55 (only parsing).
Abbreviation JUMP := 0x56 (only parsing).
Abbreviation JUMPI := 0x57 (only parsing).
Abbreviation PC := 0x58 (only parsing).
Abbreviation MSIZE := 0x59 (only parsing).
Abbreviation GAS := 0x5a (only parsing).
Abbreviation JUMPDEST := 0x5b (only parsing).
Abbreviation PUSH1 := 0x60 (only parsing).
Abbreviation PUSH32 := 0x7f (only parsing).
Abbreviation DUP1 := 0x80 (only parsing).
Abbreviation SWAP1 := 0x90 (only parsing).
Abbreviation LOG0 := 0xa0 (only parsing).
Abbreviation CREATE := 0xf0 (only parsing).
Abbreviation CALL := 0xf1 (only parsing).
Abbreviation CALLCODE := 0xf2 (only parsing).
Abbreviation RETURN := 0xf3 (only parsing).
Abbreviation DELEGATECALL := 0xf4 (only parsing).
Abbreviation CREATE2 := 0xf5 (only parsing).
Abbreviation STATICCALL := 0xfa (only parsing).
Abbreviation REVERT := 0xfd (only parsing).
Abbreviation SELFDESTRUCT := 0xff (only parsing).

(** ** The bitmap *)

Abbreviation bitvec := (list Z) (only parsing).

(** [bits[i] |= b] *)
Definition or_byte (i : nat) (b : Z) (bits : bitvec) : outcome Empty_set bitvec :=
  match bits !! i with
  | Some x => Ok (<[i := Z.lor x b]> bits)
  | None => Panic
  end.

(** [bitvec.set], [set8], [codeSegment] *)
Definition set (bits : bitvec) (pos : nat) : outcome Empty_set bitvec :=
  or_byte (pos / 8) (Z.shiftr 0x80 (Z.of_nat (pos mod 8))) bits.
Definition set8 (bits : bitvec) (pos : nat) : outcome Empty_set bitvec :=
  bits ← or_byte (pos / 8) (Z.shiftr 0xFF (Z.of_nat (pos mod 8))) bits;
  or_byte (pos / 8 + 1) (u8 (Z.lnot (Z.shiftr 0xFF (Z.of_nat (pos mod 8))))) bits.
Definition codeSegment (bits : bitvec) (pos : nat) : outcome Empty_set bool :=
  match bits !! (pos / 8)%nat with
  | Some x => Ok (bool_decide (Z.land x (Z.shiftr 0x80 (Z.of_nat (pos mod 8))) = 0))
  | None => Panic
  end.

(** [codeBitmap]: the two loops over the data of a push, and the loop over the code.
    A push has at most 32 bytes of data. *)
Fixpoint set8_loop (fuel : nat) (bits : bitvec) (pc numbits : nat) : outcome Empty_set (bitvec * nat * nat) :=
  match fuel with
  | O => OutOfFuel
  | S fuel =>
      if (8 <=? numbits)%nat then bits ← set8 bits pc; set8_loop fuel bits (pc + 8) (numbits - 8)
      else Ok (bits, pc, numbits)
  end.
Fixpoint set_loop (bits : bitvec) (pc numbits : nat) : outcome Empty_set (bitvec * nat) :=
  match numbits with
  | O => Ok (bits, pc)
  | S numbits => bits ← set bits pc; set_loop bits (pc + 1) numbits
  end.
Definition is_push (op : Z) : bool := bool_decide (PUSH1 <= op) && bool_decide (op <= PUSH32).
Definition push_size (op : Z) : nat := Z.to_nat (op - PUSH1 + 1).
Fixpoint bitmap_loop (fuel : nat) (code : list Z) (bits : bitvec) (pc : nat) : outcome Empty_set bitvec :=
  match fuel with
  | O => OutOfFuel
  | S fuel =>
      match code !! pc with
      | None => Ok bits
      | Some op =>
          if is_push op then
            '(bits, pc, numbits) ← set8_loop 5 bits (pc + 1) (push_size op);
            '(bits, pc) ← set_loop bits pc numbits;
            bitmap_loop fuel code bits pc
          else bitmap_loop fuel code bits (pc + 1)
      end
  end.
Definition codeBitmap (code : list Z) : outcome Empty_set bitvec :=
  bitmap_loop (S (length code)) code (repeat 0 (length code / 8 + 1 + 4)) 0.

(** [destinations.has]; the table of bitmaps is kept between calls. *)
Abbreviation destinations := (gmap (list Z) bitvec).
Definition has (d : destinations) (codehash code : list Z) (dest : Z) : outcome Empty_set (bool * destinations) :=
  let udest := big_Uint64 dest in
  if bool_decide (BitLen dest >= 63) || bool_decide (udest >= Z.of_nat (length code)) then Ok (false, d)
  else
    '(m, d) ← match d !! codehash with
              | Some m => Ok (m, d)
              | None => m ← codeBitmap code; Ok (m, <[codehash := m]> d)
              end;
    match code !! Z.to_nat udest with
    | Some op =>
        if bool_decide (op = JUMPDEST) then b ← codeSegment m (Z.to_nat udest); Ok (b, d) else Ok (false, d)
    | None => Panic
    end.

(** ** The definition *)

(** Which bytes are data: [skip] bytes of the current push are left. *)
Fixpoint data_mask (code : list Z) (skip : nat) : list bool :=
  match code, skip with
  | [], _ => []
  | _ :: code, S skip => true :: data_mask code skip
  | op :: code, O => false :: data_mask code (if is_push op then push_size op else 0)
  end.

(** A valid destination. *)
Definition is_jumpdest (code : list Z) (pos : nat) : bool :=
  bool_decide (code !! pos = Some JUMPDEST) && bool_decide (data_mask code 0 !! pos = Some false).

(** ** Correctness *)

Definition bit (bits : bitvec) (q : nat) : bool := Z.testbit (default 0 (bits !! (q / 8)%nat)) (7 - Z.of_nat (q mod 8)).

Lemma div_mod8 q : q = (8 * (q / 8) + q mod 8)%nat /\ (q mod 8 < 8)%nat.
Proof. split; [apply Nat.div_mod; lia|apply Nat.mod_upper_bound; lia]. Qed.

Lemma or_byte_ok bits i b :
  (i < length bits)%nat ->
  exists bits', or_byte i b bits = Ok bits' /\ length bits' = length bits /\
    forall q, bit bits' q = bit bits q || (bool_decide ((q / 8)%nat = i) && Z.testbit b (7 - Z.of_nat (q mod 8))).
Proof.
  intros Hi. unfold or_byte. destruct (lookup_lt_is_Some_2 bits i Hi) as [x Hx]. rewrite Hx. eexists. split; [done|].
  split; [by rewrite length_insert|]. intros q. unfold bit. case_bool_decide as E.
  - subst i. rewrite list_lookup_insert_eq, Hx by done. simpl. by rewrite Z.lor_spec.
  - rewrite list_lookup_insert_ne by done. by rewrite orb_false_r.
Qed.

Lemma testbit_0x80 k j : 0 <= j -> 0 <= k -> Z.testbit (Z.shiftr 0x80 k) j = bool_decide (j + k = 7).
Proof.
  intros Hj Hk. rewrite Z.shiftr_spec by done. change 0x80 with (2 ^ 7). rewrite Z.pow2_bits_eqb by lia.
  case_bool_decide; [apply Z.eqb_eq|apply Z.eqb_neq]; lia.
Qed.

Lemma testbit_0xFF k j : 0 <= j -> 0 <= k -> Z.testbit (Z.shiftr 0xFF k) j = bool_decide (j + k < 8).
Proof.
  intros Hj Hk. rewrite Z.shiftr_spec by done. change 0xFF with (Z.ones 8). rewrite Z.testbit_ones by lia.
  case_bool_decide; [apply andb_true_iff; split; [apply Z.leb_le|apply Z.ltb_lt]; lia|].
  apply andb_false_iff. right. apply Z.ltb_ge. lia.
Qed.

Lemma set_ok bits pos :
  (pos / 8 < length bits)%nat ->
  exists bits', set bits pos = Ok bits' /\ length bits' = length bits /\ forall q, bit bits' q = bit bits q || bool_decide (q = pos).
Proof.
  intros Hp. destruct (or_byte_ok bits (pos / 8) (Z.shiftr 0x80 (Z.of_nat (pos mod 8))) Hp) as (bits' & E & Hl & Hb).
  exists bits'. split; [done|]. split; [done|]. intros q. rewrite Hb. f_equal.
  destruct (div_mod8 q), (div_mod8 pos). rewrite testbit_0x80 by lia.
  repeat case_bool_decide; simpl; try done; exfalso; subst; lia.
Qed.

Lemma set8_ok bits pos :
  (pos / 8 + 1 < length bits)%nat ->
  exists bits', set8 bits pos = Ok bits' /\ length bits' = length bits /\
    forall q, bit bits' q = bit bits q || bool_decide (pos <= q < pos + 8)%nat.
Proof.
  intros Hp. unfold set8.
  destruct (or_byte_ok bits (pos / 8) (Z.shiftr 0xFF (Z.of_nat (pos mod 8)))) as (b1 & E1 & Hl1 & Hb1); [lia|].
  rewrite E1. cbn [mbind outcome_bind].
  destruct (or_byte_ok b1 (pos / 8 + 1) (u8 (Z.lnot (Z.shiftr 0xFF (Z.of_nat (pos mod 8)))))) as (b2 & E2 & Hl2 & Hb2); [lia|].
  exists b2. split; [done|]. split; [congruence|]. intros q. rewrite Hb2, Hb1, <- orb_assoc. f_equal.
  destruct (div_mod8 q), (div_mod8 pos). unfold wrapU. rewrite Z.mod_pow2_bits_low, Z.lnot_spec, !testbit_0xFF by lia.
  repeat case_bool_decide; simpl; try done; exfalso; lia.
Qed.

Lemma set_loop_ok n : forall bits pc,
  (n = 0 \/ (pc + n - 1) / 8 < length bits)%nat ->
  exists bits', set_loop bits pc n = Ok (bits', pc + n)%nat /\ length bits' = length bits /\
    forall q, bit bits' q = bit bits q || bool_decide (pc <= q < pc + n)%nat.
Proof.
  induction n as [|n IH]; intros bits pc Hn; cbn [set_loop].
  { exists bits. rewrite Nat.add_0_r. split; [done|]. split; [done|]. intros q. rewrite bool_decide_false by lia. by rewrite orb_false_r. }
  assert (pc / 8 <= (pc + S n - 1) / 8)%nat by (apply Nat.Div0.div_le_mono; lia).
  destruct (set_ok bits pc) as (b1 & -> & Hl1 & Hb1); [lia|]. cbn [mbind outcome_bind].
  destruct (IH b1 (pc + 1)%nat) as (b2 & -> & Hl2 & Hb2).
  { right. rewrite Hl1. replace (pc + 1 + n - 1)%nat with (pc + S n - 1)%nat by lia. lia. }
  exists b2. split; [do 2 f_equal; lia|]. split; [congruence|]. intros q. rewrite Hb2, Hb1, <- orb_assoc. f_equal.
  repeat case_bool_decide; simpl; try done; exfalso; lia.
Qed.

Lemma set8_loop_ok fuel : forall bits pc n,
  (n / 8 < fuel)%nat -> (n < 8 \/ (pc + n - 8) / 8 + 1 < length bits)%nat ->
  exists bits', set8_loop fuel bits pc n = Ok (bits', pc + 8 * (n / 8), n mod 8)%nat /\ length bits' = length bits /\
    forall q, bit bits' q = bit bits q || bool_decide (pc <= q < pc + 8 * (n / 8))%nat.
Proof.
  induction fuel as [|fuel IH]; intros bits pc n Hf Hn; [lia|]. cbn [set8_loop]. destruct (Nat.leb_spec 8 n).
  - assert (pc / 8 <= (pc + n - 8) / 8)%nat by (apply Nat.Div0.div_le_mono; lia).
    destruct (set8_ok bits pc) as (b1 & -> & Hl1 & Hb1); [lia|]. cbn [mbind outcome_bind].
    assert (n / 8 = (n - 8) / 8 + 1)%nat as Hq.
    { replace n with (n - 8 + 1 * 8)%nat at 1 by lia. by rewrite Nat.div_add by lia. }
    assert (n mod 8 = (n - 8) mod 8)%nat as Hm.
    { replace n with (n - 8 + 1 * 8)%nat at 1 by lia. by rewrite Nat.Div0.mod_add. }
    destruct (IH b1 (pc + 8)%nat (n - 8)%nat) as (b2 & -> & Hl2 & Hb2); [lia| |].
    { destruct (decide (n - 8 < 8)%nat); [by left|right]. rewrite Hl1.
      apply Nat.le_lt_trans with ((pc + n - 8) / 8 + 1)%nat; [apply Nat.add_le_mono_r, Nat.Div0.div_le_mono|]; lia. }
    exists b2. split; [rewrite Hq, Hm; do 3 f_equal; lia|]. split; [congruence|]. intros q. rewrite Hb2, Hb1, <- orb_assoc. f_equal.
    repeat case_bool_decide; simpl; try done; exfalso; lia.
  - exists bits. rewrite Nat.div_small, Nat.mod_small, Nat.add_0_r by lia. split; [done|]. split; [done|]. intros q.
    rewrite bool_decide_false by lia. by rewrite orb_false_r.
Qed.

Lemma push_loops_ok bits pc n :
  (n <= 32)%nat -> (pc / 8 + 4 < length bits)%nat ->
  exists bits', ('(bits, pc, numbits) ← set8_loop 5 bits pc n; set_loop bits pc numbits) = Ok (bits', pc + n)%nat /\ length bits' = length bits /\
    forall q, bit bits' q = bit bits q || bool_decide (pc <= q < pc + n)%nat.
Proof.
  intros Hn Hl. destruct (div_mod8 n) as [Hd Hm].
  destruct (set8_loop_ok 5 bits pc n) as (b1 & -> & Hl1 & Hb1); [apply Nat.Div0.div_lt_upper_bound; lia| |].
  { right. apply Nat.le_lt_trans with ((pc + 3 * 8) / 8 + 1)%nat; [apply Nat.add_le_mono_r, Nat.Div0.div_le_mono; lia|rewrite Nat.div_add; lia]. }
  cbn [mbind outcome_bind].
  destruct (set_loop_ok (n mod 8) b1 (pc + 8 * (n / 8))%nat) as (b2 & -> & Hl2 & Hb2).
  { right. rewrite Hl1. apply Nat.le_lt_trans with ((pc + 4 * 8) / 8)%nat; [apply Nat.Div0.div_le_mono; lia|rewrite Nat.div_add; lia]. }
  exists b2. split; [do 2 f_equal; lia|]. split; [congruence|]. intros q. rewrite Hb2, Hb1, <- orb_assoc. f_equal.
  repeat case_bool_decide; simpl; try done; exfalso; lia.
Qed.

Lemma data_mask_skip code : forall n, data_mask code n = replicate (n `min` length code) true ++ data_mask (drop n code) 0.
Proof.
  induction code as [|op code IH]; intros n; [rewrite drop_nil, Nat.min_0_r; by destruct n|].
  destruct n as [|n]; [done|]. cbn [data_mask]. rewrite IH. done.
Qed.

Lemma length_data_mask code : forall n, length (data_mask code n) = length code.
Proof. induction code as [|op code IH]; intros [|n]; cbn [data_mask length]; auto. Qed.

Lemma push_size_le op : is_push op = true -> (1 <= push_size op <= 32)%nat.
Proof. unfold is_push, push_size. intros [H1%bool_decide_eq_true H2%bool_decide_eq_true]%andb_true_iff. lia. Qed.

(** From [pc] on the loop marks what the definition marks. *)
Lemma bitmap_loop_ok code fuel : forall bits pc,
  (length code - pc < fuel)%nat -> (length bits = length code / 8 + 5)%nat -> (forall q, (pc <= q)%nat -> bit bits q = false) ->
  exists bits', bitmap_loop fuel code bits pc = Ok bits' /\ length bits' = length bits /\
    forall q, (q < length code)%nat ->
      bit bits' q = if (q <? pc)%nat then bit bits q else default false (data_mask (drop pc code) 0 !! (q - pc)%nat).
Proof.
  induction fuel as [|fuel IH]; intros bits pc Hf Hl Hz; [lia|]. cbn [bitmap_loop]. destruct (code !! pc) as [op|] eqn:Eop.
  - pose proof (lookup_lt_Some _ _ _ Eop) as Hpc. rewrite (drop_S _ _ _ Eop). cbn [data_mask].
    assert (pc / 8 <= length code / 8)%nat by (apply Nat.Div0.div_le_mono; lia).
    destruct (is_push op) eqn:Ep.
    + pose proof (push_size_le op Ep) as Hs.
      assert ((pc + 1) / 8 <= length code / 8)%nat by (apply Nat.Div0.div_le_mono; lia).
      destruct (push_loops_ok bits (pc + 1) (push_size op)) as (b1 & E1 & Hl1 & Hb1); [lia|lia|].
      apply bind_ok_inv in E1 as ([[b0 p0] n0] & E0 & E1). rewrite E0. cbn [mbind outcome_bind]. rewrite E1. cbn [mbind outcome_bind].
      destruct (IH b1 (pc + 1 + push_size op)%nat) as (b2 & E2 & Hl2 & Hb2); [lia|congruence| |].
      { intros q Hq. rewrite Hb1, Hz, bool_decide_false by lia. done. }
      exists b2. split; [done|]. split; [congruence|]. intros q Hq. rewrite (Hb2 q Hq), Hb1.
      destruct (Nat.ltb_spec q (pc + 1 + push_size op)) as [H1|H1], (Nat.ltb_spec q pc) as [H2|H2]; try lia.
      * by rewrite bool_decide_false, orb_false_r by lia.
      * rewrite Hz by lia. destruct (q - pc)%nat as [|d] eqn:Ed; [by rewrite bool_decide_false by lia|].
        rewrite bool_decide_true by lia. simpl. rewrite data_mask_skip, lookup_app_l, lookup_replicate_2; [done|..];
          rewrite ?length_replicate, ?length_drop; lia.
      * destruct (q - pc)%nat as [|d] eqn:Ed; [lia|]. simpl. rewrite (data_mask_skip (drop (S pc) code)), drop_drop, length_drop.
        rewrite lookup_app_r, length_replicate; [|rewrite length_replicate; lia].
        rewrite Nat.min_l by lia. replace (pc + 1 + push_size op)%nat with (S pc + push_size op)%nat by lia.
        by replace (q - (S pc + push_size op))%nat with (d - push_size op)%nat by lia.
    + destruct (IH bits (pc + 1)%nat) as (b2 & E2 & Hl2 & Hb2); [lia|done|intros q Hq; apply Hz; lia|].
      exists b2. split; [done|]. split; [done|]. intros q Hq. rewrite (Hb2 q Hq).
      destruct (Nat.ltb_spec q (pc + 1)) as [H1|H1], (Nat.ltb_spec q pc) as [H2|H2]; try lia; [done|..].
      * rewrite Hz by lia. by replace (q - pc)%nat with 0%nat by lia.
      * destruct (q - pc)%nat as [|d] eqn:Ed; [lia|]. simpl. replace (pc + 1)%nat with (S pc) by lia.
        by replace (q - S pc)%nat with d by lia.
  - apply lookup_ge_None in Eop. exists bits. split; [done|]. split; [done|]. intros q Hq.
    destruct (Nat.ltb_spec q pc); [done|lia].
Qed.

Lemma bit_zeroes n q : bit (repeat 0 n) q = false.
Proof.
  unfold bit. destruct (repeat 0 n !! (q / 8)%nat) as [x|] eqn:E; simpl; [|apply Z.bits_0].
  apply list_elem_of_lookup_2, list_elem_of_In, repeat_spec in E. subst. apply Z.bits_0.
Qed.

Lemma codeSegment_bit bits q : (q / 8 < length bits)%nat -> codeSegment bits q = Ok (negb (bit bits q)).
Proof.
  intros Hq. unfold codeSegment, bit. destruct (lookup_lt_is_Some_2 bits _ Hq) as [x Hx]. rewrite Hx. cbn [from_option]. unfold id. f_equal.
  destruct (div_mod8 q) as [_ Hm]. set (k := Z.of_nat (q mod 8)). assert (0 <= k < 8) by (unfold k; lia).
  assert (Z.shiftr 0x80 k = 2 ^ (7 - k)) as ->.
  { change 0x80 with (2 ^ 7). rewrite Z.shiftr_div_pow2 by lia. rewrite <- Z.pow_sub_r by lia. done. }
  destruct (Z.testbit x (7 - k)) eqn:Eb; simpl; [apply bool_decide_false|apply bool_decide_true].
  - intros E0. apply (f_equal (fun z => Z.testbit z (7 - k))) in E0. rewrite Z.land_spec, Eb, Z.pow2_bits_true, Z.bits_0 in E0 by lia. done.
  - apply Z.bits_inj'. intros i Hi. rewrite Z.land_spec, Z.bits_0, Z.pow2_bits_eqb by lia.
    destruct (Z.eqb_spec (7 - k) i); [subst; by rewrite Eb|by rewrite andb_false_r].
Qed.

(** The bitmap is computed, and marks exactly the data. *)
Lemma codeBitmap_spec code :
  exists bits, codeBitmap code = Ok bits /\
    forall q, (q < length code)%nat -> codeSegment bits q = Ok (bool_decide (data_mask code 0 !! q = Some false)).
Proof.
  destruct (bitmap_loop_ok code (S (length code)) (repeat 0 (length code / 8 + 1 + 4)) 0) as (bits & E & Hl & Hb).
  - lia.
  - rewrite repeat_length. lia.
  - intros q _. apply bit_zeroes.
  - exists bits. split; [done|]. intros q Hq. rewrite repeat_length in Hl.
    assert (q / 8 <= length code / 8)%nat by (apply Nat.Div0.div_le_mono; lia).
    rewrite codeSegment_bit, (Hb q Hq) by lia. simpl. rewrite drop_0, Nat.sub_0_r. f_equal.
    destruct (lookup_lt_is_Some_2 (data_mask code 0) q) as [b Eb]; [by rewrite length_data_mask|]. rewrite Eb. simpl.
    by destruct b.
Qed.

(** ** Destinations *)

(** The table holds nothing else for the code at hand. *)
Definition cached_for (d : destinations) (codehash code : list Z) : Prop :=
  forall m, d !! codehash = Some m -> codeBitmap code = Ok m.

Lemma BitLen_small x : 0 <= x < 2 ^ 62 -> BitLen x < 63.
Proof.
  intros Hx. unfold BitLen. case_bool_decide; [lia|]. rewrite Z.abs_eq by lia.
  assert (Z.log2 x < 62) by (apply Z.log2_lt_pow2; lia). lia.
Qed.

(** [has] accepts exactly the jump destinations, and keeps the table right. *)
Lemma has_spec d codehash code dest :
  cached_for d codehash code -> 0 <= dest -> Z.of_nat (length code) < 2 ^ 62 ->
  exists d', has d codehash code dest = Ok (is_jumpdest code (Z.to_nat dest), d') /\ cached_for d' codehash code /\
    (forall h, h <> codehash -> d' !! h = d !! h).
Proof.
  intros Hd Hdest Hlen. unfold has. cbv zeta. unfold is_jumpdest.
  destruct (decide (dest < Z.of_nat (length code))) as [Hlt|Hge].
  - assert (big_Uint64 dest = dest) as -> by (unfold big_Uint64; rewrite Z.abs_eq, wrapU_small by lia; done).
    pose proof (BitLen_small dest ltac:(lia)). rewrite !bool_decide_false by lia. cbn [orb].
    destruct (codeBitmap_spec code) as (m & Em & Hm).
    assert (exists d', match d !! codehash with Some m => Ok (m, d) | None => m ← codeBitmap code; Ok (m, <[codehash:=m]> d) end = Ok (m, d')
      /\ cached_for d' codehash code /\ forall h, h <> codehash -> d' !! h = d !! h) as (d' & -> & Hd' & Ho).
    { destruct (d !! codehash) as [m'|] eqn:Ed.
      - exists d. apply Hd in Ed as Ed'. rewrite Em in Ed'. injection Ed' as ->. done.
      - rewrite Em. eexists. split; [done|]. split; [|intros h Hh; by rewrite lookup_insert_ne].
        intros m' Hm'. rewrite lookup_insert_eq in Hm'. by injection Hm' as <-. }
    cbn [mbind outcome_bind]. destruct (lookup_lt_is_Some_2 code (Z.to_nat dest)) as [op Eop]; [lia|]. rewrite Eop.
    exists d'. split; [|done]. destruct (bool_decide_reflect (op = JUMPDEST)) as [->|Hne].
    + rewrite Hm by lia. rewrite (bool_decide_true (Some _ = _)) by done. reflexivity.
    + rewrite (bool_decide_false (Some _ = _)) by congruence. reflexivity.
  - exists d. split; [|done]. rewrite (bool_decide_false (code !! _ = _)); [|rewrite lookup_ge_None_2 by lia; done].
    destruct (decide (BitLen dest >= 63)) as [Hb|Hb]; [by rewrite bool_decide_true|]. rewrite bool_decide_false by done.
    assert (dest < 2 ^ 62).
    { destruct (decide (dest < 2 ^ 62)) as [|Hbig]; [done|]. exfalso. apply Hb. unfold BitLen. rewrite bool_decide_false by lia.
      rewrite Z.abs_eq by lia. pose proof (Z.log2_le_mono (2 ^ 62) dest ltac:(lia)) as Hm. rewrite Z.log2_pow2 in Hm by lia. lia. }
    unfold big_Uint64. rewrite Z.abs_eq, wrapU_small, bool_decide_true by lia. done.
Qed.
