(* ===== verification/EvmMachine.v ===== *)
(** * The machine: memory, contracts, gas ([src/core/vm/memory.go], [common.go],
      [contract.go], [gas.go], [stack.go], [errors.go])

    The stack is the list of its words, the top first.  Memory is a list of bytes.
    A slice out of range panics.  The pool of big integers is left out, a [*big.Int]
    on the stack is its value: no instruction keeps a reference to an integer it has
    put back.  The tables of jump destinations, shared between contracts, are left
    out as well: [has_spec] shows that they only cache.

    [Set32_ok] and [ReadBits_spec]: a word is written as its 32 bytes.
    [memory_gas_exact]: the fee for growing memory is the one of the quadratic
    formula up to 0x1fffffffe0 bytes; [memory_gas_wraps]: above, where the code
    still accepts the size, the square overflows. *)

From S2P Require Import Prelude Common Rlp Params EvmWord EvmCode.

(** ** Errors *)

Inductive vm_error : Type :=
  | ErrOutOfGas
  | ErrCodeStoreOutOfGas
  | ErrDepth
  | ErrInsufficientBalance
  | ErrContractAddressCollision
  | errWriteProtection
  | errReturnDataOutOfBounds
  | errExecutionReverted
  | errMaxCodeSizeExceeded
  | errGasUintOverflow
  | errInvalidOpcode (op : Z)
  | errStackUnderflow (len n : Z)
  | errStackLimit (len : Z)
  | errInvalidJump (nop pos : Z)
  | errBadPairingInput
  | errCurvePoint.

#[global] Instance vm_error_eq_dec : EqDecision vm_error.
Proof. solve_decision. Defined.

(** ** Machine integers *)

Definition MaxUint64 : Z := 2 ^ 64 - 1.

Definition SafeAdd (x y : Z) : Z * bool := (u64 (x + y), bool_decide (y > MaxUint64 - x)).
Definition SafeMul (x y : Z) : Z * bool :=
  if bool_decide (x = 0) || bool_decide (y = 0) then (0, false)
  else (u64 (x * y), bool_decide (y > MaxUint64 / x)).

(** [bigUint64], [toWordSize], [calcMemSize], [allZero] *)
Definition bigUint64 (v : Z) : Z * bool := (big_Uint64 v, bool_decide (BitLen v > 64)).
Definition toWordSize (size : Z) : Z :=
  if bool_decide (size > MaxUint64 - 31) then MaxUint64 / 32 + 1 else (size + 31) / 32.
Definition calcMemSize (off l : Z) : Z := if bool_decide (l = 0) then 0 else off + l.
Definition allZero (b : list Z) : bool := forallb (fun x => bool_decide (x = 0)) b.

(** ** Slices *)

(** [l\[i:j\]] *)
Definition slice (l : list Z) (i j : Z) : outcome Empty_set (list Z) :=
  if bool_decide (0 <= i /\ i <= j /\ j <= Z.of_nat (length l))
  then Ok (take (Z.to_nat (j - i)) (drop (Z.to_nat i) l)) else Panic.

(** The limit of the Go runtime on the size of an allocation, 2^48 bytes on 64-bit
    systems; the memory of the machine, below 2^40 bytes, is within it. *)
Class Runtime := {
  maxAlloc : Z;
  maxAlloc_large : 2 ^ 40 <= maxAlloc
}.

(** [make(\[\]byte, n)] *)
Definition make `{Runtime} (n : Z) : outcome Empty_set (list Z) :=
  if bool_decide (0 <= n <= maxAlloc) then Ok (zeroes (Z.to_nat n)) else Panic.

(** [RightPadBytes] and [LeftPadBytes] *)
Definition RightPadBytes `{Runtime} (l : list Z) (n : Z) : outcome Empty_set (list Z) :=
  if bool_decide (n <= Z.of_nat (length l)) then Ok l
  else padded ← make n; Ok (l ++ drop (length l) padded).
Definition LeftPadBytes `{Runtime} (l : list Z) (n : Z) : outcome Empty_set (list Z) :=
  if bool_decide (n <= Z.of_nat (length l)) then Ok l
  else padded ← make n; Ok (take (Z.to_nat n - length l) padded ++ l).

(** [BigToHash], [BigToAddress] *)
Definition BigToHash (b : Z) : list Z := BytesToHash (big_bytes b).
Definition BigToAddress (b : Z) : list Z := BytesToAddress (big_bytes b).

Definition getData `{Runtime} (data : list Z) (start size : Z) : outcome Empty_set (list Z) :=
  let len := Z.of_nat (length data) in
  let start := if bool_decide (start > len) then len else start in
  let stop := u64 (start + size) in
  let stop := if bool_decide (stop > len) then len else stop in
  d ← slice data start stop;
  RightPadBytes d (i64 size).

Definition getDataBig `{Runtime} (data : list Z) (start size : Z) : outcome Empty_set (list Z) :=
  let dlen := Z.of_nat (length data) in
  let s := BigMin start dlen in
  let e := BigMin (s + size) dlen in
  d ← slice data (big_Uint64 s) (big_Uint64 e);
  RightPadBytes d (i64 (big_Uint64 size)).

(** ** Memory *)

Record Memory := mkMemory {
  m_store : list Z;
  m_lastGasCost : Z
}.

Definition NewMemory : Memory := mkMemory [] 0.
Definition m_Len (m : Memory) : Z := Z.of_nat (length (m_store m)).

(** [copy(l\[off:off+size\], value)] *)
Definition copy_at (l : list Z) (off size : Z) (value : list Z) : outcome Empty_set (list Z) :=
  _ ← slice l off (off + size);
  let value := take (Z.to_nat size) value in
  Ok (take (Z.to_nat off) l ++ value ++ drop (Z.to_nat off + length value) l).

Definition m_Set (m : Memory) (offset size : Z) (value : list Z) : outcome Empty_set Memory :=
  if bool_decide (size > 0) then
    if bool_decide (u64 (offset + size) > m_Len m) then Panic
    else s ← copy_at (m_store m) offset size value; Ok (mkMemory s (m_lastGasCost m))
  else Ok m.

(** [ReadBits]: the inner loop over a word, the outer one over the words; [i] bytes
    of the buffer are left. *)
Fixpoint read_word (n i : nat) (d : Z) (buf : list Z) : nat * list Z :=
  match n, i with
  | S n, S i => read_word n i (Z.shiftr d 8) (<[i := u8 d]> buf)
  | _, _ => (i, buf)
  end.
Fixpoint read_words (ws : list Z) (i : nat) (buf : list Z) : list Z :=
  match ws with
  | [] => buf
  | d :: ws => let '(i, buf) := read_word 8 i d buf in read_words ws i buf
  end.
Definition ReadBits (x : Z) (buf : list Z) : list Z := read_words (Bits x) (length buf) buf.

Definition m_Set32 (m : Memory) (offset val : Z) : outcome Empty_set Memory :=
  if bool_decide (u64 (offset + 32) > m_Len m) then Panic
  else
    s ← copy_at (m_store m) offset 32 (zeroes 32);
    w ← slice s offset (offset + 32);
    s ← copy_at s offset 32 (ReadBits val w);
    Ok (mkMemory s (m_lastGasCost m)).

(** The interpreter has checked the size against the limit of [memoryGasCost], which is
    below that of [make]. *)
Definition m_Resize (m : Memory) (size : Z) : Memory :=
  if bool_decide (m_Len m < size) then mkMemory (m_store m ++ zeroes (Z.to_nat (size - m_Len m))) (m_lastGasCost m) else m.

(** [Get] and [GetPtr]; the copy and the slice have the same bytes. *)
Definition m_Get (m : Memory) (offset size : Z) : outcome Empty_set (list Z) :=
  if bool_decide (size = 0) then Ok []
  else if bool_decide (m_Len m > offset) then slice (m_store m) offset (offset + size) else Ok [].
Definition m_GetPtr (m : Memory) (offset size : Z) : outcome Empty_set (list Z) :=
  if bool_decide (size = 0) then Ok []
  else if bool_decide (m_Len m > offset) then slice (m_store m) offset (offset + size) else Ok [].

(** ** Contracts *)

(** [Contract]; of [self] only the address is used. *)
Record Contract := mkContract {
  CallerAddress : list Z;
  c_self : list Z;
  c_Code : list Z;
  c_CodeHash : list Z;
  c_CodeAddr : option (list Z);
  c_Input : list Z;
  c_Gas : Z;
  c_value : option Z;
  c_DelegateCall : bool
}.

(** The implementations of [ContractRef]. *)
Inductive ContractRef : Type :=
  | AccountRef (a : list Z)
  | ContractObj (c : Contract).

Definition ref_Address (r : ContractRef) : list Z :=
  match r with AccountRef a => a | ContractObj c => c_self c end.

Definition NewContract (caller : ContractRef) (object : list Z) (value : option Z) (gas : Z) : Contract :=
  mkContract (ref_Address caller) object [] emptyHash None [] gas value false.

(** [AsDelegate]; [caller] is the one the contract was made with. *)
Definition AsDelegate (caller : ContractRef) (c : Contract) : outcome Empty_set Contract :=
  match caller with
  | ContractObj parent =>
      Ok (mkContract (CallerAddress parent) (c_self c) (c_Code c) (c_CodeHash c) (c_CodeAddr c) (c_Input c) (c_Gas c)
            (c_value parent) true)
  | AccountRef _ => Panic
  end.

Definition GetByte (c : Contract) (n : Z) : Z :=
  if bool_decide (n < Z.of_nat (length (c_Code c))) then default 0 (c_Code c !! Z.to_nat n) else 0.
Definition GetOp (c : Contract) (n : Z) : Z := GetByte c n.

Definition set_gas (gas : Z) (c : Contract) : Contract :=
  mkContract (CallerAddress c) (c_self c) (c_Code c) (c_CodeHash c) (c_CodeAddr c) (c_Input c) gas (c_value c) (c_DelegateCall c).
Definition set_input (input : list Z) (c : Contract) : Contract :=
  mkContract (CallerAddress c) (c_self c) (c_Code c) (c_CodeHash c) (c_CodeAddr c) input (c_Gas c) (c_value c) (c_DelegateCall c).

Definition UseGas (gas : Z) (c : Contract) : bool * Contract :=
  if bool_decide (c_Gas c < gas) then (false, c) else (true, set_gas (u64 (c_Gas c - gas)) c).

Definition SetCallCode (addr : list Z) (hash code : list Z) (c : Contract) : Contract :=
  mkContract (CallerAddress c) (c_self c) code hash (Some addr) (c_Input c) (c_Gas c) (c_value c) (c_DelegateCall c).

(** ** Prices *)

Abbreviation GasQuickStep := 2 (only parsing).
Abbreviation GasFastestStep := 3 (only parsing).
Abbreviation GasFastStep := 5 (only parsing).
Abbreviation GasMidStep := 8 (only parsing).
Abbreviation GasSlowStep := 10 (only parsing).
Abbreviation GasExtStep := 20 (only parsing).

(** [src/params/protocol_params.go] *)
Abbreviation CallValueTransferGas := 9000 (only parsing).
Abbreviation CallNewAccountGas := 25000 (only parsing).
Abbreviation TxGas := 21000 (only parsing).
Abbreviation TxGasContractCreation := 53000 (only parsing).
Abbreviation TxDataZeroGas := 4 (only parsing).
Abbreviation QuadCoeffDiv := 512 (only parsing).
Abbreviation SstoreSetGas := 20000 (only parsing).
Abbreviation LogDataGas := 8 (only parsing).
Abbreviation CallStipend := 2300 (only parsing).
Abbreviation Sha3Gas := 30 (only parsing).
Abbreviation Sha3WordGas := 6 (only parsing).
Abbreviation SstoreResetGas := 5000 (only parsing).
Abbreviation SstoreClearGas := 5000 (only parsing).
Abbreviation SstoreRefundGas := 15000 (only parsing).
Abbreviation JumpdestGas := 1 (only parsing).
Abbreviation CreateDataGas := 200 (only parsing).
Abbreviation CallCreateDepth := 1024 (only parsing).
Abbreviation LogGas := 375 (only parsing).
Abbreviation CopyGas := 3 (only parsing).
Abbreviation StackLimit := 1024 (only parsing).
Abbreviation LogTopicGas := 375 (only parsing).
Abbreviation CreateGas := 32000 (only parsing).
Abbreviation Create2Gas := 32000 (only parsing).
Abbreviation SuicideRefundGas := 24000 (only parsing).
Abbreviation MemoryGas := 3 (only parsing).
Abbreviation TxDataNonZeroGas := 68 (only parsing).
Abbreviation MaxCodeSize := 24576 (only parsing).
Abbreviation EcrecoverGas := 3000 (only parsing).
Abbreviation Sha256BaseGas := 60 (only parsing).
Abbreviation Sha256PerWordGas := 12 (only parsing).
Abbreviation Ripemd160BaseGas := 600 (only parsing).
Abbreviation Ripemd160PerWordGas := 120 (only parsing).
Abbreviation IdentityBaseGas := 15 (only parsing).
Abbreviation IdentityPerWordGas := 3 (only parsing).
Abbreviation ModExpQuadCoeffDiv := 20 (only parsing).
Abbreviation Bn256AddGas := 500 (only parsing).
Abbreviation Bn256ScalarMulGas := 40000 (only parsing).
Abbreviation Bn256PairingBaseGas := 100000 (only parsing).
Abbreviation Bn256PairingPerPointGas := 80000 (only parsing).

(** [callGas] *)
Definition callGas (gasTable : GasTable) (availableGas base callCost : Z) : outcome vm_error Z :=
  let availableGas := u64 (availableGas - base) in
  let gas := u64 (availableGas - availableGas / 64) in
  if bool_decide (gt_CreateBySuicide gasTable > 0) && (bool_decide (BitLen callCost > 64) || bool_decide (gas < big_Uint64 callCost))
  then Ok gas
  else if bool_decide (BitLen callCost > 64) then Err errGasUintOverflow
  else Ok (big_Uint64 callCost).

(** [memoryGasCost]; the memory remembers the fee. *)
Definition memoryGasCost (mem : Memory) (newMemSize : Z) : outcome vm_error (Z * Memory) :=
  if bool_decide (newMemSize = 0) then Ok (0, mem)
  else if bool_decide (newMemSize > 0xffffffffe0) then Err errGasUintOverflow
  else
    let newMemSizeWords := toWordSize newMemSize in
    let newMemSize := u64 (newMemSizeWords * 32) in
    if bool_decide (newMemSize > m_Len mem) then
      let square := u64 (newMemSizeWords * newMemSizeWords) in
      let linCoef := u64 (newMemSizeWords * MemoryGas) in
      let quadCoef := square / QuadCoeffDiv in
      let newTotalFee := u64 (linCoef + quadCoef) in
      let fee := u64 (newTotalFee - m_lastGasCost mem) in
      Ok (fee, mkMemory (m_store mem) newTotalFee)
    else Ok (0, mem).

(** [IntrinsicGas] of [src/core/state_transition.go] *)
Definition IntrinsicGas (data : list Z) (contractCreation homestead : bool) : outcome vm_error Z :=
  let gas := if contractCreation && homestead then TxGasContractCreation else TxGas in
  if bool_decide (0 < length data)%nat then
    let nz := u64 (Z.of_nat (length (filter (fun b => b <> 0) data))) in
    if bool_decide ((MaxUint64 - gas) / TxDataNonZeroGas < nz) then Err ErrOutOfGas
    else
      let gas := u64 (gas + u64 (nz * TxDataNonZeroGas)) in
      let z := u64 (Z.of_nat (length data) - nz) in
      if bool_decide (u64 (MaxUint64 - gas) / TxDataZeroGas < z) then Err ErrOutOfGas
      else Ok (u64 (gas + u64 (z * TxDataZeroGas)))
  else Ok gas.

(** [GasPool] of [src/core/gaspool.go] *)
Inductive pool_error : Type := ErrGasLimitReached.
Definition AddGas (gp amount : Z) : outcome pool_error Z :=
  if bool_decide (gp > MaxUint64 - amount) then Panic else Ok (u64 (gp + amount)).
Definition SubGas (gp amount : Z) : outcome pool_error Z :=
  if bool_decide (gp < amount) then Err ErrGasLimitReached else Ok (u64 (gp - amount)).

(** ** Properties of slices *)

Lemma slice_ok l i j :
  0 <= i -> i <= j -> j <= Z.of_nat (length l) -> slice l i j = Ok (take (Z.to_nat (j - i)) (drop (Z.to_nat i) l)).
Proof. intros. unfold slice. by rewrite bool_decide_true. Qed.

Lemma slice_length l i j d : slice l i j = Ok d -> Z.of_nat (length d) = j - i.
Proof.
  unfold slice. case_bool_decide as Hb; [|done]. intros [= <-]. rewrite length_take, length_drop. lia.
Qed.

Lemma slice_bytes l i j d : bytes_ok l -> slice l i j = Ok d -> bytes_ok d.
Proof. unfold slice. intros Hl. case_bool_decide; [|done]. intros [= <-]. auto with godb. Qed.

(** What padding gives within the limit. *)
Definition right_pad (l : list Z) (n : Z) : list Z :=
  if bool_decide (n <= Z.of_nat (length l)) then l else l ++ zeroes (Z.to_nat n - length l).
Definition left_pad (l : list Z) (n : Z) : list Z :=
  if bool_decide (n <= Z.of_nat (length l)) then l else zeroes (Z.to_nat n - length l) ++ l.

Lemma RightPadBytes_run `{Runtime} l n : n <= maxAlloc -> RightPadBytes l n = Ok (right_pad l n).
Proof.
  intros Hn. unfold RightPadBytes, right_pad, make, zeroes. case_bool_decide; [done|].
  rewrite bool_decide_true by lia. cbn [mbind outcome_bind]. by rewrite drop_replicate.
Qed.
Lemma LeftPadBytes_run `{Runtime} l n : n <= maxAlloc -> LeftPadBytes l n = Ok (left_pad l n).
Proof.
  intros Hn. unfold LeftPadBytes, left_pad, make, zeroes. case_bool_decide; [done|].
  rewrite bool_decide_true by lia. cbn [mbind outcome_bind]. rewrite take_replicate. do 3 f_equal. lia.
Qed.

(** Above the limit padding panics. *)
Lemma RightPadBytes_panics `{Runtime} l n : Z.of_nat (length l) < n -> maxAlloc < n -> RightPadBytes l n = Panic.
Proof. intros Hl Hn. unfold RightPadBytes, make. by rewrite !bool_decide_false by lia. Qed.

Lemma right_pad_ok l n : bytes_ok l -> bytes_ok (right_pad l n).
Proof. intros Hl. unfold right_pad. case_bool_decide; [done|]. apply bytes_ok_app. split; [done|apply bytes_ok_zeroes]. Qed.
Lemma left_pad_ok l n : bytes_ok l -> bytes_ok (left_pad l n).
Proof. intros Hl. unfold left_pad. case_bool_decide; [done|]. apply bytes_ok_app. split; [apply bytes_ok_zeroes|done]. Qed.

Lemma right_pad_length l n : Z.of_nat (length (right_pad l n)) = Z.max (Z.of_nat (length l)) n.
Proof. unfold right_pad, zeroes. case_bool_decide; [lia|]. rewrite length_app, length_replicate. lia. Qed.
Lemma left_pad_length l n : Z.of_nat (length (left_pad l n)) = Z.max (Z.of_nat (length l)) n.
Proof. unfold left_pad, zeroes. case_bool_decide; [lia|]. rewrite length_app, length_replicate. lia. Qed.

(** Bytes [start] to [start + size] of a string that goes on with zeroes. *)
Definition window (data : list Z) (start size : nat) : list Z := take size (drop start data ++ zeroes size).

Lemma window_length data start size : length (window data start size) = size.
Proof. unfold window, zeroes. rewrite length_take, length_app, length_replicate. lia. Qed.

Lemma window_bytes data start size : bytes_ok data -> bytes_ok (window data start size).
Proof. intros Hd. apply bytes_ok_take, bytes_ok_app. split; [auto with godb|apply bytes_ok_zeroes]. Qed.

Lemma window_pad data start size :
  right_pad (take size (drop start data)) (Z.of_nat size) = window data start size.
Proof.
  unfold right_pad, window, zeroes. rewrite length_take, length_drop. case_bool_decide as E.
  - rewrite take_app_le by (rewrite length_drop; lia). done.
  - rewrite (take_ge (drop _ _)) by (rewrite length_drop; lia). rewrite take_app, (take_ge (drop _ _)) by (rewrite length_drop; lia).
    f_equal. rewrite take_replicate, length_drop. f_equal. lia.
Qed.

Lemma take_window (data : list Z) (i j n : Z) :
  0 <= i -> 0 <= n -> j = Z.min (i + n) (Z.of_nat (length data)) -> i <= j ->
  take (Z.to_nat (j - i)) (drop (Z.to_nat i) data) = take (Z.to_nat n) (drop (Z.to_nat i) data).
Proof.
  intros Hi Hn -> Hle. destruct (decide (i + n <= Z.of_nat (length data))); [f_equal; lia|].
  rewrite !take_ge; [done|rewrite length_drop; lia..].
Qed.

Lemma drop_clamp (data : list Z) start : 0 <= start ->
  drop (Z.to_nat (Z.min start (Z.of_nat (length data)))) data = drop (Z.to_nat start) data.
Proof.
  intros Hs. destruct (decide (start <= Z.of_nat (length data))); [f_equal; lia|].
  rewrite !drop_ge by lia. done.
Qed.

(** [getData] and [getDataBig] read past the end as zeroes. *)
Lemma getData_ok `{Runtime} data start size :
  0 <= start -> 0 <= size <= maxAlloc -> Z.of_nat (length data) + size < 2 ^ 63 ->
  getData data start size = Ok (window data (Z.to_nat start) (Z.to_nat size)).
Proof.
  intros Hs Hn Hb. unfold getData. cbv zeta. set (s := if bool_decide (start > _) then _ else _).
  assert (s = Z.min start (Z.of_nat (length data))) as Es by (subst s; case_bool_decide; lia).
  rewrite u64_small by (unfold in_u64; lia). set (e := if bool_decide (s + size > _) then _ else _).
  assert (e = Z.min (s + size) (Z.of_nat (length data))) as Ee by (subst e; case_bool_decide; lia).
  rewrite slice_ok by lia. cbn [mbind outcome_bind]. rewrite i64_small, RightPadBytes_run by (unfold in_i64; lia).
  rewrite (take_window data s e size), Es, drop_clamp by lia. rewrite <- window_pad. do 2 f_equal. lia.
Qed.

Lemma BigMin_min x y : BigMin x y = Z.min x y.
Proof. unfold BigMin. case_bool_decide; lia. Qed.
Lemma BigMax_max x y : BigMax x y = Z.max x y.
Proof. unfold BigMax. case_bool_decide; lia. Qed.

Lemma getDataBig_ok `{Runtime} data start size :
  0 <= start -> 0 <= size <= maxAlloc -> size < 2 ^ 63 -> Z.of_nat (length data) < 2 ^ 63 ->
  getDataBig data start size = Ok (window data (Z.to_nat start) (Z.to_nat size)).
Proof.
  intros Hs Hn Hsz Hb. unfold getDataBig. cbv zeta. rewrite !BigMin_min.
  set (s := Z.min start (Z.of_nat (length data))). set (e := Z.min (s + size) (Z.of_nat (length data))).
  unfold big_Uint64. rewrite !Z.abs_eq, !u64_small by (unfold in_u64; lia).
  rewrite slice_ok by lia. cbn [mbind outcome_bind]. rewrite i64_small, RightPadBytes_run by (unfold in_i64; lia).
  rewrite (take_window data s e size) by lia. subst s. rewrite drop_clamp, <- window_pad by lia. do 2 f_equal. lia.
Qed.

(** ** Properties of memory *)

Lemma copy_at_ok l off size v :
  0 <= off -> 0 <= size -> off + size <= Z.of_nat (length l) ->
  exists l', copy_at l off size v = Ok l' /\ length l' = length l /\
    take (Z.to_nat off) l' = take (Z.to_nat off) l /\
    (bytes_ok l -> bytes_ok v -> bytes_ok l') /\
    (Z.of_nat (length v) = size -> take (Z.to_nat size) (drop (Z.to_nat off) l') = v) /\
    drop (Z.to_nat (off + size)) l' = drop (Z.to_nat (off + size)) l.
Proof.
  intros Ho Hs Hl. unfold copy_at. rewrite slice_ok by lia. cbn [mbind outcome_bind]. eexists. split; [reflexivity|].
  assert (length (take (Z.to_nat size) v) <= Z.to_nat size)%nat by (rewrite length_take; lia).
  assert (length (take (Z.to_nat off) l) = Z.to_nat off) as Et by (rewrite length_take; lia).
  split_and!.
  - rewrite !length_app, !length_drop, !length_take. lia.
  - rewrite take_app_le by lia. rewrite take_ge by lia. done.
  - intros Hb Hv. repeat (apply bytes_ok_app; split); auto with godb.
  - intros Ev. rewrite drop_app_ge, Et, Nat.sub_diag, drop_0 by lia. rewrite (take_ge v) by lia. by rewrite take_app_length' by lia.
  - rewrite drop_app_ge, drop_app_ge by lia. rewrite drop_drop. f_equal. lia.
Qed.

Lemma m_Set_ok m off size v :
  0 <= off -> 0 <= size -> (size = 0 \/ off + size <= m_Len m) -> m_Len m < 2 ^ 63 -> bytes_ok (m_store m) -> bytes_ok v ->
  exists s, m_Set m off size v = Ok (mkMemory s (m_lastGasCost m)) /\ length s = length (m_store m) /\ bytes_ok s.
Proof.
  intros Ho Hs Hl Hb Hm Hv. unfold m_Set. case_bool_decide.
  - destruct Hl as [|Hl]; [lia|]. rewrite u64_small, bool_decide_false by (unfold in_u64; lia).
    destruct (copy_at_ok (m_store m) off size v Ho Hs Hl) as (s & -> & El & _ & Hbs & _). cbn. eauto.
  - exists (m_store m). by destruct m.
Qed.

Lemma m_Get_ok m off size :
  0 <= off < 2 ^ 256 -> 0 <= size < 2 ^ 256 -> (size = 0 \/ off + size <= m_Len m) -> m_Len m < 2 ^ 63 -> bytes_ok (m_store m) ->
  exists d, m_Get m (big_Int64 off) (big_Int64 size) = Ok d /\ bytes_ok d /\ Z.of_nat (length d) = size.
Proof.
  intros Ho Hs Hl Hb Hm. unfold m_Get. destruct Hl as [->|Hl]; [exists []; split_and!; [done|constructor|done]|].
  case_bool_decide as E0.
  { exists []. unfold big_Int64 in E0. rewrite i64_small in E0 by (unfold in_i64; lia). subst. split_and!; [done|constructor|done]. }
  unfold big_Int64 in *. rewrite i64_small in * by (unfold in_i64; lia). rewrite i64_small by (unfold in_i64; lia).
  rewrite bool_decide_true by lia. unfold m_Len in *.
  rewrite slice_ok by lia. eexists. split; [reflexivity|]. split; [auto with godb|]. rewrite length_take, length_drop. lia.
Qed.

Lemma m_Resize_ok m size :
  bytes_ok (m_store m) -> bytes_ok (m_store (m_Resize m size)) /\ m_Len (m_Resize m size) = Z.max (m_Len m) size.
Proof.
  intros Hm. unfold m_Resize. case_bool_decide; [|split; [done|lia]]. unfold m_Len in *. cbn [m_store]. unfold zeroes.
  rewrite length_app, length_replicate. split; [|lia]. apply bytes_ok_app. split; [done|apply bytes_ok_zeroes].
Qed.

(** ** Words as bytes *)

Lemma be_bytes_app m n z : be_bytes (m + n) z = be_bytes m (Z.shiftr z (8 * Z.of_nat n)) ++ be_bytes n z.
Proof.
  induction m as [|m IH]; [done|]. cbn [be_bytes Nat.add app]. rewrite <- IH, Z.shiftr_shiftr by lia. do 3 f_equal. lia.
Qed.

Lemma read_word_ok n : forall i d tail, 0 <= d ->
  read_word n i d (zeroes i ++ tail) = ((i - n)%nat, zeroes (i - n) ++ be_bytes (n `min` i) d ++ tail).
Proof.
  unfold zeroes. induction n as [|n IH]; intros i d tail Hd; [by rewrite Nat.sub_0_r|].
  destruct i as [|i]; [done|]. cbn [read_word].
  assert (<[i:=u8 d]> (replicate (S i) 0 ++ tail) = replicate i 0 ++ u8 d :: tail) as ->.
  { rewrite replicate_S_end, <- app_assoc. rewrite insert_app_r_alt by (rewrite length_replicate; lia).
    by rewrite length_replicate, Nat.sub_diag. }
  rewrite IH by (by apply Z.shiftr_nonneg). rewrite Nat.sub_succ. do 2 f_equal.
  replace (S n `min` S i)%nat with ((n `min` i) + 1)%nat by lia. rewrite be_bytes_app, <- app_assoc.
  f_equal. cbn [be_bytes app]. rewrite Z.shiftr_0_r, land_255. done.
Qed.

(** The words, the lowest first, as a number. *)
Definition words_value (ws : list Z) : Z := foldr (fun w acc => w + 2 ^ 64 * acc) 0 ws.

Lemma be_bytes_low i w v : 0 <= w < 2 ^ 64 -> 0 <= v ->
  be_bytes i (w + 2 ^ 64 * v) = be_bytes (i - 8) v ++ be_bytes (8 `min` i) w.
Proof.
  intros Hw Hv. replace i with ((i - 8) + (8 `min` i))%nat at 1 by lia. rewrite be_bytes_app. f_equal.
  - destruct (decide (8 <= i)%nat); [|replace (i - 8)%nat with 0%nat by lia; done]. replace (8 `min` i)%nat with 8%nat by lia.
    f_equal. rewrite Z.shiftr_div_pow2 by lia. change (2 ^ (8 * Z.of_nat 8)) with (2 ^ 64).
    rewrite Z.mul_comm, Z.div_add, Z.div_small by lia. done.
  - replace (w + 2 ^ 64 * v) with (v * 256 ^ Z.of_nat 8 + w) by (change (256 ^ Z.of_nat 8) with (2 ^ 64); lia). apply be_bytes_high. lia.
Qed.

Lemma words_value_nonneg ws : Forall (fun w => 0 <= w < 2 ^ 64) ws -> 0 <= words_value ws.
Proof. induction 1; cbn [words_value foldr]; [done|]. fold (words_value l). lia. Qed.

Lemma be_bytes_zero i : be_bytes i 0 = zeroes i.
Proof. unfold zeroes. induction i as [|i IH]; [done|]. cbn [be_bytes replicate]. by rewrite Z.shiftr_0_l, IH. Qed.

Lemma read_words_ok ws : forall i tail, Forall (fun w => 0 <= w < 2 ^ 64) ws ->
  read_words ws i (zeroes i ++ tail) = be_bytes i (words_value ws) ++ tail.
Proof.
  induction ws as [|w ws IH]; intros i tail Hw; cbn [read_words words_value foldr]; [by rewrite be_bytes_zero|].
  inversion Hw; subst. fold (words_value ws). rewrite read_word_ok by lia. rewrite IH by done.
  rewrite app_assoc. f_equal. symmetry. apply be_bytes_low; [done|by apply words_value_nonneg].
Qed.

(** [ReadBits] on a zeroed buffer: the low bytes of the number. *)
Lemma ReadBits_spec x n : 0 <= x -> ReadBits x (zeroes n) = be_bytes n x.
Proof.
  intros Hx. unfold ReadBits. destruct (Bits_value x Hx) as [Hf Hv]. rewrite <- (app_nil_r (zeroes n)) at 2.
  unfold zeroes at 1. rewrite length_replicate, read_words_ok by done. rewrite app_nil_r. by unfold words_value; rewrite Hv.
Qed.

(** [Set32] puts the 32 bytes of a word where the offset says, nothing else changes. *)
Lemma m_Set32_ok m off x :
  0 <= off -> off + 32 <= m_Len m -> m_Len m < 2 ^ 63 -> bytes_ok (m_store m) -> 0 <= x ->
  exists s, m_Set32 m off x = Ok (mkMemory s (m_lastGasCost m)) /\ length s = length (m_store m) /\ bytes_ok s /\
    take 32 (drop (Z.to_nat off) s) = be_bytes 32 x /\ take (Z.to_nat off) s = take (Z.to_nat off) (m_store m) /\
    drop (Z.to_nat (off + 32)) s = drop (Z.to_nat (off + 32)) (m_store m).
Proof.
  intros Ho Hl Hb Hm Hx. unfold m_Set32. rewrite u64_small, bool_decide_false by (unfold in_u64; lia). unfold m_Len in *.
  destruct (copy_at_ok (m_store m) off 32 (zeroes 32)) as (s1 & -> & El1 & Ht1 & Hb1 & Hz1 & Hd1); [lia..|]. cbn [mbind outcome_bind].
  rewrite slice_ok by lia. replace (off + 32 - off) with 32 by lia. rewrite Hz1 by done. cbn [mbind outcome_bind].
  rewrite ReadBits_spec by done.
  destruct (copy_at_ok s1 off 32 (be_bytes 32 x)) as (s2 & -> & El2 & Ht2 & Hb2 & Hz2 & Hd2); [lia..|]. cbn [mbind outcome_bind].
  eexists. split; [reflexivity|]. split; [lia|].
  split; [apply Hb2; [apply Hb1; [done|apply bytes_ok_zeroes]|apply be_bytes_ok]|].
  split; [apply Hz2; by rewrite length_be_bytes|]. split; congruence.
Qed.

(** ** Properties of the gas *)

Lemma SafeAdd_ok x y : in_u64 x -> in_u64 y ->
  SafeAdd x y = (x + y, false) /\ x + y < 2 ^ 64 \/ (SafeAdd x y).2 = true /\ 2 ^ 64 <= x + y.
Proof.
  unfold SafeAdd, MaxUint64, in_u64. intros Hx Hy. case_bool_decide; [right; split; [done|lia]|].
  left. rewrite u64_small by (unfold in_u64; lia). split; [done|lia].
Qed.

Lemma SafeMul_ok x y : in_u64 x -> in_u64 y ->
  SafeMul x y = (x * y, false) /\ x * y < 2 ^ 64 \/ (SafeMul x y).2 = true /\ 2 ^ 64 <= x * y.
Proof.
  unfold SafeMul, in_u64. intros Hx Hy. destruct (decide (x = 0)) as [->|Hx0]; [by left|].
  destruct (decide (y = 0)) as [->|Hy0]; [left; rewrite orb_true_r, Z.mul_0_r; done|].
  rewrite !(bool_decide_false (_ = 0)) by done. cbn [orb]. unfold MaxUint64. case_bool_decide as E.
  - right. split; [done|]. assert (2 ^ 64 - 1 < x * y); [|lia]. pose proof (Z.mul_succ_div_gt (2 ^ 64 - 1) x ltac:(lia)). nia.
  - left. assert (x * y <= 2 ^ 64 - 1). { pose proof (Z.mul_div_le (2 ^ 64 - 1) x ltac:(lia)). nia. }
    rewrite u64_small by (unfold in_u64; lia). split; [done|lia].
Qed.

Lemma bigUint64_ok x : 0 <= x -> bigUint64 x = (x, false) /\ x < 2 ^ 64 \/ (bigUint64 x).2 = true /\ 2 ^ 64 <= x.
Proof.
  intros Hx. unfold bigUint64. case_bool_decide as E.
  - right. split; [done|]. pose proof (BitLen_gt x 64 ltac:(lia) ltac:(lia)). lia.
  - left. pose proof (BitLen_bound x 64 ltac:(lia) ltac:(lia)). unfold big_Uint64. rewrite Z.abs_eq, u64_small by (unfold in_u64; lia).
    split; [done|lia].
Qed.

Lemma toWordSize_ok size : in_u64 size -> toWordSize size = (size + 31) / 32 /\ size <= toWordSize size * 32 < 2 ^ 64 + 32.
Proof.
  unfold in_u64, toWordSize, MaxUint64. intros Hs.
  assert ((if bool_decide (size > 2 ^ 64 - 1 - 31) then (2 ^ 64 - 1) / 32 + 1 else (size + 31) / 32) = (size + 31) / 32) as ->.
  { case_bool_decide; [|done]. change ((2 ^ 64 - 1) / 32 + 1) with (2 ^ 59).
    apply Z.div_unique with (size + 31 - 2 ^ 64); lia. }
  split; [done|]. pose proof (Z.div_mod (size + 31) 32). pose proof (Z.mod_pos_bound (size + 31) 32). lia.
Qed.

(** The largest size [memoryGasCost] accepts. *)
Definition MemoryLimit : Z := 0xffffffffe0.

Lemma memoryGasCost_ok mem size :
  in_u64 size -> in_u64 (m_lastGasCost mem) ->
  (exists fee last, memoryGasCost mem size = Ok (fee, mkMemory (m_store mem) last) /\ in_u64 fee /\ in_u64 last /\ size <= MemoryLimit) \/
  memoryGasCost mem size = Err errGasUintOverflow.
Proof.
  intros Hs Hl. unfold memoryGasCost, MemoryLimit. destruct mem as [st last]. cbn [m_store m_lastGasCost] in *.
  case_bool_decide; [left; exists 0, last; split_and!; [done|unfold in_u64; lia|done|lia]|].
  case_bool_decide; [by right|]. left. case_bool_decide.
  - eexists _, _. split; [reflexivity|]. split_and!; [apply wrapU_range; lia|apply wrapU_range; lia|lia].
  - exists 0, last. split_and!; [done|unfold in_u64; lia|done|lia].
Qed.

(** The price of a memory of [words] words. *)
Definition mem_fee (words : Z) : Z := 3 * words + words * words / 512.

(** A memory of whole words that was paid for. *)
Definition mem_paid (m : Memory) : Prop :=
  exists words, m_Len m = 32 * words /\ m_lastGasCost m = mem_fee words /\ words < 2 ^ 32.

Lemma mem_fee_mono v w : 0 <= v <= w -> mem_fee v <= mem_fee w.
Proof. intros Hv. unfold mem_fee. assert (v * v / 512 <= w * w / 512) by (apply Z.div_le_mono; nia). lia. Qed.

Lemma mem_fee_small w : 0 <= w < 2 ^ 32 -> 0 <= mem_fee w < 2 ^ 63.
Proof.
  intros Hw. unfold mem_fee. assert (0 <= w * w / 512) by (apply Z.div_pos; nia).
  assert (w * w / 512 < 2 ^ 56) by (apply Z.div_lt_upper_bound; nia). lia.
Qed.

(** C32: bounds.  The fee for memory is exact: while the memory stays
    below 2^37 bytes, growing a memory that was paid for to [size] bytes costs the
    difference of the quadratic prices in whole words, without overflow on 64 bits,
    and leaves a memory that will have been paid for once it is resized. *)
Theorem memory_gas_exact m size :
  mem_paid m -> 0 <= size <= 0x1fffffffe0 ->
  let words := Z.max (m_Len m / 32) ((size + 31) / 32) in
  exists m', memoryGasCost m size = Ok (mem_fee words - mem_fee (m_Len m / 32), m') /\
    mem_paid (m_Resize m' (32 * ((size + 31) / 32))) /\ m_Len (m_Resize m' (32 * ((size + 31) / 32))) = 32 * words.
Proof.
  intros (w0 & El & Ef & Hw0) Hs words. unfold m_Len in *. assert (0 <= w0) by lia.
  assert (m_Len m / 32 = w0) as Ew by (unfold m_Len; rewrite El, Z.mul_comm, Z.div_mul; lia). unfold m_Len in Ew. subst words. rewrite Ew.
  set (w := (size + 31) / 32). pose proof (Z.div_mod (size + 31) 32) as Hd. pose proof (Z.mod_pos_bound (size + 31) 32).
  assert (0 <= w < 2 ^ 32) as Hw by (subst w; lia).
  pose proof (mem_fee_small w ltac:(lia)) as Hf. pose proof (mem_fee_small w0 ltac:(lia)) as Hf0.
  unfold memoryGasCost. case_bool_decide as E0.
  { subst size. assert (w = 0) as -> by done. rewrite Z.max_l, Z.sub_diag by lia. exists m. split; [done|].
    unfold m_Resize, m_Len. rewrite bool_decide_false by lia. split; [by exists w0|lia]. }
  rewrite bool_decide_false by lia. destruct (toWordSize_ok size) as [-> _]; [unfold in_u64; lia|]. fold w.
  rewrite u64_small by (unfold in_u64; lia). unfold m_Len. case_bool_decide as E1.
  - rewrite Z.max_r by lia. assert (0 <= w * w < 2 ^ 32 * 2 ^ 32) by (split; [apply Z.mul_nonneg_nonneg; lia|apply Z.mul_lt_mono_nonneg; lia]).
    rewrite (u64_small (w * w)), (u64_small (w * MemoryGas)) by (unfold in_u64; lia).
    replace (w * MemoryGas + w * w / QuadCoeffDiv) with (mem_fee w) by (unfold mem_fee; lia).
    pose proof (mem_fee_mono w0 w ltac:(lia)). rewrite (u64_small (mem_fee w)), Ef, u64_small by (unfold in_u64; lia).
    eexists. split; [reflexivity|]. unfold m_Resize, m_Len. cbn [m_store m_lastGasCost]. rewrite bool_decide_true by lia.
    cbn [m_store m_lastGasCost]. unfold zeroes. rewrite length_app, length_replicate. split; [|lia].
    exists w. unfold m_Len. cbn [m_store m_lastGasCost]. rewrite length_app, length_replicate. lia.
  - rewrite Z.max_l, Z.sub_diag by lia. exists m. split; [done|]. unfold m_Resize, m_Len. rewrite bool_decide_false by lia.
    split; [by exists w0|lia].
Qed.

Lemma memory_gas_exact_witness :
  exists m', memoryGasCost NewMemory 100 = Ok (12, m') /\ mem_paid (m_Resize m' 128).
Proof.
  destruct (memory_gas_exact NewMemory 100) as (m' & E & Hp & _); [exists 0; by split_and!|lia|]. exists m'. split; [exact E|exact Hp].
Defined.

(** The price of a message without overflow: the base price, 68 for a byte that is
    not zero and 4 for one that is; if that does not fit into 64 bits the message is
    out of gas. *)
Lemma intrinsic_gas_exact data creation homestead :
  Z.of_nat (length data) < 2 ^ 63 ->
  let nz := Z.of_nat (length (filter (fun b => b <> 0) data)) in
  let total := (if creation && homestead then 53000 else 21000) + 68 * nz + 4 * (Z.of_nat (length data) - nz) in
  IntrinsicGas data creation homestead = if bool_decide (total < 2 ^ 64) then Ok total else Err ErrOutOfGas.
Proof.
  intros Hlen nz total. assert (0 <= nz <= Z.of_nat (length data)) as Hnz by (subst nz; pose proof (length_filter (fun b => b <> 0) data); lia).
  unfold IntrinsicGas. change TxGasContractCreation with 53000. change TxGas with 21000. set (gas := if creation && homestead then 53000 else 21000) in *.
  assert (21000 <= gas <= 53000) as Hgas by (subst gas; destruct (creation && homestead); lia).
  fold nz. destruct (decide (0 < length data)%nat) as [Hd|Hd].
  2:{ rewrite bool_decide_false by done. subst total. rewrite bool_decide_true by lia. f_equal. lia. }
  rewrite bool_decide_true by done. unfold MaxUint64. rewrite (u64_small nz) by (unfold in_u64; lia).
  pose proof (Z.div_mod (2 ^ 64 - 1 - gas) 68 ltac:(lia)) as Hq. pose proof (Z.mod_pos_bound (2 ^ 64 - 1 - gas) 68 ltac:(lia)) as Hr.
  case_bool_decide as E1; [subst total; rewrite bool_decide_false by lia; done|].
  rewrite (u64_small (nz * 68)), (u64_small (gas + nz * 68)), (u64_small (Z.of_nat (length data) - nz)) by (unfold in_u64; lia).
  rewrite (u64_small (2 ^ 64 - 1 - _)) by (unfold in_u64; lia).
  pose proof (Z.div_mod (2 ^ 64 - 1 - (gas + nz * 68)) 4 ltac:(lia)) as Hq2. pose proof (Z.mod_pos_bound (2 ^ 64 - 1 - (gas + nz * 68)) 4 ltac:(lia)) as Hr2.
  case_bool_decide as E2; [subst total; rewrite bool_decide_false by lia; done|].
  rewrite (u64_small (_ * 4)) by (unfold in_u64; lia). rewrite u64_small by (unfold in_u64; lia). subst total. rewrite bool_decide_true by lia. f_equal. lia.
Qed.

(** The limit of [memoryGasCost] does not prevent the
    overflow it is there to prevent: for 2^37 bytes, which it accepts, the square
    of the number of words is 0 on 64 bits, and the fee is less than the price of
    a memory of half the size. *)
Theorem memory_gas_wraps :
  exists m', memoryGasCost NewMemory (2 ^ 37) = Ok (3 * 2 ^ 32, m') /\ 2 ^ 37 <= MemoryLimit /\
    3 * 2 ^ 32 < mem_fee (2 ^ 31).
Proof. eexists. split; [vm_compute; reflexivity|]. vm_compute. by split. Qed.
