(* ===== verification/EvmPrecompiles.v ===== *)
(** * Precompiled contracts ([src/core/vm/contracts.go])

    The contracts at the addresses 1 to 8.  The hash functions of other packages
    and the curve bn256 ([src/crypto/bn256], in part in assembly, not modelled) are the
    operations of the class [Native], with the sizes of their results and assumed to
    return.  Recovery of public keys ([src/crypto/secp256k1], a C library) is [Ecrecover]
    of the class [Ecdsa].

    [modexp_exact]: the contract at address 5 computes the modular power of the
    integers in its input.  [ecrecover_clobbers]: the contract at address 1 changes
    its input when the input is longer than 128 bytes.  [modexp_panics]: with the gas
    an RPC call has by default the contract at address 5 can be made to panic. *)

From S2P Require Import Prelude Common TrieEncoding Trie TrieSpec TrieMap.
From S2P Require Import TrieCanon Rlp Sha3 TrieHash TrieMerkle TrieIter.
From S2P Require Import TrieIterSpec RlpRaw TrieBinding RlpStream Params DposContext.
From S2P Require Import Header Transaction EvmWord EvmCode EvmMachine.

(** The functions the contracts call: total, with results of a fixed size. *)
Class Native := {
  sha256_Sum256 : list Z -> list Z;
  ripemd160_Sum : list Z -> list Z;
  G1 : Type;
  G2 : Type;
  G1_Unmarshal : list Z -> option G1;
  G2_Unmarshal : list Z -> option G2;
  G1_Add : G1 -> G1 -> G1;
  G1_ScalarMult : G1 -> Z -> G1;
  G1_Marshal : G1 -> list Z;
  PairingCheck : list G1 -> list G2 -> bool;
  sha256_ok b : length (sha256_Sum256 b) = 32%nat /\ bytes_ok (sha256_Sum256 b);
  ripemd160_ok b : length (ripemd160_Sum b) = 20%nat /\ bytes_ok (ripemd160_Sum b);
  G1_Marshal_ok p : length (G1_Marshal p) = 64%nat /\ bytes_ok (G1_Marshal p)
}.

(** The interface [PrecompiledContract]. *)
Record PrecompiledContract := mkPrecompiled {
  RequiredGas : list Z -> outcome Empty_set Z;
  pc_Run : list Z -> outcome vm_error (list Z)
}.

Definition no_err {A} (m : outcome Empty_set A) : outcome vm_error A := map_err (fun e : Empty_set => match e with end) m.

Section precompiles.
Context `{Keccak, Ecdsa, Native} `{go : Runtime}.

(** [ecrecover.Run], with the bytes of the argument afterwards: [append] writes
    behind the signature when the argument goes on there. *)
Definition ecrecover_Run (arg : list Z) : outcome vm_error (list Z) * list Z :=
  match RightPadBytes arg 128 with
  | Ok input =>
      let r := be_uint (take 32 (drop 64 input)) in
      let s := be_uint (take 32 (drop 96 input)) in
      let v := u8 (default 0 (input !! 63%nat) - 27) in
      if negb (allZero (take 31 (drop 32 input))) || negb (ValidateSignatureValues v r s false) then (Ok [], arg)
      else
        let arg := if bool_decide (128 < length arg)%nat then <[128%nat := v]> arg else arg in
        (match Ecrecover (take 32 input) (take 64 (drop 64 input) ++ [v]) with
         | None => Ok []
         | Some [] => Panic
         | Some (_ :: pubKey) => no_err (LeftPadBytes (drop 12 (keccak256 pubKey)) 32)
         end, arg)
  | _ => (Panic, arg)
  end.

Definition ecrecover : PrecompiledContract := mkPrecompiled (fun _ => Ok EcrecoverGas) (fun input => (ecrecover_Run input).1).

(** The prices by words *)
Definition word_gas (perWord base : Z) (input : list Z) : Z :=
  u64 (u64 (u64 (Z.of_nat (length input) + 31) / 32 * perWord) + base).

Definition sha256hash : PrecompiledContract :=
  mkPrecompiled (fun input => Ok (word_gas Sha256PerWordGas Sha256BaseGas input)) (fun input => Ok (sha256_Sum256 input)).
Definition ripemd160hash : PrecompiledContract :=
  mkPrecompiled (fun input => Ok (word_gas Ripemd160PerWordGas Ripemd160BaseGas input))
    (fun input => no_err (LeftPadBytes (ripemd160_Sum input) 32)).
Definition dataCopy : PrecompiledContract :=
  mkPrecompiled (fun input => Ok (word_gas IdentityPerWordGas IdentityBaseGas input)) (fun input => Ok input).

(** [input\[96:\]], or nothing *)
Definition past_lengths (input : list Z) : list Z := if bool_decide (96 < length input)%nat then drop 96 input else [].

(** [bigModExp.RequiredGas]: the number of words squared, by ranges. *)
Definition mult_complexity (gas : Z) : Z :=
  if bool_decide (gas <= 64) then gas * gas
  else if bool_decide (gas <= 1024) then gas * gas / 4 + (96 * gas - 3072)
  else gas * gas / 16 + (480 * gas - 199680).

Definition modexp_Gas (input : list Z) : outcome Empty_set Z :=
  d ← getData input 0 32; let baseLen := be_uint d in
  d ← getData input 32 32; let expLen := be_uint d in
  d ← getData input 64 32; let modLen := be_uint d in
  let input := past_lengths input in
  expHead ←
    (if bool_decide (Z.of_nat (length input) <= baseLen) then Ok 0
     else if bool_decide (expLen > 32) then d ← getData input (big_Uint64 baseLen) 32; Ok (be_uint d)
     else d ← getData input (big_Uint64 baseLen) (big_Uint64 expLen); Ok (be_uint d));
  let bitlen := BitLen expHead in
  let msb := if bool_decide (bitlen > 0) then bitlen - 1 else 0 in
  let adjExpLen := (if bool_decide (expLen > 32) then 8 * (expLen - 32) else 0) + msb in
  let gas := mult_complexity (BigMax modLen baseLen) in
  let gas := gas * BigMax adjExpLen 1 / ModExpQuadCoeffDiv in
  Ok (if bool_decide (BitLen gas > 64) then MaxUint64 else big_Uint64 gas).

Definition modexp_Run (input : list Z) : outcome Empty_set (list Z) :=
  d ← getData input 0 32; let baseLen := big_Uint64 (be_uint d) in
  d ← getData input 32 32; let expLen := big_Uint64 (be_uint d) in
  d ← getData input 64 32; let modLen := big_Uint64 (be_uint d) in
  let input := past_lengths input in
  if bool_decide (baseLen = 0) && bool_decide (modLen = 0) then Ok []
  else
    base ← getData input 0 baseLen;
    exp ← getData input baseLen expLen;
    mod_ ← getData input (u64 (baseLen + expLen)) modLen;
    let m := be_uint mod_ in
    if bool_decide (BitLen m = 0) then LeftPadBytes [] (i64 modLen)
    else LeftPadBytes (big_bytes ((be_uint base) ^ (be_uint exp) mod m)) (i64 modLen).

Definition bigModExp : PrecompiledContract := mkPrecompiled modexp_Gas (fun input => no_err (modexp_Run input)).

(** [newCurvePoint] and [newTwistPoint] *)
Definition newCurvePoint (blob : list Z) : outcome vm_error G1 :=
  match G1_Unmarshal blob with Some p => Ok p | None => Err errCurvePoint end.
Definition newTwistPoint (blob : list Z) : outcome vm_error G2 :=
  match G2_Unmarshal blob with Some p => Ok p | None => Err errCurvePoint end.

Definition bn256Add_Run (input : list Z) : outcome vm_error (list Z) :=
  d ← no_err (getData input 0 64);
  x ← newCurvePoint d;
  d ← no_err (getData input 64 64);
  y ← newCurvePoint d;
  Ok (G1_Marshal (G1_Add x y)).
Definition bn256Add : PrecompiledContract := mkPrecompiled (fun _ => Ok Bn256AddGas) bn256Add_Run.

Definition bn256ScalarMul_Run (input : list Z) : outcome vm_error (list Z) :=
  d ← no_err (getData input 0 64);
  p ← newCurvePoint d;
  d ← no_err (getData input 64 32);
  Ok (G1_Marshal (G1_ScalarMult p (be_uint d))).
Definition bn256ScalarMul : PrecompiledContract := mkPrecompiled (fun _ => Ok Bn256ScalarMulGas) bn256ScalarMul_Run.

Definition true32Byte : list Z := zeroes 31 ++ [1].
Definition false32Byte : list Z := zeroes 32.

(** [bn256Pairing.Run]: the loop over the chunks of 192 bytes. *)
Fixpoint pairing_loop (n : nat) (input : list Z) (cs : list G1) (ts : list G2) : outcome vm_error (list G1 * list G2) :=
  match n with
  | O => Ok (cs, ts)
  | S n =>
      c ← newCurvePoint (take 64 input);
      t ← newTwistPoint (take 128 (drop 64 input));
      pairing_loop n (drop 192 input) (cs ++ [c]) (ts ++ [t])
  end.
Definition bn256Pairing_Run (input : list Z) : outcome vm_error (list Z) :=
  if bool_decide (0 < length input mod 192)%nat then Err errBadPairingInput
  else
    '(cs, ts) ← pairing_loop (length input / 192) input [] [];
    Ok (if PairingCheck cs ts then true32Byte else false32Byte).
Definition bn256Pairing : PrecompiledContract :=
  mkPrecompiled (fun input => Ok (u64 (Bn256PairingBaseGas + u64 (Z.of_nat (length input) / 192 * Bn256PairingPerPointGas))))
    bn256Pairing_Run.

(** ** The tables *)

Definition PrecompiledContractsHomestead : list (list Z * PrecompiledContract) :=
  [(BytesToAddress [1], ecrecover); (BytesToAddress [2], sha256hash); (BytesToAddress [3], ripemd160hash);
   (BytesToAddress [4], dataCopy)].
Definition PrecompiledContractsByzantium : list (list Z * PrecompiledContract) :=
  [(BytesToAddress [1], ecrecover); (BytesToAddress [2], sha256hash); (BytesToAddress [3], ripemd160hash);
   (BytesToAddress [4], dataCopy); (BytesToAddress [5], bigModExp); (BytesToAddress [6], bn256Add);
   (BytesToAddress [7], bn256ScalarMul); (BytesToAddress [8], bn256Pairing)].

(** Looking an address up in a table. *)
Definition precompile_at (l : list (list Z * PrecompiledContract)) (a : list Z) : option PrecompiledContract :=
  match list_find (fun p => p.1 = a) l with Some (_, p) => Some p.2 | None => None end.

(** [RunPrecompiledContract] *)
Definition RunPrecompiledContract (p : PrecompiledContract) (input : list Z) (contract : Contract)
  : outcome Empty_set (Contract * list Z * option vm_error) :=
  gas ← RequiredGas p input;
  let '(ok, contract) := UseGas gas contract in
  if ok then
    match pc_Run p input with
    | Ok ret => Ok (contract, ret, None)
    | Err e => Ok (contract, [], Some e)
    | Panic => Panic
    | OutOfFuel => OutOfFuel
    end
  else Ok (contract, [], Some ErrOutOfGas).

End precompiles.

(** ** They return *)

(** The data and the gas the machine is run with.  With much more gas than the largest
    allocation has bytes the contract at address 5 can be asked for an operand that
    cannot be allocated. *)
Definition data_ok (l : list Z) : Prop := bytes_ok l /\ Z.of_nat (length l) < 2 ^ 60.
Definition gas_ok `{Runtime} (g : Z) : Prop := 0 <= g < 2 ^ 60 /\ 3 * g <= maxAlloc.

#[global] Instance data_ok_dec l : Decision (data_ok l).
Proof. unfold data_ok. apply _. Defined.

Lemma data_ok_nil : data_ok [].
Proof. split; [constructor|done]. Qed.

Lemma data_ok_short l : bytes_ok l -> (length l <= 64)%nat -> data_ok l.
Proof. intros Hl Hn. split; [done|lia]. Qed.

#[export] Hint Resolve data_ok_nil : godb.

Section returns.
Context `{Keccak, Ecdsa, Native} `{go : Runtime}.

(** A recovered key is not empty (it has 65 bytes). *)
Context (Hrecover : forall h sig, Ecrecover h sig <> Some []).

(** Enough gas: the contract returns data. *)
Definition precompile_ok (p : PrecompiledContract) : Prop :=
  forall input, data_ok input ->
  exists gas, RequiredGas p input = Ok gas /\ 0 <= gas /\
    (gas_ok gas -> (exists ret, pc_Run p input = Ok ret /\ data_ok ret) \/ exists e, pc_Run p input = Err e).

Lemma ecrecover_ok : precompile_ok ecrecover.
Proof.
  intros input Hi. exists EcrecoverGas. split; [done|]. split; [lia|]. intros _. left. cbn [pc_Run ecrecover].
  pose proof maxAlloc_large as Hmax. unfold ecrecover_Run. rewrite RightPadBytes_run by lia. cbv zeta. case_match; cbn [fst]; [eauto with godb|].
  destruct (Ecrecover _ _) as [[|x pub]|] eqn:Er; [by apply Hrecover in Er| |eauto with godb].
  rewrite LeftPadBytes_run by lia. eexists. split; [reflexivity|]. destruct (keccak256_ok pub) as [Hl Hb]. apply data_ok_short.
  - apply left_pad_ok. auto with godb.
  - apply Nat2Z.inj_le. rewrite left_pad_length, length_drop, Hl. done.
Qed.

Lemma word_gas_nonneg p b input : 0 <= word_gas p b input.
Proof. apply wrapU_range. lia. Qed.

Lemma sha256hash_ok : precompile_ok sha256hash.
Proof.
  intros input Hi. eexists. split; [reflexivity|]. split; [apply word_gas_nonneg|]. intros _. left. eexists. split; [reflexivity|].
  destruct (sha256_ok input) as [Hl Hb]. apply data_ok_short; [done|lia].
Qed.

Lemma ripemd160hash_ok : precompile_ok ripemd160hash.
Proof.
  intros input Hi. pose proof maxAlloc_large as Hmax. eexists. split; [reflexivity|]. split; [apply word_gas_nonneg|]. intros _. left.
  cbn [pc_Run ripemd160hash]. rewrite LeftPadBytes_run by lia. eexists. split; [reflexivity|].
  destruct (ripemd160_ok input) as [Hl Hb]. apply data_ok_short; [by apply left_pad_ok|].
  apply Nat2Z.inj_le. rewrite left_pad_length, Hl. done.
Qed.

Lemma dataCopy_ok : precompile_ok dataCopy.
Proof.
  intros input Hi. eexists. split; [reflexivity|]. split; [apply word_gas_nonneg|]. intros _. left. eexists. split; [reflexivity|done].
Qed.

Lemma bn256Add_ok : precompile_ok bn256Add.
Proof.
  intros input Hi. eexists. split; [reflexivity|]. split; [lia|]. intros _. cbn [pc_Run bn256Add]. unfold bn256Add_Run.
  destruct Hi as [_ Hi]. pose proof maxAlloc_large as Hmax. rewrite !getData_ok by lia. cbn [no_err map_err mbind outcome_bind]. unfold newCurvePoint.
  destruct (G1_Unmarshal (window input (Z.to_nat 0) _)) as [x|]; cbn [mbind outcome_bind]; [|eauto].
  destruct (G1_Unmarshal (window input (Z.to_nat 64) _)) as [y|]; cbn [mbind outcome_bind]; [|eauto]. left.
  eexists. split; [reflexivity|]. destruct (G1_Marshal_ok (G1_Add x y)). apply data_ok_short; [done|lia].
Qed.

Lemma bn256ScalarMul_ok : precompile_ok bn256ScalarMul.
Proof.
  intros input Hi. eexists. split; [reflexivity|]. split; [lia|]. intros _. cbn [pc_Run bn256ScalarMul].
  unfold bn256ScalarMul_Run. destruct Hi as [_ Hi]. pose proof maxAlloc_large as Hmax. rewrite !getData_ok by lia. cbn [no_err map_err mbind outcome_bind]. unfold newCurvePoint.
  destruct (G1_Unmarshal _) as [x|]; [|eauto]. left. eexists. split; [reflexivity|].
  destruct (G1_Marshal_ok (G1_ScalarMult x (be_uint (window input (Z.to_nat 64) (Z.to_nat 32))))). apply data_ok_short; [done|lia].
Qed.

Lemma pairing_loop_settled n : forall input cs ts, settled (pairing_loop n input cs ts).
Proof.
  induction n as [|n IH]; intros input cs ts; cbn [pairing_loop]; [left; eauto|]. unfold newCurvePoint, newTwistPoint.
  destruct (G1_Unmarshal _); cbn [mbind outcome_bind]; [|right; eauto]. destruct (G2_Unmarshal _); cbn [mbind outcome_bind]; [apply IH|right; eauto].
Qed.

Lemma bn256Pairing_ok : precompile_ok bn256Pairing.
Proof.
  intros input Hi. eexists. split; [reflexivity|]. split; [apply wrapU_range; lia|]. intros _. cbn [pc_Run bn256Pairing].
  unfold bn256Pairing_Run. case_bool_decide; [eauto|].
  destruct (pairing_loop_settled (length input / 192) input [] []) as [[[cs ts] ->]|[e ->]]; cbn [mbind outcome_bind]; [|eauto].
  left. eexists. split; [reflexivity|]. destruct (PairingCheck cs ts); (split; [|done]); [|apply bytes_ok_zeroes].
  apply bytes_ok_app. split; [apply bytes_ok_zeroes|]. repeat constructor; lia.
Qed.

Lemma mult_complexity_ge m : 0 <= m -> m * m / 16 <= mult_complexity m /\ (1 <= m -> 1 <= mult_complexity m).
Proof.
  intros Hm. unfold mult_complexity. assert (m * m / 16 <= m * m) by (apply Z.div_le_upper_bound; nia).
  case_bool_decide; [split; [lia|nia]|].
  assert (m * m / 16 <= m * m / 4) by (apply Z.div_le_compat_l; nia). assert (0 <= m * m / 16) by (apply Z.div_pos; nia).
  case_bool_decide; split; lia.
Qed.

(** A price bounds the lengths. *)
Lemma modexp_bounds m k G : 0 <= m -> 1 <= k -> mult_complexity m * k / 20 <= G -> G < 2 ^ 60 -> m < 2 ^ 40 /\ (1 <= m -> k < 20 * (G + 1)).
Proof.
  intros Hm Hk Hg HG. destruct (mult_complexity_ge m Hm) as [Hc Hc1].
  assert (mult_complexity m * k < 20 * (G + 1)) as Hlt.
  { destruct (Z.lt_ge_cases (mult_complexity m * k) (20 * (G + 1))) as [|Hge]; [done|].
    pose proof (Z.div_le_lower_bound (mult_complexity m * k) 20 (G + 1)). lia. }
  assert (0 <= m * m / 16) by (apply Z.div_pos; nia). split.
  - destruct (Z.lt_ge_cases m (2 ^ 40)) as [|Hge]; [done|].
    pose proof (Z.div_le_lower_bound (m * m) 16 (2 ^ 76)). nia.
  - intros Hm1. specialize (Hc1 Hm1). nia.
Qed.

(** The three lengths in the input. *)
Definition modexp_len (input : list Z) (i : nat) : Z := be_uint (window input (32 * i) 32).

Lemma modexp_len_nonneg input i : bytes_ok input -> 0 <= modexp_len input i.
Proof. intros Hi. apply be_uint_range, window_bytes, Hi. Qed.

Lemma getData_lens input : Z.of_nat (length input) < 2 ^ 60 ->
  getData input 0 32 = Ok (window input (32 * 0) 32) /\ getData input 32 32 = Ok (window input (32 * 1) 32) /\
  getData input 64 32 = Ok (window input (32 * 2) 32).
Proof. intros Hl. pose proof maxAlloc_large. by rewrite !getData_ok by lia. Qed.

Lemma past_lengths_ok input : data_ok input -> data_ok (past_lengths input).
Proof.
  intros [Hb Hl]. unfold past_lengths. case_bool_decide; [|apply data_ok_nil]. split; [auto with godb|]. rewrite length_drop. lia.
Qed.

Lemma big_Uint64_small x : in_u64 x -> big_Uint64 x = x.
Proof. intros Hx. unfold big_Uint64. rewrite Z.abs_eq by (unfold in_u64 in Hx; lia). by apply u64_small. Qed.

Lemma modexp_Run_ok input :
  data_ok input ->
  modexp_len input 0 < 2 ^ 40 -> modexp_len input 2 < 2 ^ 40 ->
  (modexp_len input 0 = 0 /\ modexp_len input 2 = 0 \/ modexp_len input 1 < 2 ^ 62 /\ modexp_len input 1 <= maxAlloc) ->
  exists ret, modexp_Run input = Ok ret /\ data_ok ret.
Proof.
  intros Hi Hbl Hml Hel. pose proof maxAlloc_large as Hmax. pose proof (past_lengths_ok input Hi) as [Hpb Hpl]. destruct Hi as [Hib Hil].
  pose proof (modexp_len_nonneg input 0 Hib) as Hb0. pose proof (modexp_len_nonneg input 1 Hib) as He0. pose proof (modexp_len_nonneg input 2 Hib) as Hm0.
  unfold modexp_Run. destruct (getData_lens input Hil) as (-> & -> & ->). cbn [mbind outcome_bind].
  fold (modexp_len input 0) (modexp_len input 1) (modexp_len input 2).
  rewrite (big_Uint64_small (modexp_len input 0)), (big_Uint64_small (modexp_len input 2)) by (unfold in_u64; lia).
  destruct (decide (modexp_len input 0 = 0 /\ modexp_len input 2 = 0)) as [[-> ->]|Hne]; [cbn; eauto with godb|].
  destruct Hel as [|Hel]; [done|]. rewrite (big_Uint64_small (modexp_len input 1)) by (unfold in_u64; lia).
  assert (bool_decide (modexp_len input 0 = 0) && bool_decide (modexp_len input 2 = 0) = false) as ->
    by (apply andb_false_iff; destruct (decide (modexp_len input 0 = 0)); [right|left]; apply bool_decide_false; naive_solver).
  rewrite u64_small by (unfold in_u64; lia). rewrite !getData_ok by lia. cbn [mbind outcome_bind]. rewrite i64_small by (unfold in_i64; lia).
  set (m := be_uint (window (past_lengths input) (Z.to_nat (modexp_len input 0 + modexp_len input 1)) _)).
  assert (0 <= m < 256 ^ modexp_len input 2) as Hm.
  { subst m. pose proof (be_uint_range _ (window_bytes (past_lengths input) (Z.to_nat (modexp_len input 0 + modexp_len input 1)) (Z.to_nat (modexp_len input 2)) Hpb)) as Hr.
    rewrite window_length, Z2Nat.id in Hr by lia. done. }
  case_bool_decide as Ez; rewrite LeftPadBytes_run by lia; (eexists; split; [reflexivity|split]).
  - apply left_pad_ok. constructor.
  - rewrite left_pad_length. simpl. lia.
  - apply left_pad_ok, big_bytes_ok.
  - rewrite left_pad_length. set (x := be_uint _ ^ _ mod m).
    assert (m <> 0) by (intros ->; done). pose proof (Z.mod_pos_bound (be_uint (window (past_lengths input) (Z.to_nat 0) (Z.to_nat (modexp_len input 0))) ^
      be_uint (window (past_lengths input) (Z.to_nat (modexp_len input 0)) (Z.to_nat (modexp_len input 1)))) m ltac:(lia)) as Hx. fold x in Hx.
    pose proof (big_bytes_width x (Z.to_nat (modexp_len input 2))) as Hw. rewrite Z2Nat.id in Hw by lia. specialize (Hw ltac:(lia)). lia.
Qed.

(** The head of the exponent, when it is in the input. *)
Lemma modexp_head_ok input bl el :
  data_ok input -> 0 <= el ->
  exists head, (if bool_decide (Z.of_nat (length input) <= bl) then Ok 0
     else if bool_decide (el > 32) then d ← getData input (big_Uint64 bl) 32; Ok (be_uint d)
     else d ← getData input (big_Uint64 bl) (big_Uint64 el); Ok (be_uint d)) = Ok head.
Proof.
  intros [_ Hl] Hel. pose proof maxAlloc_large as Hmax. case_bool_decide; [by exists 0|]. assert (0 <= big_Uint64 bl) by (apply wrapU_range; lia).
  case_bool_decide; [rewrite getData_ok by lia; eauto|].
  rewrite (big_Uint64_small el) by (unfold in_u64; lia). rewrite getData_ok by lia. eauto.
Qed.

Lemma BitLen_nonneg x : 0 <= BitLen x.
Proof. unfold BitLen. case_bool_decide; [lia|]. pose proof (Z.log2_nonneg (Z.abs x)). lia. Qed.

Lemma modexp_ok : precompile_ok bigModExp.
Proof.
  intros input Hi. pose proof (past_lengths_ok input Hi) as Hp. pose proof Hi as [Hib Hil].
  pose proof (modexp_len_nonneg input 0 Hib) as Hb0. pose proof (modexp_len_nonneg input 1 Hib) as He0. pose proof (modexp_len_nonneg input 2 Hib) as Hm0.
  cbn [RequiredGas pc_Run bigModExp]. unfold modexp_Gas. destruct (getData_lens input Hil) as (-> & -> & ->). cbn [mbind outcome_bind].
  fold (modexp_len input 0) (modexp_len input 1) (modexp_len input 2).
  set (bl := modexp_len input 0) in *. set (el := modexp_len input 1) in *. set (ml := modexp_len input 2) in *.
  destruct (modexp_head_ok (past_lengths input) bl el Hp He0) as (hd & Eh). rewrite Eh. cbn [mbind outcome_bind]. cbv zeta. rewrite !BigMax_max.
  set (adj := (if bool_decide (el > 32) then _ else _) + _).
  assert (0 <= adj /\ 8 * (el - 32) <= adj) as [Ha0 Ha].
  { subst adj. pose proof (BitLen_nonneg hd). repeat case_bool_decide; lia. }
  set (g := mult_complexity (Z.max ml bl) * Z.max adj 1 / ModExpQuadCoeffDiv).
  eexists. split; [reflexivity|]. split; [destruct (bool_decide (BitLen g > 64)); [done|apply wrapU_range; lia]|]. intros [Hg Hmax]. left.
  set (G := if bool_decide (BitLen g > 64) then _ else _) in *. assert (g <= G) as Hg'.
  { destruct (mult_complexity_ge (Z.max ml bl) ltac:(lia)). assert (0 <= Z.max ml bl * Z.max ml bl / 16) by (apply Z.div_pos; nia).
    assert (0 <= g) by (subst g; apply Z.div_pos; nia).
    subst G. destruct (bool_decide_reflect (BitLen g > 64)) as [E|E]; [by vm_compute in Hg; destruct Hg|]. pose proof (BitLen_bound g 64 ltac:(lia) ltac:(lia)).
    rewrite big_Uint64_small by (unfold in_u64; lia). done. }
  destruct (modexp_bounds (Z.max ml bl) (Z.max adj 1) G ltac:(lia) ltac:(lia) Hg' ltac:(lia)) as [Hm He]. pose proof maxAlloc_large as Hlarge.
  destruct (modexp_Run_ok input Hi) as (ret & -> & Hr); [fold bl; lia|fold ml; lia| |by exists ret].
  fold bl ml el. destruct (decide (1 <= Z.max ml bl)) as [Hm1|]; [right; specialize (He Hm1); lia|left; lia].
Qed.

(** The contracts of every phase. *)
Lemma precompile_at_ok l a p : Forall (fun q => precompile_ok q.2) l -> precompile_at l a = Some p -> precompile_ok p.
Proof.
  intros Hl. unfold precompile_at. destruct (list_find _ l) as [[i q]|] eqn:E; [|done]. intros [= <-].
  apply list_find_Some in E as (Eq & _). by apply (Forall_lookup_1 _ _ _ _ Hl Eq).
Qed.

Lemma byzantium_ok : Forall (fun q => precompile_ok q.2) PrecompiledContractsByzantium.
Proof.
  repeat constructor; cbn [snd]; auto using ecrecover_ok, sha256hash_ok, ripemd160hash_ok, dataCopy_ok, modexp_ok,
    bn256Add_ok, bn256ScalarMul_ok, bn256Pairing_ok.
Qed.
Lemma homestead_ok : Forall (fun q => precompile_ok q.2) PrecompiledContractsHomestead.
Proof. repeat constructor; cbn [snd]; auto using ecrecover_ok, sha256hash_ok, ripemd160hash_ok, dataCopy_ok. Qed.

Lemma UseGas_ok g c : 0 <= g -> 0 <= c_Gas c < 2 ^ 64 ->
  (UseGas g c = (true, set_gas (c_Gas c - g) c) /\ g <= c_Gas c) \/ (UseGas g c = (false, c) /\ c_Gas c < g).
Proof.
  intros Hg Hc. unfold UseGas. case_bool_decide; [by right|]. left. rewrite u64_small by (unfold in_u64; lia). split; [done|lia].
Qed.

Lemma RunPrecompiled_ok p input c :
  precompile_ok p -> data_ok input -> gas_ok (c_Gas c) ->
  exists g ret err, RunPrecompiledContract p input c = Ok (set_gas g c, ret, err) /\ 0 <= g <= c_Gas c /\ data_ok ret.
Proof.
  intros Hp Hi Hc. unfold gas_ok in Hc. destruct (Hp input Hi) as (gas & Eg & Hg0 & Hrun). unfold RunPrecompiledContract. rewrite Eg. cbn [mbind outcome_bind].
  destruct (UseGas_ok gas c Hg0 ltac:(lia)) as [[-> Hle]|[-> Hlt]].
  - destruct Hrun as [(ret & -> & Hr)|[e ->]]; [unfold gas_ok; lia| |]; eexists _, _, _; (split; [reflexivity|split; [lia|auto with godb]]).
  - exists (c_Gas c), [], (Some ErrOutOfGas). split; [by destruct c|]. split; [lia|auto with godb].
Qed.

End returns.

(** ** Exactness *)

(** An input of [bigModExp]: the three lengths, the three operands. *)
Definition modexp_input (b e m : list Z) : list Z :=
  be_bytes 32 (Z.of_nat (length b)) ++ be_bytes 32 (Z.of_nat (length e)) ++ be_bytes 32 (Z.of_nat (length m)) ++ b ++ e ++ m.

Lemma window_inside pre d post l i n : l = pre ++ d ++ post -> i = length pre -> n = length d -> window l i n = d.
Proof. intros -> -> ->. unfold window. rewrite drop_app_length, <- app_assoc. apply take_app_length. Qed.

Lemma be_len n : Z.of_nat n < 2 ^ 40 -> be_uint (be_bytes 32 (Z.of_nat n)) = Z.of_nat n.
Proof. intros Hn. rewrite be_uint_be_bytes. apply Z.mod_small. split; [lia|]. etrans; [exact Hn|done]. Qed.

(** Padding the bytes of a number. *)
Lemma pad_be_bytes x n : 0 <= x < 256 ^ Z.of_nat n -> left_pad (big_bytes x) (Z.of_nat n) = be_bytes n x.
Proof.
  intros Hx. pose proof (big_bytes_width x n Hx) as Hw. apply be_uint_inj.
  - apply left_pad_ok, big_bytes_ok.
  - apply be_bytes_ok.
  - apply Nat2Z.inj. rewrite left_pad_length, length_be_bytes. lia.
  - rewrite be_uint_be_bytes, Z.mod_small by done. unfold left_pad.
    case_bool_decide; [|rewrite be_uint_zeroes]; apply be_uint_big_bytes; lia.
Qed.

(** C33: functional.  The contract at address 5 computes modular powers: on an
    input with the lengths and the bytes of a base, an exponent and a modulus that
    is not zero it returns the power modulo the modulus, in as many bytes as the
    modulus has. *)
Theorem modexp_exact `{Runtime} b e m :
  bytes_ok b -> bytes_ok e -> bytes_ok m ->
  Z.of_nat (length b) < 2 ^ 40 -> Z.of_nat (length e) < 2 ^ 40 -> Z.of_nat (length m) < 2 ^ 40 -> be_uint m <> 0 ->
  modexp_Run (modexp_input b e m) = Ok (be_bytes (length m) ((be_uint b) ^ (be_uint e) mod be_uint m)).
Proof.
  intros Hb He Hm Hlb Hle Hlm Hm0. pose proof maxAlloc_large as Hmax. unfold modexp_Run, modexp_input. set (lb := be_bytes 32 (Z.of_nat (length b))). set (le := be_bytes 32 _). set (lm := be_bytes 32 _).
  assert (length lb = 32 /\ length le = 32 /\ length lm = 32)%nat as (Elb & Ele & Elm) by (subst lb le lm; by rewrite !length_be_bytes).
  assert (Z.of_nat (length (lb ++ le ++ lm ++ b ++ e ++ m)) < 2 ^ 60) as Hlen by (rewrite !length_app; lia).
  rewrite !(getData_ok (lb ++ _)) by lia. cbn [mbind outcome_bind].
  rewrite (window_inside [] lb (le ++ lm ++ b ++ e ++ m) _ (Z.to_nat 0)) by (done || lia).
  rewrite (window_inside lb le (lm ++ b ++ e ++ m) _ (Z.to_nat 32)) by (done || lia).
  rewrite (window_inside (lb ++ le) lm (b ++ e ++ m) _ (Z.to_nat 64)) by (rewrite <- ?app_assoc, ?length_app; done || lia).
  subst lb le lm. rewrite !be_len by lia. rewrite !big_Uint64_small by (unfold in_u64; lia).
  assert (past_lengths (be_bytes 32 (Z.of_nat (length b)) ++ be_bytes 32 (Z.of_nat (length e)) ++ be_bytes 32 (Z.of_nat (length m)) ++ b ++ e ++ m) = b ++ e ++ m) as ->.
  { unfold past_lengths. rewrite !app_assoc, <- !app_assoc. case_bool_decide as Hl96.
    - rewrite !app_assoc, <- (app_assoc _ b), <- (app_assoc _ _ m). apply drop_app_length'. by rewrite !length_app, !length_be_bytes.
    - rewrite !length_app, !length_be_bytes in Hl96. destruct m; [done|]. simpl in Hl96. lia. }
  assert (length m <> 0%nat) by (destruct m; [done|simpl; lia]).
  rewrite (bool_decide_false (Z.of_nat (length m) = 0)), andb_false_r by lia.
  rewrite u64_small by (unfold in_u64; lia). rewrite !getData_ok by (rewrite ?length_app; lia). cbn [mbind outcome_bind].
  rewrite (window_inside [] b (e ++ m) _ (Z.to_nat 0)) by (done || lia).
  rewrite (window_inside b e m _ (Z.to_nat (Z.of_nat (length b)))) by (done || lia).
  rewrite (window_inside (b ++ e) m [] _ (Z.to_nat (Z.of_nat (length b) + Z.of_nat (length e)))) by (rewrite ?app_nil_r, <- ?app_assoc, ?length_app; done || lia).
  pose proof (be_uint_range m Hm) as Hr. rewrite bool_decide_false by (unfold BitLen; rewrite bool_decide_false by done; pose proof (Z.log2_nonneg (Z.abs (be_uint m))); lia).
  rewrite i64_small, LeftPadBytes_run by (unfold in_i64; lia). f_equal. apply pad_be_bytes. pose proof (Z.mod_pos_bound (be_uint b ^ be_uint e) (be_uint m)). lia.
Qed.

(** The limit on 64-bit systems. *)
Definition go_runtime : Runtime.
Proof. refine {| maxAlloc := 2 ^ 48 |}. lia. Defined.

Lemma modexp_exact_witness : @modexp_Run go_runtime (modexp_input [3] [5] [1; 0]) = Ok [0; 243].
Proof.
  rewrite modexp_exact; [reflexivity|repeat constructor; lia..|simpl; lia|simpl; lia|simpl; lia|done].
Defined.

(** A base and a modulus of one byte and an exponent of 2^62 bytes, none of them in the
    input. *)
Definition huge_exponent : list Z := be_bytes 32 1 ++ be_bytes 32 (2 ^ 62) ++ be_bytes 32 1.

(** With the gas that a call through the RPC interface has by default, half of what a
    [uint64] holds, the price of such an exponent can be paid, and the contract panics
    when it allocates it. *)
Theorem modexp_panics : exists gas,
  @modexp_Gas go_runtime huge_exponent = Ok gas /\ gas <= MaxUint64 / 2 /\ @modexp_Run go_runtime huge_exponent = Panic.
Proof. eexists. split_and!; [vm_compute; reflexivity|vm_compute; discriminate|vm_compute; reflexivity]. Qed.

(** An input of [ecrecover] for the signature (1, 1) with recovery number 27, and
    more bytes behind it. *)
Definition signed_input (hash rest : list Z) : list Z := hash ++ zeroes 31 ++ [27] ++ one32 ++ one32 ++ rest.

(** The contract at address 1 changes its argument: on an
    argument longer than the 128 bytes it reads, with a signature that is in range,
    the byte after the signature becomes the recovery number. *)
Theorem ecrecover_clobbers `{Keccak, Ecdsa, Runtime} hash x rest :
  length hash = 32%nat -> (ecrecover_Run (signed_input hash (x :: rest))).2 = signed_input hash (0 :: rest).
Proof.
  intros Hh. set (mid := zeroes 31 ++ [27] ++ one32 ++ one32).
  assert (forall t, signed_input hash t = hash ++ mid ++ t) as Es by (intros; unfold signed_input, mid; by rewrite !app_assoc).
  rewrite !Es. unfold ecrecover_Run, RightPadBytes. assert (length mid = 96%nat) as Em by reflexivity.
  rewrite bool_decide_true by (rewrite !length_app; simpl; lia). rewrite bool_decide_true by (rewrite !length_app; simpl; lia).
  assert (forall k, drop (32 + k) (hash ++ mid ++ x :: rest) = drop k (mid ++ x :: rest)) as Ed
    by (intros; rewrite drop_app_ge by lia; f_equal; lia).
  rewrite (Ed 0%nat : drop 32 _ = _), (Ed 32%nat : drop 64 _ = _), (Ed 64%nat : drop 96 _ = _).
  assert ((hash ++ mid ++ x :: rest) !! 63%nat = Some 27) as -> by (rewrite lookup_app_r by lia; rewrite Hh; reflexivity).
  cbn [default]. change (u8 (27 - 27)) with 0.
  assert (negb (allZero (take 31 (drop 0 (mid ++ x :: rest)))) = false) as -> by reflexivity.
  assert (be_uint (take 32 (drop 32 (mid ++ x :: rest))) = 1) as -> by reflexivity.
  assert (be_uint (take 32 (drop 64 (mid ++ x :: rest))) = 1) as -> by reflexivity.
  change (negb (ValidateSignatureValues 0 1 1 false)) with false. cbn [orb snd].
  rewrite insert_app_r_alt by lia. rewrite insert_app_r_alt by lia. by rewrite Hh, Em.
Qed.

Lemma ecrecover_clobbers_witness :
  (@ecrecover_Run tag_keccak toy_ecdsa go_runtime (signed_input (zeroes 32) [7; 8])).2 = signed_input (zeroes 32) [0; 8].
Proof. by apply (@ecrecover_clobbers tag_keccak toy_ecdsa go_runtime). Defined.
