(* ===== verification/EvmCalls.v ===== *)
(** * Calls and creations ([src/core/vm/evm.go])

    [Env] is the part of [EVM] that does not change while it runs: the context, the
    chain configuration and the settings.  [EVM] is the rest, with the fields of its
    one interpreter.  The functions of the context that move ether are those of
    [src/core/evm.go]; [GetHash] is a function.  Tracing is left out.

    The calls are given what runs the interpreter on a contract: [EvmInterp] ties
    the knot. *)

From S2P Require Import Prelude Common TrieEncoding Trie TrieSpec TrieMap.
From S2P Require Import TrieCanon Rlp Sha3 TrieHash TrieMerkle TrieIter.
From S2P Require Import TrieIterSpec RlpRaw TrieBinding RlpStream Params DposContext.
From S2P Require Import Header Transaction Block SecureTrie State StateSpec.
From S2P Require Import EvmState EvmWord EvmCode EvmMachine EvmPrecompiles.

(** [Context], [chainConfig], and the fields of [Config] that are used. *)
Record Env := mkEnv {
  env_GetHash : Z -> list Z;
  env_Origin : list Z;
  env_GasPrice : Z;
  env_Coinbase : list Z;
  env_GasLimit : Z;
  env_BlockNumber : Z;
  env_Time : Z;
  env_Difficulty : Z;
  env_config : ChainConfig;
  env_NoRecursion : bool;
  env_EnablePreimageRecording : bool
}.

Definition env_is (f : ChainConfig -> option Z -> bool) (env : Env) : bool := f (env_config env) (Some (env_BlockNumber env)).

(** What changes in [EVM], and in its interpreter. *)
Record EVM (D : Type) := mkEVM {
  e_db : D;
  e_depth : Z;
  e_callGasTemp : Z;
  e_readOnly : bool;
  e_returnData : list Z;
  e_abort : bool
}.
Arguments mkEVM {D}.
Arguments e_db {D}.
Arguments e_depth {D}.
Arguments e_callGasTemp {D}.
Arguments e_readOnly {D}.
Arguments e_returnData {D}.
Arguments e_abort {D}.

Section evm.
Context {D : Type}.

Definition set_e_db (d : D) (e : EVM D) : EVM D :=
  mkEVM d (e_depth e) (e_callGasTemp e) (e_readOnly e) (e_returnData e) (e_abort e).
Definition set_depth (n : Z) (e : EVM D) : EVM D :=
  mkEVM (e_db e) n (e_callGasTemp e) (e_readOnly e) (e_returnData e) (e_abort e).
Definition set_callGasTemp (n : Z) (e : EVM D) : EVM D :=
  mkEVM (e_db e) (e_depth e) n (e_readOnly e) (e_returnData e) (e_abort e).
Definition set_readOnly (b : bool) (e : EVM D) : EVM D :=
  mkEVM (e_db e) (e_depth e) (e_callGasTemp e) b (e_returnData e) (e_abort e).
Definition set_returnData (r : list Z) (e : EVM D) : EVM D :=
  mkEVM (e_db e) (e_depth e) (e_callGasTemp e) (e_readOnly e) r (e_abort e).

(** [NewEVM] *)
Definition NewEVM (db : D) : EVM D := mkEVM db 0 0 false [] false.
(** [Cancel] *)
Definition Cancel (e : EVM D) : EVM D :=
  mkEVM (e_db e) (e_depth e) (e_callGasTemp e) (e_readOnly e) (e_returnData e) true.

Definition in_db {A} (m : SM D Empty_set A) : SM (EVM D) Empty_set A := zoom e_db set_e_db m.

End evm.

Section calls.
Context `{Keccak, Ecdsa, Native} `{go : Runtime} {D : Type} `{!StateOps D} (env : Env).

Abbreviation EM := (SM (EVM D) Empty_set).

(** [CreateAddress] and [CreateAddress2] of [src/crypto/crypto.go] *)
Definition CreateAddress (b : list Z) (nonce : Z) : list Z :=
  let data := match EncodeToBytes (TStruct [TByteArray AddressLength; TUint 64]) (VList [VBytes b; VUint nonce]) with Ok d => d | _ => [] end in
  BytesToAddress (drop 12 (keccak256 data)).
Definition CreateAddress2 (b salt code : list Z) : list Z :=
  BytesToAddress (drop 12 (keccak256 ([0xff] ++ b ++ salt ++ keccak256 code))).

(** The precompiled contracts of the current rules. *)
Definition precompiles : list (list Z * PrecompiledContract) :=
  if env_is IsByzantium env then PrecompiledContractsByzantium else PrecompiledContractsHomestead.

(** What a run gives: the contract with the gas left, the result, the error. *)
Definition run_result : Type := Contract * list Z * option vm_error.

(** [Interpreter.Run] of the only interpreter, which can run everything. *)
Variable interpreter_Run : Contract -> list Z -> EM run_result.

(** [run] *)
Definition run (contract : Contract) (input : list Z) : EM run_result :=
  match c_CodeAddr contract ≫= precompile_at precompiles with
  | Some p => total (RunPrecompiledContract p input contract)
  | None => interpreter_Run contract input
  end.

(** The end of the calls: an error gives the state back, and takes the gas unless
    the contract reverted. *)
Definition take_all_gas (c : Contract) : Contract := (UseGas (c_Gas c) c).2.

Definition settle_call (snapshot : Z) (r : run_result) : EM (list Z * Z * option vm_error) :=
  let '(contract, ret, err) := r in
  match err with
  | Some e =>
      in_db (db_RevertToSnapshot snapshot) ;;
      let contract := if bool_decide (e <> errExecutionReverted) then take_all_gas contract else contract in
      mret (ret, c_Gas contract, err)
  | None => mret (ret, c_Gas contract, err)
  end.

(** The guards the calls share: what to return at once, if anything. *)
Definition no_recursion : EM bool := d ← gets e_depth; mret (env_NoRecursion env && bool_decide (d > 0)).
Definition too_deep : EM bool := d ← gets e_depth; mret (bool_decide (d > CallCreateDepth)).

(** [contract.SetCallCode(&addr, GetCodeHash(addr), GetCode(addr))] *)
Definition with_code_of (addr : list Z) (contract : Contract) : EM Contract :=
  h ← in_db (db_GetCodeHash addr);
  c ← in_db (db_GetCode addr);
  mret (SetCallCode addr h c contract).

Definition Call (caller : ContractRef) (addr input : list Z) (gas value : Z) : EM (list Z * Z * option vm_error) :=
  stop ← no_recursion;
  if (stop : bool) then mret ([], gas, None)
  else
    deep ← too_deep;
    if (deep : bool) then mret ([], gas, Some ErrDepth)
    else
      ok ← in_db (CanTransfer (ref_Address caller) value);
      if negb ok then mret ([], gas, Some ErrInsufficientBalance)
      else
        snapshot ← in_db db_Snapshot;
        exists_ ← in_db (db_Exist addr);
        if negb exists_ && bool_decide (precompile_at precompiles addr = None) && env_is IsEIP158 env && bool_decide (value = 0)
        then mret ([], gas, None)
        else
          (if (exists_ : bool) then mret tt else in_db (db_CreateAccount addr)) ;;
          in_db (Transfer (ref_Address caller) addr value) ;;
          contract ← with_code_of addr (NewContract caller addr (Some value) gas);
          r ← run contract input;
          settle_call snapshot r.

Definition CallCode (caller : ContractRef) (addr input : list Z) (gas value : Z) : EM (list Z * Z * option vm_error) :=
  stop ← no_recursion;
  if (stop : bool) then mret ([], gas, None)
  else
    deep ← too_deep;
    if (deep : bool) then mret ([], gas, Some ErrDepth)
    else
      ok ← in_db (CanTransfer (ref_Address caller) value);
      if negb ok then mret ([], gas, Some ErrInsufficientBalance)
      else
        snapshot ← in_db db_Snapshot;
        contract ← with_code_of addr (NewContract caller (ref_Address caller) (Some value) gas);
        r ← run contract input;
        settle_call snapshot r.

Definition DelegateCall (caller : ContractRef) (addr input : list Z) (gas : Z) : EM (list Z * Z * option vm_error) :=
  stop ← no_recursion;
  if (stop : bool) then mret ([], gas, None)
  else
    deep ← too_deep;
    if (deep : bool) then mret ([], gas, Some ErrDepth)
    else
      snapshot ← in_db db_Snapshot;
      contract ← total (AsDelegate caller (NewContract caller (ref_Address caller) None gas));
      contract ← with_code_of addr contract;
      r ← run contract input;
      settle_call snapshot r.

(** [StaticCall]; the flag is cleared on the way out by the call that set it. *)
Definition StaticCall (caller : ContractRef) (addr input : list Z) (gas : Z) : EM (list Z * Z * option vm_error) :=
  stop ← no_recursion;
  if (stop : bool) then mret ([], gas, None)
  else
    deep ← too_deep;
    if (deep : bool) then mret ([], gas, Some ErrDepth)
    else
      ro ← gets e_readOnly;
      (if (ro : bool) then mret tt else modify (set_readOnly true)) ;;
      snapshot ← in_db db_Snapshot;
      contract ← with_code_of addr (NewContract caller addr (Some 0) gas);
      r ← run contract input;
      res ← settle_call snapshot r;
      (if (ro : bool) then mret tt else modify (set_readOnly false)) ;;
      mret res.

(** [create] after the contract has run: storing the code, or giving the state
    back. *)
Definition settle_create (snapshot : Z) (address : list Z) (r : run_result) : EM (list Z * list Z * Z * option vm_error) :=
  let '(contract, ret, err) := r in
  let maxCodeSizeExceeded := env_is IsEIP158 env && bool_decide (Z.of_nat (length ret) > MaxCodeSize) in
  '(contract, err) ←
    (if bool_decide (err = None) && negb maxCodeSizeExceeded then
       let '(ok, contract) := UseGas (u64 (Z.of_nat (length ret) * CreateDataGas)) contract in
       if ok then in_db (db_SetCode address ret) ;; mret (contract, err) else mret (contract, Some ErrCodeStoreOutOfGas)
     else mret (contract, err));
  contract ←
    (if maxCodeSizeExceeded || (bool_decide (err <> None) && (env_is IsHomestead env || bool_decide (err <> Some ErrCodeStoreOutOfGas))) then
       in_db (db_RevertToSnapshot snapshot) ;;
       mret (if bool_decide (err <> Some errExecutionReverted) then take_all_gas contract else contract)
     else mret contract);
  let err := if maxCodeSizeExceeded && bool_decide (err = None) then Some errMaxCodeSizeExceeded else err in
  mret (ret, address, c_Gas contract, err).

Definition create (caller : ContractRef) (code : list Z) (gas value : Z) (address : list Z)
  : EM (list Z * list Z * Z * option vm_error) :=
  deep ← too_deep;
  if (deep : bool) then mret ([], emptyAddress, gas, Some ErrDepth)
  else
    ok ← in_db (CanTransfer (ref_Address caller) value);
    if negb ok then mret ([], emptyAddress, gas, Some ErrInsufficientBalance)
    else
      nonce ← in_db (db_GetNonce (ref_Address caller));
      in_db (db_SetNonce (ref_Address caller) (u64 (nonce + 1))) ;;
      contractHash ← in_db (db_GetCodeHash address);
      addrNonce ← in_db (db_GetNonce address);
      if bool_decide (addrNonce <> 0) || (bool_decide (contractHash <> emptyHash) && bool_decide (contractHash <> emptyCodeHash))
      then mret ([], emptyAddress, 0, Some ErrContractAddressCollision)
      else
        snapshot ← in_db db_Snapshot;
        in_db (db_CreateAccount address) ;;
        (if env_is IsEIP158 env then in_db (db_SetNonce address 1) else mret tt) ;;
        in_db (Transfer (ref_Address caller) address value) ;;
        let contract := SetCallCode address (keccak256 code) code (NewContract caller address (Some value) gas) in
        stop ← no_recursion;
        if (stop : bool) then mret ([], address, gas, None)
        else
          r ← run contract [];
          settle_create snapshot address r.

Definition Create (caller : ContractRef) (code : list Z) (gas value : Z) : EM (list Z * list Z * Z * option vm_error) :=
  nonce ← in_db (db_GetNonce (ref_Address caller));
  create caller code gas value (CreateAddress (ref_Address caller) nonce).

Definition Create2 (caller : ContractRef) (code : list Z) (gas endowment salt : Z) : EM (list Z * list Z * Z * option vm_error) :=
  create caller code gas endowment (CreateAddress2 (ref_Address caller) (BigToHash salt) code).

End calls.
