(* ===== verification/EvmContext.v ===== *)
(** * The context of a message ([src/core/evm.go])

    [NewEVMContext] takes what the machine sees of the block and of the message;
    [GetHashFn] walks back the branch of a header to find the hash of an ancestor
    and remembers what it passed.  [branch_hash] is the hash [k] steps below the
    parent; [get_hash_branch] shows that the function finds it whatever it was asked
    before, so that [env_GetHash] may be a function of the number. *)

From S2P Require Import Prelude Common TrieEncoding Trie TrieSpec TrieMap.
From S2P Require Import TrieCanon Rlp Sha3 TrieHash TrieMerkle TrieIter.
From S2P Require Import TrieIterSpec RlpRaw TrieBinding RlpStream Params DposContext.
From S2P Require Import Header Transaction Block SecureTrie State StateSpec.
From S2P Require Import EvmState EvmWord EvmCode EvmMachine EvmPrecompiles EvmCalls.

(** The interface [ChainContext]; the author of a header comes from the engine. *)
Record ChainContext := mkChainContext {
  engine_Author : Header -> list Z;
  cc_GetHeader : list Z -> Z -> option Header
}.

Abbreviation hash_cache := (option (gmap Z (list Z))).

(** [header.Number.Uint64()-1] *)
Definition number_below (h : Header) : outcome Empty_set Z :=
  n ← or_panic (Number h); Ok (u64 (big_Uint64 n - 1)).

Section context.
Context (chain : ChainContext).

(** The loop over the headers; [h] is the next one. *)
Fixpoint hash_loop (fuel : nat) (n : Z) (h : option Header) (cache : gmap Z (list Z)) : outcome Empty_set (list Z * gmap Z (list Z)) :=
  match h with
  | None => Ok (emptyHash, cache)
  | Some h =>
      match fuel with
      | O => OutOfFuel
      | S fuel =>
          i ← number_below h;
          let cache := <[i := ParentHash h]> cache in
          if bool_decide (n = i) then Ok (ParentHash h, cache)
          else hash_loop fuel n (cc_GetHeader chain (ParentHash h) i) cache
      end
  end.

(** The function [GetHashFn] returns, with its cache. *)
Definition GetHashFn (fuel : nat) (ref : Header) (n : Z) (cache : hash_cache) : outcome Empty_set (list Z * hash_cache) :=
  i ← number_below ref;
  let c := default {[i := ParentHash ref]} cache in
  match c !! n with
  | Some hash => Ok (hash, Some c)
  | None => '(hash, c) ← hash_loop fuel n (cc_GetHeader chain (ParentHash ref) i) c; Ok (hash, Some c)
  end.

(** The hash function of a context, for a cache that was not used yet. *)
Definition get_hash (fuel : nat) (ref : Header) (n : Z) : list Z :=
  match GetHashFn fuel ref n None with Ok (h, _) => h | _ => emptyHash end.

Definition NewEVMContext (fuel : nat) (msg : Message) (header : Header) (author : option (list Z))
  (config : ChainConfig) (noRecursion preimages : bool) : outcome Empty_set Env :=
  let beneficiary := match author with None => engine_Author chain header | Some a => a end in
  number ← or_panic (Number header);
  time ← or_panic (Time header);
  difficulty ← or_panic (Difficulty header);
  Ok (mkEnv (get_hash fuel header) (m_from msg) (m_gasPrice msg) beneficiary (GasLimit header) number time difficulty config noRecursion preimages).

(** ** The branch of a header *)

(** The ancestor [k] steps below the header, and the hash of the one below that. *)
Fixpoint branch (k : nat) (ref : Header) : option Header :=
  match k with
  | O => Some ref
  | S k => h ← branch k ref; n ← Number h; cc_GetHeader chain (ParentHash h) (n - 1)
  end.
Definition branch_hash (k : nat) (ref : Header) : option (list Z) := ParentHash <$> branch k ref.

(** What the database behind the chain documents: the header found under a number
    has that number. *)
Definition headers_numbered : Prop := forall hash n h, cc_GetHeader chain hash n = Some h -> Number h = Some n.

(** The cache holds hashes of the branch, the one of the parent among them. *)
Definition on_branch (ref : Header) (N : Z) (c : gmap Z (list Z)) : Prop :=
  c !! (N - 1) = Some (ParentHash ref) /\ forall i hash, 0 <= i < N -> c !! i = Some hash -> branch_hash (Z.to_nat (N - 1 - i)) ref = Some hash.

Lemma branch_end k j ref : (k <= j)%nat -> branch k ref = None -> branch j ref = None.
Proof. intros Hle E. induction Hle as [|j _ IH]; [done|]. cbn [branch]. by rewrite IH. Qed.

Lemma number_below_ok h j : Number h = Some j -> 0 < j < 2 ^ 64 -> number_below h = Ok (j - 1).
Proof.
  intros E Hj. unfold number_below. rewrite E. cbn. rewrite big_Uint64_small by (unfold in_u64; lia). rewrite u64_small by (unfold in_u64; lia). done.
Qed.

Lemma on_branch_insert ref N c i hash :
  on_branch ref N c -> i <> N - 1 -> (0 <= i < N -> branch_hash (Z.to_nat (N - 1 - i)) ref = Some hash) -> on_branch ref N (<[i := hash]> c).
Proof.
  intros [Hp Hc] HiN Hi. split; [by rewrite lookup_insert_ne|]. intros j h Hj E. destruct (decide (i = j)) as [->|Hne]; [rewrite lookup_insert_eq in E; injection E as <-; by apply Hi|].
  rewrite lookup_insert_ne in E by done. by apply Hc.
Qed.

Context (Hnum : headers_numbered) (ref : Header) (N : Z) (HN : Number ref = Some N) (HN64 : N < 2 ^ 64).

Lemma branch_number k h : branch k ref = Some h -> Number h = Some (N - Z.of_nat k).
Proof.
  revert h. induction k as [|k IH]; intros h E; cbn [branch] in E.
  - injection E as <-. rewrite HN. f_equal. lia.
  - apply bind_Some in E as (g & Eg & E). apply bind_Some in E as (p & Ep & E). rewrite (IH g Eg) in Ep. injection Ep as <-.
    rewrite (Hnum _ _ _ E). f_equal. lia.
Qed.

(** The loop from the ancestor with number [j]. *)
Lemma hash_walk_ok n fuel : forall j oh c,
  0 <= n < j -> j < N -> oh = branch (Z.to_nat (N - j)) ref -> j - n <= Z.of_nat fuel -> on_branch ref N c ->
  exists c', hash_loop fuel n oh c = Ok (default emptyHash (branch_hash (Z.to_nat (N - 1 - n)) ref), c') /\ on_branch ref N c'.
Proof.
  induction fuel as [|fuel IH]; intros j oh c Hn Hj Eo Hfuel Hc; [lia|]. destruct oh as [h|].
  2:{ exists c. split; [|done]. unfold branch_hash. rewrite (branch_end (Z.to_nat (N - j))) by (done || lia). done. }
  symmetry in Eo. pose proof (branch_number _ _ Eo) as Eh. rewrite Z2Nat.id in Eh by lia. replace (N - (N - j)) with j in Eh by lia.
  cbn [hash_loop]. rewrite (number_below_ok h j Eh) by lia. cbn [mbind outcome_bind].
  assert (branch_hash (Z.to_nat (N - 1 - (j - 1))) ref = Some (ParentHash h)) as Ej.
  { unfold branch_hash. replace (Z.to_nat (N - 1 - (j - 1))) with (Z.to_nat (N - j)) by lia. by rewrite Eo. }
  assert (on_branch ref N (<[j - 1 := ParentHash h]> c)) as Hc' by (apply on_branch_insert; [done|lia|done]).
  case_bool_decide as Ei; [subst n; eexists; rewrite Ej; by split|]. apply (IH (j - 1)); try lia; try done.
  replace (Z.to_nat (N - (j - 1))) with (S (Z.to_nat (N - j))) by lia. cbn [branch]. rewrite Eo. cbn [mbind option_bind]. by rewrite Eh.
Qed.

(** On a chain whose headers carry the numbers they are found
    under, and whatever it was asked before, the function of [GetHashFn] returns for
    a number below that of the header the hash of the ancestor with that number on
    the branch of the header, or the zero hash when an ancestor on the way is
    missing; as much fuel as the number of the header is enough, and the cache holds
    hashes of the branch again. *)
Theorem get_hash_branch fuel n cache :
  0 <= n < N -> N <= Z.of_nat fuel -> (forall c, cache = Some c -> on_branch ref N c) ->
  exists c', GetHashFn fuel ref n cache = Ok (default emptyHash (branch_hash (Z.to_nat (N - 1 - n)) ref), Some c') /\ on_branch ref N c'.
Proof.
  intros Hn Hfuel Hcache. unfold GetHashFn. rewrite (number_below_ok ref N HN) by lia. cbn [mbind outcome_bind].
  assert (on_branch ref N (default {[N - 1 := ParentHash ref]} cache)) as Hc.
  { destruct cache as [c|]; cbn; [by apply Hcache|]. split; [by rewrite lookup_singleton_eq|]. intros i h Hi E.
    apply lookup_singleton_Some in E as [<- <-]. by replace (Z.to_nat (N - 1 - (N - 1))) with 0%nat by lia. }
  destruct (default _ cache !! n) as [h|] eqn:E; [eexists; split; [|exact Hc]; by rewrite (proj2 Hc n h Hn E)|].
  assert (n <> N - 1) as Hne by (intros ->; rewrite (proj1 Hc) in E; discriminate).
  destruct (hash_walk_ok n fuel (N - 1) (cc_GetHeader chain (ParentHash ref) (N - 1)) (default {[N - 1 := ParentHash ref]} cache))
    as (c' & -> & Hc'); [lia|lia| |lia|done|by exists c'].
  replace (Z.to_nat (N - (N - 1))) with 1%nat by lia. cbn [branch mbind option_bind]. by rewrite HN.
Qed.

End context.

(** Three headers; the context of the last one asks for the hash of the first. *)
Definition demo_header (x : Z) : Header :=
  mkHeader (repeat x 32) emptyHash (addr 1) (addr 1) emptyHash emptyHash emptyHash None [] (Some 1) (Some x) 0 0 (Some x) [] emptyHash [] 3 10.
Definition demo_chain : ChainContext :=
  mkChainContext Validator (fun _ n => if bool_decide (n = 1 \/ n = 2) then Some (demo_header n) else None).

Lemma get_hash_branch_witness :
  exists c, GetHashFn demo_chain 3 (demo_header 3) 0 None = Ok (repeat 1 32, Some c) /\ on_branch demo_chain (demo_header 3) 3 c.
Proof.
  destruct (get_hash_branch demo_chain) with (ref := demo_header 3) (N := 3) (fuel := 3%nat) (n := 0) (cache := @None (gmap Z (list Z))) as (c & E & Hc).
  - intros hash n h. cbn. case_bool_decide; [|done]. by intros [= <-].
  - done.
  - lia.
  - lia.
  - lia.
  - done.
  - exists c. split; [exact E|exact Hc].
Defined.
