(* ===== verification/EvmGas.v ===== *)
(** * The price of an instruction ([src/core/vm/gas_table.go], [memory_table.go],
      [stack_table.go])

    [frame]: what a run of the interpreter works on, the program counter, the stack,
    the memory, the contract and the machine.  A gas function may change the memory
    (the fee it remembers), the gas of the next call and the refund. *)

From S2P Require Import Prelude Common TrieEncoding Trie TrieSpec TrieMap.
From S2P Require Import TrieCanon Rlp Sha3 TrieHash TrieMerkle TrieIter.
From S2P Require Import TrieIterSpec RlpRaw TrieBinding RlpStream Params DposContext.
From S2P Require Import Header Transaction Block SecureTrie State StateSpec.
From S2P Require Import EvmState EvmWord EvmCode EvmMachine EvmPrecompiles EvmCalls.

Record frame (D : Type) := mkFrame {
  f_pc : Z;
  f_stack : list Z;
  f_mem : Memory;
  f_contract : Contract;
  f_evm : EVM D
}.
Arguments mkFrame {D}.
Arguments f_pc {D}.
Arguments f_stack {D}.
Arguments f_mem {D}.
Arguments f_contract {D}.
Arguments f_evm {D}.

Abbreviation FM D := (SM (frame D) vm_error).

Section frames.
Context {D : Type}.

Definition set_pc (pc : Z) (f : frame D) : frame D := mkFrame pc (f_stack f) (f_mem f) (f_contract f) (f_evm f).
Definition set_stack (st : list Z) (f : frame D) : frame D := mkFrame (f_pc f) st (f_mem f) (f_contract f) (f_evm f).
Definition set_mem (m : Memory) (f : frame D) : frame D := mkFrame (f_pc f) (f_stack f) m (f_contract f) (f_evm f).
Definition set_contract (c : Contract) (f : frame D) : frame D := mkFrame (f_pc f) (f_stack f) (f_mem f) c (f_evm f).
Definition set_evm (e : EVM D) (f : frame D) : frame D := mkFrame (f_pc f) (f_stack f) (f_mem f) (f_contract f) e.

Definition in_evm {A} (m : SM (EVM D) Empty_set A) : FM D A := zoom f_evm set_evm m.
(** A computation that may panic. *)
Definition always {A} (o : outcome Empty_set A) : FM D A := pure (fun e : Empty_set => match e with end) o.
Definition in_state {A} (m : SM D Empty_set A) : FM D A := in_evm (in_db m).

(** ** The stack *)

Definition pop : FM D Z :=
  st ← gets f_stack;
  match st with
  | x :: st => modify (set_stack st) ;; mret x
  | [] => panic
  end.
Definition push (x : Z) : FM D unit := modify (fun f => set_stack (x :: f_stack f) f).
Definition peek : FM D Z := st ← gets f_stack; must (head st).
Definition Back (n : nat) : FM D Z := st ← gets f_stack; must (st !! n).
(** [dup]: [n] is at least 1. *)
Definition dup (n : nat) : FM D unit := st ← gets f_stack; x ← must (st !! (n - 1)%nat); push x.
(** [swap]: [n] is at least 1. *)
Definition swap (n : nat) : FM D unit :=
  st ← gets f_stack;
  x ← must (st !! (n - 1)%nat);
  y ← must (st !! 0%nat);
  modify (set_stack (<[0%nat := x]> (<[(n - 1)%nat := y]> st))).

(** [require] and the validation [makeStackFunc] makes. *)
Definition require (n : Z) : FM D unit :=
  st ← gets f_stack;
  if bool_decide (Z.of_nat (length st) < n) then throw (errStackUnderflow (Z.of_nat (length st)) n) else mret tt.
Definition makeStackFunc (pops pushes : Z) : FM D unit :=
  require pops ;;
  st ← gets f_stack;
  if bool_decide (Z.of_nat (length st) + pushes - pops > StackLimit) then throw (errStackLimit (Z.of_nat (length st))) else mret tt.
Definition makeDupStackFunc (n : Z) : FM D unit := makeStackFunc n (n + 1).
Definition makeSwapStackFunc (n : Z) : FM D unit := makeStackFunc n n.

(** ** The memory an instruction needs *)

(** [calcMemSize] of two items of the stack. *)
Definition mem_size (off len : nat) : FM D Z := o ← Back off; l ← Back len; mret (calcMemSize o l).

Definition memorySha3 : FM D Z := mem_size 0 1.
Definition memoryCallDataCopy : FM D Z := mem_size 0 2.
Definition memoryReturnDataCopy : FM D Z := mem_size 0 2.
Definition memoryCodeCopy : FM D Z := mem_size 0 2.
Definition memoryExtCodeCopy : FM D Z := mem_size 1 3.
Definition memoryMLoad : FM D Z := o ← Back 0; mret (calcMemSize o 32).
Definition memoryMStore8 : FM D Z := o ← Back 0; mret (calcMemSize o 1).
Definition memoryMStore : FM D Z := o ← Back 0; mret (calcMemSize o 32).
Definition memoryCreate : FM D Z := mem_size 1 2.
Definition memoryCreate2 : FM D Z := mem_size 1 2.
Definition memoryCall : FM D Z := x ← mem_size 5 6; y ← mem_size 3 4; mret (BigMax x y).
Definition memoryDelegateCall : FM D Z := x ← mem_size 4 5; y ← mem_size 2 3; mret (BigMax x y).
Definition memoryStaticCall : FM D Z := x ← mem_size 4 5; y ← mem_size 2 3; mret (BigMax x y).
Definition memoryReturn : FM D Z := mem_size 0 1.
Definition memoryRevert : FM D Z := mem_size 0 1.
Definition memoryLog : FM D Z := mem_size 0 1.

(** ** Gas functions *)

Abbreviation gasFunc := (Z -> FM D Z).

(** The steps they share: an addition, a multiplication, a word of the stack. *)
Definition safe_add (x y : Z) : FM D Z :=
  let '(r, overflow) := SafeAdd x y in if overflow then throw errGasUintOverflow else mret r.
Definition safe_mul (x y : Z) : FM D Z :=
  let '(r, overflow) := SafeMul x y in if overflow then throw errGasUintOverflow else mret r.
Definition back_uint64 (n : nat) : FM D Z :=
  x ← Back n;
  let '(r, overflow) := bigUint64 x in if overflow then throw errGasUintOverflow else mret r.
Definition memory_gas (memorySize : Z) : FM D Z :=
  m ← gets f_mem;
  '(fee, m) ← pure id (memoryGasCost m memorySize);
  modify (set_mem m) ;; mret fee.

Definition constGasFunc (gas : Z) : gasFunc := fun _ => mret gas.

(** The body of the copying instructions: a price, and one by words of the length. *)
Definition copy_gas (base : Z) (len : nat) : gasFunc := fun memorySize =>
  gas ← memory_gas memorySize;
  gas ← safe_add gas base;
  words ← back_uint64 len;
  words ← safe_mul (toWordSize words) CopyGas;
  safe_add gas words.

Definition gasCallDataCopy : gasFunc := copy_gas GasFastestStep 2.
Definition gasReturnDataCopy : gasFunc := copy_gas GasFastestStep 2.
Definition gasCodeCopy : gasFunc := copy_gas GasFastestStep 2.

Definition makeGasLog (n : Z) : gasFunc := fun memorySize =>
  requestedSize ← back_uint64 1;
  gas ← memory_gas memorySize;
  gas ← safe_add gas LogGas;
  gas ← safe_add gas (u64 (n * LogTopicGas));
  memorySizeGas ← safe_mul requestedSize LogDataGas;
  safe_add gas memorySizeGas.

Definition gasSha3 : gasFunc := fun memorySize =>
  gas ← memory_gas memorySize;
  gas ← safe_add gas Sha3Gas;
  wordGas ← back_uint64 1;
  wordGas ← safe_mul (toWordSize wordGas) Sha3WordGas;
  safe_add gas wordGas.

(** [gasMLoad], [gasMStore8], [gasMStore], [gasCreate], [gasCreate2] *)
Definition access_gas (base : Z) : gasFunc := fun memorySize => gas ← memory_gas memorySize; safe_add gas base.
Definition gasMLoad : gasFunc := access_gas GasFastestStep.
Definition gasMStore8 : gasFunc := access_gas GasFastestStep.
Definition gasMStore : gasFunc := access_gas GasFastestStep.
Definition gasCreate : gasFunc := access_gas CreateGas.
Definition gasCreate2 : gasFunc := access_gas Create2Gas.
Definition gasReturn : gasFunc := memory_gas.
Definition gasRevert : gasFunc := memory_gas.

Definition gasPush : gasFunc := fun _ => mret GasFastestStep.
Definition gasSwap : gasFunc := fun _ => mret GasFastestStep.
Definition gasDup : gasFunc := fun _ => mret GasFastestStep.

Context `{!StateOps D} (env : Env).

Definition gasTable : GasTable := config_GasTable (env_config env) (Some (env_BlockNumber env)).

Definition gasExtCodeCopy : gasFunc := copy_gas (gt_ExtcodeCopy gasTable) 3.
Definition gasExtCodeHash : gasFunc := fun _ => mret (gt_ExtcodeHash gasTable).
Definition gasBalance : gasFunc := fun _ => mret (gt_Balance gasTable).
Definition gasExtCodeSize : gasFunc := fun _ => mret (gt_ExtcodeSize gasTable).
Definition gasSLoad : gasFunc := fun _ => mret (gt_SLoad gasTable).

Definition gasSStore : gasFunc := fun _ =>
  y ← Back 1;
  x ← Back 0;
  c ← gets f_contract;
  val ← in_state (db_GetState (c_self c) (BigToHash x));
  if bool_decide (val = emptyHash) && bool_decide (y <> 0) then mret SstoreSetGas
  else if bool_decide (val <> emptyHash) && bool_decide (y = 0) then
    in_state (db_AddRefund SstoreRefundGas) ;; mret SstoreClearGas
  else mret SstoreResetGas.

Definition gasExp : gasFunc := fun _ =>
  y ← Back 1;
  let expByteLen := (BitLen y + 7) / 8 in
  safe_add (u64 (expByteLen * gt_ExpByte gasTable)) GasSlowStep.

(** The end of the calls: the gas the callee gets. *)
Definition call_gas (gas : Z) : FM D Z :=
  c ← gets f_contract;
  x ← Back 0;
  temp ← pure id (callGas gasTable (c_Gas c) gas x);
  in_evm (modify (set_callGasTemp temp)) ;;
  safe_add gas temp.

Definition gasCall : gasFunc := fun memorySize =>
  v ← Back 2;
  a ← Back 1;
  let transfersValue := bool_decide (v <> 0) in
  let address := BigToAddress a in
  fresh ←
    (if env_is IsEIP158 env then
       (if transfersValue then in_state (db_Empty address) else mret false)
     else ex ← in_state (db_Exist address); mret (negb ex));
  let gas := if (fresh : bool) then u64 (gt_Calls gasTable + CallNewAccountGas) else gt_Calls gasTable in
  let gas := if transfersValue then u64 (gas + CallValueTransferGas) else gas in
  memoryGas ← memory_gas memorySize;
  gas ← safe_add gas memoryGas;
  call_gas gas.

Definition gasCallCode : gasFunc := fun memorySize =>
  v ← Back 2;
  let gas := if bool_decide (v <> 0) then u64 (gt_Calls gasTable + CallValueTransferGas) else gt_Calls gasTable in
  memoryGas ← memory_gas memorySize;
  gas ← safe_add gas memoryGas;
  call_gas gas.

Definition gasDelegateCall : gasFunc := fun memorySize =>
  gas ← memory_gas memorySize;
  gas ← safe_add gas (gt_Calls gasTable);
  call_gas gas.

Definition gasStaticCall : gasFunc := fun memorySize =>
  gas ← memory_gas memorySize;
  gas ← safe_add gas (gt_Calls gasTable);
  call_gas gas.

Definition gasSuicide : gasFunc := fun _ =>
  c ← gets f_contract;
  gas ←
    (if env_is IsEIP150 env then
       a ← Back 0;
       let address := BigToAddress a in
       fresh ←
         (if env_is IsEIP158 env then
            empty ← in_state (db_Empty address);
            if (empty : bool) then b ← in_state (db_GetBalance (c_self c)); mret (bool_decide (b <> 0)) else mret false
          else ex ← in_state (db_Exist address); mret (negb ex));
       mret (if (fresh : bool) then u64 (gt_Suicide gasTable + gt_CreateBySuicide gasTable) else gt_Suicide gasTable)
     else mret 0);
  dead ← in_state (db_HasSuicided (c_self c));
  (if (dead : bool) then mret tt else in_state (db_AddRefund SuicideRefundGas)) ;;
  mret gas.

End frames.
