(* ===== verification/EvmInstr.v ===== *)
(** * Instructions ([src/core/vm/instructions.go])

    One definition per instruction.  The instructions return the bytes Go returns:
    the result of a call, of a creation that reverted, of the end of the run.  The
    calls are those of [EvmCalls]. *)

From S2P Require Import Prelude Common TrieEncoding Trie TrieSpec TrieMap.
From S2P Require Import TrieCanon Rlp Sha3 TrieHash TrieMerkle TrieIter.
From S2P Require Import TrieIterSpec RlpRaw TrieBinding RlpStream Params DposContext.
From S2P Require Import Header Transaction Block SecureTrie State StateSpec.
From S2P Require Import EvmState EvmWord EvmCode EvmMachine EvmPrecompiles EvmCalls EvmGas.

Section words.
Context `{go : Runtime} {D : Type}.

(** Replace the top of the stack by a function of it. *)
Definition op1 (f : Z -> Z) : FM D (list Z) := x ← pop; push (f x) ;; mret [].
Definition op2 (f : Z -> Z -> Z) : FM D (list Z) := x ← pop; y ← pop; push (f x y) ;; mret [].
Definition op3 (f : Z -> Z -> Z -> Z) : FM D (list Z) := x ← pop; y ← pop; z ← pop; push (f x y z) ;; mret [].

Definition opAdd := op2 w_add.
Definition opSub := op2 w_sub.
Definition opMul := op2 w_mul.
Definition opDiv := op2 w_div.
Definition opSdiv := op2 w_sdiv.
Definition opMod := op2 w_mod.
Definition opSmod := op2 w_smod.
Definition opExp := op2 Exp.
Definition opLt := op2 w_lt.
Definition opGt := op2 w_gt.
Definition opSlt := op2 w_slt.
Definition opSgt := op2 w_sgt.
Definition opEq := op2 w_eq.
Definition opAnd := op2 Z.land.
Definition opOr := op2 Z.lor.
Definition opXor := op2 Z.lxor.
Definition opByte := op2 w_byte.
Definition opSHL := op2 w_shl.
Definition opSHR := op2 w_shr.
Definition opSAR := op2 w_sar.
Definition opNot := op1 w_not.
Definition opIszero := op1 w_iszero.
Definition opAddmod := op3 w_addmod.
Definition opMulmod := op3 w_mulmod.

(** The second word is left alone from 31 on. *)
Definition opSignExtend : FM D (list Z) :=
  back ← pop;
  (if bool_decide (back < 31) then num ← pop; push (w_signextend back num) else mret tt) ;;
  mret [].

(** ** The stack and the program counter *)

Definition opPop : FM D (list Z) := _ ← pop; mret [].

(** [makePush] *)
Definition makePush (size pushByteSize : Z) : FM D (list Z) :=
  c ← gets f_contract;
  pc ← gets f_pc;
  let codeLen := Z.of_nat (length (c_Code c)) in
  let next := i64 (u64 (pc + 1)) in
  let startMin := if bool_decide (next < codeLen) then next else codeLen in
  let endMin := if bool_decide (startMin + pushByteSize < codeLen) then startMin + pushByteSize else codeLen in
  d ← always (slice (c_Code c) startMin endMin);
  d ← always (RightPadBytes d pushByteSize);
  push (be_uint d) ;;
  modify (set_pc (u64 (pc + size))) ;;
  mret [].

Definition makeDup (size : nat) : FM D (list Z) := dup size ;; mret [].
Definition makeSwap (size : nat) : FM D (list Z) := swap (size + 1) ;; mret [].

(** The jump destinations, without the cache. *)
Definition is_destination (pos : Z) : FM D bool :=
  c ← gets f_contract;
  '(ok, _) ← always (has ∅ (c_CodeHash c) (c_Code c) pos);
  mret ok.
Definition jump_to (pos : Z) : FM D unit :=
  ok ← is_destination pos;
  if negb ok then c ← gets f_contract; throw (errInvalidJump (GetOp c (big_Uint64 pos)) pos)
  else modify (set_pc (big_Uint64 pos)).

Definition opJump : FM D (list Z) := pos ← pop; jump_to pos ;; mret [].
Definition opJumpi : FM D (list Z) :=
  pos ← pop;
  cond ← pop;
  (if bool_decide (cond <> 0) then jump_to pos else modify (fun f => set_pc (u64 (f_pc f + 1)) f)) ;;
  mret [].
Definition opJumpdest : FM D (list Z) := mret [].
Definition opPc : FM D (list Z) := pc ← gets f_pc; push pc ;; mret [].
Definition opStop : FM D (list Z) := mret [].

(** ** Memory *)

(** [memory.Get(offset.Int64(), size.Int64())], [memory.Set(...)] *)
Definition mem_get (offset size : Z) : FM D (list Z) := m ← gets f_mem; always (m_Get m (big_Int64 offset) (big_Int64 size)).
Definition mem_set (offset size : Z) (value : list Z) : FM D unit :=
  m ← gets f_mem; m ← always (m_Set m (big_Uint64 offset) (big_Uint64 size) value); modify (set_mem m).

Definition opMload : FM D (list Z) := offset ← pop; d ← mem_get offset 32; push (be_uint d) ;; mret [].
Definition opMstore : FM D (list Z) :=
  mStart ← pop;
  val ← pop;
  m ← gets f_mem;
  m ← always (m_Set32 m (big_Uint64 mStart) val);
  modify (set_mem m) ;; mret [].
Definition opMstore8 : FM D (list Z) :=
  off ← pop;
  val ← pop;
  m ← gets f_mem;
  let off := big_Int64 off in
  (if bool_decide (0 <= off < m_Len m)
   then modify (set_mem (mkMemory (<[Z.to_nat off := Z.land (big_Int64 val) 0xff]> (m_store m)) (m_lastGasCost m)))
   else panic) ;;
  mret [].
Definition opMsize : FM D (list Z) := m ← gets f_mem; push (m_Len m) ;; mret [].

Definition opReturn : FM D (list Z) :=
  offset ← pop; size ← pop; m ← gets f_mem; always (m_GetPtr m (big_Int64 offset) (big_Int64 size)).
Definition opRevert : FM D (list Z) :=
  offset ← pop; size ← pop; m ← gets f_mem; always (m_GetPtr m (big_Int64 offset) (big_Int64 size)).

(** ** The contract *)

Definition opAddress : FM D (list Z) := c ← gets f_contract; push (be_uint (c_self c)) ;; mret [].
Definition opCaller : FM D (list Z) := c ← gets f_contract; push (be_uint (CallerAddress c)) ;; mret [].
Definition opCallValue : FM D (list Z) := c ← gets f_contract; v ← must (c_value c); push v ;; mret [].
Definition opCallDataLoad : FM D (list Z) :=
  x ← pop;
  c ← gets f_contract;
  d ← always (getDataBig (c_Input c) x 32);
  push (be_uint d) ;; mret [].
Definition opCallDataSize : FM D (list Z) := c ← gets f_contract; push (Z.of_nat (length (c_Input c))) ;; mret [].

(** The body of [opCallDataCopy] and [opCodeCopy] *)
Definition copy_data (data : list Z) : FM D (list Z) :=
  memOffset ← pop;
  dataOffset ← pop;
  len ← pop;
  d ← always (getDataBig data dataOffset len);
  mem_set memOffset len d ;; mret [].
Definition opCallDataCopy : FM D (list Z) := c ← gets f_contract; copy_data (c_Input c).
Definition opCodeCopy : FM D (list Z) := c ← gets f_contract; copy_data (c_Code c).
Definition opCodeSize : FM D (list Z) := c ← gets f_contract; push (Z.of_nat (length (c_Code c))) ;; mret [].
Definition opGas : FM D (list Z) := c ← gets f_contract; push (c_Gas c) ;; mret [].

Definition opReturnDataSize : FM D (list Z) :=
  e ← gets f_evm; push (u64 (Z.of_nat (length (e_returnData e)))) ;; mret [].
Definition opReturnDataCopy : FM D (list Z) :=
  memOffset ← pop;
  dataOffset ← pop;
  len ← pop;
  let stop := dataOffset + len in
  e ← gets f_evm;
  if bool_decide (BitLen stop > 64) || bool_decide (u64 (Z.of_nat (length (e_returnData e))) < big_Uint64 stop)
  then throw errReturnDataOutOfBounds
  else
    d ← always (slice (e_returnData e) (big_Uint64 dataOffset) (big_Uint64 stop));
    mem_set memOffset len d ;; mret [].

End words.

Section instructions.
Context `{Keccak, Ecdsa, Native} `{go : Runtime} {D : Type} `{!StateOps D} (env : Env).

(** ** The block *)

Definition opOrigin : FM D (list Z) := push (be_uint (env_Origin env)) ;; mret [].
Definition opGasprice : FM D (list Z) := push (env_GasPrice env) ;; mret [].
Definition opBlockhash : FM D (list Z) :=
  num ← pop;
  push (if bool_decide (num > env_BlockNumber env - 257) && bool_decide (num < env_BlockNumber env)
        then be_uint (env_GetHash env (big_Uint64 num)) else 0) ;;
  mret [].
Definition opCoinbase : FM D (list Z) := push (be_uint (env_Coinbase env)) ;; mret [].
Definition opTimestamp : FM D (list Z) := push (U256 (env_Time env)) ;; mret [].
Definition opNumber : FM D (list Z) := push (U256 (env_BlockNumber env)) ;; mret [].
Definition opDifficulty : FM D (list Z) := push (U256 (env_Difficulty env)) ;; mret [].
Definition opGasLimit : FM D (list Z) := push (U256 (env_GasLimit env)) ;; mret [].

(** ** The state *)

Definition opSha3 : FM D (list Z) :=
  offset ← pop;
  size ← pop;
  data ← mem_get offset size;
  let hash := keccak256 data in
  (if env_EnablePreimageRecording env then in_state (db_AddPreimage (BytesToHash hash) data) else mret tt) ;;
  push (be_uint hash) ;; mret [].
Definition opBalance : FM D (list Z) := a ← pop; b ← in_state (db_GetBalance (BigToAddress a)); push b ;; mret [].
Definition opExtCodeSize : FM D (list Z) :=
  a ← pop; n ← in_state (db_GetCodeSize (BigToAddress a)); push (u64 n) ;; mret [].
Definition opExtCodeCopy : FM D (list Z) :=
  a ← pop;
  memOffset ← pop;
  codeOffset ← pop;
  len ← pop;
  code ← in_state (db_GetCode (BigToAddress a));
  d ← always (getDataBig code codeOffset len);
  mem_set memOffset len d ;; mret [].
Definition opExtCodeHash : FM D (list Z) :=
  a ← pop; h ← in_state (db_GetCodeHash (BigToAddress a)); push (be_uint h) ;; mret [].
Definition opSload : FM D (list Z) :=
  loc ← pop;
  c ← gets f_contract;
  val ← in_state (db_GetState (c_self c) (BigToHash loc));
  push (be_uint val) ;; mret [].
Definition opSstore : FM D (list Z) :=
  loc ← pop;
  val ← pop;
  c ← gets f_contract;
  in_state (db_SetState (c_self c) (BigToHash loc) (BigToHash val)) ;; mret [].
Definition opSuicide : FM D (list Z) :=
  c ← gets f_contract;
  balance ← in_state (db_GetBalance (c_self c));
  a ← pop;
  in_state (db_AddBalance (BigToAddress a) balance) ;;
  _ ← in_state (db_Suicide (c_self c));
  mret [].

(** [makeLog]: the loop over the topics. *)
Fixpoint pop_topics (size : nat) : FM D (list (list Z)) :=
  match size with
  | O => mret []
  | S size => x ← pop; l ← pop_topics size; mret (BigToHash x :: l)
  end.
Definition makeLog (size : nat) : FM D (list Z) :=
  mStart ← pop;
  mSize ← pop;
  topics ← pop_topics size;
  d ← mem_get mStart mSize;
  c ← gets f_contract;
  in_state (db_AddLog (mkLog (c_self c) topics d (big_Uint64 (env_BlockNumber env)) emptyHash 0 emptyHash 0 false)) ;;
  mret [].

(** ** Calls *)

Variable interpreter_Run : Contract -> list Z -> SM (EVM D) Empty_set run_result.

Definition use_gas (gas : Z) : FM D unit := modify (fun f => set_contract (UseGas gas (f_contract f)).2 f).
Definition add_gas (gas : Z) : FM D unit :=
  modify (fun f => set_contract (set_gas (u64 (c_Gas (f_contract f) + gas)) (f_contract f)) f).

Definition opCreate : FM D (list Z) :=
  value ← pop;
  offset ← pop;
  size ← pop;
  input ← mem_get offset size;
  c ← gets f_contract;
  let gas := if env_is IsEIP150 env then u64 (c_Gas c - c_Gas c / 64) else c_Gas c in
  use_gas gas ;;
  c ← gets f_contract;
  '(res, addr, returnGas, suberr) ← in_evm (Create env interpreter_Run (ContractObj c) input gas value);
  push (if env_is IsHomestead env && bool_decide (suberr = Some ErrCodeStoreOutOfGas) then 0
        else if bool_decide (suberr <> None) && bool_decide (suberr <> Some ErrCodeStoreOutOfGas) then 0
        else be_uint addr) ;;
  add_gas returnGas ;;
  mret (if bool_decide (suberr = Some errExecutionReverted) then res else []).

Definition opCreate2 : FM D (list Z) :=
  endowment ← pop;
  offset ← pop;
  size ← pop;
  salt ← pop;
  input ← mem_get offset size;
  c ← gets f_contract;
  let gas := u64 (c_Gas c - c_Gas c / 64) in
  use_gas gas ;;
  c ← gets f_contract;
  '(res, addr, returnGas, suberr) ← in_evm (Create2 env interpreter_Run (ContractObj c) input gas endowment salt);
  push (if bool_decide (suberr <> None) then 0 else be_uint addr) ;;
  add_gas returnGas ;;
  mret (if bool_decide (suberr = Some errExecutionReverted) then res else []).

(** The end of the calls: the flag, the result in memory, the gas that is left. *)
Definition finish_call (retOffset retSize : Z) (r : list Z * Z * option vm_error) : FM D (list Z) :=
  let '(ret, returnGas, err) := r in
  push (if bool_decide (err <> None) then 0 else 1) ;;
  (if bool_decide (err = None) || bool_decide (err = Some errExecutionReverted) then mem_set retOffset retSize ret else mret tt) ;;
  add_gas returnGas ;;
  mret ret.

Definition opCall : FM D (list Z) :=
  _ ← pop;
  e ← gets f_evm;
  let gas := e_callGasTemp e in
  addr ← pop;
  value ← pop;
  inOffset ← pop;
  inSize ← pop;
  retOffset ← pop;
  retSize ← pop;
  let toAddr := BigToAddress addr in
  let value := U256 value in
  args ← mem_get inOffset inSize;
  let gas := if bool_decide (value <> 0) then u64 (gas + CallStipend) else gas in
  c ← gets f_contract;
  r ← in_evm (Call env interpreter_Run (ContractObj c) toAddr args gas value);
  finish_call retOffset retSize r.

Definition opCallCode : FM D (list Z) :=
  _ ← pop;
  e ← gets f_evm;
  let gas := e_callGasTemp e in
  addr ← pop;
  value ← pop;
  inOffset ← pop;
  inSize ← pop;
  retOffset ← pop;
  retSize ← pop;
  let toAddr := BigToAddress addr in
  let value := U256 value in
  args ← mem_get inOffset inSize;
  let gas := if bool_decide (value <> 0) then u64 (gas + CallStipend) else gas in
  c ← gets f_contract;
  r ← in_evm (CallCode env interpreter_Run (ContractObj c) toAddr args gas value);
  finish_call retOffset retSize r.

Definition opDelegateCall : FM D (list Z) :=
  _ ← pop;
  e ← gets f_evm;
  let gas := e_callGasTemp e in
  addr ← pop;
  inOffset ← pop;
  inSize ← pop;
  retOffset ← pop;
  retSize ← pop;
  let toAddr := BigToAddress addr in
  args ← mem_get inOffset inSize;
  c ← gets f_contract;
  r ← in_evm (DelegateCall env interpreter_Run (ContractObj c) toAddr args gas);
  finish_call retOffset retSize r.

Definition opStaticCall : FM D (list Z) :=
  _ ← pop;
  e ← gets f_evm;
  let gas := e_callGasTemp e in
  addr ← pop;
  inOffset ← pop;
  inSize ← pop;
  retOffset ← pop;
  retSize ← pop;
  let toAddr := BigToAddress addr in
  args ← mem_get inOffset inSize;
  c ← gets f_contract;
  r ← in_evm (StaticCall env interpreter_Run (ContractObj c) toAddr args gas);
  finish_call retOffset retSize r.

End instructions.
