(* ===== verification/EvmInterp.v ===== *)
(** * The interpreter ([src/core/vm/jump_table.go], [interpreter.go])

    The tables of operations of each phase and the loop.  Each round of the loop,
    and each run below it, has one unit of fuel less; [EvmSpec] shows that the gas
    is enough fuel. *)

From S2P Require Import Prelude Common TrieEncoding Trie TrieSpec TrieMap.
From S2P Require Import TrieCanon Rlp Sha3 TrieHash TrieMerkle TrieIter.
From S2P Require Import TrieIterSpec RlpRaw TrieBinding RlpStream Params DposContext.
From S2P Require Import Header Transaction Block SecureTrie State StateSpec.
From S2P Require Import EvmState EvmWord EvmCode EvmMachine EvmPrecompiles EvmCalls EvmGas EvmInstr.

(** [operation]; an operation that is in a table is valid.  [pops] and [pushes] are
    the arguments of the function that made [validateStack]. *)
Record operation (D : Type) := mkOperation {
  execute : FM D (list Z);
  gasCost : Z -> FM D Z;
  pops : Z;
  pushes : Z;
  memorySize : option (FM D Z);
  halts : bool;
  jumps : bool;
  writes : bool;
  reverts : bool;
  returns : bool
}.
Arguments mkOperation {D}.
Arguments execute {D}.
Arguments gasCost {D}.
Arguments pops {D}.
Arguments pushes {D}.
Arguments memorySize {D}.
Arguments halts {D}.
Arguments jumps {D}.
Arguments writes {D}.
Arguments reverts {D}.
Arguments returns {D}.

Section interpreter.
Context `{Keccak, Ecdsa, Native} `{go : Runtime} {D : Type} `{!StateOps D} (env : Env).

Definition plain_op (e : FM D (list Z)) (g : Z -> FM D Z) (pop push : Z) : operation D :=
  mkOperation e g pop push None false false false false false.
Definition mem_op (e : FM D (list Z)) (g : Z -> FM D Z) (pop push : Z) (m : FM D Z) : operation D :=
  mkOperation e g pop push (Some m) false false false false false.
Definition halting (o : operation D) : operation D :=
  mkOperation (execute o) (gasCost o) (pops o) (pushes o) (memorySize o) true (jumps o) (writes o) (reverts o) (returns o).
Definition jumping (o : operation D) : operation D :=
  mkOperation (execute o) (gasCost o) (pops o) (pushes o) (memorySize o) (halts o) true (writes o) (reverts o) (returns o).
Definition writing (o : operation D) : operation D :=
  mkOperation (execute o) (gasCost o) (pops o) (pushes o) (memorySize o) (halts o) (jumps o) true (reverts o) (returns o).
Definition reverting (o : operation D) : operation D :=
  mkOperation (execute o) (gasCost o) (pops o) (pushes o) (memorySize o) (halts o) (jumps o) (writes o) true (returns o).
Definition returning (o : operation D) : operation D :=
  mkOperation (execute o) (gasCost o) (pops o) (pushes o) (memorySize o) (halts o) (jumps o) (writes o) (reverts o) true.

Section tables.
Variable interpreter_Run : Contract -> list Z -> SM (EVM D) Empty_set run_result.

(** The families of instructions. *)
Definition push_ops : list (Z * operation D) :=
  map (fun i => (PUSH1 + Z.of_nat i - 1, plain_op (makePush (Z.of_nat i) (Z.of_nat i)) gasPush 0 1)) (seq 1 32).
Definition dup_ops : list (Z * operation D) :=
  map (fun i => (DUP1 + Z.of_nat i - 1, plain_op (makeDup i) gasDup (Z.of_nat i) (Z.of_nat i + 1))) (seq 1 16).
Definition swap_ops : list (Z * operation D) :=
  map (fun i => (SWAP1 + Z.of_nat i - 1, plain_op (makeSwap i) gasSwap (Z.of_nat i + 1) (Z.of_nat i + 1))) (seq 1 16).
Definition log_ops : list (Z * operation D) :=
  map (fun i => (LOG0 + Z.of_nat i, writing (mem_op (makeLog env i) (makeGasLog (Z.of_nat i)) (Z.of_nat i + 2) 0 memoryLog))) (seq 0 5).

(** The rows of [newFrontierInstructionSet]: arithmetic, the environment, control
    and the state. *)
Definition arith_ops : list (Z * operation D) :=
  [(STOP, halting (plain_op opStop (constGasFunc 0) 0 0));
   (ADD, plain_op opAdd (constGasFunc GasFastestStep) 2 1);
   (MUL, plain_op opMul (constGasFunc GasFastStep) 2 1);
   (SUB, plain_op opSub (constGasFunc GasFastestStep) 2 1);
   (DIV, plain_op opDiv (constGasFunc GasFastStep) 2 1);
   (SDIV, plain_op opSdiv (constGasFunc GasFastStep) 2 1);
   (MOD, plain_op opMod (constGasFunc GasFastStep) 2 1);
   (SMOD, plain_op opSmod (constGasFunc GasFastStep) 2 1);
   (ADDMOD, plain_op opAddmod (constGasFunc GasMidStep) 3 1);
   (MULMOD, plain_op opMulmod (constGasFunc GasMidStep) 3 1);
   (EXP, plain_op opExp (gasExp env) 2 1);
   (SIGNEXTEND, plain_op opSignExtend (constGasFunc GasFastStep) 2 1);
   (LT, plain_op opLt (constGasFunc GasFastestStep) 2 1);
   (GT, plain_op opGt (constGasFunc GasFastestStep) 2 1);
   (SLT, plain_op opSlt (constGasFunc GasFastestStep) 2 1);
   (SGT, plain_op opSgt (constGasFunc GasFastestStep) 2 1);
   (EQ, plain_op opEq (constGasFunc GasFastestStep) 2 1);
   (ISZERO, plain_op opIszero (constGasFunc GasFastestStep) 1 1);
   (AND, plain_op opAnd (constGasFunc GasFastestStep) 2 1);
   (XOR, plain_op opXor (constGasFunc GasFastestStep) 2 1);
   (OR, plain_op opOr (constGasFunc GasFastestStep) 2 1);
   (NOT, plain_op opNot (constGasFunc GasFastestStep) 1 1);
   (BYTE, plain_op opByte (constGasFunc GasFastestStep) 2 1)].

Definition context_ops : list (Z * operation D) :=
  [(SHA3, mem_op (opSha3 env) gasSha3 2 1 memorySha3);
   (ADDRESS, plain_op opAddress (constGasFunc GasQuickStep) 0 1);
   (BALANCE, plain_op opBalance (gasBalance env) 1 1);
   (ORIGIN, plain_op (opOrigin env) (constGasFunc GasQuickStep) 0 1);
   (CALLER, plain_op opCaller (constGasFunc GasQuickStep) 0 1);
   (CALLVALUE, plain_op opCallValue (constGasFunc GasQuickStep) 0 1);
   (CALLDATALOAD, plain_op opCallDataLoad (constGasFunc GasFastestStep) 1 1);
   (CALLDATASIZE, plain_op opCallDataSize (constGasFunc GasQuickStep) 0 1);
   (CALLDATACOPY, mem_op opCallDataCopy gasCallDataCopy 3 0 memoryCallDataCopy);
   (CODESIZE, plain_op opCodeSize (constGasFunc GasQuickStep) 0 1);
   (CODECOPY, mem_op opCodeCopy gasCodeCopy 3 0 memoryCodeCopy);
   (GASPRICE, plain_op (opGasprice env) (constGasFunc GasQuickStep) 0 1);
   (EXTCODESIZE, plain_op opExtCodeSize (gasExtCodeSize env) 1 1);
   (EXTCODECOPY, mem_op opExtCodeCopy (gasExtCodeCopy env) 4 0 memoryExtCodeCopy);
   (BLOCKHASH, plain_op (opBlockhash env) (constGasFunc GasExtStep) 1 1);
   (COINBASE, plain_op (opCoinbase env) (constGasFunc GasQuickStep) 0 1);
   (TIMESTAMP, plain_op (opTimestamp env) (constGasFunc GasQuickStep) 0 1);
   (NUMBER, plain_op (opNumber env) (constGasFunc GasQuickStep) 0 1);
   (DIFFICULTY, plain_op (opDifficulty env) (constGasFunc GasQuickStep) 0 1);
   (GASLIMIT, plain_op (opGasLimit env) (constGasFunc GasQuickStep) 0 1)].

Definition control_ops : list (Z * operation D) :=
  [(POP, plain_op opPop (constGasFunc GasQuickStep) 1 0);
   (MLOAD, mem_op opMload gasMLoad 1 1 memoryMLoad);
   (MSTORE, mem_op opMstore gasMStore 2 0 memoryMStore);
   (MSTORE8, mem_op opMstore8 gasMStore8 2 0 memoryMStore8);
   (SLOAD, plain_op opSload (gasSLoad env) 1 1);
   (SSTORE, writing (plain_op opSstore gasSStore 2 0));
   (JUMP, jumping (plain_op opJump (constGasFunc GasMidStep) 1 0));
   (JUMPI, jumping (plain_op opJumpi (constGasFunc GasSlowStep) 2 0));
   (PC, plain_op opPc (constGasFunc GasQuickStep) 0 1);
   (MSIZE, plain_op opMsize (constGasFunc GasQuickStep) 0 1);
   (GAS, plain_op opGas (constGasFunc GasQuickStep) 0 1);
   (JUMPDEST, plain_op opJumpdest (constGasFunc JumpdestGas) 0 0)].

Definition system_ops : list (Z * operation D) :=
  [(CREATE, returning (writing (mem_op (opCreate env interpreter_Run) gasCreate 3 1 memoryCreate)));
   (CALL, returning (mem_op (opCall env interpreter_Run) (gasCall env) 7 1 memoryCall));
   (CALLCODE, returning (mem_op (opCallCode env interpreter_Run) (gasCallCode env) 7 1 memoryCall));
   (RETURN, halting (mem_op opReturn gasReturn 2 0 memoryReturn));
   (SELFDESTRUCT, writing (halting (plain_op opSuicide (gasSuicide env) 1 0)))].

Definition newFrontierInstructionSet : list (Z * operation D) :=
  arith_ops ++ context_ops ++ control_ops ++ push_ops ++ dup_ops ++ swap_ops ++ log_ops ++ system_ops.

(** The rows a phase adds come first: the first row of an opcode counts. *)
Definition newHomesteadInstructionSet : list (Z * operation D) :=
  (DELEGATECALL, returning (mem_op (opDelegateCall env interpreter_Run) (gasDelegateCall env) 6 1 memoryDelegateCall))
  :: newFrontierInstructionSet.

Definition newByzantiumInstructionSet : list (Z * operation D) :=
  [(STATICCALL, returning (mem_op (opStaticCall env interpreter_Run) (gasStaticCall env) 6 1 memoryStaticCall));
   (RETURNDATASIZE, plain_op opReturnDataSize (constGasFunc GasQuickStep) 0 1);
   (RETURNDATACOPY, mem_op opReturnDataCopy gasReturnDataCopy 3 0 memoryReturnDataCopy);
   (REVERT, returning (reverting (mem_op opRevert gasRevert 2 0 memoryRevert)))]
  ++ newHomesteadInstructionSet.

Definition newConstantinopleInstructionSet : list (Z * operation D) :=
  [(SHL, plain_op opSHL (constGasFunc GasFastestStep) 2 1);
   (SHR, plain_op opSHR (constGasFunc GasFastestStep) 2 1);
   (SAR, plain_op opSAR (constGasFunc GasFastestStep) 2 1);
   (EXTCODEHASH, plain_op opExtCodeHash (gasExtCodeHash env) 1 1);
   (CREATE2, returning (writing (mem_op (opCreate2 env interpreter_Run) gasCreate2 4 1 memoryCreate2)))]
  ++ newByzantiumInstructionSet.

(** The table [NewEVMInterpreter] takes. *)
Definition jump_table : list (Z * operation D) :=
  if env_is IsConstantinople env then newConstantinopleInstructionSet
  else if env_is IsByzantium env then newByzantiumInstructionSet
  else if env_is IsHomestead env then newHomesteadInstructionSet
  else newFrontierInstructionSet.

Fixpoint find_op (op : Z) (l : list (Z * operation D)) : option (operation D) :=
  match l with
  | [] => None
  | (o, x) :: l => if bool_decide (o = op) then Some x else find_op op l
  end.

(** ** The loop *)

(** [enforceRestrictions] *)
Definition enforceRestrictions (op : Z) (o : operation D) : FM D unit :=
  e ← gets f_evm;
  if env_is IsByzantium env && e_readOnly e then
    moves ← (if writes o then mret true else if bool_decide (op = CALL) then v ← Back 2; mret (bool_decide (BitLen v > 0)) else mret false);
    if (moves : bool) then throw errWriteProtection else mret tt
  else mret tt.

(** The memory an instruction needs, in whole words. *)
Definition needed_memory (o : operation D) : FM D Z :=
  match memorySize o with
  | None => mret 0
  | Some f =>
      x ← f;
      let '(memSize, overflow) := bigUint64 x in
      if overflow then throw errGasUintOverflow else safe_mul (toWordSize memSize) 32
  end.

Definition charge (cost : Z) : FM D unit :=
  c ← gets f_contract;
  let '(ok, c) := UseGas cost c in
  if ok then modify (set_contract c) else throw ErrOutOfGas.

Inductive flow : Type :=
  | Continue
  | Done (res : list Z) (err : option vm_error).

(** What follows the execution of an instruction. *)
Definition after (o : operation D) (r : vm_error + list Z) : FM D flow :=
  let res := match r with inl _ => [] | inr res => res end in
  (if returns o then in_evm (modify (set_returnData res)) else mret tt) ;;
  match r with
  | inl e => throw e
  | inr res =>
      if reverts o then mret (Done res (Some errExecutionReverted))
      else if halts o then mret (Done res None)
      else if jumps o then mret Continue
      else modify (fun f => set_pc (u64 (f_pc f + 1)) f) ;; mret Continue
  end.

(** A round of the loop for a valid operation. *)
Definition perform (op : Z) (o : operation D) : FM D flow :=
  makeStackFunc (pops o) (pushes o) ;;
  enforceRestrictions op o ;;
  size ← needed_memory o;
  cost ← with_err (fun _ => ErrOutOfGas) (gasCost o size);
  charge cost ;;
  (if bool_decide (size > 0) then modify (fun f => set_mem (m_Resize (f_mem f) size) f) else mret tt) ;;
  handle (execute o) (after o).

Definition round : FM D flow :=
  c ← gets f_contract;
  pc ← gets f_pc;
  let op := GetOp c pc in
  match find_op op jump_table with
  | None => throw (errInvalidOpcode op)
  | Some o => perform op o
  end.

End tables.

(** [EVMInterpreter.Run], given the loop. *)
Definition Run (loop : SM (frame D) Empty_set (list Z * option vm_error)) (contract : Contract) (input : list Z)
  : SM (EVM D) Empty_set run_result :=
  modify (fun e => set_depth (e_depth e + 1) e) ;;
  modify (set_returnData []) ;;
  r ← (if bool_decide (c_Code contract = []) then mret (contract, [], None)
       else fun e =>
         match loop (mkFrame 0 [] NewMemory (set_input input contract) e) with
         | Ok (f, inr (ret, err)) => Ok (f_evm f, inr (f_contract f, ret, err))
         | Ok (_, inl e) => match e with end
         | Err e => match e with end
         | Panic => Panic
         | OutOfFuel => OutOfFuel
         end);
  modify (fun e => set_depth (e_depth e - 1) e) ;;
  mret r.

Fixpoint run_loop (fuel : nat) : SM (frame D) Empty_set (list Z * option vm_error) :=
  match fuel with
  | O => fun _ => OutOfFuel
  | S fuel =>
      e ← gets f_evm;
      if e_abort e then mret ([], None)
      else
        handle (round (Run (run_loop fuel))) (fun r =>
          match r with
          | inl err => mret ([], Some err)
          | inr (Done res err) => mret (res, err)
          | inr Continue => run_loop fuel
          end)
  end.

(** The entry points of the machine. *)
Definition evm_Call (fuel : nat) := Call env (Run (run_loop fuel)).
Definition evm_CallCode (fuel : nat) := CallCode env (Run (run_loop fuel)).
Definition evm_DelegateCall (fuel : nat) := DelegateCall env (Run (run_loop fuel)).
Definition evm_StaticCall (fuel : nat) := StaticCall env (Run (run_loop fuel)).
Definition evm_Create (fuel : nat) := Create env (Run (run_loop fuel)).
Definition evm_Create2 (fuel : nat) := Create2 env (Run (run_loop fuel)).

End interpreter.
