(* ===== verification/EvmInv.v ===== *)
(** * Invariants of the state under the virtual machine

    [world_ok T w]: the accounts are well formed and own no more than [T] together.
    [moves ro sp sp']: the machine may go from [sp] to [sp']: snapshots taken before
    are still there, and when [ro] says that nothing may be written the accounts,
    the logs and the refund are the same.  The lemmas [wp_*] say what the
    operations of the interface do to the specification behind a database. *)

From S2P Require Import Prelude Common TrieEncoding Trie TrieSpec TrieMap.
From S2P Require Import TrieCanon Rlp Sha3 TrieHash TrieMerkle TrieIter.
From S2P Require Import TrieIterSpec RlpRaw TrieBinding RlpStream Params DposContext.
From S2P Require Import Header Transaction Block SecureTrie State StateSpec.
From S2P Require Import EvmState EvmWord EvmCode EvmMachine EvmPrecompiles EvmCalls.

(** ** Sums of balances *)

Definition bal (w : world) (a : list Z) : Z := match w_acct w a with Some v => v_balance v | None => 0 end.

Definition total_of (f : list Z -> Z) (l : list (list Z)) : Z := foldr (fun a acc => f a + acc) 0 l.

Lemma total_of_ext f g l : (forall a, a ∈ l -> f a = g a) -> total_of f l = total_of g l.
Proof.
  induction l as [|b l IH]; intros Hf; [done|]. cbn [total_of foldr]. fold (total_of f l) (total_of g l).
  rewrite (Hf b), IH; [done| |left]. intros a Ha. apply Hf. by right.
Qed.

(** Changing the balance of one address. *)
Lemma total_of_change f g a l :
  NoDup l -> (forall b, b <> a -> g b = f b) ->
  total_of g l = total_of f l + (if bool_decide (a ∈ l) then g a - f a else 0).
Proof.
  intros Hl Hg. induction Hl as [|b l Hb Hl IH]; [done|]. cbn [total_of foldr]. fold (total_of f l) (total_of g l). rewrite IH.
  destruct (decide (b = a)) as [->|Hne].
  - rewrite (bool_decide_false (a ∈ l)), bool_decide_true by (done || by left). lia.
  - rewrite (Hg b Hne). assert (bool_decide (a ∈ b :: l) = bool_decide (a ∈ l)) as ->; [|lia].
    apply bool_decide_ext. rewrite elem_of_cons. naive_solver.
Qed.

(** ** Well-formed worlds *)

Record acct_ok (v : acct) : Prop := {
  ao_nonce : in_u64 (v_nonce v);
  ao_balance : 0 <= v_balance v;
  ao_codehash : Common.hash_ok (v_codehash v);
  ao_code : data_ok (v_code v);
  ao_storage : forall k, Common.hash_ok (v_storage v k)
}.

(** Any addresses own [T] together at most. *)
Definition supply (T : Z) (w : world) : Prop := forall l, NoDup l -> total_of (bal w) l <= T.

Record world_ok (T : Z) (w : world) : Prop := {
  wo_acct : forall a v, w_acct w a = Some v -> acct_ok v;
  wo_supply : supply T w
}.

Lemma bal_nonneg T w a : world_ok T w -> 0 <= bal w a.
Proof. intros Hw. unfold bal. destruct (w_acct w a) as [v|] eqn:E; [|lia]. apply (ao_balance _ (wo_acct _ _ Hw _ _ E)). Qed.

Lemma bal_le T w a : world_ok T w -> bal w a <= T.
Proof. intros Hw. pose proof (wo_supply _ _ Hw [a] (NoDup_singleton a)) as Hs. cbn in Hs. lia. Qed.

Section worlds.
Context `{Keccak} (T : Z).

Lemma emptyHash_hash : Common.hash_ok emptyHash.
Proof. split; [done|apply bytes_ok_zeroes]. Qed.

Lemma fresh_acct_ok : acct_ok fresh_acct.
Proof.
  split; cbn; [unfold in_u64; lia|lia|apply keccak256_ok|apply data_ok_nil|]. intros k. apply emptyHash_hash.
Qed.

Lemma acct_of_ok w a : world_ok T w -> acct_ok (acct_of w a).
Proof. intros Hw. unfold acct_of. destruct (w_acct w a) as [v|] eqn:E; [by apply (wo_acct _ _ Hw _ _ E)|apply fresh_acct_ok]. Qed.

Lemma acct_of_balance w a : v_balance (acct_of w a) = bal w a.
Proof. unfold acct_of, bal. by destruct (w_acct w a). Qed.

Lemma bal_set_acct w a v b : bal (set_acct a (Some v) w) b = if bool_decide (b = a) then v_balance v else bal w b.
Proof. unfold bal, set_acct. cbn [w_acct]. by case_bool_decide. Qed.

Lemma acct_of_set w a v b : acct_of (set_acct a (Some v) w) b = if bool_decide (b = a) then v else acct_of w b.
Proof. unfold acct_of, set_acct. cbn [w_acct]. by case_bool_decide. Qed.

(** Writing an account that does not own more than before. *)
Lemma world_ok_set w a v : world_ok T w -> acct_ok v -> v_balance v <= bal w a -> world_ok T (set_acct a (Some v) w).
Proof.
  intros [Ha Hs] Hv Hb. split.
  - intros b u. unfold set_acct. cbn [w_acct]. case_bool_decide; [by intros [= <-]|apply Ha].
  - intros l Hl. rewrite (total_of_change (bal w) _ a) by (try done; intros b Hb'; rewrite bal_set_acct, bool_decide_false by done; done).
    specialize (Hs l Hl). case_bool_decide; [|lia]. rewrite bal_set_acct, bool_decide_true by done. lia.
Qed.

Lemma world_ok_update w a f : world_ok T w -> acct_ok (f (acct_of w a)) -> v_balance (f (acct_of w a)) <= bal w a ->
  world_ok T (update_acct a f w).
Proof. intros. by apply world_ok_set. Qed.

(** The parts of a world outside the accounts do not matter. *)
Lemma world_ok_acct w w' : w_acct w' = w_acct w -> world_ok T w -> world_ok T w'.
Proof.
  intros E [Ha Hs]. split; [by rewrite E|]. intros l Hl. rewrite (total_of_ext (bal w') (bal w)); [by apply Hs|].
  intros a _. unfold bal. by rewrite E.
Qed.

Definition add_balance (x : Z) (v : acct) : acct := with_balance (v_balance v + x) v.

(** A payment of at most what the sender has. *)
Definition pay (s r : list Z) (x : Z) (w : world) : world := update_acct r (add_balance x) (update_acct s (add_balance (- x)) w).

Lemma acct_ok_balance v x : acct_ok v -> 0 <= x -> acct_ok (with_balance x v).
Proof. intros [] Hx. by split. Qed.

Lemma bal_pay s r x w b :
  bal (pay s r x w) b = bal w b - (if bool_decide (b = s) then x else 0) + (if bool_decide (b = r) then x else 0).
Proof.
  unfold pay, update_acct at 1. rewrite bal_set_acct. cbn [add_balance with_balance v_balance]. rewrite acct_of_balance.
  unfold update_acct. rewrite !bal_set_acct. cbn [add_balance with_balance v_balance]. rewrite acct_of_balance.
  repeat case_bool_decide; subst; try done; lia.
Qed.

Lemma pay_ok s r x w : world_ok T w -> 0 <= x -> x <= bal w s -> world_ok T (pay s r x w).
Proof.
  intros Hw Hx Hb. assert (world_ok T (update_acct s (add_balance (- x)) w)) as Hw1.
  { apply world_ok_update; [done| |cbn [add_balance with_balance v_balance]; rewrite acct_of_balance; lia]. apply acct_ok_balance; [by apply acct_of_ok|rewrite acct_of_balance; lia]. }
  split.
  - intros b u. unfold pay, update_acct at 1. unfold set_acct at 1. cbn [w_acct]. case_bool_decide; [|apply (wo_acct _ _ Hw1)].
    intros [= <-]. apply acct_ok_balance; [by apply acct_of_ok|]. rewrite acct_of_balance. pose proof (bal_nonneg _ _ r Hw1). lia.
  - intros l Hl. rewrite (total_of_change (bal (update_acct s (add_balance (- x)) w)) _ r); [|done|].
    2:{ intros b Hb'. unfold pay, update_acct at 1. rewrite bal_set_acct, bool_decide_false by done. done. }
    rewrite (total_of_change (bal w) _ s); [|done|].
    2:{ intros b Hb'. unfold update_acct. rewrite bal_set_acct, bool_decide_false by done. done. }
    assert (bal (pay s r x w) r - bal (update_acct s (add_balance (- x)) w) r = x) as ->.
    { unfold pay, update_acct at 1. rewrite bal_set_acct, bool_decide_true by done. cbn [add_balance with_balance v_balance]. rewrite acct_of_balance. lia. }
    assert (bal (update_acct s (add_balance (- x)) w) s - bal w s = - x) as ->.
    { unfold update_acct. rewrite bal_set_acct, bool_decide_true by done. cbn [add_balance with_balance v_balance]. rewrite acct_of_balance. lia. }
    pose proof (wo_supply _ _ Hw l Hl). case_bool_decide as Hs; [case_bool_decide; lia|]. case_bool_decide; [|lia].
    pose proof (wo_supply _ _ Hw (s :: l) ltac:(by constructor)) as Hsl. cbn [total_of foldr] in Hsl. fold (total_of (bal w) l) in Hsl. lia.
Qed.

(** ** Specifications *)

Record spec_ok (sp : spec) : Prop := {
  so_world : world_ok T (sp_world sp);
  so_saved : Forall (fun p => world_ok T p.2 /\ p.1 < sp_next sp) (sp_saved sp)
}.

(** What may not change while nothing may be written; an account that did not exist
    may exist now, and be empty. *)
Record same_accounts (w w' : world) : Prop := {
  sa_acct : forall a, acct_of w' a = acct_of w a;
  sa_refund : w_refund w' = w_refund w;
  sa_logs : w_logs w' = w_logs w
}.

Record moves (ro : bool) (sp sp' : spec) : Prop := {
  mv_ok : spec_ok sp';
  mv_saved : exists l, sp_saved sp' = l ++ sp_saved sp /\ Forall (fun p => sp_next sp <= p.1) l;
  mv_next : sp_next sp <= sp_next sp';
  mv_quiet : ro = true -> same_accounts (sp_world sp) (sp_world sp')
}.

Lemma same_accounts_refl w : same_accounts w w.
Proof. by split. Qed.
Lemma same_accounts_trans u v w : same_accounts u v -> same_accounts v w -> same_accounts u w.
Proof. intros [] []. split; congruence. Qed.

Lemma moves_refl ro sp : spec_ok sp -> moves ro sp sp.
Proof. intros Hsp. split; [done|exists []; by split|lia|intros _; apply same_accounts_refl]. Qed.

Lemma moves_trans ro sp1 sp2 sp3 : moves ro sp1 sp2 -> moves ro sp2 sp3 -> moves ro sp1 sp3.
Proof.
  intros [_ (l1 & E1 & H1) Hn1 Hq1] [Hok (l2 & E2 & H2) Hn2 Hq2]. split; [done| |lia|].
  - exists (l2 ++ l1). rewrite E2, E1, app_assoc. split; [done|]. apply Forall_app. split; [|done].
    eapply Forall_impl; [exact H2|]. simpl. lia.
  - intros Hro. eapply same_accounts_trans; eauto.
Qed.

(** A weaker promise. *)
Lemma moves_weaken (ro ro' : bool) sp sp' : (ro' = true -> ro = true) -> moves ro sp sp' -> moves ro' sp sp'.
Proof. intros Hro [? ? ? Hq]. split; auto. Qed.

Definition with_world (w : world) (sp : spec) : spec := mkSpec w (sp_saved sp) (sp_next sp).

Lemma moves_world ro sp w :
  spec_ok sp -> world_ok T w -> (ro = true -> same_accounts (sp_world sp) w) -> moves ro sp (with_world w sp).
Proof. intros [_ Hs] Hw Hq. split; [by split|exists []; by split|simpl; lia|done]. Qed.

Definition snapshot (sp : spec) : spec := mkSpec (sp_world sp) ((sp_next sp, sp_world sp) :: sp_saved sp) (sp_next sp + 1).

Lemma moves_snapshot ro sp : spec_ok sp -> moves ro sp (snapshot sp).
Proof.
  intros [Hw Hs]. split; simpl; [|exists [(sp_next sp, sp_world sp)]|lia|intros _; apply same_accounts_refl].
  - split; simpl; [done|]. constructor; [split; [done|simpl; lia]|]. eapply Forall_impl; [exact Hs|]. intros p [? ?]. split; [done|lia].
  - split; [done|]. repeat constructor. simpl. lia.
Qed.

(** Going back to a snapshot, from anywhere the machine may have gone. *)
Lemma find_snapshot ro sp sp' :
  moves ro (snapshot sp) sp' -> find_saved (sp_next sp) (sp_saved sp') = Some (sp_world sp, sp_saved sp).
Proof.
  intros [_ (l & E & Hl) _ _]. rewrite E. cbn [snapshot sp_saved sp_next] in *. clear E. induction Hl as [|[i w] l Hi Hl IH]; simpl.
  - by rewrite bool_decide_true.
  - rewrite bool_decide_false by (simpl in Hi; lia). done.
Qed.

Definition reverted (sp sp' : spec) : spec := mkSpec (sp_world sp) (sp_saved sp) (sp_next sp').

Lemma moves_reverted ro sp sp' : spec_ok sp -> moves ro (snapshot sp) sp' -> moves ro sp (reverted sp sp').
Proof.
  intros [Hw Hs] [_ _ Hn _]. cbn [snapshot sp_next] in Hn. split; simpl; [|exists []; by split|lia|intros _; apply same_accounts_refl].
  split; simpl; [done|]. eapply Forall_impl; [exact Hs|]. intros p [? ?]. split; [done|lia].
Qed.

End worlds.

(** ** Self-destruction *)

Section suicide.
Context `{Keccak} (T : Z).

Lemma total_of_mono f g l : (forall a, f a <= g a) -> total_of f l <= total_of g l.
Proof. intros Hf. induction l as [|a l IH]; cbn [total_of foldr]; [lia|]. fold (total_of f l) (total_of g l). specialize (Hf a). lia. Qed.

(** The balance goes to the beneficiary, the account dies. *)
Definition bequeath (self heir : list Z) (w : world) : world :=
  let w1 := update_acct heir (add_balance (bal w self)) w in
  match w_acct w1 self with Some v => set_acct self (Some (with_balance 0 (with_suicided true v))) w1 | None => w1 end.

Lemma bequeath_ok self heir w : world_ok T w -> world_ok T (bequeath self heir w).
Proof.
  intros Hw. pose proof (bal_nonneg _ _ self Hw) as Hself. unfold bequeath. set (w1 := update_acct heir _ w).
  assert (forall a v, w_acct w1 a = Some v -> acct_ok v) as Hacct.
  { intros a v. subst w1. unfold update_acct, set_acct. cbn [w_acct]. case_bool_decide; [|apply (wo_acct _ _ Hw)].
    intros [= <-]. apply acct_ok_balance; [by eapply acct_of_ok|]. rewrite acct_of_balance. pose proof (bal_nonneg _ _ heir Hw). lia. }
  assert (forall a, bal w1 a = bal w a + (if bool_decide (a = heir) then bal w self else 0)) as Hb1.
  { intros a. subst w1. unfold update_acct. rewrite bal_set_acct. cbn [add_balance with_balance v_balance]. rewrite acct_of_balance.
    case_bool_decide; [by subst|lia]. }
  pose proof (pay_ok T self heir (bal w self) w Hw Hself ltac:(lia)) as Hpay.
  destruct (w_acct w1 self) as [v|] eqn:Ev; split.
  - intros a u. unfold set_acct. cbn [w_acct]. case_bool_decide; [|apply Hacct]. intros [= <-].
    destruct (Hacct _ _ Ev). split; try done.
  - intros l Hl. etrans; [|apply (wo_supply _ _ Hpay l Hl)]. apply total_of_mono. intros a. rewrite bal_set_acct, bal_pay, Hb1.
    cbn [with_balance v_balance]. pose proof (bal_nonneg _ _ a Hw). repeat case_bool_decide; subst; lia.
  - exact Hacct.
  - intros l Hl. etrans; [|apply (wo_supply _ _ Hpay l Hl)]. apply total_of_mono. intros a. rewrite bal_pay, Hb1.
    assert (bal w self = 0) as E0; [|rewrite E0; repeat case_bool_decide; lia].
    pose proof (Hb1 self) as Hs1. unfold bal at 1 in Hs1. rewrite Ev in Hs1. case_bool_decide; lia.
Qed.

End suicide.
