(* ===== verification/EvmCallSpec.v ===== *)
(** * Calls and creations keep the invariants

    [run_spec N R]: given less than [N] gas, [R] runs a contract to an end, gives
    back no more gas than it got and moves the state as the machine may.  From that
    the calls and creations of [EvmCalls] do the same ([call_post],
    [create_post]), and when they report an error the world is the one from before
    (for a creation, with the nonce of the creator counted up). *)

From S2P Require Import Prelude Common TrieEncoding Trie TrieSpec TrieMap.
From S2P Require Import TrieCanon Rlp Sha3 TrieHash TrieMerkle TrieIter.
From S2P Require Import TrieIterSpec RlpRaw TrieBinding RlpStream Params DposContext.
From S2P Require Import Header Transaction Block SecureTrie State StateSpec.
From S2P Require Import EvmState EvmWord EvmCode EvmMachine EvmPrecompiles EvmCalls EvmInv.

Record contract_ok `{Runtime} (c : Contract) : Prop := {
  co_code : data_ok (c_Code c);
  co_input : data_ok (c_Input c);
  co_gas : gas_ok (c_Gas c);
  co_value : exists v, c_value c = Some v /\ is_word v;
  co_self : Common.address_ok (c_self c);
  co_caller : Common.address_ok (CallerAddress c)
}.

Definition ref_ok `{Runtime} (r : ContractRef) : Prop :=
  match r with AccountRef a => Common.address_ok a | ContractObj c => contract_ok c end.

Lemma ref_Address_ok `{Runtime} r : ref_ok r -> Common.address_ok (ref_Address r).
Proof. destruct r; [done|apply co_self]. Qed.

Section calls.
Context `{Keccak, Ecdsa, Native} `{go : Runtime} {D : Type} `{!StateOps D} {db_is : D -> spec -> Prop} `{!StateLaws db_is} (T : Z) (env : Env).
Context (Hrecover : forall h sig, Ecrecover h sig <> Some []).

(** Nothing may be written. *)
Definition static (e : EVM D) : bool := env_is IsByzantium env && e_readOnly e.

(** From [e] over [sp] the machine went to [e'] over [sp']. *)
Record leads (e : EVM D) (sp : spec) (e' : EVM D) (sp' : spec) : Prop := {
  ld_db : db_is (e_db e') sp';
  ld_moves : moves T (static e) sp sp';
  ld_data : data_ok (e_returnData e');
  ld_depth : e_depth e' = e_depth e;
  ld_readOnly : e_readOnly e' = e_readOnly e;
  ld_abort : e_abort e' = e_abort e
}.

Record evm_is (e : EVM D) (sp : spec) : Prop := {
  ei_db : db_is (e_db e) sp;
  ei_ok : spec_ok T sp;
  ei_data : data_ok (e_returnData e)
}.

Lemma leads_refl e sp : evm_is e sp -> leads e sp e sp.
Proof. intros []. split; try done. by apply moves_refl. Qed.

Lemma leads_trans e1 sp1 e2 sp2 e3 sp3 : leads e1 sp1 e2 sp2 -> leads e2 sp2 e3 sp3 -> leads e1 sp1 e3 sp3.
Proof.
  intros [? Hm1 ? ? Hr1 ?] [? Hm2 ? ? ? ?]. split; try congruence.
  eapply moves_trans; [exact Hm1|]. unfold static in *. by rewrite Hr1 in Hm2.
Qed.

Lemma leads_is e sp e' sp' : leads e sp e' sp' -> evm_is e' sp'.
Proof. intros [? Hm ? ? ? ?]. split; [done|apply Hm|done]. Qed.

(** The database moves, the rest stays. *)
Lemma leads_db e sp d sp' : evm_is e sp -> db_is d sp' -> moves T (static e) sp sp' -> leads e sp (set_e_db d e) sp'.
Proof. intros [] Hd Hm. by split. Qed.

(** ** Operations of the interface *)

Lemma wp_db {A} (o : state_op) (wrap : A -> answer) (m : SM D Empty_set A) d sp sp' x Q :
  db_op o = Some (y ← m; mret (wrap y)) -> db_is d sp -> spec_step o sp = Some (sp', wrap x) ->
  (forall y, wrap y = wrap x -> y = x) -> (forall d', db_is d' sp' -> Q d' (inr x)) -> wp m Q d.
Proof.
  intros Ho Hd Es Hw HQ. pose proof (db_step o _ d sp Ho Hd) as Hs. rewrite Es in Hs. destruct Hs as (d' & E & Hd').
  unfold mbind, SM_bind in E. unfold wp. destruct (m d) as [[d1 [[]|y]]|[]| |]; try done.
  injection E as -> Ey. apply Hw in Ey as ->. by apply HQ.
Qed.

Lemma wp_evm_db {A} (o : state_op) (wrap : A -> answer) (m : SM D Empty_set A) e sp sp' x Q :
  db_op o = Some (y ← m; mret (wrap y)) -> db_is (e_db e) sp -> spec_step o sp = Some (sp', wrap x) ->
  (forall y, wrap y = wrap x -> y = x) -> (forall d', db_is d' sp' -> Q (set_e_db d' e) (inr x)) -> wp (in_db m) Q e.
Proof. intros Ho Hd Es Hw HQ. apply wp_zoom. by eapply wp_db. Qed.

(** Reading leaves the specification alone. *)
Lemma wp_read {A} (o : state_op) (wrap : A -> answer) (m : SM D Empty_set A) e sp x Q :
  db_op o = Some (y ← m; mret (wrap y)) -> evm_is e sp -> spec_step o sp = Some (sp, wrap x) ->
  (forall y, wrap y = wrap x -> y = x) -> (forall e', leads e sp e' sp -> Q e' (inr x)) -> wp (in_db m) Q e.
Proof.
  intros Ho He Es Hw HQ. eapply wp_evm_db; [done|apply He|done|done|]. intros d Hd. apply HQ. apply leads_db; [done..|apply moves_refl, He].
Qed.

Lemma spec_eta sp : mkSpec (sp_world sp) (sp_saved sp) (sp_next sp) = sp.
Proof. by destruct sp. Qed.

Lemma wp_GetBalance a e sp Q :
  evm_is e sp -> (forall e', leads e sp e' sp -> Q e' (inr (bal (sp_world sp) a))) -> wp (in_db (db_GetBalance a)) Q e.
Proof. intros He HQ. eapply (wp_read (OpGetBalance a) AInt); [done|done|cbn; by rewrite spec_eta|by intros ? [=]|done]. Qed.

Lemma wp_GetNonce a e sp Q :
  evm_is e sp -> (forall e', leads e sp e' sp -> Q e' (inr (match w_acct (sp_world sp) a with Some v => v_nonce v | None => 0 end))) ->
  wp (in_db (db_GetNonce a)) Q e.
Proof. intros He HQ. eapply (wp_read (OpGetNonce a) AInt); [done|done|cbn; by rewrite spec_eta|by intros ? [=]|done]. Qed.

Lemma wp_GetCodeHash a e sp Q :
  evm_is e sp -> (forall e' h, leads e sp e' sp -> Common.hash_ok h -> Q e' (inr h)) -> wp (in_db (db_GetCodeHash a)) Q e.
Proof.
  intros He HQ. eapply (wp_read (OpGetCodeHash a) ABytes); [done|done|cbn; by rewrite spec_eta|by intros ? [=]|].
  intros e' Hl. apply HQ; [done|]. destruct (w_acct (sp_world sp) a) as [v|] eqn:E; [|apply emptyHash_hash].
  apply (wo_acct _ _ (so_world _ _ (ei_ok _ _ He)) _ _ E).
Qed.

Lemma wp_GetCode a e sp Q :
  evm_is e sp -> (forall e' c, leads e sp e' sp -> data_ok c -> Q e' (inr c)) -> wp (in_db (db_GetCode a)) Q e.
Proof.
  intros He HQ. eapply (wp_read (OpGetCode a) ABytes); [done|done|cbn; by rewrite spec_eta|by intros ? [=]|].
  intros e' Hl. apply HQ; [done|]. destruct (w_acct (sp_world sp) a) as [v|] eqn:E; [|apply data_ok_nil].
  apply (wo_acct _ _ (so_world _ _ (ei_ok _ _ He)) _ _ E).
Qed.

Lemma wp_Exist a e sp Q :
  evm_is e sp -> (forall e', leads e sp e' sp -> Q e' (inr (bool_decide (is_Some (w_acct (sp_world sp) a))))) -> wp (in_db (db_Exist a)) Q e.
Proof. intros He HQ. eapply (wp_read (OpExist a) ABool); [done|done|cbn; by rewrite spec_eta|by intros ? [=]|done]. Qed.

Lemma wp_CanTransfer a x e sp Q :
  evm_is e sp -> (forall e', leads e sp e' sp -> Q e' (inr (bool_decide (bal (sp_world sp) a >= x)))) -> wp (in_db (CanTransfer a x)) Q e.
Proof.
  intros He HQ. apply wp_zoom. unfold CanTransfer. apply wp_bind.
  eapply (wp_db (OpGetBalance a) AInt); [done|apply He|reflexivity|by intros ? [=]|]. intros d Hd.
  apply HQ. apply leads_db; [done|by rewrite spec_eta in Hd|apply moves_refl, He].
Qed.

Lemma wp_Snapshot e sp Q :
  evm_is e sp -> (forall e', leads e sp e' (snapshot sp) -> Q e' (inr (sp_next sp))) -> wp (in_db db_Snapshot) Q e.
Proof.
  intros He HQ. eapply (wp_evm_db OpSnapshot AInt); [done|apply He|reflexivity|by intros ? [=]|]. intros d Hd.
  apply HQ. apply leads_db; [done..|apply moves_snapshot, He].
Qed.

(** Writing the accounts, when that is allowed. *)
Lemma wp_write (o : state_op) (m : SM D Empty_set unit) e sp w Q :
  db_op o = Some (m ;; mret ANone) -> evm_is e sp -> spec_step o sp = Some (with_world w sp, ANone) ->
  world_ok T w -> (static e = true -> same_accounts (sp_world sp) w) ->
  (forall e', leads e sp e' (with_world w sp) -> Q e' (inr tt)) -> wp (in_db m) Q e.
Proof.
  intros Ho He Es Hw Hq HQ. eapply (wp_evm_db o (fun _ => ANone)); [exact Ho|apply He|exact Es|by intros []|]. intros d Hd.
  apply HQ. apply leads_db; [done..|by apply moves_world; [apply He|..]].
Qed.

(** Paying, also nothing while nothing may be written. *)
Lemma pay_nothing s r w : same_accounts w (pay s r 0 w).
Proof.
  assert (forall w a x, x = 0 -> same_accounts w (update_acct a (add_balance x) w)) as Hu.
  { intros v a x ->. split; [|done..]. intros b. unfold update_acct. rewrite acct_of_set. case_bool_decide; [|done]. subst b.
    unfold add_balance, with_balance. rewrite Z.add_0_r. by destruct (acct_of v a). }
  eapply same_accounts_trans; apply Hu; lia.
Qed.

Lemma wp_Transfer s r x e sp Q :
  evm_is e sp -> 0 <= x <= bal (sp_world sp) s -> (static e = true -> x = 0) ->
  (forall e', leads e sp e' (with_world (pay s r x (sp_world sp)) sp) -> Q e' (inr tt)) -> wp (in_db (Transfer s r x)) Q e.
Proof.
  intros He Hx Hst HQ. apply wp_zoom. unfold Transfer. apply wp_bind.
  eapply (wp_db (OpSubBalance s x) (fun _ => ANone)); [done|apply He|reflexivity|by intros []|]. intros d Hd.
  eapply (wp_db (OpAddBalance r x) (fun _ => ANone)); [done|exact Hd|reflexivity|by intros []|]. intros d' Hd'.
  apply HQ. apply leads_db; [done|exact Hd'|]. apply moves_world; [apply He|apply pay_ok; [apply He|lia..]|].
  intros Hs. rewrite (Hst Hs). apply pay_nothing.
Qed.

(** ** Runs *)

Definition run_post (c : Contract) (e : EVM D) (sp : spec) (e' : EVM D) (r : Empty_set + run_result) : Prop :=
  exists c' ret err sp', r = inr (c', ret, err) /\ 0 <= c_Gas c' <= c_Gas c /\ data_ok ret /\ leads e sp e' sp'.

Definition run_spec (N : Z) (R : Contract -> list Z -> SM (EVM D) Empty_set run_result) : Prop :=
  forall c input e sp, contract_ok c -> data_ok input -> c_Gas c < N -> evm_is e sp -> wp (R c input) (run_post c e sp) e.

Context (N : Z) (R : Contract -> list Z -> SM (EVM D) Empty_set run_result) (HR : run_spec N R).

Lemma precompiles_ok : Forall (fun q => precompile_ok q.2) (precompiles env).
Proof. unfold precompiles. case_match; [by apply byzantium_ok|by apply homestead_ok]. Qed.

Lemma wp_exec c input e sp :
  contract_ok c -> data_ok input -> c_Gas c < N -> evm_is e sp -> wp (run env R c input) (run_post c e sp) e.
Proof.
  intros Hc Hi Hg He. unfold run. destruct (c_CodeAddr c ≫= precompile_at (precompiles env)) as [p|] eqn:Ep; [|by apply HR].
  apply bind_Some in Ep as (a & _ & Ep). pose proof (precompile_at_ok _ _ _ precompiles_ok Ep) as Hp.
  destruct (RunPrecompiled_ok p input c Hp Hi (co_gas _ Hc)) as (g & ret & err & Er & Hg' & Hret).
  eapply wp_pure_ok; [exact Er|]. exists (set_gas g c), ret, err, sp. split; [done|]. split; [done|]. split; [done|]. by apply leads_refl.
Qed.

(** ** The end of a call *)

Definition call_post (gas : Z) (e : EVM D) (sp : spec) (e' : EVM D) (r : Empty_set + (list Z * Z * option vm_error)) : Prop :=
  exists ret g err sp', r = inr (ret, g, err) /\ 0 <= g <= gas /\ data_ok ret /\ leads e sp e' sp' /\
    (err <> None -> sp_world sp' = sp_world sp).

Lemma wp_Revert e0 sp e sp' Q :
  evm_is e0 sp -> leads e0 (snapshot sp) e sp' ->
  (forall e', leads e0 sp e' (reverted sp sp') -> Q e' (inr tt)) -> wp (in_db (db_RevertToSnapshot (sp_next sp))) Q e.
Proof.
  intros He [Hd Hm Hdata Hdep Hro Hab] HQ.
  eapply (wp_evm_db (OpRevertToSnapshot (sp_next sp)) (fun _ => ANone)); [done|exact Hd| |by intros []|].
  - cbn [spec_step]. rewrite (find_snapshot _ _ _ _ Hm). reflexivity.
  - intros d Hd'. apply HQ. split; try done. eapply moves_reverted; [apply He|exact Hm].
Qed.

Lemma take_all_gas_ok c : 0 <= c_Gas c < 2 ^ 64 -> c_Gas (take_all_gas c) = 0.
Proof.
  intros Hc. unfold take_all_gas, UseGas. rewrite bool_decide_false by lia. cbn. rewrite Z.sub_diag. done.
Qed.

Lemma settle_call_ok gas e0 sp e c ret err sp' :
  evm_is e0 sp -> leads e0 (snapshot sp) e sp' -> 0 <= c_Gas c <= gas -> gas < 2 ^ 60 -> data_ok ret ->
  wp (settle_call (sp_next sp) (c, ret, err)) (call_post gas e0 sp) e.
Proof.
  intros He Hl Hg Hb Hr. unfold settle_call. destruct err as [er|].
  - apply wp_bind. eapply wp_Revert; [done..|]. intros e' Hl'. cbn [and_then]. apply wp_ret.
    eexists _, _, _, _. split; [reflexivity|]. split; [|split; [done|]; split; [exact Hl'|done]].
    case_bool_decide; [|done]. rewrite take_all_gas_ok by lia. lia.
  - apply wp_ret. exists ret, (c_Gas c), None, sp'. split; [reflexivity|]. split; [done|]. split; [done|]. split; [|done].
    destruct Hl as [? Hm ? ? ? ?]. split; try done. eapply moves_trans; [apply moves_snapshot, He|exact Hm].
Qed.

(** Running a contract made for the call, and ending it. *)
Lemma wp_run_settle gas e0 sp e c input sp1 :
  evm_is e0 sp -> leads e0 (snapshot sp) e sp1 -> contract_ok c -> c_Gas c = gas -> gas < N -> data_ok input ->
  wp (r ← run env R c input; settle_call (sp_next sp) r) (call_post gas e0 sp) e.
Proof.
  intros He Hl Hc Eg Hg Hi. apply wp_bind. eapply wp_mono; [apply (wp_exec c input e sp1); [done|done|lia|by eapply leads_is]|].
  intros e' r (c' & ret & err & sp' & -> & Hg' & Hret & Hl'). cbn [and_then]. rewrite Eg in Hg'.
  pose proof (co_gas _ Hc) as Hb. unfold gas_ok in Hb. eapply settle_call_ok; [done|by eapply leads_trans|done|lia|done].
Qed.

(** The guards of the calls. *)
Lemma wp_guards {B} e Q (res : option vm_error -> B) (k : SM (EVM D) Empty_set B) :
  Q e (inr (res None)) -> Q e (inr (res (Some ErrDepth))) -> wp k Q e ->
  wp (stop ← no_recursion env; if (stop : bool) then mret (res None) else deep ← too_deep; if (deep : bool) then mret (res (Some ErrDepth)) else k) Q e.
Proof.
  intros HQ1 HQ2 Hk. apply wp_bind. unfold no_recursion. apply wp_bind, wp_gets, wp_ret. cbn [and_then]. destruct (_ && _); [exact HQ1|].
  apply wp_bind. unfold too_deep. apply wp_bind, wp_gets, wp_ret. cbn [and_then]. destruct (bool_decide _); [exact HQ2|exact Hk].
Qed.

Lemma call_post_same gas e sp err : evm_is e sp -> 0 <= gas -> call_post gas e sp e (inr ([], gas, err)).
Proof. intros He Hg. exists [], gas, err, sp. split; [done|]. split; [lia|]. split; [apply data_ok_nil|]. split; [by apply leads_refl|done]. Qed.

(** The code of the callee. *)
Lemma wp_with_code_of addr c e sp (Q : EVM D -> Empty_set + Contract -> Prop) :
  evm_is e sp ->
  (forall e' h code, leads e sp e' sp -> Common.hash_ok h -> data_ok code -> Q e' (inr (SetCallCode addr h code c))) ->
  wp (with_code_of addr c) Q e.
Proof.
  intros He HQ. unfold with_code_of. apply wp_bind. eapply wp_GetCodeHash; [done|]. intros e1 h Hl1 Hh. cbn [and_then]. apply wp_bind.
  eapply wp_GetCode; [by eapply leads_is|]. intros e2 code Hl2 Hc. cbn [and_then]. apply wp_ret, HQ; [by eapply leads_trans|done|done].
Qed.

Lemma new_contract_ok caller self value gas addr h code :
  ref_ok caller -> Common.address_ok self -> is_word value -> gas_ok gas -> data_ok code ->
  contract_ok (SetCallCode addr h code (NewContract caller self (Some value) gas)).
Proof.
  intros Hr Hs Hv Hg Hc. split; cbn; [done|apply data_ok_nil|done|by exists value|done|by apply ref_Address_ok].
Qed.

(** The rest of a call once the state is ready for it. *)
Lemma wp_enter gas e0 sp e sp1 addr c input :
  evm_is e0 sp -> leads e0 (snapshot sp) e sp1 -> (forall h code, data_ok code -> contract_ok (SetCallCode addr h code c)) ->
  c_Gas c = gas -> gas < N -> data_ok input ->
  wp (contract ← with_code_of addr c; r ← run env R contract input; settle_call (sp_next sp) r) (call_post gas e0 sp) e.
Proof.
  intros He Hl Hc Eg Hg Hi. apply wp_bind. eapply wp_with_code_of; [by eapply leads_is|]. intros e1 h code Hl1 Hh Hcode. cbn [and_then].
  eapply wp_run_settle; [done|by eapply leads_trans|by apply Hc|done|done|done].
Qed.

(** ** The calls *)

Section call.
Context (caller : ContractRef) (addr input : list Z) (gas : Z) (e : EVM D) (sp : spec).
Context (Hcaller : ref_ok caller) (Haddr : Common.address_ok addr) (Hinput : data_ok input) (Hgas : gas_ok gas) (HN : gas < N).
Context (He : evm_is e sp).

Lemma address_ok_caller : Common.address_ok (ref_Address caller).
Proof. by apply ref_Address_ok. Qed.

(** The account of the callee: made when it is not there. *)
Lemma wp_ensure e1 sp1 (Q : EVM D -> Empty_set + unit -> Prop) :
  evm_is e1 sp1 ->
  (forall e' w, leads e1 sp1 e' (with_world w sp1) -> (forall a, bal w a = bal (sp_world sp1) a) -> world_ok T w -> Q e' (inr tt)) ->
  wp (if bool_decide (is_Some (w_acct (sp_world sp1) addr)) then mret tt else in_db (db_CreateAccount addr)) Q e1.
Proof.
  intros He1 HQ. pose proof (so_world _ _ (ei_ok _ _ He1)) as Hw. case_bool_decide as Hex.
  - apply wp_ret, (HQ _ (sp_world sp1)); [|done|done]. unfold with_world. rewrite spec_eta. by apply leads_refl.
  - assert (w_acct (sp_world sp1) addr = None) as Hn by (by apply eq_None_not_Some).
    assert (acct_of (sp_world sp1) addr = fresh_acct) as Ef by (unfold acct_of; by rewrite Hn).
    assert (world_ok T (set_acct addr (Some fresh_acct) (sp_world sp1))) as Hw'.
    { apply world_ok_set; [done|apply fresh_acct_ok|]. unfold bal. rewrite Hn. done. }
    eapply (wp_write (OpCreateAccount addr)); [done|done|cbn; rewrite Ef; reflexivity|exact Hw'| |].
    + intros _. split; [|done..]. intros b. rewrite acct_of_set. by case_bool_decide; [subst|].
    + intros e' Hl. eapply HQ; [exact Hl| |exact Hw']. intros a. rewrite bal_set_acct. case_bool_decide; [subst; unfold bal; by rewrite Hn|done].
Qed.

Lemma wp_Call value :
  is_word value -> (static e = true -> value = 0) -> wp (Call env R caller addr input gas value) (call_post gas e sp) e.
Proof.
  intros Hv Hst. unfold is_word in Hv. unfold gas_ok in Hgas. unfold Call. apply (wp_guards _ _ (fun err => ([], gas, err))); [by apply call_post_same; [|lia]..|].
  apply wp_bind. eapply wp_CanTransfer; [exact He|]. intros e1 Hl1. cbn [and_then]. destruct (bool_decide_reflect (bal (sp_world sp) (ref_Address caller) >= value)) as [Hb|Hb]; cbn [negb].
  2:{ apply wp_ret. exists [], gas, (Some ErrInsufficientBalance), sp. split; [done|]. split; [lia|]. split; [apply data_ok_nil|done]. }
  apply wp_bind. eapply wp_Snapshot; [by eapply leads_is|]. intros e2 Hl2. cbn [and_then].
  apply wp_bind. eapply wp_Exist; [by eapply leads_is|]. intros e3 Hl3. cbn [and_then].
  pose proof (leads_trans _ _ _ _ _ _ Hl1 (leads_trans _ _ _ _ _ _ Hl2 Hl3)) as Hl.
  assert (leads e (snapshot sp) e3 (snapshot sp)) as Hs3.
  { destruct Hl as [? Hm ? ? ? ?]. split; try done. apply moves_refl, Hm. }
  case_match.
  { apply wp_ret. exists [], gas, None, (snapshot sp). split; [done|]. split; [lia|]. split; [apply data_ok_nil|]. split; [done|done]. }
  apply wp_bind. eapply wp_ensure; [by eapply leads_is|]. intros e4 w Hl4 Hbal Hw. cbn [and_then].
  apply wp_bind. eapply (wp_Transfer _ _ _ _ (with_world w (snapshot sp))); [by eapply leads_is|cbn; rewrite Hbal; cbn; lia| |].
  { intros Hs4. apply Hst. unfold static in *. rewrite (ld_readOnly _ _ _ _ Hl4), (ld_readOnly _ _ _ _ Hs3) in Hs4. done. }
  intros e5 Hl5. cbn [and_then]. eapply wp_enter; [exact He| | |done|done|done].
  - eapply leads_trans; [exact Hs3|]. eapply leads_trans; [exact Hl4|exact Hl5].
  - intros h code Hc. by apply new_contract_ok.
Qed.

Lemma wp_CallCode value : is_word value -> wp (CallCode env R caller addr input gas value) (call_post gas e sp) e.
Proof.
  intros Hv. pose proof Hgas as Hg. unfold gas_ok in Hg. unfold CallCode.
  apply (wp_guards _ _ (fun err => ([], gas, err))); [by apply call_post_same; [|lia]..|].
  apply wp_bind. eapply wp_CanTransfer; [exact He|]. intros e1 Hl1. cbn [and_then]. case_match.
  { apply wp_ret. exists [], gas, (Some ErrInsufficientBalance), sp. split; [done|]. split; [lia|]. split; [apply data_ok_nil|done]. }
  apply wp_bind. eapply wp_Snapshot; [by eapply leads_is|]. intros e2 Hl2. cbn [and_then].
  pose proof (leads_trans _ _ _ _ _ _ Hl1 Hl2) as Hl.
  eapply wp_enter; [exact He| | |done|done|done].
  - destruct Hl as [? Hm ? ? ? ?]. split; try done. apply moves_refl, Hm.
  - intros h code Hc. apply new_contract_ok; try done. apply address_ok_caller.
Qed.

Lemma snapshot_refl e1 : leads e sp e1 (snapshot sp) -> leads e (snapshot sp) e1 (snapshot sp).
Proof. intros [? Hm ? ? ? ?]. split; try done. apply moves_refl, Hm. Qed.

Lemma wp_DelegateCall parent :
  caller = ContractObj parent -> wp (DelegateCall env R caller addr input gas) (call_post gas e sp) e.
Proof.
  intros Ec. pose proof Hgas as Hg. unfold gas_ok in Hg. unfold DelegateCall.
  apply (wp_guards _ _ (fun err => ([], gas, err))); [by apply call_post_same; [|lia]..|].
  apply wp_bind. eapply wp_Snapshot; [exact He|]. intros e1 Hl1. cbn [and_then].
  apply wp_bind. eapply wp_pure_ok; [by rewrite Ec|]. cbn [and_then].
  eapply wp_enter; [exact He|by apply snapshot_refl| |done|done|done].
  intros h code Hc. rewrite Ec in Hcaller |- *. cbn in Hcaller. destruct Hcaller. split; cbn; try done. apply data_ok_nil.
Qed.

End call.

Lemma wp_set_static (ro : bool) e (Q : EVM D -> Empty_set + unit -> Prop) :
  Q (if ro then e else set_readOnly true e) (inr tt) -> wp (if ro then mret tt else modify (set_readOnly true)) Q e.
Proof. by destruct ro. Qed.
Lemma wp_clear_static (ro : bool) e (Q : EVM D -> Empty_set + unit -> Prop) :
  Q (if ro then e else set_readOnly false e) (inr tt) -> wp (if ro then mret tt else modify (set_readOnly false)) Q e.
Proof. by destruct ro. Qed.

(** The flag that forbids writing. *)
Definition forbid (e : EVM D) : EVM D := if e_readOnly e then e else set_readOnly true e.

Lemma forbid_readOnly e : e_readOnly (forbid e) = true.
Proof. unfold forbid. destruct (e_readOnly e) eqn:E; [done|done]. Qed.

Lemma forbid_fields e : e_db (forbid e) = e_db e /\ e_depth (forbid e) = e_depth e /\ e_returnData (forbid e) = e_returnData e /\ e_abort (forbid e) = e_abort e.
Proof. unfold forbid. by destruct (e_readOnly e). Qed.

Lemma evm_is_forbid e sp : evm_is e sp -> evm_is (forbid e) sp.
Proof. intros []. unfold forbid. destruct (e_readOnly e); by split. Qed.

Lemma wp_StaticCall caller addr input gas e sp :
  ref_ok caller -> Common.address_ok addr -> data_ok input -> gas_ok gas -> gas < N -> evm_is e sp ->
  wp (StaticCall env R caller addr input gas) (fun e' r => call_post gas e sp e' r /\
    (env_is IsByzantium env = true -> exists sp', db_is (e_db e') sp' /\ same_accounts (sp_world sp) (sp_world sp'))) e.
Proof.
  intros Hc Ha Hi Hg HN He. pose proof Hg as Hgb. unfold gas_ok in Hgb. unfold StaticCall.
  apply (wp_guards _ _ (fun err => ([], gas, err)));
    [by split; [apply call_post_same; [|lia]|intros _; exists sp; split; [apply He|apply same_accounts_refl]]..|].
  apply wp_bind, wp_gets. cbn [and_then]. apply wp_bind, wp_set_static. cbn [and_then]. change (if e_readOnly e then e else _) with (forbid e).
  apply wp_bind. eapply wp_Snapshot; [by apply evm_is_forbid|]. intros e1 Hl1. cbn [and_then].
  apply wp_bind. eapply wp_with_code_of; [by eapply leads_is|]. intros e2 h code Hl2 Hh Hcode. cbn [and_then].
  apply wp_bind. eapply wp_mono; [eapply (wp_exec _ input e2 (snapshot sp)); [by apply new_contract_ok; [..|unfold is_word; lia| |]|done|cbn; lia|by eapply leads_is]|].
  intros e3 r (c' & ret & err & sp' & -> & Hg' & Hret & Hl3). cbn [and_then]. cbn in Hg'.
  pose proof (snapshot_refl _ _ _ (leads_trans _ _ _ _ _ _ Hl1 Hl2)) as Hs.
  apply wp_bind. eapply wp_mono; [eapply settle_call_ok; [by apply evm_is_forbid|eapply leads_trans; [exact Hs|exact Hl3]|cbn; exact Hg'|lia|exact Hret]|].
  intros e4 r (ret' & g & er & sp4 & -> & Hg4 & Hr4 & Hl4 & Hw4). cbn [and_then]. apply wp_bind, wp_clear_static. cbn [and_then]. apply wp_ret.
  destruct Hl4 as [Hdb Hm Hdata Hdep Hro Hab]. destruct (forbid_fields e) as (Efd & Efdep & Efr & Efa). rewrite forbid_readOnly in Hro.
  assert (static (forbid e) = env_is IsByzantium env) as Est by (unfold static; rewrite forbid_readOnly; apply andb_true_r).
  split.
  - exists ret', g, er, sp4. split; [done|]. split; [done|]. split; [done|]. split; [|done].
    split; destruct (e_readOnly e) eqn:Ero; cbn; try congruence; try done;
      (eapply moves_weaken; [|exact Hm]); rewrite Est; unfold static; by rewrite Ero, ?andb_true_r, ?andb_false_r.
  - intros Hbyz. exists sp4. split; [by destruct (e_readOnly e)|]. apply Hm. by rewrite Est.
Qed.

(** ** Creations *)

(** The nonce of the creator, counted up. *)
Definition count_up (a : list Z) (w : world) : world :=
  update_acct a (with_nonce (u64 (match w_acct w a with Some v => v_nonce v | None => 0 end + 1))) w.

(** An error gives the world back; before Homestead one that only says that the
    code could not be paid for does not. *)
Definition undone (caller : list Z) (err : option vm_error) (w w' : world) : Prop :=
  err <> None -> (err = Some ErrCodeStoreOutOfGas -> env_is IsHomestead env = true) -> w' = w \/ w' = count_up caller w.

Definition create_post (caller : list Z) (gas : Z) (e : EVM D) (sp : spec) (e' : EVM D)
  (r : Empty_set + (list Z * list Z * Z * option vm_error)) : Prop :=
  exists ret address g err sp', r = inr (ret, address, g, err) /\ 0 <= g <= gas /\ data_ok ret /\ Common.address_ok address /\
    leads e sp e' sp' /\ undone caller err (sp_world sp) (sp_world sp').

Lemma acct_ok_nonce v n : acct_ok v -> in_u64 n -> acct_ok (with_nonce n v).
Proof. intros [] Hn. by split. Qed.

Lemma count_up_ok a w : world_ok T w -> world_ok T (count_up a w).
Proof.
  intros Hw. apply world_ok_update; [done| |cbn; by rewrite acct_of_balance].
  apply acct_ok_nonce; [by eapply acct_of_ok|]. apply wrapU_range. lia.
Qed.

Lemma wp_SetNonce a n e sp Q :
  evm_is e sp -> static e = false -> in_u64 n ->
  (forall e', leads e sp e' (with_world (update_acct a (with_nonce n) (sp_world sp)) sp) -> Q e' (inr tt)) -> wp (in_db (db_SetNonce a n)) Q e.
Proof.
  intros He Hst Hn HQ. pose proof (so_world _ _ (ei_ok _ _ He)) as Hw.
  eapply (wp_write (OpSetNonce a n)); [done|done|reflexivity| |by rewrite Hst|exact HQ].
  apply world_ok_update; [done| |cbn; by rewrite acct_of_balance]. apply acct_ok_nonce; [by eapply acct_of_ok|done].
Qed.

Lemma wp_CreateAccount a e sp Q :
  evm_is e sp -> static e = false ->
  (forall e' w, leads e sp e' (with_world w sp) -> (forall b, bal w b = bal (sp_world sp) b) -> Q e' (inr tt)) -> wp (in_db (db_CreateAccount a)) Q e.
Proof.
  intros He Hst HQ. pose proof (so_world _ _ (ei_ok _ _ He)) as Hw.
  eapply (wp_write (OpCreateAccount a)); [done|done|reflexivity| |by rewrite Hst|].
  - apply world_ok_set; [done| |cbn; by rewrite acct_of_balance].
    apply acct_ok_balance; [apply fresh_acct_ok|rewrite acct_of_balance; by eapply bal_nonneg].
  - intros e' Hl. eapply HQ; [exact Hl|]. intros b. rewrite bal_set_acct. case_bool_decide; [subst; cbn; by rewrite acct_of_balance|done].
Qed.

Lemma wp_SetCode a c e sp Q :
  evm_is e sp -> static e = false -> data_ok c ->
  (forall e' w, leads e sp e' (with_world w sp) -> Q e' (inr tt)) -> wp (in_db (db_SetCode a c)) Q e.
Proof.
  intros He Hst Hc HQ. pose proof (so_world _ _ (ei_ok _ _ He)) as Hw.
  eapply (wp_write (OpSetCode a c)); [done|done|reflexivity| |by rewrite Hst|intros e'; apply HQ].
  apply world_ok_update; [done| |cbn; by rewrite acct_of_balance]. destruct (acct_of_ok T (sp_world sp) a Hw). split; try done. apply keccak256_ok.
Qed.

Lemma static_leads e sp e' sp' : leads e sp e' sp' -> static e' = static e.
Proof. intros Hl. unfold static. by rewrite (ld_readOnly _ _ _ _ Hl). Qed.

(** The end of a creation. *)
Lemma settle_create_ok caller gas e0 sp e c ret err address sp' w0 :
  evm_is e0 sp -> leads e0 (snapshot sp) e sp' -> static e0 = false -> 0 <= c_Gas c <= gas -> gas < 2 ^ 60 -> data_ok ret ->
  Common.address_ok address -> sp_world sp = count_up caller w0 ->
  wp (settle_create env (sp_next sp) address (c, ret, err))
    (fun e' r => exists ret address g err sp', r = inr (ret, address, g, err) /\ 0 <= g <= gas /\ data_ok ret /\ Common.address_ok address /\
       leads e0 sp e' sp' /\ undone caller err w0 (sp_world sp')) e.
Proof.
  intros He Hl Hst Hg Hb Hr Ha Ew. unfold settle_create. set (big := env_is IsEIP158 env && _). apply wp_bind.
  (* storing the code *)
  apply (wp_mono _ (fun e1 r => exists c1 err1 sp1, r = inr (c1, err1) /\ leads e0 (snapshot sp) e1 sp1 /\ 0 <= c_Gas c1 <= gas)).
  { destruct (bool_decide (err = None) && negb big); [|apply wp_ret; by exists c, err, sp'].
    destruct (UseGas_ok (u64 (Z.of_nat (length ret) * CreateDataGas)) c) as [[-> Hle]|[-> _]]; [apply wrapU_range; lia|lia| |].
    - apply wp_bind. eapply wp_SetCode; [by eapply leads_is|by rewrite (static_leads _ _ _ _ Hl)|done|]. intros e1 w Hl1. cbn [and_then].
      apply wp_ret. eexists _, _, _. split; [done|]. split; [by eapply leads_trans|]. cbn. assert (0 <= u64 (Z.of_nat (length ret) * CreateDataGas)) by (apply wrapU_range; lia). lia.
    - apply wp_ret. by exists c, (Some ErrCodeStoreOutOfGas), sp'. }
  intros e1 r (c1 & err1 & sp1 & -> & Hl1 & Hg1). cbn [and_then]. apply wp_bind.
  (* giving the state back *)
  set (back := big || (bool_decide (err1 <> None) && _)).
  apply (wp_mono _ (fun e2 r => exists c2 sp2, r = inr c2 /\ leads e0 sp e2 sp2 /\ 0 <= c_Gas c2 <= gas /\ (back = true -> sp_world sp2 = sp_world sp))).
  { destruct back eqn:Eb.
    - apply wp_bind. eapply wp_Revert; [done..|]. intros e2 Hl2. cbn [and_then]. apply wp_ret. eexists _, _. split; [done|]. split; [exact Hl2|]. split; [|done].
      case_bool_decide; [rewrite take_all_gas_ok by lia; lia|done].
    - apply wp_ret. exists c1, sp1. split; [done|]. split; [|done]. destruct Hl1 as [? Hm ? ? ? ?]. split; try done.
      eapply moves_trans; [apply moves_snapshot, He|exact Hm]. }
  intros e2 r (c2 & sp2 & -> & Hl2 & Hg2 & Hw2). cbn [and_then]. apply wp_ret. eexists _, _, _, _, _. split; [reflexivity|].
  split; [done|]. split; [done|]. split; [done|]. split; [exact Hl2|]. intros Herr Hhome. right. rewrite Hw2; [done|].
  subst back. destruct big; [done|]. cbn [andb orb] in *. rewrite (bool_decide_true (err1 <> None)) by done. cbn [andb].
  destruct (decide (err1 = Some ErrCodeStoreOutOfGas)) as [Ec|Ec]; [by rewrite (Hhome Ec)|]. rewrite (bool_decide_true (err1 <> Some _)) by done. apply orb_true_r.
Qed.

Lemma create_post_same caller gas e sp e' g err :
  leads e sp e' sp -> 0 <= g <= gas -> create_post caller gas e sp e' (inr ([], emptyAddress, g, err)).
Proof.
  intros Hl Hg. exists [], emptyAddress, g, err, sp. split; [done|]. split; [lia|]. split; [apply data_ok_nil|].
  split; [split; [done|apply bytes_ok_zeroes]|]. split; [done|]. by left.
Qed.

(** The account of the new contract, and what it is endowed with. *)
Lemma wp_endow {B} caller address value e sp (k : SM (EVM D) Empty_set B) Q :
  evm_is e sp -> static e = false -> 0 <= value <= bal (sp_world sp) caller ->
  (forall e' sp', leads e sp e' sp' -> wp k Q e') ->
  wp (in_db (db_CreateAccount address) ;; (if env_is IsEIP158 env then in_db (db_SetNonce address 1) else mret tt) ;;
      in_db (Transfer caller address value) ;; k) Q e.
Proof.
  intros He Hst Hv HQ. apply wp_bind. eapply wp_CreateAccount; [done..|]. intros e1 w Hl1 Hb1. cbn [and_then]. apply wp_bind.
  apply (wp_mono _ (fun e2 r => exists w2, r = inr tt /\ leads e sp e2 (with_world w2 sp) /\ forall b, bal w2 b = bal (sp_world sp) b)).
  { destruct (env_is IsEIP158 env); [|apply wp_ret; by exists w].
    eapply wp_SetNonce; [by eapply leads_is|by rewrite (static_leads _ _ _ _ Hl1)|unfold in_u64; lia|]. intros e2 Hl2.
    eexists. split; [done|]. split; [by eapply leads_trans|]. intros b. unfold update_acct. rewrite bal_set_acct. cbn. rewrite acct_of_balance.
    case_bool_decide; [subst|]; apply Hb1. }
  intros e2 r (w2 & -> & Hl2 & Hb2). cbn [and_then]. apply wp_bind.
  eapply (wp_Transfer _ _ _ _ (with_world w2 sp)); [by eapply leads_is|cbn; by rewrite Hb2|by rewrite (static_leads _ _ _ _ Hl2), Hst|].
  intros e3 Hl3. eapply HQ. by eapply leads_trans.
Qed.

Lemma wp_create caller code gas value address e sp :
  ref_ok caller -> data_ok code -> gas_ok gas -> gas < N -> is_word value -> Common.address_ok address -> evm_is e sp -> static e = false ->
  wp (create env R caller code gas value address) (create_post (ref_Address caller) gas e sp) e.
Proof.
  intros Hc Hcode Hgas HN Hv Ha He Hst. pose proof Hgas as Hg. unfold gas_ok in Hg. unfold is_word in Hv. unfold create. apply wp_bind. unfold too_deep.
  apply wp_bind, wp_gets, wp_ret. cbn [and_then]. destruct (bool_decide (e_depth e > _)).
  { apply wp_ret, create_post_same; [by apply leads_refl|lia]. }
  apply wp_bind. eapply wp_CanTransfer; [done|]. intros e1 Hl1. cbn [and_then].
  destruct (bool_decide_reflect (bal (sp_world sp) (ref_Address caller) >= value)) as [Hb|Hb]; cbn [negb]; [|apply wp_ret, create_post_same; [done|lia]].
  apply wp_bind. eapply wp_GetNonce; [by eapply leads_is|]. intros e2 Hl2. cbn [and_then].
  pose proof (leads_trans _ _ _ _ _ _ Hl1 Hl2) as Hl.
  apply wp_bind. eapply wp_SetNonce; [by eapply leads_is|by rewrite (static_leads _ _ _ _ Hl)|apply wrapU_range; lia|].
  intros e3 Hl3. cbn [and_then]. fold (count_up (ref_Address caller) (sp_world sp)) in Hl3. set (sp3 := with_world _ sp) in Hl3.
  pose proof (leads_trans _ _ _ _ _ _ Hl Hl3) as Hl03.
  apply wp_bind. eapply wp_GetCodeHash; [by eapply leads_is|]. intros e4 h Hl4 _. cbn [and_then].
  apply wp_bind. eapply wp_GetNonce; [by eapply leads_is|]. intros e5 Hl5. cbn [and_then].
  pose proof (leads_trans _ _ _ _ _ _ Hl4 Hl5) as Hl35. case_match.
  { apply wp_ret. exists [], emptyAddress, 0, (Some ErrContractAddressCollision), sp3. split; [done|]. split; [lia|]. split; [apply data_ok_nil|].
    split; [split; [done|apply bytes_ok_zeroes]|]. split; [by eapply leads_trans|]. by right. }
  apply wp_bind. eapply wp_Snapshot; [by eapply leads_is|]. intros e6 Hl6. cbn [and_then].
  pose proof (leads_trans _ _ _ _ _ _ Hl03 Hl35) as Hl05. pose proof (leads_is _ _ _ _ Hl05) as He5.
  assert (static e5 = false) as Hst5 by (by rewrite (static_leads _ _ _ _ Hl05)).
  pose proof (snapshot_refl _ _ _ Hl6) as Hs6.
  apply (wp_mono _ (fun e' r => exists ret address g err sp', r = inr (ret, address, g, err) /\ 0 <= g <= gas /\ data_ok ret /\ Common.address_ok address /\
       leads e5 sp3 e' sp' /\ undone (ref_Address caller) err (sp_world sp) (sp_world sp'))).
  2:{ intros e' r (ret & ad & g & err & sp' & Er & Hgg & Hrr & Haa & Hll & Hu). exists ret, ad, g, err, sp'. split_and!; try done; try lia. by eapply leads_trans. }
  apply (wp_endow _ _ _ _ (snapshot sp3)); [by eapply leads_is|by rewrite (static_leads _ _ _ _ Hl6)| |].
  { change (sp_world (snapshot sp3)) with (count_up (ref_Address caller) (sp_world sp)). unfold count_up, update_acct.
    rewrite bal_set_acct, bool_decide_true by done. cbn [with_nonce v_balance]. rewrite acct_of_balance. lia. }
  intros e7 sp7 Hl7. pose proof (leads_trans _ _ _ _ _ _ Hs6 Hl7) as Hl57.
  apply wp_bind. unfold no_recursion. apply wp_bind, wp_gets, wp_ret. cbn [and_then]. destruct (env_NoRecursion env && _).
  { apply wp_ret. exists [], address, gas, None, sp7. split; [done|]. split; [lia|]. split; [apply data_ok_nil|]. split; [done|]. split; [eapply leads_trans; [exact Hl6|exact Hl7]|by intros []]. }
  apply wp_bind. eapply wp_mono; [apply (wp_exec _ [] e7 sp7); [by apply new_contract_ok|apply data_ok_nil|done|by eapply leads_is]|].
  intros e8 r (c' & ret & err & sp8 & -> & Hg8 & Hret & Hl8). cbn [and_then]. cbn in Hg8.
  eapply settle_create_ok; [exact He5|eapply leads_trans; [exact Hl57|exact Hl8]|done|done|lia|done|done|done].
Qed.

Lemma CreateAddress_ok b n : Common.address_ok (CreateAddress b n).
Proof. apply BytesToAddress_ok. apply bytes_ok_drop, keccak256_ok. Qed.
Lemma CreateAddress2_ok b s c : Common.address_ok (CreateAddress2 b s c).
Proof. apply BytesToAddress_ok. apply bytes_ok_drop, keccak256_ok. Qed.

Lemma wp_Create caller code gas value e sp :
  ref_ok caller -> data_ok code -> gas_ok gas -> gas < N -> is_word value -> evm_is e sp -> static e = false ->
  wp (Create env R caller code gas value) (create_post (ref_Address caller) gas e sp) e.
Proof.
  intros Hc Hcode Hgas HN Hv He Hst. unfold Create. apply wp_bind. eapply wp_GetNonce; [done|]. intros e1 Hl1. cbn [and_then].
  eapply wp_mono; [apply (wp_create caller code gas value _ e1 sp); try done; [apply CreateAddress_ok|by eapply leads_is|by rewrite (static_leads _ _ _ _ Hl1)]|].
  intros e' r (ret & a & g & err & sp' & Er & Hg & Hr & Ha & Hl & Hu). exists ret, a, g, err, sp'. split_and!; try done; try lia. by eapply leads_trans.
Qed.

Lemma wp_Create2 caller code gas value salt e sp :
  ref_ok caller -> data_ok code -> gas_ok gas -> gas < N -> is_word value -> evm_is e sp -> static e = false ->
  wp (Create2 env R caller code gas value salt) (create_post (ref_Address caller) gas e sp) e.
Proof. intros. apply wp_create; try done. apply CreateAddress2_ok. Qed.

End calls.

