(* ===== verification/EvmGasSpec.v ===== *)
(** * The prices are right enough

    [frame_ok f sp]: the words on the stack, the bytes of the memory, the contract
    and the machine behind the frame are well formed.  [gas_post]: a gas function
    ends with a price that covers what the instruction may hand on to a callee,
    and at least one more unit of gas unless the instruction ends the run; it
    changes nothing but the fee the memory remembers, the gas of the next call and
    the refund. *)

From S2P Require Import Prelude Common TrieEncoding Trie TrieSpec TrieMap.
From S2P Require Import TrieCanon Rlp Sha3 TrieHash TrieMerkle TrieIter.
From S2P Require Import TrieIterSpec RlpRaw TrieBinding RlpStream Params DposContext.
From S2P Require Import Header Transaction Block SecureTrie State StateSpec.
From S2P Require Import EvmState EvmWord EvmCode EvmMachine EvmPrecompiles EvmCalls EvmGas.
From S2P Require Import EvmInv EvmCallSpec.

Definition mem_ok (m : Memory) : Prop := bytes_ok (m_store m) /\ m_Len m <= MemoryLimit /\ in_u64 (m_lastGasCost m).

Section gas.
Context `{Keccak} `{go : Runtime} {D : Type} `{!StateOps D} {db_is : D -> spec -> Prop} `{!StateLaws db_is} (T : Z) (env : Env).

Abbreviation leads := (@leads _ D db_is T env).
Abbreviation evm_is := (@evm_is D db_is T).

Record frame_ok (f : frame D) (sp : spec) : Prop := {
  fo_evm : evm_is (f_evm f) sp;
  fo_stack : Forall is_word (f_stack f);
  fo_mem : mem_ok (f_mem f);
  fo_contract : contract_ok (f_contract f)
}.

(** The frame a gas function leaves. *)
Definition priced (f : frame D) (last : Z) (e : EVM D) : frame D :=
  mkFrame (f_pc f) (f_stack f) (mkMemory (m_store (f_mem f)) last) (f_contract f) e.

(** The price is [k] more than what the instruction hands on, at least. *)
Definition gas_post (size k : Z) (hand : frame D -> Z) (f : frame D) (sp : spec) (f' : frame D) (r : vm_error + Z) : Prop :=
  exists last e sp', f' = priced f last e /\ in_u64 last /\ leads (f_evm f) sp e sp' /\
    match r with inl _ => True | inr cost => 0 <= hand f' /\ hand f' + k <= cost /\ size <= MemoryLimit end.

Lemma priced_same f : priced f (m_lastGasCost (f_mem f)) (f_evm f) = f.
Proof. by destruct f as [? ? [] ? ?]. Qed.

(** ** The steps the gas functions share *)

Lemma wp_Back {f : frame D} n x (Q : frame D -> vm_error + Z -> Prop) : f_stack f !! n = Some x -> Q f (inr x) -> wp (Back n) Q f.
Proof. intros E HQ. unfold Back. apply wp_bind, wp_gets. cbn [and_then]. by eapply wp_must. Qed.

Lemma wp_safe_add x y (f : frame D) (Q : frame D -> vm_error + Z -> Prop) :
  in_u64 x -> in_u64 y -> Q f (inl errGasUintOverflow) -> (in_u64 (x + y) -> Q f (inr (x + y))) -> wp (safe_add x y) Q f.
Proof.
  intros Hx Hy He Hk. unfold safe_add. destruct (SafeAdd_ok x y Hx Hy) as [[-> Hlt]|[E _]].
  - apply wp_ret, Hk. unfold in_u64 in *. lia.
  - destruct (SafeAdd x y) as [r o]. cbn in E. subst o. by apply wp_throw.
Qed.

Lemma wp_safe_mul x y (f : frame D) (Q : frame D -> vm_error + Z -> Prop) :
  in_u64 x -> in_u64 y -> Q f (inl errGasUintOverflow) -> (in_u64 (x * y) -> Q f (inr (x * y))) -> wp (safe_mul x y) Q f.
Proof.
  intros Hx Hy He Hk. unfold safe_mul. destruct (SafeMul_ok x y Hx Hy) as [[-> Hlt]|[E _]].
  - apply wp_ret, Hk. unfold in_u64 in *. nia.
  - destruct (SafeMul x y) as [r o]. cbn in E. subst o. by apply wp_throw.
Qed.

Lemma wp_back_uint64 n (f : frame D) (Q : frame D -> vm_error + Z -> Prop) :
  Forall is_word (f_stack f) -> (n < length (f_stack f))%nat ->
  Q f (inl errGasUintOverflow) -> (forall x, in_u64 x -> Q f (inr x)) -> wp (back_uint64 n) Q f.
Proof.
  intros Hst Hn He Hk. destruct (lookup_lt_is_Some_2 _ _ Hn) as [x Ex]. unfold back_uint64. apply wp_bind. eapply wp_Back; [exact Ex|]. cbn [and_then].
  pose proof (Forall_lookup_1 _ _ _ _ Hst Ex) as [Hx0 _]. destruct (bigUint64_ok x Hx0) as [[-> Hlt]|[E _]].
  - apply wp_ret, Hk. unfold in_u64. lia.
  - destruct (bigUint64 x) as [r o]. cbn in E. subst o. by apply wp_throw.
Qed.

Lemma in_u64_words x : in_u64 x -> in_u64 (toWordSize x).
Proof. intros Hx. destruct (toWordSize_ok x Hx) as [E _]. rewrite E. unfold in_u64 in *. pose proof (Z.div_le_upper_bound (x + 31) 32 (2 ^ 60)). pose proof (Z.div_pos (x + 31) 32). lia. Qed.

(** Paying for the memory. *)
Lemma wp_memory_gas size f sp (Q : frame D -> vm_error + Z -> Prop) :
  frame_ok f sp -> in_u64 size ->
  Q f (inl errGasUintOverflow) ->
  (forall fee last, in_u64 fee -> in_u64 last -> size <= MemoryLimit -> Q (priced f last (f_evm f)) (inr fee)) ->
  wp (memory_gas size) Q f.
Proof.
  intros Hf Hs He Hk. unfold memory_gas. apply wp_bind, wp_gets. cbn [and_then]. apply wp_bind.
  destruct (memoryGasCost_ok (f_mem f) size Hs ltac:(apply (fo_mem _ _ Hf))) as [(fee & last & E & Hfee & Hlast & Hle)|E].
  - eapply wp_pure_ok; [exact E|]. cbn [and_then]. apply wp_bind, wp_modify. cbn [and_then]. apply wp_ret. by apply Hk.
  - eapply wp_pure_err; [exact E|]. exact He.
Qed.

(** Ending without a change, or with one in the memory only. *)
Lemma gas_post_same size k hand f sp r :
  frame_ok f sp -> match r with inl _ => True | inr cost => 0 <= hand f /\ hand f + k <= cost /\ size <= MemoryLimit end -> gas_post size k hand f sp f r.
Proof.
  intros Hf Hr. exists (m_lastGasCost (f_mem f)), (f_evm f), sp. rewrite priced_same. split; [done|]. split; [apply (fo_mem _ _ Hf)|].
  split; [apply leads_refl, Hf|done].
Qed.

Lemma gas_post_err size k hand f sp e : frame_ok f sp -> gas_post size k hand f sp f (inl e).
Proof. intros Hf. by apply gas_post_same. Qed.

Lemma gas_post_priced size k hand f sp last r :
  frame_ok f sp -> in_u64 last ->
  match r with inl _ => True | inr cost => 0 <= hand (priced f last (f_evm f)) /\ hand (priced f last (f_evm f)) + k <= cost /\ size <= MemoryLimit end ->
  gas_post size k hand f sp (priced f last (f_evm f)) r.
Proof. intros Hf Hl Hr. exists last, (f_evm f), sp. split; [done|]. split; [done|]. split; [apply leads_refl, Hf|done]. Qed.

Lemma in_u64_const x : (0 <=? x) && (x <? 2 ^ 64) = true -> in_u64 x.
Proof. intros E. apply andb_true_iff in E as [?%Z.leb_le ?%Z.ltb_lt]. done. Qed.

(** ** The gas functions *)

(** Nothing is handed on. *)
Definition nothing (f : frame D) : Z := 0.

Lemma constGas_ok k g f sp : frame_ok f sp -> k <= g -> wp (constGasFunc g 0) (gas_post 0 k nothing f sp) f.
Proof. intros Hf Hk. apply wp_ret, gas_post_same; [done|]. unfold MemoryLimit, nothing. lia. Qed.

Lemma access_gas_ok base size f sp :
  frame_ok f sp -> in_u64 size -> in_u64 base -> wp (access_gas base size) (gas_post size base nothing f sp) f.
Proof.
  intros Hf Hs Hb. unfold access_gas. apply wp_bind. eapply wp_memory_gas; [done|done|by apply gas_post_err|]. intros fee last Hfee Hlast Hle.
  cbn [and_then]. apply wp_safe_add; [done|done|by apply gas_post_priced|]. intros _. apply gas_post_priced; [done..|].
  unfold in_u64, nothing in *. lia.
Qed.

Lemma memory_gas_ok size f sp : frame_ok f sp -> in_u64 size -> wp (memory_gas size) (gas_post size 0 nothing f sp) f.
Proof.
  intros Hf Hs. eapply wp_memory_gas; [done|done|by apply gas_post_err|]. intros fee last Hfee Hlast Hle. apply gas_post_priced; [done..|].
  unfold in_u64, nothing in *. lia.
Qed.

Lemma copy_gas_ok base n size f sp :
  frame_ok f sp -> in_u64 size -> in_u64 base -> (n < length (f_stack f))%nat -> wp (copy_gas base n size) (gas_post size base nothing f sp) f.
Proof.
  intros Hf Hs Hb Hn. unfold copy_gas. apply wp_bind. eapply wp_memory_gas; [done|done|by apply gas_post_err|]. intros fee last Hfee Hlast Hle.
  cbn [and_then]. apply wp_bind, wp_safe_add; [done|done|by apply gas_post_priced|]. intros Hfb. cbn [and_then].
  apply wp_bind, wp_back_uint64; [apply (fo_stack _ _ Hf)|done|by apply gas_post_priced|]. intros x Hx. cbn [and_then].
  apply wp_bind, wp_safe_mul; [by apply in_u64_words|by apply in_u64_const|by apply gas_post_priced|]. intros Hw. cbn [and_then].
  apply wp_safe_add; [done|done|by apply gas_post_priced|]. intros _. apply gas_post_priced; [done..|]. unfold in_u64, nothing in *. lia.
Qed.

Lemma gasSha3_ok size f sp :
  frame_ok f sp -> in_u64 size -> (1 < length (f_stack f))%nat -> wp (gasSha3 size) (gas_post size 30 nothing f sp) f.
Proof.
  intros Hf Hs Hn. unfold gasSha3. apply wp_bind. eapply wp_memory_gas; [done|done|by apply gas_post_err|]. intros fee last Hfee Hlast Hle.
  cbn [and_then]. apply wp_bind, wp_safe_add; [done|by apply in_u64_const|by apply gas_post_priced|]. intros Hfb. cbn [and_then].
  apply wp_bind, wp_back_uint64; [apply (fo_stack _ _ Hf)|done|by apply gas_post_priced|]. intros x Hx. cbn [and_then].
  apply wp_bind, wp_safe_mul; [by apply in_u64_words|by apply in_u64_const|by apply gas_post_priced|]. intros Hw. cbn [and_then].
  apply wp_safe_add; [done|done|by apply gas_post_priced|]. intros _. apply gas_post_priced; [done..|]. unfold in_u64, nothing in *. lia.
Qed.

Lemma makeGasLog_ok n size f sp :
  frame_ok f sp -> in_u64 size -> 0 <= n <= 4 -> (1 < length (f_stack f))%nat -> wp (makeGasLog n size) (gas_post size 375 nothing f sp) f.
Proof.
  intros Hf Hs Hn4 Hn. unfold makeGasLog. apply wp_bind, wp_back_uint64; [apply (fo_stack _ _ Hf)|done|by apply gas_post_err|]. intros x Hx. cbn [and_then].
  apply wp_bind. eapply wp_memory_gas; [done|done|by apply gas_post_err|]. intros fee last Hfee Hlast Hle. cbn [and_then].
  apply wp_bind, wp_safe_add; [done|by apply in_u64_const|by apply gas_post_priced|]. intros Hfb. cbn [and_then].
  apply wp_bind, wp_safe_add; [done|apply wrapU_range; lia|by apply gas_post_priced|]. intros Hfb2. cbn [and_then].
  apply wp_bind, wp_safe_mul; [done|by apply in_u64_const|by apply gas_post_priced|]. intros Hw. cbn [and_then].
  apply wp_safe_add; [done|done|by apply gas_post_priced|]. intros _. apply gas_post_priced; [done..|].
  pose proof (wrapU_range 64 (n * LogTopicGas) ltac:(lia)). unfold in_u64, nothing in *. lia.
Qed.

(** ** Prices of the phase *)

Record table_ok (gt : GasTable) : Prop := {
  to_size : 1 <= gt_ExtcodeSize gt <= 25000;
  to_copy : 1 <= gt_ExtcodeCopy gt <= 25000;
  to_balance : 1 <= gt_Balance gt <= 25000;
  to_sload : 1 <= gt_SLoad gt <= 25000;
  to_calls : 40 <= gt_Calls gt <= 25000;
  to_suicide : 0 <= gt_Suicide gt <= 25000;
  to_exp : 0 <= gt_ExpByte gt <= 25000;
  to_create : 0 <= gt_CreateBySuicide gt <= 25000
}.

Lemma gasTable_ok : table_ok (gasTable env).
Proof. unfold gasTable, config_GasTable. repeat case_match; split; cbn; lia. Qed.

Lemma gasTable_constantinople : env_is IsConstantinople env = true -> gt_ExtcodeHash (gasTable env) = 400.
Proof. unfold env_is, gasTable, config_GasTable. by intros ->. Qed.

Lemma BitLen_word x : is_word x -> 0 <= BitLen x <= 256.
Proof. intros Hx. pose proof (BitLen_nonneg x). pose proof (BitLen_le x 256 Hx). lia. Qed.

Lemma gasExp_ok f sp : frame_ok f sp -> (1 < length (f_stack f))%nat -> wp (gasExp env 0) (gas_post 0 10 nothing f sp) f.
Proof.
  intros Hf Hn. unfold gasExp. destruct (lookup_lt_is_Some_2 _ _ Hn) as [y Ey]. apply wp_bind. eapply wp_Back; [exact Ey|]. cbn [and_then].
  apply wp_safe_add; [apply wrapU_range; lia|by apply in_u64_const|by apply gas_post_err|]. intros _. apply gas_post_same; [done|].
  pose proof (wrapU_range 64 ((BitLen y + 7) / 8 * gt_ExpByte (gasTable env)) ltac:(lia)). unfold MemoryLimit, nothing. lia.
Qed.

(** ** The state *)

Lemma wp_in_state {A} (m : SM D Empty_set A) (f : frame D) (Q : frame D -> vm_error + A -> Prop) :
  wp (in_db m) (fun e r => match r with inr a => Q (set_evm e f) (inr a) | inl e => match e with end end) (f_evm f) -> wp (in_state m) Q f.
Proof. intros Hm. by apply wp_zoom. Qed.

Lemma set_evm_same (f : frame D) : set_evm (f_evm f) f = f.
Proof. by destruct f. Qed.

(** The machine moves, the frame stays well formed. *)
Lemma frame_ok_evm f sp e sp' : frame_ok f sp -> leads (f_evm f) sp e sp' -> frame_ok (set_evm e f) sp'.
Proof. intros [] Hl. split; try done. cbn. by eapply leads_is. Qed.

Lemma gas_post_evm size k hand f sp e sp' f' r :
  leads (f_evm f) sp e sp' -> gas_post size k hand (set_evm e f) sp' f' r -> gas_post size k hand f sp f' r.
Proof.
  intros Hl (last & e2 & sp2 & -> & Hlast & Hl2 & Hr). exists last, e2, sp2. split; [done|]. split; [done|]. split; [|done].
  by eapply leads_trans.
Qed.

Lemma gas_post_more size k hand f sp last f' r :
  gas_post size k hand (priced f last (f_evm f)) sp f' r -> gas_post size k hand f sp f' r.
Proof. intros (last' & e2 & sp2 & -> & Hlast & Hl2 & Hr). by exists last', e2, sp2. Qed.

Lemma frame_ok_priced f sp last : frame_ok f sp -> in_u64 last -> frame_ok (priced f last (f_evm f)) sp.
Proof. intros [? ? (? & ? & ?) ?] Hl. split; try done. Qed.

Lemma with_refund_ok w n : world_ok T w -> world_ok T (with_refund n w).
Proof. by apply world_ok_acct. Qed.

Lemma wp_AddRefund g e sp Q :
  evm_is e sp -> static env e = false -> (forall e' sp', leads e sp e' sp' -> Q e' (inr tt)) -> wp (in_db (db_AddRefund g)) Q e.
Proof.
  intros He Hst HQ. eapply (wp_write T env (OpAddRefund g)); [done|done|reflexivity| |by rewrite Hst|intros e'; apply HQ].
  apply with_refund_ok, He.
Qed.

Lemma wp_GetState a k e sp Q :
  evm_is e sp -> (forall e' v, leads e sp e' sp -> Common.hash_ok v -> Q e' (inr v)) -> wp (in_db (db_GetState a k)) Q e.
Proof.
  intros He HQ. eapply (wp_read T env (OpGetState a k) ABytes); [done|done|cbn; by rewrite spec_eta|by intros ? [=]|].
  intros e' Hl. apply HQ; [done|]. destruct (w_acct (sp_world sp) a) as [v|] eqn:E; [|apply emptyHash_hash].
  apply (wo_acct _ _ (so_world _ _ (ei_ok _ _ _ He)) _ _ E).
Qed.

Lemma wp_Empty a e sp Q : evm_is e sp -> (forall e' b, leads e sp e' sp -> Q e' (inr b)) -> wp (in_db (db_Empty a)) Q e.
Proof. intros He HQ. eapply (wp_read T env (OpEmpty a) ABool); [done|done|cbn; by rewrite spec_eta|by intros ? [=]|]. intros e' Hl. by apply HQ. Qed.

Lemma wp_HasSuicided a e sp Q : evm_is e sp -> (forall e' b, leads e sp e' sp -> Q e' (inr b)) -> wp (in_db (db_HasSuicided a)) Q e.
Proof. intros He HQ. eapply (wp_read T env (OpHasSuicided a) ABool); [done|done|cbn; by rewrite spec_eta|by intros ? [=]|]. intros e' Hl. by apply HQ. Qed.

Lemma static_set_evm e f sp sp' : leads (f_evm f) sp e sp' -> static env (f_evm (set_evm e f)) = static env (f_evm f).
Proof. intros Hl. by eapply static_leads. Qed.

Lemma gasSStore_ok f sp :
  frame_ok f sp -> (1 < length (f_stack f))%nat -> static env (f_evm f) = false -> wp (gasSStore 0) (gas_post 0 1 nothing f sp) f.
Proof.
  intros Hf Hn Hst. unfold gasSStore. destruct (lookup_lt_is_Some_2 _ _ Hn) as [y Ey].
  destruct (lookup_lt_is_Some_2 (f_stack f) 0 ltac:(lia)) as [x Ex].
  apply wp_bind. eapply wp_Back; [exact Ey|]. cbn [and_then]. apply wp_bind. eapply wp_Back; [exact Ex|]. cbn [and_then].
  apply wp_bind, wp_gets. cbn [and_then]. apply wp_bind, wp_in_state. eapply wp_GetState; [apply Hf|]. intros e v Hl Hv. cbn [and_then].
  pose proof (frame_ok_evm _ _ _ _ Hf Hl) as Hf'.
  destruct (_ && _); [|destruct (_ && _)].
  - apply wp_ret. eapply gas_post_evm; [exact Hl|]. apply gas_post_same; [done|]. unfold MemoryLimit, nothing. lia.
  - apply wp_bind, wp_in_state. eapply wp_AddRefund; [apply Hf'|by rewrite (static_set_evm _ _ _ _ Hl)|]. intros e2 sp2 Hl2. cbn [and_then].
    apply wp_ret. eapply gas_post_evm; [exact Hl|]. eapply gas_post_evm; [exact Hl2|]. apply gas_post_same; [by eapply frame_ok_evm|]. unfold MemoryLimit, nothing. lia.
  - apply wp_ret. eapply gas_post_evm; [exact Hl|]. apply gas_post_same; [done|]. unfold MemoryLimit, nothing. lia.
Qed.

(** ** Calls *)

(** What a call hands on: the gas that was set aside for it, and the stipend when
    it moves value. *)
Definition stipend (v : bool) (f : frame D) : Z := if v && bool_decide (f_stack f !! 2%nat <> Some 0) then CallStipend else 0.
Definition hand_on (v : bool) (f : frame D) : Z := e_callGasTemp (f_evm f) + stipend v f.

Lemma stipend_range v f : 0 <= stipend v f <= 2300.
Proof. unfold stipend. case_match; lia. Qed.

Lemma callGas_ok gt available base x :
  (exists t, callGas gt available base x = Ok t /\ in_u64 t) \/ callGas gt available base x = Err errGasUintOverflow.
Proof.
  unfold callGas. destruct (_ && _); [left; eexists; split; [reflexivity|apply wrapU_range; lia]|].
  destruct (bool_decide _); [by right|]. left. eexists. split; [reflexivity|apply wrapU_range; lia].
Qed.

Lemma leads_temp e sp t : evm_is e sp -> leads e sp (set_callGasTemp t e) sp.
Proof. intros He. destruct (leads_refl T env e sp He). by split. Qed.

Lemma call_gas_ok v gas size f sp :
  frame_ok f sp -> (0 < length (f_stack f))%nat -> in_u64 gas -> stipend v f + 1 <= gas -> size <= MemoryLimit ->
  wp (call_gas env gas) (gas_post size 1 (hand_on v) f sp) f.
Proof.
  intros Hf Hn Hg Hs Hm. unfold call_gas. apply wp_bind, wp_gets. cbn [and_then]. destruct (lookup_lt_is_Some_2 _ _ Hn) as [x Ex].
  apply wp_bind. eapply wp_Back; [exact Ex|]. cbn [and_then]. apply wp_bind.
  destruct (callGas_ok (gasTable env) (c_Gas (f_contract f)) gas x) as [(t & Et & Ht)|E].
  2:{ eapply wp_pure_err; [exact E|]. by apply gas_post_err. }
  eapply wp_pure_ok; [exact Et|]. cbn [and_then]. apply wp_bind, wp_zoom, wp_modify. cbn [and_then].
  pose proof (leads_temp _ _ t (fo_evm _ _ Hf)) as Hl. pose proof (frame_ok_evm _ _ _ _ Hf Hl) as Hf'.
  apply wp_safe_add; [done|done| |].
  - eapply gas_post_evm; [exact Hl|]. by apply gas_post_err.
  - intros _. eapply gas_post_evm; [exact Hl|]. apply gas_post_same; [done|]. unfold hand_on. cbn [set_evm f_evm set_callGasTemp e_callGasTemp].
    change (stipend v (set_evm _ f)) with (stipend v f). pose proof (stipend_range v f). unfold in_u64 in Ht. lia.
Qed.

(** The end of [gasCall] and [gasCallCode]: a base price, the memory, the callee. *)
Lemma call_tail_ok v base size f sp :
  frame_ok f sp -> (0 < length (f_stack f))%nat -> in_u64 size -> in_u64 base -> stipend v f + 1 <= base ->
  wp (memoryGas ← memory_gas size; gas ← safe_add base memoryGas; call_gas env gas) (gas_post size 1 (hand_on v) f sp) f.
Proof.
  intros Hf Hn Hsz Hb Hs. apply wp_bind. eapply wp_memory_gas; [done|done|by apply gas_post_err|]. intros fee last Hfee Hlast Hle. cbn [and_then].
  pose proof (frame_ok_priced _ _ _ Hf Hlast) as Hf'. apply wp_bind, wp_safe_add; [done|done|by apply gas_post_priced|]. intros Hbf. cbn [and_then].
  eapply wp_mono; [apply (call_gas_ok v (base + fee) size); [exact Hf'|done|done| |done]|intros f' r; apply gas_post_more].
  change (stipend v (priced f last (f_evm f))) with (stipend v f). unfold in_u64 in Hfee. lia.
Qed.

(** The same with the price added to the fee. *)
Lemma plain_call_ok size f sp :
  frame_ok f sp -> (0 < length (f_stack f))%nat -> in_u64 size ->
  wp (gas ← memory_gas size; gas ← safe_add gas (gt_Calls (gasTable env)); call_gas env gas) (gas_post size 1 (hand_on false) f sp) f.
Proof.
  intros Hf Hn Hsz. pose proof (to_calls _ gasTable_ok) as Hc. apply wp_bind. eapply wp_memory_gas; [done|done|by apply gas_post_err|].
  intros fee last Hfee Hlast Hle. cbn [and_then]. pose proof (frame_ok_priced _ _ _ Hf Hlast) as Hf'.
  apply wp_bind, wp_safe_add; [done|unfold in_u64; lia|by apply gas_post_priced|]. intros Hbf. cbn [and_then].
  eapply wp_mono; [apply (call_gas_ok false (fee + gt_Calls (gasTable env)) size); [exact Hf'|done|done| |done]|intros f' r; apply gas_post_more].
  unfold stipend. cbn [andb]. unfold in_u64 in Hfee. lia.
Qed.

Lemma gasCallCode_ok size f sp :
  frame_ok f sp -> (6 < length (f_stack f))%nat -> in_u64 size -> wp (gasCallCode env size) (gas_post size 1 (hand_on true) f sp) f.
Proof.
  intros Hf Hn Hsz. pose proof (to_calls _ gasTable_ok) as Hc. unfold gasCallCode. destruct (lookup_lt_is_Some_2 (f_stack f) 2 ltac:(lia)) as [x Ex].
  apply wp_bind. eapply wp_Back; [exact Ex|]. cbn [and_then].
  apply call_tail_ok; [done|lia|done| |].
  - case_bool_decide; [rewrite u64_small by (unfold in_u64; lia)|]; unfold in_u64; lia.
  - unfold stipend. rewrite Ex. cbn [andb]. rewrite u64_small by (unfold in_u64; lia).
    destruct (decide (x = 0)) as [->|]; [rewrite !bool_decide_false by naive_solver; lia|]. rewrite !bool_decide_true by naive_solver. lia.
Qed.

Lemma gasCall_ok size f sp :
  frame_ok f sp -> (6 < length (f_stack f))%nat -> in_u64 size -> wp (gasCall env size) (gas_post size 1 (hand_on true) f sp) f.
Proof.
  intros Hf Hn Hsz. pose proof (to_calls _ gasTable_ok) as Hc. unfold gasCall. destruct (lookup_lt_is_Some_2 (f_stack f) 2 ltac:(lia)) as [x Ex].
  destruct (lookup_lt_is_Some_2 (f_stack f) 1 ltac:(lia)) as [a Ea].
  apply wp_bind. eapply wp_Back; [exact Ex|]. cbn [and_then]. apply wp_bind. eapply wp_Back; [exact Ea|]. cbn [and_then]. apply wp_bind.
  apply (wp_mono _ (fun f' r => exists e b, r = inr b /\ f' = set_evm e f /\ leads (f_evm f) sp e sp)).
  { assert (exists e b, inr (A := vm_error) false = inr b /\ f = set_evm e f /\ leads (f_evm f) sp e sp) as Hfalse
      by (exists (f_evm f), false; rewrite set_evm_same; split; [done|]; split; [done|apply leads_refl, Hf]).
    destruct (env_is IsEIP158 env); [case_bool_decide; [|by apply wp_ret]|].
    - apply wp_in_state. eapply wp_Empty; [apply Hf|]. intros e b Hl. eauto.
    - apply wp_bind, wp_in_state. eapply wp_Exist; [apply Hf|]. intros e Hl. cbn [and_then]. apply wp_ret. eauto. }
  intros f' r (e & b & -> & -> & Hl). cbn [and_then].
  eapply wp_mono; [apply call_tail_ok; [by eapply frame_ok_evm|cbn; lia|done| |]|intros f' r; by eapply gas_post_evm].
  - destruct b; case_bool_decide; rewrite ?u64_small by (rewrite ?u64_small; unfold in_u64; lia); unfold in_u64; lia.
  - change (stipend true (set_evm e f)) with (stipend true f). unfold stipend. rewrite Ex. cbn [andb].
    destruct (decide (x = 0)) as [->|]; [rewrite !(bool_decide_false (_ <> _)) by naive_solver|rewrite !(bool_decide_true (_ <> _)) by naive_solver];
      destruct b; rewrite ?u64_small by (rewrite ?u64_small; unfold in_u64; lia); lia.
Qed.

Lemma gasSuicide_ok f sp :
  frame_ok f sp -> (0 < length (f_stack f))%nat -> static env (f_evm f) = false -> wp (gasSuicide env 0) (gas_post 0 0 nothing f sp) f.
Proof.
  intros Hf Hn Hst. unfold gasSuicide. apply wp_bind, wp_gets. cbn [and_then]. apply wp_bind.
  apply (wp_mono _ (fun f' r => exists e g, r = inr g /\ f' = set_evm e f /\ leads (f_evm f) sp e sp /\ 0 <= g)).
  { destruct (env_is IsEIP150 env).
    2:{ apply wp_ret. exists (f_evm f), 0. rewrite set_evm_same. split; [done|]. split; [done|]. split; [apply leads_refl, Hf|lia]. }
    destruct (lookup_lt_is_Some_2 (f_stack f) 0 ltac:(lia)) as [a Ea]. apply wp_bind. eapply wp_Back; [exact Ea|]. cbn [and_then]. apply wp_bind.
    apply (wp_mono _ (fun f' r => exists e b, r = inr b /\ f' = set_evm e f /\ leads (f_evm f) sp e sp)).
    - destruct (env_is IsEIP158 env).
      + apply wp_bind, wp_in_state. eapply wp_Empty; [apply Hf|]. intros e b Hl. cbn [and_then]. destruct b; [|apply wp_ret; eauto].
        apply wp_bind, wp_in_state. eapply wp_GetBalance; [by eapply leads_is|]. intros e2 Hl2. cbn [and_then]. apply wp_ret.
        eexists _, _. split; [done|]. split; [done|]. by eapply leads_trans.
      + apply wp_bind, wp_in_state. eapply wp_Exist; [apply Hf|]. intros e Hl. cbn [and_then]. apply wp_ret. eauto.
    - intros f' r (e & b & -> & -> & Hl). cbn [and_then]. apply wp_ret. eexists _, _. split; [done|]. split; [done|]. split; [done|].
      pose proof (to_suicide _ gasTable_ok). destruct b; [apply wrapU_range; lia|lia]. }
  intros f' r (e & g & -> & -> & Hl & Hg). cbn [and_then]. pose proof (frame_ok_evm _ _ _ _ Hf Hl) as Hf'.
  apply wp_bind, wp_in_state. eapply wp_HasSuicided; [apply Hf'|]. intros e2 b Hl2. cbn [and_then]. pose proof (frame_ok_evm _ _ _ _ Hf' Hl2) as Hf2.
  apply wp_bind. apply (wp_mono _ (fun f' r => exists e3 sp3, r = inr tt /\ f' = set_evm e3 f /\ leads e2 sp e3 sp3)).
  { destruct b; [apply wp_ret; exists e2, sp; split; [done|]; split; [done|apply leads_refl, Hf2]|].
    apply wp_in_state. eapply wp_AddRefund; [apply Hf2|by rewrite (static_set_evm _ _ _ _ Hl2), (static_set_evm _ _ _ _ Hl)|].
    intros e3 sp3 Hl3. by exists e3, sp3. }
  intros f' r (e3 & sp3 & -> & -> & Hl3). cbn [and_then]. apply wp_ret.
  assert (leads (f_evm f) sp e3 sp3) as Hl03 by (eapply leads_trans; [exact Hl|eapply leads_trans; [exact Hl2|exact Hl3]]).
  eapply gas_post_evm; [exact Hl03|]. apply gas_post_same; [by eapply frame_ok_evm|]. unfold nothing, MemoryLimit. lia.
Qed.

End gas.
