(* ===== verification/EvmInstrSpec.v ===== *)
(** * The instructions keep the invariants

    [exec_ok n p M hand ok m]: on a frame with [n] words on the stack, with the
    memory the instruction needs ([M] of the stack) and [ok], the instruction [m]
    does not panic, replaces the [n] words by [p], gives the contract no more gas
    than what was handed on, and moves the state as the machine may. *)

From S2P Require Import Prelude Common TrieEncoding Trie TrieSpec TrieMap.
From S2P Require Import TrieCanon Rlp Sha3 TrieHash TrieMerkle TrieIter.
From S2P Require Import TrieIterSpec RlpRaw TrieBinding RlpStream Params DposContext.
From S2P Require Import Header Transaction Block SecureTrie State StateSpec.
From S2P Require Import EvmState EvmWord EvmCode EvmMachine EvmPrecompiles EvmCalls EvmGas EvmInstr.
From S2P Require Import EvmInv EvmCallSpec EvmGasSpec.

(** The words of the environment. *)
Record env_ok (env : Env) : Prop := {
  eo_hash : forall n, Common.hash_ok (env_GetHash env n);
  eo_origin : Common.address_ok (env_Origin env);
  eo_coinbase : Common.address_ok (env_Coinbase env);
  eo_price : is_word (env_GasPrice env)
}.

Lemma word_hash h : Common.hash_ok h -> is_word (be_uint h).
Proof. intros [Hl Hb]. pose proof (be_uint_range h Hb) as Hr. rewrite Hl in Hr. exact Hr. Qed.
Lemma word_address a : Common.address_ok a -> is_word (be_uint a).
Proof.
  intros [Hl Hb]. pose proof (be_uint_range a Hb) as Hr. rewrite Hl in Hr. split; [lia|]. etrans; [apply Hr|]. done.
Qed.
Lemma word_bytes b : bytes_ok b -> (length b <= 32)%nat -> is_word (be_uint b).
Proof.
  intros Hb Hl. pose proof (be_uint_range b Hb) as Hr. split; [lia|]. eapply Z.lt_le_trans; [apply Hr|].
  change (2 ^ 256) with (256 ^ 32). apply Z.pow_le_mono_r; lia.
Qed.
Lemma BigToAddress_ok x : Common.address_ok (BigToAddress x).
Proof. apply BytesToAddress_ok, big_bytes_ok. Qed.
Lemma BigToHash_ok x : Common.hash_ok (BigToHash x).
Proof. split; [apply setBytes_length|apply setBytes_bytes_ok, big_bytes_ok]. Qed.
Lemma mem_ok_small m : mem_ok m -> m_Len m < 2 ^ 40.
Proof. intros (_ & Hm & _). unfold MemoryLimit in Hm. lia. Qed.
Lemma data_ok_mem d : bytes_ok d -> Z.of_nat (length d) <= MemoryLimit -> data_ok d.
Proof. intros Hb Hl. split; [done|]. unfold MemoryLimit in Hl. lia. Qed.

Section instructions.
Context `{Keccak, Ecdsa, Native} `{go : Runtime} {D : Type} `{!StateOps D} {db_is : D -> spec -> Prop} `{!StateLaws db_is} (T : Z) (env : Env).
Context (HT : T < 2 ^ 256) (Henv : env_ok env).

Abbreviation leads := (@leads _ D db_is T env).
Abbreviation evm_is := (@evm_is D db_is T).
Abbreviation frame_ok := (@frame_ok _ D db_is T).

Definition exec_post (n p : nat) (hand : Z) (f : frame D) (sp : spec) (f' : frame D) (r : vm_error + list Z) : Prop :=
  exists sp', leads (f_evm f) sp (f_evm f') sp' /\ 0 <= c_Gas (f_contract f') <= c_Gas (f_contract f) + hand /\
    match r with
    | inl _ => True
    | inr res =>
        data_ok res /\ frame_ok f' sp' /\ (exists g, f_contract f' = set_gas g (f_contract f)) /\
        (length (f_stack f') + n = length (f_stack f) + p)%nat /\ 0 <= f_pc f' <= Z.max (f_pc f + 32) (2 ^ 60)
    end.

Definition exec_ok (n p : nat) (M : list Z -> Z) (hand : frame D -> Z) (ok : frame D -> Prop) (m : FM D (list Z)) : Prop :=
  forall f sp, frame_ok f sp -> (n <= length (f_stack f))%nat -> 0 <= f_pc f < 2 ^ 61 -> M (f_stack f) <= m_Len (f_mem f) ->
    ok f -> 0 <= hand f -> wp m (exec_post n p (hand f) f sp) f.

Definition no_memory (st : list Z) : Z := 0.
Definition always_ok (f : frame D) : Prop := True.
Definition may_write (f : frame D) : Prop := static env (f_evm f) = false.

(** ** Steps *)

Lemma wp_pop pc x st m c (e : EVM D) (Q : frame D -> vm_error + Z -> Prop) :
  Q (mkFrame pc st m c e) (inr x) -> wp pop Q (mkFrame pc (x :: st) m c e).
Proof. done. Qed.
Lemma wp_push x pc st m c (e : EVM D) (Q : frame D -> vm_error + unit -> Prop) :
  Q (mkFrame pc (x :: st) m c e) (inr tt) -> wp (push x) Q (mkFrame pc st m c e).
Proof. done. Qed.

(** An instruction that does not run a contract. *)
Lemma exec_done n p pc st m c e sp pc' st' m' e' sp' res :
  frame_ok (mkFrame pc st m c e) sp -> leads e sp e' sp' -> Forall is_word st' -> mem_ok m' -> data_ok res ->
  (length st' + n = length st + p)%nat -> 0 <= pc' <= Z.max (pc + 32) (2 ^ 60) ->
  exec_post n p 0 (mkFrame pc st m c e) sp (mkFrame pc' st' m' c e') (inr res).
Proof.
  intros [He Hst Hm Hc] Hl Hst' Hm' Hr Hlen Hpc. exists sp'. cbn [f_evm f_contract f_stack f_pc] in *.
  split; [done|]. split; [pose proof (co_gas _ Hc) as Hg; unfold gas_ok in Hg; lia|]. split; [done|]. split; [|split; [|done]].
  - split; cbn; try done. by eapply leads_is.
  - exists (c_Gas c). by destruct c.
Qed.

Lemma exec_err n p pc st m c e sp pc' st' m' e' sp' err :
  frame_ok (mkFrame pc st m c e) sp -> leads e sp e' sp' ->
  exec_post n p 0 (mkFrame pc st m c e) sp (mkFrame pc' st' m' c e') (inl err).
Proof.
  intros [He Hst Hm Hc] Hl. exists sp'. cbn [f_evm f_contract] in *. split; [done|]. split; [|done].
  pose proof (co_gas _ Hc) as Hg. unfold gas_ok in Hg. lia.
Qed.

(** A frame with [n] words on the stack at least. *)
Tactic Notation "start" integer(n) :=
  intros [pc st m c e] sp Hf Hn Hpc Hmem Hok _; pose proof (fo_stack _ _ _ Hf) as Hst;
  pose proof (fo_mem _ _ _ Hf) as Hm; pose proof (fo_contract _ _ _ Hf) as Hc; pose proof (fo_evm _ _ _ Hf) as He;
  cbn [f_stack f_mem f_contract f_evm f_pc] in *;
  do n (destruct st as [|? st]; [cbn [length] in Hn; lia|apply Forall_cons in Hst as [? Hst]]); cbn [length] in Hn.

Ltac step := first [apply wp_pop|apply wp_push|apply wp_gets|apply wp_modify|apply wp_ret|apply wp_bind]; cbn [and_then f_stack f_mem f_contract f_evm f_pc set_stack set_mem set_pc set_evm].
Ltac finish := eapply exec_done; [eassumption|eassumption| | | | |]; cbn [length f_stack f_mem f_contract f_evm f_pc set_stack set_mem set_pc set_evm]; try eassumption; try lia; auto using data_ok_nil, Forall_cons_2.

Lemma op1_ok f : (forall x, is_word x -> is_word (f x)) -> exec_ok 1 1 no_memory nothing always_ok (op1 f).
Proof. intros Hf1. start 1. unfold op1. repeat step. pose proof (leads_refl T env e sp He). finish. Qed.

Lemma op2_ok f : (forall x y, is_word x -> is_word y -> is_word (f x y)) -> exec_ok 2 1 no_memory nothing always_ok (op2 f).
Proof. intros Hf2. start 2. unfold op2. repeat step. pose proof (leads_refl T env e sp He). finish. Qed.

Lemma op3_ok f : (forall x y z, is_word x -> is_word y -> is_word z -> is_word (f x y z)) -> exec_ok 3 1 no_memory nothing always_ok (op3 f).
Proof. intros Hf3. start 3. unfold op3. repeat step. pose proof (leads_refl T env e sp He). finish. Qed.

Lemma opSignExtend_ok : exec_ok 2 1 no_memory nothing always_ok opSignExtend.
Proof.
  start 2. unfold opSignExtend. do 2 step. pose proof (leads_refl T env e sp He). step. case_bool_decide; repeat step; finish.
  apply Forall_cons_2; [by apply word_signextend|done].
Qed.

(** ** The stack and the program counter *)

Lemma opPop_ok : exec_ok 1 0 no_memory nothing always_ok opPop.
Proof. start 1. unfold opPop. repeat step. pose proof (leads_refl T env e sp He). finish. Qed.

Lemma opJumpdest_ok : exec_ok 0 0 no_memory nothing always_ok opJumpdest.
Proof. start 0. unfold opJumpdest. repeat step. pose proof (leads_refl T env e sp He). finish. Qed.
Lemma opStop_ok : exec_ok 0 0 no_memory nothing always_ok opStop.
Proof. start 0. unfold opStop. repeat step. pose proof (leads_refl T env e sp He). finish. Qed.

Lemma opPc_ok : exec_ok 0 1 no_memory nothing always_ok opPc.
Proof. start 0. unfold opPc. repeat step. pose proof (leads_refl T env e sp He). finish. apply Forall_cons_2; [apply word_small; lia|done]. Qed.

Lemma makePush_ok k : 0 <= k <= 32 -> exec_ok 0 1 no_memory nothing always_ok (makePush k k).
Proof.
  intros Hk. start 0. unfold makePush. do 4 step. pose proof (leads_refl T env e sp He) as Hl. destruct (co_code _ Hc) as [Hcb Hcl].
  rewrite (u64_small (pc + 1)), (i64_small (pc + 1)) by (unfold in_u64, in_i64; lia). set (s := if bool_decide (pc + 1 < _) then _ else _). set (t := if bool_decide (s + k < _) then _ else _).
  assert (0 <= s <= Z.of_nat (length (c_Code c)) /\ s <= t <= Z.of_nat (length (c_Code c)) /\ t - s <= k) as (Hs & Ht & Hd)
    by (subst s t; repeat case_bool_decide; lia).
  apply wp_bind. eapply wp_pure_ok; [apply slice_ok; lia|]. cbn [and_then]. pose proof maxAlloc_large as Hmax.
  apply wp_bind. eapply wp_pure_ok; [apply RightPadBytes_run; lia|]. cbn [and_then]. repeat step. finish; [|rewrite u64_small by (unfold in_u64; lia); lia].
  apply Forall_cons_2; [|done]. apply word_bytes; [apply right_pad_ok; auto with godb|].
  apply Nat2Z.inj_le. rewrite right_pad_length, length_take, length_drop. lia.
Qed.

Lemma makeDup_ok k : (1 <= k)%nat -> exec_ok k (k + 1) no_memory nothing always_ok (makeDup k).
Proof.
  intros Hk. start 0. unfold makeDup, dup. do 3 step. pose proof (leads_refl T env e sp He) as Hl.
  destruct (lookup_lt_is_Some_2 st (k - 1)) as [x Ex]; [lia|]. step. eapply wp_must; [exact Ex|]. repeat step. finish.
  apply Forall_cons_2; [|done]. by apply (Forall_lookup_1 _ _ _ _ Hst Ex).
Qed.

Lemma makeSwap_ok k : exec_ok (k + 1) (k + 1) no_memory nothing always_ok (makeSwap k).
Proof.
  start 0. unfold makeSwap, swap. do 3 step. pose proof (leads_refl T env e sp He) as Hl. rewrite Nat.add_sub.
  destruct (lookup_lt_is_Some_2 st k) as [x Ex]; [lia|]. destruct (lookup_lt_is_Some_2 st 0) as [y Ey]; [lia|].
  step. eapply wp_must; [exact Ex|]. cbn [and_then]. step. eapply wp_must; [exact Ey|]. repeat step. finish; [|rewrite !length_insert; done].
  apply Forall_insert; [apply Forall_insert; [done|]|]; by eapply (Forall_lookup_1 _ _ _ _ Hst).
Qed.

(** A jump goes to a jump destination, or fails. *)
Lemma run_jump_to pos pc st m c (e : EVM D) :
  is_word pos -> data_ok (c_Code c) ->
  jump_to pos (mkFrame pc st m c e) =
    if is_jumpdest (c_Code c) (Z.to_nat pos) then Ok (mkFrame pos st m c e, inr tt)
    else Ok (mkFrame pc st m c e, inl (errInvalidJump (GetOp c (big_Uint64 pos)) pos)).
Proof.
  intros [Hp _] [_ Hc]. destruct (has_spec ∅ (c_CodeHash c) (c_Code c) pos) as (d & Eh & _); [intros x; by rewrite lookup_empty|done|lia|].
  unfold jump_to, is_destination, always, pure, mbind, SM_bind. cbn. rewrite Eh. cbn. destruct (is_jumpdest _ _) eqn:Ej; [|done]. cbn.
  apply andb_true_iff in Ej as [Ej _]. apply bool_decide_eq_true in Ej. apply lookup_lt_Some in Ej.
  rewrite big_Uint64_small by (unfold in_u64; lia). done.
Qed.

Lemma wp_jump_to pos pc st m c e (Q : frame D -> vm_error + unit -> Prop) :
  is_word pos -> data_ok (c_Code c) ->
  (forall err, Q (mkFrame pc st m c e) (inl err)) -> (0 <= pos < 2 ^ 60 -> is_jumpdest (c_Code c) (Z.to_nat pos) = true -> Q (mkFrame pos st m c e) (inr tt)) ->
  wp (jump_to pos) Q (mkFrame pc st m c e).
Proof.
  intros Hp Hc He Hk. unfold wp. rewrite run_jump_to by done. destruct (is_jumpdest _ _) eqn:Ej; [|apply He]. apply Hk; [|done].
  destruct Hp as [? _], Hc as [_ ?]. apply andb_true_iff in Ej as [Ej _]. apply bool_decide_eq_true in Ej. apply lookup_lt_Some in Ej. lia.
Qed.

Lemma opJump_ok : exec_ok 1 0 no_memory nothing always_ok opJump.
Proof.
  start 1. unfold opJump. do 2 step. pose proof (leads_refl T env e sp He) as Hl. step. apply wp_jump_to; [done|apply Hc| |].
  - intros err. by eapply exec_err.
  - intros Hz _. cbn [and_then]. step. finish.
Qed.

Lemma opJumpi_ok : exec_ok 2 0 no_memory nothing always_ok opJumpi.
Proof.
  start 2. unfold opJumpi. do 4 step. pose proof (leads_refl T env e sp He) as Hl. step. case_bool_decide.
  - apply wp_jump_to; [done|apply Hc| |].
    + intros err. by eapply exec_err.
    + intros Hz _. cbn [and_then]. step. finish.
  - repeat step. rewrite u64_small by (unfold in_u64; lia). finish.
Qed.

(** ** Memory *)

Definition need (off len : nat) (st : list Z) : Z := calcMemSize (nth off st 0) (nth len st 0).
Definition need_const (off : nat) (n : Z) (st : list Z) : Z := calcMemSize (nth off st 0) n.
Definition need_call (a b c d : nat) (st : list Z) : Z := BigMax (need a b st) (need c d st).

Lemma calcMemSize_le off len x : calcMemSize off len <= x -> len = 0 \/ off + len <= x.
Proof. unfold calcMemSize. case_bool_decide; [by left|by right]. Qed.

Lemma wp_mem_get off size pc st m c (e : EVM D) (Q : frame D -> vm_error + list Z -> Prop) :
  is_word off -> is_word size -> mem_ok m -> calcMemSize off size <= m_Len m ->
  (forall d, bytes_ok d -> Z.of_nat (length d) = size -> data_ok d -> Q (mkFrame pc st m c e) (inr d)) ->
  wp (mem_get off size) Q (mkFrame pc st m c e).
Proof.
  intros Ho Hs Hm Hle HQ. unfold mem_get. do 2 step. pose proof (mem_ok_small m Hm) as Hms. destruct (calcMemSize_le _ _ _ Hle) as [Hz|Hle'].
  - destruct (m_Get_ok m off size Ho Hs (or_introl Hz) ltac:(lia) (proj1 Hm)) as (d & Ed & Hb & Hl). eapply wp_pure_ok; [exact Ed|].
    apply HQ; [done|done|]. apply data_ok_mem; [done|]. rewrite Hl, Hz. done.
  - destruct (m_Get_ok m off size Ho Hs (or_intror Hle') ltac:(lia) (proj1 Hm)) as (d & Ed & Hb & Hl). eapply wp_pure_ok; [exact Ed|].
    apply HQ; [done|done|]. apply data_ok_mem; [done|]. destruct Hm as (_ & Hm & _). destruct Ho. lia.
Qed.

Lemma wp_mem_set off size v pc st m c (e : EVM D) (Q : frame D -> vm_error + unit -> Prop) :
  is_word off -> is_word size -> mem_ok m -> calcMemSize off size <= m_Len m -> bytes_ok v ->
  (forall m', mem_ok m' -> m_Len m' = m_Len m -> Q (mkFrame pc st m' c e) (inr tt)) ->
  wp (mem_set off size v) Q (mkFrame pc st m c e).
Proof.
  intros Ho Hs Hm Hle Hv HQ. unfold mem_set. do 2 step. pose proof (mem_ok_small m Hm) as Hms.
  destruct Hm as (Hb & Hlim & Hlast).
  assert (exists m', m_Set m (big_Uint64 off) (big_Uint64 size) v = Ok m' /\ mem_ok m' /\ m_Len m' = m_Len m) as (m' & Em & Hm' & El).
  { destruct Ho as [Ho0 _]. destruct Hs as [Hs0 _].
    assert (size = 0 \/ big_Uint64 off = off /\ big_Uint64 size = size /\ off + size <= m_Len m) as [->|(-> & -> & Hle')].
    { destruct (calcMemSize_le _ _ _ Hle) as [|Hle']; [by left|]. right. rewrite !big_Uint64_small by (unfold in_u64; lia). done. }
    - exists m. split; [done|]. by split_and!.
    - destruct (m_Set_ok m off size v) as (s & -> & El & Hbs); [done|done|by right|lia|done|done|]. eexists. split; [done|].
      unfold mem_ok, m_Len in *. cbn. rewrite El. done. }
  step. eapply wp_pure_ok; [exact Em|]. repeat step. by apply HQ.
Qed.

Lemma opMload_ok : exec_ok 1 1 (need_const 0 32) nothing always_ok opMload.
Proof.
  start 1. unfold opMload. do 2 step. pose proof (leads_refl T env e sp He) as Hl. step. apply wp_mem_get; [done|by apply word_small|done|done|].
  intros d Hb Hd _. repeat step. finish. apply Forall_cons_2; [|done]. apply word_bytes; [done|lia].
Qed.

Lemma opMstore_ok : exec_ok 2 0 (need_const 0 32) nothing always_ok opMstore.
Proof.
  start 2. unfold opMstore. do 6 step. pose proof (leads_refl T env e sp He) as Hl. pose proof (mem_ok_small m Hm) as Hms.
  destruct (calcMemSize_le _ _ _ Hmem) as [|Hle]; [done|]. cbn in Hle. destruct (H2 : is_word z) as [Hz0 _]. destruct (H3 : is_word z0) as [Hz1 _].
  rewrite big_Uint64_small by (unfold in_u64; lia). destruct Hm as (Hb & Hlim & Hlast).
  destruct (m_Set32_ok m z z0) as (s & Es & El & Hbs & _); [done|done|lia|done|done|]. step. eapply wp_pure_ok; [exact Es|]. repeat step. finish.
  unfold mem_ok, m_Len in *. cbn. by rewrite El.
Qed.

Lemma opMstore8_ok : exec_ok 2 0 (need_const 0 1) nothing always_ok opMstore8.
Proof.
  start 2. unfold opMstore8. do 6 step. pose proof (leads_refl T env e sp He) as Hl. pose proof (mem_ok_small m Hm) as Hms.
  destruct (calcMemSize_le _ _ _ Hmem) as [|Hle]; [done|]. cbn in Hle. destruct (H2 : is_word z) as [Hz0 _].
  assert (big_Int64 z = z) as -> by (apply i64_small; unfold in_i64; lia). rewrite bool_decide_true by lia. repeat step. finish.
  destruct Hm as (Hb & Hlim & Hlast). unfold mem_ok, m_Len in *. cbn. rewrite length_insert. split; [|done].
  apply Forall_insert; [done|]. unfold is_byte. pose proof (land_255 (big_Int64 z0)) as ->. apply Z.mod_pos_bound. lia.
Qed.

Lemma opMsize_ok : exec_ok 0 1 no_memory nothing always_ok opMsize.
Proof.
  start 0. unfold opMsize. repeat step. pose proof (leads_refl T env e sp He). pose proof (mem_ok_small m Hm). finish.
  apply Forall_cons_2; [|done]. apply word_small. unfold m_Len in *. lia.
Qed.

Lemma opReturn_ok : exec_ok 2 0 (need 0 1) nothing always_ok opReturn.
Proof.
  start 2. unfold opReturn. do 4 step. pose proof (leads_refl T env e sp He) as Hl.
  apply (wp_mem_get z z0 pc st m c e); [done..|]. intros d _ _ Hd. finish.
Qed.
Lemma opRevert_ok : exec_ok 2 0 (need 0 1) nothing always_ok opRevert.
Proof. exact opReturn_ok. Qed.

(** ** The contract and the block *)

(** Pushing a word of the frame. *)
Lemma push_ok (g : frame D -> Z) :
  (forall f sp, frame_ok f sp -> 0 <= f_pc f < 2 ^ 61 -> is_word (g f)) ->
  exec_ok 0 1 no_memory nothing always_ok (f ← gets id; push (g f) ;; mret []).
Proof.
  intros Hg. start 0. do 2 step. pose proof (leads_refl T env e sp He). specialize (Hg _ _ Hf Hpc). repeat step. finish.
Qed.

Lemma opAddress_ok : exec_ok 0 1 no_memory nothing always_ok opAddress.
Proof. apply (push_ok (fun f => be_uint (c_self (f_contract f)))). intros f sp Hf _. apply word_address, Hf. Qed.
Lemma opCaller_ok : exec_ok 0 1 no_memory nothing always_ok opCaller.
Proof. apply (push_ok (fun f => be_uint (CallerAddress (f_contract f)))). intros f sp Hf _. apply word_address, Hf. Qed.
Lemma opCallDataSize_ok : exec_ok 0 1 no_memory nothing always_ok opCallDataSize.
Proof.
  apply (push_ok (fun f => Z.of_nat (length (c_Input (f_contract f))))). intros f sp Hf _. destruct (co_input _ (fo_contract _ _ _ Hf)). apply word_small. lia.
Qed.
Lemma opCodeSize_ok : exec_ok 0 1 no_memory nothing always_ok opCodeSize.
Proof.
  apply (push_ok (fun f => Z.of_nat (length (c_Code (f_contract f))))). intros f sp Hf _. destruct (co_code _ (fo_contract _ _ _ Hf)). apply word_small. lia.
Qed.
Lemma opGas_ok : exec_ok 0 1 no_memory nothing always_ok opGas.
Proof.
  apply (push_ok (fun f => c_Gas (f_contract f))). intros f sp Hf _. pose proof (co_gas _ (fo_contract _ _ _ Hf)) as Hg. unfold gas_ok in Hg. apply word_small. lia.
Qed.
Lemma opReturnDataSize_ok : exec_ok 0 1 no_memory nothing always_ok opReturnDataSize.
Proof. apply (push_ok (fun f => u64 (Z.of_nat (length (e_returnData (f_evm f)))))). intros f sp _ _. apply word_small, wrapU_range. lia. Qed.
Lemma opOrigin_ok : exec_ok 0 1 no_memory nothing always_ok (opOrigin env).
Proof. apply (push_ok (fun _ => be_uint (env_Origin env))). intros _ _ _ _. apply word_address, Henv. Qed.
Lemma opGasprice_ok : exec_ok 0 1 no_memory nothing always_ok (opGasprice env).
Proof. apply (push_ok (fun _ => env_GasPrice env)). intros _ _ _ _. apply Henv. Qed.
Lemma opCoinbase_ok : exec_ok 0 1 no_memory nothing always_ok (opCoinbase env).
Proof. apply (push_ok (fun _ => be_uint (env_Coinbase env))). intros _ _ _ _. apply word_address, Henv. Qed.
Lemma opTimestamp_ok : exec_ok 0 1 no_memory nothing always_ok (opTimestamp env).
Proof. apply (push_ok (fun _ => U256 (env_Time env))). auto with words. Qed.
Lemma opNumber_ok : exec_ok 0 1 no_memory nothing always_ok (opNumber env).
Proof. apply (push_ok (fun _ => U256 (env_BlockNumber env))). auto with words. Qed.
Lemma opDifficulty_ok : exec_ok 0 1 no_memory nothing always_ok (opDifficulty env).
Proof. apply (push_ok (fun _ => U256 (env_Difficulty env))). auto with words. Qed.
Lemma opGasLimit_ok : exec_ok 0 1 no_memory nothing always_ok (opGasLimit env).
Proof. apply (push_ok (fun _ => U256 (env_GasLimit env))). auto with words. Qed.

Lemma opCallValue_ok : exec_ok 0 1 no_memory nothing always_ok opCallValue.
Proof.
  start 0. unfold opCallValue. do 2 step. pose proof (leads_refl T env e sp He) as Hl. destruct (co_value _ Hc) as (v & Ev & Hv).
  step. eapply wp_must; [exact Ev|]. repeat step. finish.
Qed.

Lemma opBlockhash_ok : exec_ok 1 1 no_memory nothing always_ok (opBlockhash env).
Proof.
  start 1. unfold opBlockhash. repeat step. pose proof (leads_refl T env e sp He) as Hl. finish. apply Forall_cons_2; [|done].
  case_match; [apply word_hash, Henv|by apply word_small].
Qed.

Lemma opCallDataLoad_ok : exec_ok 1 1 no_memory nothing always_ok opCallDataLoad.
Proof.
  start 1. unfold opCallDataLoad. do 4 step. pose proof (leads_refl T env e sp He) as Hl. destruct (co_input _ Hc) as [Hb Hlen].
  destruct (H2 : is_word z) as [Hz _]. step. pose proof maxAlloc_large as Hmax. eapply wp_pure_ok; [apply getDataBig_ok; [done|lia|lia|lia]|]. repeat step. finish.
  apply Forall_cons_2; [|done]. apply word_bytes; [by apply window_bytes|]. by rewrite window_length.
Qed.

(** Copying data into the memory. *)
Lemma wp_copy data memOffset off len pc st m c (e : EVM D) (Q : frame D -> vm_error + list Z -> Prop) :
  is_word memOffset -> is_word off -> is_word len -> mem_ok m -> calcMemSize memOffset len <= m_Len m -> data_ok data ->
  (forall m', mem_ok m' -> Q (mkFrame pc st m' c e) (inr [])) ->
  wp (d ← always (getDataBig data off len); mem_set memOffset len d ;; mret []) Q (mkFrame pc st m c e).
Proof.
  intros Hmo [Ho _] Hlen Hm Hle [Hb Hdl] HQ. pose proof (mem_ok_small m Hm) as Hms.
  pose proof maxAlloc_large as Hmax. assert (len < 2 ^ 40) by (destruct (calcMemSize_le _ _ _ Hle); [lia|destruct Hmo; lia]). destruct Hlen as [Hl0 Hl1].
  step. eapply wp_pure_ok; [apply getDataBig_ok; lia|]. cbn [and_then]. step. apply wp_mem_set; [done|done|done|done|by apply window_bytes|].
  intros m' Hm' _. repeat step. by apply HQ.
Qed.

Lemma opCallDataCopy_ok : exec_ok 3 0 (need 0 2) nothing always_ok opCallDataCopy.
Proof.
  start 3. unfold opCallDataCopy, copy_data. do 8 step. pose proof (leads_refl T env e sp He) as Hl. apply wp_copy; try done; [apply Hc|]. intros m' Hm'. finish.
Qed.
Lemma opCodeCopy_ok : exec_ok 3 0 (need 0 2) nothing always_ok opCodeCopy.
Proof.
  start 3. unfold opCodeCopy, copy_data. do 8 step. pose proof (leads_refl T env e sp He) as Hl. apply wp_copy; try done; [apply Hc|]. intros m' Hm'. finish.
Qed.

Lemma opReturnDataCopy_ok : exec_ok 3 0 (need 0 2) nothing always_ok opReturnDataCopy.
Proof.
  start 3. unfold opReturnDataCopy. do 8 step. pose proof (leads_refl T env e sp He) as Hl. destruct (ei_data _ _ _ He) as [Hb Hdl].
  destruct (bool_decide_reflect (BitLen (z0 + z1) > 64)) as [|Hbl]; cbn [orb]; [apply wp_throw; by eapply exec_err|].
  destruct (H3 : is_word z0) as [Hz0 _]. destruct (H4 : is_word z1) as [Hz1 _].
  pose proof (BitLen_bound (z0 + z1) 64 ltac:(lia) ltac:(lia)) as Hlt. rewrite Z.abs_eq in Hlt by lia.
  rewrite (big_Uint64_small (z0 + z1)), (u64_small (Z.of_nat _)) by (unfold in_u64; lia).
  destruct (bool_decide_reflect (Z.of_nat (length (e_returnData e)) < z0 + z1)); [apply wp_throw; by eapply exec_err|].
  rewrite big_Uint64_small by (unfold in_u64; lia). step. eapply wp_pure_ok; [apply slice_ok; lia|]. cbn [and_then]. step.
  apply wp_mem_set; [done|done|done|done|auto with godb|]. intros m' Hm' _. repeat step. finish.
Qed.

(** ** The state *)

Lemma opBalance_ok : exec_ok 1 1 no_memory nothing always_ok opBalance.
Proof.
  start 1. unfold opBalance. do 2 step. step. apply wp_in_state. eapply wp_GetBalance; [exact He|]. intros e' Hl. repeat step. finish.
  apply Forall_cons_2; [|done]. pose proof (so_world _ _ (ei_ok _ _ _ He)) as Hw. split; [by eapply bal_nonneg|].
  eapply Z.le_lt_trans; [by eapply bal_le|exact HT].
Qed.

Lemma opExtCodeSize_ok : exec_ok 1 1 no_memory nothing always_ok opExtCodeSize.
Proof.
  start 1. unfold opExtCodeSize. do 2 step. step. apply wp_in_state.
  eapply (wp_read T env (OpGetCodeSize _) AInt); [done|exact He|cbn; by rewrite spec_eta|by intros ? [=]|]. intros e' Hl. repeat step. finish.
  apply Forall_cons_2; [|done]. apply word_small, wrapU_range. lia.
Qed.

Lemma opExtCodeHash_ok : exec_ok 1 1 no_memory nothing always_ok opExtCodeHash.
Proof.
  start 1. unfold opExtCodeHash. do 2 step. step. apply wp_in_state. eapply wp_GetCodeHash; [exact He|]. intros e' h Hl Hh. repeat step. finish.
  apply Forall_cons_2; [by apply word_hash|done].
Qed.

Lemma opSload_ok : exec_ok 1 1 no_memory nothing always_ok opSload.
Proof.
  start 1. unfold opSload. do 4 step. step. apply wp_in_state. eapply wp_GetState; [exact He|]. intros e' v Hl Hv. repeat step. finish.
  apply Forall_cons_2; [by apply word_hash|done].
Qed.

Lemma opExtCodeCopy_ok : exec_ok 4 0 (need 1 3) nothing always_ok opExtCodeCopy.
Proof.
  start 4. unfold opExtCodeCopy. do 8 step. step. apply wp_in_state. eapply wp_GetCode; [exact He|]. intros e' code Hl Hcode. cbn [and_then set_evm f_pc f_stack f_mem f_contract].
  apply wp_copy; try done. intros m' Hm'. finish.
Qed.

Lemma wp_AddPreimage h p e sp Q :
  evm_is e sp -> (forall e' sp', leads e sp e' sp' -> Q e' (inr tt)) -> wp (in_db (db_AddPreimage h p)) Q e.
Proof.
  intros He HQ. eapply (wp_write T env (OpAddPreimage h p)); [done|done|reflexivity| |intros _; split|intros e'; apply HQ];
    try (intros; unfold add_preimage, acct_of; by destruct (w_preimages (sp_world sp) !! h)).
  apply (world_ok_acct _ (sp_world sp)); [|apply He]. unfold add_preimage. by destruct (w_preimages (sp_world sp) !! h).
Qed.

Lemma opSha3_ok : exec_ok 2 1 (need 0 1) nothing always_ok (opSha3 env).
Proof.
  start 2. unfold opSha3. do 4 step. step. apply wp_mem_get; [done..|]. intros d Hb Hd Hok'. cbn [and_then]. step.
  apply (wp_mono _ (fun f' r => exists e' sp', r = inr tt /\ f' = mkFrame pc st m c e' /\ leads e sp e' sp')).
  { destruct (env_EnablePreimageRecording env).
    - apply wp_in_state. eapply wp_AddPreimage; [exact He|]. intros e' sp' Hl. by exists e', sp'.
    - apply wp_ret. exists e, sp. split; [done|]. split; [done|by apply leads_refl]. }
  intros f' r (e' & sp' & -> & -> & Hl). repeat step. finish. apply Forall_cons_2; [|done]. apply word_hash. split; apply keccak256_ok.
Qed.

Lemma opSstore_ok : exec_ok 2 0 no_memory nothing may_write opSstore.
Proof.
  start 2. unfold opSstore. do 6 step. step. apply wp_in_state. pose proof (so_world _ _ (ei_ok _ _ _ He)) as Hw.
  eapply (wp_write T env (OpSetState _ _ _)); [reflexivity|exact He|reflexivity| |intros Hs; unfold may_write in Hok; cbn in Hok, Hs; congruence|].
  - apply world_ok_update; [done| |cbn; by rewrite acct_of_balance]. destruct (acct_of_ok T (sp_world sp) (c_self c) Hw). split; try done.
    intros k. cbn. case_bool_decide; [apply BigToHash_ok|done].
  - intros e' Hl. repeat step. finish.
Qed.

Lemma wp_AddLog l e sp Q :
  evm_is e sp -> static env e = false -> (forall e' sp', leads e sp e' sp' -> Q e' (inr tt)) -> wp (in_db (db_AddLog l)) Q e.
Proof.
  intros He Hst HQ. eapply (wp_write T env (OpAddLog l)); [done|done|reflexivity| |by rewrite Hst|intros e'; apply HQ].
  apply (world_ok_acct _ (sp_world sp)); [done|apply He].
Qed.

Lemma wp_pop_topics k : forall pc st m c (e : EVM D) (Q : frame D -> vm_error + list (list Z) -> Prop),
  (k <= length st)%nat -> (forall l, Q (mkFrame pc (drop k st) m c e) (inr l)) -> wp (pop_topics k) Q (mkFrame pc st m c e).
Proof.
  induction k as [|k IH]; intros pc st m c e Q Hk HQ; cbn [pop_topics]; [apply wp_ret, HQ|].
  destruct st as [|x st]; [cbn in Hk; lia|]. do 2 step. step. apply IH; [cbn in Hk; lia|]. intros l. cbn [and_then]. step. apply HQ.
Qed.

Lemma makeLog_ok k : exec_ok (k + 2) 0 (need 0 1) nothing may_write (makeLog env k).
Proof.
  start 2. unfold makeLog. do 4 step. step. apply wp_pop_topics; [lia|]. intros topics. cbn [and_then]. step.
  apply wp_mem_get; [done..|]. intros d _ _ _. cbn [and_then]. do 2 step. step. apply wp_in_state.
  eapply wp_AddLog; [exact He|exact Hok|]. intros e' sp' Hl. repeat step. finish; [by apply Forall_drop|rewrite length_drop; lia].
Qed.

Lemma opSuicide_ok : exec_ok 1 0 no_memory nothing may_write opSuicide.
Proof.
  start 1. unfold opSuicide. do 2 step. step. apply wp_in_state. eapply wp_GetBalance; [exact He|]. intros e1 Hl1. cbn [and_then set_evm f_pc f_stack f_mem f_contract].
  do 2 step. step. apply wp_in_state. eapply (wp_evm_db (OpAddBalance _ _) (fun _ => ANone)); [reflexivity|apply (ld_db _ _ _ _ _ _ Hl1)|reflexivity|by intros []|].
  intros d Hd. cbn [and_then set_evm f_pc f_stack f_mem f_contract f_evm]. step. apply wp_in_state.
  eapply (wp_evm_db (OpSuicide (c_self c)) ABool); [reflexivity|exact Hd|reflexivity|by intros ? [=]|].
  intros d' Hd'. repeat step. pose proof (bequeath_ok T (c_self c) (BigToAddress z) (sp_world sp) (so_world _ _ (ei_ok _ _ _ He))) as Hw.
  assert (leads e sp (set_e_db d' (set_e_db d e1)) (with_world (bequeath (c_self c) (BigToAddress z) (sp_world sp)) sp)) as Hl; [|finish].
  eapply leads_trans; [exact Hl1|]. pose proof (leads_is _ _ _ _ _ _ Hl1) as He1. destruct He1 as [_ Hok1 Hd1].
  split; try done. apply moves_world; [apply He|exact Hw|]. intros Hs. rewrite (static_leads _ _ _ _ _ _ Hl1) in Hs. unfold may_write in Hok. cbn in Hok, Hs. congruence.
Qed.

(** ** Calls *)

Context (Hrecover : forall h sig, Ecrecover h sig <> Some []).
Context (N : Z) (R : Contract -> list Z -> SM (EVM D) Empty_set run_result) (HR : run_spec (db_is := db_is) T env N R).

(** The gas of the contract with what is handed on: enough for the runs below. *)
Definition enough (hand : frame D -> Z) (f : frame D) : Prop :=
  c_Gas (f_contract f) + hand f < N /\ (c_Gas (f_contract f) + hand f < 2 ^ 60 /\ 3 * (c_Gas (f_contract f) + hand f) <= maxAlloc).

Lemma contract_ok_gas c g : contract_ok c -> gas_ok g -> contract_ok (set_gas g c).
Proof. intros [] Hg. by split. Qed.

Lemma exec_called n p hand pc st m c e sp st' m' e' sp' g res :
  frame_ok (mkFrame pc st m c e) sp -> leads e sp e' sp' -> Forall is_word st' -> mem_ok m' -> data_ok res ->
  (length st' + n = length st + p)%nat -> 0 <= pc -> 0 <= g <= c_Gas c + hand -> gas_ok g ->
  exec_post n p hand (mkFrame pc st m c e) sp (mkFrame pc st' m' (set_gas g c) e') (inr res).
Proof.
  intros [He Hst Hm Hc] Hl Hst' Hm' Hr Hlen Hpc Hg Hb. exists sp'. cbn [f_evm f_contract f_stack f_pc] in *.
  split; [done|]. split; [done|]. split; [done|]. split; [|split; [by exists g|split; [done|lia]]].
  split; cbn; try done; [by eapply leads_is|]. by apply contract_ok_gas.
Qed.

Lemma wp_finish_call retOffset retSize ret g err pc st m c (e : EVM D) (Q : frame D -> vm_error + list Z -> Prop) :
  is_word retOffset -> is_word retSize -> mem_ok m -> calcMemSize retOffset retSize <= m_Len m -> data_ok ret ->
  0 <= c_Gas c -> 0 <= g -> c_Gas c + g < 2 ^ 60 ->
  (forall m' flag, mem_ok m' -> is_word flag -> Q (mkFrame pc (flag :: st) m' (set_gas (c_Gas c + g) c) e) (inr ret)) ->
  wp (finish_call retOffset retSize (ret, g, err)) Q (mkFrame pc st m c e).
Proof.
  intros Ho Hs Hm Hle [Hb _] Hc Hg Hlt HQ. unfold finish_call. do 2 step. set (flag := if bool_decide _ then 0 else 1).
  assert (is_word flag) as Hfl by (subst flag; case_bool_decide; by apply word_small). step.
  apply (wp_mono _ (fun f' r => exists m', r = inr tt /\ f' = mkFrame pc (flag :: st) m' c e /\ mem_ok m')).
  { destruct (_ || _); [|apply wp_ret; by exists m]. apply wp_mem_set; [done..|]. intros m' Hm' _. by exists m'. }
  intros f' r (m' & -> & -> & Hm'). cbn [and_then]. unfold add_gas. repeat step. cbn [set_contract f_contract f_pc f_stack f_mem f_evm].
  rewrite u64_small by (unfold in_u64; lia). by apply HQ.
Qed.

Lemma need_call_le a b c d st x : need_call a b c d st <= x -> need a b st <= x /\ need c d st <= x.
Proof. unfold need_call. rewrite BigMax_max. lia. Qed.

(** A frame with the words of a call, the gas below the limits. *)
Tactic Notation "start_call" integer(n) :=
  intros [pc st m c e] sp Hf Hn Hpc Hmem Hok Hhand; pose proof Hf as [He Hst Hm Hc]; cbn [f_stack f_mem f_contract f_evm f_pc] in *;
  do n (destruct st as [|? st]; [cbn [length] in Hn; lia|apply Forall_cons in Hst as [? Hst]]); pose proof (co_gas _ Hc) as Hgc; unfold gas_ok in Hgc.

(** The end of a call in a frame: [Hf] is the frame, [Hl] what the call did. *)
Ltac end_call Hf Hl :=
  cbn [and_then]; unfold set_evm; cbn [f_pc f_stack f_mem f_contract]; apply wp_finish_call; [done..|lia|lia|lia|];
  intros m' flag Hm' Hfl; eapply exec_called; [exact Hf|exact Hl|by apply Forall_cons_2|done|done|cbn [length] in *; lia|lia|lia|unfold gas_ok; lia].

Lemma opStaticCall_ok : exec_ok 6 1 (need_call 4 5 2 3) (hand_on false) (enough (hand_on false)) (opStaticCall env R).
Proof.
  start_call 6. apply need_call_le in Hmem as [Hmr Hma]. destruct Hok as [Hok1 Hok2].
  unfold hand_on, stipend in Hok1, Hok2, Hhand |- *. cbn [andb f_evm f_contract] in Hok1, Hok2, Hhand |- *.
  unfold opStaticCall. do 14 step. step. apply wp_mem_get; [done..|]. intros args _ _ Hargs. cbn [and_then]. do 2 step. step.
  apply wp_zoom. cbn [f_evm]. eapply wp_mono; [eapply (wp_StaticCall T env Hrecover N R HR (ContractObj c) (BigToAddress _) args (e_callGasTemp e) e sp);
    [exact Hc|apply BigToAddress_ok|done|unfold gas_ok; lia|lia|done]|].
  intros e' r ((ret & g & err & sp' & -> & Hg & Hret & Hl & _) & _). end_call Hf Hl.
Qed.

Lemma opDelegateCall_ok : exec_ok 6 1 (need_call 4 5 2 3) (hand_on false) (enough (hand_on false)) (opDelegateCall env R).
Proof.
  start_call 6. apply need_call_le in Hmem as [Hmr Hma]. destruct Hok as [Hok1 Hok2].
  unfold hand_on, stipend in Hok1, Hok2, Hhand |- *. cbn [andb f_evm f_contract] in Hok1, Hok2, Hhand |- *.
  unfold opDelegateCall. do 14 step. step. apply wp_mem_get; [done..|]. intros args _ _ Hargs. cbn [and_then]. do 2 step. step.
  apply wp_zoom. cbn [f_evm]. eapply wp_mono; [eapply (wp_DelegateCall T env Hrecover N R HR (ContractObj c) (BigToAddress _) args (e_callGasTemp e) e sp);
    [exact Hc|done|unfold gas_ok; lia|lia|done|done]|].
  intros e' r (ret & g & err & sp' & -> & Hg & Hret & Hl & _). end_call Hf Hl.
Qed.

(** The value of a call is a word already; the stipend goes with it. *)
Lemma call_gas_value pc x y v st m c (e : EVM D) :
  is_word v -> 0 <= hand_on true (mkFrame pc (x :: y :: v :: st) m c e) < 2 ^ 60 ->
  U256 v = v /\ (if bool_decide (v <> 0) then u64 (e_callGasTemp e + CallStipend) else e_callGasTemp e) = hand_on true (mkFrame pc (x :: y :: v :: st) m c e).
Proof.
  intros Hv Hh. split; [by rewrite U256_mod, to_word_small|]. unfold hand_on, stipend in *. cbn [f_stack f_evm lookup list_lookup andb] in *.
  destruct (decide (v = 0)) as [->|Hne].
  - rewrite !bool_decide_false in * by naive_solver. lia.
  - rewrite (bool_decide_true (v <> 0)), (bool_decide_true (Some v <> Some 0)) in * by naive_solver. rewrite u64_small by (unfold in_u64; lia). done.
Qed.

Lemma opCallCode_ok : exec_ok 7 1 (need_call 5 6 3 4) (hand_on true) (enough (hand_on true)) (opCallCode env R).
Proof.
  start_call 7. apply need_call_le in Hmem as [Hmr Hma]. destruct Hok as [Hok1 Hok2]. cbn [f_contract f_evm] in Hok1, Hok2.
  destruct (call_gas_value pc z z0 z1 (z2 :: z3 :: z4 :: z5 :: st) m c e) as [Ev Eg]; [done|lia|].
  unfold opCallCode. do 16 step. rewrite Ev. step. apply wp_mem_get; [done..|]. intros args _ _ Hargs. cbn [and_then]. rewrite Eg.
  set (h := hand_on true _) in *. do 2 step. step. apply wp_zoom. cbn [f_evm].
  eapply wp_mono; [eapply (wp_CallCode T env Hrecover N R HR (ContractObj c) (BigToAddress _) args h e sp); [exact Hc|done|unfold gas_ok; lia|lia|done|done]|].
  intros e' r (ret & g & err & sp' & -> & Hg & Hret & Hl & _). end_call Hf Hl.
Qed.

(** While nothing may be written a call moves no value. *)
Definition call_allowed (f : frame D) : Prop := enough (hand_on true) f /\ (static env (f_evm f) = true -> f_stack f !! 2%nat = Some 0).

Lemma opCall_ok : exec_ok 7 1 (need_call 5 6 3 4) (hand_on true) call_allowed (opCall env R).
Proof.
  start_call 7. apply need_call_le in Hmem as [Hmr Hma]. destruct Hok as [[Hok1 Hok2] Hst0]. cbn [f_contract f_evm] in Hok1, Hok2, Hst0.
  destruct (call_gas_value pc z z0 z1 (z2 :: z3 :: z4 :: z5 :: st) m c e) as [Ev Eg]; [done|lia|].
  unfold opCall. do 16 step. rewrite Ev. step. apply wp_mem_get; [done..|]. intros args _ _ Hargs. cbn [and_then]. rewrite Eg.
  set (h := hand_on true _) in *. do 2 step. step. apply wp_zoom. cbn [f_evm].
  eapply wp_mono; [eapply (wp_Call T env Hrecover N R HR (ContractObj c) (BigToAddress _) args h e sp); [exact Hc|apply BigToAddress_ok|done|unfold gas_ok; lia|lia|done|done|]|].
  { intros Hs. specialize (Hst0 Hs). by injection Hst0. }
  intros e' r (ret & g & err & sp' & -> & Hg & Hret & Hl & _). end_call Hf Hl.
Qed.

(** ** Creations *)

(** The end of a creation: the gas goes out and what is left comes back. *)
Lemma wp_use_gas gas pc st m c (e : EVM D) (Q : frame D -> vm_error + unit -> Prop) :
  0 <= gas <= c_Gas c -> c_Gas c < 2 ^ 60 -> Q (mkFrame pc st m (set_gas (c_Gas c - gas) c) e) (inr tt) -> wp (use_gas gas) Q (mkFrame pc st m c e).
Proof.
  intros Hg Hc HQ. apply wp_modify. unfold UseGas. cbn [f_contract]. rewrite bool_decide_false by lia. cbn [snd].
  rewrite u64_small by (unfold in_u64; lia). exact HQ.
Qed.

Lemma wp_add_gas gas pc st m c (e : EVM D) (Q : frame D -> vm_error + unit -> Prop) :
  0 <= c_Gas c -> 0 <= gas -> c_Gas c + gas < 2 ^ 60 -> Q (mkFrame pc st m (set_gas (c_Gas c + gas) c) e) (inr tt) -> wp (add_gas gas) Q (mkFrame pc st m c e).
Proof. intros Hc Hg Hlt HQ. apply wp_modify. cbn [f_contract]. rewrite u64_small by (unfold in_u64; lia). exact HQ. Qed.

(** All but one 64th. *)
Lemma part_of_gas x : gas_ok x -> 0 <= u64 (x - x / 64) <= x.
Proof.
  intros Hx. unfold gas_ok in Hx. pose proof (Z.div_pos x 64). pose proof (Z.div_le_upper_bound x 64 x).
  rewrite u64_small by (unfold in_u64; lia). lia.
Qed.

(** A creation is refused while nothing may be written. *)
Definition may_create (f : frame D) : Prop := enough nothing f /\ may_write f.

Lemma exec_created n gas left pc st m c e sp addr st' e' sp' res :
  frame_ok (mkFrame pc st m c e) sp -> 0 <= pc -> 0 <= gas <= c_Gas c -> 0 <= left <= gas -> leads e sp e' sp' -> data_ok res ->
  is_word addr -> Forall is_word st' -> (length st' + n = length st)%nat ->
  wp (push addr ;; add_gas left ;; mret res) (exec_post n 1 0 (mkFrame pc st m c e) sp)
    (mkFrame pc st' m (set_gas (c_Gas c - gas) c) e').
Proof.
  intros Hf Hpc Hg Hl Hle Hr Ha Hst Hlen. pose proof (co_gas _ (fo_contract _ _ _ Hf)) as Hgc. unfold gas_ok in Hgc. cbn [f_contract] in Hgc.
  apply wp_bind, wp_push. cbn [and_then]. apply wp_bind, wp_add_gas; cbn [set_gas c_Gas]; [lia..|]. cbn [and_then]. apply wp_ret.
  eapply (exec_called _ _ _ _ _ _ c); [exact Hf|exact Hle|by apply Forall_cons_2|apply Hf|done|cbn [length]; lia|done|lia|unfold gas_ok; lia].
Qed.

Lemma opCreate_ok : exec_ok 3 1 (need 1 2) nothing may_create (opCreate env R).
Proof.
  start 3. destruct Hok as [[Hok1 Hok2] Hw]. unfold may_write, nothing in *. cbn [f_contract f_evm] in Hok1, Hok2, Hw. pose proof (co_gas _ Hc) as Hgc.
  unfold opCreate. do 6 step. step. apply wp_mem_get; [done..|]. intros input _ _ Hin. cbn [and_then]. do 2 step.
  set (gas := if env_is IsEIP150 env then _ else c_Gas c). assert (0 <= gas <= c_Gas c) as Hg by (subst gas; destruct (env_is _ _); [by apply part_of_gas|unfold gas_ok in Hgc; lia]).
  step. apply wp_use_gas; [done|lia|]. cbn [and_then]. do 2 step. step. apply wp_zoom. cbn [f_evm]. unfold gas_ok in Hgc.
  eapply wp_mono; [apply (wp_Create T env Hrecover N R HR (ContractObj (set_gas (c_Gas c - gas) c)) input gas _ e sp); try done|].
  { apply contract_ok_gas; [done|]. unfold gas_ok. lia. }
  { unfold gas_ok. lia. }
  { lia. }
  intros e' r (ret & a & g & err & sp' & -> & Hgl & Hret & Ha & Hl & _). cbn [and_then]. unfold set_evm. cbn [f_pc f_stack f_mem f_contract].
  eapply exec_created; [exact Hf|lia|done|done|exact Hl| | |done|cbn [length]; lia].
  - case_bool_decide; [done|apply data_ok_nil].
  - repeat case_match; first [by apply word_small|by apply word_address].
Qed.

Lemma opCreate2_ok : exec_ok 4 1 (need 1 2) nothing may_create (opCreate2 env R).
Proof.
  start 4. destruct Hok as [[Hok1 Hok2] Hw]. unfold may_write, nothing in *. cbn [f_contract f_evm] in Hok1, Hok2, Hw. pose proof (co_gas _ Hc) as Hgc.
  unfold opCreate2. do 8 step. step. apply wp_mem_get; [done..|]. intros input _ _ Hin. cbn [and_then]. do 2 step.
  set (gas := u64 _). assert (0 <= gas <= c_Gas c) as Hg by by apply part_of_gas.
  step. apply wp_use_gas; [done|unfold gas_ok in Hgc; lia|]. cbn [and_then]. do 2 step. step. apply wp_zoom. cbn [f_evm]. unfold gas_ok in Hgc.
  eapply wp_mono; [apply (wp_Create2 T env Hrecover N R HR (ContractObj (set_gas (c_Gas c - gas) c)) input gas _ _ e sp); try done|].
  { apply contract_ok_gas; [done|]. unfold gas_ok. lia. }
  { unfold gas_ok. lia. }
  { lia. }
  intros e' r (ret & a & g & err & sp' & -> & Hgl & Hret & Ha & Hl & _). cbn [and_then]. unfold set_evm. cbn [f_pc f_stack f_mem f_contract].
  eapply exec_created; [exact Hf|lia|done|done|exact Hl| | |done|cbn [length]; lia].
  - case_bool_decide; [done|apply data_ok_nil].
  - repeat case_match; first [by apply word_small|by apply word_address].
Qed.

End instructions.
