(* ===== verification/EvmSpec.v ===== *)
(** * Runs of the machine end, and keep what they must

    [op_ok]: the facts about one row of the jump table: the stack function, the
    memory, the price and the instruction fit together.  Every row of every phase
    has them ([jump_table_ok]), so a round of the loop is sound ([round_ok]), and by
    induction on the fuel a run with more fuel than gas ends ([run_loop_ok],
    [Run_ok]).  The theorems at the end state what follows for a call and for a
    creation from outside. *)

From S2P Require Import Prelude Common TrieEncoding Trie TrieSpec TrieMap.
From S2P Require Import TrieCanon Rlp Sha3 TrieHash TrieMerkle TrieIter.
From S2P Require Import TrieIterSpec RlpRaw TrieBinding RlpStream Params DposContext.
From S2P Require Import Header Transaction Block SecureTrie State StateSpec.
From S2P Require Import EvmState EvmWord EvmCode EvmMachine EvmPrecompiles EvmCalls EvmGas EvmInstr.
From S2P Require Import EvmInterp EvmInv EvmCallSpec EvmGasSpec EvmInstrSpec.

Section machine.
Context `{Keccak, Ecdsa, Native} `{go : Runtime} {D : Type} `{!StateOps D} {db_is : D -> spec -> Prop} `{!StateLaws db_is} (T : Z) (env : Env).
Context (HT : T < 2 ^ 256) (Henv : env_ok env) (Hrecover : forall h sig, Ecrecover h sig <> Some []).

Abbreviation leads := (@leads _ D db_is T env).
Abbreviation evm_is := (@evm_is D db_is T).
Abbreviation frame_ok := (@frame_ok _ D db_is T).
Abbreviation exec_ok := (@exec_ok _ _ D db_is T env).
Abbreviation gas_post := (@gas_post _ D db_is T env).

(** What [enforceRestrictions] lets through. *)
Definition allowed (op : Z) (o : operation D) (f : frame D) : Prop :=
  static env (f_evm f) = true -> writes o = false /\ (op = CALL -> f_stack f !! 2%nat = Some 0).

(** The memory function reads [M] of the stack. *)
Definition memory_is (n : nat) (M : list Z -> Z) (m : option (FM D Z)) : Prop :=
  match m with
  | None => M = no_memory
  | Some m => forall f, Forall is_word (f_stack f) -> (n <= length (f_stack f))%nat -> 0 <= M (f_stack f) /\ m f = Ok (f, inr (M (f_stack f)))
  end.

Section rows.
Context (N : Z).

Record op_ok (op : Z) (o : operation D) (n p : nat) (M : list Z -> Z) (hand : frame D -> Z) (ok : frame D -> Prop) (k : Z) : Prop := {
  oo_pops : pops o = Z.of_nat n;
  oo_pushes : pushes o = Z.of_nat p;
  oo_memory : memory_is n M (memorySize o);
  oo_gas : forall f sp size, frame_ok f sp -> (n <= length (f_stack f))%nat -> allowed op o f -> in_u64 size -> (memorySize o = None -> size = 0) ->
    wp (gasCost o size) (gas_post size k hand f sp) f;
  oo_exec : exec_ok n p M hand ok (execute o);
  oo_ok : forall f, allowed op o f -> (1 <= k -> enough N hand f) -> ok f;
  oo_hand : forall f f', f_stack f = f_stack f' -> f_evm f = f_evm f' -> hand f = hand f';
  oo_k : 0 <= k /\ (halts o = false -> reverts o = false -> 1 <= k)
}.

Definition good (row : Z * operation D) : Prop := exists n p M hand ok k, op_ok row.1 row.2 n p M hand ok k.

(** ** The rows *)

Lemma gas_post_weaken size k k' hand f sp f' r : k' <= k -> gas_post size k hand f sp f' r -> gas_post size k' hand f sp f' r.
Proof. intros Hk (last & e & sp' & -> & Hlast & Hl & Hr). exists last, e, sp'. split_and!; try done. destruct r; [done|]. lia. Qed.

(** What writes may do so. *)
Lemma allowed_writes op o f : allowed op o f -> writes o = true -> static env (f_evm f) = false.
Proof. intros Hal Hw. destruct (static env (f_evm f)) eqn:E; [|done]. destruct (Hal E). congruence. Qed.

(** A row with a price of its own. *)
Lemma good_plain n p op e g pop push :
  pop = Z.of_nat n -> push = Z.of_nat p ->
  (forall f sp, frame_ok f sp -> (n <= length (f_stack f))%nat -> wp (g 0) (gas_post 0 1 nothing f sp) f) ->
  exec_ok n p no_memory nothing always_ok e -> good (op, plain_op e g pop push).
Proof.
  intros -> -> Hg He. exists n, p, no_memory, nothing, always_ok, 1. split; cbn; try done. intros f sp size Hf Hn _ _ Hs. rewrite Hs by done. by apply Hg.
Qed.

Lemma good_const n p op e g pop push :
  pop = Z.of_nat n -> push = Z.of_nat p -> 1 <= g -> exec_ok n p no_memory nothing always_ok e -> good (op, plain_op e (constGasFunc g) pop push).
Proof. intros Hn Hp Hg He. eapply good_plain; [exact Hn|exact Hp| |done]. intros f sp Hf _. by apply constGas_ok. Qed.

Lemma good_jump n op e g pop push :
  pop = Z.of_nat n -> push = 0 -> 1 <= g -> exec_ok n 0 no_memory nothing always_ok e -> good (op, jumping (plain_op e (constGasFunc g) pop push)).
Proof.
  intros -> -> Hg He. exists n, 0%nat, no_memory, nothing, always_ok, 1. split; cbn; try done.
  intros f sp size Hf Hn _ _ Hs. rewrite Hs by done. by apply constGas_ok.
Qed.

Lemma good_mem n p M op e g pop push m k :
  pop = Z.of_nat n -> push = Z.of_nat p -> memory_is n M (Some m) -> 1 <= k ->
  (forall f sp size, frame_ok f sp -> (n <= length (f_stack f))%nat -> in_u64 size -> wp (g size) (gas_post size k nothing f sp) f) ->
  exec_ok n p M nothing always_ok e -> good (op, mem_op e g pop push m).
Proof. intros -> -> Hm Hk Hg He. exists n, p, M, nothing, always_ok, k. split; cbn; try done; auto. lia. Qed.

Lemma nth_word st k : Forall is_word st -> is_word (nth k st 0).
Proof. intros Hst. destruct (nth_in_or_default k st 0) as [Hin | ->]; [|by apply word_small]. rewrite Forall_forall in Hst. apply Hst. by apply list_elem_of_In. Qed.

Lemma calcMemSize_nonneg off len : is_word off -> is_word len -> 0 <= calcMemSize off len.
Proof. intros [? _] [? _]. unfold calcMemSize. case_bool_decide; lia. Qed.

Lemma need_nonneg a b st : Forall is_word st -> 0 <= need a b st.
Proof. intros Hst. apply calcMemSize_nonneg; by apply nth_word. Qed.

Lemma run_Back n (f : frame D) : (n < length (f_stack f))%nat -> Back n f = Ok (f, inr (nth n (f_stack f) 0)).
Proof.
  intros Hn. destruct (lookup_lt_is_Some_2 _ _ Hn) as [x Ex]. unfold Back, mbind, SM_bind, gets, must. cbn. rewrite Ex.
  by rewrite (nth_lookup_Some _ _ 0 x).
Qed.

Lemma run_mem_size a b (f : frame D) : (a < length (f_stack f))%nat -> (b < length (f_stack f))%nat -> mem_size a b f = Ok (f, inr (need a b (f_stack f))).
Proof. intros Ha Hb. unfold mem_size, mbind, SM_bind. rewrite run_Back by done. cbn. by rewrite run_Back. Qed.

Lemma memory_need n a b : (a < n)%nat -> (b < n)%nat -> memory_is n (need a b) (Some (mem_size a b)).
Proof. intros Ha Hb f Hst Hn. split; [by apply need_nonneg|]. apply run_mem_size; lia. Qed.

Lemma memory_const n a len : (a < n)%nat -> is_word len -> memory_is n (need_const a len) (Some (o ← Back a; mret (calcMemSize o len))).
Proof.
  intros Ha Hl f Hst Hn. split; [apply calcMemSize_nonneg; [by apply nth_word|done]|]. unfold mbind, SM_bind. by rewrite run_Back by lia.
Qed.

Lemma memory_two n a b c d :
  (a < n)%nat -> (b < n)%nat -> (c < n)%nat -> (d < n)%nat ->
  memory_is n (need_call a b c d) (Some (x ← mem_size a b; y ← mem_size c d; mret (BigMax x y))).
Proof.
  intros Ha Hb Hc Hd f Hst Hn. unfold need_call. split; [rewrite BigMax_max; pose proof (need_nonneg a b _ Hst); lia|].
  unfold mbind, SM_bind. rewrite run_mem_size by lia. cbn. by rewrite run_mem_size by lia.
Qed.

(** A computation on two words gives a word. *)
Ltac binary_word :=
  let x := fresh "x" in let y := fresh "y" in let Hx := fresh "Hx" in let Hy := fresh "Hy" in let Hw := fresh "Hw" in
  intros x y Hx Hy; pose proof (word_binary x y Hx Hy) as Hw; rewrite !Forall_cons in Hw; decompose [and] Hw; first [assumption|auto with words].

(** The row of a computation. *)
Ltac computation :=
  first [ apply (good_const 2 1); [done|done|done|apply op2_ok; binary_word]
        | apply (good_const 1 1); [done|done|done|apply op1_ok; intros; first [apply word_U256|apply word_of_bool|unfold w_iszero; word_cases]]
        | apply (good_const 3 1); [done|done|done|apply op3_ok; intros; unfold w_addmod, w_mulmod; word_cases] ].

Lemma arith_good : Forall good (@arith_ops D env).
Proof.
  repeat apply Forall_cons_2; try apply Forall_nil_2; try computation.
  - exists 0%nat, 0%nat, no_memory, nothing, always_ok, 0. split; cbn; try done; [|apply opStop_ok].
    intros f sp size Hf _ _ _ Hs. rewrite Hs by done. by apply constGas_ok.
  - apply (good_plain 2 1); [done|done| |apply op2_ok; binary_word]. intros f sp Hf Hn.
    eapply wp_mono; [apply (gasExp_ok (db_is := db_is) T env f sp); [done|lia]|]. intros ? ?. by apply gas_post_weaken.
  - by apply (good_const 2 1); [..|apply opSignExtend_ok].
Qed.

(** A row whose price is part of the table of prices. *)
Lemma good_table n p op e (x : Z) pop push :
  pop = Z.of_nat n -> push = Z.of_nat p -> 1 <= x -> exec_ok n p no_memory nothing always_ok e -> good (op, plain_op e (fun _ => mret x) pop push).
Proof. apply good_const. Qed.

(** The prices that begin with the memory. *)
Lemma good_copy n M op e g len pop m :
  pop = Z.of_nat n -> memory_is n M (Some m) -> (len < n)%nat -> in_u64 g -> 1 <= g ->
  exec_ok n 0 M nothing always_ok e -> good (op, mem_op e (copy_gas g len) pop 0 m).
Proof. intros Hn Hm Hl Hu Hg He. eapply (good_mem n 0 M); [done|done|done|exact Hg| |done]. intros f sp size Hf Hle Hs. apply copy_gas_ok; try done. lia. Qed.

Lemma good_access n p M op e g pop push m :
  pop = Z.of_nat n -> push = Z.of_nat p -> memory_is n M (Some m) -> in_u64 g -> 1 <= g ->
  exec_ok n p M nothing always_ok e -> good (op, mem_op e (access_gas g) pop push m).
Proof. intros Hn Hp Hm Hu Hg He. eapply (good_mem n p M); [done|done|done|exact Hg| |done]. intros f sp size Hf Hle Hs. by apply access_gas_ok. Qed.

Create HintDb evm_exec.
#[local] Hint Resolve opAddress_ok opCaller_ok opCallDataSize_ok opCodeSize_ok opGas_ok opReturnDataSize_ok opOrigin_ok opGasprice_ok opCoinbase_ok
  opTimestamp_ok opNumber_ok opDifficulty_ok opGasLimit_ok opCallValue_ok opBlockhash_ok opCallDataLoad_ok opCallDataCopy_ok opCodeCopy_ok
  opReturnDataCopy_ok opBalance_ok opExtCodeSize_ok opExtCodeHash_ok opSload_ok opExtCodeCopy_ok opSha3_ok opSstore_ok makeLog_ok opSuicide_ok
  opPop_ok opJumpdest_ok opPc_ok opJump_ok opJumpi_ok opMload_ok opMstore_ok opMstore8_ok opMsize_ok opReturn_ok opRevert_ok : evm_exec.
#[local] Hint Resolve memory_need memory_const memory_two : evm_exec.

Tactic Notation "const_row" constr(n) constr(p) := apply (good_const n p); [done|done|done|auto with evm_exec].

Lemma context_good : Forall good (@context_ops _ _ D _ env).
Proof.
  repeat apply Forall_cons_2; try apply Forall_nil_2; try const_row 0%nat 1%nat; try const_row 1%nat 1%nat.
  all: pose proof (gasTable_ok env) as [].
  - eapply (good_mem 2 1 (need 0 1)); [done|done|apply memory_need; lia| |intros f sp size Hf Hn Hs; apply gasSha3_ok; [done|done|lia]|auto with evm_exec]; lia.
  - apply (good_table 1 1); [done|done|lia|auto with evm_exec].
  - apply (good_copy 3 (need 0 2)); [done|apply memory_need; lia|lia|by apply in_u64_const|done|auto with evm_exec].
  - apply (good_copy 3 (need 0 2)); [done|apply memory_need; lia|lia|by apply in_u64_const|done|auto with evm_exec].
  - apply (good_table 1 1); [done|done|lia|auto with evm_exec].
  - apply (good_copy 4 (need 1 3)); [done|apply memory_need; lia|lia|unfold in_u64; lia|lia|auto with evm_exec].
Qed.

Lemma control_good : Forall good (@control_ops D _ env).
Proof.
  repeat apply Forall_cons_2; try apply Forall_nil_2; try const_row 0%nat 1%nat; try const_row 1%nat 0%nat; try const_row 0%nat 0%nat.
  all: pose proof (gasTable_ok env) as [].
  - apply (good_access 1 1 (need_const 0 32)); [done|done|apply memory_const; [lia|by apply word_small]|by apply in_u64_const|done|auto with evm_exec].
  - apply (good_access 2 0 (need_const 0 32)); [done|done|apply memory_const; [lia|by apply word_small]|by apply in_u64_const|done|auto with evm_exec].
  - apply (good_access 2 0 (need_const 0 1)); [done|done|apply memory_const; [lia|by apply word_small]|by apply in_u64_const|done|auto with evm_exec].
  - apply (good_table 1 1); [done|done|lia|auto with evm_exec].
  - exists 2%nat, 0%nat, no_memory, nothing, (may_write env), 1. split; cbn; try done; [|apply opSstore_ok|intros f Hal _; by apply (allowed_writes _ _ _ Hal)].
    intros f sp size Hf Hn Hal _ Hs. rewrite Hs by done. apply gasSStore_ok; [done|lia|by apply (allowed_writes _ _ _ Hal)].
  - apply (good_jump 1); [done|done|done|auto with evm_exec].
  - apply (good_jump 2); [done|done|done|auto with evm_exec].
Qed.

Lemma family_good (F : nat -> Z * operation D) a n : (forall i, (a <= i < a + n)%nat -> good (F i)) -> Forall good (map F (seq a n)).
Proof. intros HF. apply Forall_fmap, Forall_seq. exact HF. Qed.

Lemma push_good : Forall good (@push_ops _ D).
Proof. apply family_good. intros i Hi. apply (good_table 0 1); [done|done|done|]. apply makePush_ok. lia. Qed.
Lemma dup_good : Forall good (@dup_ops D).
Proof. apply family_good. intros i Hi. apply (good_table i (i + 1)); [done|lia|done|]. apply makeDup_ok. lia. Qed.
Lemma swap_good : Forall good (@swap_ops D).
Proof. apply family_good. intros i Hi. apply (good_table (i + 1) (i + 1)); [lia|lia|done|]. apply makeSwap_ok. Qed.
Lemma log_good : Forall good (@log_ops D _ env).
Proof.
  apply family_good. intros i Hi. exists (i + 2)%nat, 0%nat, (need 0 1), nothing, (may_write env), 375.
  split; cbn [memorySize writing mem_op pops pushes execute gasCost fst snd]; [lia|done|apply memory_need; lia| |apply makeLog_ok| |done|cbn; lia].
  - intros f sp size Hf Hn _ Hs _. apply makeGasLog_ok; [done|done|lia|lia].
  - intros f Hal _. by apply (allowed_writes _ _ _ Hal).
Qed.

(** ** The rows that run contracts *)

Context (R : Contract -> list Z -> SM (EVM D) Empty_set run_result) (HR : run_spec (db_is := db_is) T env N R).

Lemma hand_on_same v (f f' : frame D) : f_stack f = f_stack f' -> f_evm f = f_evm f' -> hand_on v f = hand_on v f'.
Proof. unfold hand_on, stipend. by intros -> ->. Qed.

(** A call: the price covers what it hands on. *)
Lemma good_call n M v ok op e g pop m :
  pop = Z.of_nat n -> memory_is n M (Some m) ->
  (forall f sp size, frame_ok f sp -> (n <= length (f_stack f))%nat -> in_u64 size -> wp (g size) (gas_post size 1 (hand_on v) f sp) f) ->
  exec_ok n 1 M (hand_on v) ok e -> (forall o f, allowed op o f -> enough N (hand_on v) f -> ok f) -> good (op, returning (mem_op e g pop 1 m)).
Proof.
  intros -> Hm Hg He Hok. exists n, 1%nat, M, (hand_on v), ok, 1. split; cbn; try done; auto.
  - intros f Hal Hen. eapply Hok; [exact Hal|by apply Hen].
  - apply hand_on_same.
Qed.

(** A creation. *)
Lemma good_create n op e g pop m :
  pop = Z.of_nat n -> memory_is n (need 1 2) (Some m) -> in_u64 g -> 1 <= g ->
  exec_ok n 1 (need 1 2) nothing (may_create env N) e -> good (op, returning (writing (mem_op e (access_gas g) pop 1 m))).
Proof.
  intros -> Hm Hu Hg He. exists n, 1%nat, (need 1 2), nothing, (may_create env N), g. split; cbn; try done; auto.
  - intros f sp size Hf _ _ Hs _. by apply access_gas_ok.
  - intros f Hal Hen. split; [by apply Hen|]. by apply (allowed_writes _ _ _ Hal).
  - lia.
Qed.

(** An instruction that ends the run and hands back memory. *)
Lemma good_ending op e (o : operation D) :
  o = halting (mem_op e memory_gas 2 0 (mem_size 0 1)) \/ o = returning (reverting (mem_op e memory_gas 2 0 (mem_size 0 1))) ->
  exec_ok 2 0 (need 0 1) nothing always_ok e -> good (op, o).
Proof.
  intros Ho He. exists 2%nat, 0%nat, (need 0 1), nothing, always_ok, 0. destruct Ho as [-> | ->]; split; cbn; try done; try (apply memory_need; lia).
  all: intros f sp size Hf _ _ Hs _; by apply memory_gas_ok.
Qed.

Lemma system_good : Forall good (system_ops env R).
Proof.
  repeat apply Forall_cons_2; try apply Forall_nil_2.
  - apply (good_create 3); [done|apply memory_need; lia|by apply in_u64_const|done|by apply opCreate_ok].
  - apply (good_call 7 (need_call 5 6 3 4) true (call_allowed env N)); [done|apply memory_two; lia|intros; by apply gasCall_ok|by apply opCall_ok|].
    intros o f Hal Hen. split; [done|]. intros Hs. by apply Hal.
  - apply (good_call 7 (need_call 5 6 3 4) true (enough N (hand_on true))); [done|apply memory_two; lia|intros; by apply gasCallCode_ok|by apply opCallCode_ok|done].
  - eapply good_ending; [by left|apply opReturn_ok].
  - exists 1%nat, 0%nat, no_memory, nothing, (may_write env), 0. split; cbn; try done; [|by apply opSuicide_ok|intros f Hal _; by apply (allowed_writes _ _ _ Hal)].
    intros f sp size Hf Hn Hal _ Hs. rewrite Hs by done. apply gasSuicide_ok; [done|lia|by apply (allowed_writes _ _ _ Hal)].
Qed.

Lemma frontier_good : Forall good (newFrontierInstructionSet env R).
Proof. repeat apply Forall_app_2; [apply arith_good|apply context_good|apply control_good|apply push_good|apply dup_good|apply swap_good|apply log_good|apply system_good]. Qed.

Lemma homestead_good : Forall good (newHomesteadInstructionSet env R).
Proof.
  apply Forall_cons_2; [|apply frontier_good].
  apply (good_call 6 (need_call 4 5 2 3) false (enough N (hand_on false))); [done|apply memory_two; lia|intros; apply plain_call_ok; [done|lia|done]|by apply opDelegateCall_ok|done].
Qed.

Lemma byzantium_good : Forall good (newByzantiumInstructionSet env R).
Proof.
  apply Forall_app_2; [|apply homestead_good]. repeat apply Forall_cons_2; try apply Forall_nil_2; try const_row 0%nat 1%nat.
  - apply (good_call 6 (need_call 4 5 2 3) false (enough N (hand_on false))); [done|apply memory_two; lia|intros; apply plain_call_ok; [done|lia|done]|by apply opStaticCall_ok|done].
  - apply (good_copy 3 (need 0 2)); [done|apply memory_need; lia|lia|by apply in_u64_const|done|auto with evm_exec].
  - eapply good_ending; [by right|apply opRevert_ok].
Qed.

Lemma constantinople_good : env_is IsConstantinople env = true -> Forall good (newConstantinopleInstructionSet env R).
Proof.
  intros Hc. apply Forall_app_2; [|apply byzantium_good]. repeat apply Forall_cons_2; try apply Forall_nil_2; try computation.
  - apply (good_table 1 1); [done|done|by rewrite (gasTable_constantinople env Hc)|auto with evm_exec].
  - apply (good_create 4); [done|apply memory_need; lia|by apply in_u64_const|done|by apply opCreate2_ok].
Qed.

Lemma jump_table_good : Forall good (jump_table env R).
Proof.
  unfold jump_table. destruct (env_is IsConstantinople env) eqn:E; [by apply constantinople_good|].
  destruct (env_is IsByzantium env); [apply byzantium_good|]. destruct (env_is IsHomestead env); [apply homestead_good|apply frontier_good].
Qed.

Lemma find_op_elem op (l : list (Z * operation D)) o : find_op op l = Some o -> (op, o) ∈ l.
Proof.
  induction l as [|[op' o'] l IH]; cbn [find_op]; [done|]. case_bool_decide as E; [|intros Hf; apply elem_of_cons; right; by apply IH].
  intros [= ->]. subst. apply elem_of_cons. by left.
Qed.

Lemma find_op_good op o : find_op op (jump_table env R) = Some o -> good (op, o).
Proof. intros Hf%find_op_elem. pose proof jump_table_good as Hg. rewrite Forall_forall in Hg. by apply Hg. Qed.

(** Behind the code there is a STOP. *)
Lemma stop_halts o : find_op STOP (jump_table env R) = Some o -> halts o = true.
Proof. unfold jump_table. repeat destruct (env_is _ _); cbn; by intros [= <-]. Qed.

Lemma call_pops o : find_op CALL (jump_table env R) = Some o -> pops o = 7.
Proof. unfold jump_table. repeat destruct (env_is _ _); cbn; by intros [= <-]. Qed.

(** ** A round *)

(** Where a frame is after a round; it is the last one if [stop]. *)
Definition stack_fits (f : frame D) : Prop := Z.of_nat (length (f_stack f)) <= StackLimit.
Definition round_post (stop : bool) (f : frame D) (sp : spec) (f' : frame D) (r : vm_error + flow) : Prop :=
  exists sp', leads (f_evm f) sp (f_evm f') sp' /\ 0 <= c_Gas (f_contract f') <= c_Gas (f_contract f) /\
    match r with
    | inl _ => True
    | inr (Done res _) => data_ok res
    | inr Continue =>
        stop = false /\ frame_ok f' sp' /\ stack_fits f' /\ (exists g, f_contract f' = set_gas g (f_contract f)) /\
        c_Gas (f_contract f') < c_Gas (f_contract f) /\ 0 <= f_pc f' <= Z.max (f_pc f + 32) (2 ^ 60) + 1
    end.

Lemma round_err stop f sp e : frame_ok f sp -> round_post stop f sp f (inl e).
Proof. intros Hf. exists sp. split; [apply leads_refl, Hf|]. pose proof (co_gas _ (fo_contract _ _ _ Hf)) as Hg. unfold gas_ok in Hg. lia. Qed.

Lemma wp_makeStackFunc n p f (Q : frame D -> vm_error + unit -> Prop) :
  (forall e, Q f (inl e)) ->
  ((n <= length (f_stack f))%nat -> Z.of_nat (length (f_stack f)) + Z.of_nat p - Z.of_nat n <= StackLimit -> Q f (inr tt)) ->
  wp (makeStackFunc (Z.of_nat n) (Z.of_nat p)) Q f.
Proof.
  intros He Hk. unfold makeStackFunc, require. apply wp_bind, wp_bind, wp_gets. cbn [and_then]. case_bool_decide; [apply wp_throw; apply He|].
  apply wp_ret. cbn [and_then]. apply wp_bind, wp_gets. cbn [and_then]. case_bool_decide; [by apply wp_throw|]. apply wp_ret, Hk; lia.
Qed.

Lemma wp_enforce op o f n (Q : frame D -> vm_error + unit -> Prop) :
  Forall is_word (f_stack f) -> (op = CALL -> n = 7%nat) -> (n <= length (f_stack f))%nat ->
  (forall e, Q f (inl e)) -> (allowed op o f -> Q f (inr tt)) -> wp (enforceRestrictions env op o) Q f.
Proof.
  intros Hst Hcall Hn He Hk. unfold enforceRestrictions. apply wp_bind, wp_gets. cbn [and_then]. unfold allowed, static in Hk.
  destruct (env_is IsByzantium env && e_readOnly (f_evm f)); [|by apply wp_ret, Hk]. apply wp_bind.
  destruct (writes o); [apply wp_ret; by apply wp_throw|]. destruct (bool_decide_reflect (op = CALL)) as [Eop|Eop].
  - destruct (lookup_lt_is_Some_2 (f_stack f) 2) as [x Ex]; [rewrite (Hcall Eop) in Hn; lia|].
    apply wp_bind. eapply wp_Back; [exact Ex|]. cbn [and_then]. apply wp_ret. cbn [and_then]. case_bool_decide as Eb; [by apply wp_throw|].
    apply wp_ret, Hk. intros _. split; [done|]. intros _. rewrite Ex. f_equal. pose proof (Forall_lookup_1 _ _ _ _ Hst Ex) as [Hx _].
    pose proof (BitLen_bound x 0 ltac:(lia) ltac:(lia)). lia.
  - apply wp_ret. cbn [and_then]. by apply wp_ret, Hk.
Qed.

Lemma wp_needed_memory o n M f (Q : frame D -> vm_error + Z -> Prop) :
  memory_is n M (memorySize o) -> Forall is_word (f_stack f) -> (n <= length (f_stack f))%nat ->
  (forall e, Q f (inl e)) -> (forall size, in_u64 size -> M (f_stack f) <= size -> (memorySize o = None -> size = 0) -> Q f (inr size)) ->
  wp (needed_memory o) Q f.
Proof.
  intros Hm Hst Hn He Hk. unfold needed_memory. destruct (memorySize o) as [m|]; cbn [memory_is] in Hm.
  2:{ apply wp_ret, Hk; [by apply in_u64_const|by subst M|done]. }
  destruct (Hm f Hst Hn) as [H0' E]. apply wp_bind. eapply wp_run; [exact E|]. cbn [and_then].
  destruct (bigUint64_ok _ H0') as [[-> Hlt]|[E2 _]].
  2:{ destruct (bigUint64 (M (f_stack f))) as [x o2]. cbn in E2. subst o2. by apply wp_throw. }
  assert (in_u64 (M (f_stack f))) as Hu by (unfold in_u64; lia).
  apply wp_safe_mul; [by apply in_u64_words|by apply in_u64_const|apply He|]. intros Hu2. apply Hk; [done| |done].
  destruct (toWordSize_ok _ Hu). lia.
Qed.

Lemma wp_charge cost f (Q : frame D -> vm_error + unit -> Prop) :
  0 <= cost -> gas_ok (c_Gas (f_contract f)) -> Q f (inl ErrOutOfGas) ->
  (cost <= c_Gas (f_contract f) -> Q (set_contract (set_gas (c_Gas (f_contract f) - cost) (f_contract f)) f) (inr tt)) -> wp (charge cost) Q f.
Proof.
  intros Hc Hg He Hk. unfold gas_ok in Hg. unfold charge. apply wp_bind, wp_gets. cbn [and_then]. unfold UseGas. case_bool_decide; [by apply wp_throw|].
  apply wp_modify. rewrite u64_small by (unfold in_u64; lia). apply Hk. lia.
Qed.

(** Paid for and with its memory, the frame is ready for the instruction. *)
Definition ready (f : frame D) (last gas size : Z) (e : EVM D) : frame D :=
  mkFrame (f_pc f) (f_stack f) (m_Resize (mkMemory (m_store (f_mem f)) last) size) (set_gas gas (f_contract f)) e.

Lemma ready_ok f sp last gas size e sp' :
  frame_ok f sp -> leads (f_evm f) sp e sp' -> in_u64 last -> gas_ok gas -> size <= MemoryLimit ->
  frame_ok (ready f last gas size e) sp' /\ size <= m_Len (f_mem (ready f last gas size e)).
Proof.
  intros [He Hst (Hb & Hl & _) Hc] Hle Hlast Hg Hs. destruct (m_Resize_ok (mkMemory (m_store (f_mem f)) last) size Hb) as [Hb' Hl'].
  unfold m_Len in Hl'. cbn [m_store] in Hl'. unfold m_Len in Hl. unfold ready. cbn [f_mem]. split; [|unfold m_Len; lia]. split; cbn [f_evm f_stack f_mem f_contract].
  - by eapply leads_is.
  - done.
  - split; [done|]. split; [unfold m_Len; lia|]. unfold m_Resize. by case_bool_decide.
  - by apply contract_ok_gas.
Qed.

Lemma leads_returnData e sp d : evm_is e sp -> data_ok d -> leads e sp (set_returnData d e) sp.
Proof. intros He Hd. destruct (leads_refl T env e sp He). by split. Qed.

(** The instruction itself, and what follows it. *)
Lemma wp_after op o n p M hand ok k f sp f1 sp1 :
  op_ok op o n p M hand ok k -> leads (f_evm f) sp (f_evm f1) sp1 -> frame_ok f1 sp1 -> (n <= length (f_stack f1))%nat -> M (f_stack f1) <= m_Len (f_mem f1) ->
  Z.of_nat (length (f_stack f1)) + Z.of_nat p - Z.of_nat n <= StackLimit -> ok f1 -> 0 <= hand f1 ->
  c_Gas (f_contract f1) + hand f1 + k <= c_Gas (f_contract f) -> (exists g, f_contract f1 = set_gas g (f_contract f)) -> f_pc f1 = f_pc f ->
  0 <= f_pc f < 2 ^ 61 -> wp (handle (execute o) (after o)) (round_post (halts o) f sp) f1.
Proof.
  intros Hop Hl Hf1 Hn HM Hlim Hok Hh Hgas [g Ec] Epc Hpc. apply wp_handle. eapply wp_mono; [apply (oo_exec _ _ _ _ _ _ _ _ Hop f1 sp1); try done; by rewrite Epc|].
  intros f' r (sp' & Hl' & Hg' & Hr). destruct (oo_k _ _ _ _ _ _ _ _ Hop) as [Hk0 Hk1]. unfold after. apply wp_bind.
  apply (wp_mono _ (fun f2 u => u = inr tt /\ exists e, f2 = set_evm e f' /\ leads (f_evm f') sp' e sp')).
  { destruct (returns o).
    - apply wp_zoom, wp_modify. split; [done|]. eexists. split; [reflexivity|]. apply leads_returnData; [by eapply leads_is|].
      destruct r as [?|res]; [apply data_ok_nil|apply Hr].
    - apply wp_ret. split; [done|]. exists (f_evm f'). rewrite set_evm_same. split; [done|]. apply leads_refl. by eapply leads_is. }
  intros f2 u (-> & e & -> & Hl2). cbn [and_then]. assert (leads (f_evm f) sp e sp') as Hle by (eapply leads_trans; [exact Hl|by eapply leads_trans]).
  destruct r as [err|res]; [apply wp_throw; exists sp'; cbn [set_evm f_evm f_contract]; split; [done|]; lia|]. destruct Hr as (Hres & Hf' & [g' Ec'] & Hlen & Hpc').
  destruct (reverts o) eqn:Er; [apply wp_ret; exists sp'; cbn [set_evm f_evm f_contract]; split_and!; [done|lia|lia|done]|].
  destruct (halts o) eqn:Eh; [apply wp_ret; exists sp'; cbn [set_evm f_evm f_contract]; split_and!; [done|lia|lia|done]|]. specialize (Hk1 eq_refl eq_refl).
  assert (forall pc', 0 <= pc' <= Z.max (f_pc f + 32) (2 ^ 60) + 1 -> round_post false f sp (set_pc pc' (set_evm e f')) (inr Continue)) as Hgo.
  { intros pc' Hpc2. exists sp'. cbn [set_pc set_evm f_evm f_contract]. split; [done|]. split; [lia|]. split; [done|]. split; [|split; [|split; [|split; [lia|done]]]].
    - destruct Hf'. split; try done. cbn. by eapply leads_is.
    - unfold stack_fits. cbn [set_pc set_evm f_stack]. lia.
    - exists g'. rewrite Ec', Ec. by destruct (f_contract f). }
  rewrite Epc in Hpc'. destruct (jumps o).
  - apply wp_ret. specialize (Hgo (f_pc f') ltac:(lia)). by destruct f'.
  - apply wp_bind, wp_modify. cbn [and_then]. apply wp_ret. cbn [set_evm f_pc]. rewrite u64_small by (unfold in_u64; lia). apply Hgo. lia.
Qed.

Lemma resize_zero m : m_Resize m 0 = m.
Proof. unfold m_Resize. rewrite bool_decide_false; [done|]. unfold m_Len. lia. Qed.

Lemma round_err_priced stop f sp last e sp' err :
  frame_ok f sp -> leads (f_evm f) sp e sp' -> round_post stop f sp (priced f last e) (inl err).
Proof. intros Hf Hl. exists sp'. split; [done|]. pose proof (co_gas _ (fo_contract _ _ _ Hf)) as Hg. unfold gas_ok in Hg. cbn. lia. Qed.

Lemma perform_ok op o f sp :
  find_op op (jump_table env R) = Some o -> frame_ok f sp -> 0 <= f_pc f < 2 ^ 61 -> c_Gas (f_contract f) <= N -> wp (perform env op o) (round_post (halts o) f sp) f.
Proof.
  intros Hfind Hf Hpc HN. destruct (find_op_good _ _ Hfind) as (n & p & M & hand & ok & k & Hop). cbn [fst snd] in Hop.
  pose proof (fo_stack _ _ _ Hf) as Hst. pose proof (co_gas _ (fo_contract _ _ _ Hf)) as Hg. pose proof Hg as Hg2. unfold gas_ok in Hg2.
  destruct (oo_k _ _ _ _ _ _ _ _ Hop) as [Hk0 _]. unfold perform. rewrite (oo_pops _ _ _ _ _ _ _ _ Hop), (oo_pushes _ _ _ _ _ _ _ _ Hop).
  apply wp_bind, wp_makeStackFunc; [intros; by apply round_err|]. intros Hn Hlim. cbn [and_then].
  apply wp_bind, (wp_enforce op o f n); [done| |done|intros; by apply round_err|].
  { intros ->. apply call_pops in Hfind. rewrite (oo_pops _ _ _ _ _ _ _ _ Hop) in Hfind. lia. }
  intros Hal. cbn [and_then]. apply wp_bind. eapply (wp_needed_memory o n M f); [by apply Hop|done|done|intros; by apply round_err|].
  intros size Hu HM Hnone. cbn [and_then]. apply wp_bind, wp_with_err. eapply wp_mono; [by apply (oo_gas _ _ _ _ _ _ _ _ Hop f sp size)|].
  intros f' r (last & e & sp' & -> & Hlast & Hl & Hr). destruct r as [err|cost]; cbn [and_then]; [by apply (round_err_priced _ f sp last e sp')|].
  destruct Hr as (Hh & Hcost & Hsize). apply wp_bind, wp_charge; [lia|done|by apply (round_err_priced _ f sp last e sp')|]. intros Hle. cbn [and_then].
  cbn [priced set_contract f_contract f_pc f_stack f_mem f_evm] in *. set (gas := c_Gas (f_contract f) - cost).
  assert (gas_ok gas) as Hgas by (unfold gas_ok; lia). destruct (ready_ok f sp last gas size e sp' Hf Hl Hlast Hgas Hsize) as [Hf1 HM1].
  assert (hand (ready f last gas size e) = hand (priced f last e)) as Eh by by apply (oo_hand _ _ _ _ _ _ _ _ Hop).
  apply wp_bind. apply (wp_mono _ (fun f1 u => u = inr tt /\ f1 = ready f last gas size e)).
  { unfold in_u64 in Hu. case_bool_decide; [by apply wp_modify|]. apply wp_ret. replace size with 0 by lia. unfold ready. by rewrite resize_zero. }
  intros f1 u [-> ->]. cbn [and_then]. eapply (wp_after op o n p M hand ok k f sp _ sp'); try done.
  - by etrans; [|exact HM1].
  - apply (oo_ok _ _ _ _ _ _ _ _ Hop).
    + intros Hs. apply Hal. rewrite <- Hs. symmetry. by eapply static_leads.
    + intros Hk. unfold enough. rewrite Eh. cbn [ready f_contract set_gas c_Gas]. lia.
  - by rewrite Eh.
  - rewrite Eh. cbn [ready f_contract set_gas c_Gas]. lia.
  - by exists gas.
Qed.

Lemma round_ok f sp :
  frame_ok f sp -> 0 <= f_pc f < 2 ^ 61 -> c_Gas (f_contract f) <= N ->
  wp (round env R) (fun f' r => round_post false f sp f' r /\ (r = inr Continue -> f_pc f' < 2 ^ 61)) f.
Proof.
  intros Hf Hpc HN. unfold round. apply wp_bind, wp_gets. cbn [and_then]. apply wp_bind, wp_gets. cbn [and_then].
  destruct (find_op _ _) as [o|] eqn:E; [|apply wp_throw; split; [by apply round_err|done]].
  eapply wp_mono; [by apply (perform_ok _ o f sp)|]. intros f' r Hr. split.
  - destruct Hr as (sp' & ? & ? & Hr). exists sp'. split_and!; try done; try lia. destruct r as [|[]]; try done. naive_solver.
  - intros ->. destruct Hr as (sp' & _ & _ & Hs & _ & _ & _ & _ & Hpc'). assert (f_pc f < 2 ^ 60); [|lia].
    destruct (decide (f_pc f < 2 ^ 60)) as [|Hge]; [done|]. exfalso. pose proof (co_code _ (fo_contract _ _ _ Hf)) as [_ Hlen].
    unfold GetOp, GetByte in E. rewrite bool_decide_false in E by lia. apply stop_halts in E. congruence.
Qed.

End rows.

(** ** Runs *)

Definition loop_post (f : frame D) (sp : spec) (f' : frame D) (r : Empty_set + list Z * option vm_error) : Prop :=
  exists sp' ret err, r = inr (ret, err) /\ leads (f_evm f) sp (f_evm f') sp' /\ 0 <= c_Gas (f_contract f') <= c_Gas (f_contract f) /\ data_ok ret.

Definition loop_spec (fuel : nat) : Prop :=
  forall f sp, frame_ok f sp -> 0 <= f_pc f < 2 ^ 61 -> c_Gas (f_contract f) < Z.of_nat fuel -> wp (run_loop env fuel) (loop_post f sp) f.

Lemma mem_ok_new : mem_ok NewMemory.
Proof. split; [apply Forall_nil_2|]. split; [done|by apply in_u64_const]. Qed.

(** A run of a contract, given the loop. *)
Lemma Run_ok fuel : loop_spec fuel -> run_spec (db_is := db_is) T env (Z.of_nat fuel) (Run (run_loop env fuel)).
Proof.
  intros Hloop c input e sp Hc Hi Hg He. unfold Run. apply wp_bind, wp_modify. cbn [and_then]. apply wp_bind, wp_modify. cbn [and_then].
  set (e1 := set_returnData [] (set_depth (e_depth e + 1) e)). assert (evm_is e1 sp) as He1 by (destruct He; split; try done; apply data_ok_nil).
  apply wp_bind, (wp_mono _ (run_post (db_is := db_is) T env c e1 sp)).
  - case_bool_decide as Ec.
    { apply wp_ret. exists c, [], None, sp. pose proof (co_gas _ Hc) as Hg0. unfold gas_ok in Hg0. split; [done|]. split; [lia|]. split; [apply data_ok_nil|by apply leads_refl]. }
    destruct (wp_inv _ _ _ (Hloop (mkFrame 0 [] NewMemory (set_input input c) e1) sp
      ltac:(split; [done|apply Forall_nil_2|apply mem_ok_new|by destruct Hc; split]) ltac:(cbn; lia) Hg)) as (f' & r & Er & sp' & ret & err & -> & Hl & Hg' & Hret).
    unfold wp. rewrite Er. by exists (f_contract f'), ret, err, sp'.
  - intros e' r (c' & ret & err & sp' & -> & Hg' & Hret & Hl). cbn [and_then]. apply wp_bind, wp_modify. cbn [and_then]. apply wp_ret.
    exists c', ret, err, sp'. split_and!; try done; try lia. pose proof (ld_depth _ _ _ _ _ _ Hl) as Ed. cbn in Ed. rewrite Ed, Z.add_simpl_r.
    destruct Hl. by split.
Qed.

(** More fuel than gas is enough. *)
Lemma run_loop_ok fuel : loop_spec fuel.
Proof.
  induction fuel as [|fuel IH]; intros f sp Hf Hpc Hg; pose proof (co_gas _ (fo_contract _ _ _ Hf)) as Hg0; unfold gas_ok in Hg0; [lia|].
  cbn [run_loop]. apply wp_bind, wp_gets. cbn [and_then]. destruct (e_abort _).
  { apply wp_ret. exists sp, [], None. split; [done|]. split; [apply leads_refl, Hf|]. split; [lia|apply data_ok_nil]. }
  apply wp_handle. eapply wp_mono; [apply (round_ok (Z.of_nat fuel) _ (Run_ok fuel IH) f sp); [done|done|lia]|].
  intros f' r [(sp' & Hl & Hg' & Hr) Hpc']. destruct r as [err|[|res err]].
  - apply wp_ret. exists sp', [], (Some err). split_and!; try done; try lia. apply data_ok_nil.
  - destruct Hr as (_ & Hf' & _ & _ & Hlt & Hpc2). eapply wp_mono; [apply (IH f' sp'); [done|split; [lia|by apply Hpc']|lia]|].
    intros f2 r2 (sp2 & ret & err & -> & Hl2 & Hg2 & Hret). exists sp2, ret, err. split; [done|]. split; [by eapply leads_trans|]. split; [lia|done].
  - apply wp_ret. exists sp', res, err. split_and!; try done; lia.
Qed.

End machine.
