(* ===== verification/EvmTheorems.v ===== *)
(** * What the virtual machine promises

    The theorems about the machine, over the journalled state database of
    [State.v]: instructions compute the functions on words they should, jumps go to
    jump destinations only, frames stay well formed, and calls and creations end,
    give back no more gas than they got, undo what they did when they fail, and
    never create value. *)

From S2P Require Import Prelude Common TrieEncoding Trie TrieSpec TrieMap.
From S2P Require Import TrieCanon Rlp Sha3 TrieHash TrieMerkle TrieIter.
From S2P Require Import TrieIterSpec RlpRaw TrieBinding RlpStream Params DposContext.
From S2P Require Import Header Transaction Block SecureTrie State StateSpec.
From S2P Require Import EvmState EvmWord EvmCode EvmMachine EvmPrecompiles EvmCalls EvmGas EvmInstr.
From S2P Require Import EvmInterp EvmInv EvmCallSpec EvmGasSpec EvmInstrSpec EvmSpec.

(** ** Instructions *)

(** The functions on two words, the top of the stack first. *)
Definition binary_spec : list (Z * (Z -> Z -> Z)) :=
  [(ADD, fun x y => to_word (x + y)); (MUL, fun x y => to_word (x * y)); (SUB, fun x y => to_word (x - y));
   (DIV, spec_div); (SDIV, spec_sdiv); (MOD, spec_mod); (SMOD, spec_smod); (EXP, fun x y => to_word (x ^ y));
   (SIGNEXTEND, spec_signextend); (LT, fun x y => of_bool (bool_decide (x < y))); (GT, fun x y => of_bool (bool_decide (y < x)));
   (SLT, spec_slt); (SGT, fun x y => spec_slt y x); (EQ, fun x y => of_bool (bool_decide (x = y)));
   (AND, Z.land); (OR, Z.lor); (XOR, Z.lxor); (BYTE, spec_byte)].

Section instructions.
Context `{Keccak, Ecdsa, Native} `{go : Runtime} {D : Type} `{!StateOps D} (env : Env).
Context (R : Contract -> list Z -> SM (EVM D) Empty_set run_result).

(** The row of [op] turns [x] and [y] on the stack into [z]. *)
Definition computes (op x y z : Z) : Prop :=
  exists o, find_op op (jump_table env R) = Some o /\
    forall pc st m c (e : EVM D), execute o (mkFrame pc (x :: y :: st) m c e) = Ok (mkFrame pc (z :: st) m c e, inr []).

Lemma computes_op2 op f g pop push x y z :
  find_op op (jump_table env R) = Some (plain_op (op2 f) g pop push) -> f x y = z -> computes op x y z.
Proof. intros Ho <-. eexists. split; [exact Ho|]. done. Qed.

(** A row all phases have. *)
Ltac row := unfold jump_table; repeat destruct (env_is _ _); reflexivity.

(** C25: functional.  Whatever the phase of the chain, the opcodes ADD, MUL, SUB,
    DIV, SDIV, MOD, SMOD, EXP, SIGNEXTEND, LT, GT, SLT, SGT, EQ, AND, OR, XOR and
    BYTE replace two words by what they should: arithmetic modulo 2^256, division
    with zero for a zero divisor, the signed ones on two's complement and truncating,
    powers by squaring equal to powers, the sign extension and the byte of a word. *)
Theorem arithmetic_exact op g x y :
  (op, g) ∈ binary_spec -> is_word x -> is_word y -> computes op x y (g x y).
Proof.
  intros Hin Hx Hy. unfold binary_spec in Hin. repeat (apply elem_of_cons in Hin as [[= -> ->]|Hin]); [..|by apply elem_of_nil in Hin].
  - eapply computes_op2; [row|apply U256_mod].
  - eapply computes_op2; [row|apply U256_mod].
  - eapply computes_op2; [row|apply U256_mod].
  - eapply computes_op2; [row|by apply w_div_spec].
  - eapply computes_op2; [row|by apply w_sdiv_spec].
  - eapply computes_op2; [row|by apply w_mod_spec].
  - eapply computes_op2; [row|by apply w_smod_spec].
  - eapply computes_op2; [row|]. apply Exp_spec; [done|apply Hy].
  - exists (plain_op opSignExtend (constGasFunc GasFastStep) 2 1). split; [row|]. intros. rewrite <- w_signextend_spec by done.
    cbn [plain_op execute]. unfold opSignExtend. rewrite (sm_bind_ok pop _ _ (mkFrame pc (y :: st) m c e) x) by done. unfold w_signextend. by case_bool_decide.
  - eapply computes_op2; [row|done].
  - eapply computes_op2; [row|]. unfold w_gt. f_equal. apply bool_decide_ext. lia.
  - eapply computes_op2; [row|by apply w_slt_spec].
  - eapply computes_op2; [row|by apply w_sgt_spec].
  - eapply computes_op2; [row|done].
  - eapply computes_op2; [row|done].
  - eapply computes_op2; [row|done].
  - eapply computes_op2; [row|done].
  - eapply computes_op2; [row|by apply w_byte_spec].
Qed.

(** From Constantinople on SHL and SHR multiply and divide by a
    power of two.  SAR divides the signed word by the power of two, rounding down,
    but for a zero word and a shift of 256 or more, where it gives 2^256 - 1 and
    not zero. *)
Theorem shifts_exact n x :
  env_is IsConstantinople env = true -> is_word n -> is_word x ->
  computes SHL n x (spec_shl n x) /\ computes SHR n x (spec_shr n x) /\
  computes SAR n x (if bool_decide (256 <= n) && bool_decide (x = 0) then 2 ^ 256 - 1 else spec_sar n x).
Proof.
  intros Hc Hn Hx. split_and!; (eapply computes_op2; [unfold jump_table; rewrite Hc; reflexivity|]).
  - by apply w_shl_spec.
  - by apply w_shr_spec.
  - destruct (bool_decide_reflect (256 <= n)), (bool_decide_reflect (x = 0)); cbn [andb]; try (apply w_sar_spec; [done|done|intros; lia]).
    subst x. by apply w_sar_zero.
Qed.

End instructions.

Section jumps.
Context {D : Type}.

(** Where a jump to [pos] ends: at a jump destination, or in an error. *)
Definition jumped (pos : Z) (f : frame D) : outcome Empty_set (frame D * (vm_error + list Z)) :=
  let c := f_contract f in
  if is_jumpdest (c_Code c) (Z.to_nat pos) then Ok (set_pc pos f, inr [])
  else Ok (f, inl (errInvalidJump (GetOp c (big_Uint64 pos)) pos)).

(** C31: safety.  JUMP goes to the position on the stack when that is a JUMPDEST
    that is not data of a PUSH, and fails with the error of an invalid jump
    otherwise; JUMPI does the same when the condition is not zero and goes to the
    next instruction otherwise. *)
Theorem jump_exact pos cond pc st m c (e : EVM D) :
  is_word pos -> data_ok (c_Code c) -> 0 <= pc < 2 ^ 61 ->
  opJump (mkFrame pc (pos :: st) m c e) = jumped pos (mkFrame pc st m c e) /\
  opJumpi (mkFrame pc (pos :: cond :: st) m c e) =
    (if bool_decide (cond = 0) then Ok (mkFrame (pc + 1) st m c e, inr []) else jumped pos (mkFrame pc st m c e)).
Proof.
  intros Hpos Hcode Hpc.
  assert (forall st, jump_to pos (mkFrame pc st m c e) =
    if is_jumpdest (c_Code c) (Z.to_nat pos) then Ok (mkFrame pos st m c e, inr tt)
    else Ok (mkFrame pc st m c e, inl (errInvalidJump (GetOp c (big_Uint64 pos)) pos))) as Hj by (intros; by apply run_jump_to).
  split.
  - unfold opJump. rewrite (sm_bind_ok pop _ _ (mkFrame pc st m c e) pos) by done. unfold mbind, SM_bind. rewrite Hj. unfold jumped. by destruct (is_jumpdest _ _).
  - unfold opJumpi. rewrite (sm_bind_ok pop _ _ (mkFrame pc (cond :: st) m c e) pos), (sm_bind_ok pop _ _ (mkFrame pc st m c e) cond) by done.
    unfold mbind, SM_bind. destruct (decide (cond = 0)) as [->|Hne].
    + rewrite bool_decide_false, bool_decide_true by naive_solver. cbn. rewrite u64_small by (unfold in_u64; lia). done.
    + rewrite bool_decide_true, bool_decide_false by naive_solver. rewrite Hj. unfold jumped. by destruct (is_jumpdest _ _).
Qed.

End jumps.

(** ** Calls and creations over the state database *)

Section machine.
Context `{Keccak, Ecdsa, Native} `{go : Runtime} (dbnode : list Z -> Z -> option node) (codedb : list Z -> option (list Z)).
Context (Hdb : db_coherent dbnode) (Hcode : default [] (codedb emptyCodeHash) = []) (m : gmap (list Z) (list Z)).
Context (T : Z) (env : Env) (HT : T < 2 ^ 256) (Henv : env_ok env) (Hrecover : forall h sig, Ecrecover h sig <> Some []).

#[local] Existing Instance statedb_ops.
#[local] Instance machine_ops : StateOps StateDB := statedb_ops dbnode codedb.
#[local] Instance machine_laws : StateLaws (state_match dbnode codedb m) := statedb_laws dbnode codedb m Hdb Hcode.

Abbreviation db_is := (state_match dbnode codedb m).

(** The machine stands over the state [sp] and may write what it is asked to. *)
Abbreviation evm_is := (@EvmCallSpec.evm_is StateDB db_is T).
Abbreviation frame_ok := (@EvmGasSpec.frame_ok _ StateDB db_is T).

Lemma run_ok fuel : run_spec (db_is := db_is) T env (Z.of_nat fuel) (Run (run_loop env fuel)).
Proof. apply Run_ok, run_loop_ok; done. Qed.

(** The frame [f'] of the next round is well formed and follows [f]. *)
Definition goes_on (f f' : frame StateDB) : Prop :=
  exists sp', frame_ok f' sp' /\ stack_fits f' /\ 0 <= f_pc f' < 2 ^ 61 /\
    c_Gas (f_contract f') < c_Gas (f_contract f) /\ set_gas (c_Gas (f_contract f)) (f_contract f') = f_contract f.

(** C15: type.  A round of the loop on a well-formed frame (words of 256 bits on the
    stack, bytes in the memory, the contract and the state) neither panics nor runs
    out of fuel when there is as much fuel as gas.  If the run goes on the frame is
    well formed again, the stack holds at most 1024 words, the contract is the same but for its gas, of which
    there is less, and the program counter is a position. *)
Theorem round_typed fuel (f : frame StateDB) sp :
  frame_ok f sp -> 0 <= f_pc f < 2 ^ 61 -> c_Gas (f_contract f) <= Z.of_nat fuel ->
  exists f' r, round env (Run (run_loop env fuel)) f = Ok (f', r) /\
    (r = inr Continue -> goes_on f f').
Proof.
  intros Hf Hpc Hg. destruct (wp_inv _ _ _ (round_ok T env HT Henv Hrecover _ _ (run_ok fuel) f sp Hf Hpc Hg)) as (f' & r & E & (sp' & Hl & Hg' & Hr) & Hpc').
  exists f', r. split; [done|]. intros ->. unfold goes_on. destruct Hr as (_ & Hf' & Hst & [g Eg] & Hlt & Hpc2). exists sp'. split_and!; try done; [lia|by apply Hpc'|].
  rewrite Eg. by destruct (f_contract f).
Qed.

(** A call returns, with some of its gas. *)
Definition ends (gas : Z) (call : SM (EVM StateDB) Empty_set (list Z * Z * option vm_error)) (e : EVM StateDB) : Prop :=
  exists e' ret g err, call e = Ok (e', inr (ret, g, err)) /\ 0 <= g <= gas.

Lemma ends_post gas call e sp : wp call (call_post (db_is := db_is) T env gas e sp) e -> ends gas call e.
Proof. intros Hw. destruct (wp_inv _ _ _ Hw) as (e' & r & E & ret & g & err & sp' & -> & Hg & _). by exists e', ret, g, err. Qed.

(** The state database of [e] represents a world with [P]. *)
Definition stands_over (e : EVM StateDB) (P : world -> Prop) : Prop := exists sp, db_is (e_db e) sp /\ P (sp_world sp).

(** No set of accounts owns more than [T], and none owes anything. *)
Definition owns_at_most (w : world) : Prop := (forall l, NoDup l -> total_of (bal w) l <= T) /\ (forall a, 0 <= bal w a).

Section calls.
Context (fuel : nat) (caller : ContractRef) (addr input : list Z) (gas : Z) (e : EVM StateDB) (sp : spec).
Context (Hcaller : ref_ok caller) (Haddr : Common.address_ok addr) (Hinput : data_ok input) (Hgas : gas_ok gas) (Hfuel : gas < Z.of_nat fuel).
Context (He : evm_is e sp).

(** C6: termination.  With more fuel than gas every call ends, whatever the code it runs
    and however deep it calls: no instruction panics, no loop goes on for ever, and no
    more gas comes back than was given.  The conditions: the gas is below 2^60 and at most a
    third of [maxAlloc], the bytes [make] can allocate (2^48, so about 9 * 10^13 gas; the
    2^63 - 1 of an RPC call without a limit is more, and there [modexp_panics]); input, codes
    and return data have less than 2^60 bytes; the caller, the address, the value and the
    state are well formed, with all balances together below 2^256 (which the balance an RPC
    call gives its sender can exceed); and while nothing may be written no value is moved.  Hashes, the recovery of keys and the curve operations of the precompiled
    contracts are the interfaces [Keccak], [Ecdsa] and [Native], assumed to return. *)
Theorem call_ends value :
  is_word value -> (static env e = true -> value = 0) ->
  ends gas (evm_Call env fuel caller addr input gas value) e /\
  ends gas (evm_CallCode env fuel caller addr input gas value) e /\
  ends gas (evm_StaticCall env fuel caller addr input gas) e /\
  (forall c, caller = ContractObj c -> ends gas (evm_DelegateCall env fuel caller addr input gas) e).
Proof.
  intros Hv Hs. pose proof (run_ok fuel) as HR. split_and!.
  - eapply ends_post, (wp_Call T env Hrecover _ _ HR); done.
  - eapply ends_post, (wp_CallCode T env Hrecover _ _ HR); done.
  - eapply ends_post, wp_mono; [by apply (wp_StaticCall T env Hrecover _ _ HR)|]. intros ? ? Hp. apply Hp.
  - intros c Ec. eapply ends_post, (wp_DelegateCall T env Hrecover _ _ HR); done.
Qed.

(** C3: safety.  A call is all or nothing: when it reports an error (out of gas, an
    invalid instruction or jump, a revert, too deep, not enough balance) the state
    database represents the very world from before the call, with the value not
    moved and everything the code did, and the calls below it, undone. *)
Theorem call_atomic value :
  is_word value -> (static env e = true -> value = 0) ->
  exists e' ret g err, evm_Call env fuel caller addr input gas value e = Ok (e', inr (ret, g, err)) /\
    (err <> None -> stands_over e' (eq (sp_world sp))).
Proof.
  intros Hv Hs. destruct (wp_inv _ _ _ (wp_Call T env Hrecover _ _ (run_ok fuel) caller addr input gas e sp Hcaller Haddr Hinput Hgas Hfuel He value Hv Hs))
    as (e' & r & E & ret & g & err & sp' & -> & _ & _ & Hl & Hw). exists e', ret, g, err. split; [done|]. intros Herr. exists sp'. split; [apply Hl|by rewrite Hw].
Qed.

(** What a call that got past the guards leaves of the gas. *)
Lemma settle_call_gas snap r (e1 e' : EVM StateDB) ret g err :
  settle_call snap r e1 = Ok (e', inr (ret, g, err)) -> err = None \/ err = Some errExecutionReverted \/ g = 0.
Proof.
  destruct r as [[c ret'] [er|]]; cbn [settle_call].
  - intros [([] & _)|(e2 & [] & _ & Er)]%sm_bind_inv. injection Er as <- <- <- <-. right. case_bool_decide as Hne; [right|left; f_equal; by destruct (decide (er = errExecutionReverted))].
    unfold take_all_gas, UseGas. rewrite bool_decide_false by lia. cbn. by rewrite Z.sub_diag.
  - intros [= <- <- <- <-]. by left.
Qed.

(** How a call that moves [value] ends. *)
Definition verdict (value : Z) (e' : EVM StateDB) (ret : list Z) (g : Z) (err : option vm_error) : Prop :=
  if env_NoRecursion env && bool_decide (e_depth e > 0) then e' = e /\ ret = [] /\ g = gas /\ err = None
  else if bool_decide (e_depth e > 1024) then e' = e /\ ret = [] /\ g = gas /\ err = Some ErrDepth
  else if bool_decide (bal (sp_world sp) (ref_Address caller) < value) then ret = [] /\ g = gas /\ err = Some ErrInsufficientBalance
  else err = None \/ err = Some errExecutionReverted \/ g = 0.

(** C24: error.  The ways a call fails.  Deeper than 1024 calls, and when the caller
    cannot pay the value, it fails at once and keeps its gas; after that an error
    takes all of the gas unless it is a revert.  With recursion switched off a call
    from inside a contract does nothing. *)
Theorem call_errors value :
  is_word value -> (static env e = true -> value = 0) ->
  exists e' ret g err, evm_Call env fuel caller addr input gas value e = Ok (e', inr (ret, g, err)) /\ verdict value e' ret g err.
Proof.
  intros Hv Hs. destruct (wp_inv _ _ _ (wp_Call T env Hrecover _ _ (run_ok fuel) caller addr input gas e sp Hcaller Haddr Hinput Hgas Hfuel He value Hv Hs))
    as (e' & r & E & ret & g & err & sp' & -> & _). exists e', ret, g, err. split; [done|]. unfold verdict. unfold Call in E.
  unfold no_recursion in E. rewrite (sm_bind_ok _ _ e e (env_NoRecursion env && bool_decide (e_depth e > 0))) in E by done.
  destruct (env_NoRecursion env && bool_decide (e_depth e > 0)); [by injection E as <- <- <- <-|].
  unfold too_deep in E. rewrite (sm_bind_ok _ _ e e (bool_decide (e_depth e > 1024))) in E by done. destruct (bool_decide (e_depth e > 1024)); [by injection E as <- <- <- <-|].
  assert (wp (in_db (CanTransfer (ref_Address caller) value)) (fun _ b => b = inr (bool_decide (bal (sp_world sp) (ref_Address caller) >= value))) e) as Hcan
    by (eapply (wp_CanTransfer T env); [exact He|done]).
  destruct (wp_inv _ _ _ Hcan) as (e1 & b & Eb & ->). rewrite (sm_bind_ok _ _ _ _ _ Eb) in E. clear Hcan Eb.
  destruct (decide (bal (sp_world sp) (ref_Address caller) < value)) as [Hlt|Hge].
  { rewrite (bool_decide_false (_ >= _)) in E by lia. injection E as <- <- <- <-. by rewrite bool_decide_true. }
  rewrite (bool_decide_false (_ < _)) by done. rewrite (bool_decide_true (_ >= _)) in E by lia. cbn [negb] in E.
  apply sm_bind_inv in E as [([] & _)|(e2 & snap & _ & E)]. apply sm_bind_inv in E as [([] & _)|(e3 & ex & _ & E)].
  destruct (negb ex && _ && _ && _); [injection E as <- <- <- <-; by left|].
  apply sm_bind_inv in E as [([] & _)|(e4 & [] & _ & E)]. apply sm_bind_inv in E as [([] & _)|(e5 & [] & _ & E)].
  apply sm_bind_inv in E as [([] & _)|(e6 & c & _ & E)]. apply sm_bind_inv in E as [([] & _)|(e7 & r & _ & E)]. by eapply settle_call_gas.
Qed.

(** C14: invariant.  Calls do not create value: if no set of accounts owned more
    than [T] before, none does after, and no balance is negative, whatever the code
    did with transfers, creations and self-destruction. *)
Theorem call_supply value :
  is_word value -> (static env e = true -> value = 0) ->
  exists e' r, evm_Call env fuel caller addr input gas value e = Ok (e', inr r) /\ stands_over e' owns_at_most.
Proof.
  intros Hv Hs. destruct (wp_inv _ _ _ (wp_Call T env Hrecover _ _ (run_ok fuel) caller addr input gas e sp Hcaller Haddr Hinput Hgas Hfuel He value Hv Hs))
    as (e' & r & E & ret & g & err & sp' & -> & _ & _ & Hl & _). exists e', (ret, g, err). pose proof (so_world _ _ (mv_ok _ _ _ _ (ld_moves _ _ _ _ _ _ Hl))) as Hw.
  split; [done|]. exists sp'. split; [apply Hl|]. split; [apply Hw|]. intros a. by eapply bal_nonneg.
Qed.

(** C23: safety.  From Byzantium on a static call changes nothing: the accounts with
    their balances, nonces, codes and storage, the logs and the refund read as they
    did, also when the code calls and creates (an account nobody owns anything in may
    have come into being). *)
Theorem static_call_quiet :
  env_is IsByzantium env = true ->
  exists e' r, evm_StaticCall env fuel caller addr input gas e = Ok (e', inr r) /\ stands_over e' (same_accounts (sp_world sp)).
Proof.
  intros Hb. destruct (wp_inv _ _ _ (wp_StaticCall T env Hrecover _ _ (run_ok fuel) caller addr input gas e sp Hcaller Haddr Hinput Hgas Hfuel He))
    as (e' & r & E & (ret & g & err & sp' & -> & _) & Hq). destruct (Hq Hb) as (sp2 & Hd & Hsame). exists e', (ret, g, err). split; [done|]. by exists sp2.
Qed.


End calls.
End machine.

(** ** A concrete machine *)

(** Primitives that answer something of the right size. *)
Definition toy_native : Native.
Proof.
  refine {| sha256_Sum256 _ := zeroes 32; ripemd160_Sum _ := zeroes 20; G1 := unit; G2 := unit; G1_Unmarshal _ := Some tt;
    G2_Unmarshal _ := Some tt; G1_Add _ _ := tt; G1_ScalarMult _ _ := tt; G1_Marshal _ := zeroes 64; PairingCheck _ _ := true |}.
  all: intros; split; [reflexivity|apply bytes_ok_zeroes].
Defined.

(** All forks from the first block on. *)
Definition demo_config : ChainConfig := mkConfig (Some 1) (Some 0) None false (Some 0) [] (Some 0) (Some 0) (Some 0) (Some 0).
Definition demo_env : Env := mkEnv (fun _ => emptyHash) (addr 1) 1 (addr 2) 8000000 100 1000 1 demo_config false false.

(** Account 1 owns 1000; the contract at 5 writes a word and reverts. *)
Definition demo_code : list Z := [PUSH1; 1; PUSH1; 0; SSTORE; PUSH1; 0; PUSH1; 0; REVERT].
Definition demo_setup : list state_op := [OpSetBalance (addr 1) 1000; OpSetCode (addr 5) demo_code].
Definition demo_trie : SecureTrie := mkSecure (mkTrie Nil emptyHash None 0 120) ∅ false.
Definition demo_db : StateDB :=
  match @run_ops tag_keccak no_db no_code demo_setup (fresh_state demo_trie) with Ok (s, _) => s | _ => fresh_state demo_trie end.
Definition demo_world : world :=
  @update_acct tag_keccak (addr 5) (with_code (@keccak256 tag_keccak demo_code) demo_code)
    (@update_acct tag_keccak (addr 1) (with_balance 1000) no_accounts).
Definition demo_sp : spec := mkSpec demo_world [] 0.

Lemma demo_match : @state_match tag_keccak no_db no_code ∅ demo_db demo_sp.
Proof.
  assert (@committed tag_keccak no_db no_code ∅ no_accounts) as Hc by (split; [intros a; unfold acct_at; by rewrite !lookup_empty|done]).
  assert (@holds tag_keccak no_db (s_trie (fresh_state demo_trie)) ∅) as Hh by (by apply holds_empty).
  pose proof (@state_New_match tag_keccak no_db no_code emptyHash (fresh_state demo_trie) ∅ no_accounts eq_refl Hh Hc) as Hm.
  destruct (@run_refines tag_keccak no_db no_code (@no_db_coherent tag_keccak) eq_refl ∅ demo_setup _ _ Hm) as (s & E & Hs).
  unfold demo_db. rewrite E. exact Hs.
Qed.

(** An account that is written anew adds at most its balance to what all own. *)
Lemma world_ok_grow T w a v : world_ok T w -> acct_ok v -> world_ok (T + v_balance v) (set_acct a (Some v) w).
Proof.
  intros Hw Hv. pose proof (bal_nonneg T w a Hw) as Hb. pose proof (ao_balance _ Hv). split.
  - intros b u. unfold set_acct. cbn [w_acct]. case_bool_decide; [by intros [= <-]|apply Hw].
  - intros l Hl. rewrite (total_of_change (bal w) _ a) by (try done; intros b Hb'; rewrite bal_set_acct, bool_decide_false by done; done).
    pose proof (wo_supply _ _ Hw l Hl). destruct (bool_decide (a ∈ l)); [rewrite bal_set_acct, bool_decide_true by done|]; lia.
Qed.

Lemma demo_world_ok : world_ok 1000 demo_world.
Proof.
  assert (world_ok 0 no_accounts) as H0.
  { split; [done|]. intros l _. induction l as [|a l IH]; [done|]. cbn. exact IH. }
  pose proof (world_ok_grow 0 no_accounts (addr 1) (with_balance 1000 (@fresh_acct tag_keccak)) H0 ltac:(apply acct_ok_balance; [apply fresh_acct_ok|lia])) as H1.
  apply (world_ok_grow 1000 _ (addr 5) (with_code (@keccak256 tag_keccak demo_code) demo_code (@fresh_acct tag_keccak)) H1).
  destruct (@fresh_acct_ok tag_keccak). split; cbn [with_code v_nonce v_balance v_codehash v_code v_storage]; try done; [apply (@keccak256_ok tag_keccak)|]. split; [|done]. by apply (bool_decide_unpack (bytes_ok demo_code)).
Qed.

Lemma demo_evm_is : @EvmCallSpec.evm_is StateDB (@state_match tag_keccak no_db no_code ∅) 1000 (NewEVM demo_db) demo_sp.
Proof. split; [apply demo_match|split; [apply demo_world_ok|constructor]|apply data_ok_nil]. Qed.

Lemma demo_env_ok : env_ok demo_env.
Proof.
  split; [intros n; apply emptyHash_hash|apply addr_ok; unfold is_byte; lia|apply addr_ok; unfold is_byte; lia|by apply word_small].
Qed.

Lemma toy_recover h sig : @Ecrecover toy_ecdsa h sig <> Some [].
Proof. done. Qed.

Lemma demo_caller : @ref_ok go_runtime (AccountRef (addr 1)) /\ Common.address_ok (addr 5) /\ @gas_ok go_runtime 30000 /\ is_word 7 /\ 30000 < Z.of_nat (Z.to_nat 30001).
Proof.
  split_and!; [apply addr_ok; unfold is_byte; lia|apply addr_ok; unfold is_byte; lia|split; [lia|by vm_compute]|by apply word_small|lia].
Qed.

(** What a call answers, without the machine. *)
Definition answer_of {S E A} (r : outcome Empty_set (S * (E + A))) : option A := match r with Ok (_, inr a) => Some a | _ => None end.

(** The calls of the machine on the state database. *)
Definition demo_call (gas value : Z) :=
  @evm_Call tag_keccak toy_ecdsa toy_native go_runtime StateDB (@statedb_ops tag_keccak no_db no_code) demo_env (Z.to_nat (gas + 1))
    (AccountRef (addr 1)) (addr 5) [] gas value (NewEVM demo_db).

Abbreviation demo_state_ops := (@statedb_ops tag_keccak no_db no_code).
Definition demo_Run := Run (@run_loop tag_keccak toy_ecdsa toy_native go_runtime StateDB demo_state_ops demo_env (Z.to_nat 30000)).

(** Minus eight divided by three. *)
Lemma arithmetic_exact_witness :
  @computes tag_keccak toy_ecdsa toy_native go_runtime StateDB demo_state_ops demo_env demo_Run SDIV (2 ^ 256 - 8) 3 (2 ^ 256 - 2).
Proof.
  apply (@arithmetic_exact tag_keccak toy_ecdsa toy_native go_runtime StateDB demo_state_ops demo_env demo_Run SDIV spec_sdiv); [|split; lia|split; lia].
  do 4 right. left.
Defined.

Lemma shifts_exact_witness :
  @computes tag_keccak toy_ecdsa toy_native go_runtime StateDB demo_state_ops demo_env demo_Run SAR 256 0 (2 ^ 256 - 1).
Proof.
  apply (@shifts_exact tag_keccak toy_ecdsa toy_native go_runtime StateDB demo_state_ops demo_env demo_Run 256 0); [reflexivity|split; lia|split; lia].
Defined.

(** Position 1 holds a JUMPDEST, but as data. *)
Lemma jump_exact_witness :
  let c := mkContract (addr 1) (addr 5) [PUSH1; JUMPDEST; JUMPDEST] (zeroes 32) None [] 100 (Some 0) false in
  let f pc st := mkFrame pc st NewMemory c (NewEVM demo_db) in
  opJump (f 0 [2]) = Ok (f 2 [], inr []) /\ opJump (f 0 [1]) = Ok (f 0 [], inl (errInvalidJump JUMPDEST 1)).
Proof.
  intros c f. assert (data_ok (c_Code c)) as Hc by (split; [by apply (bool_decide_unpack (bytes_ok (c_Code c)))|done]). split.
  - exact (proj1 (@jump_exact StateDB 2 0 0 [] NewMemory c (NewEVM demo_db) ltac:(by apply word_small) Hc ltac:(lia))).
  - exact (proj1 (@jump_exact StateDB 1 0 0 [] NewMemory c (NewEVM demo_db) ltac:(by apply word_small) Hc ltac:(lia))).
Defined.

Definition demo_contract : Contract := mkContract (addr 1) (addr 5) demo_code (zeroes 32) None [] 30000 (Some 0) false.
Definition demo_frame : frame StateDB := mkFrame 0 [] NewMemory demo_contract (NewEVM demo_db).

(** The first round pushes a word for three units of gas. *)
Lemma round_typed_witness :
  exists f' sp', @round tag_keccak toy_ecdsa toy_native go_runtime StateDB demo_state_ops demo_env demo_Run demo_frame = Ok (f', inr Continue) /\
    f_stack f' = [1] /\ c_Gas (f_contract f') = 29997 /\ @frame_ok go_runtime StateDB (@state_match tag_keccak no_db no_code ∅) 1000 f' sp'.
Proof.
  destruct demo_caller as (Hc & Ha & Hg & _ & _).
  assert (@contract_ok go_runtime demo_contract) as Hco.
  { split; [split; [by apply (bool_decide_unpack (bytes_ok demo_code))|done]|apply data_ok_nil|done|exists 0; by split; [|apply word_small]|done|done]. }
  destruct (@round_typed tag_keccak toy_ecdsa toy_native go_runtime no_db no_code (@no_db_coherent tag_keccak) eq_refl ∅ 1000 demo_env ltac:(lia) demo_env_ok toy_recover
    (Z.to_nat 30000) demo_frame demo_sp) as (f' & r & E & Hr).
  - split; [apply demo_evm_is|constructor|apply mem_ok_new|done].
  - cbn. lia.
  - cbn [demo_frame f_contract demo_contract c_Gas]. lia.
  - pose (view (o : outcome Empty_set (frame StateDB * (vm_error + flow))) :=
      match o with Ok (f, r) => Some (f_stack f, c_Gas (f_contract f), r) | _ => None end).
    pose proof (f_equal view E) as Ev. unfold view at 2 in Ev. vm_compute in Ev. injection Ev as Es Eg Er. subst r.
    destruct (Hr eq_refl) as (sp' & Hf & _). exists f', sp'. split; [exact E|]. split; [symmetry; exact Es|]. split; [symmetry; exact Eg|exact Hf].
Defined.

Lemma call_ends_witness :
  exists e' ret g err, demo_call 30000 7 = Ok (e', inr (ret, g, err)) /\ 0 <= g <= 30000.
Proof.
  destruct demo_caller as (Hc & Ha & Hg & Hv & Hf).
  exact (proj1 (@call_ends tag_keccak toy_ecdsa toy_native go_runtime no_db no_code (@no_db_coherent tag_keccak) eq_refl ∅ 1000 demo_env ltac:(lia) demo_env_ok toy_recover
    (Z.to_nat 30001) (AccountRef (addr 1)) (addr 5) [] 30000 (NewEVM demo_db) demo_sp Hc Ha data_ok_nil Hg Hf demo_evm_is 7 Hv ltac:(discriminate))).
Defined.

(** The contract wrote to its storage before it reverted. *)
Lemma call_atomic_witness :
  exists e' sp', demo_call 30000 7 = Ok (e', inr ([], 9988, Some errExecutionReverted)) /\
    @state_match tag_keccak no_db no_code ∅ (e_db e') sp' /\ sp_world sp' = demo_world.
Proof.
  destruct demo_caller as (Hc & Ha & Hg & Hv & Hf).
  destruct (@call_atomic tag_keccak toy_ecdsa toy_native go_runtime no_db no_code (@no_db_coherent tag_keccak) eq_refl ∅ 1000 demo_env ltac:(lia) demo_env_ok toy_recover
    (Z.to_nat 30001) (AccountRef (addr 1)) (addr 5) [] 30000 (NewEVM demo_db) demo_sp Hc Ha data_ok_nil Hg Hf demo_evm_is 7 Hv ltac:(discriminate))
    as (e' & ret & g & err & E & Hw).
  assert (ret = [] /\ g = 9988 /\ err = Some errExecutionReverted) as (-> & -> & ->).
  { pose proof (f_equal answer_of E) as Ea. clear -Ea. vm_compute in Ea. by injection Ea as <- <- <-. }
  destruct (Hw ltac:(discriminate)) as (sp' & Hm & Hw'). exists e', sp'. split; [exact E|]. split; [exact Hm|symmetry; exact Hw'].
Defined.

Lemma call_supply_witness :
  exists e' r sp', demo_call 30000 7 = Ok (e', inr r) /\ @state_match tag_keccak no_db no_code ∅ (e_db e') sp' /\
    bal (sp_world sp') (addr 1) + bal (sp_world sp') (addr 5) <= 1000.
Proof.
  destruct demo_caller as (Hc & Ha & Hg & Hv & Hf).
  destruct (@call_supply tag_keccak toy_ecdsa toy_native go_runtime no_db no_code (@no_db_coherent tag_keccak) eq_refl ∅ 1000 demo_env ltac:(lia) demo_env_ok toy_recover
    (Z.to_nat 30001) (AccountRef (addr 1)) (addr 5) [] 30000 (NewEVM demo_db) demo_sp Hc Ha data_ok_nil Hg Hf demo_evm_is 7 Hv ltac:(discriminate))
    as (e' & r & E & sp' & Hm & Ht & _).
  exists e', r, sp'. split; [exact E|]. split; [exact Hm|].
  specialize (Ht [addr 1; addr 5] ltac:(apply (bool_decide_unpack (NoDup [addr 1; addr 5])); vm_compute; exact I)). cbn [total_of foldr] in Ht. lia.
Defined.

(** The contract is refused the write. *)
Lemma static_call_quiet_witness :
  exists e' sp', @evm_StaticCall tag_keccak toy_ecdsa toy_native go_runtime StateDB demo_state_ops demo_env (Z.to_nat 30001)
      (AccountRef (addr 1)) (addr 5) [] 30000 (NewEVM demo_db) = Ok (e', inr ([], 0, Some errWriteProtection)) /\
    @state_match tag_keccak no_db no_code ∅ (e_db e') sp' /\ @same_accounts tag_keccak demo_world (sp_world sp').
Proof.
  destruct demo_caller as (Hc & Ha & Hg & Hv & Hf).
  destruct (@static_call_quiet tag_keccak toy_ecdsa toy_native go_runtime no_db no_code (@no_db_coherent tag_keccak) eq_refl ∅ 1000 demo_env ltac:(lia) demo_env_ok toy_recover
    (Z.to_nat 30001) (AccountRef (addr 1)) (addr 5) [] 30000 (NewEVM demo_db) demo_sp Hc Ha data_ok_nil Hg Hf demo_evm_is eq_refl)
    as (e' & r & E & sp' & Hm & Hs).
  assert (r = ([], 0, Some errWriteProtection)) as -> by (pose proof (f_equal answer_of E) as Ea; clear -Ea; vm_compute in Ea; by injection Ea as <-).
  exists e', sp'. split; [exact E|]. split; [exact Hm|exact Hs].
Defined.


(** Without enough gas for the write all of it is gone. *)
Lemma call_errors_witness : exists e' ret, demo_call 20001 7 = Ok (e', inr (ret, 0, Some ErrOutOfGas)).
Proof.
  destruct demo_caller as (Hc & Ha & _ & Hv & _).
  destruct (@call_errors tag_keccak toy_ecdsa toy_native go_runtime no_db no_code (@no_db_coherent tag_keccak) eq_refl ∅ 1000 demo_env ltac:(lia) demo_env_ok toy_recover
    (Z.to_nat 20002) (AccountRef (addr 1)) (addr 5) [] 20001 (NewEVM demo_db) demo_sp Hc Ha data_ok_nil ltac:(split; [lia|by vm_compute]) ltac:(lia) demo_evm_is 7 Hv ltac:(discriminate))
    as (e' & ret & g & err & E & Hr).
  assert (err = Some ErrOutOfGas) as -> by (pose proof (f_equal answer_of E) as Ea; clear -Ea; vm_compute in Ea; by injection Ea as _ _ <-).
  assert (g = 0) as ->; [|exists e', ret; exact E]. clear E. unfold verdict in Hr.
  replace (bool_decide (bal (sp_world demo_sp) (ref_Address (AccountRef (addr 1))) < 7)) with false in Hr by (vm_compute; reflexivity).
  cbn in Hr. destruct Hr as [Hr|[Hr|Hr]]; [discriminate|discriminate|exact Hr].
Defined.
